(* ===== verification/_CoqProject ===== *)
-Q . S2P
Prelude.v
Js.v
Zod.v
Protocol.v
LifecycleEvents.v
LifecycleProps.v
EventStore.v
EventStoreProps.v
Coordinator.v
Projector.v
Sink.v
ProjectorFacts.v
ProjectorProps.v
Simulation.v
CoordinatorProps.v
Restore.v
RestoreFacts.v
Liveness.v
RestoreProps.v
Footprint.v
Closable.v
Ordering.v
Admission.v
AdmissionProps.v
Permission.v
PermissionProps.v
Regex.v
Tasks.v
Scheduler.v
SchedulerProps.v
Dependencies.v
Recovery.v
KernelErrors.v
Workspace.v
WorkerEvents.v
Kernel.v
RuntimeKernel.v
KernelSteps.v
KernelCalls.v
KernelTurn.v
KernelApprovals.v
KernelTools.v
KernelBound.v
KernelDemo.v
KernelProps.v
Async.v
Text.v
Json.v
ArtifactStore.v
ArtifactPool.v
ArtifactFacts.v
ArtifactProps.v
TurnArtifacts.v
GitStatus.v
GitStatusProps.v
GitRefs.v
GitSnapshot.v
GitService.v
GitServiceProps.v
Approvals.v
StableJson.v
ApprovalsProps.v
RiskyAction.v
RuleProps.v
ToolGate.v
ToolGateProps.v
ToolFailures.v
AgenticLoop.v
AgenticLoopProps.v
ContextAssembly.v
IntentClassifier.v
ContextBudget.v
Toolbox.v
WorkspacePaths.v
WorkspaceEdit.v
WorkspaceEditProps.v
FileTools.v
FileToolsProps.v
