(* ===== verification/Prelude.v ===== *)
(** * A verified model of the LegionCode runtime

    LegionCode runs coding agents.  A user's message starts a turn; the turn
    streams text, calls tools, waits for approvals and ends.  Everything that
    happens in it is an event of one sequence, and the parts of the program
    meet at that sequence:

    - [packages/platform-protocol] says what an event is and how statuses move;
    - [packages/runtime-kernel] owns the sequence of a turn
      ([RuntimeLifecycleCoordinator]) and appends to a sink, in batches;
    - [packages/event-store] keeps the events, once each, without gaps;
    - [packages/persistence] folds the events of a turn into the state the rest
      of the system reads ([LifecycleProjector]);
    - [packages/platform-client-sdk] keeps a client's stream in order;
    - [apps/brain] decides whether a run may start ([RunAdmissionLimiter]);
    - [RuntimeKernel] of [packages/runtime-kernel] runs the turn: it asks the
      model for steps, runs tools behind approvals, and settles;
    - [packages/workspace-core] keeps the manifest of each workspace;
    - [packages/permission-policy] decides what a tool call may touch;
    - [packages/execution-engine] schedules the tasks of a run, recovers it, and
      runs the agentic loop of model steps and tool calls;
    - [packages/context-assembly-runtime], [packages/context-builder] and
      [packages/context-pruner] make the context a model is given;
    - [packages/artifact-store] keeps the payloads a turn produces, its
      snapshots and its diff among them;
    - [packages/git-service] runs git for all of them;
    - [apps/secure-agent-api] runs commands and reads, searches and edits files
      in the sandbox.

    ** Files

    The foundations.
    - Prelude.v: results [res], the state and error monad [ST] (mutations made
      before a [throw] stay), its weakest preconditions [wp] and invariants
      [keeps], dictionaries [dict] (objects and [Map]s, in insertion order), the
      hint database [legion].
    - Js.v: strings, integers and JSON of the language; [JsRuntime] is the
      class of what depends on the host.
    - Zod.v: the schema combinators the sources use, as parsers.

    The protocol (src/packages/platform-protocol/src).
    - Protocol.v: ids.ts, errors.ts and the statuses, transition tables and
      settlement rules of lifecycle.ts.
    - LifecycleEvents.v: the schema of every event type, [parse_event].
    - LifecycleProps.v: [lifecycle_walks], [settlement_exact], C25.

    The event store (src/packages/event-store/src).
    - EventStore.v: fingerprint.ts and MemoryLifecycleEventStore.ts; the
      invariant [store_ok].
    - EventStoreProps.v: C7, C8, [append_accepts] and
      C18.

    The coordinator (src/packages/runtime-kernel/src).
    - Coordinator.v: the fields ([RuntimeLifecycleCoordinator]) and one
      definition per method; [operation] lists the public methods, [run_op] runs
      one, [run_operations] runs a sequence, as [enqueue] does.
    - Sink.v: the interface to the store.  [LifecycleSink] is the operation,
      [LifecycleSinkLaws] the promise about the batches a coordinator writes,
      [SinkAvailable] that none of them is refused; the memory store implements
      all three.
    - Simulation.v: the relation [sim] between a coordinator and a projection,
      kept by every operation on every path, errors included; C1.
    - CoordinatorProps.v: [ended_turn_silent], [splitLifecycleOutput_lossless],
      [failed_compaction_throws].
    - Restore.v, RestoreFacts.v, RestoreProps.v: [restoreForInterruption], what
      its checks guarantee, and C3 to C5.
    - Liveness.v: closing a turn succeeds on an available sink.

    The projection (src/packages/persistence/src/lifecycle-projections).
    - Projector.v: the fold; ProjectorFacts.v: one step lemma per kind of
      event; ProjectorProps.v: C19 and
      C22.

    The client and the admission of runs.
    - Ordering.v: lifecycle-ordering.ts and C23.
    - Admission.v, AdmissionProps.v: RunAdmissionLimiter.ts and C24,
      [lease_lifecycle], [window_admits_limit].

    Permissions (src/packages/permission-policy/src).
    - Permission.v: patterns.ts (the wildcard matcher as its loop, [match_step]
      and [match_loop]), types.ts, evaluate.ts; PermissionProps.v:
      [last_rule_decides], C30, [local_network_closed], C31 and
      [policy_roundtrip].

    The execution engine's task queue (src/packages/execution-engine/src/runtime).
    - Tasks.v: Task.ts, TaskState.ts, TaskRepository.ts, Run.ts,
      RunStateMachine.ts and RunRepository.ts over a key-value storage.
    - Scheduler.v: RetryClassifier.ts, RetryPolicy.ts and TaskScheduler.ts;
      SchedulerProps.v: the abstract queue [queue_step], C26,
      C27, C28 and [failing_hook_diverges].
    - Dependencies.v: DependencyResolver.ts,
      C29 and [validateDAG_exact].
    - Recovery.v: RunRecovery.ts, C35.

    Workspaces and the turn runner (src/packages/workspace-core/src,
    src/packages/runtime-kernel/src).
    - Workspace.v: manifest.ts, state-machine.ts and repository.ts; C36.
    - KernelErrors.v: errors.ts; WorkerEvents.v: WorkerResultEventMapper.ts and
      the artifact schema of the protocol.
    - Kernel.v: types.ts, ports.ts, WorkspaceCoordinator.ts,
      ApprovalCoordinator.ts, ToolExecutionCoordinator.ts and
      TurnArtifactSettlementCoordinator.ts; RuntimeKernel.v: RuntimeKernel.ts
      and ProviderContextBudget.ts, one definition per method, the loop of model
      steps with fuel.
    - Footprint.v, Closable.v: what each operation of the coordinator can
      change, and C6: after any of them the turn can still be closed.
    - KernelSteps.v: the steps other callers take while the kernel waits
      ([port_step]), the promises of the ports ([HonestPorts]) and the
      assertions the steps keep; KernelCalls.v, KernelTurn.v, KernelApprovals.v
      and KernelTools.v: the kernel's parts against them; KernelBound.v: a log
      of the tools executed and what the loop adds to it; KernelDemo.v: a host
      that keeps the promises; KernelProps.v: C2 and C17.

    Artifacts (src/packages/artifact-store/src).
    - Async.v: async functions as resumptions ([async]); a pool of pending
      operations runs one segment at a time, in any order ([pool_steps]), and
      [holds] is a rely-guarantee assertion about an operation among others.
    - Text.v: splitting and cutting texts, numbers read from texts.
    - Json.v: [JSON.parse], the UTF-8 encoder and decoder, and their round trips
      with [JSON.stringify].
    - ArtifactStore.v: errors.ts, types.ts and InMemoryArtifactStore.ts, an await
      being the end of a segment; ArtifactPool.v, ArtifactFacts.v: the invariant
      of interleaved operations, and one operation on a consistent store;
      ArtifactProps.v: C9, [artifact_lifecycle], and three races.
    - TurnArtifacts.v: TurnArtifactStore.ts against the interface [ArtifactStore];
      its laws, the in-memory store as an instance, and
      C34.

    Git (src/packages/git-service/src).
    - GitStatus.v: errors.ts and status.ts; GitStatusProps.v: git's format as a
      printer and C33.
    - GitRefs.v: executor.ts, validation.ts and refs.ts; GitSnapshot.v:
      snapshot.ts; GitService.v: GitService.ts, where [git_call] lists the methods
      and [run_call] runs one on the log of commands; GitServiceProps.v: what may
      be in a command ([allowed]) and C32.

    Approvals and the tool gate
    (src/packages/execution-engine/src/runtime/engine and
    src/packages/shared-types/src).
    - Regex.v: the matcher for the regular expressions the sources use, and
      [split] at white space.
    - Approvals.v: approval-policy.ts and PermissionApprovalStore.ts, a method
      being a computation on the stored state; [approval_call] lists them and
      [approval_step] runs one.  StableJson.v: [stableStringify] tells values
      apart. ApprovalsProps.v: what a call does to an allowance ([step_ok]), C21
      and C11.
    - RiskyAction.v: permission-policy.ts, RunPermissionContextPolicy.ts and the
      classification and policy of RunRiskyActionPolicy.ts; RuleProps.v:
      [offered_rule_works].
    - ToolGate.v: [evaluateToolPermission], RunApprovalWaitPolicy.ts,
      RunApprovalDecisionPolicy.ts, PermissionGateError.ts and
      [executeDirectToolCall] of RunAgenticLoopCallbacksPolicy.ts as
      asynchronous operations on a [gate_world]; ToolGateProps.v: C20, C10,
      [wait_ends] and runs that show what the gate lets through.

    The agentic loop (src/packages/execution-engine/src/runtime/engine and
    src/packages/execution-engine/src/runtime/capabilities).
    - ToolFailures.v: RuntimeCapabilityManifest.ts (the fields the loop reads),
      StructuredToolError.ts, AgenticLoopToolHelpers.ts,
      GitToolFailureClassifier.ts and ToolFailureTerminalPolicy.ts.
    - AgenticLoop.v: AgenticLoop.ts and NativeProviderCommentary.ts; [LoopState]
      is the fields of the loop and the variables of [execute], [call_tool] one
      round of the loop over the calls, [one_step] one of the loop over the
      steps.
    - AgenticLoopProps.v: C38, C39, C37, [fingerprint_exact], and runs that show
      what exceptions of the hooks do.

    The context of a model (src/packages/context-assembly-runtime/src,
    src/packages/context-pruner/src, src/packages/context-builder/src and
    src/packages/intent-classifier/src).
    - ContextAssembly.v: the builder, budget, counter, assemblers and formatters
      of context-assembly-runtime, and [pruneToolResults]; C40 and
      [pruning_bounded_and_stable].
    - IntentClassifier.v: rules.ts and classifier.ts;
      [classification_justified].
    - ContextBudget.v: the second builder, context-builder: its strategies,
      blocks, BudgetCalculator.ts, BudgetEnforcer.ts and prompts;
      [calculate_overrun], [classified_never_builds] and [summary_needs_commit].

    The sandbox (src/apps/secure-agent-api/src).
    - Toolbox.v: SafeCommand.ts and ToolboxCommandContext.ts of
      plugins/security, ToolboxPolicyService.ts, ToolboxSessionService.ts and
      CloudflareToolboxAdapter.ts of toolbox; C13, with a reader of shell
      quoting as reference.
    - WorkspacePaths.v: node's path.posix, PathGuard.ts and WorkspaceScope.ts;
      C14.
    - WorkspaceEdit.v: WorkspacePathResolver.ts, Utf8Text.ts and
      WorkspaceEditService.ts of plugins/filesystem, C16; WorkspaceEditProps.v:
      C12 and [edit_alone].
    - FileTools.v: RipgrepService.ts, LanguageToolService.ts and
      FileSystemPlugin.ts; FileToolsProps.v: C15.

    ** What the theorems show

    C1 to C5 are about the composition.  The coordinator keeps its own copy of
    the turn's state and the projector derives one from the log: C1 says they
    never disagree, whatever operations are run and however many fail on the
    way; C3 says the same of a coordinator rebuilt from the log after a crash;
    C4 and C5 that such a turn can then be ended.  C7, C8, [append_accepts] and
    C18 are the contract of the store the other parts build on, C19 and C22 that
    of the projector. [ended_turn_silent] and [failed_compaction_throws] are
    about single operations, C23 about the client, C24, [lease_lifecycle] and
    [window_admits_limit] about admission, [lifecycle_walks], [settlement_exact]
    and C25 about the protocol itself.

    C26 to C28 are the contract of the task scheduler: it implements an abstract
    queue ([queue_step]), whose steps respect the dependencies, and it ends;
    [failing_hook_diverges] is the case where it does not. C29 and
    [validateDAG_exact] characterise the two graph algorithms beside it, C35
    recovery.  [last_rule_decides] to C31 say what a permission policy means and
    what it cannot let through. C36 is the contract of the workspace repository.
    C6 and C2 say that turns end: the first of the coordinator, after any
    operations, the second of the kernel around it, whatever the model, the
    tools, the user and concurrent callers do; C17 bounds the kernel's loop. C9
    says what overlapping operations leave of the artifact store,
    [artifact_lifecycle] what one operation after another does, C34 that a diff
    survives JSON, UTF-8 and the store.  C33 is about reading git's answers, C32
    about what is sent to it. C10 is the contract of the tool gate among other
    operations, C20 the part of it that needs no approval, C11 and C21 that of
    the store of approvals behind it, [offered_rule_works] that of the rules it
    offers. C38 says what the agentic loop tells the model and when it ends, C39
    that tools cannot break it, C37 that its counters are what happened and that
    a completed read is not executed again. C40 and [calculate_overrun] say how
    far the two context builders keep their budgets,
    [pruning_bounded_and_stable] what pruning leaves of a history. C14 says
    which paths the sandbox accepts, C13 what one command is to the shell, C15
    which commands the file tools can run at all; C16 is about one edit of a
    text, C12 about several edits of files, and what is left of them when
    something fails. Callers owe the coordinator what [op_contract] says (new
    item ids, an approval requested only while the turn is in progress).  Two
    Examples of CoordinatorProps.v show what happens otherwise:
    [second_approval_corrupts] and [lost_unblock_never_settles].

    ** Modelling choices

    - A [number] is a rational [Q] in JSON; sequences, counts and times are [Z].
      The schemas bound them by [MAX_SAFE_INTEGER], and what needs room for a
      next sequence number says so ([room]).
    - Strings are sequences of code units below 256.
    - A [Map] or object is a [dict] where the order of its keys is observable, a
      [gmap] where it is not (the indexes of the store, the durable storage).
    - Promises: an [await] on the sink is a call.  The coordinator's [enqueue]
      and the limiter's [withAdmissionLock] make operations run one at a time,
      so a history is a sequence of operations.
    - Fuel: [dec_go] (decimal digits) has as much as the number has bits,
      [read_pages] one unit per logged event and one more, [split_chunks] one
      per character; the theorems that use them give the fuel that suffices.
    - [JsRuntime] holds what depends on the host: the text of a non-integer
      number, [localeCompare] and zod's timestamp check; its laws are documented
      behaviour and [iso_runtime] is an instance.
    - The WHATWG URL parser ([UrlParser]), the task executor and hooks
      ([TaskExecutor], [SchedulerHooks], each a state transformer that may
      throw) and the memory coordinator ([MemoryCoordinator]) are parameters; a
      theorem about them holds for each of their implementations.
    - A batch of tasks runs one task after the other, which is what the default
      concurrency limit of one does.  Task objects are read from the storage at
      each access, so no two share state.
    - Fuel in these files: [match_loop] has [match_fuel], which is proved
      enough; [execute] counts rounds and nested retries, bounded by
      [queue_weight]; [dfs_fuel] and the number of tasks bound the two graph
      algorithms.  Running out is a value of its own ([OutOfFuel], [None]),
      never confused with a result.
    - The kernel's maps are keyed by turn id; [TurnSlots] is their entries for
      one turn.  A port ([KernelPorts]) is a computation on the kernel's world
      that may throw; while it is awaited the other entry points may run, so it
      may change that world too, and [kp_others] is what they do while the
      kernel waits for the coordinator's queue.  A promise kept for later
      callers is a slot: absent, in flight, or settled ([kept]).
    - [executeLoop] has one unit of fuel per model step and returns [None] when
      it runs out.
    - [HonestPorts] is what C2 asks of the ports: while one runs the turn takes
      only the steps of [port_step], ids of items it returns are new, a wait for
      a decision does not itself throw a refusal, [awaitQuiescence] does not
      throw, and who awaits a shared promise gets what its first caller got.
      [demo_ports] keep it. [ToolLog] is what C17 asks of them: only the
      execution of a tool adds to the log of the tools executed.
    - An async function of the artifact store is a resumption; an [await] ends a
      segment, and [promise_all] advances its parts in lockstep (after one
      rejects the others are not followed).  The authorizer, the clock and the
      id source act on a world of any type.  A caller does not change a payload
      while its put runs.
    - [JSON_parse] has [parse_fuel], proved enough ([JSON_parse_ends]).
      [JsonNumbers] and [NumberTexts] hold the texts of numbers that are not
      plain integers; [WebCrypto] is SHA-256, [RepoUrls] the URL parser of
      git-service.
    - Git is [respond], a function of the commands executed before and the
      command; every command is executed to its end before the next.  [parseInt]
      is exact beyond 2^53, where the code rounds.
    - A method of the approval store runs inside [blockConcurrencyWhile] and is
      one step; the clock stands still while it runs.  Keys are not names of
      [Object.prototype].  [IsoDates] holds the text of dates; its two laws are
      that the text of a time is parsed back to it and is not empty.
    - The gate of a tool call is a resumption whose segments are the accesses to
      the approvals, the clock and the run; [plays] says how it settles when
      others change these in between.  The loop that waits for a decision has
      [max_polls] rounds, which [wait_ends] proves enough.  [ProductMode] has
      the four modes of its type; the branch for another value is not modelled.
    - The ports of the agentic loop ([LoopPorts]) are computations on a world of
      any type that may throw; [HooksReturn] and [Recorded] are what C39 and C37
      ask of them.  The timer that polls for a cancellation during an await is
      [lp_interrupted]: whether a poll finds the run cancelled before the call
      settles.  [maxSteps] is a natural number, and the recursion over the steps
      is structural; log lines are left out.
    - [ActivityMetadata] is the schema of a tool's activity, [Tokenizer] the
      encoder of tiktoken, [Emoji] the icons, whose code units are above 255.
      [words * 1.3] is computed in binary64 ([SpecFloat]); characters per token
      and the buffer percentage are whole numbers; an object whose [length] is
      not that of an array is not modelled.
    - The sandbox is a record of ports ([Sandbox]) on a world of any type:
      executing a text, reading and writing a file, the timers, the clock and
      the random sources. [Logged] and [FilesQuiet] say that a world records the
      texts executed. [SandboxFiles] is how the files change under mkdir, test,
      stat, chmod, realpath, mv and rm: it never promises that a command
      succeeds or is answered. [HostAnswers] is that an answer of [realpath]
      that exits with 0 is an absolute path in normal form, and that a uuid
      holds no slash.  A command whose timer fires is not stopped: its effects
      are placed where it is abandoned.  The edits of [multiEdit] are prepared
      one after the other (the code starts them together; they only read).  A
      path is never resolved against the directory of the process; zod's
      messages are a parameter.

    ** Not modelled

    The transports and user interfaces, the model providers, their prompts and
    the executors of tools, the SQL repositories (their behaviour is the
    database's), and the remaining wire schemas.  Of the modelled files, log
    messages are left out; in the lifecycle's files an exception is the
    constructor of [error] for its class with the fields callers test, in the
    execution engine's it carries its message. *)
From stdpp Require Export base tactics list strings gmap.
From Stdlib Require Export ZArith.

Declare Scope legion_scope.
Delimit Scope legion_scope with legion.
Create HintDb legion.

(** * Results and effectful code *)

(** A JavaScript computation either returns or throws. *)
Inductive res (E A : Type) : Type :=
| Ok (a : A)
| Err (e : E).
Arguments Ok {E A} a.
Arguments Err {E A} e.

Definition is_some {A} (o : option A) : bool :=
  match o with Some _ => true | None => false end.

Definition is_ok {E A} (r : res E A) : bool :=
  match r with Ok _ => true | Err _ => false end.

#[export] Instance res_ret E : MRet (res E) := fun A a => Ok a.
#[export] Instance res_bind E : MBind (res E) := fun A B k m =>
  match m with Ok a => k a | Err e => Err e end.

(** Code that mutates an object and may throw: the mutations made before a
    [throw] stay, as they do in JavaScript. *)
Definition ST (S E A : Type) : Type := S -> res E A * S.

#[export] Instance ST_ret S E : MRet (ST S E) := fun A a s => (Ok a, s).
#[export] Instance ST_bind S E : MBind (ST S E) := fun A B k m s =>
  match m s with
  | (Ok a, s') => k a s'
  | (Err e, s') => (Err e, s')
  end.

Definition throw {S E A} (e : E) : ST S E A := fun s => (Err e, s).
Definition gets {S E A} (f : S -> A) : ST S E A := fun s => (Ok (f s), s).
Definition modify {S E} (f : S -> S) : ST S E unit := fun s => (Ok tt, f s).
Definition lift {S E A} (r : res E A) : ST S E A := fun s => (r, s).

(** [if (b) throw e;] *)
Definition throw_if {S E} (b : bool) (e : E) : ST S E unit :=
  if b then throw e else mret tt.

(** [try { m } catch (e) { h(e) }] *)
Definition try_catch {S E A} (m : ST S E A) (h : E -> ST S E A) : ST S E A :=
  fun s => match m s with
           | (Ok a, s') => (Ok a, s')
           | (Err e, s') => h e s'
           end.

(** [for (const x of xs) { await f(x); }] *)
Fixpoint for_of {S E A} (xs : list A) (f : A -> ST S E unit) : ST S E unit :=
  match xs with
  | [] => mret tt
  | x :: xs' => _ ← f x; for_of xs' f
  end.

(** [xs.map(f)] for a function with effects *)
Fixpoint map_of {S E A B} (xs : list A) (f : A -> ST S E B) : ST S E (list B) :=
  match xs with
  | [] => mret []
  | x :: xs' => y ← f x; ys ← map_of xs' f; mret (y :: ys)
  end.

(** [xs.map(f)] for a function that may throw *)
Fixpoint res_map {E A B} (f : A -> res E B) (xs : list A) : res E (list B) :=
  match xs with
  | [] => Ok []
  | x :: xs' =>
      match f x with
      | Err e => Err e
      | Ok y => match res_map f xs' with Err e => Err e | Ok ys => Ok (y :: ys) end
      end
  end.

(** Weakest precondition of such a computation: [Q] describes a normal return
    and [X] an exception. *)
Definition wp {S E A} (m : ST S E A) (Q : A -> S -> Prop) (X : E -> S -> Prop)
    (s : S) : Prop :=
  match m s with
  | (Ok a, s') => Q a s'
  | (Err e, s') => X e s'
  end.

(** A computation that keeps [I] whether it returns or throws. *)
Definition keeps {S E A} (I : S -> Prop) (m : ST S E A) : Prop :=
  forall s, I s -> I (snd (m s)).

Lemma wp_ret {S E A} (a : A) Q X (s : S) :
  wp (E:=E) (mret a) Q X s <-> Q a s.
Proof. done. Qed.

Lemma wp_lift {S E A} (r : res E A) (Q : A -> S -> Prop) (X : E -> S -> Prop) (s : S) :
  (forall a, r = Ok a -> Q a s) -> (forall err, r = Err err -> X err s) -> wp (lift r) Q X s.
Proof. unfold wp, lift. destruct r; auto. Qed.

Lemma wp_gets {S E A} (f : S -> A) (Q : A -> S -> Prop) (X : E -> S -> Prop) s :
  Q (f s) s -> wp (gets f) Q X s.
Proof. done. Qed.
Lemma wp_modify {S E} (f : S -> S) (Q : unit -> S -> Prop) (X : E -> S -> Prop) s :
  Q tt (f s) -> wp (modify f) Q X s.
Proof. done. Qed.

Lemma wp_bind {S E A B} (m : ST S E A) (k : A -> ST S E B) Q X s :
  wp (m ≫= k) Q X s <-> wp m (fun a s' => wp (k a) Q X s') X s.
Proof. unfold wp, mbind, ST_bind. by destruct (m s) as [[]]. Qed.

Lemma wp_throw {S E A} (e : E) Q X (s : S) :
  wp (A:=A) (throw e) Q X s <-> X e s.
Proof. done. Qed.

Lemma wp_mono {S E A} (m : ST S E A) (Q Q' : A -> S -> Prop) (X X' : E -> S -> Prop) s :
  wp m Q X s ->
  (forall a s', Q a s' -> Q' a s') -> (forall e s', X e s' -> X' e s') ->
  wp m Q' X' s.
Proof. unfold wp. destruct (m s) as [[]]; eauto. Qed.

Lemma wp_and {S E A} (m : ST S E A) Q X Q' X' (s : S) :
  wp m Q X s -> wp m Q' X' s ->
  wp m (fun a s' => Q a s' /\ Q' a s') (fun e s' => X e s' /\ X' e s') s.
Proof. unfold wp. by destruct (m s) as [[] ?]. Qed.

(** What holds however the first part ends. *)
Lemma wp_last {S E A B} (m : ST S E A) (k : A -> ST S E B) Q (s : S) :
  (forall a s', wp (k a) Q (fun _ _ => True) s') -> wp (m ≫= k) Q (fun _ _ => True) s.
Proof. intros Hk. apply wp_bind. unfold wp at 1. destruct (m s) as [[] s']; [apply Hk|done]. Qed.

Lemma wp_keeps {S E A} (I : S -> Prop) (m : ST S E A) :
  keeps I m <-> forall s, I s -> wp m (fun _ => I) (fun _ => I) s.
Proof.
  unfold keeps, wp. split; intros H s Hs; specialize (H s Hs);
    by destruct (m s) as [[]].
Qed.

Lemma wp_try_catch {S E A} (m : ST S E A) h Q X s :
  wp (try_catch m h) Q X s <-> wp m Q (fun e s' => wp (h e) Q X s') s.
Proof. unfold wp, try_catch. by destruct (m s) as [[]]. Qed.

(** Loop rule: an invariant indexed by the elements still to visit. *)
Lemma wp_for_of {S E A} (f : A -> ST S E unit) (I : list A -> S -> Prop)
    (X : E -> S -> Prop) xs s :
  (forall x xs' s', I (x :: xs') s' -> wp (f x) (fun _ => I xs') X s') ->
  I xs s -> wp (for_of xs f) (fun _ => I []) X s.
Proof.
  intros Hstep. revert s. induction xs as [|x xs IH]; intros s HI; simpl.
  - by apply wp_ret.
  - apply wp_bind. eapply wp_mono; [by apply Hstep| |done]. simpl. auto.
Qed.

Lemma res_bind_Ok {E A B} (m : res E A) (k : A -> res E B) b :
  (m ≫= k) = Ok b <-> exists a, m = Ok a /\ k a = Ok b.
Proof. destruct m; cbn; naive_solver. Qed.

Lemma res_map_Ok {E A B} (f : A -> res E B) xs ys :
  res_map f xs = Ok ys <-> Forall2 (fun x y => f x = Ok y) xs ys.
Proof.
  revert ys. induction xs as [|x xs IH]; intros ys; cbn.
  - split; [by intros [= <-]; constructor|by inversion_clear 1].
  - split.
    + destruct (f x) eqn:Hx; [|done]. destruct (res_map f xs) as [ys'|] eqn:Hxs; [|done].
      intros [= <-]. constructor; [done|]. by apply IH.
    + inversion_clear 1 as [|? y ? ys' Hx Hxs]. rewrite Hx.
      by apply IH in Hxs as ->.
Qed.

Lemma map_of_cons {S E A B} (f : A -> ST S E B) x xs s :
  map_of (x :: xs) f s =
  match f x s with
  | (Ok y, s1) =>
      match map_of xs f s1 with
      | (Ok ys, s2) => (Ok (y :: ys), s2)
      | (Err e, s2) => (Err e, s2)
      end
  | (Err e, s1) => (Err e, s1)
  end.
Proof.
  cbn. unfold mbind, ST_bind. destruct (f x s) as [[]]; [|done].
  by destruct (map_of xs f _) as [[]].
Qed.

Section Keeps.
Context {S E : Type} (I : S -> Prop).

Lemma keeps_ret {A} (a : A) : keeps (E:=E) I (mret a).
Proof. by intros s. Qed.

Lemma keeps_throw {A} (e : E) : keeps (A:=A) I (throw e).
Proof. by intros s. Qed.

Lemma keeps_gets {A} (f : S -> A) : keeps (E:=E) I (gets f).
Proof. by intros s. Qed.

Lemma keeps_lift {A} (r : res E A) : keeps I (lift r).
Proof. by intros s. Qed.

Lemma keeps_throw_if b (e : E) : keeps I (throw_if b e).
Proof. by destruct b; intros s. Qed.

Lemma keeps_bind {A B} (m : ST S E A) (k : A -> ST S E B) :
  keeps I m -> (forall a, keeps I (k a)) -> keeps I (m ≫= k).
Proof.
  intros Hm Hk s Hs. specialize (Hm s Hs). unfold mbind, ST_bind.
  destruct (m s) as [[] s']; [by apply Hk|done].
Qed.

Lemma keeps_try_catch {A} (m : ST S E A) (h : E -> ST S E A) :
  keeps I m -> (forall e, keeps I (h e)) -> keeps I (try_catch m h).
Proof.
  intros Hm Hh s Hs. specialize (Hm s Hs). unfold try_catch.
  destruct (m s) as [[] s']; [done|by apply Hh].
Qed.

Lemma keeps_for_of {A} (xs : list A) (f : A -> ST S E unit) :
  (forall x, keeps I (f x)) -> keeps I (for_of xs f).
Proof.
  intros Hf. induction xs; simpl; [apply keeps_ret|].
  apply keeps_bind; auto.
Qed.

Lemma keeps_map_of {A B} (xs : list A) (f : A -> ST S E B) :
  (forall x, x ∈ xs -> keeps I (f x)) -> keeps I (map_of xs f).
Proof.
  induction xs as [|x xs IH]; intros Hf; simpl; [apply keeps_ret|].
  apply keeps_bind; [apply Hf; set_solver|]. intros.
  apply keeps_bind; [apply IH; set_solver|]. intros. apply keeps_ret.
Qed.
End Keeps.
#[export] Hint Resolve keeps_ret keeps_throw keeps_gets keeps_lift keeps_throw_if
  keeps_bind keeps_for_of keeps_map_of : legion.

(** * Objects used as dictionaries

    A JavaScript object or [Map] with string keys: insertion order is the
    iteration order, and assigning an existing key keeps its place. *)
Definition dict (V : Type) : Type := list (string * V).

Fixpoint dget {V} (k : string) (d : dict V) : option V :=
  match d with
  | [] => None
  | (k', v) :: d' => if decide (k = k') then Some v else dget k d'
  end.

Fixpoint dset {V} (k : string) (v : V) (d : dict V) : dict V :=
  match d with
  | [] => [(k, v)]
  | (k', v') :: d' =>
      if decide (k = k') then (k', v) :: d' else (k', v') :: dset k v d'
  end.

Fixpoint ddel {V} (k : string) (d : dict V) : dict V :=
  match d with
  | [] => []
  | (k', v') :: d' => if decide (k = k') then d' else (k', v') :: ddel k d'
  end.

Definition dkeys {V} (d : dict V) : list string := map fst d.
Definition dvals {V} (d : dict V) : list V := map snd d.
Definition dmap {V W} (f : V -> W) (d : dict V) : dict W :=
  map (fun '(k, v) => (k, f v)) d.

(** [{ ...d1, ...d2 }] *)
Definition dmerge {V} (d1 d2 : dict V) : dict V :=
  foldl (fun d '(k, v) => dset k v d) d1 d2.

Section Dict.
Context {V : Type}.
Implicit Types (d : dict V) (k : string) (v : V).

Lemma dget_dset k k' v d :
  dget k (dset k' v d) = if decide (k = k') then Some v else dget k d.
Proof.
  induction d as [|[k0 v0] d IH]; simpl; [done|].
  destruct (decide (k' = k0)) as [->|]; simpl; [by case_decide|].
  rewrite IH. by repeat case_decide; subst.
Qed.

Lemma dget_dset_eq k v d : dget k (dset k v d) = Some v.
Proof. by rewrite dget_dset, decide_True. Qed.

Lemma dget_dset_ne k k' v d : k <> k' -> dget k (dset k' v d) = dget k d.
Proof. intros. by rewrite dget_dset, decide_False. Qed.

Lemma dget_None k d : dget k d = None <-> k ∉ dkeys d.
Proof.
  induction d as [|[k0 v0] d IH]; simpl; [set_solver|].
  case_decide; subst; set_solver.
Qed.

Lemma dget_elem k v d : dget k d = Some v -> (k, v) ∈ d.
Proof.
  induction d as [|[k0 v0] d IH]; simpl; [done|].
  case_decide; intros; simplify_eq; set_solver.
Qed.

Lemma elem_dget k v d : NoDup (dkeys d) -> (k, v) ∈ d -> dget k d = Some v.
Proof.
  induction d as [|[k0 v0] d IH]; simpl; intros Hnd Hin; [set_solver|].
  apply NoDup_cons in Hnd as [Hk Hnd].
  apply elem_of_cons in Hin as [Heq|Hin]; simplify_eq.
  - by rewrite decide_True.
  - case_decide; [subst|by apply IH]. exfalso. apply Hk.
    by apply (list_elem_of_fmap_2 fst) in Hin.
Qed.

Lemma dkeys_dset_old k v d : k ∈ dkeys d -> dkeys (dset k v d) = dkeys d.
Proof.
  induction d as [|[k0 v0] d IH]; cbn; [set_solver|].
  destruct (decide (k = k0)); cbn; [done|]. intros. f_equal. apply IH. set_solver.
Qed.

Lemma dkeys_dset_new k v d : k ∉ dkeys d -> dkeys (dset k v d) = dkeys d ++ [k].
Proof.
  induction d as [|[k0 v0] d IH]; cbn; [done|]. intros Hk.
  destruct (decide (k = k0)); cbn; [set_solver|]. f_equal. apply IH. set_solver.
Qed.

Lemma NoDup_dset k v d : NoDup (dkeys d) -> NoDup (dkeys (dset k v d)).
Proof.
  intros. destruct (decide (k ∈ dkeys d)); [by rewrite dkeys_dset_old|].
  rewrite dkeys_dset_new by done. apply NoDup_app; split_and!; [done|set_solver|apply NoDup_singleton].
Qed.

Lemma dset_fresh k v d : dget k d = None -> dset k v d = d ++ [(k, v)].
Proof.
  induction d as [|[k0 v0] d IH]; simpl; [done|].
  case_decide; [done|]. intros. by rewrite IH.
Qed.

Lemma elem_dkeys k d : k ∈ dkeys d <-> is_Some (dget k d).
Proof.
  destruct (dget k d) eqn:Hk; split; intros H.
  - eauto.
  - apply dget_elem in Hk. by apply (list_elem_of_fmap_2 fst) in Hk.
  - by apply dget_None in Hk.
  - by destruct H.
Qed.
Lemma length_dset_old k v d : is_Some (dget k d) -> length (dset k v d) = length d.
Proof.
  intros Hk%elem_dkeys. rewrite <- (length_map fst (dset k v d)), <- (length_map fst d).
  apply (f_equal length). by apply dkeys_dset_old.
Qed.

Lemma dget_app k d d' :
  dget k (d ++ d') = match dget k d with Some v => Some v | None => dget k d' end.
Proof.
  induction d as [|[k0 v0] d IH]; simpl; [done|]. by case_decide.
Qed.

Lemma dset_id k v d : dget k d = Some v -> dset k v d = d.
Proof.
  induction d as [|[k0 v0] d IH]; simpl; [done|].
  case_decide; intros; simplify_eq; [done|]. by rewrite IH.
Qed.

End Dict.
Create Rewrite HintDb legion_rw.
#[export] Hint Rewrite @dget_dset_eq : legion_rw.
#[export] Hint Resolve NoDup_dset : legion.

Lemma dget_dmap {V W} (f : V -> W) k d : dget k (dmap f d) = f <$> dget k d.
Proof. induction d as [|[k0 v0] d IH]; simpl; [done|]. by case_decide. Qed.

Lemma dmap_dset {V W} (f : V -> W) k v d : dmap f (dset k v d) = dset k (f v) (dmap f d).
Proof.
  induction d as [|[k0 v0] d IH]; simpl; [done|].
  case_decide; simpl; [done|]. by rewrite IH.
Qed.

Lemma dkeys_dmap {V W} (f : V -> W) d : dkeys (dmap f d) = dkeys d.
Proof. induction d as [|[k0 v0] d IH]; simpl; [done|]. by rewrite IH. Qed.

#[global] Arguments dmap {V W} f d : simpl never.

(** * Automation *)

(** Case analysis on every conditional and match of the goal. *)
Ltac crush_cases :=
  repeat (case_match || case_decide); simplify_eq/=; try done.

(** Decompose a hypothesis of the form [(Ok a, s) = (Ok b, t)] and the like. *)
Ltac inv_pair :=
  repeat match goal with
  | H : (_, _) = (_, _) |- _ => injection H as ??; simplify_eq
  | H : Ok _ = Ok _ |- _ => injection H as ?; simplify_eq
  | H : Err _ = Err _ |- _ => injection H as ?; simplify_eq
  end.

(** [keeps] goals: walk through the binds with the hints of the library. *)
Ltac solve_keeps :=
  repeat match goal with
  | |- keeps _ (_ ≫= _) => apply keeps_bind; [|intros ?]
  | |- keeps _ (for_of _ _) => apply keeps_for_of; intros ?
  | |- keeps _ (if ?b then _ else _) => destruct b
  | |- keeps _ (match ?x with _ => _ end) => destruct x
  | |- keeps _ _ => solve [eauto with legion nocore]
  end.

Lemma dget_ddel {V} k k' (d : dict V) :
  NoDup (dkeys d) -> dget k' (ddel k d) = if decide (k' = k) then None else dget k' d.
Proof.
  induction d as [|[k0 v0] d IH]; cbn; intros Hnd; [by case_decide|].
  apply NoDup_cons in Hnd as [Hk0 Hnd]. destruct (decide (k = k0)) as [->|Hne].
  - destruct (decide (k' = k0)) as [->|]; [by apply dget_None|done].
  - cbn. rewrite IH by done. repeat case_decide; congruence.
Qed.

Lemma NoDup_ddel {V} k (d : dict V) : NoDup (dkeys d) -> NoDup (dkeys (ddel k d)).
Proof.
  assert (Hs : forall d' : dict V, forall x, x ∈ dkeys (ddel k d') -> x ∈ dkeys d').
  { intros d'. induction d' as [|[k0 v0] d' IH]; cbn; [done|]. case_decide; cbn; set_solver. }
  induction d as [|[k0 v0] d IH]; cbn; [done|]. rewrite NoDup_cons. intros [Hk Hnd].
  case_decide; [done|]. cbn. apply NoDup_cons. split; [|by apply IH]. intros Hin. by apply Hk, Hs.
Qed.
