(* ===== verification/Js.v ===== *)
(** What the sources use of the JavaScript language and its library: strings
    (code units below 256 are modelled), decimal texts of safe integers, the
    identifier patterns of the protocol, JSON values, [JSON.stringify] and
    object spreads.  The three library behaviours that depend on the host, the
    text of a non-integer number, [localeCompare] and zod's timestamp check,
    are the fields of the class [JsRuntime]. *)
From S2P Require Import Prelude.
From Stdlib Require Import QArith_base Ascii.

#[global] Open Scope Z_scope.

(** * Strings *)

Definition str_length (s : string) : Z := Z.of_nat (String.length s).

Definition str_between (lo hi : Z) (s : string) : bool :=
  (lo <=? str_length s) && (str_length s <=? hi).

(** [s.slice(from)] for [0 <= from]. *)
Definition slice_from (from : nat) (s : string) : string :=
  String.substring from (String.length s - from) s.

(** [s.slice(from, to)] for [0 <= from <= to]. *)
Definition slice (from to : nat) (s : string) : string :=
  String.substring from (to - from) s.

Definition is_space (c : ascii) : bool :=
  let n := nat_of_ascii c in
  ((9 <=? n) && (n <=? 13) || (n =? 32) || (n =? 160))%nat.

Fixpoint trim_start (s : string) : string :=
  match s with
  | String c s' => if is_space c then trim_start s' else s
  | EmptyString => EmptyString
  end.

Fixpoint trim_end (s : string) : string :=
  match s with
  | String c s' =>
      let r := trim_end s' in
      if is_space c && (String.length r =? 0)%nat then EmptyString else String c r
  | EmptyString => EmptyString
  end.

(** [s.trim()] *)
Definition trim (s : string) : string := trim_end (trim_start s).

Fixpoint str_forall (p : ascii -> bool) (s : string) : bool :=
  match s with
  | String c s' => p c && str_forall p s'
  | EmptyString => true
  end.

Definition ascii_between (lo hi : nat) (c : ascii) : bool :=
  let n := nat_of_ascii c in ((lo <=? n) && (n <=? hi))%nat.

(** [[a-zA-Z0-9]] and [[a-zA-Z0-9_-]] *)
Definition is_alnum (c : ascii) : bool :=
  ascii_between 97 122 c || ascii_between 65 90 c || ascii_between 48 57 c.
Definition is_id_char (c : ascii) : bool :=
  is_alnum c || Ascii.eqb c "_" || Ascii.eqb c "-".

(** [\w] at a position that may be the end of the string; a word boundary [\b]
    is where it changes. *)
Definition is_word (c : option ascii) : bool :=
  match c with Some c => is_alnum c || Ascii.eqb c "_" | None => false end.

Definition first_char (s : string) : option ascii :=
  match s with String c _ => Some c | EmptyString => None end.

(** [s.startsWith(prefix)], [s.endsWith(suffix)], [s.includes(needle)] *)
Definition startsWith (prefix s : string) : bool := String.prefix prefix s.

Definition endsWith (suffix s : string) : bool :=
  (String.length suffix <=? String.length s)%nat &&
  String.eqb (slice_from (String.length s - String.length suffix) s) suffix.

Fixpoint includes (needle s : string) : bool :=
  String.prefix needle s ||
  match s with String _ s' => includes needle s' | EmptyString => false end.

(** [s.replaceAll(from, to)] for single characters *)
Fixpoint replaceAll (from to : ascii) (s : string) : string :=
  match s with
  | String c s' => String (if Ascii.eqb c from then to else c) (replaceAll from to s')
  | EmptyString => ""
  end.

(** [toLowerCase] on code units below 256 *)
Definition lower_char (c : ascii) : ascii :=
  let n := nat_of_ascii c in
  if ascii_between 65 90 c || ascii_between 192 214 c || ascii_between 216 222 c
  then ascii_of_nat (n + 32) else c.
Fixpoint toLowerCase (s : string) : string :=
  match s with
  | String c s' => String (lower_char c) (toLowerCase s')
  | EmptyString => ""
  end.

(** [s.replace] of a literal prefix or suffix by the empty string *)
Definition strip_start (prefix s : string) : string :=
  if startsWith prefix s then slice_from (String.length prefix) s else s.
Definition strip_end (suffix s : string) : string :=
  if endsWith suffix s then slice 0 (String.length s - String.length suffix) s else s.

(** An optional string used as a condition: the empty string is falsy. *)
Definition truthy (o : option string) : option string :=
  match o with Some "" => None | _ => o end.

(** [String(n)] for an integer of magnitude below 1e21. *)
Definition digit (d : Z) : ascii := ascii_of_nat (48 + Z.to_nat d).

Fixpoint dec_go (fuel : nat) (n : Z) (acc : string) : string :=
  match fuel with
  | O => acc
  | S fuel' =>
      let acc' := String (digit (n mod 10)) acc in
      if n <? 10 then acc' else dec_go fuel' (n / 10) acc'
  end.

Definition dec_fuel (n : Z) : nat := S (Z.to_nat (Z.log2 n)).

Definition Number_toString (n : Z) : string :=
  if n <? 0 then String "-" (dec_go (dec_fuel (- n)) (- n) "")
  else dec_go (dec_fuel n) n "".

Definition MAX_SAFE_INTEGER : Z := 9007199254740991.

Definition is_safe_integer (n : Z) : bool :=
  (- MAX_SAFE_INTEGER <=? n) && (n <=? MAX_SAFE_INTEGER).

(** * JSON values *)

(** A JSON number: an integer, or another finite number given by its value. *)
Inductive jsnum : Type :=
| NInt (z : Z)
| NFrac (q : Q).

Inductive json : Type :=
| JNull
| JBool (b : bool)
| JNum (n : jsnum)
| JStr (s : string)
| JArr (l : list json)
| JObj (o : list (string * json)).

(** [Record<string, JsonValue>] *)
Definition JsonRecord : Type := dict json.

Definition num_value (n : jsnum) : Q :=
  match n with NInt z => inject_Z z | NFrac q => q end.

Class JsRuntime : Type := {
  (** [Number.prototype.toString] of a finite number that is not an integer *)
  frac_toString : Q -> string;
  (** [left.localeCompare(right) <= 0] *)
  locale_le : string -> string -> bool;
  (** zod's [z.string().datetime({ offset: true })] *)
  is_datetime : string -> bool;
}.

(** A concrete host: code-point order, and the timestamps [toISOString] makes. *)
Fixpoint matches_shape (shape s : string) : bool :=
  match shape, s with
  | EmptyString, EmptyString => true
  | String "9" shape', String c s' => ascii_between 48 57 c && matches_shape shape' s'
  | String d shape', String c s' => Ascii.eqb c d && matches_shape shape' s'
  | _, _ => false
  end.

Definition iso_runtime : JsRuntime := {|
  frac_toString q := Number_toString (Z.div (Qnum q) (Zpos (Qden q))) +:+ ".5";
  locale_le := String.leb;
  is_datetime := matches_shape "9999-99-99T99:99:99.999Z";
|}.

Definition dquote : string := String (ascii_of_nat 34) "".
Definition backslash : string := String (ascii_of_nat 92) "".

Definition hex_digit (n : nat) : ascii :=
  ascii_of_nat (if (n <? 10)%nat then 48 + n else 87 + n).

(** The escapes of [JSON.stringify]. *)
Definition escape_char (c : ascii) : string :=
  let n := nat_of_ascii c in
  match n with
  | 34 => backslash +:+ dquote
  | 92 => backslash +:+ backslash
  | 8 => backslash +:+ "b"
  | 9 => backslash +:+ "t"
  | 10 => backslash +:+ "n"
  | 12 => backslash +:+ "f"
  | 13 => backslash +:+ "r"
  | _ => if (n <? 32)%nat
         then backslash +:+ "u00" +:+
              String (hex_digit (n / 16)) (String (hex_digit (n mod 16)) "")
         else String c ""
  end%nat.

Fixpoint escape (s : string) : string :=
  match s with
  | String c s' => escape_char c +:+ escape s'
  | EmptyString => ""
  end.

Definition quote (s : string) : string := dquote +:+ escape s +:+ dquote.

Fixpoint join (sep : string) (l : list string) : string :=
  match l with
  | [] => ""
  | [s] => s
  | s :: l' => s +:+ sep +:+ join sep l'
  end.

Section Stringify.
Context `{JsRuntime}.

Definition num_toString (n : jsnum) : string :=
  match n with NInt z => Number_toString z | NFrac q => frac_toString q end.

(** [JSON.stringify(value)] *)
Fixpoint JSON_stringify (j : json) : string :=
  match j with
  | JNull => "null"
  | JBool b => if b then "true" else "false"
  | JNum n => num_toString n
  | JStr s => quote s
  | JArr l => "[" +:+ join "," (map JSON_stringify l) +:+ "]"
  | JObj o =>
      "{" +:+ join "," (map (fun '(k, v) => quote k +:+ ":" +:+ JSON_stringify v) o)
          +:+ "}"
  end.
End Stringify.

(** * Facts *)

Lemma append_cons c (a b : string) : String c a +:+ b = String c (a +:+ b).
Proof. done. Qed.

Lemma append_nil_l (a : string) : "" +:+ a = a.
Proof. done. Qed.

Create Rewrite HintDb js_string.
#[export] Hint Rewrite append_cons append_nil_l : js_string.
Ltac str_simpl := repeat (progress (simpl in *; autorewrite with js_string in *)).

Lemma append_assoc (a b c : string) : (a +:+ b) +:+ c = a +:+ (b +:+ c).
Proof. induction a; str_simpl; congruence. Qed.

Lemma append_nil_r (a : string) : a +:+ "" = a.
Proof. induction a; str_simpl; congruence. Qed.

Lemma append_inj_l (a b c : string) : a +:+ b = a +:+ c -> b = c.
Proof. induction a; str_simpl; [done|]. intros. simplify_eq. auto. Qed.

Lemma length_append (a b : string) :
  String.length (a +:+ b) = (String.length a + String.length b)%nat.
Proof. induction a; str_simpl; congruence. Qed.

Lemma str_forall_app p a b : str_forall p (a +:+ b) = str_forall p a && str_forall p b.
Proof. induction a; str_simpl; [done|]. by rewrite IHa, andb_assoc. Qed.

Lemma str_forall_mono (p q : ascii -> bool) s :
  (forall c, p c = true -> q c = true) -> str_forall p s = true -> str_forall q s = true.
Proof.
  intros Hpq. induction s; simpl; [done|].
  rewrite !andb_true_iff. naive_solver.
Qed.

(** Cutting a string at the last character outside a class. *)
Lemma split_last_unique p a b a' b' c c' :
  p c = false -> p c' = false ->
  str_forall p b = true -> str_forall p b' = true ->
  a +:+ String c b = a' +:+ String c' b' -> a = a' /\ b = b'.
Proof.
  intros Hc Hc' Hb Hb'. revert a'.
  induction a as [|x a IH]; intros [|x' a'] Heq; rewrite ?append_cons, ?append_nil_l in Heq.
  - by simplify_eq.
  - injection Heq as <- ->. rewrite str_forall_app in Hb. simpl in Hb.
    by rewrite Hc', andb_false_r in Hb.
  - injection Heq as -> <-. rewrite str_forall_app in Hb'. simpl in Hb'.
    by rewrite Hc, andb_false_r in Hb'.
  - injection Heq as <- Heq. apply IH in Heq as [-> ->]. done.
Qed.

(** The value of a text of decimal digits, read after [a]. *)
Fixpoint dec_value (a : Z) (s : string) : Z :=
  match s with
  | String c s' => dec_value (10 * a + (Z.of_nat (nat_of_ascii c) - 48)) s'
  | EmptyString => a
  end.

Lemma digit_value d : 0 <= d < 10 -> Z.of_nat (nat_of_ascii (digit d)) = 48 + d.
Proof.
  intros. unfold digit. rewrite nat_ascii_embedding by lia. lia.
Qed.

Lemma digit_is_digit d : 0 <= d < 10 -> ascii_between 48 57 (digit d) = true.
Proof.
  intros. unfold ascii_between. pose proof (digit_value d H).
  apply andb_true_iff. split; apply Nat.leb_le; lia.
Qed.

Lemma dec_go_value fuel n acc :
  0 <= n < 10 ^ Z.of_nat fuel -> dec_value 0 (dec_go fuel n acc) = dec_value n acc.
Proof.
  revert n acc. induction fuel as [|fuel IH]; intros n acc Hn.
  - change (10 ^ Z.of_nat 0) with 1 in Hn. by replace n with 0 by lia.
  - cbn [dec_go]. destruct (Z.ltb_spec n 10).
    + cbn [dec_value]. rewrite digit_value by (apply Z.mod_pos_bound; lia).
      f_equal. rewrite Z.mod_small by lia. lia.
    + rewrite IH.
      * cbn [dec_value]. rewrite digit_value by (apply Z.mod_pos_bound; lia).
        f_equal. pose proof (Z.div_mod n 10). lia.
      * rewrite Nat2Z.inj_succ, Z.pow_succ_r in Hn by lia.
        split; [apply Z.div_pos; lia|apply Z.div_lt_upper_bound; lia].
Qed.

Lemma dec_fuel_enough n : 0 <= n -> n < 10 ^ Z.of_nat (dec_fuel n).
Proof.
  intros Hn. unfold dec_fuel. destruct (decide (n = 0)) as [->|Hne]; [done|].
  pose proof (Z.log2_spec n ltac:(lia)) as [_ Hlt].
  pose proof (Z.log2_nonneg n).
  rewrite Nat2Z.inj_succ, Z2Nat.id by done.
  eapply Z.lt_le_trans; [exact Hlt|]. apply Z.pow_le_mono_l. lia.
Qed.

Lemma dec_go_digits fuel n acc :
  0 <= n -> str_forall (ascii_between 48 57) acc = true ->
  str_forall (ascii_between 48 57) (dec_go fuel n acc) = true.
Proof.
  revert n acc. induction fuel as [|fuel IH]; intros n acc Hn Hacc; cbn [dec_go]; [done|].
  assert (Hd : ascii_between 48 57 (digit (n mod 10)) = true)
    by (apply digit_is_digit, Z.mod_pos_bound; lia).
  assert (Hacc' : str_forall (ascii_between 48 57) (String (digit (n mod 10)) acc) = true)
    by (cbn [str_forall]; by rewrite Hd).
  destruct (n <? 10); [done|]. apply IH; [apply Z.div_pos; lia|done].
Qed.

Lemma dec_go_length k fuel n acc :
  0 <= n < 10 ^ Z.of_nat k -> (1 <= k)%nat ->
  (String.length (dec_go fuel n acc) <= k + String.length acc)%nat.
Proof.
  revert k n acc. induction fuel as [|fuel IH]; intros k n acc Hn Hk; [simpl; lia|].
  cbn [dec_go]. destruct (Z.ltb_spec n 10); [simpl; lia|].
  destruct k as [|[|k]]; [lia|change (10 ^ Z.of_nat 1) with 10 in Hn; lia|].
  etrans; [apply (IH (S k))|]; [|lia|simpl; lia].
  rewrite (Nat2Z.inj_succ (S k)), Z.pow_succ_r in Hn by lia.
  split; [apply Z.div_pos; lia|apply Z.div_lt_upper_bound; lia].
Qed.

Lemma Number_toString_digits n :
  0 <= n -> str_forall (ascii_between 48 57) (Number_toString n) = true.
Proof.
  intros. unfold Number_toString. destruct (Z.ltb_spec n 0); [lia|].
  by apply dec_go_digits.
Qed.

Lemma Number_toString_inj n m :
  0 <= n -> 0 <= m -> Number_toString n = Number_toString m -> n = m.
Proof.
  unfold Number_toString. intros Hn Hm.
  destruct (Z.ltb_spec n 0), (Z.ltb_spec m 0); try lia. intros Heq.
  apply (f_equal (dec_value 0)) in Heq.
  by rewrite !dec_go_value in Heq by (split; [done|by apply dec_fuel_enough]).
Qed.

Lemma Number_toString_length n :
  0 <= n <= MAX_SAFE_INTEGER -> (String.length (Number_toString n) <= 16)%nat.
Proof.
  intros [Hn Hmax]. unfold Number_toString. destruct (Z.ltb_spec n 0); [lia|].
  pose proof (dec_go_length 16 (dec_fuel n) n "") as Hlen.
  change (10 ^ Z.of_nat 16) with 10000000000000000 in Hlen.
  change (String.length "") with 0%nat in Hlen. unfold MAX_SAFE_INTEGER in Hmax. lia.
Qed.

Lemma dec_go_nonempty fuel n acc : acc <> "" -> dec_go fuel n acc <> "".
Proof.
  revert n acc. induction fuel as [|fuel IH]; intros n acc Hacc; cbn [dec_go]; [done|].
  destruct (n <? 10); [discriminate|]. apply IH. discriminate.
Qed.

Lemma Number_toString_nonempty n : 0 <= n -> Number_toString n <> "".
Proof.
  unfold Number_toString, dec_fuel. intros Hn. destruct (Z.ltb_spec n 0); [lia|].
  cbn [dec_go]. destruct (n <? 10); [discriminate|]. apply dec_go_nonempty. discriminate.
Qed.

(** Cutting a string at the first character outside a class. *)
Lemma split_first_unique p a b a' b' c :
  p c = false -> str_forall p a = true -> str_forall p a' = true ->
  a +:+ String c b = a' +:+ String c b' -> a = a' /\ b = b'.
Proof.
  intros Hc Ha Ha'. revert a' Ha'.
  induction a as [|x a IH]; intros [|x' a'] Ha' Heq; rewrite ?append_cons, ?append_nil_l in Heq.
  - by simplify_eq.
  - injection Heq as <- ->. cbn in Ha'. by rewrite Hc in Ha'.
  - injection Heq as -> <-. cbn in Ha. by rewrite Hc in Ha.
  - cbn [str_forall] in Ha, Ha'. apply andb_true_iff in Ha as [_ Ha], Ha' as [_ Ha'].
    injection Heq as <- Heq. apply IH in Heq as [-> ->]; done.
Qed.

(** Cutting a string at a position. *)
Lemma substring_split o a b s :
  String.substring o a s +:+ String.substring (o + a) b s = String.substring o (a + b) s.
Proof.
  revert o a b. induction s as [|c s IH]; intros o a b.
  - by destruct o, a, b.
  - destruct o as [|o]; [|apply IH]. destruct a as [|a]; [done|]. cbn.
    rewrite <- (IH 0%nat). done.
Qed.

Lemma substring_all s : String.substring 0 (String.length s) s = s.
Proof. induction s as [|c s IH]; [done|]. cbn. by rewrite IH. Qed.
