(* ===== verification/Zod.v ===== *)
(** Schemas: the part of zod the protocol package builds its schemas from, as
    parsers on JSON values.  A parser returns the parsed value, which differs
    from its input where the schema says [.trim()] and in the order of the keys
    of an object (zod emits the keys of a strict object in shape order), or
    [None] for a [ZodError]. *)
From S2P Require Import Prelude Js.
From Stdlib Require Import QArith_base.
#[local] Open Scope Z_scope.

Definition zod : Type := json -> option json.

Definition z_test (p : json -> bool) : zod := fun j => if p j then Some j else None.

(** [z.string().min(lo).max(hi)] *)
Definition z_string (lo hi : Z) : zod := z_test (fun j =>
  match j with JStr s => (lo <=? str_length s) && (str_length s <=? hi) | _ => false end).

(** [z.string().trim().min(lo).max(hi)] *)
Definition z_trimmed (lo hi : Z) : zod := fun j =>
  match j with
  | JStr s =>
      let t := trim s in
      if (lo <=? str_length t) && (str_length t <=? hi) then Some (JStr t) else None
  | _ => None
  end.

(** [z.string().regex(pattern)], for a pattern given by its test. *)
Definition z_regex (matches : string -> bool) : zod := z_test (fun j =>
  match j with JStr s => matches s | _ => false end).

Definition z_boolean : zod := z_test (fun j => match j with JBool _ => true | _ => false end).

(** [z.literal(true)] *)
Definition z_true : zod := z_test (fun j => match j with JBool true => true | _ => false end).

(** [z.enum(values)] and [z.literal(value)] *)
Definition z_enum (values : list string) : zod := z_test (fun j =>
  match j with JStr s => bool_decide (s ∈ values) | _ => false end).

(** [z.number().int().safe().nonnegative()] *)
Definition z_token : zod := z_test (fun j =>
  match j with JNum (NInt z) => (0 <=? z) && (z <=? MAX_SAFE_INTEGER) | _ => false end).

(** [z.number().int().positive().safe()] *)
Definition z_positive_int : zod := z_test (fun j =>
  match j with JNum (NInt z) => (1 <=? z) && (z <=? MAX_SAFE_INTEGER) | _ => false end).

(** [z.number().finite().min(0)], with [.max(100)] for a percentage *)
Definition z_number_min0 : zod := z_test (fun j =>
  match j with JNum n => Qle_bool 0 (num_value n) | _ => false end).
Definition z_percent : zod := z_test (fun j =>
  match j with
  | JNum n => Qle_bool 0 (num_value n) && Qle_bool (num_value n) (100 # 1)
  | _ => false
  end).

(** [z.custom(isJsonRecord)]: every JSON value of the model is a JSON value. *)
Definition z_record : zod := z_test (fun j => match j with JObj _ => true | _ => false end).

Definition z_nullable (z : zod) : zod := fun j =>
  match j with JNull => Some JNull | _ => z j end.

Definition z_list (z : zod) (max : Z) : zod := fun j =>
  match j with
  | JArr l => if Z.of_nat (length l) <=? max then JArr <$> mapM z l else None
  | _ => None
  end.

(** A field of an object schema: its key, whether it is [.optional()], and its
    schema. *)
Record field : Type := Field { f_key : string; f_optional : bool; f_schema : zod }.
Definition req (k : string) (z : zod) : field := Field k false z.
Definition opt (k : string) (z : zod) : field := Field k true z.

Definition parse_field (o : JsonRecord) (f : field) : option JsonRecord :=
  match dget (f_key f) o with
  | Some v => v' ← f_schema f v; Some [(f_key f, v')]
  | None => if f_optional f then Some [] else None
  end.

Fixpoint parse_fields (o : JsonRecord) (shape : list field) : option JsonRecord :=
  match shape with
  | [] => Some []
  | f :: shape' =>
      match parse_field o f, parse_fields o shape' with
      | Some kv, Some rest => Some (kv ++ rest)
      | _, _ => None
      end
  end.

(** [z.object(shape).strict()] *)
Definition z_object (shape : list field) : zod := fun j =>
  match j with
  | JObj o =>
      if forallb (fun k => bool_decide (k ∈ map f_key shape)) (dkeys o)
      then JObj <$> parse_fields o shape else None
  | _ => None
  end.

(** [z.object(shape).passthrough()]: the other keys follow the parsed ones. *)
Definition z_passthrough (shape : list field) : zod := fun j =>
  match j with
  | JObj o =>
      let rest := filter (fun kv : string * json => fst kv ∉ map f_key shape)
                         (o : list (string * json)) in
      match parse_fields o shape with
      | Some known => Some (JObj (known ++ rest))
      | None => None
      end
  | _ => None
  end.

(** [schema.superRefine(check)] *)
Definition z_refine (z : zod) (ok : json -> bool) : zod := fun j =>
  match z j with
  | Some j' => if ok j' then Some j' else None
  | None => None
  end.

(** [z.discriminatedUnion(key, alternatives)], whose alternatives are tagged by
    the values of [key]. *)
Definition z_tagged_union (key : string) (alts : list (string * zod)) : zod := fun j =>
  match j with
  | JObj o =>
      match dget key o with
      | Some (JStr tag) =>
          match dget tag alts with Some z => z j | None => None end
      | _ => None
      end
  | _ => None
  end.

(** * Parsing is idempotent *)

(** Parsing a parsed value returns it: what the event store relies on when it
    parses the events the coordinator parsed. *)
Definition idempotent (z : zod) : Prop := forall j j', z j = Some j' -> z j' = Some j'.

Lemma z_test_idempotent p : idempotent (z_test p).
Proof. unfold idempotent, z_test. intros j j'. destruct (p j) eqn:Hp; [|done]. by intros [= <-]; rewrite Hp. Qed.

Lemma trim_start_spec s :
  trim_start s = "" \/ exists c s', trim_start s = String c s' /\ is_space c = false.
Proof.
  induction s as [|c s IH]; [by left|]. cbn [trim_start].
  destruct (is_space c) eqn:Hc; [done|]. right. eauto.
Qed.

Lemma trim_end_idem s : trim_end (trim_end s) = trim_end s.
Proof.
  induction s as [|c s IH]; [done|]. cbn [trim_end].
  destruct (is_space c && (String.length (trim_end s) =? 0)%nat) eqn:E; [done|].
  cbn [trim_end]. rewrite IH. by rewrite E.
Qed.

Lemma trim_idem s : trim (trim s) = trim s.
Proof.
  unfold trim. destruct (trim_start_spec s) as [->|(c & s' & -> & Hc)]; [done|].
  cbn [trim_end]. rewrite Hc. cbn [trim_start andb]. rewrite Hc.
  cbn [trim_end]. by rewrite Hc, trim_end_idem.
Qed.

Lemma z_trimmed_idempotent lo hi : idempotent (z_trimmed lo hi).
Proof.
  intros [] j'; try done. unfold z_trimmed.
  destruct ((lo <=? str_length (trim s)) && (str_length (trim s) <=? hi)) eqn:E; [|done].
  intros [= <-]. by rewrite trim_idem, E.
Qed.

Lemma z_nullable_idempotent z : idempotent z -> idempotent (z_nullable z).
Proof.
  intros Hz j j'. unfold z_nullable.
  destruct j; intros Hj; simplify_eq; try done;
    destruct j'; try done; by apply Hz in Hj.
Qed.

Lemma z_list_idempotent z max : idempotent z -> idempotent (z_list z max).
Proof.
  intros Hz [] j'; try done. unfold z_list.
  destruct (Z.of_nat (length l) <=? max) eqn:Hl; [|done].
  destruct (mapM z l) as [l'|] eqn:Hm; [|done]. simpl. intros [= <-].
  apply mapM_Some_1 in Hm.
  rewrite <- (Forall2_length _ _ _ Hm), Hl. simpl.
  assert (mapM z l' = Some l') as ->; [|done].
  apply mapM_Some_2. clear Hl. induction Hm as [|x y l l' Hxy]; constructor; [|done].
  by apply Hz in Hxy.
Qed.

Definition fields_idempotent (shape : list field) : Prop :=
  Forall (fun f => idempotent (f_schema f)) shape.

Lemma parse_fields_keys o shape o' :
  parse_fields o shape = Some o' -> forall k, k ∈ dkeys o' -> k ∈ map f_key shape.
Proof.
  revert o'. induction shape as [|f shape IH]; intros o'; simpl; [by intros [= <-]|].
  unfold parse_field. destruct (dget (f_key f) o) as [v|].
  - destruct (f_schema f v); simpl; [|done].
    destruct (parse_fields o shape) as [r|]; [|done]. intros [= <-] k. simpl.
    rewrite !elem_of_cons. intros [->|Hk]; [by left|right]. by apply (IH r).
  - destruct (f_optional f); [|done].
    destruct (parse_fields o shape) as [r|]; [|done]. intros [= <-] k Hk.
    apply elem_of_cons. right. by apply (IH r).
Qed.

Lemma parse_fields_get o shape o' :
  NoDup (map f_key shape) -> parse_fields o shape = Some o' ->
  forall f, f ∈ shape ->
  match dget (f_key f) o with
  | Some v => exists v', f_schema f v = Some v' /\ dget (f_key f) o' = Some v'
  | None => f_optional f = true /\ dget (f_key f) o' = None
  end.
Proof.
  revert o'. induction shape as [|g shape IH]; intros o' Hnd Hp f Hf; [set_solver|].
  simpl in Hnd, Hp. apply NoDup_cons in Hnd as [Hg Hnd].
  unfold parse_field in Hp.
  apply elem_of_cons in Hf as [->|Hf].
  - destruct (dget (f_key g) o) as [v|].
    + destruct (f_schema g v) as [v'|] eqn:Hv; simpl in Hp; [|done].
      destruct (parse_fields o shape); [|done]. simplify_eq/=.
      exists v'. by rewrite decide_True.
    + destruct (f_optional g); [|done].
      destruct (parse_fields o shape) as [r|] eqn:Hr; [|done]. simplify_eq/=.
      split; [done|]. apply dget_None. intros Hk. by apply (parse_fields_keys _ _ _ Hr) in Hk.
  - assert (Hne : f_key f <> f_key g).
    { intros Heq. apply Hg. rewrite <- Heq. by apply (list_elem_of_fmap_2 f_key). }
    destruct (dget (f_key g) o) as [v|].
    + destruct (f_schema g v) as [v'|]; simpl in Hp; [|done].
      destruct (parse_fields o shape) as [r|] eqn:Hr; [|done]. simplify_eq/=.
      rewrite decide_False by done. by apply IH.
    + destruct (f_optional g); [|done].
      destruct (parse_fields o shape) as [r|] eqn:Hr; [|done]. simplify_eq/=. by apply IH.
Qed.

(** A parsed object depends only on the values of the keys of the shape. *)
Lemma parse_fields_ext o1 o2 shape :
  (forall f, f ∈ shape -> dget (f_key f) o1 = dget (f_key f) o2) ->
  parse_fields o1 shape = parse_fields o2 shape.
Proof.
  induction shape as [|f shape IH]; intros Hext; [done|]. simpl. unfold parse_field.
  rewrite (Hext f) by set_solver. rewrite IH; [done|]. intros g Hg. apply Hext. set_solver.
Qed.

Lemma parse_fields_idem o shape o' :
  NoDup (map f_key shape) -> fields_idempotent shape ->
  parse_fields o shape = Some o' -> parse_fields o' shape = Some o'.
Proof.
  intros Hnd Hid Hp. pose proof (parse_fields_get _ _ _ Hnd Hp) as Hget.
  revert o' Hp Hget. induction shape as [|f shape IH]; intros o' Hp Hget; [done|].
  simpl in *. apply NoDup_cons in Hnd as [Hf Hnd]. apply Forall_cons in Hid as [Hidf Hid].
  pose proof (Hget f ltac:(set_solver)) as Hf'. unfold parse_field in *.
  destruct (dget (f_key f) o) as [v|].
  - destruct Hf' as (v' & Hv & Hg'). rewrite Hv in Hp. simpl in Hp.
    destruct (parse_fields o shape) as [r|] eqn:Hr; [|done]. injection Hp as <-.
    rewrite Hg'. simpl. rewrite (Hidf _ _ Hv). simpl.
    rewrite (parse_fields_ext _ r).
    + rewrite (IH Hnd Hid r eq_refl); [done|]. intros g Hg. by apply (parse_fields_get _ _ _ Hnd Hr).
    + intros g Hg. simpl. rewrite decide_False; [done|]. intros Heq. apply Hf. rewrite <- Heq.
      by apply (list_elem_of_fmap_2 f_key).
  - destruct Hf' as [Ho Hg']. rewrite Ho in Hp. simpl in Hp.
    destruct (parse_fields o shape) as [r|] eqn:Hr; [|done]. injection Hp as <-.
    rewrite Hg', Ho. simpl. rewrite (IH Hnd Hid r eq_refl); [done|].
    intros g Hg. by apply (parse_fields_get _ _ _ Hnd Hr).
Qed.

Lemma z_object_idempotent shape :
  NoDup (map f_key shape) -> fields_idempotent shape -> idempotent (z_object shape).
Proof.
  intros Hnd Hid [] j'; try done. unfold z_object.
  destruct (forallb _ (dkeys o)) eqn:Hk; [|done].
  destruct (parse_fields o shape) as [o'|] eqn:Hp; [|done]. simpl. intros [= <-].
  rewrite (parse_fields_idem _ _ _ Hnd Hid Hp). simpl.
  assert (forallb (fun k => bool_decide (k ∈ map f_key shape)) (dkeys o') = true) as ->; [|done].
  apply forallb_forall. intros k Hin. apply bool_decide_eq_true.
  apply (parse_fields_keys _ _ _ Hp). by apply list_elem_of_In.
Qed.

Lemma dget_filter_notin {V} (ks : list string) (d : list (string * V)) k :
  dget k (filter (fun kv : string * V => fst kv ∉ ks) d) = if decide (k ∈ ks) then None else dget k d.
Proof.
  induction d as [|[k0 v0] d IH]; [by case_decide|].
  rewrite filter_cons. simpl. destruct (decide (k0 ∉ ks)) as [Hk0|Hk0]; simpl; rewrite IH.
  - destruct (decide (k = k0)) as [->|]; [by destruct (decide (k0 ∈ ks))|done].
  - destruct (decide (k = k0)) as [->|]; [|done]. by destruct (decide (k0 ∈ ks)).
Qed.

Lemma filter_none {A} (P : A -> Prop) `{!forall x, Decision (P x)} (l : list A) :
  (forall x, x ∈ l -> ~ P x) -> filter P l = [].
Proof.
  induction l as [|x l IH]; intros Hl; [done|].
  rewrite filter_cons, decide_False by (apply Hl; set_solver).
  apply IH. intros y Hy. apply Hl. set_solver.
Qed.

Lemma z_passthrough_idempotent shape :
  NoDup (map f_key shape) -> fields_idempotent shape -> idempotent (z_passthrough shape).
Proof.
  intros Hnd Hid [] j'; try done. unfold z_passthrough.
  destruct (parse_fields o shape) as [kn|] eqn:Hp; [|done]. intros [= <-].
  set (rest := filter (fun kv : string * json => fst kv ∉ map f_key shape) o).
  assert (Hkeys : forall k v, (k, v) ∈ kn -> k ∈ map f_key shape).
  { intros k v Hin. apply (parse_fields_keys _ _ _ Hp).
    by apply (list_elem_of_fmap_2 fst) in Hin. }
  rewrite (parse_fields_ext _ kn), (parse_fields_idem _ _ _ Hnd Hid Hp).
  - do 3 f_equal. rewrite filter_app. unfold rest.
    rewrite list_filter_filter_l by done. rewrite filter_none; [done|].
    intros [k v] Hin. apply Hkeys in Hin. simpl. by intros Hn.
  - intros f Hf. rewrite dget_app. destruct (dget (f_key f) kn); [done|].
    unfold rest. rewrite dget_filter_notin, decide_True; [done|].
    by apply (list_elem_of_fmap_2 f_key).
Qed.

Lemma z_refine_idempotent z ok : idempotent z -> idempotent (z_refine z ok).
Proof.
  intros Hz j j'. unfold z_refine. destruct (z j) as [j1|] eqn:Hj; [|done].
  destruct (ok j1) eqn:Hok; [|done]. intros [= <-]. by rewrite (Hz _ _ Hj), Hok.
Qed.

#[export] Hint Resolve z_test_idempotent z_trimmed_idempotent z_nullable_idempotent
  z_list_idempotent z_object_idempotent z_passthrough_idempotent z_refine_idempotent : legion.

(** Reading a field of a parsed object. *)
Lemma z_object_get shape o o' f v :
  NoDup (map f_key shape) -> z_object shape (JObj o) = Some (JObj o') -> f ∈ shape ->
  dget (f_key f) o = Some v ->
  exists v', f_schema f v = Some v' /\ dget (f_key f) o' = Some v'.
Proof.
  intros Hnd. unfold z_object. destruct (forallb _ _); [|done].
  destruct (parse_fields o shape) as [r|] eqn:Hp; [|done]. intros [= <-] Hf Hv.
  pose proof (parse_fields_get _ _ _ Hnd Hp f Hf) as Hget. by rewrite Hv in Hget.
Qed.

Lemma z_passthrough_get shape o o' f v :
  NoDup (map f_key shape) -> z_passthrough shape (JObj o) = Some (JObj o') -> f ∈ shape ->
  dget (f_key f) o = Some v ->
  exists v', f_schema f v = Some v' /\ dget (f_key f) o' = Some v'.
Proof.
  intros Hnd. unfold z_passthrough.
  destruct (parse_fields o shape) as [r|] eqn:Hp; [|done]. intros [= <-] Hf Hv.
  pose proof (parse_fields_get _ _ _ Hnd Hp f Hf) as Hget. rewrite Hv in Hget.
  destruct Hget as (v' & Hv' & Hg). exists v'. split; [done|]. by rewrite dget_app, Hg.
Qed.

Lemma z_test_Some p j j' : z_test p j = Some j' -> j' = j /\ p j = true.
Proof. unfold z_test. destruct (p j) eqn:Hp; [|done]. by intros [= <-]. Qed.

Lemma z_enum_str values s j : z_enum values (JStr s) = Some j -> j = JStr s /\ s ∈ values.
Proof. unfold z_enum. intros Hj. apply z_test_Some in Hj as [-> Hs]. by apply bool_decide_eq_true in Hs. Qed.
