(* ===== verification/Protocol.v ===== *)
(** The lifecycle protocol of [packages/platform-protocol/src]: prefixed ids
    (ids.ts), protocol errors (errors.ts), the status enumerations, their
    transition tables, terminal settlement and the shape validators
    (lifecycle.ts).  [error] collects the exceptions the modelled packages
    throw. *)
From S2P Require Import Prelude Js Zod.

(** * Identifiers *)

(** [/^[a-zA-Z0-9][a-zA-Z0-9_-]{5,127}$/] *)
Definition ID_SUFFIX_PATTERN (s : string) : bool :=
  match s with
  | String c s' =>
      is_alnum c && str_forall is_id_char s' &&
      ((5 <=? String.length s') && (String.length s' <=? 127))%nat
  | EmptyString => false
  end.

Fixpoint strip_prefix (p s : string) : option string :=
  match p, s with
  | EmptyString, _ => Some s
  | String c p', String c' s' => if Ascii.eqb c c' then strip_prefix p' s' else None
  | _, EmptyString => None
  end.

(** The schema made by [createPrefixedIdSchema(name, prefix)], as a test. *)
Definition createPrefixedIdSchema (prefix s : string) : bool :=
  match strip_prefix (prefix +:+ "_") s with
  | Some suffix => ID_SUFFIX_PATTERN suffix
  | None => false
  end.

Definition UserIdSchema := createPrefixedIdSchema "usr".
Definition WorkspaceIdSchema := createPrefixedIdSchema "wrk".
Definition ThreadIdSchema := createPrefixedIdSchema "thr".
Definition RunIdSchema := createPrefixedIdSchema "run".
Definition RunAttemptIdSchema := createPrefixedIdSchema "attempt".
Definition TurnIdSchema := createPrefixedIdSchema "trn".
Definition ItemIdSchema := createPrefixedIdSchema "itm".
Definition ToolCallIdSchema := createPrefixedIdSchema "toolcall".
Definition ToolCallBatchIdSchema := createPrefixedIdSchema "batch".
Definition ApprovalIdSchema := createPrefixedIdSchema "appr".
Definition ArtifactIdSchema := createPrefixedIdSchema "art".
Definition EventIdSchema := createPrefixedIdSchema "evt".

Arguments createPrefixedIdSchema _ _ : simpl never.
Arguments UserIdSchema _ : simpl never.
Arguments WorkspaceIdSchema _ : simpl never.
Arguments ThreadIdSchema _ : simpl never.
Arguments RunIdSchema _ : simpl never.
Arguments RunAttemptIdSchema _ : simpl never.
Arguments TurnIdSchema _ : simpl never.
Arguments ItemIdSchema _ : simpl never.
Arguments ToolCallIdSchema _ : simpl never.
Arguments ToolCallBatchIdSchema _ : simpl never.
Arguments ApprovalIdSchema _ : simpl never.
Arguments ArtifactIdSchema _ : simpl never.
Arguments EventIdSchema _ : simpl never.

(** * Protocol errors *)

Definition ProtocolErrorCodeSchema : list string :=
  ["validation_failed"; "unauthorized"; "forbidden"; "not_found"; "conflict";
   "rate_limited"; "provider_unavailable"; "model_unavailable";
   "worker_unavailable"; "workspace_prepare_failed"; "command_failed";
   "command_timed_out"; "command_cancelled"; "file_not_found"; "path_denied";
   "artifact_upload_failed"; "git_command_failed"; "capability_unsupported";
   "tool_unavailable_in_backend"; "policy_denied"; "approval_required";
   "illegal_lifecycle_transition"; "internal_error"].

Definition ProtocolErrorSchema : zod := z_object
  [req "code" (z_enum ProtocolErrorCodeSchema);
   req "message" (z_string 1 10000);
   req "retryable" z_boolean;
   req "correlationId" (z_nullable (z_string 1 200));
   req "details" (z_nullable z_record)].

Record ProtocolError : Type := mkProtocolError {
  code : string;
  message : string;
  retryable : bool;
  correlationId : option string;
  details : option JsonRecord;
}.

Definition nullable_str (o : option string) : json :=
  match o with Some s => JStr s | None => JNull end.
Definition nullable_rec (o : option JsonRecord) : json :=
  match o with Some r => JObj r | None => JNull end.

Definition json_of_failure (f : ProtocolError) : json := JObj
  [("code", JStr (code f)); ("message", JStr (message f));
   ("retryable", JBool (retryable f));
   ("correlationId", nullable_str (correlationId f));
   ("details", nullable_rec (details f))].

Definition get_str (k : string) (o : JsonRecord) : option string :=
  match dget k o with Some (JStr s) => Some s | _ => None end.
Definition get_nullable_str (k : string) (o : JsonRecord) : option (option string) :=
  match dget k o with Some (JStr s) => Some (Some s) | Some JNull => Some None | _ => None end.
Definition get_nullable_rec (k : string) (o : JsonRecord) : option (option JsonRecord) :=
  match dget k o with Some (JObj r) => Some (Some r) | Some JNull => Some None | _ => None end.

Definition failure_of_json (j : json) : option ProtocolError :=
  match j with
  | JObj o =>
      match get_str "code" o, get_str "message" o, dget "retryable" o,
            get_nullable_str "correlationId" o, get_nullable_rec "details" o with
      | Some c, Some m, Some (JBool r), Some ci, Some d =>
          Some (mkProtocolError c m r ci d)
      | _, _, _, _, _ => None
      end
  | _ => None
  end.

(** * Statuses *)

Inductive TurnStatus : Type :=
| queued | in_progress | awaiting_approval | completed | interrupted | failed.
#[export] Instance TurnStatus_eq_dec : EqDecision TurnStatus.
Proof. solve_decision. Defined.

Definition TurnStatus_str (s : TurnStatus) : string :=
  match s with
  | queued => "queued" | in_progress => "in_progress"
  | awaiting_approval => "awaiting_approval" | completed => "completed"
  | interrupted => "interrupted" | failed => "failed"
  end.

Inductive RunAttemptStatus : Type :=
| ra_queued | ra_running | ra_succeeded | ra_interrupted | ra_failed.
#[export] Instance RunAttemptStatus_eq_dec : EqDecision RunAttemptStatus.
Proof. solve_decision. Defined.

Definition RunAttemptStatus_str (s : RunAttemptStatus) : string :=
  match s with
  | ra_queued => "queued" | ra_running => "running" | ra_succeeded => "succeeded"
  | ra_interrupted => "interrupted" | ra_failed => "failed"
  end.

(** [ItemStatus] and [ToolCallStatus] are the same enumeration. *)
Inductive ItemStatus : Type :=
| it_not_started | it_active | it_completed | it_failed | it_declined | it_interrupted.
#[export] Instance ItemStatus_eq_dec : EqDecision ItemStatus.
Proof. solve_decision. Defined.

Definition ItemStatus_str (s : ItemStatus) : string :=
  match s with
  | it_not_started => "not_started" | it_active => "active"
  | it_completed => "completed" | it_failed => "failed"
  | it_declined => "declined" | it_interrupted => "interrupted"
  end.

Inductive ApprovalStatus : Type :=
| ap_pending | ap_approved | ap_denied | ap_timed_out | ap_cancelled.
#[export] Instance ApprovalStatus_eq_dec : EqDecision ApprovalStatus.
Proof. solve_decision. Defined.

Definition ApprovalStatus_str (s : ApprovalStatus) : string :=
  match s with
  | ap_pending => "pending" | ap_approved => "approved" | ap_denied => "denied"
  | ap_timed_out => "timed_out" | ap_cancelled => "cancelled"
  end.

(** [ApprovalStatusSchema.safeParse(value)] *)
Definition ApprovalStatus_of_json (j : json) : option ApprovalStatus :=
  match j with
  | JStr s =>
      if decide (s = "pending") then Some ap_pending
      else if decide (s = "approved") then Some ap_approved
      else if decide (s = "denied") then Some ap_denied
      else if decide (s = "timed_out") then Some ap_timed_out
      else if decide (s = "cancelled") then Some ap_cancelled
      else None
  | _ => None
  end.

(** [ItemKindSchema] *)
Definition ItemKindSchema : list string :=
  ["user_message"; "commentary"; "reasoning"; "plan"; "assistant_message";
   "tool_call"; "command_execution"; "file_change"; "git_operation";
   "approval_request"; "user_input_request"; "artifact"; "context_compaction";
   "warning"].

Inductive TurnBlockingState : Type :=
| b_none
| b_waiting_for_approval (itemId approvalId : string)
| b_waiting_for_user_input (itemId requestId : string)
| b_retry_scheduled (runAttemptId : string).
#[export] Instance TurnBlockingState_eq_dec : EqDecision TurnBlockingState.
Proof. solve_decision. Defined.

Definition TurnBlockingStateSchema : zod := z_tagged_union "kind"
  [("none", z_object [req "kind" (z_enum ["none"])]);
   ("waiting_for_approval", z_object
      [req "kind" (z_enum ["waiting_for_approval"]);
       req "itemId" (z_regex ItemIdSchema);
       req "approvalId" (z_regex ApprovalIdSchema)]);
   ("waiting_for_user_input", z_object
      [req "kind" (z_enum ["waiting_for_user_input"]);
       req "itemId" (z_regex ItemIdSchema);
       req "requestId" (z_string 1 160)]);
   ("retry_scheduled", z_object
      [req "kind" (z_enum ["retry_scheduled"]);
       req "runAttemptId" (z_regex RunAttemptIdSchema)])].

Definition json_of_blocking (b : TurnBlockingState) : json :=
  match b with
  | b_none => JObj [("kind", JStr "none")]
  | b_waiting_for_approval i a =>
      JObj [("kind", JStr "waiting_for_approval"); ("itemId", JStr i);
            ("approvalId", JStr a)]
  | b_waiting_for_user_input i r =>
      JObj [("kind", JStr "waiting_for_user_input"); ("itemId", JStr i);
            ("requestId", JStr r)]
  | b_retry_scheduled a =>
      JObj [("kind", JStr "retry_scheduled"); ("runAttemptId", JStr a)]
  end.

(** The typed view of a value the schema accepts. *)
Definition blocking_of_json (j : json) : option TurnBlockingState :=
  match j with
  | JObj o =>
      match get_str "kind" o with
      | Some kind =>
          if decide (kind = "none") then Some b_none
          else if decide (kind = "waiting_for_approval") then
            match get_str "itemId" o, get_str "approvalId" o with
            | Some i, Some a => Some (b_waiting_for_approval i a)
            | _, _ => None
            end
          else if decide (kind = "waiting_for_user_input") then
            match get_str "itemId" o, get_str "requestId" o with
            | Some i, Some r => Some (b_waiting_for_user_input i r)
            | _, _ => None
            end
          else if decide (kind = "retry_scheduled") then
            b_retry_scheduled <$> get_str "runAttemptId" o
          else None
      | None => None
      end
  | _ => None
  end.

(** [TurnBlockingStateSchema.safeParse(value)] *)
Definition parse_blocking (j : json) : option TurnBlockingState :=
  TurnBlockingStateSchema j ≫= blocking_of_json.

Inductive TurnTerminalOutcome : Type :=
| to_completed
| to_interrupted (reason : string)
| to_failed (failure : ProtocolError).

Definition outcome_status (o : TurnTerminalOutcome) : TurnStatus :=
  match o with
  | to_completed => completed
  | to_interrupted _ => interrupted
  | to_failed _ => failed
  end.

Definition CompletedTurnOutcomeSchema : zod :=
  z_object [req "status" (z_enum ["completed"])].
Definition InterruptedTurnOutcomeSchema : zod :=
  z_object [req "status" (z_enum ["interrupted"]); req "reason" (z_string 1 2000)].
Definition FailedTurnOutcomeSchema : zod :=
  z_object [req "status" (z_enum ["failed"]); req "failure" ProtocolErrorSchema].

Definition json_of_outcome (o : TurnTerminalOutcome) : json :=
  match o with
  | to_completed => JObj [("status", JStr "completed")]
  | to_interrupted r => JObj [("status", JStr "interrupted"); ("reason", JStr r)]
  | to_failed f => JObj [("status", JStr "failed"); ("failure", json_of_failure f)]
  end.

Definition outcome_of_json (j : json) : option TurnTerminalOutcome :=
  match j with
  | JObj o =>
      match get_str "status" o with
      | Some s =>
          if decide (s = "completed") then Some to_completed
          else if decide (s = "interrupted") then to_interrupted <$> get_str "reason" o
          else if decide (s = "failed") then
            dget "failure" o ≫= fun j => to_failed <$> failure_of_json j
          else None
      | None => None
      end
  | _ => None
  end.

(** * Exceptions *)

Inductive LifecycleTransitionSubject : Type :=
| s_turn | s_run_attempt | s_item | s_tool_call | s_approval | s_terminal_settlement.
#[export] Instance LifecycleTransitionSubject_eq_dec : EqDecision LifecycleTransitionSubject.
Proof. solve_decision. Defined.

(** What the modelled code throws. [EventStoreError],
    [RuntimeLifecycleSettlementError], [LifecycleProjectionError] and
    [LifecycleContinuationError] are the classes of the event-store,
    runtime-kernel, persistence and platform-client-sdk packages; [JsError] is a
    plain [Error]. *)
Inductive error : Type :=
| LifecycleTransitionError (subject : LifecycleTransitionSubject)
    (from to reason : string)
| ZodError
| EventStoreError (code : string)
| RuntimeLifecycleSettlementError (intended : string) (cause : error)
| LifecycleProjectionError (code : string)
| LifecycleContinuationError (code : string) (expected received : option Z)
| JsError (msg : string).

(** * Transition tables *)

Definition TURN_TRANSITIONS (from : TurnStatus) : list TurnStatus :=
  match from with
  | queued => [in_progress; interrupted; failed]
  | in_progress => [in_progress; awaiting_approval; completed; interrupted; failed]
  | awaiting_approval => [in_progress; completed; interrupted; failed]
  | completed | interrupted | failed => []
  end.

Definition RUN_ATTEMPT_TRANSITIONS (from : RunAttemptStatus) : list RunAttemptStatus :=
  match from with
  | ra_queued => [ra_running; ra_interrupted; ra_failed]
  | ra_running => [ra_succeeded; ra_interrupted; ra_failed]
  | ra_succeeded | ra_interrupted | ra_failed => []
  end.

Definition ITEM_TRANSITIONS (from : ItemStatus) : list ItemStatus :=
  match from with
  | it_not_started => [it_active]
  | it_active => [it_completed; it_failed; it_declined; it_interrupted]
  | it_completed | it_failed | it_declined | it_interrupted => []
  end.

Definition APPROVAL_TRANSITIONS (from : ApprovalStatus) : list ApprovalStatus :=
  match from with
  | ap_pending => [ap_approved; ap_denied; ap_timed_out; ap_cancelled]
  | ap_approved | ap_denied | ap_timed_out | ap_cancelled => []
  end.

Definition transition {T} `{EqDecision T} (str : T -> string)
    (subject : LifecycleTransitionSubject) (transitions : T -> list T)
    (from to : T) : res error T :=
  if decide (to ∈ transitions from) then Ok to
  else Err (LifecycleTransitionError subject (str from) (str to)
              "the target state is not legal from the current state").

Definition transitionTurnStatus :=
  transition TurnStatus_str s_turn TURN_TRANSITIONS.
Definition transitionRunAttemptStatus :=
  transition RunAttemptStatus_str s_run_attempt RUN_ATTEMPT_TRANSITIONS.
Definition transitionItemStatus :=
  transition ItemStatus_str s_item ITEM_TRANSITIONS.
Definition transitionToolCallStatus :=
  transition ItemStatus_str s_tool_call ITEM_TRANSITIONS.
Definition transitionApprovalStatus :=
  transition ApprovalStatus_str s_approval APPROVAL_TRANSITIONS.

Definition isTerminalTurnStatus (s : TurnStatus) : bool :=
  match s with completed | interrupted | failed => true | _ => false end.

Definition isTerminalItemStatus (s : ItemStatus) : bool :=
  negb (bool_decide (s = it_not_started)) && negb (bool_decide (s = it_active)).

Definition isTerminalApprovalStatus (s : ApprovalStatus) : bool :=
  negb (bool_decide (s = ap_pending)).

(** * Terminal settlement *)

Definition settlementError (from to reason : string) : error :=
  LifecycleTransitionError s_terminal_settlement from to reason.

(** [Object.entries(states).find(...)] *)
Fixpoint find_unsettled {T} (isSettled : T -> bool) (states : dict T)
    : option (string * T) :=
  match states with
  | [] => None
  | (k, st) :: rest =>
      if isSettled st then find_unsettled isSettled rest else Some (k, st)
  end.

Definition assertAllSettled {T} (str : T -> string) (turnStatus : TurnStatus)
    (states : dict T) (isSettled : T -> bool) (label : string) : res error unit :=
  match find_unsettled isSettled states with
  | Some (k, st) =>
      Err (settlementError (TurnStatus_str turnStatus) "terminal"
             (label +:+ " " +:+ k +:+ " remains " +:+ str st))
  | None => Ok tt
  end.

Record TerminalSettlementInput : Type := mkTerminalSettlementInput {
  tsi_turnStatus : TurnStatus;
  tsi_terminalOutcome : option TurnTerminalOutcome;
  tsi_blockingState : TurnBlockingState;
  tsi_itemStatuses : dict ItemStatus;
  tsi_approvalStatuses : dict ApprovalStatus;
}.

Definition validateTerminalSettlement (input : TerminalSettlementInput) : res error unit :=
  let st := TurnStatus_str (tsi_turnStatus input) in
  if negb (isTerminalTurnStatus (tsi_turnStatus input)) then
    Err (settlementError st "terminal" "turn is not terminal")
  else
    match tsi_terminalOutcome input with
    | None => Err (settlementError st "terminal" "terminal outcome is required")
    | Some o =>
        if decide (outcome_status o = tsi_turnStatus input) then
          match tsi_blockingState input with
          | b_none =>
              match assertAllSettled ItemStatus_str (tsi_turnStatus input)
                      (tsi_itemStatuses input) isTerminalItemStatus "item" with
              | Err e => Err e
              | Ok _ =>
                  assertAllSettled ApprovalStatus_str (tsi_turnStatus input)
                    (tsi_approvalStatuses input) isTerminalApprovalStatus "approval"
              end
          | _ => Err (settlementError st "terminal" "blocking state must be cleared")
          end
        else
          Err (settlementError st (TurnStatus_str (outcome_status o))
                 "terminal outcome must match the turn status")
    end.

(** * Shape validators *)

(** The issues a [superRefine] check adds, by their paths. *)
Definition issue_if (b : bool) (path : list string) : list (list string) :=
  if b then [path] else [].

Definition validateTurnLifecycleShape (status : TurnStatus)
    (blockingState : TurnBlockingState) (completedAt : option string)
    (terminalOutcome : option TurnTerminalOutcome) : list (list string) :=
  let isTerminal := isTerminalTurnStatus status in
  issue_if (negb (Bool.eqb isTerminal (is_some completedAt))) ["completedAt"] ++
  issue_if (negb (Bool.eqb isTerminal (is_some terminalOutcome))) ["terminalOutcome"] ++
  match terminalOutcome with
  | Some o => issue_if (negb (bool_decide (outcome_status o = status)))
                ["terminalOutcome"; "status"]
  | None => []
  end ++
  issue_if (isTerminal && negb (bool_decide (blockingState = b_none))) ["blockingState"].

Definition validateRunAttemptLifecycleShape (status : RunAttemptStatus)
    (completedAt : option string) (failure : option ProtocolError) : list (list string) :=
  let isTerminal := negb (bool_decide (status ∈ [ra_queued; ra_running])) in
  issue_if (negb (Bool.eqb isTerminal (is_some completedAt))) ["completedAt"] ++
  issue_if (negb (Bool.eqb (bool_decide (status = ra_failed)) (is_some failure))) ["failure"].

Definition validateSettledTimestamp (status : ItemStatus)
    (completedAt : option string) : list (list string) :=
  issue_if (negb (Bool.eqb (isTerminalItemStatus status) (is_some completedAt))) ["completedAt"].

(** * Sequences *)

Definition assertNextLifecycleSequence (lastSequence nextSequence : Z) : res error unit :=
  if decide (nextSequence = lastSequence + 1) then Ok tt
  else Err (LifecycleTransitionError s_turn (Number_toString lastSequence)
              (Number_toString nextSequence)
              "lifecycle event sequence must be contiguous and monotonic").

Definition assertTurnAcceptsLifecycleEvent (status : TurnStatus) (eventType : string)
    : res error unit :=
  if isTerminalTurnStatus status then
    Err (LifecycleTransitionError s_turn (TurnStatus_str status) eventType
           "terminal turns cannot accept lifecycle events")
  else Ok tt.

(** * Facts *)

Lemma transition_ok {T} `{EqDecision T} (str : T -> string) subject transitions (from to r : T) :
  transition str subject transitions from to = Ok r <-> r = to /\ to ∈ transitions from.
Proof. unfold transition. case_decide; naive_solver. Qed.

Lemma transition_err {T} `{EqDecision T} (str : T -> string) subject transitions (from to : T) e :
  transition str subject transitions from to = Err e <->
  to ∉ transitions from /\
  e = LifecycleTransitionError subject (str from) (str to)
        "the target state is not legal from the current state".
Proof. unfold transition. case_decide; naive_solver. Qed.

Lemma terminal_no_transition from : isTerminalTurnStatus from = true -> TURN_TRANSITIONS from = [].
Proof. by destruct from. Qed.

Lemma find_unsettled_None {T} (isSettled : T -> bool) states :
  find_unsettled isSettled states = None <->
  Forall (fun kv => isSettled (snd kv) = true) states.
Proof.
  induction states as [|[k st] states IH]; simpl; [done|].
  rewrite Forall_cons. simpl. destruct (isSettled st); naive_solver.
Qed.

Lemma find_unsettled_Some {T} (isSettled : T -> bool) states k st :
  find_unsettled isSettled states = Some (k, st) -> (k, st) ∈ states /\ isSettled st = false.
Proof.
  induction states as [|[k' st'] states IH]; simpl; [done|].
  destruct (isSettled st') eqn:Hs; intros H; [|simplify_eq].
  - apply IH in H as [??]. split; [set_solver|done].
  - split; [set_solver|done].
Qed.

Lemma assertAllSettled_ok {T} (str : T -> string) st states isSettled label :
  assertAllSettled str st states isSettled label = Ok tt <->
  Forall (fun kv => isSettled (snd kv) = true) states.
Proof.
  unfold assertAllSettled. rewrite <- find_unsettled_None.
  destruct (find_unsettled _ _) as [[]|]; naive_solver.
Qed.

(** What a settled turn is. *)
Definition settled (input : TerminalSettlementInput) : Prop :=
  isTerminalTurnStatus (tsi_turnStatus input) = true /\
  outcome_status <$> tsi_terminalOutcome input = Some (tsi_turnStatus input) /\
  tsi_blockingState input = b_none /\
  Forall (fun kv => isTerminalItemStatus (snd kv) = true) (tsi_itemStatuses input) /\
  Forall (fun kv => isTerminalApprovalStatus (snd kv) = true) (tsi_approvalStatuses input).

Lemma settlement_iff input : validateTerminalSettlement input = Ok tt <-> settled input.
Proof.
  destruct input as [st o b items approvals].
  unfold validateTerminalSettlement, settled; cbn.
  destruct (isTerminalTurnStatus st); cbn; [|naive_solver].
  destruct o as [o|]; cbn; [|naive_solver].
  destruct (decide (outcome_status o = st)) as [<-|]; [|naive_solver].
  destruct b; try naive_solver.
  pose proof (assertAllSettled_ok ItemStatus_str (outcome_status o) items
    isTerminalItemStatus "item") as Hi.
  pose proof (assertAllSettled_ok ApprovalStatus_str (outcome_status o) approvals
    isTerminalApprovalStatus "approval") as Ha.
  destruct (assertAllSettled ItemStatus_str _ _ _ _) as [[]|]; naive_solver.
Qed.

(** Ids *)

Lemma strip_prefix_app p s : strip_prefix p (p +:+ s) = Some s.
Proof.
  induction p as [|c p IH]; [done|]. rewrite append_cons. cbn [strip_prefix].
  by rewrite Ascii.eqb_refl.
Qed.

Lemma strip_prefix_Some p s t : strip_prefix p s = Some t -> s = p +:+ t.
Proof.
  revert s. induction p as [|c p IH]; intros s; [by intros [= ->]|].
  destruct s as [|c' s]; [done|]. cbn [strip_prefix].
  destruct (Ascii.eqb_spec c c') as [->|]; [|done].
  intros Hs. by rewrite append_cons, (IH _ Hs).
Qed.

Lemma prefixed_id_iff prefix s :
  createPrefixedIdSchema prefix s = true <->
  exists suffix, s = prefix +:+ "_" +:+ suffix /\ ID_SUFFIX_PATTERN suffix = true.
Proof.
  unfold createPrefixedIdSchema. split.
  - destruct (strip_prefix _ s) as [t|] eqn:Hs; [|done].
    intros Ht. exists t. split; [|done]. rewrite (strip_prefix_Some _ _ _ Hs). apply append_assoc.
  - intros (t & -> & Ht). by rewrite <- append_assoc, strip_prefix_app.
Qed.

(** Encodings *)

Lemma failure_roundtrip f : failure_of_json (json_of_failure f) = Some f.
Proof. by destruct f as [? ? ? [] []]. Qed.

Lemma outcome_roundtrip o : outcome_of_json (json_of_outcome o) = Some o.
Proof. by destruct o as [| |[? ? ? [] []]]. Qed.

Definition valid_blocking (b : TurnBlockingState) : bool :=
  match b with
  | b_none => true
  | b_waiting_for_approval i a => ItemIdSchema i && ApprovalIdSchema a
  | b_waiting_for_user_input i r =>
      ItemIdSchema i && ((1 <=? str_length r) && (str_length r <=? 160))
  | b_retry_scheduled a => RunAttemptIdSchema a
  end.

Lemma blocking_roundtrip b : blocking_of_json (json_of_blocking b) = Some b.
Proof. by destruct b. Qed.

Lemma TurnBlockingStateSchema_encode b :
  valid_blocking b = true -> TurnBlockingStateSchema (json_of_blocking b) = Some (json_of_blocking b).
Proof.
  destruct b as [|i a|i r|a]; intros Hv; [done|..]; cbn [valid_blocking] in Hv;
    rewrite ?andb_true_iff in Hv;
    unfold TurnBlockingStateSchema, json_of_blocking, z_tagged_union; simpl;
    unfold z_regex, z_string, z_test, parse_field; simpl.
  - destruct Hv as [-> ->]. done.
  - destruct Hv as [-> [-> ->]]. done.
  - by rewrite Hv.
Qed.

Lemma parse_blocking_encode b :
  valid_blocking b = true -> parse_blocking (json_of_blocking b) = Some b.
Proof.
  intros Hv. unfold parse_blocking. rewrite TurnBlockingStateSchema_encode by done.
  apply blocking_roundtrip.
Qed.

Lemma ProtocolErrorSchema_idempotent : idempotent ProtocolErrorSchema.
Proof.
  apply z_object_idempotent; [by apply (bool_decide_unpack _)|].
  repeat constructor; cbn; auto with legion;
    try (apply z_nullable_idempotent); apply z_test_idempotent.
Qed.
#[export] Hint Resolve ProtocolErrorSchema_idempotent : legion.

#[local] Arguments z_enum _ _ : simpl never.
#[local] Arguments z_string _ _ _ : simpl never.
#[local] Arguments z_nullable _ _ : simpl never.
#[local] Arguments ProtocolErrorSchema _ : simpl never.

(** Parsing an encoded failure or outcome returns it unchanged. *)
Lemma z_enum_id vs s j : z_enum vs (JStr s) = Some j -> j = JStr s.
Proof. intros Hj. by apply z_enum_str in Hj as [-> _]. Qed.
Lemma z_string_id lo hi s j : z_string lo hi (JStr s) = Some j -> j = JStr s.
Proof. unfold z_string. intros Hj. by apply z_test_Some in Hj as [-> _]. Qed.
Lemma z_nullable_str_id lo hi o j :
  z_nullable (z_string lo hi) (nullable_str o) = Some j -> j = nullable_str o.
Proof. destruct o; [apply z_string_id|by intros [= <-]]. Qed.
Lemma z_nullable_rec_id o j : z_nullable z_record (nullable_rec o) = Some j -> j = nullable_rec o.
Proof. by destruct o; intros [= <-]. Qed.

Lemma ProtocolErrorSchema_id f j :
  ProtocolErrorSchema (json_of_failure f) = Some j -> j = json_of_failure f.
Proof.
  unfold ProtocolErrorSchema, json_of_failure. unfold z_object. simpl. unfold parse_field. simpl.
  destruct (z_enum ProtocolErrorCodeSchema _) as [j1|] eqn:H1; simpl; [|done]. apply z_enum_id in H1 as ->.
  destruct (z_string _ _ _) as [j2|] eqn:H2; simpl; [|done]. apply z_string_id in H2 as ->.
  destruct (z_nullable (z_string _ _) _) as [j3|] eqn:H3; simpl; [|done].
  apply z_nullable_str_id in H3 as ->.
  destruct (z_nullable z_record _) as [j4|] eqn:H4; simpl; [|done].
  apply z_nullable_rec_id in H4 as ->. congruence.
Qed.

Lemma InterruptedTurnOutcomeSchema_id r j :
  InterruptedTurnOutcomeSchema (json_of_outcome (to_interrupted r)) = Some j ->
  j = json_of_outcome (to_interrupted r).
Proof.
  unfold InterruptedTurnOutcomeSchema, json_of_outcome, z_object. simpl. unfold parse_field. simpl.
  destruct (z_string _ _ _) as [j2|] eqn:H2; simpl; [|done]. apply z_string_id in H2 as ->. congruence.
Qed.

Lemma FailedTurnOutcomeSchema_id f j :
  FailedTurnOutcomeSchema (json_of_outcome (to_failed f)) = Some j ->
  j = json_of_outcome (to_failed f).
Proof.
  unfold FailedTurnOutcomeSchema. unfold json_of_outcome. unfold z_object. simpl. unfold parse_field. simpl.
  destruct (ProtocolErrorSchema _) as [j2|] eqn:H2; simpl; [|done].
  apply ProtocolErrorSchema_id in H2 as ->. congruence.
Qed.

Lemma CompletedTurnOutcomeSchema_id j :
  CompletedTurnOutcomeSchema (json_of_outcome to_completed) = Some j ->
  j = json_of_outcome to_completed.
Proof. vm_compute. congruence. Qed.
