(* ===== verification/LifecycleEvents.v ===== *)
(** The lifecycle event union of [packages/platform-protocol/src/lifecycle.ts]:
    the envelope, the payload schema of every event type and
    [LifecycleEventSchema.parse]. *)
From S2P Require Import Prelude Js Zod Protocol.

(** * Payload schemas *)

Definition BoundedLifecycleTextSchema : zod := z_string 0 4000.
Definition BoundedLifecycleDetailSchema : zod := z_string 0 280.

Definition LifecycleToolFamilySchema : zod := z_enum
  ["read"; "search"; "shell"; "edit"; "git"; "web"; "image"; "skill";
   "browser"; "mcp"; "dynamic"; "generic"].

Definition LifecycleToolDisplaySchema : zod := z_object
  [req "title" (z_string 1 160);
   req "family" LifecycleToolFamilySchema;
   req "namespace" (z_nullable (z_string 1 160));
   opt "inputSummary" BoundedLifecycleDetailSchema;
   opt "outputSummary" BoundedLifecycleDetailSchema].

Definition PlanStepSchema : zod := z_object
  [req "stepId" (z_string 1 160);
   req "title" BoundedLifecycleDetailSchema;
   req "status" (z_enum ["pending"; "in_progress"; "completed"])].

Definition get_int (k : string) (o : JsonRecord) : option Z :=
  match dget k o with Some (JNum (NInt z)) => Some z | _ => None end.
Definition get_num (k : string) (o : JsonRecord) : option QArith_base.Q :=
  match dget k o with Some (JNum n) => Some (num_value n) | _ => None end.

Definition budget_consistent (j : json) : bool :=
  match j with
  | JObj o =>
      match get_int "tokensRemaining" o, get_int "effectiveInputBudget" o,
            get_int "tokensUsed" o, get_num "warningThresholdPercent" o,
            get_num "automaticCompactionThresholdPercent" o with
      | Some r, Some b, Some u, Some w, Some c =>
          negb (negb (r =? b - u) && (u <=? b)) && QArith_base.Qle_bool w c
      | _, _, _, _, _ => false
      end
  | _ => false
  end.

Definition NullableNonNegativeTokenSchema : zod := z_nullable z_token.

Definition ContextBudgetSnapshotSchema : zod := z_refine (z_object
  [req "providerId" (z_string 1 160);
   req "modelId" (z_string 1 160);
   req "contextWindowLimit" z_token;
   req "systemTokens" NullableNonNegativeTokenSchema;
   req "conversationTokens" NullableNonNegativeTokenSchema;
   req "toolDefinitionTokens" NullableNonNegativeTokenSchema;
   req "attachmentTokens" NullableNonNegativeTokenSchema;
   req "repositoryContextTokens" NullableNonNegativeTokenSchema;
   req "reservedOutputTokens" z_token;
   req "safetyReserveTokens" z_token;
   req "effectiveInputBudget" z_token;
   req "tokensUsed" z_token;
   req "tokensRemaining" z_token;
   req "utilizationPercent" z_percent;
   req "warningThresholdPercent" z_percent;
   req "automaticCompactionThresholdPercent" z_percent;
   req "measurementSource" (z_enum ["provider"; "tokenizer"; "estimate"])])
  budget_consistent.

Definition UsageCostSnapshotSchema : zod := z_object
  [req "providerId" (z_string 1 160);
   req "modelId" (z_string 1 160);
   req "inputTokens" z_token;
   req "outputTokens" z_token;
   req "cachedInputTokens" NullableNonNegativeTokenSchema;
   req "reasoningTokens" NullableNonNegativeTokenSchema;
   req "totalTokens" z_token;
   req "currentTurnCost" (z_nullable z_number_min0);
   req "cumulativeThreadTokens" z_token;
   req "cumulativeThreadCost" (z_nullable z_number_min0);
   req "currency" (z_string 1 12);
   req "measurementSource" (z_enum ["provider"; "estimate"])].

Definition ContextCompactionPayloadSchema : zod := z_object
  [req "compactionId" (z_string 1 160);
   req "itemId" (z_regex ItemIdSchema);
   req "mode" (z_enum ["automatic"; "manual"]);
   req "phase" (z_enum ["requested"; "compacting"; "compacted"; "failed"]);
   req "preservedContextReference" (z_nullable (z_string 1 512));
   req "summary" (z_nullable (z_string 0 4000));
   req "error" (z_nullable (z_string 0 2000))].

Definition LifecycleItemPayloadSchema : zod := z_object
  [opt "kind" (z_enum ItemKindSchema);
   opt "text" BoundedLifecycleTextSchema;
   opt "delta" BoundedLifecycleTextSchema;
   opt "phase" (z_enum ["commentary"; "final_answer"]);
   opt "displaySafe" z_true;
   opt "explanation" (z_nullable BoundedLifecycleDetailSchema);
   opt "steps" (z_list PlanStepSchema 100);
   opt "compactionPhase" (z_enum ["compacting"; "compacted"]);
   opt "mode" (z_enum ["automatic"; "manual"]);
   opt "detail" BoundedLifecycleDetailSchema;
   opt "toolFamily" LifecycleToolFamilySchema;
   opt "display" LifecycleToolDisplaySchema;
   opt "toolName" (z_trimmed 1 160);
   opt "callBatchId" (z_regex ToolCallBatchIdSchema);
   opt "providerMetadata" z_record;
   opt "parentItemId" (z_regex ItemIdSchema);
   opt "input" z_record;
   opt "output" BoundedLifecycleTextSchema;
   opt "result" z_record;
   opt "failure" ProtocolErrorSchema;
   opt "reason" BoundedLifecycleDetailSchema;
   opt "status" (z_string 1 80)].

Definition reason_schema : zod := z_string 1 2000.

(** The optional tool identity of the four tool settlement events. *)
Definition tool_identity : list field :=
  [opt "toolName" (z_trimmed 1 160); opt "callBatchId" (z_regex ToolCallBatchIdSchema)].

Definition grant_requires_approval (j : json) : bool :=
  match j with
  | JObj o => negb (is_some (dget "grantScope" o)) ||
              bool_decide (get_str "status" o = Some "approved")
  | _ => false
  end.

Definition ApprovalDecidedPayloadSchema : zod := z_refine (z_passthrough
  [req "status" (z_enum ["approved"; "denied"; "timed_out"; "cancelled"]);
   opt "grantScope" (z_enum ["matching_in_chat"])])
  grant_requires_approval.

Definition continuation_paired (j : json) : bool :=
  match j with
  | JObj o => Bool.eqb (is_some (dget "continuationOfTurnId" o))
                       (is_some (dget "originalPromptId" o))
  | _ => false
  end.

Definition TurnStartedPayloadSchema : zod := z_refine (z_object
  [opt "revisionOfTurnId" (z_regex TurnIdSchema);
   opt "continuationOfTurnId" (z_regex TurnIdSchema);
   opt "originalPromptId" (z_trimmed 1 200)])
  continuation_paired.

Definition TurnInputAcceptedPayloadSchema : zod := z_object
  [req "inputId" (z_trimmed 1 200);
   req "clientInputId" (z_trimmed 1 200);
   req "transcriptMessageId" (z_trimmed 1 200)].

Definition TurnInputAppliedPayloadSchema : zod := z_object
  [req "inputId" (z_trimmed 1 200);
   req "acceptedSequence" z_token;
   req "modelStep" z_positive_int;
   req "contextRevision" z_token].

(** * The alternatives of the union *)

Inductive presence : Type := Required | Optional | Absent.

(** Which of the ids of the envelope an alternative has, and its payload. *)
Record event_shape : Type := Shape {
  sh_item : presence;
  sh_tool : presence;
  sh_approval : presence;
  sh_request : presence;
  sh_payload : zod;
}.

Definition turn_shape := Shape Absent Absent Absent Absent.
Definition item_shape := Shape Required Absent Absent Absent.
Definition tool_shape := Shape Required Required Absent Absent.
Definition approval_shape := Shape Required Absent Required Absent.
Definition request_shape := Shape Required Absent Absent Required.
Definition generic_shape := Shape Optional Absent Absent Absent z_record.

Definition shapes_turn : dict event_shape :=
  [("turn.started", Shape Optional Absent Absent Absent TurnStartedPayloadSchema);
   ("turn.input.accepted", turn_shape TurnInputAcceptedPayloadSchema);
   ("turn.input.applied", turn_shape TurnInputAppliedPayloadSchema);
   ("turn.completed", turn_shape (z_object [req "outcome" CompletedTurnOutcomeSchema]));
   ("turn.interrupted", turn_shape (z_object [req "outcome" InterruptedTurnOutcomeSchema]));
   ("turn.failed", turn_shape (z_object [req "outcome" FailedTurnOutcomeSchema]));
   ("context_budget.updated", turn_shape
      (z_object [req "snapshot" ContextBudgetSnapshotSchema]));
   ("usage.updated", turn_shape (z_object [req "usage" UsageCostSnapshotSchema]))].

Definition shapes_item : dict event_shape :=
  [("item.started", item_shape LifecycleItemPayloadSchema);
   ("item.updated", item_shape LifecycleItemPayloadSchema);
   ("assistant_message.delta", item_shape LifecycleItemPayloadSchema);
   ("reasoning.summary_delta", item_shape LifecycleItemPayloadSchema);
   ("plan.updated", item_shape LifecycleItemPayloadSchema);
   ("command_execution.output_delta", item_shape LifecycleItemPayloadSchema);
   ("file_change.patch_updated", item_shape LifecycleItemPayloadSchema);
   ("item.completed", item_shape (z_object [req "result" z_record]));
   ("item.failed", item_shape (z_object [req "failure" ProtocolErrorSchema]));
   ("item.declined", item_shape (z_object [req "reason" reason_schema]));
   ("item.interrupted", item_shape (z_object [req "reason" reason_schema]));
   ("context_compaction.requested", item_shape ContextCompactionPayloadSchema);
   ("context_compaction.started", item_shape ContextCompactionPayloadSchema);
   ("context_compaction.completed", item_shape ContextCompactionPayloadSchema);
   ("context_compaction.failed", item_shape ContextCompactionPayloadSchema)].

Definition shapes_tool : dict event_shape :=
  [("tool_call.started", tool_shape LifecycleItemPayloadSchema);
   ("tool_call.input_delta", tool_shape LifecycleItemPayloadSchema);
   ("tool_call.output_delta", tool_shape LifecycleItemPayloadSchema);
   ("tool_call.completed", tool_shape (z_object (req "result" z_record :: tool_identity)));
   ("tool_call.failed", tool_shape
      (z_object (req "failure" ProtocolErrorSchema :: tool_identity)));
   ("tool_call.declined", tool_shape (z_object (req "reason" reason_schema :: tool_identity)));
   ("tool_call.interrupted", tool_shape
      (z_object (req "reason" reason_schema :: tool_identity)))].

Definition shapes_request : dict event_shape :=
  [("approval.requested", approval_shape z_record);
   ("approval.decided", approval_shape ApprovalDecidedPayloadSchema);
   ("user_input.requested", request_shape z_record);
   ("user_input.responded", request_shape z_record);
   ("request.resolved", request_shape z_record)].

(** The types [TurnLifecycleEventSchema] keeps after its [exclude]. *)
Definition shapes_generic : dict event_shape :=
  map (fun t => (t, generic_shape))
    ["thread.created"; "thread.updated"; "thread.archived"; "turn.queued";
     "turn.blocking_changed"; "run_attempt.started"; "run_attempt.succeeded";
     "run_attempt.interrupted"; "run_attempt.failed"; "turn.diff_updated";
     "workspace.snapshot_captured"; "workspace.snapshot_unavailable";
     "workspace.state_changed"; "artifact.created"; "artifact.finalized";
     "hook.invocation.started"; "hook.invocation.completed";
     "hook.invocation.failed"; "hook.invocation.timed_out";
     "hook.invocation.cancelled"].

Definition event_shapes : dict event_shape :=
  shapes_turn ++ shapes_item ++ shapes_tool ++ shapes_request ++ shapes_generic.

(** [LifecycleEventTypeSchema.options] *)
Definition LifecycleEventTypeSchema : list string :=
  ["thread.created"; "thread.updated"; "thread.archived"; "turn.queued";
   "turn.started"; "turn.input.accepted"; "turn.input.applied";
   "turn.blocking_changed"; "turn.completed"; "turn.interrupted"; "turn.failed";
   "run_attempt.started"; "run_attempt.succeeded"; "run_attempt.interrupted";
   "run_attempt.failed"; "item.started"; "item.updated"; "item.completed";
   "item.failed"; "item.declined"; "item.interrupted"; "tool_call.started";
   "assistant_message.delta"; "reasoning.summary_delta"; "plan.updated";
   "tool_call.input_delta"; "tool_call.output_delta"; "tool_call.completed";
   "tool_call.failed"; "tool_call.declined"; "tool_call.interrupted";
   "command_execution.output_delta"; "file_change.patch_updated";
   "context_budget.updated"; "usage.updated"; "context_compaction.requested";
   "context_compaction.started"; "context_compaction.completed";
   "context_compaction.failed"; "turn.diff_updated"; "approval.requested";
   "approval.decided"; "user_input.requested"; "user_input.responded";
   "request.resolved"; "workspace.snapshot_captured";
   "workspace.snapshot_unavailable"; "workspace.state_changed";
   "artifact.created"; "artifact.finalized"; "hook.invocation.started";
   "hook.invocation.completed"; "hook.invocation.failed";
   "hook.invocation.timed_out"; "hook.invocation.cancelled"].

(** * Events *)

Record LifecycleEvent : Type := mkEvent {
  eventId : string;
  threadId : string;
  turnId : string;
  runAttemptId : string;
  sequence : Z;
  idempotencyKey : string;
  producer_id : string;
  schemaVersion : Z;
  createdAt : string;
  type : string;
  itemId : option string;
  toolCallId : option string;
  approvalId : option string;
  requestId : option string;
  payload : JsonRecord;
}.

Definition set_payload (p : JsonRecord) (e : LifecycleEvent) : LifecycleEvent :=
  mkEvent (eventId e) (threadId e) (turnId e) (runAttemptId e) (sequence e)
    (idempotencyKey e) (producer_id e) (schemaVersion e) (createdAt e) (type e)
    (itemId e) (toolCallId e) (approvalId e) (requestId e) p.

Definition LIFECYCLE_SCHEMA_VERSION : Z := 1.


Definition LifecycleEventEnvelopeShape `{JsRuntime} (e : LifecycleEvent) : bool :=
  EventIdSchema (eventId e) && ThreadIdSchema (threadId e) && TurnIdSchema (turnId e) &&
  RunAttemptIdSchema (runAttemptId e) &&
  ((0 <=? sequence e) && (sequence e <=? MAX_SAFE_INTEGER)) &&
  str_between 1 200 (idempotencyKey e) && str_between 1 160 (producer_id e) &&
  (schemaVersion e =? LIFECYCLE_SCHEMA_VERSION) && is_datetime (createdAt e).

Definition present_ok (p : presence) (valid : string -> bool) (o : option string) : bool :=
  match p, o with
  | Required, Some s | Optional, Some s => valid s
  | Optional, None | Absent, None => true
  | _, _ => false
  end.

(** [LifecycleEventSchema.safeParse(event)]: the alternatives of the union are
    told apart by their types. *)
Definition LifecycleEventSchema `{JsRuntime} (e : LifecycleEvent) : option LifecycleEvent :=
  match dget (type e) event_shapes with
  | Some sh =>
      if LifecycleEventEnvelopeShape e &&
         present_ok (sh_item sh) ItemIdSchema (itemId e) &&
         present_ok (sh_tool sh) ToolCallIdSchema (toolCallId e) &&
         present_ok (sh_approval sh) ApprovalIdSchema (approvalId e) &&
         present_ok (sh_request sh) (str_between 1 160) (requestId e)
      then match sh_payload sh (JObj (payload e)) with
           | Some (JObj p) => Some (set_payload p e)
           | _ => None
           end
      else None
  | None => None
  end.

(** [LifecycleEventSchema.parse(event)] *)
Definition parse_event `{JsRuntime} (e : LifecycleEvent) : res error LifecycleEvent :=
  match LifecycleEventSchema e with Some e' => Ok e' | None => Err ZodError end.

(** * Facts *)

Ltac solve_idempotent :=
  repeat first
    [ apply z_refine_idempotent
    | apply z_object_idempotent; [by apply (bool_decide_unpack _)|]
    | apply z_passthrough_idempotent; [by apply (bool_decide_unpack _)|]
    | apply z_nullable_idempotent
    | apply z_list_idempotent
    | apply z_trimmed_idempotent
    | apply ProtocolErrorSchema_idempotent
    | apply z_test_idempotent
    | (unfold fields_idempotent; repeat (constructor; simpl)) ].

Lemma event_shapes_idempotent :
  Forall (fun kv => idempotent (sh_payload (snd kv))) event_shapes.
Proof.
  unfold event_shapes, shapes_generic; simpl.
  repeat (apply Forall_cons; split; [simpl; solve_idempotent|]). constructor.
Qed.

Lemma event_shape_idempotent t sh :
  dget t event_shapes = Some sh -> idempotent (sh_payload sh).
Proof.
  intros Hd. apply dget_elem in Hd.
  by apply (proj1 (Forall_forall _ _) event_shapes_idempotent _) in Hd.
Qed.

Lemma LifecycleEventSchema_Some `{JsRuntime} e e' :
  LifecycleEventSchema e = Some e' ->
  exists p, e' = set_payload p e /\ LifecycleEventEnvelopeShape e = true.
Proof.
  unfold LifecycleEventSchema. destruct (dget _ _) as [sh|]; [|done].
  destruct (_ && _) eqn:Hc; [|done].
  destruct (sh_payload sh _) as [[]|]; try done. intros [= <-].
  eexists. split; [done|]. rewrite !andb_true_iff in Hc. tauto.
Qed.

(** Parsing keeps every field of the envelope. *)
Lemma parse_event_set `{JsRuntime} e e' :
  parse_event e = Ok e' -> exists p, e' = set_payload p e.
Proof.
  unfold parse_event. destruct (LifecycleEventSchema e) eqn:Hp; [|done].
  intros [= <-]. apply LifecycleEventSchema_Some in Hp. naive_solver.
Qed.

Lemma parse_event_idem `{JsRuntime} e e' : parse_event e = Ok e' -> parse_event e' = Ok e'.
Proof.
  unfold parse_event, LifecycleEventSchema.
  destruct (dget (type e) event_shapes) as [sh|] eqn:Hsh; [|done].
  destruct (_ && _) eqn:Hc; [|done].
  destruct (sh_payload sh (JObj (payload e))) as [[]|] eqn:Hp; try done. intros [= <-].
  change (type (set_payload o e)) with (type e). rewrite Hsh.
  change (LifecycleEventEnvelopeShape (set_payload o e)) with (LifecycleEventEnvelopeShape e).
  cbn [itemId toolCallId approvalId requestId payload set_payload].
  by rewrite Hc, (event_shape_idempotent _ _ Hsh _ _ Hp).
Qed.

Lemma parse_event_inv `{JsRuntime} d e :
  parse_event d = Ok e ->
  exists sh pl, dget (type d) event_shapes = Some sh /\
    LifecycleEventEnvelopeShape d = true /\
    present_ok (sh_item sh) ItemIdSchema (itemId d) = true /\
    present_ok (sh_tool sh) ToolCallIdSchema (toolCallId d) = true /\
    present_ok (sh_approval sh) ApprovalIdSchema (approvalId d) = true /\
    present_ok (sh_request sh) (str_between 1 160) (requestId d) = true /\
    sh_payload sh (JObj (payload d)) = Some (JObj pl) /\ e = set_payload pl d.
Proof.
  unfold parse_event, LifecycleEventSchema.
  destruct (dget (type d) event_shapes) as [sh|] eqn:Hsh; [|done].
  destruct (_ && _) eqn:Hc; [|done]. rewrite !andb_true_iff in Hc.
  destruct (sh_payload sh (JObj (payload d))) as [[]|] eqn:Hp; try done. intros [= <-].
  exists sh, o. destruct Hc as [[[[Henv Hi] Ht] Ha] Hr]. by split_and!.
Qed.

Lemma prefixed_id_nonempty prefix s : createPrefixedIdSchema prefix s = true -> s <> "".
Proof. intros Hs ->. by destruct prefix. Qed.

Lemma present_item p s : present_ok p ItemIdSchema (Some s) = true -> ItemIdSchema s = true.
Proof. by destruct p. Qed.
Lemma present_tool p s : present_ok p ToolCallIdSchema (Some s) = true -> ToolCallIdSchema s = true.
Proof. by destruct p. Qed.
Lemma present_approval p s :
  present_ok p ApprovalIdSchema (Some s) = true -> ApprovalIdSchema s = true.
Proof. by destruct p. Qed.
