(* ===== verification/LifecycleProps.v ===== *)
(** Properties of the lifecycle protocol: its transition tables, the settlement
    check and the event schema. *)
From S2P Require Import Prelude Js Zod Protocol LifecycleEvents.

(** A sequence of transitions, each from the state the last one reached. *)
Fixpoint walk {T} (step : T -> T -> res error T) (from : T) (tos : list T) : res error T :=
  match tos with
  | [] => Ok from
  | to :: rest => next ← step from to; walk step next rest
  end.

(** A measure that falls with every transition bounds the walks. *)
Lemma walk_length {T} `{EqDecision T} (str : T -> string) subject transitions (rank : T -> nat) :
  (forall from to, to ∈ transitions from -> (rank to < rank from)%nat) ->
  forall tos from s, walk (transition str subject transitions) from tos = Ok s ->
  (length tos + rank s <= rank from)%nat.
Proof.
  intros Hrank tos. induction tos as [|to rest IH]; intros from s Hw.
  - injection Hw as <-. cbn. lia.
  - cbn [walk] in Hw. apply res_bind_Ok in Hw as (next & Ht & Hw).
    apply transition_ok in Ht as [-> Hin]. apply Hrank in Hin. apply IH in Hw. cbn. lia.
Qed.

Definition item_rank (s : ItemStatus) : nat :=
  match s with it_not_started => 2 | it_active => 1 | _ => 0 end.
Definition attempt_rank (s : RunAttemptStatus) : nat :=
  match s with ra_queued => 2 | ra_running => 1 | _ => 0 end.
Definition approval_rank (s : ApprovalStatus) : nat := match s with ap_pending => 1 | _ => 0 end.

Lemma ITEM_rank from to : to ∈ ITEM_TRANSITIONS from -> (item_rank to < item_rank from)%nat.
Proof. destruct from; cbn; rewrite ?elem_of_cons, ?elem_of_nil; intros; destruct_or?; subst; cbn; done || lia. Qed.
Lemma RUN_ATTEMPT_rank from to :
  to ∈ RUN_ATTEMPT_TRANSITIONS from -> (attempt_rank to < attempt_rank from)%nat.
Proof. destruct from; cbn; rewrite ?elem_of_cons, ?elem_of_nil; intros; destruct_or?; subst; cbn; done || lia. Qed.
Lemma APPROVAL_rank from to :
  to ∈ APPROVAL_TRANSITIONS from -> (approval_rank to < approval_rank from)%nat.
Proof. destruct from; cbn; rewrite ?elem_of_cons, ?elem_of_nil; intros; destruct_or?; subst; cbn; done || lia. Qed.

(** The types of the shape tables are those of the enumeration. *)
Lemma event_shapes_keys : forall t, t ∈ LifecycleEventTypeSchema <-> t ∈ dkeys event_shapes.
Proof.
  assert (H1 : forallb (fun t => bool_decide (t ∈ dkeys event_shapes)) LifecycleEventTypeSchema = true)
    by by vm_compute.
  assert (H2 : forallb (fun t => bool_decide (t ∈ LifecycleEventTypeSchema)) (dkeys event_shapes) = true)
    by by vm_compute.
  rewrite forallb_forall in H1, H2. intros t. rewrite !list_elem_of_In. split; intros Ht.
  - apply H1 in Ht. by apply bool_decide_eq_true, list_elem_of_In in Ht.
  - apply H2 in Ht. by apply bool_decide_eq_true, list_elem_of_In in Ht.
Qed.

(** * Properties *)

(** Nothing in the lifecycle runs for ever, and nothing that ended comes back:
    an item or a tool call makes at most two transitions, a run attempt at most
    two, an approval at most one; a turn that has ended makes none, and one that
    has not can always be interrupted or failed. *)
Theorem lifecycle_walks :
  (forall tos s, walk transitionItemStatus it_not_started tos = Ok s -> (length tos <= 2)%nat) /\
  (forall tos s, walk transitionToolCallStatus it_not_started tos = Ok s -> (length tos <= 2)%nat) /\
  (forall tos s, walk transitionRunAttemptStatus ra_queued tos = Ok s -> (length tos <= 2)%nat) /\
  (forall tos s, walk transitionApprovalStatus ap_pending tos = Ok s -> (length tos <= 1)%nat) /\
  forall from, if isTerminalTurnStatus from
    then forall to, is_ok (transitionTurnStatus from to) = false
    else transitionTurnStatus from interrupted = Ok interrupted /\
         transitionTurnStatus from failed = Ok failed.
Proof.
  split_and!.
  - intros tos s Hw. apply (walk_length _ _ _ item_rank ITEM_rank) in Hw. cbn in Hw. lia.
  - intros tos s Hw. apply (walk_length _ _ _ item_rank ITEM_rank) in Hw. cbn in Hw. lia.
  - intros tos s Hw. apply (walk_length _ _ _ attempt_rank RUN_ATTEMPT_rank) in Hw. cbn in Hw. lia.
  - intros tos s Hw. apply (walk_length _ _ _ approval_rank APPROVAL_rank) in Hw. cbn in Hw. lia.
  - intros from. destruct from; cbn; try done; by intros [].
Qed.

(** [validateTerminalSettlement] accepts exactly the settled turns: terminal,
    with the outcome of that status, not blocked, and no item or approval left
    open; everything else is a [LifecycleTransitionError] on the settlement. *)
Theorem settlement_exact input :
  (validateTerminalSettlement input = Ok tt <-> settled input) /\
  forall e, validateTerminalSettlement input = Err e ->
    exists from to reason, e = LifecycleTransitionError s_terminal_settlement from to reason.
Proof.
  split; [apply settlement_iff|]. intros e He. unfold validateTerminalSettlement, settlementError in He.
  repeat (case_match; try discriminate He); try (injection He as <-; by eexists _, _, _).
  all: unfold assertAllSettled, settlementError in *; repeat case_match; simplify_eq; by eexists _, _, _.
Qed.

(** C25. Parsing an event is normal: every event type of the protocol has a schema
    and no other; what is parsed keeps its envelope, has a known type, and parses
    to itself. *)
Theorem event_parse_normal `{JsRuntime} d e :
  parse_event d = Ok e ->
  parse_event e = Ok e /\ type e ∈ LifecycleEventTypeSchema /\ e = set_payload (payload e) d /\
  forall t, t ∈ LifecycleEventTypeSchema <-> is_Some (dget t event_shapes).
Proof.
  intros Hp. pose proof Hp as (sh & pl & Hsh & _ & _ & _ & _ & _ & _ & He)%parse_event_inv.
  split_and!.
  - by eapply parse_event_idem.
  - subst e. cbn. rewrite event_shapes_keys. apply elem_dkeys. by rewrite Hsh.
  - by subst e.
  - intros t. by rewrite event_shapes_keys, elem_dkeys.
Qed.

(** An event whose payload the schema trims. *)
Definition untrimmed_event : LifecycleEvent :=
  mkEvent "evt_demo01_2" "thr_demo01" "trn_demo01" "attempt_demo01" 2 "trn_demo01:2" "kernel" 1
    "2025-01-01T00:00:00.000Z" "turn.input.accepted" None None None None
    [("inputId", JStr " in_1 "); ("clientInputId", JStr "c_1"); ("transcriptMessageId", JStr "m_1")].

Lemma event_parse_normal_witness :
  let _ := iso_runtime in
  exists e, e <> untrimmed_event /\ parse_event untrimmed_event = Ok e /\
    parse_event e = Ok e /\ type e ∈ LifecycleEventTypeSchema /\
    e = set_payload (payload e) untrimmed_event /\
    forall t, t ∈ LifecycleEventTypeSchema <-> is_Some (dget t event_shapes).
Proof.
  intros R. destruct (parse_event untrimmed_event) as [e|] eqn:Hp; [|by vm_compute in Hp].
  exists e. split; [vm_compute in Hp; by injection Hp as <-|]. split; [done|].
  exact (event_parse_normal (H := R) untrimmed_event e Hp).
Defined.
