(* ===== verification/EventStore.v ===== *)
(** The in-memory lifecycle event store of [packages/event-store/src]:
    [createStableEventFingerprint] (fingerprint.ts) and
    [MemoryLifecycleEventStore].  The three [Map]s are finite maps; the
    clones of the code are values here. *)
From S2P Require Import Prelude Js Zod Protocol LifecycleEvents.

(** * Fingerprints *)

Section Fingerprint.
Context `{JsRuntime}.

(** [entries.sort(([left], [right]) => left.localeCompare(right))] *)
Fixpoint insert_entry (e : string * json) (l : list (string * json))
    : list (string * json) :=
  match l with
  | [] => [e]
  | e' :: l' => if locale_le (fst e) (fst e') then e :: l else e' :: insert_entry e l'
  end.

Definition sort_entries (l : list (string * json)) : list (string * json) :=
  foldr insert_entry [] l.

Fixpoint sortJsonValue (value : json) : json :=
  match value with
  | JArr l => JArr (map sortJsonValue l)
  | JObj o => JObj (sort_entries (map (fun '(k, v) => (k, sortJsonValue v)) o))
  | _ => value
  end.

Definition opt_entry (k : string) (o : option string) : list (string * json) :=
  match o with Some s => [(k, JStr s)] | None => [] end.

(** A parsed event as the object it is. *)
Definition event_to_json (e : LifecycleEvent) : json := JObj
  ([("eventId", JStr (eventId e)); ("threadId", JStr (threadId e));
    ("turnId", JStr (turnId e)); ("runAttemptId", JStr (runAttemptId e));
    ("sequence", JNum (NInt (sequence e)));
    ("idempotencyKey", JStr (idempotencyKey e));
    ("producer", JObj [("kind", JStr "runtime_kernel"); ("id", JStr (producer_id e))]);
    ("schemaVersion", JNum (NInt (schemaVersion e)));
    ("createdAt", JStr (createdAt e))] ++
   opt_entry "itemId" (itemId e) ++ opt_entry "toolCallId" (toolCallId e) ++
   opt_entry "approvalId" (approvalId e) ++ opt_entry "requestId" (requestId e) ++
   [("type", JStr (type e)); ("payload", JObj (payload e))]).

Definition createStableEventFingerprint (e : LifecycleEvent) : string :=
  JSON_stringify (sortJsonValue (event_to_json e)).
End Fingerprint.

(** * The store *)

Definition MAX_REPLAY_LIMIT : Z := 1000.

Record StoredLifecycleEvent : Type := mkStored {
  event : LifecycleEvent;
  fingerprint : string;
}.

Record MemoryLifecycleEventStore : Type := mkStore {
  eventsByTurn : gmap string (list StoredLifecycleEvent);
  eventsById : gmap string StoredLifecycleEvent;
  eventsByIdempotencyKey : gmap string StoredLifecycleEvent;
}.

Definition empty_store : MemoryLifecycleEventStore := mkStore ∅ ∅ ∅.

(** [this.eventsByTurn.get(turnId) ?? []] *)
Definition turn_log (turn : string) (s : MemoryLifecycleEventStore)
    : list StoredLifecycleEvent :=
  default [] (eventsByTurn s !! turn).

Definition is_terminal_type (t : string) : bool :=
  bool_decide (t ∈ ["turn.completed"; "turn.failed"; "turn.interrupted"]).

Definition idempotency_key (e : LifecycleEvent) : string :=
  turnId e +:+ ":" +:+ idempotencyKey e.

Section Store.
Context `{JsRuntime}.

Definition assertAppendable (e : LifecycleEvent) (s : MemoryLifecycleEventStore)
    : res error unit :=
  match eventsById s !! eventId e with
  | Some _ => Err (EventStoreError "event_id_conflict")
  | None =>
      let previous := event <$> last (turn_log (turnId e) s) in
      if match previous with Some p => is_terminal_type (type p) | None => false end
      then Err (EventStoreError "terminal_stream")
      else if decide (sequence e = from_option sequence 0 previous + 1) then Ok tt
      else Err (EventStoreError "sequence_gap")
  end.

Definition store_event (e : LifecycleEvent) (fp : string)
    (s : MemoryLifecycleEventStore) : MemoryLifecycleEventStore :=
  let stored := mkStored e fp in
  mkStore (<[turnId e := turn_log (turnId e) s ++ [stored]]> (eventsByTurn s))
    (<[eventId e := stored]> (eventsById s))
    (<[idempotency_key e := stored]> (eventsByIdempotencyKey s)).

Definition appendOne (e : LifecycleEvent)
    : ST MemoryLifecycleEventStore error LifecycleEvent := fun s =>
  let fp := createStableEventFingerprint e in
  match eventsByIdempotencyKey s !! idempotency_key e with
  | Some existing =>
      if decide (fingerprint existing = fp) then (Ok (event existing), s)
      else (Err (EventStoreError "idempotency_conflict"), s)
  | None =>
      match assertAppendable e s with
      | Err err => (Err err, s)
      | Ok _ => (Ok e, store_event e fp s)
      end
  end.

(** The draft takes the place of the store only when every event was
    appended. *)
Definition appendBatch (events : list LifecycleEvent)
    : ST MemoryLifecycleEventStore error (list LifecycleEvent) := fun s =>
  match res_map parse_event events with
  | Err e => (Err e, s)
  | Ok parsed =>
      match map_of parsed appendOne s with
      | (Ok appended, draft) => (Ok appended, draft)
      | (Err e, _) => (Err e, s)
      end
  end.

Definition append (e : LifecycleEvent)
    : ST MemoryLifecycleEventStore error LifecycleEvent :=
  es ← appendBatch [e];
  match es with
  | e' :: _ => mret e'
  | [] => throw (JsError "undefined")
  end.

Record ReplayLifecycleEventsInput : Type := mkReplayInput {
  ri_turnId : string;
  ri_afterSequence : option Z;
  ri_limit : Z;
}.

Definition validateReplay (input : ReplayLifecycleEventsInput) : res error unit :=
  if negb (is_safe_integer (ri_limit input)) || (ri_limit input <? 1) ||
     (MAX_REPLAY_LIMIT <? ri_limit input)
  then Err (EventStoreError "invalid_replay_limit")
  else match ri_afterSequence input with
       | Some after =>
           if negb (is_safe_integer after) || (after <? 0)
           then Err (EventStoreError "cursor_not_found") else Ok tt
       | None => Ok tt
       end.

Fixpoint assertReplayContinuity (events : list LifecycleEvent) (expected : Z)
    : res error unit :=
  match events with
  | [] => Ok tt
  | e :: events' =>
      if decide (sequence e = expected) then assertReplayContinuity events' (expected + 1)
      else Err (EventStoreError "corrupt_event_stream")
  end.

Definition replay (input : ReplayLifecycleEventsInput) (s : MemoryLifecycleEventStore)
    : res error (list LifecycleEvent * option Z) :=
  match validateReplay input with
  | Err e => Err e
  | Ok _ =>
      let after := default 0 (ri_afterSequence input) in
      let page := map event
        (take (Z.to_nat (ri_limit input))
           (filter (fun x => after < sequence (event x)) (turn_log (ri_turnId input) s))) in
      match assertReplayContinuity page (after + 1) with
      | Err e => Err e
      | Ok _ => Ok (page, sequence <$> last page)
      end
  end.
End Store.

(** * Invariant *)

Section Invariant.
Context `{JsRuntime}.

(** The log of a turn: contiguous sequences from 1, every event of that turn
    valid and fingerprinted, and nothing after a terminal event. *)
Definition log_ok (t : string) (l : list StoredLifecycleEvent) : Prop :=
  forall i x, l !! i = Some x ->
    sequence (event x) = Z.of_nat i + 1 /\
    turnId (event x) = t /\
    fingerprint x = createStableEventFingerprint (event x) /\
    parse_event (event x) = Ok (event x) /\
    (is_terminal_type (type (event x)) = true -> S i = length l).

(** The index maps hold exactly the logged events, so that ids and
    idempotency keys are unique. *)
Record store_ok (s : MemoryLifecycleEventStore) : Prop := {
  ok_logs : forall t, log_ok t (turn_log t s);
  ok_ids : forall id x, eventsById s !! id = Some x <->
    eventId (event x) = id /\ x ∈ turn_log (turnId (event x)) s;
  ok_keys : forall k x, eventsByIdempotencyKey s !! k = Some x <->
    idempotency_key (event x) = k /\ x ∈ turn_log (turnId (event x)) s;
}.

Definition terminated (l : list StoredLifecycleEvent) : bool :=
  match last l with Some x => is_terminal_type (type (event x)) | None => false end.

Lemma turn_log_store_event t e fp s :
  turn_log t (store_event e fp s) =
  if decide (t = turnId e) then turn_log t s ++ [mkStored e fp] else turn_log t s.
Proof.
  unfold turn_log, store_event; cbn. destruct (decide (t = turnId e)) as [->|Hne].
  - by rewrite lookup_insert_eq.
  - by rewrite lookup_insert_ne.
Qed.

Lemma log_ok_last_sequence t l :
  log_ok t l -> from_option sequence 0 (event <$> last l) = Z.of_nat (length l).
Proof.
  intros Hl. rewrite last_lookup. destruct l as [|x l]; [done|].
  destruct ((x :: l) !! pred (length (x :: l))) as [y|] eqn:Hy.
  - apply Hl in Hy as [Hs _]. cbn in *. lia.
  - apply lookup_ge_None in Hy. cbn in Hy. lia.
Qed.

Lemma assertAppendable_ok e s :
  store_ok s ->
  assertAppendable e s = Ok tt <->
  eventsById s !! eventId e = None /\
  terminated (turn_log (turnId e) s) = false /\
  sequence e = Z.of_nat (length (turn_log (turnId e) s)) + 1.
Proof.
  intros Hs. unfold assertAppendable, terminated.
  rewrite (log_ok_last_sequence (turnId e)) by apply Hs.
  destruct (eventsById s !! eventId e); [naive_solver|].
  destruct (last (turn_log (turnId e) s)) as [x|]; cbn.
  - destruct (is_terminal_type _); [naive_solver|]. case_decide; naive_solver.
  - case_decide; naive_solver.
Qed.

Lemma log_ok_snoc t l x :
  log_ok t l -> terminated l = false ->
  sequence (event x) = Z.of_nat (length l) + 1 -> turnId (event x) = t ->
  fingerprint x = createStableEventFingerprint (event x) ->
  parse_event (event x) = Ok (event x) ->
  log_ok t (l ++ [x]).
Proof.
  intros Hl Ht Hseq Hturn Hfp Hparse i y Hy.
  apply lookup_app_Some in Hy as [Hy|[Hi Hy]].
  - pose proof (lookup_lt_Some _ _ _ Hy). destruct (Hl i y Hy) as (? & ? & ? & ? & Hterm).
    split_and!; try done. intros Hy'. exfalso. specialize (Hterm Hy').
    unfold terminated in Ht. rewrite last_lookup, <- Hterm in Ht. cbn in Ht.
    rewrite Hy in Ht. congruence.
  - apply list_lookup_singleton_Some in Hy as [Hi' <-].
    assert (i = length l) as -> by lia. rewrite length_app; cbn.
    split_and!; [lia|done..|lia].
Qed.

Lemma index_insert (m : gmap string StoredLifecycleEvent) (key : LifecycleEvent -> string)
    e fp s :
  (forall k x, m !! k = Some x <->
     key (event x) = k /\ x ∈ turn_log (turnId (event x)) s) ->
  m !! key e = None ->
  forall k x, <[key e := mkStored e fp]> m !! k = Some x <->
    key (event x) = k /\ x ∈ turn_log (turnId (event x)) (store_event e fp s).
Proof.
  intros Hm Hnone k x. rewrite turn_log_store_event, lookup_insert_Some, Hm.
  assert (Hold : x ∈ turn_log (turnId (event x)) s -> key (event x) <> key e).
  { intros Hin Heq. assert (m !! key e = Some x) by (by apply Hm). congruence. }
  destruct (decide (turnId (event x) = turnId e)) as [Ht|Ht].
  - rewrite elem_of_app, list_elem_of_singleton. split.
    + intros [[<- <-]|(Hne & <- & Hin)]; cbn; auto.
    + intros [Hk [Hin| ->]]; subst k; [right; split_and!; auto; by intros ?; apply Hold|by left].
  - split.
    + intros [[_ <-]|(Hne & <- & Hin)]; [done|auto].
    + intros [<- Hin]. right. split_and!; auto. by intros ?; apply Hold.
Qed.

Lemma store_event_ok e s :
  store_ok s -> parse_event e = Ok e ->
  eventsByIdempotencyKey s !! idempotency_key e = None ->
  assertAppendable e s = Ok tt ->
  store_ok (store_event e (createStableEventFingerprint e) s).
Proof.
  intros Hs Hparse Hkey Happ. apply assertAppendable_ok in Happ as (Hid & Hterm & Hseq); [|done].
  split; cbn [eventsById eventsByIdempotencyKey store_event].
  - intros t. rewrite turn_log_store_event. destruct (decide (t = turnId e)) as [->|]; [|apply Hs].
    apply log_ok_snoc; try done. apply Hs.
  - apply index_insert; [apply Hs|done].
  - apply index_insert; [apply Hs|done].
Qed.

(** What one append does to a sound store. *)
Lemma appendOne_cases e s :
  store_ok s -> parse_event e = Ok e ->
  match appendOne e s with
  | (Ok e', s') =>
      store_ok s' /\
      ((s' = s /\ exists x, event x = e' /\ x ∈ turn_log (turnId e') s /\
                  idempotency_key e' = idempotency_key e /\
                  fingerprint x = createStableEventFingerprint e) \/
       (e' = e /\ s' = store_event e (createStableEventFingerprint e) s /\
        eventsByIdempotencyKey s !! idempotency_key e = None /\
        assertAppendable e s = Ok tt))
  | (Err _, s') => s' = s
  end.
Proof.
  intros Hs Hparse. unfold appendOne.
  destruct (eventsByIdempotencyKey s !! idempotency_key e) as [x|] eqn:Hk.
  - case_decide as Hfp; [|done]. split; [done|]. left. split; [done|]. exists x.
    apply Hs in Hk as [Hk Hin]. done.
  - destruct (assertAppendable e s) as [[]|] eqn:Ha; [|done].
    split; [by apply store_event_ok|by right].
Qed.

Lemma parsed_self events parsed :
  res_map parse_event events = Ok parsed ->
  Forall (fun e => parse_event e = Ok e) parsed.
Proof.
  intros Hp. apply res_map_Ok in Hp. induction Hp; constructor; [|done].
  by eapply parse_event_idem.
Qed.

Lemma appendOne_keeps_ok e : parse_event e = Ok e -> keeps store_ok (appendOne e).
Proof.
  intros He s Hs. pose proof (appendOne_cases e s Hs He) as Hc.
  destruct (appendOne e s) as [[e1|] s1]; cbn; [by destruct Hc|by subst].
Qed.

Lemma appendBatch_keeps_ok events : keeps store_ok (appendBatch events).
Proof.
  intros s Hs. unfold appendBatch.
  destruct (res_map parse_event events) as [parsed|] eqn:Hp; [|done].
  apply parsed_self in Hp. rewrite Forall_forall in Hp.
  pose proof (keeps_map_of store_ok parsed appendOne
    (fun e He => appendOne_keeps_ok e (Hp e He)) s Hs) as Hm.
  by destruct (map_of parsed appendOne s) as [[r|] s'].
Qed.

Lemma empty_store_ok : store_ok empty_store.
Proof.
  split; unfold turn_log; cbn.
  - intros t i x. by rewrite lookup_empty.
  - intros id x. rewrite !lookup_empty; cbn. split; [done|]. intros [_ Hx]. by apply elem_of_nil in Hx.
  - intros id x. rewrite !lookup_empty; cbn. split; [done|]. intros [_ Hx]. by apply elem_of_nil in Hx.
Qed.
End Invariant.

(** * Batches *)

Section Batches.
Context `{JsRuntime}.

(** [e] is stored as [r]: its idempotency key leads to an event with the
    fingerprint of [e]. *)
Definition stored_as (s : MemoryLifecycleEventStore) (e r : LifecycleEvent) : Prop :=
  exists x, eventsByIdempotencyKey s !! idempotency_key e = Some x /\
    fingerprint x = createStableEventFingerprint e /\ event x = r.

Definition extends (s s' : MemoryLifecycleEventStore) : Prop :=
  eventsByIdempotencyKey s ⊆ eventsByIdempotencyKey s' /\
  forall t, turn_log t s `prefix_of` turn_log t s'.

#[export] Instance extends_preorder : PreOrder extends.
Proof.
  split; [by intros s; split|]. intros s1 s2 s3 [Hk12 Hl12] [Hk23 Hl23].
  split; [by transitivity (eventsByIdempotencyKey s2)|]. intros t.
  transitivity (turn_log t s2); auto.
Qed.

Lemma stored_as_mono s s' e r : extends s s' -> stored_as s e r -> stored_as s' e r.
Proof.
  intros [Hk _] (x & Hx & Hfp & Hr). exists x. split_and!; try done.
  by eapply lookup_weaken.
Qed.

Lemma appendOne_stored e r s s' :
  appendOne e s = (Ok r, s') -> extends s s' /\ stored_as s' e r.
Proof.
  unfold appendOne. destruct (eventsByIdempotencyKey s !! idempotency_key e) as [x|] eqn:Hk.
  - case_decide; [|done]. intros [= <- <-]. split; [done|]. by exists x.
  - destruct (assertAppendable e s); [|done]. intros [= <- <-]. split.
    + split; [by apply insert_subseteq|].
      intros t. rewrite turn_log_store_event. case_decide; [by apply prefix_app_r|done].
    + exists (mkStored e (createStableEventFingerprint e)).
      cbn. by rewrite lookup_insert_eq.
Qed.

Lemma appendOne_retry e r s : stored_as s e r -> appendOne e s = (Ok r, s).
Proof.
  intros (x & Hx & Hfp & <-). unfold appendOne. by rewrite Hx, decide_True.
Qed.

Lemma appendAll_stored parsed s rs s' :
  map_of parsed appendOne s = (Ok rs, s') ->
  extends s s' /\ Forall2 (stored_as s') parsed rs.
Proof.
  revert s rs. induction parsed as [|e parsed IH]; intros s rs.
  - intros [= <- <-]. by split.
  - rewrite map_of_cons. destruct (appendOne e s) as [[r|] s1] eqn:He; [|done].
    destruct (map_of parsed appendOne s1) as [[rs1|] s2] eqn:Hm; [|done].
    intros [= <- <-]. apply appendOne_stored in He as [Hext1 Hst].
    apply IH in Hm as [Hext2 Hall]. split; [by transitivity s1|]. constructor; [|done].
    by eapply stored_as_mono.
Qed.

Lemma appendAll_retry parsed s rs :
  Forall2 (stored_as s) parsed rs -> map_of parsed appendOne s = (Ok rs, s).
Proof.
  induction 1 as [|e r parsed rs He Hall IH]; [done|].
  by rewrite map_of_cons, (appendOne_retry _ _ _ He), IH.
Qed.

(** A batch none of whose events is known: contiguous events of one live
    turn with new ids and keys. *)
Inductive fresh_batch (t : string) : MemoryLifecycleEventStore ->
    list LifecycleEvent -> Prop :=
| fresh_nil s : fresh_batch t s []
| fresh_cons s e es :
    turnId e = t ->
    sequence e = Z.of_nat (length (turn_log t s)) + 1 ->
    terminated (turn_log t s) = false ->
    eventsById s !! eventId e = None ->
    eventsByIdempotencyKey s !! idempotency_key e = None ->
    fresh_batch t (store_event e (createStableEventFingerprint e) s) es ->
    fresh_batch t s (e :: es).

Definition stored (e : LifecycleEvent) : StoredLifecycleEvent :=
  mkStored e (createStableEventFingerprint e).

Definition store_events (es : list LifecycleEvent) (s : MemoryLifecycleEventStore)
    : MemoryLifecycleEventStore :=
  foldl (fun s e => store_event e (createStableEventFingerprint e) s) s es.

Lemma appendAll_fresh t es s :
  store_ok s -> Forall (fun e => parse_event e = Ok e) es -> fresh_batch t s es ->
  map_of es appendOne s = (Ok es, store_events es s).
Proof.
  intros Hs Hes Hfresh. revert Hs Hes.
  induction Hfresh as [|s e es Ht Hseq Hterm Hid Hkey Hfresh IH]; intros Hs Hes; [done|].
  apply Forall_cons in Hes as [He Hes]. rewrite map_of_cons.
  assert (assertAppendable e s = Ok tt) as Ha
    by (apply assertAppendable_ok; [done|subst t; done]).
  unfold appendOne at 1. rewrite Hkey, Ha.
  rewrite IH; [done|by apply store_event_ok|done].
Qed.

Lemma turn_log_store_events t es s :
  Forall (fun e => turnId e = t) es ->
  turn_log t (store_events es s) = turn_log t s ++ map stored es /\
  forall t', t' <> t -> turn_log t' (store_events es s) = turn_log t' s.
Proof.
  intros Hes. revert s. induction Hes as [|e es He _ IH]; intros s; cbn.
  - by rewrite app_nil_r.
  - destruct (IH (store_event e (createStableEventFingerprint e) s)) as [IH1 IH2].
    change (foldl _ (store_event e _ s) es)
      with (store_events es (store_event e (createStableEventFingerprint e) s)).
    rewrite IH1. split.
    + rewrite turn_log_store_event, decide_True by done. by rewrite <- app_assoc.
    + intros t' Ht'. rewrite IH2 by done. by rewrite turn_log_store_event, decide_False by congruence.
Qed.

Lemma fresh_batch_turn t s es : fresh_batch t s es -> Forall (fun e => turnId e = t) es.
Proof. induction 1; constructor; done. Qed.

Lemma appendBatch_fresh t es ps s :
  store_ok s -> res_map parse_event es = Ok ps -> fresh_batch t s ps ->
  appendBatch es s = (Ok ps, store_events ps s).
Proof.
  intros Hs Hp Hf. unfold appendBatch. rewrite Hp.
  by rewrite (appendAll_fresh t) by eauto using parsed_self.
Qed.
End Batches.

(** * Replay *)

Section Replay.
Context `{JsRuntime}.

Lemma filter_after t l (after : nat) :
  log_ok t l ->
  filter (fun x => Z.of_nat after < sequence (event x)) l = drop after l.
Proof.
  intros Hl. assert (Hgen : forall n, (forall i x, l !! i = Some x ->
      sequence (event x) = Z.of_nat (n + i) + 1) ->
      filter (fun x => Z.of_nat after < sequence (event x)) l = drop (after - n) l).
  { clear Hl. induction l as [|x l IH]; intros n Hn; [by rewrite drop_nil|].
    pose proof (Hn 0%nat x eq_refl) as Hx. rewrite filter_cons.
    rewrite (IH (S n)).
    - destruct (decide (Z.of_nat after < sequence (event x))) as [Hlt|Hge].
      + replace (after - n)%nat with 0%nat by lia. by replace (after - S n)%nat with 0%nat by lia.
      + replace (after - n)%nat with (S (after - S n)) by lia. done.
    - intros i y Hy. rewrite (Hn (S i) y Hy). lia. }
  rewrite (Hgen 0%nat); [by rewrite Nat.sub_0_r|]. intros i x Hx. by apply Hl in Hx as [-> _].
Qed.

Lemma continuity_ok l expected :
  (forall i e, l !! i = Some e -> sequence e = expected + Z.of_nat i) ->
  assertReplayContinuity l expected = Ok tt.
Proof.
  revert expected. induction l as [|e l IH]; intros expected Hl; [done|]. cbn.
  rewrite (Hl 0%nat e eq_refl), decide_True by lia. apply IH.
  intros i e' He'. rewrite (Hl (S i) e' He'). lia.
Qed.

Lemma log_slice_sequence t l after limit i e :
  log_ok t l -> map event (take limit (drop after l)) !! i = Some e ->
  sequence e = Z.of_nat after + 1 + Z.of_nat i.
Proof.
  intros Hl He. apply list_lookup_fmap_Some in He as (x & -> & Hx).
  apply lookup_take_Some in Hx as [Hx _]. rewrite lookup_drop in Hx.
  apply Hl in Hx as [-> _]. lia.
Qed.

Definition valid_replay (after limit : nat) : Prop :=
  (1 <= limit <= Z.to_nat MAX_REPLAY_LIMIT)%nat /\ Z.of_nat after <= MAX_SAFE_INTEGER.

Lemma validateReplay_ok t after limit :
  valid_replay after limit ->
  validateReplay (mkReplayInput t (Some (Z.of_nat after)) (Z.of_nat limit)) = Ok tt.
Proof.
  unfold valid_replay, validateReplay, is_safe_integer, MAX_REPLAY_LIMIT, MAX_SAFE_INTEGER.
  cbn [ri_limit ri_afterSequence]. intros [Hl Ha].
  rewrite (proj2 (Z.leb_le (- (9007199254740991)) _)), (proj2 (Z.leb_le _ 9007199254740991)) by lia.
  rewrite (proj2 (Z.leb_le (- (9007199254740991)) _)), (proj2 (Z.leb_le _ 9007199254740991)) by lia.
  rewrite !(proj2 (Z.ltb_ge _ _)) by lia. done.
Qed.

Lemma replay_slice t after limit s :
  store_ok s -> valid_replay after limit ->
  replay (mkReplayInput t (Some (Z.of_nat after)) (Z.of_nat limit)) s =
  let page := map event (take limit (drop after (turn_log t s))) in
  Ok (page, sequence <$> last page).
Proof.
  intros Hs Hv. unfold replay. rewrite validateReplay_ok by done.
  cbn [ri_turnId ri_limit ri_afterSequence default from_option id].
  rewrite (filter_after t) by apply Hs. rewrite Nat2Z.id.
  rewrite continuity_ok; [done|]. intros i e He.
  by apply (log_slice_sequence t _ _ _ _ _ (ok_logs s Hs t)) in He as ->.
Qed.
End Replay.
