(* ===== verification/EventStoreProps.v ===== *)
(** Properties of the lifecycle event store: its invariant, atomic batches and
    idempotent retries, what it accepts, and reading a log back page by page. *)
From S2P Require Import Prelude Js Zod Protocol LifecycleEvents EventStore.

(** A history of batches, whatever became of each. *)
Definition run_batches `{JsRuntime} (batches : list (list LifecycleEvent))
    (s : MemoryLifecycleEventStore) : MemoryLifecycleEventStore :=
  foldl (fun s es => snd (appendBatch es s)) s batches.

(** A reader that follows the cursor of each page until an empty one. *)
Fixpoint read_pages (fuel : nat) (t : string) (limit : nat) (cursor : option Z)
    (s : MemoryLifecycleEventStore) : res error (list LifecycleEvent) :=
  match fuel with
  | O => Ok []
  | S fuel' =>
      '(page, next) ← replay (mkReplayInput t cursor (Z.of_nat limit)) s;
      match next with
      | None => Ok page
      | Some _ => rest ← read_pages fuel' t limit next s; Ok (page ++ rest)
      end
  end.

Section Facts.
Context `{JsRuntime}.

Lemma run_batches_ok batches s : store_ok s -> store_ok (run_batches batches s).
Proof.
  revert s. induction batches as [|es batches IH]; intros s Hs; [done|]. cbn. apply IH.
  pose proof (appendBatch_keeps_ok es s Hs) as Hok. by destruct (appendBatch es s) as [[] ?].
Qed.

Lemma logged_turn s t x : store_ok s -> x ∈ turn_log t s -> x ∈ turn_log (turnId (event x)) s.
Proof.
  intros Hs Hx. pose proof Hx as [i Hi]%list_elem_of_lookup.
  apply (ok_logs s Hs) in Hi as (_ & -> & _). done.
Qed.

Lemma logged_unique s t t' x y :
  store_ok s -> x ∈ turn_log t s -> y ∈ turn_log t' s ->
  eventId (event x) = eventId (event y) \/ idempotency_key (event x) = idempotency_key (event y) ->
  x = y.
Proof.
  intros Hs Hx%logged_turn Hy%logged_turn [Heq|Heq]; try done.
  - pose proof (proj2 (ok_ids s Hs _ x) (conj eq_refl Hx)).
    pose proof (proj2 (ok_ids s Hs _ y) (conj eq_refl Hy)). congruence.
  - pose proof (proj2 (ok_keys s Hs _ x) (conj eq_refl Hx)).
    pose proof (proj2 (ok_keys s Hs _ y) (conj eq_refl Hy)). congruence.
Qed.

Lemma last_sequence t s limit after page :
  store_ok s -> page = map event (take limit (drop after (turn_log t s))) -> page <> [] ->
  sequence <$> last page = Some (Z.of_nat (after + length page)).
Proof.
  intros Hs -> Hne. destruct (last _) as [e|] eqn:Hl; [|by apply last_None in Hl].
  rewrite last_lookup in Hl. apply (log_slice_sequence t) in Hl as Hseq; [|apply Hs]. cbn.
  rewrite Hseq. destruct (map event _) as [|e' l] eqn:Hp; [done|]. cbn [length pred]. f_equal. lia.
Qed.

Lemma read_pages_from t s limit fuel after :
  store_ok s -> valid_replay (length (turn_log t s)) limit -> (after <= length (turn_log t s))%nat ->
  (length (turn_log t s) - after < fuel)%nat ->
  read_pages fuel t limit (Some (Z.of_nat after)) s = Ok (map event (drop after (turn_log t s))).
Proof.
  intros Hs Hv. pose proof Hv as [Hlim Hmax].
  revert after. induction fuel as [|fuel IH]; intros after Hafter Hfuel; [lia|].
  cbn [read_pages]. rewrite (replay_slice t after limit s Hs) by (split; [done|lia]).
  cbn [mbind res_bind]. set (page := map event (take limit (drop after (turn_log t s)))).
  assert (Hlen : length page = Nat.min limit (length (turn_log t s) - after))
    by (unfold page; by rewrite length_map, length_take, length_drop).
  destruct (decide (page = [])) as [Hnil|Hne].
  - rewrite Hnil in *. cbn in Hlen |- *. assert (length (turn_log t s) - after = 0)%nat by lia.
    by rewrite drop_ge by lia.
  - rewrite (last_sequence t s limit after page Hs eq_refl Hne).
    assert (length page <> 0%nat) by by intros ?%length_zero_iff_nil.
    rewrite IH by lia. cbn. f_equal. unfold page at 1. rewrite <- map_app. f_equal.
    rewrite <- drop_drop, Hlen. rewrite <- (take_drop limit (drop after (turn_log t s))) at 3.
    f_equal. destruct (decide (limit <= length (turn_log t s) - after)%nat).
    + by rewrite Nat.min_l by lia.
    + rewrite Nat.min_r by lia. rewrite !drop_ge; [done|rewrite length_drop; lia..].
Qed.

Lemma append_one e s : parse_event e = Ok e -> append e s = appendOne e s.
Proof.
  intros Hp. unfold append, appendBatch, mbind, ST_bind. cbn [res_map]. rewrite Hp.
  unfold mbind, res_bind. cbn [mret res_ret]. rewrite map_of_cons. unfold appendOne.
  destruct (eventsByIdempotencyKey s !! idempotency_key e); [by case_decide|].
  by destruct (assertAppendable e s).
Qed.

Lemma read_pages_start t s limit fuel :
  read_pages (S fuel) t limit None s = read_pages (S fuel) t limit (Some 0) s.
Proof. done. Qed.
End Facts.

(** * Concrete events *)

Definition demo_event (n : Z) (ty : string) : LifecycleEvent :=
  mkEvent ("evt_demo01_" +:+ Number_toString n) "thr_demo01" "trn_demo01" "attempt_demo01" n
    ("trn_demo01:" +:+ Number_toString n) "kernel" 1 "2025-01-01T00:00:00.000Z"
    ty None None None None [].

Definition demo_batch : list LifecycleEvent :=
  [demo_event 1 "turn.queued"; demo_event 2 "turn.started"; demo_event 3 "run_attempt.started"].

Definition demo_store : MemoryLifecycleEventStore :=
  let _ := iso_runtime in run_batches [demo_batch] empty_store.

(** * Properties *)

(** C7. Whatever batches a store was given, and whichever of them it refused, it is
    sound: the log of every turn is numbered from 1 without gaps, holds only
    valid events of that turn, and ends with its terminal event when it has one;
    and two logged events never share an event id or an idempotency key. *)
Theorem store_invariant `{JsRuntime} batches :
  let s := run_batches batches empty_store in
  store_ok s /\
  forall t t' x y, x ∈ turn_log t s -> y ∈ turn_log t' s ->
    eventId (event x) = eventId (event y) \/
    idempotency_key (event x) = idempotency_key (event y) -> x = y.
Proof.
  intros s. assert (Hs : store_ok s) by apply run_batches_ok, empty_store_ok.
  split; [done|]. intros t t' x y Hx Hy Heq. by eapply logged_unique.
Qed.

(** C8. A batch is all or nothing, and can be retried: a refused batch leaves the
    store as it was; an accepted one only adds to the logs, and sending it again
    at any later time returns the same events and changes nothing. *)
Theorem appendBatch_atomic `{JsRuntime} events s :
  match appendBatch events s with
  | (Err _, s') => s' = s
  | (Ok appended, s') => extends s s' /\
      forall s'', extends s' s'' -> appendBatch events s'' = (Ok appended, s'')
  end.
Proof.
  unfold appendBatch. destruct (res_map parse_event events) as [parsed|]; [|done].
  destruct (map_of parsed appendOne s) as [[rs|] s'] eqn:Hm; [|done].
  apply appendAll_stored in Hm as [Hext Hall]. split; [done|]. intros s'' Hext'.
  rewrite (appendAll_retry parsed s'' rs); [done|].
  eapply Forall2_impl; [exact Hall|]. intros e r. by apply stored_as_mono.
Qed.

(** What the store accepts: an event with a new idempotency key goes in exactly
    when it is valid, its id is unused, its turn has not ended and its sequence is
    the next one; an event whose key is taken is either the stored one again or an
    idempotency conflict. *)
Theorem append_accepts `{JsRuntime} e s :
  store_ok s -> parse_event e = Ok e ->
  match eventsByIdempotencyKey s !! idempotency_key e with
  | Some x => append e s =
      (if decide (fingerprint x = createStableEventFingerprint e) then Ok (event x)
       else Err (EventStoreError "idempotency_conflict"), s)
  | None =>
      (fst (append e s) = Ok e <->
       eventsById s !! eventId e = None /\ terminated (turn_log (turnId e) s) = false /\
       sequence e = Z.of_nat (length (turn_log (turnId e) s)) + 1) /\
      (forall s', append e s = (Ok e, s') ->
       map event (turn_log (turnId e) s') = map event (turn_log (turnId e) s) ++ [e])
  end.
Proof.
  intros Hs Hp. pose proof (assertAppendable_ok e s Hs) as Hiff.
  rewrite !(append_one e s Hp). unfold appendOne.
  destruct (eventsByIdempotencyKey s !! idempotency_key e) as [x|] eqn:Hk; [by case_decide|].
  rewrite <- Hiff. destruct (assertAppendable e s) as [[]|] eqn:Ha; cbn [fst]; [|by split].
  split; [done|]. intros s' [= <-]. rewrite turn_log_store_event, decide_True by done.
  by rewrite map_app.
Qed.

Lemma append_accepts_witness :
  let _ := iso_runtime in
  let e := demo_event 4 "workspace.state_changed" in
  (fst (append e demo_store) = Ok e <->
   eventsById demo_store !! eventId e = None /\
   terminated (turn_log (turnId e) demo_store) = false /\
   sequence e = Z.of_nat (length (turn_log (turnId e) demo_store)) + 1) /\
  (forall s', append e demo_store = (Ok e, s') ->
   map event (turn_log (turnId e) s') = map event (turn_log (turnId e) demo_store) ++ [e]).
Proof.
  intros R e. assert (Hk : eventsByIdempotencyKey demo_store !! idempotency_key e = None) by by vm_compute.
  pose proof (append_accepts (H := R) e demo_store) as Ha. rewrite Hk in Ha.
  assert (Hs : store_ok (H := R) demo_store) by apply run_batches_ok, empty_store_ok.
  assert (Hp : parse_event e = Ok e) by by vm_compute. exact (Ha Hs Hp).
Defined.

(** C18. A reader that pages through a turn, starting anywhere or at the beginning
    and following the cursors, gets the rest of the log, complete and in order,
    for every legal page size. *)
Theorem replay_reads_log `{JsRuntime} s t limit after :
  store_ok s -> valid_replay (length (turn_log t s)) limit -> (after <= length (turn_log t s))%nat ->
  let fuel := S (length (turn_log t s)) in
  read_pages fuel t limit (Some (Z.of_nat after)) s = Ok (map event (drop after (turn_log t s))) /\
  read_pages fuel t limit None s = Ok (map event (turn_log t s)).
Proof.
  intros Hs Hv Ha fuel. split; [by apply read_pages_from; [..|lia]|].
  unfold fuel. rewrite read_pages_start. apply (read_pages_from t s limit _ 0); [done..|lia|lia].
Qed.

Lemma replay_reads_log_witness :
  let _ := iso_runtime in
  length (turn_log "trn_demo01" demo_store) = 3%nat /\
  read_pages 4 "trn_demo01" 2 (Some 1) demo_store = Ok [demo_event 2 "turn.started"; demo_event 3 "run_attempt.started"] /\
  read_pages 4 "trn_demo01" 2 None demo_store = Ok demo_batch.
Proof.
  intros R. split; [by vm_compute|].
  apply (replay_reads_log (H := R) demo_store "trn_demo01" 2 1).
  - apply run_batches_ok, empty_store_ok.
  - vm_compute. split; [split; apply Nat.leb_le; reflexivity|done].
  - apply Nat.leb_le. by vm_compute.
Defined.
