(* ===== verification/Coordinator.v ===== *)
(** [RuntimeLifecycleCoordinator] of [packages/runtime-kernel/src]: the owner of
    the event sequence of one turn.  Its methods change the coordinator and a
    sink, and keep what they changed when they throw.  [enqueue] runs the
    operations one after another, a failed one does not stop the next
    ([run_operations]). *)
From S2P Require Import Prelude Js Zod Protocol LifecycleEvents.

(** The sink, [Pick<RuntimeLifecycleEventStore, "appendBatch">]. *)
Class LifecycleSink (K : Type) : Type :=
  sink_appendBatch : list LifecycleEvent -> ST K error (list LifecycleEvent).

(** * State *)

Record RuntimeLifecycleCoordinatorOptions : Type := mkOptions {
  o_threadId : string;
  o_workspaceId : string;
  o_turnId : string;
  o_runAttemptId : string;
  o_producerId : string;
  (** the successive answers of [clock.now()] *)
  o_clock : nat -> string;
  o_initialSequence : option Z;
  o_revisionOfTurnId : option string;
  o_continuationOfTurnId : option string;
  o_originalPromptId : option string;
  o_executionCapability : option string;
}.

Record RuntimeLifecycleCoordinator : Type := mkCoordinator {
  c_status : TurnStatus;
  c_blockingState : TurnBlockingState;
  c_runAttemptStatus : RunAttemptStatus;
  c_itemStatuses : dict ItemStatus;
  c_itemKinds : dict string;
  c_toolCallStatuses : dict ItemStatus;
  c_toolCallNames : dict string;
  c_toolCallBatches : dict string;
  c_toolCallItems : dict string;
  c_approvalStatuses : dict ApprovalStatus;
  c_approvalItems : dict string;
  c_approvalParents : dict string;
  c_accepted : bool;
  c_completionReserved : bool;
  c_acceptedInputSequences : dict Z;
  c_sequence : Z;
  (** how often the clock was asked *)
  c_ticks : nat;
}.

Definition new_coordinator (options : RuntimeLifecycleCoordinatorOptions)
    : RuntimeLifecycleCoordinator :=
  mkCoordinator queued b_none ra_queued [] [] [] [] [] [] [] [] [] false false []
    (default 0 (o_initialSequence options)) 0.

Definition set_status v c :=
  mkCoordinator v (c_blockingState c) (c_runAttemptStatus c) (c_itemStatuses c)
    (c_itemKinds c) (c_toolCallStatuses c) (c_toolCallNames c) (c_toolCallBatches c)
    (c_toolCallItems c) (c_approvalStatuses c) (c_approvalItems c) (c_approvalParents c)
    (c_accepted c) (c_completionReserved c) (c_acceptedInputSequences c) (c_sequence c)
    (c_ticks c).
Definition set_blockingState v c :=
  mkCoordinator (c_status c) v (c_runAttemptStatus c) (c_itemStatuses c)
    (c_itemKinds c) (c_toolCallStatuses c) (c_toolCallNames c) (c_toolCallBatches c)
    (c_toolCallItems c) (c_approvalStatuses c) (c_approvalItems c) (c_approvalParents c)
    (c_accepted c) (c_completionReserved c) (c_acceptedInputSequences c) (c_sequence c)
    (c_ticks c).
Definition set_runAttemptStatus v c :=
  mkCoordinator (c_status c) (c_blockingState c) v (c_itemStatuses c)
    (c_itemKinds c) (c_toolCallStatuses c) (c_toolCallNames c) (c_toolCallBatches c)
    (c_toolCallItems c) (c_approvalStatuses c) (c_approvalItems c) (c_approvalParents c)
    (c_accepted c) (c_completionReserved c) (c_acceptedInputSequences c) (c_sequence c)
    (c_ticks c).
Definition set_itemStatus i v c :=
  mkCoordinator (c_status c) (c_blockingState c) (c_runAttemptStatus c)
    (dset i v (c_itemStatuses c))
    (c_itemKinds c) (c_toolCallStatuses c) (c_toolCallNames c) (c_toolCallBatches c)
    (c_toolCallItems c) (c_approvalStatuses c) (c_approvalItems c) (c_approvalParents c)
    (c_accepted c) (c_completionReserved c) (c_acceptedInputSequences c) (c_sequence c)
    (c_ticks c).
Definition set_itemKind i v c :=
  mkCoordinator (c_status c) (c_blockingState c) (c_runAttemptStatus c) (c_itemStatuses c)
    (dset i v (c_itemKinds c)) (c_toolCallStatuses c) (c_toolCallNames c)
    (c_toolCallBatches c)
    (c_toolCallItems c) (c_approvalStatuses c) (c_approvalItems c) (c_approvalParents c)
    (c_accepted c) (c_completionReserved c) (c_acceptedInputSequences c) (c_sequence c)
    (c_ticks c).
Definition set_toolCallStatus t v c :=
  mkCoordinator (c_status c) (c_blockingState c) (c_runAttemptStatus c) (c_itemStatuses c)
    (c_itemKinds c) (dset t v (c_toolCallStatuses c)) (c_toolCallNames c)
    (c_toolCallBatches c)
    (c_toolCallItems c) (c_approvalStatuses c) (c_approvalItems c) (c_approvalParents c)
    (c_accepted c) (c_completionReserved c) (c_acceptedInputSequences c) (c_sequence c)
    (c_ticks c).
Definition set_toolCallName t v c :=
  mkCoordinator (c_status c) (c_blockingState c) (c_runAttemptStatus c) (c_itemStatuses c)
    (c_itemKinds c) (c_toolCallStatuses c) (dset t v (c_toolCallNames c))
    (c_toolCallBatches c)
    (c_toolCallItems c) (c_approvalStatuses c) (c_approvalItems c) (c_approvalParents c)
    (c_accepted c) (c_completionReserved c) (c_acceptedInputSequences c) (c_sequence c)
    (c_ticks c).
Definition set_toolCallBatch t v c :=
  mkCoordinator (c_status c) (c_blockingState c) (c_runAttemptStatus c) (c_itemStatuses c)
    (c_itemKinds c) (c_toolCallStatuses c) (c_toolCallNames c)
    (dset t v (c_toolCallBatches c))
    (c_toolCallItems c) (c_approvalStatuses c) (c_approvalItems c) (c_approvalParents c)
    (c_accepted c) (c_completionReserved c) (c_acceptedInputSequences c) (c_sequence c)
    (c_ticks c).
Definition set_toolCallItem t v c :=
  mkCoordinator (c_status c) (c_blockingState c) (c_runAttemptStatus c) (c_itemStatuses c)
    (c_itemKinds c) (c_toolCallStatuses c) (c_toolCallNames c) (c_toolCallBatches c)
    (dset t v (c_toolCallItems c)) (c_approvalStatuses c) (c_approvalItems c)
    (c_approvalParents c)
    (c_accepted c) (c_completionReserved c) (c_acceptedInputSequences c) (c_sequence c)
    (c_ticks c).
Definition set_approvalStatus a v c :=
  mkCoordinator (c_status c) (c_blockingState c) (c_runAttemptStatus c) (c_itemStatuses c)
    (c_itemKinds c) (c_toolCallStatuses c) (c_toolCallNames c) (c_toolCallBatches c)
    (c_toolCallItems c) (dset a v (c_approvalStatuses c)) (c_approvalItems c)
    (c_approvalParents c)
    (c_accepted c) (c_completionReserved c) (c_acceptedInputSequences c) (c_sequence c)
    (c_ticks c).
Definition set_approvalItem a v c :=
  mkCoordinator (c_status c) (c_blockingState c) (c_runAttemptStatus c) (c_itemStatuses c)
    (c_itemKinds c) (c_toolCallStatuses c) (c_toolCallNames c) (c_toolCallBatches c)
    (c_toolCallItems c) (c_approvalStatuses c) (dset a v (c_approvalItems c))
    (c_approvalParents c)
    (c_accepted c) (c_completionReserved c) (c_acceptedInputSequences c) (c_sequence c)
    (c_ticks c).
Definition set_approvalParent i v c :=
  mkCoordinator (c_status c) (c_blockingState c) (c_runAttemptStatus c) (c_itemStatuses c)
    (c_itemKinds c) (c_toolCallStatuses c) (c_toolCallNames c) (c_toolCallBatches c)
    (c_toolCallItems c) (c_approvalStatuses c) (c_approvalItems c)
    (dset i v (c_approvalParents c))
    (c_accepted c) (c_completionReserved c) (c_acceptedInputSequences c) (c_sequence c)
    (c_ticks c).
Definition set_accepted v c :=
  mkCoordinator (c_status c) (c_blockingState c) (c_runAttemptStatus c) (c_itemStatuses c)
    (c_itemKinds c) (c_toolCallStatuses c) (c_toolCallNames c) (c_toolCallBatches c)
    (c_toolCallItems c) (c_approvalStatuses c) (c_approvalItems c) (c_approvalParents c)
    v (c_completionReserved c) (c_acceptedInputSequences c) (c_sequence c) (c_ticks c).
Definition set_completionReserved v c :=
  mkCoordinator (c_status c) (c_blockingState c) (c_runAttemptStatus c) (c_itemStatuses c)
    (c_itemKinds c) (c_toolCallStatuses c) (c_toolCallNames c) (c_toolCallBatches c)
    (c_toolCallItems c) (c_approvalStatuses c) (c_approvalItems c) (c_approvalParents c)
    (c_accepted c) v (c_acceptedInputSequences c) (c_sequence c) (c_ticks c).
Definition set_acceptedInput i v c :=
  mkCoordinator (c_status c) (c_blockingState c) (c_runAttemptStatus c) (c_itemStatuses c)
    (c_itemKinds c) (c_toolCallStatuses c) (c_toolCallNames c) (c_toolCallBatches c)
    (c_toolCallItems c) (c_approvalStatuses c) (c_approvalItems c) (c_approvalParents c)
    (c_accepted c) (c_completionReserved c) (dset i v (c_acceptedInputSequences c))
    (c_sequence c) (c_ticks c).
Definition set_sequence v c :=
  mkCoordinator (c_status c) (c_blockingState c) (c_runAttemptStatus c) (c_itemStatuses c)
    (c_itemKinds c) (c_toolCallStatuses c) (c_toolCallNames c) (c_toolCallBatches c)
    (c_toolCallItems c) (c_approvalStatuses c) (c_approvalItems c) (c_approvalParents c)
    (c_accepted c) (c_completionReserved c) (c_acceptedInputSequences c) v (c_ticks c).
Definition tick c :=
  mkCoordinator (c_status c) (c_blockingState c) (c_runAttemptStatus c) (c_itemStatuses c)
    (c_itemKinds c) (c_toolCallStatuses c) (c_toolCallNames c) (c_toolCallBatches c)
    (c_toolCallItems c) (c_approvalStatuses c) (c_approvalItems c) (c_approvalParents c)
    (c_accepted c) (c_completionReserved c) (c_acceptedInputSequences c) (c_sequence c)
    (S (c_ticks c)).

Definition isTerminal (c : RuntimeLifecycleCoordinator) : bool :=
  isTerminalTurnStatus (c_status c).

(** * Arguments *)

Record EventFields : Type := mkFields {
  ef_type : string;
  ef_itemId : option string;
  ef_toolCallId : option string;
  ef_approvalId : option string;
  ef_payload : JsonRecord;
}.

Definition opt_field (k : string) (o : option string) : JsonRecord :=
  match truthy o with Some s => [(k, JStr s)] | None => [] end.
Definition opt_record (k : string) (o : option JsonRecord) : JsonRecord :=
  match o with Some r => [(k, JObj r)] | None => [] end.

Record ContextCompactionPayload : Type := mkCompaction {
  cc_compactionId : string;
  cc_itemId : string;
  cc_mode : string;
  cc_phase : string;
  cc_preservedContextReference : option string;
  cc_summary : option string;
  cc_error : option string;
}.

Definition compaction_record (phase : string) (p : ContextCompactionPayload) : JsonRecord :=
  [("compactionId", JStr (cc_compactionId p)); ("itemId", JStr (cc_itemId p));
   ("mode", JStr (cc_mode p)); ("phase", JStr phase);
   ("preservedContextReference", nullable_str (cc_preservedContextReference p));
   ("summary", nullable_str (cc_summary p)); ("error", nullable_str (cc_error p))].

Definition MAX_LIFECYCLE_OUTPUT_LENGTH : nat := 4000.

Definition RUNTIME_HOOK_AUDIT_EVENT_TYPES : list string :=
  ["hook.invocation.started"; "hook.invocation.completed"; "hook.invocation.failed";
   "hook.invocation.timed_out"; "hook.invocation.cancelled"].

(** The loop of [splitLifecycleOutput], by chunks left to cut. *)
Fixpoint split_chunks (fuel offset : nat) (output : string) : list string :=
  match fuel with
  | O => []
  | S fuel' =>
      if (offset <? String.length output)%nat then
        slice offset (offset + MAX_LIFECYCLE_OUTPUT_LENGTH) output ::
        split_chunks fuel' (offset + MAX_LIFECYCLE_OUTPUT_LENGTH) output
      else []
  end.

Definition splitLifecycleOutput (output : string) : list string :=
  if decide (output = "") then [""] else split_chunks (String.length output) 0 output.

(** [JsonRecordSchema.parse(value)] *)
Definition parse_record (value : json) : res error JsonRecord :=
  match value with JObj o => Ok o | _ => Err ZodError end.

(** * Operations *)

Section Operations.
Context `{!JsRuntime} {K : Type} `{!LifecycleSink K}.
Variable options : RuntimeLifecycleCoordinatorOptions.

Definition World : Type := RuntimeLifecycleCoordinator * K.
Definition M (A : Type) : Type := ST World error A.

Definition get {A} (f : RuntimeLifecycleCoordinator -> A) : M A := gets (fun w => f (fst w)).
Definition upd (f : RuntimeLifecycleCoordinator -> RuntimeLifecycleCoordinator) : M unit :=
  modify (fun w => (f (fst w), snd w)).
Definition appendBatch (events : list LifecycleEvent) : M (list LifecycleEvent) :=
  fun w => let '(r, k) := sink_appendBatch events (snd w) in (r, (fst w, k)).

(** The object passed to [LifecycleEventSchema.parse] by [createEvent]. *)
Definition draft_event (c : RuntimeLifecycleCoordinator) (fields : EventFields)
    (offset : Z) : LifecycleEvent :=
  let seq := c_sequence c + offset in
  mkEvent ("evt_" +:+ slice_from 4 (o_turnId options) +:+ "_" +:+ Number_toString seq)
    (o_threadId options) (o_turnId options) (o_runAttemptId options) seq
    (o_turnId options +:+ ":" +:+ Number_toString seq +:+ ":" +:+ ef_type fields)
    (o_producerId options) LIFECYCLE_SCHEMA_VERSION (o_clock options (c_ticks c))
    (ef_type fields) (ef_itemId fields) (ef_toolCallId fields) (ef_approvalId fields)
    None (ef_payload fields).

Definition createEvent (fields : EventFields) (offset : Z) : M LifecycleEvent :=
  e ← get (fun c => draft_event c fields offset);
  _ ← upd tick;
  lift (parse_event e).

Definition emit (fields : EventFields) : M unit :=
  status ← get c_status;
  _ ← lift (assertTurnAcceptsLifecycleEvent status (ef_type fields));
  event ← createEvent fields 1;
  _ ← appendBatch [event];
  upd (set_sequence (sequence event)).

Definition requireToolCallItem (toolCallId : string) : M string :=
  item ← get (fun c => truthy (dget toolCallId (c_toolCallItems c)));
  match item with
  | Some itemId => mret itemId
  | None => throw (LifecycleTransitionError s_tool_call "missing" "active"
              ("tool call " +:+ toolCallId +:+ " has no owning item"))
  end.

Definition requireApprovalItem (approvalId : string) : M string :=
  item ← get (fun c => truthy (dget approvalId (c_approvalItems c)));
  match item with
  | Some itemId => mret itemId
  | None => throw (LifecycleTransitionError s_approval "missing" "decided"
              ("approval " +:+ approvalId +:+ " has no owning item"))
  end.

Definition requireActiveToolCall (toolCallId : string) : M ItemStatus :=
  status ← get (fun c => default it_not_started (dget toolCallId (c_toolCallStatuses c)));
  _ ← (if decide (status = it_active) then mret it_active
       else lift (transitionToolCallStatus status it_completed));
  mret it_active.

Definition changeBlocking (blockingState : TurnBlockingState) : M unit :=
  _ ← emit (mkFields "turn.blocking_changed" None None None
              [("blockingState", json_of_blocking blockingState)]);
  status ← get c_status;
  _ ← (match blockingState with
       | b_waiting_for_approval _ _ =>
           next ← lift (transitionTurnStatus status awaiting_approval);
           upd (set_status next)
       | _ =>
           if decide (status = awaiting_approval) then
             next ← lift (transitionTurnStatus status in_progress);
             upd (set_status next)
           else mret tt
       end);
  upd (set_blockingState blockingState).

(** The two attempts of [appendTerminalBatch]. *)
Definition appendTerminalBatch (events : list LifecycleEvent) (intendedStatus : string)
    : M unit :=
  try_catch (_ ← appendBatch events; mret tt) (fun _ =>
  try_catch (_ ← appendBatch events; mret tt) (fun failure =>
  throw (RuntimeLifecycleSettlementError intendedStatus failure))).

Definition attempt_of_outcome (o : TurnTerminalOutcome) : RunAttemptStatus :=
  match o with
  | to_completed => ra_succeeded
  | to_interrupted _ => ra_interrupted
  | to_failed _ => ra_failed
  end.

Definition settleTurn (outcome : TurnTerminalOutcome) : M unit :=
  c ← get id;
  if isTerminal c then mret tt else
  nextTurn ← lift (transitionTurnStatus (c_status c) (outcome_status outcome));
  let attemptStatus := attempt_of_outcome outcome in
  nextAttempt ← lift (transitionRunAttemptStatus (c_runAttemptStatus c) attemptStatus);
  _ ← lift (validateTerminalSettlement
        (mkTerminalSettlementInput nextTurn (Some outcome) (c_blockingState c)
           (c_itemStatuses c) (c_approvalStatuses c)));
  let attemptPayload : JsonRecord :=
    match outcome with
    | to_failed failure => [("failure", json_of_failure failure)]
    | _ => []
    end in
  e1 ← createEvent (mkFields ("run_attempt." +:+ RunAttemptStatus_str attemptStatus)
          None None None attemptPayload) 1;
  e2 ← createEvent (mkFields ("turn." +:+ TurnStatus_str (outcome_status outcome))
          None None None [("outcome", json_of_outcome outcome)]) 2;
  _ ← appendTerminalBatch [e1; e2] (TurnStatus_str (outcome_status outcome));
  _ ← upd (fun c => set_sequence (c_sequence c + 2) c);
  _ ← upd (set_runAttemptStatus nextAttempt);
  upd (set_status nextTurn).

Definition startItem (itemId kind : string) (payload : JsonRecord) : M unit :=
  next ← lift (transitionItemStatus it_not_started it_active);
  _ ← emit (mkFields "item.started" (Some itemId) None None (dset "kind" (JStr kind) payload));
  upd (set_itemStatus itemId next).

Definition settleItem (itemId : string) (status : ItemStatus) (payload : JsonRecord)
    : M unit :=
  current ← get (fun c => default it_not_started (dget itemId (c_itemStatuses c)));
  next ← lift (transitionItemStatus current status);
  _ ← emit (mkFields ("item." +:+ ItemStatus_str status) (Some itemId) None None payload);
  upd (set_itemStatus itemId next).

Definition settleToolCall (toolCallId : string) (status : ItemStatus)
    (payload : JsonRecord) : M unit :=
  current ← requireActiveToolCall toolCallId;
  next ← lift (transitionToolCallStatus current status);
  itemId ← requireToolCallItem toolCallId;
  metadata ← get (fun c =>
    opt_field "toolName" (dget toolCallId (c_toolCallNames c)) ++
    opt_field "callBatchId" (dget toolCallId (c_toolCallBatches c)));
  _ ← emit (mkFields ("tool_call." +:+ ItemStatus_str status) (Some itemId)
        (Some toolCallId) None (dmerge payload metadata));
  _ ← upd (set_toolCallStatus toolCallId next);
  settleItem itemId status payload.

Definition settleOpenWork (status : ItemStatus) (payload : JsonRecord) : M unit :=
  toolCalls ← get c_toolCallStatuses;
  _ ← for_of toolCalls (fun '(toolCallId, current) =>
        if decide (current = it_active) then settleToolCall toolCallId status payload
        else mret tt);
  items ← get c_itemStatuses;
  for_of items (fun '(itemId, current) =>
    if decide (current = it_active) then settleItem itemId status payload
    else mret tt).

Definition decideApprovalNow (approvalId : string) (status : ApprovalStatus)
    (payload : JsonRecord) : M unit :=
  current ← get (fun c => default ap_pending (dget approvalId (c_approvalStatuses c)));
  next ← lift (transitionApprovalStatus current status);
  itemId ← requireApprovalItem approvalId;
  _ ← emit (mkFields "approval.decided" (Some itemId) None (Some approvalId)
        (dset "status" (JStr (ApprovalStatus_str status)) payload));
  _ ← upd (set_approvalStatus approvalId next);
  _ ← changeBlocking b_none;
  itemId ← requireApprovalItem approvalId;
  if decide (status = ap_approved) then settleItem itemId it_completed [("result", JObj [])]
  else settleItem itemId it_declined
         [("reason", JStr ("Approval " +:+ ApprovalStatus_str status))].

Definition cancelPendingApprovals (reason : string) : M unit :=
  approvals ← get c_approvalStatuses;
  for_of approvals (fun '(approvalId, status) =>
    if decide (status = ap_pending) then
      decideApprovalNow approvalId ap_cancelled [("reason", JStr reason)]
    else mret tt).

Definition startNow : M (LifecycleEvent * LifecycleEvent) :=
  c ← get id;
  if c_accepted c then
    throw (LifecycleTransitionError s_turn (TurnStatus_str (c_status c)) "turn.started"
             "runtime lifecycle already started")
  else
  nextTurn ← lift (transitionTurnStatus (c_status c) in_progress);
  nextAttempt ← lift (transitionRunAttemptStatus (c_runAttemptStatus c) ra_running);
  e1 ← createEvent (mkFields "turn.queued" None None None []) 1;
  e2 ← createEvent (mkFields "turn.started" None None None
          (opt_field "revisionOfTurnId" (o_revisionOfTurnId options) ++
           opt_field "continuationOfTurnId" (o_continuationOfTurnId options) ++
           opt_field "originalPromptId" (o_originalPromptId options))) 2;
  e3 ← createEvent (mkFields "run_attempt.started" None None None
          (opt_field "executionCapability" (o_executionCapability options))) 3;
  _ ← appendBatch [e1; e2; e3];
  _ ← upd (fun c => set_sequence (c_sequence c + 3) c);
  _ ← upd (set_accepted true);
  _ ← upd (set_status nextTurn);
  _ ← upd (set_runAttemptStatus nextAttempt);
  mret (e2, e3).

Definition startToolCallNow (itemId toolCallId toolName : string) (input : JsonRecord)
    (callBatchId : option string) (display : option JsonRecord) : M unit :=
  _ ← startItem itemId "tool_call" (opt_record "display" display);
  next ← lift (transitionToolCallStatus it_not_started it_active);
  _ ← emit (mkFields "tool_call.started" (Some itemId) (Some toolCallId) None
        ([("toolName", JStr toolName)] ++ opt_field "callBatchId" callBatchId ++
         opt_record "display" display));
  _ ← upd (set_toolCallStatus toolCallId next);
  _ ← upd (set_toolCallName toolCallId toolName);
  _ ← (match truthy callBatchId with
       | Some b => upd (set_toolCallBatch toolCallId b)
       | None => mret tt
       end);
  _ ← upd (set_toolCallItem toolCallId itemId);
  emit (mkFields "tool_call.input_delta" (Some itemId) (Some toolCallId) None
          [("input", JObj input)]).

Definition appendAssistantCommentary (itemId text : string) : M unit :=
  if decide (trim text = "") then mret tt else
  _ ← startItem itemId "commentary" [];
  _ ← for_of (splitLifecycleOutput text) (fun delta =>
        emit (mkFields "assistant_message.delta" (Some itemId) None None
                [("phase", JStr "commentary"); ("delta", JStr delta)]));
  settleItem itemId it_completed [("result", JObj [])].

Definition appendAssistantReasoning (itemId text : string) (displaySafe : bool) : M unit :=
  if negb displaySafe || bool_decide (trim text = "") then mret tt else
  _ ← startItem itemId "reasoning" [];
  _ ← for_of (splitLifecycleOutput text) (fun delta =>
        emit (mkFields "reasoning.summary_delta" (Some itemId) None None
                [("delta", JStr delta); ("displaySafe", JBool true)]));
  settleItem itemId it_completed [("result", JObj [])].

Definition appendToolOutputNow (toolCallId output : string) : M unit :=
  _ ← requireActiveToolCall toolCallId;
  itemId ← requireToolCallItem toolCallId;
  emit (mkFields "tool_call.output_delta" (Some itemId) (Some toolCallId) None
          [("output", JStr (slice 0 MAX_LIFECYCLE_OUTPUT_LENGTH output))]).

(** The methods that emit one event of the turn. *)
Definition emit_record (type key : string) (itemId : option string) (value : json) : M unit :=
  r ← lift (parse_record value);
  emit (mkFields type itemId None None [(key, JObj r)]).

Definition captureWorkspaceSnapshot := emit_record "workspace.snapshot_captured" "snapshot" None.
Definition createTurnArtifact := emit_record "artifact.created" "artifact" None.
Definition createArtifactNow (itemId : string) :=
  emit_record "artifact.created" "artifact" (Some itemId).
Definition updateTurnDiff := emit_record "turn.diff_updated" "diff" None.

Definition markWorkspaceSnapshotUnavailable (reason : string) : M unit :=
  emit (mkFields "workspace.snapshot_unavailable" None None None [("reason", JStr reason)]).

Definition appendHookAudit (eventType : string) (payload : json) : M unit :=
  _ ← throw_if (negb (bool_decide (eventType ∈ RUNTIME_HOOK_AUDIT_EVENT_TYPES)))
        (JsError "Unsupported runtime hook audit event type.");
  r ← lift (parse_record payload);
  emit (mkFields eventType None None None r).

Definition updateContextBudget (snapshot : JsonRecord) : M unit :=
  emit (mkFields "context_budget.updated" None None None [("snapshot", JObj snapshot)]).
Definition updateUsage (usage : JsonRecord) : M unit :=
  emit (mkFields "usage.updated" None None None [("usage", JObj usage)]).

Definition requestContextCompaction (payload : ContextCompactionPayload) : M unit :=
  let itemId := cc_itemId payload in
  _ ← startItem itemId "context_compaction"
        [("kind", JStr "context_compaction"); ("mode", JStr (cc_mode payload))];
  _ ← emit (mkFields "context_compaction.requested" (Some itemId) None None
        (compaction_record "requested" payload));
  emit (mkFields "context_compaction.started" (Some itemId) None None
          (compaction_record "compacting" payload)).

Definition settleContextCompaction (payload : ContextCompactionPayload) : M unit :=
  let itemId := cc_itemId payload in
  let terminal := if decide (cc_phase payload = "failed") then it_failed else it_completed in
  _ ← emit (mkFields ("context_compaction." +:+ ItemStatus_str terminal) (Some itemId) None None
        (compaction_record (cc_phase payload) payload));
  settleItem itemId terminal
    (if decide (cc_phase payload = "failed")
     then [("reason", JStr (default "Context compaction failed" (cc_error payload)))]
     else [("result", JObj [("preservedContextReference",
                             nullable_str (cc_preservedContextReference payload))])]).

Definition requestApprovalNow (parentItemId approvalId approvalItemId : string)
    (payload : JsonRecord) : M unit :=
  _ ← startItem approvalItemId "approval_request" [("parentItemId", JStr parentItemId)];
  _ ← emit (mkFields "approval.requested" (Some approvalItemId) None (Some approvalId) payload);
  _ ← upd (set_approvalStatus approvalId ap_pending);
  _ ← upd (set_approvalItem approvalId approvalItemId);
  changeBlocking (b_waiting_for_approval approvalItemId approvalId).

Definition acceptThreadInput (inputId clientInputId transcriptMessageId : string)
    (afterAppend : Z -> res error unit) : M Z :=
  existing ← get (fun c => dget inputId (c_acceptedInputSequences c));
  match existing with
  | Some existingSequence => mret existingSequence
  | None =>
      c ← get id;
      _ ← throw_if (c_completionReserved c || isTerminal c)
            (LifecycleTransitionError s_turn (TurnStatus_str (c_status c))
               "turn.input.accepted" "the turn is already settling");
      _ ← emit (mkFields "turn.input.accepted" None None None
            [("inputId", JStr inputId); ("clientInputId", JStr clientInputId);
             ("transcriptMessageId", JStr transcriptMessageId)]);
      acceptedSequence ← get c_sequence;
      _ ← upd (set_acceptedInput inputId acceptedSequence);
      _ ← lift (afterAppend acceptedSequence);
      mret acceptedSequence
  end.

Definition reserveCompletion (hasPendingInputs : bool) : M bool :=
  c ← get id;
  if isTerminal c || c_completionReserved c || hasPendingInputs then mret false
  else _ ← upd (set_completionReserved true); mret true.

Definition applyThreadInput (inputId : string) (acceptedSequence modelStep
    contextRevision : Z) : M Z :=
  _ ← emit (mkFields "turn.input.applied" None None None
        [("inputId", JStr inputId); ("acceptedSequence", JNum (NInt acceptedSequence));
         ("modelStep", JNum (NInt modelStep));
         ("contextRevision", JNum (NInt contextRevision))]);
  get c_sequence.

Definition completeNow (output itemId : string) : M unit :=
  _ ← startItem itemId "assistant_message" [];
  _ ← for_of (splitLifecycleOutput output) (fun delta =>
        emit (mkFields "assistant_message.delta" (Some itemId) None None
                [("phase", JStr "final_answer"); ("delta", JStr delta)]));
  _ ← settleItem itemId it_completed [("result", JObj [("output", JStr output)])];
  settleTurn to_completed.

Definition failNow (failure : ProtocolError) : M unit :=
  _ ← cancelPendingApprovals "Turn failed before approval resolution";
  _ ← settleOpenWork it_failed [("failure", json_of_failure failure)];
  settleTurn (to_failed failure).

Definition interruptNow (reason : string) : M unit :=
  _ ← cancelPendingApprovals reason;
  _ ← settleOpenWork it_interrupted [("reason", JStr reason)];
  settleTurn (to_interrupted reason).

(** The public operations. *)
Inductive operation : Type :=
| OpStart
| OpStartToolCall (itemId toolCallId toolName : string) (input : JsonRecord)
    (callBatchId : option string) (display : option JsonRecord)
| OpCommentary (itemId text : string)
| OpReasoning (itemId text : string) (displaySafe : bool)
| OpToolOutput (toolCallId output : string)
| OpCreateArtifact (itemId : string) (artifact : json)
| OpSnapshot (snapshot : json)
| OpSnapshotUnavailable (reason : string)
| OpHookAudit (eventType : string) (payload : json)
| OpTurnArtifact (artifact : json)
| OpTurnDiff (diff : json)
| OpContextBudget (snapshot : JsonRecord)
| OpUsage (usage : JsonRecord)
| OpRequestCompaction (payload : ContextCompactionPayload)
| OpSettleCompaction (payload : ContextCompactionPayload)
| OpCompleteTool (toolCallId : string) (result : JsonRecord)
| OpFailTool (toolCallId : string) (failure : ProtocolError)
| OpDeclineTool (toolCallId reason : string)
| OpRequestApproval (parentItemId approvalId approvalItemId : string) (payload : JsonRecord)
| OpDecideApproval (approvalId : string) (status : ApprovalStatus) (payload : JsonRecord)
| OpComplete (output itemId : string)
| OpAcceptInput (inputId clientInputId transcriptMessageId : string)
| OpApplyInput (inputId : string) (acceptedSequence modelStep contextRevision : Z)
| OpReserve (hasPendingInputs : bool)
| OpFail (failure : ProtocolError)
| OpInterrupt (reason : string).

Definition run_op (op : operation) : M unit :=
  match op with
  | OpStart => _ ← startNow; mret tt
  | OpStartToolCall i t n input b d => startToolCallNow i t n input b d
  | OpCommentary i text => appendAssistantCommentary i text
  | OpReasoning i text safe => appendAssistantReasoning i text safe
  | OpToolOutput t output => appendToolOutputNow t output
  | OpCreateArtifact i a => createArtifactNow i a
  | OpSnapshot s => captureWorkspaceSnapshot s
  | OpSnapshotUnavailable r => markWorkspaceSnapshotUnavailable r
  | OpHookAudit ty p => appendHookAudit ty p
  | OpTurnArtifact a => createTurnArtifact a
  | OpTurnDiff d => updateTurnDiff d
  | OpContextBudget s => updateContextBudget s
  | OpUsage u => updateUsage u
  | OpRequestCompaction p => requestContextCompaction p
  | OpSettleCompaction p => settleContextCompaction p
  | OpCompleteTool t r => settleToolCall t it_completed [("result", JObj r)]
  | OpFailTool t f => settleToolCall t it_failed [("failure", json_of_failure f)]
  | OpDeclineTool t r => settleToolCall t it_declined [("reason", JStr r)]
  | OpRequestApproval p a i payload => requestApprovalNow p a i payload
  | OpDecideApproval a s p => decideApprovalNow a s p
  | OpComplete o i => completeNow o i
  | OpAcceptInput i ci m => _ ← acceptThreadInput i ci m (fun _ => Ok tt); mret tt
  | OpApplyInput i a m r => _ ← applyThreadInput i a m r; mret tt
  | OpReserve p => _ ← reserveCompletion p; mret tt
  | OpFail f => failNow f
  | OpInterrupt r => interruptNow r
  end.

(** [enqueue]: the queue goes on after a failed operation. *)
Definition run_operations (ops : list operation) (w : World) : World :=
  foldl (fun w op => snd (run_op op w)) w ops.
End Operations.
