(* ===== verification/Projector.v ===== *)
(** The lifecycle projection of
    [packages/persistence/src/lifecycle-projections/LifecycleProjector.ts]: a
    fold of the events of a turn into its observable state.  The fold mutates
    its state in place, so a rejected event may leave part of its effect. *)
From S2P Require Import Prelude Js Zod Protocol LifecycleEvents.

Record LifecycleItemProjection : Type := mkItem {
  ip_itemId : string;
  ip_kind : string;
  ip_status : ItemStatus;
  ip_text : string;
  ip_lastSequence : Z;
}.

Record LifecycleToolCallProjection : Type := mkTool {
  tp_toolCallId : string;
  tp_itemId : string;
  tp_status : ItemStatus;
  tp_outputText : string;
  tp_lastSequence : Z;
}.

Record LifecycleApprovalProjection : Type := mkApproval {
  ap_approvalId : string;
  ap_itemId : string;
  ap_status : ApprovalStatus;
  ap_lastSequence : Z;
}.

Inductive RequestStatus : Type := rq_pending | rq_resolved.
#[export] Instance RequestStatus_eq_dec : EqDecision RequestStatus.
Proof. solve_decision. Defined.

Record LifecycleRequestProjection : Type := mkRequest {
  rp_requestId : string;
  rp_itemId : string;
  rp_status : RequestStatus;
  rp_lastSequence : Z;
}.

Record MutableProjection : Type := mkProjection {
  p_turnId : string;
  p_revisionOfTurnId : option string;
  p_status : TurnStatus;
  p_blockingState : TurnBlockingState;
  p_terminalOutcome : option TurnTerminalOutcome;
  p_items : dict LifecycleItemProjection;
  p_toolCalls : dict LifecycleToolCallProjection;
  p_approvals : dict LifecycleApprovalProjection;
  p_requests : dict LifecycleRequestProjection;
  p_lastSequence : Z;
}.

Definition createState (turnId : string) : MutableProjection :=
  mkProjection turnId None queued b_none None [] [] [] [] 0.

Definition p_set_status v p := mkProjection (p_turnId p) (p_revisionOfTurnId p) v
  (p_blockingState p) (p_terminalOutcome p) (p_items p) (p_toolCalls p) (p_approvals p)
  (p_requests p) (p_lastSequence p).
Definition p_set_revision v p := mkProjection (p_turnId p) v (p_status p)
  (p_blockingState p) (p_terminalOutcome p) (p_items p) (p_toolCalls p) (p_approvals p)
  (p_requests p) (p_lastSequence p).
Definition p_set_blocking v p := mkProjection (p_turnId p) (p_revisionOfTurnId p) (p_status p)
  v (p_terminalOutcome p) (p_items p) (p_toolCalls p) (p_approvals p)
  (p_requests p) (p_lastSequence p).
Definition p_set_outcome v p := mkProjection (p_turnId p) (p_revisionOfTurnId p) (p_status p)
  (p_blockingState p) v (p_items p) (p_toolCalls p) (p_approvals p)
  (p_requests p) (p_lastSequence p).
Definition p_set_item i v p := mkProjection (p_turnId p) (p_revisionOfTurnId p) (p_status p)
  (p_blockingState p) (p_terminalOutcome p) (dset i v (p_items p)) (p_toolCalls p)
  (p_approvals p) (p_requests p) (p_lastSequence p).
Definition p_set_tool t v p := mkProjection (p_turnId p) (p_revisionOfTurnId p) (p_status p)
  (p_blockingState p) (p_terminalOutcome p) (p_items p) (dset t v (p_toolCalls p))
  (p_approvals p) (p_requests p) (p_lastSequence p).
Definition p_set_approval a v p := mkProjection (p_turnId p) (p_revisionOfTurnId p) (p_status p)
  (p_blockingState p) (p_terminalOutcome p) (p_items p) (p_toolCalls p)
  (dset a v (p_approvals p)) (p_requests p) (p_lastSequence p).
Definition p_set_request r v p := mkProjection (p_turnId p) (p_revisionOfTurnId p) (p_status p)
  (p_blockingState p) (p_terminalOutcome p) (p_items p) (p_toolCalls p)
  (p_approvals p) (dset r v (p_requests p)) (p_lastSequence p).
Definition p_set_lastSequence v p := mkProjection (p_turnId p) (p_revisionOfTurnId p)
  (p_status p) (p_blockingState p) (p_terminalOutcome p) (p_items p) (p_toolCalls p)
  (p_approvals p) (p_requests p) v.

Definition PM (A : Type) : Type := ST MutableProjection error A.

Definition readString (value : option json) : string :=
  match value with Some (JStr s) => s | _ => "" end.

Definition terminal_item_status (s : string) : option ItemStatus :=
  if decide (s = "completed") then Some it_completed
  else if decide (s = "failed") then Some it_failed
  else if decide (s = "declined") then Some it_declined
  else if decide (s = "interrupted") then Some it_interrupted
  else None.

Definition itemTerminalStatus (type : string) : option ItemStatus :=
  strip_prefix "item." type ≫= terminal_item_status.
Definition toolTerminalStatus (type : string) : option ItemStatus :=
  strip_prefix "tool_call." type ≫= terminal_item_status.

Definition readItemDelta (e : LifecycleEvent) : option string :=
  if decide (type e = "assistant_message.delta") then
    Some (readString (dget "delta" (payload e)))
  else if decide (type e = "reasoning.summary_delta") then
    Some (readString (dget "delta" (payload e)))
  else None.

Definition assertEnvelope (p : MutableProjection) (e : LifecycleEvent) : res error unit :=
  if negb (bool_decide (turnId e = p_turnId p)) then
    Err (LifecycleProjectionError "identity_mismatch")
  else if negb (bool_decide (sequence e = p_lastSequence p + 1)) then
    Err (LifecycleProjectionError "sequence_gap")
  else match p_terminalOutcome p with
       | Some _ => Err (LifecycleProjectionError "corrupt_event")
       | None => Ok tt
       end.

Definition assertNoActiveToolsOrRequests (p : MutableProjection) : res error unit :=
  let activeTool := existsb (fun t => bool_decide (tp_status t = it_active) ||
    bool_decide (tp_status t = it_not_started)) (dvals (p_toolCalls p)) in
  let pendingRequest := existsb (fun r => bool_decide (rp_status r = rq_pending))
    (dvals (p_requests p)) in
  if activeTool || pendingRequest then Err (LifecycleProjectionError "corrupt_event")
  else Ok tt.

Definition is_terminal_turn_event (t : string) : bool :=
  bool_decide (t ∈ ["turn.completed"; "turn.failed"; "turn.interrupted"]).

Definition applyTerminal (e : LifecycleEvent) : PM unit :=
  p ← gets id;
  match dget "outcome" (payload e) ≫= outcome_of_json with
  | None => throw (JsError "TypeError")
  | Some outcome =>
      next ← lift (transitionTurnStatus (p_status p) (outcome_status outcome));
      _ ← lift (validateTerminalSettlement
            (mkTerminalSettlementInput next (Some outcome) (p_blockingState p)
               (dmap ip_status (p_items p)) (dmap ap_status (p_approvals p))));
      _ ← lift (assertNoActiveToolsOrRequests p);
      _ ← modify (p_set_status next);
      modify (p_set_outcome (Some outcome))
  end.

Definition applyTurn (e : LifecycleEvent) : PM unit :=
  if decide (type e = "turn.started") then
    status ← gets p_status;
    next ← lift (transitionTurnStatus status in_progress);
    _ ← modify (p_set_status next);
    if decide (readString (dget "revisionOfTurnId" (payload e)) = "") then mret tt
    else modify (p_set_revision (Some (readString (dget "revisionOfTurnId" (payload e)))))
  else if decide (type e = "turn.blocking_changed") then
    blockingState ← lift (match dget "blockingState" (payload e) ≫= parse_blocking with
                          | Some b => Ok b | None => Err ZodError end);
    _ ← modify (p_set_blocking blockingState);
    status ← gets p_status;
    match blockingState with
    | b_waiting_for_approval _ _ =>
        next ← lift (transitionTurnStatus status awaiting_approval);
        modify (p_set_status next)
    | _ =>
        if decide (status = awaiting_approval) then
          next ← lift (transitionTurnStatus status in_progress);
          modify (p_set_status next)
        else mret tt
    end
  else if is_terminal_turn_event (type e) then applyTerminal e
  else mret tt.

(** [ItemKindSchema.parse(value)] *)
Definition parse_kind (value : option json) : res error string :=
  match value with
  | Some (JStr s) => if decide (s ∈ ItemKindSchema) then Ok s else Err ZodError
  | _ => Err ZodError
  end.

Definition applyItem (e : LifecycleEvent) : PM unit :=
  match itemId e with
  | None | Some "" => mret tt
  | Some i =>
      if decide (type e = "item.started") then
        kind ← lift (parse_kind (dget "kind" (payload e)));
        modify (p_set_item i (mkItem i kind it_active "" (sequence e)))
      else
        items ← gets p_items;
        match dget i items with
        | None => mret tt
        | Some item =>
            status ← (match itemTerminalStatus (type e) with
                      | Some terminal => lift (transitionItemStatus (ip_status item) terminal)
                      | None => mret (ip_status item)
                      end);
            modify (p_set_item i (mkItem (ip_itemId item) (ip_kind item) status
              (match readItemDelta e with
               | Some text => ip_text item +:+ text
               | None => ip_text item
               end) (sequence e)))
        end
  end.

Definition applyToolCall (e : LifecycleEvent) : PM unit :=
  match toolCallId e, itemId e with
  | Some "", _ => mret tt
  | Some t, Some i =>
      if decide (type e = "tool_call.started") then
        modify (p_set_tool t (mkTool t i it_active "" (sequence e)))
      else
        tools ← gets p_toolCalls;
        match dget t tools with
        | None => mret tt
        | Some tool =>
            status ← (match toolTerminalStatus (type e) with
                      | Some terminal => lift (transitionToolCallStatus (tp_status tool) terminal)
                      | None => mret (tp_status tool)
                      end);
            modify (p_set_tool t (mkTool (tp_toolCallId tool) (tp_itemId tool) status
              (tp_outputText tool +:+
               (if decide (type e = "tool_call.output_delta")
                then readString (dget "output" (payload e)) else "")) (sequence e)))
        end
  | _, _ => mret tt
  end.

(** The decision of an [approval.decided] payload.  Its schema leaves no other
    case; a status outside the table has no legal transition. *)
Definition transition_decision (current : ApprovalStatus) (status : option json)
    : res error ApprovalStatus :=
  match status ≫= ApprovalStatus_of_json with
  | Some next => transitionApprovalStatus current next
  | None => Err (LifecycleTransitionError s_approval (ApprovalStatus_str current)
              (readString status) "the target state is not legal from the current state")
  end.

Definition applyApproval (e : LifecycleEvent) : PM unit :=
  match approvalId e, itemId e with
  | Some "", _ => mret tt
  | Some a, Some i =>
      if decide (type e = "approval.requested") then
        modify (p_set_approval a (mkApproval a i ap_pending (sequence e)))
      else if decide (type e = "approval.decided") then
        approvals ← gets p_approvals;
        match dget a approvals with
        | None => mret tt
        | Some current =>
            status ← lift (transition_decision (ap_status current) (dget "status" (payload e)));
            modify (p_set_approval a (mkApproval (ap_approvalId current) (ap_itemId current)
              status (sequence e)))
        end
      else mret tt
  | _, _ => mret tt
  end.

Definition applyRequest (e : LifecycleEvent) : PM unit :=
  match requestId e, itemId e with
  | Some "", _ => mret tt
  | Some r, Some i =>
      if decide (type e = "user_input.requested") then
        modify (p_set_request r (mkRequest r i rq_pending (sequence e)))
      else if decide (type e = "request.resolved") then
        requests ← gets p_requests;
        match dget r requests with
        | None => mret tt
        | Some request =>
            modify (p_set_request r (mkRequest (rp_requestId request) (rp_itemId request)
              rq_resolved (sequence e)))
        end
      else mret tt
  | _, _ => mret tt
  end.

Definition applyLifecycleProjectionEvent (e : LifecycleEvent) : PM unit :=
  p ← gets id;
  _ ← lift (assertEnvelope p e);
  _ ← applyTurn e;
  _ ← applyItem e;
  _ ← applyToolCall e;
  _ ← applyApproval e;
  _ ← applyRequest e;
  modify (p_set_lastSequence (sequence e)).

(** What [LifecycleProjectionSnapshotSchema] checks of a state: the rest of it
    holds by the types. *)
Definition snapshot_valid (p : MutableProjection) : bool :=
  negb (bool_decide (p_turnId p = "")) &&
  valid_blocking (p_blockingState p) &&
  match p_terminalOutcome p with
  | Some to_completed | None => true
  | Some (to_interrupted r) => (1 <=? str_length r) && (str_length r <=? 2000)
  | Some (to_failed f) => is_some (ProtocolErrorSchema (json_of_failure f))
  end &&
  forallb (fun i => negb (bool_decide (ip_itemId i = "")) &&
    bool_decide (ip_kind i ∈ ItemKindSchema) && (0 <=? ip_lastSequence i)) (dvals (p_items p)) &&
  forallb (fun t => negb (bool_decide (tp_toolCallId t = "")) &&
    negb (bool_decide (tp_itemId t = "")) && (0 <=? tp_lastSequence t))
    (dvals (p_toolCalls p)) &&
  forallb (fun a => negb (bool_decide (ap_approvalId a = "")) &&
    negb (bool_decide (ap_itemId a = "")) && (0 <=? ap_lastSequence a))
    (dvals (p_approvals p)) &&
  forallb (fun r => negb (bool_decide (rp_requestId r = "")) &&
    negb (bool_decide (rp_itemId r = "")) && (0 <=? rp_lastSequence r))
    (dvals (p_requests p)) &&
  (0 <=? p_lastSequence p).

(** [snapshot(state)]: the state, its maps read as lists of values. *)
Definition snapshot (p : MutableProjection) : res error MutableProjection :=
  if snapshot_valid p then Ok p else Err ZodError.

(** The loop of [projectLifecycleEvents] from a given state. *)
Definition project_from (p : MutableProjection) (events : list LifecycleEvent)
    : res error MutableProjection :=
  match for_of events applyLifecycleProjectionEvent p with
  | (Ok _, p') => Ok p'
  | (Err e, _) => Err e
  end.

Definition projectLifecycleEvents (events : list LifecycleEvent)
    : res error (option MutableProjection) :=
  match events with
  | [] => Ok None
  | e :: _ =>
      match project_from (createState (turnId e)) events with
      | Ok p => match snapshot p with Ok s => Ok (Some s) | Err err => Err err end
      | Err err => Err err
      end
  end.

(** [LifecycleProjector.apply] *)
Definition LifecycleProjector_apply (e : LifecycleEvent) : PM MutableProjection :=
  _ ← applyLifecycleProjectionEvent e;
  p ← gets id;
  lift (snapshot p).

(** * Facts *)

Lemma project_from_app p es es' :
  project_from p (es ++ es') =
  match project_from p es with Ok p' => project_from p' es' | Err e => Err e end.
Proof.
  unfold project_from. revert p. induction es as [|e es IH]; intros p; [done|].
  cbn. unfold mbind, ST_bind. destruct (applyLifecycleProjectionEvent e p) as [[]]; [|done].
  apply IH.
Qed.

Lemma project_from_one p e p' :
  applyLifecycleProjectionEvent e p = (Ok tt, p') -> project_from p [e] = Ok p'.
Proof. intros H. unfold project_from. cbn. unfold mbind, ST_bind. by rewrite H. Qed.
