(* ===== verification/Sink.v ===== *)
(** What the coordinator relies on of its sink, as an interface: the laws of
    [LifecycleSinkLaws] speak about the batches a coordinator writes
    ([next_batch]).  The in-memory store of EventStore.v implements it. *)
From S2P Require Import Prelude Js Zod Protocol LifecycleEvents EventStore Coordinator.
From Stdlib Require Import Ascii.

(** The id and the idempotency key [createEvent] gives an event. *)
Definition canonical (e : LifecycleEvent) : Prop :=
  eventId e = "evt_" +:+ slice_from 4 (turnId e) +:+ "_" +:+ Number_toString (sequence e) /\
  idempotencyKey e =
    turnId e +:+ ":" +:+ Number_toString (sequence e) +:+ ":" +:+ type e.

(** No terminal event ends the log. *)
Definition live (log : list LifecycleEvent) : Prop :=
  match last log with Some e => is_terminal_type (type e) = false | None => True end.

(** The batches that continue the log of turn [t]. *)
Inductive next_batch `{JsRuntime} (t : string) : list LifecycleEvent ->
    list LifecycleEvent -> Prop :=
| next_nil log : next_batch t log []
| next_cons log e es :
    turnId e = t -> canonical e -> parse_event e = Ok e ->
    sequence e = Z.of_nat (length log) + 1 -> live log ->
    next_batch t (log ++ [e]) es ->
    next_batch t log (e :: es).

Class LifecycleSinkLaws `{JsRuntime} (K : Type) `{LifecycleSink K} : Type := {
  sink_inv : K -> Prop;
  sink_log : string -> K -> list LifecycleEvent;
  (** a batch is appended as a whole or not at all, and touches no other turn *)
  sink_append_spec : forall t k es, sink_inv k -> next_batch t (sink_log t k) es ->
    match sink_appendBatch es k with
    | (Ok _, k') => sink_inv k' /\ sink_log t k' = sink_log t k ++ es /\
                    forall t', t' <> t -> sink_log t' k' = sink_log t' k
    | (Err _, k') => sink_inv k' /\ forall t', sink_log t' k' = sink_log t' k
    end;
  (** what is logged was validated *)
  sink_log_parsed : forall t k, sink_inv k ->
    Forall (fun e => parse_event e = Ok e) (sink_log t k);
}.

(** A sink that accepts every such batch. *)
Class SinkAvailable `{!JsRuntime} (K : Type) `{!LifecycleSink K, !LifecycleSinkLaws K} : Prop :=
  sink_available : forall t k es, sink_inv k -> next_batch t (sink_log t k) es ->
    is_ok (fst (sink_appendBatch es k)) = true.

(** * Ids and keys tell events apart *)

Lemma slice_from_append (a b : string) : slice_from (String.length a) (a +:+ b) = b.
Proof.
  unfold slice_from. rewrite length_append, Nat.add_comm, Nat.add_sub.
  induction a as [|c a IH]; rewrite ?append_nil_l, ?append_cons; cbn [String.length String.substring].
  - clear. induction b as [|c b IH]; [done|]. cbn. by rewrite IH.
  - done.
Qed.

Lemma turn_id_slice t : TurnIdSchema t = true -> t = "trn_" +:+ slice_from 4 t.
Proof.
  intros Ht. apply prefixed_id_iff in Ht as (s & -> & _).
  change ("trn" +:+ "_" +:+ s) with ("trn_" +:+ s). f_equal.
  by rewrite (slice_from_append "trn_").
Qed.

Lemma turn_id_inj t t' :
  TurnIdSchema t = true -> TurnIdSchema t' = true -> slice_from 4 t = slice_from 4 t' -> t = t'.
Proof.
  intros Ht Ht' Heq. rewrite (turn_id_slice t Ht), (turn_id_slice t' Ht'). by rewrite Heq.
Qed.

Definition no_colon (c : ascii) : bool := negb (Ascii.eqb c ":").

Lemma id_char_no_colon c : is_id_char c = true -> no_colon c = true.
Proof.
  unfold no_colon. destruct (Ascii.eqb_spec c ":") as [->|]; [|done]. done.
Qed.

Lemma digit_no_colon c : ascii_between 48 57 c = true -> no_colon c = true.
Proof. unfold no_colon. by destruct (Ascii.eqb_spec c ":") as [->|]. Qed.

Lemma digit_no_underscore c : ascii_between 48 57 c = true -> c <> "_"%char.
Proof. by intros H ->. Qed.

Lemma turn_id_no_colon t : TurnIdSchema t = true -> str_forall no_colon t = true.
Proof.
  intros Ht. apply prefixed_id_iff in Ht as (s & -> & Hs).
  change ("trn" +:+ "_" +:+ s) with ("trn_" +:+ s). rewrite str_forall_app. cbn [andb str_forall].
  destruct s as [|c s]; [done|]. cbn [ID_SUFFIX_PATTERN] in Hs.
  rewrite !andb_true_iff in Hs. destruct Hs as [[Hc Hs] _]. cbn [str_forall].
  rewrite (id_char_no_colon c), (str_forall_mono _ _ _ id_char_no_colon Hs); [done|].
  unfold is_id_char. by rewrite Hc.
Qed.

Lemma decimal_no_colon n : 0 <= n -> str_forall no_colon (Number_toString n) = true.
Proof.
  intros. eapply str_forall_mono; [apply digit_no_colon|by apply Number_toString_digits].
Qed.

Definition envelope_id_ok (e : LifecycleEvent) : Prop :=
  TurnIdSchema (turnId e) = true /\ 0 <= sequence e <= MAX_SAFE_INTEGER.

Lemma parsed_envelope `{JsRuntime} e : parse_event e = Ok e -> envelope_id_ok e.
Proof.
  unfold parse_event. destruct (LifecycleEventSchema e) as [e'|] eqn:He; [|done].
  intros [= ->]. apply LifecycleEventSchema_Some in He as (p & _ & Hs).
  unfold LifecycleEventEnvelopeShape in Hs. rewrite !andb_true_iff in Hs. unfold envelope_id_ok.
  split; [tauto|]. split; apply Z.leb_le; tauto.
Qed.

Lemma canonical_id_inj e e' :
  envelope_id_ok e -> envelope_id_ok e' -> canonical e -> canonical e' ->
  eventId e = eventId e' -> turnId e = turnId e' /\ sequence e = sequence e'.
Proof.
  intros [Ht [Hs _]] [Ht' [Hs' _]] [Hid _] [Hid' _] Heq.
  rewrite Hid, Hid' in Heq. apply append_inj_l in Heq.
  apply (split_last_unique (ascii_between 48 57)) in Heq as [Hslice Hseq];
    auto using Number_toString_digits.
  split; [by apply turn_id_inj|by apply Number_toString_inj].
Qed.

Lemma canonical_key_inj e e' :
  envelope_id_ok e -> envelope_id_ok e' -> canonical e -> canonical e' ->
  idempotency_key e = idempotency_key e' -> turnId e = turnId e' /\ sequence e = sequence e'.
Proof.
  intros [Ht [Hs _]] [Ht' [Hs' _]] [_ Hk] [_ Hk'] Heq. unfold idempotency_key in Heq.
  rewrite Hk, Hk' in Heq.
  apply (split_first_unique no_colon) in Heq as [Hturn Heq]; auto using turn_id_no_colon.
  split; [done|]. rewrite Hturn in Heq.
  apply append_inj_l in Heq. apply (append_inj_l ":") in Heq.
  apply (split_first_unique no_colon) in Heq as [Hn _]; auto using decimal_no_colon.
  by apply Number_toString_inj.
Qed.

(** * The in-memory store as a sink *)

#[export] Instance memory_sink `{JsRuntime} : LifecycleSink MemoryLifecycleEventStore :=
  EventStore.appendBatch.

Definition all_canonical (s : MemoryLifecycleEventStore) : Prop :=
  forall t x, x ∈ turn_log t s -> canonical (event x).

Section MemorySink.
Context `{JsRuntime}.

Lemma canonical_fresh s e :
  store_ok s -> all_canonical s -> canonical e -> parse_event e = Ok e ->
  sequence e = Z.of_nat (length (turn_log (turnId e) s)) + 1 ->
  eventsById s !! eventId e = None /\
  eventsByIdempotencyKey s !! idempotency_key e = None.
Proof.
  intros Hs Hc He Hp Hseq.
  assert (Hnew : forall x, x ∈ turn_log (turnId (event x)) s ->
      turnId (event x) = turnId e /\ sequence (event x) = sequence e -> False).
  { intros x Hx [Ht Hsx]. rewrite Ht in Hx. apply list_elem_of_lookup in Hx as [i Hi].
    pose proof (lookup_lt_Some _ _ _ Hi). apply (ok_logs s Hs) in Hi as [Hi _]. lia. }
  assert (Henv : forall x, x ∈ turn_log (turnId (event x)) s -> envelope_id_ok (event x)).
  { intros x Hx. apply list_elem_of_lookup in Hx as [i Hi].
    apply (ok_logs s Hs) in Hi as (_ & _ & _ & Hi & _). by apply parsed_envelope. }
  split.
  - destruct (eventsById s !! eventId e) as [x|] eqn:Hx; [exfalso|done].
    apply Hs in Hx as [Hid Hx]. apply (Hnew x Hx).
    eapply canonical_id_inj; eauto using parsed_envelope.
  - destruct (eventsByIdempotencyKey s !! idempotency_key e) as [x|] eqn:Hx; [exfalso|done].
    apply Hs in Hx as [Hid Hx]. apply (Hnew x Hx).
    eapply canonical_key_inj; eauto using parsed_envelope.
Qed.

Lemma next_batch_fresh t es s :
  store_ok s -> all_canonical s -> next_batch t (map event (turn_log t s)) es ->
  fresh_batch t s es /\ all_canonical (store_events es s) /\
  Forall (fun e => parse_event e = Ok e) es.
Proof.
  revert s. induction es as [|e es IH]; intros s Hs Hc Hb.
  { split; [apply fresh_nil|]. by split. }
  inversion Hb as [|log e' es' Ht Hcan Hp Hseq Hlive Hb']; subst. rewrite length_map in Hseq.
  destruct (canonical_fresh s e Hs Hc Hcan Hp Hseq) as [Hid Hkey].
  assert (Hterm : terminated (turn_log (turnId e) s) = false).
  { unfold terminated. unfold live in Hlive.
    change (map event (turn_log (turnId e) s)) with (event <$> turn_log (turnId e) s) in Hlive.
    rewrite fmap_last in Hlive. by destruct (last (turn_log (turnId e) s)). }
  assert (Ha : assertAppendable e s = Ok tt) by (apply assertAppendable_ok; auto).
  edestruct (IH (store_event e (createStableEventFingerprint e) s)) as (Hf & Hc' & Hps).
  - by apply store_event_ok.
  - intros t x. rewrite turn_log_store_event. case_decide; [|apply Hc].
    rewrite elem_of_app, list_elem_of_singleton. intros [Hx|Hx]; [by eapply Hc|by subst].
  - rewrite turn_log_store_event, decide_True by done.
    change (next_batch (turnId e) (event <$> turn_log (turnId e) s ++
      [mkStored e (createStableEventFingerprint e)]) es). by rewrite fmap_app.
  - split; [by constructor|]. by split; [|constructor].
Qed.

Lemma self_parsed es :
  Forall (fun e => parse_event e = Ok e) es -> res_map parse_event es = Ok es.
Proof. intros Hes. apply res_map_Ok. by induction Hes; constructor. Qed.

Lemma memory_append t s es :
  store_ok s -> all_canonical s -> next_batch t (map event (turn_log t s)) es ->
  exists s', EventStore.appendBatch es s = (Ok es, s') /\ store_ok s' /\ all_canonical s' /\
    map event (turn_log t s') = map event (turn_log t s) ++ es /\
    forall t', t' <> t -> map event (turn_log t' s') = map event (turn_log t' s).
Proof.
  intros Hs Hc Hb. destruct (next_batch_fresh t es s Hs Hc Hb) as (Hf & Hc' & Hp).
  pose proof (appendBatch_fresh t es es s Hs (self_parsed es Hp) Hf) as Happ.
  exists (store_events es s). split; [done|].
  pose proof (appendBatch_keeps_ok es s Hs) as Hok. rewrite Happ in Hok.
  destruct (turn_log_store_events t es s (fresh_batch_turn _ _ _ Hf)) as [Hlog Hother].
  split_and!; [done|done| |intros; by rewrite Hother].
  rewrite Hlog, map_app, map_map. f_equal. apply map_id.
Qed.
End MemorySink.

#[export] Program Instance memory_sink_laws `{JsRuntime} :
    LifecycleSinkLaws MemoryLifecycleEventStore := {
  sink_inv s := store_ok s /\ all_canonical s;
  sink_log t s := map event (turn_log t s);
}.
Next Obligation.
  intros ? t s es [Hs Hc] Hb.
  destruct (memory_append t s es Hs Hc Hb) as (s' & Happ & Hs' & Hc' & Hlog & Hother).
  unfold sink_appendBatch, memory_sink. rewrite Happ. auto.
Qed.
Next Obligation.
  intros ? t s [Hs _]. apply Forall_forall. intros e He.
  change (map event ?l) with (event <$> l) in He. apply list_elem_of_fmap in He as (x & -> & Hx).
  apply list_elem_of_lookup in Hx as [i Hi]. by apply (ok_logs s Hs) in Hi as (_ & _ & _ & ? & _).
Qed.

#[export] Instance memory_sink_available `{JsRuntime} :
  SinkAvailable MemoryLifecycleEventStore.
Proof.
  intros t s es [Hs Hc] Hb.
  destruct (memory_append t s es Hs Hc Hb) as (s' & Happ & _).
  unfold sink_appendBatch, memory_sink. by rewrite Happ.
Qed.
