(* ===== verification/ProjectorFacts.v ===== *)
(** How each kind of event moves the projection: the step lemmas the
    simulation and the replay theorems share. *)
From S2P Require Import Prelude Js Zod Protocol LifecycleEvents Projector.

(** Two projections that differ only in texts and in where their parts were
    last touched. *)
Record pequiv (p p' : MutableProjection) : Prop := {
  pe_turnId : p_turnId p' = p_turnId p;
  pe_status : p_status p' = p_status p;
  pe_blocking : p_blockingState p' = p_blockingState p;
  pe_outcome : p_terminalOutcome p' = p_terminalOutcome p;
  pe_items : dmap ip_status (p_items p') = dmap ip_status (p_items p);
  pe_tools : dmap tp_status (p_toolCalls p') = dmap tp_status (p_toolCalls p);
  pe_toolItems : dmap tp_itemId (p_toolCalls p') = dmap tp_itemId (p_toolCalls p);
  pe_approvals : dmap ap_status (p_approvals p') = dmap ap_status (p_approvals p);
  pe_approvalItems : dmap ap_itemId (p_approvals p') = dmap ap_itemId (p_approvals p);
  pe_requests : dmap rp_status (p_requests p') = dmap rp_status (p_requests p);
  pe_lastSequence : p_lastSequence p' = p_lastSequence p;
}.

#[export] Instance pequiv_equivalence : Equivalence pequiv.
Proof.
  split.
  - by intros p; split.
  - intros p p' []. by split.
  - intros p1 p2 p3 [] []. split; congruence.
Qed.

(** The event continues the projected turn. *)
Definition follows (p : MutableProjection) (e : LifecycleEvent) : Prop :=
  turnId e = p_turnId p /\ sequence e = p_lastSequence p + 1 /\ p_terminalOutcome p = None.

Lemma assertEnvelope_ok p e : follows p e <-> assertEnvelope p e = Ok tt.
Proof.
  unfold follows, assertEnvelope. split.
  - intros (-> & -> & ->). by rewrite !bool_decide_true.
  - destruct (bool_decide _) eqn:Ht; [|done]. apply bool_decide_eq_true in Ht.
    destruct (bool_decide _) eqn:Hs; [|done]. apply bool_decide_eq_true in Hs.
    by destruct (p_terminalOutcome p).
Qed.

Lemma dmap_touch {V W} (f : V -> W) k v v' (d : dict V) :
  dget k d = Some v -> f v' = f v -> dmap f (dset k v' d) = dmap f d.
Proof.
  intros Hk Hv. rewrite dmap_dset, Hv. apply dset_id. by rewrite dget_dmap, Hk.
Qed.

Ltac st_eval := unfold mbind, ST_bind, mret, ST_ret, gets, lift, modify, throw, id; cbn beta iota.

Definition turn_neutral (t : string) : bool :=
  negb (bool_decide (t ∈ ["turn.started"; "turn.blocking_changed"])) &&
  negb (is_terminal_turn_event t).
Definition item_neutral (t : string) : bool :=
  negb (bool_decide (t = "item.started")) && negb (is_some (itemTerminalStatus t)).
Definition tool_neutral (t : string) : bool :=
  negb (bool_decide (t = "tool_call.started")) && negb (is_some (toolTerminalStatus t)).
Definition request_neutral (t : string) : bool :=
  negb (bool_decide (t ∈ ["approval.requested"; "approval.decided";
                          "user_input.requested"; "request.resolved"])).

Lemma applyTurn_neutral e p : turn_neutral (type e) = true -> applyTurn e p = (Ok tt, p).
Proof.
  unfold turn_neutral. rewrite andb_true_iff, !negb_true_iff, bool_decide_eq_false.
  intros [Hne Ht]. unfold applyTurn.
  rewrite decide_False by set_solver. rewrite decide_False by set_solver. by rewrite Ht.
Qed.

Lemma applyItem_neutral e p :
  item_neutral (type e) = true -> exists p', applyItem e p = (Ok tt, p') /\ pequiv p p'.
Proof.
  unfold item_neutral. rewrite andb_true_iff, !negb_true_iff, bool_decide_eq_false.
  intros [Hne Ht]. unfold applyItem.
  destruct (itemId e) as [[|a i]|]; try by exists p.
  rewrite decide_False by done. st_eval.
  destruct (dget (String a i) (p_items p)) as [item|] eqn:Hi; [|by exists p].
  destruct (itemTerminalStatus (type e)); [done|]. eexists. split; [done|].
  split; try done. cbn [p_items p_set_item]. by apply (dmap_touch _ _ item).
Qed.

Lemma applyToolCall_neutral e p :
  tool_neutral (type e) = true -> exists p', applyToolCall e p = (Ok tt, p') /\ pequiv p p'.
Proof.
  unfold tool_neutral. rewrite andb_true_iff, !negb_true_iff, bool_decide_eq_false.
  intros [Hne Ht]. unfold applyToolCall.
  destruct (toolCallId e) as [[|a t]|]; try by exists p.
  destruct (itemId e) as [i|]; [|by exists p].
  rewrite decide_False by done. st_eval.
  destruct (dget (String a t) (p_toolCalls p)) as [tool|] eqn:Hi; [|by exists p].
  destruct (toolTerminalStatus (type e)); [done|]. eexists. split; [done|].
  split; try done; cbn [p_toolCalls p_set_tool]; by apply (dmap_touch _ _ tool).
Qed.

Lemma applyApproval_neutral e p :
  request_neutral (type e) = true -> applyApproval e p = (Ok tt, p).
Proof.
  unfold request_neutral. rewrite negb_true_iff, bool_decide_eq_false. intros Hne.
  unfold applyApproval. destruct (approvalId e) as [[|a t]|]; try done.
  destruct (itemId e) as [i|]; [|done]. by rewrite !decide_False by set_solver.
Qed.

Lemma applyRequest_neutral e p :
  request_neutral (type e) = true -> applyRequest e p = (Ok tt, p).
Proof.
  unfold request_neutral. rewrite negb_true_iff, bool_decide_eq_false. intros Hne.
  unfold applyRequest. destruct (requestId e) as [[|a t]|]; try done.
  destruct (itemId e) as [i|]; [|done]. by rewrite !decide_False by set_solver.
Qed.

Lemma applyRequest_none e p : requestId e = None -> applyRequest e p = (Ok tt, p).
Proof. unfold applyRequest. by intros ->. Qed.

(** Running the five handlers one after another. *)
Lemma apply_run e p p1 p2 p3 p4 p5 :
  follows p e -> applyTurn e p = (Ok tt, p1) -> applyItem e p1 = (Ok tt, p2) ->
  applyToolCall e p2 = (Ok tt, p3) -> applyApproval e p3 = (Ok tt, p4) ->
  applyRequest e p4 = (Ok tt, p5) ->
  applyLifecycleProjectionEvent e p = (Ok tt, p_set_lastSequence (sequence e) p5).
Proof.
  intros Hf H1 H2 H3 H4 H5. unfold applyLifecycleProjectionEvent, mbind, ST_bind, gets, lift.
  apply assertEnvelope_ok in Hf. unfold id. by rewrite Hf, H1, H2, H3, H4, H5.
Qed.

Lemma pequiv_lastSequence s p p' :
  pequiv p p' -> pequiv (p_set_lastSequence s p) (p_set_lastSequence s p').
Proof. intros []. by split. Qed.

(** An event whose only effect is that of [applyTurn]. *)
Lemma apply_turn_event e p p1 :
  follows p e -> applyTurn e p = (Ok tt, p1) ->
  item_neutral (type e) = true -> tool_neutral (type e) = true ->
  request_neutral (type e) = true ->
  exists p', applyLifecycleProjectionEvent e p = (Ok tt, p') /\
    pequiv (p_set_lastSequence (sequence e) p1) p'.
Proof.
  intros Hf Ht Hi Htc Hr.
  destruct (applyItem_neutral e p1 Hi) as (p2 & H2 & He2).
  destruct (applyToolCall_neutral e p2 Htc) as (p3 & H3 & He3).
  eexists. split.
  - eapply apply_run; eauto using applyApproval_neutral, applyRequest_neutral.
  - apply pequiv_lastSequence. by transitivity p2.
Qed.

Definition neutral (t : string) : bool :=
  turn_neutral t && item_neutral t && tool_neutral t && request_neutral t.

Lemma apply_neutral e p :
  follows p e -> neutral (type e) = true ->
  exists p', applyLifecycleProjectionEvent e p = (Ok tt, p') /\
    pequiv (p_set_lastSequence (sequence e) p) p'.
Proof.
  unfold neutral. rewrite !andb_true_iff. intros Hf [[[Ht Hi] Htc] Hr].
  apply apply_turn_event; auto using applyTurn_neutral.
Qed.

Lemma apply_item_started e p i kind :
  follows p e -> type e = "item.started" -> itemId e = Some i -> i <> "" ->
  dget "kind" (payload e) = Some (JStr kind) -> kind ∈ ItemKindSchema ->
  exists p', applyLifecycleProjectionEvent e p = (Ok tt, p') /\
    pequiv (p_set_lastSequence (sequence e)
              (p_set_item i (mkItem i kind it_active "" (sequence e)) p)) p'.
Proof.
  intros Hf Ht Hi Hne Hk Hin.
  assert (Happ : applyItem e p = (Ok tt, p_set_item i (mkItem i kind it_active "" (sequence e)) p)).
  { unfold applyItem. rewrite Hi. destruct i as [|a i]; [done|].
    rewrite decide_True by done. st_eval. unfold parse_kind. by rewrite Hk, decide_True. }
  destruct (applyToolCall_neutral e (p_set_item i (mkItem i kind it_active "" (sequence e)) p))
    as (p3 & H3 & He3); [by rewrite Ht|].
  eexists. split.
  - eapply apply_run; [done|apply applyTurn_neutral; by rewrite Ht|exact Happ|exact H3|
      apply applyApproval_neutral; by rewrite Ht|apply applyRequest_neutral; by rewrite Ht].
  - by apply pequiv_lastSequence.
Qed.

Lemma apply_item_settled e p i item st :
  follows p e -> itemTerminalStatus (type e) = Some st -> type e <> "item.started" ->
  turn_neutral (type e) = true -> tool_neutral (type e) = true ->
  request_neutral (type e) = true ->
  itemId e = Some i -> i <> "" -> dget i (p_items p) = Some item ->
  transitionItemStatus (ip_status item) st = Ok st ->
  exists p' item', applyLifecycleProjectionEvent e p = (Ok tt, p') /\ ip_status item' = st /\
    pequiv (p_set_lastSequence (sequence e) (p_set_item i item' p)) p'.
Proof.
  intros Hf Hst Hns Hn1 Hn2 Hn3 Hi Hne Hitem Htr.
  set (item' := mkItem (ip_itemId item) (ip_kind item) st
    match readItemDelta e with Some text => ip_text item +:+ text | None => ip_text item end
    (sequence e)).
  assert (Happ : applyItem e p = (Ok tt, p_set_item i item' p)).
  { unfold applyItem. rewrite Hi. destruct i as [|a i]; [done|].
    rewrite decide_False by done. st_eval. by rewrite Hitem, Hst, Htr. }
  destruct (applyToolCall_neutral e (p_set_item i item' p)) as (p3 & H3 & He3); [done|].
  exists (p_set_lastSequence (sequence e) p3), item'. split_and!; [|done|by apply pequiv_lastSequence].
  eapply apply_run; eauto using applyTurn_neutral, applyApproval_neutral, applyRequest_neutral.
Qed.

Lemma apply_tool_started e p t i :
  follows p e -> type e = "tool_call.started" -> itemId e = Some i ->
  toolCallId e = Some t -> t <> "" ->
  exists p' tool, applyLifecycleProjectionEvent e p = (Ok tt, p') /\
    tp_status tool = it_active /\ tp_itemId tool = i /\
    pequiv (p_set_lastSequence (sequence e) (p_set_tool t tool p)) p'.
Proof.
  intros Hf Ht Hi Htc Hne.
  destruct (applyItem_neutral e p) as (p2 & H2 & He2); [by rewrite Ht|].
  set (tool := mkTool t i it_active "" (sequence e)).
  assert (Happ : applyToolCall e p2 = (Ok tt, p_set_tool t tool p2)).
  { unfold applyToolCall. rewrite Htc, Hi. destruct t as [|a t]; [done|].
    by rewrite decide_True. }
  exists (p_set_lastSequence (sequence e) (p_set_tool t tool p2)), tool.
  split_and!; [|done|done|].
  - eapply apply_run; [done|apply applyTurn_neutral; by rewrite Ht|exact H2|exact Happ|
      apply applyApproval_neutral; by rewrite Ht|apply applyRequest_neutral; by rewrite Ht].
  - apply pequiv_lastSequence. destruct He2. split; cbn; rewrite ?dmap_dset; congruence.
Qed.

Lemma apply_tool_settled e p t i tool st :
  follows p e -> toolTerminalStatus (type e) = Some st -> type e <> "tool_call.started" ->
  turn_neutral (type e) = true -> item_neutral (type e) = true ->
  request_neutral (type e) = true ->
  itemId e = Some i -> toolCallId e = Some t -> t <> "" ->
  dget t (p_toolCalls p) = Some tool -> transitionToolCallStatus (tp_status tool) st = Ok st ->
  exists p' tool', applyLifecycleProjectionEvent e p = (Ok tt, p') /\
    tp_status tool' = st /\ tp_itemId tool' = tp_itemId tool /\
    pequiv (p_set_lastSequence (sequence e) (p_set_tool t tool' p)) p'.
Proof.
  intros Hf Hst Hns Hn1 Hn2 Hn3 Hi Htc Hne Htool Htr.
  destruct (applyItem_neutral e p Hn2) as (p2 & H2 & He2).
  assert (exists tool2, dget t (p_toolCalls p2) = Some tool2 /\
    tp_status tool2 = tp_status tool /\ tp_itemId tool2 = tp_itemId tool)
    as (tool2 & Htool2 & Hs2 & Hi2).
  { pose proof (f_equal (dget t) (pe_tools _ _ He2)) as Hd.
    pose proof (f_equal (dget t) (pe_toolItems _ _ He2)) as Hd'.
    rewrite !dget_dmap, Htool in Hd. rewrite !dget_dmap, Htool in Hd'.
    destruct (dget t (p_toolCalls p2)) as [tool2|]; [|done]. exists tool2.
    cbn in Hd, Hd'. split_and!; congruence. }
  set (tool' := mkTool (tp_toolCallId tool2) (tp_itemId tool2) st
    (tp_outputText tool2 +:+ (if decide (type e = "tool_call.output_delta")
                              then readString (dget "output" (payload e)) else ""))
    (sequence e)).
  assert (Happ : applyToolCall e p2 = (Ok tt, p_set_tool t tool' p2)).
  { unfold applyToolCall. rewrite Htc, Hi. destruct t as [|a t]; [done|].
    rewrite decide_False by done. st_eval. rewrite Htool2, Hst, Hs2, Htr. reflexivity. }
  exists (p_set_lastSequence (sequence e) (p_set_tool t tool' p2)), tool'.
  split_and!; [|done|done|].
  - eapply apply_run; eauto using applyTurn_neutral, applyApproval_neutral, applyRequest_neutral.
  - apply pequiv_lastSequence. destruct He2. split; cbn; rewrite ?dmap_dset; congruence.
Qed.

Lemma apply_approval_requested e p a i :
  follows p e -> type e = "approval.requested" -> itemId e = Some i ->
  approvalId e = Some a -> a <> "" -> requestId e = None ->
  exists p' appr, applyLifecycleProjectionEvent e p = (Ok tt, p') /\
    ap_status appr = ap_pending /\ ap_itemId appr = i /\
    pequiv (p_set_lastSequence (sequence e) (p_set_approval a appr p)) p'.
Proof.
  intros Hf Ht Hi Ha Hne Hr.
  destruct (applyItem_neutral e p) as (p2 & H2 & He2); [by rewrite Ht|].
  destruct (applyToolCall_neutral e p2) as (p3 & H3 & He3); [by rewrite Ht|].
  set (appr := mkApproval a i ap_pending (sequence e)).
  assert (Happ : applyApproval e p3 = (Ok tt, p_set_approval a appr p3)).
  { unfold applyApproval. rewrite Ha, Hi. destruct a as [|x a]; [done|].
    by rewrite decide_True. }
  exists (p_set_lastSequence (sequence e) (p_set_approval a appr p3)), appr.
  split_and!; [|done|done|].
  - eapply apply_run; [done|apply applyTurn_neutral; by rewrite Ht|exact H2|exact H3|exact Happ|
      by apply applyRequest_none].
  - apply pequiv_lastSequence. assert (He : pequiv p p3) by by transitivity p2.
    destruct He. split; cbn; rewrite ?dmap_dset; congruence.
Qed.

Lemma apply_approval_decided e p a i appr st :
  follows p e -> type e = "approval.decided" -> itemId e = Some i ->
  approvalId e = Some a -> a <> "" -> requestId e = None ->
  dget a (p_approvals p) = Some appr ->
  transition_decision (ap_status appr) (dget "status" (payload e)) = Ok st ->
  exists p' appr', applyLifecycleProjectionEvent e p = (Ok tt, p') /\
    ap_status appr' = st /\ ap_itemId appr' = ap_itemId appr /\
    pequiv (p_set_lastSequence (sequence e) (p_set_approval a appr' p)) p'.
Proof.
  intros Hf Ht Hi Ha Hne Hr Happr Htr.
  destruct (applyItem_neutral e p) as (p2 & H2 & He2); [by rewrite Ht|].
  destruct (applyToolCall_neutral e p2) as (p3 & H3 & He3); [by rewrite Ht|].
  assert (He : pequiv p p3) by by transitivity p2.
  assert (exists appr3, dget a (p_approvals p3) = Some appr3 /\
    ap_status appr3 = ap_status appr /\ ap_itemId appr3 = ap_itemId appr)
    as (appr3 & Happr3 & Hs3 & Hi3).
  { pose proof (f_equal (dget a) (pe_approvals _ _ He)) as Hd.
    pose proof (f_equal (dget a) (pe_approvalItems _ _ He)) as Hd'.
    rewrite !dget_dmap, Happr in Hd. rewrite !dget_dmap, Happr in Hd'.
    destruct (dget a (p_approvals p3)) as [appr3|]; [|done]. exists appr3.
    cbn in Hd, Hd'. split_and!; congruence. }
  set (appr' := mkApproval (ap_approvalId appr3) (ap_itemId appr3) st (sequence e)).
  assert (Happ : applyApproval e p3 = (Ok tt, p_set_approval a appr' p3)).
  { unfold applyApproval. rewrite Ha, Hi. destruct a as [|x a]; [done|].
    rewrite decide_False by (rewrite Ht; discriminate). rewrite decide_True by done. st_eval.
    by rewrite Happr3, Hs3, Htr. }
  exists (p_set_lastSequence (sequence e) (p_set_approval a appr' p3)), appr'.
  split_and!; [|done|done|].
  - eapply apply_run; [done|apply applyTurn_neutral; by rewrite Ht|exact H2|exact H3|exact Happ|
      by apply applyRequest_none].
  - apply pequiv_lastSequence. destruct He. split; cbn; rewrite ?dmap_dset; congruence.
Qed.

(** The effect of a blocking change on the turn. *)
Definition block (b : TurnBlockingState) (p : MutableProjection) : MutableProjection :=
  match b with
  | b_waiting_for_approval _ _ => p_set_status awaiting_approval (p_set_blocking b p)
  | _ => if decide (p_status p = awaiting_approval)
         then p_set_status in_progress (p_set_blocking b p) else p_set_blocking b p
  end.

Lemma apply_blocking e p b :
  follows p e -> type e = "turn.blocking_changed" ->
  dget "blockingState" (payload e) = Some (json_of_blocking b) -> valid_blocking b = true ->
  (forall i a, b = b_waiting_for_approval i a -> p_status p = in_progress) ->
  exists p', applyLifecycleProjectionEvent e p = (Ok tt, p') /\
    pequiv (p_set_lastSequence (sequence e) (block b p)) p'.
Proof.
  intros Hf Ht Hb Hv Hst.
  apply apply_turn_event; [done| |by rewrite Ht..].
  unfold applyTurn. rewrite decide_False by (rewrite Ht; discriminate). rewrite decide_True by done.
  rewrite Hb. cbn [mbind option_bind]. rewrite parse_blocking_encode by done. st_eval.
  destruct b as [|i a| |]; cbn [block p_status p_set_blocking].
  2: by rewrite (Hst i a eq_refl).
  all: by destruct (decide (p_status p = awaiting_approval)) as [->|].
Qed.

Lemma apply_turn_started e p :
  follows p e -> type e = "turn.started" ->
  transitionTurnStatus (p_status p) in_progress = Ok in_progress ->
  exists p', applyLifecycleProjectionEvent e p = (Ok tt, p') /\
    pequiv (p_set_lastSequence (sequence e) (p_set_status in_progress p)) p'.
Proof.
  intros Hf Ht Hst.
  assert (exists p1, applyTurn e p = (Ok tt, p1) /\ pequiv (p_set_status in_progress p) p1)
    as (p1 & H1 & He1).
  { unfold applyTurn. rewrite decide_True by done. st_eval. rewrite Hst. st_eval.
    destruct (decide _); eexists; (split; [done|by split]). }
  destruct (apply_turn_event e p p1) as (p' & Happ & He); try done; try (by rewrite Ht).
  exists p'. split; [done|]. rewrite <- He. by apply pequiv_lastSequence.
Qed.

Lemma apply_terminal e p outcome next :
  follows p e -> is_terminal_turn_event (type e) = true ->
  item_neutral (type e) = true -> tool_neutral (type e) = true ->
  request_neutral (type e) = true ->
  dget "outcome" (payload e) = Some (json_of_outcome outcome) ->
  transitionTurnStatus (p_status p) (outcome_status outcome) = Ok next ->
  validateTerminalSettlement (mkTerminalSettlementInput next (Some outcome) (p_blockingState p)
    (dmap ip_status (p_items p)) (dmap ap_status (p_approvals p))) = Ok tt ->
  assertNoActiveToolsOrRequests p = Ok tt ->
  exists p', applyLifecycleProjectionEvent e p = (Ok tt, p') /\
    pequiv (p_set_lastSequence (sequence e)
              (p_set_outcome (Some outcome) (p_set_status next p))) p'.
Proof.
  intros Hf Ht Hn1 Hn2 Hn3 Ho Htr Hval Hno.
  apply apply_turn_event; try done. unfold applyTurn.
  rewrite decide_False by (by intros Heq; rewrite Heq in Ht).
  rewrite decide_False by (by intros Heq; rewrite Heq in Ht). rewrite Ht. unfold applyTerminal. st_eval.
  rewrite Ho. cbn [mbind option_bind]. rewrite outcome_roundtrip. st_eval.
  by rewrite Htr, Hval, Hno.
Qed.
