(* ===== verification/ProjectorProps.v ===== *)
(** Properties of the turn projection: what it keeps true of a turn, that its
    snapshots are always valid, and that folding event by event gives what
    projecting the whole history gives. *)
From S2P Require Import Prelude Js Zod Protocol LifecycleEvents Projector ProjectorFacts.

(** * What the schemas leave of a value *)

Lemma z_object_required shape o j f :
  NoDup (map f_key shape) -> z_object shape (JObj o) = Some j -> f ∈ shape ->
  f_optional f = false ->
  exists o' v v', j = JObj o' /\ dget (f_key f) o = Some v /\ f_schema f v = Some v' /\
    dget (f_key f) o' = Some v'.
Proof.
  intros Hnd Hz Hf Hreq. pose proof Hz as Hz'. unfold z_object in Hz'.
  destruct (forallb _ _); [|done]. destruct (parse_fields o shape) as [o'|] eqn:Hp; [|done].
  injection Hz' as <-. pose proof (parse_fields_get o shape o' Hnd Hp f Hf) as Hget.
  destruct (dget (f_key f) o) as [v|]; [|destruct Hget as [Ho _]; congruence].
  destruct Hget as (v' & Hv & Hget). by exists o', v, v'.
Qed.

Lemma z_regex_str p v v' :
  z_regex p v = Some v' -> exists s, v' = JStr s /\ p s = true.
Proof. unfold z_regex, z_string. intros Hz. apply z_test_Some in Hz as [-> Hp]. destruct v; try done. by eexists. Qed.

Lemma z_string_str lo hi v v' :
  z_string lo hi v = Some v' -> exists s, v' = JStr s /\ (lo <=? str_length s) && (str_length s <=? hi) = true.
Proof. unfold z_regex, z_string. intros Hz. apply z_test_Some in Hz as [-> Hp]. destruct v; try done. by eexists. Qed.

Lemma z_enum1 s v v' : z_enum [s] v = Some v' -> v' = JStr s.
Proof.
  unfold z_enum. intros Hz. apply z_test_Some in Hz as [-> Hp]. destruct v; try done.
  apply bool_decide_eq_true, list_elem_of_singleton in Hp. by subst.
Qed.

(** The field [f] of an object of the given shape that parses. *)
Ltac field_of Hz f o' v' Hj Hf Hget :=
  let v := fresh "v" in let Hv := fresh "Hv" in
  let H := fresh "H" in
  pose proof (fun Hnd Hin => z_object_required _ _ _ f Hnd Hz Hin eq_refl) as H;
  destruct H as (o' & v & v' & Hj & Hv & Hf & Hget);
  [by apply (bool_decide_unpack _)|by repeat constructor|];
  cbn [f_key f_schema req] in Hf, Hget.

Lemma get_str_Some k o s : dget k o = Some (JStr s) -> get_str k o = Some s.
Proof. unfold get_str. by intros ->. Qed.

Lemma blocking_alt_none o j b :
  z_object [req "kind" (z_enum ["none"])] (JObj o) = Some j -> blocking_of_json j = Some b ->
  b = b_none.
Proof.
  intros Hz. field_of Hz (req "kind" (z_enum ["none"])) o' v' Hj Hf Hget. subst j.
  apply z_enum1 in Hf as ->. apply get_str_Some in Hget. unfold blocking_of_json. rewrite Hget.
  by intros [= <-].
Qed.

Lemma blocking_alt_approval o j b :
  z_object [req "kind" (z_enum ["waiting_for_approval"]); req "itemId" (z_regex ItemIdSchema);
            req "approvalId" (z_regex ApprovalIdSchema)] (JObj o) = Some j ->
  blocking_of_json j = Some b -> valid_blocking b = true.
Proof.
  intros Hz. field_of Hz (req "kind" (z_enum ["waiting_for_approval"])) o' v' Hj Hf Hget. subst j.
  apply z_enum1 in Hf as ->. apply get_str_Some in Hget. unfold blocking_of_json. rewrite Hget.
  field_of Hz (req "itemId" (z_regex ItemIdSchema)) o1 v1 Hj1 Hf1 Hget1. injection Hj1 as <-.
  field_of Hz (req "approvalId" (z_regex ApprovalIdSchema)) o2 v2 Hj2 Hf2 Hget2. injection Hj2 as <-.
  apply z_regex_str in Hf1 as (i & -> & Hi). apply z_regex_str in Hf2 as (a & -> & Ha).
  rewrite (get_str_Some _ _ _ Hget1), (get_str_Some _ _ _ Hget2). cbn. intros [= <-].
  cbn. by rewrite Hi, Ha.
Qed.

Lemma blocking_alt_input o j b :
  z_object [req "kind" (z_enum ["waiting_for_user_input"]); req "itemId" (z_regex ItemIdSchema);
            req "requestId" (z_string 1 160)] (JObj o) = Some j ->
  blocking_of_json j = Some b -> valid_blocking b = true.
Proof.
  intros Hz. field_of Hz (req "kind" (z_enum ["waiting_for_user_input"])) o' v' Hj Hf Hget. subst j.
  apply z_enum1 in Hf as ->. apply get_str_Some in Hget. unfold blocking_of_json. rewrite Hget.
  field_of Hz (req "itemId" (z_regex ItemIdSchema)) o1 v1 Hj1 Hf1 Hget1. injection Hj1 as <-.
  field_of Hz (req "requestId" (z_string 1 160)) o2 v2 Hj2 Hf2 Hget2. injection Hj2 as <-.
  apply z_regex_str in Hf1 as (i & -> & Hi). apply z_string_str in Hf2 as (r & -> & Hr).
  rewrite (get_str_Some _ _ _ Hget1), (get_str_Some _ _ _ Hget2). cbn. intros [= <-].
  cbn. by rewrite Hi, Hr.
Qed.

Lemma blocking_alt_retry o j b :
  z_object [req "kind" (z_enum ["retry_scheduled"]);
            req "runAttemptId" (z_regex RunAttemptIdSchema)] (JObj o) = Some j ->
  blocking_of_json j = Some b -> valid_blocking b = true.
Proof.
  intros Hz. field_of Hz (req "kind" (z_enum ["retry_scheduled"])) o' v' Hj Hf Hget. subst j.
  apply z_enum1 in Hf as ->. apply get_str_Some in Hget. unfold blocking_of_json. rewrite Hget.
  field_of Hz (req "runAttemptId" (z_regex RunAttemptIdSchema)) o1 v1 Hj1 Hf1 Hget1. injection Hj1 as <-.
  apply z_regex_str in Hf1 as (i & -> & Hi). rewrite (get_str_Some _ _ _ Hget1). cbn.
  intros [= <-]. cbn. by rewrite Hi.
Qed.

Lemma parse_blocking_valid j b : parse_blocking j = Some b -> valid_blocking b = true.
Proof.
  unfold parse_blocking. intros Hb. apply bind_Some in Hb as (j' & Hz & Hb).
  unfold TurnBlockingStateSchema, z_tagged_union in Hz. destruct j as [| | | | |o]; try done.
  destruct (dget "kind" o) as [[| | |tag| |]|] eqn:Hk; try done. cbn [dget] in Hz.
  repeat case_decide.
  - by rewrite (blocking_alt_none _ _ _ Hz Hb).
  - by eapply blocking_alt_approval.
  - by eapply blocking_alt_input.
  - by eapply blocking_alt_retry.
  - done.
Qed.

(** What [LifecycleProjectionSnapshotSchema] asks of an outcome. *)
Definition outcome_valid (o : TurnTerminalOutcome) : bool :=
  match o with
  | to_completed => true
  | to_interrupted r => (1 <=? str_length r) && (str_length r <=? 2000)
  | to_failed f => is_some (ProtocolErrorSchema (json_of_failure f))
  end.

Lemma interrupted_outcome_valid j o :
  InterruptedTurnOutcomeSchema j = Some j -> outcome_of_json j = Some o -> outcome_valid o = true.
Proof.
  unfold InterruptedTurnOutcomeSchema. destruct j as [| | | | |d]; try done. intros Hz.
  field_of Hz (req "status" (z_enum ["interrupted"])) o' v' Hj Hf Hget. injection Hj as <-.
  apply z_enum1 in Hf as ->. apply get_str_Some in Hget. unfold outcome_of_json. rewrite Hget.
  field_of Hz (req "reason" (z_string 1 2000)) o1 v1 Hj1 Hf1 Hget1. injection Hj1 as <-.
  apply z_string_str in Hf1 as (r & -> & Hr). rewrite (get_str_Some _ _ _ Hget1). cbn.
  by intros [= <-].
Qed.

Lemma completed_outcome_valid j o :
  CompletedTurnOutcomeSchema j = Some j -> outcome_of_json j = Some o -> outcome_valid o = true.
Proof.
  unfold CompletedTurnOutcomeSchema. destruct j as [| | | | |d]; try done. intros Hz.
  field_of Hz (req "status" (z_enum ["completed"])) o' v' Hj Hf Hget. injection Hj as <-.
  apply z_enum1 in Hf as ->. apply get_str_Some in Hget. unfold outcome_of_json. rewrite Hget.
  by intros [= <-].
Qed.

#[local] Arguments z_enum _ _ : simpl never.
#[local] Arguments z_string _ _ _ : simpl never.
#[local] Arguments z_nullable _ _ : simpl never.

Lemma failure_valid j f :
  ProtocolErrorSchema j = Some j -> failure_of_json j = Some f ->
  is_some (ProtocolErrorSchema (json_of_failure f)) = true.
Proof.
  destruct j as [| | | | |d]; try done. intros Hz. unfold ProtocolErrorSchema in Hz.
  field_of Hz (req "code" (z_enum ProtocolErrorCodeSchema)) o1 v1 Hj1 Hf1 Hget1. injection Hj1 as <-.
  field_of Hz (req "message" (z_string 1 10000)) o2 v2 Hj2 Hf2 Hget2. injection Hj2 as <-.
  field_of Hz (req "correlationId" (z_nullable (z_string 1 200))) o3 v3 Hj3 Hf3 Hget3. injection Hj3 as <-.
  unfold failure_of_json, get_str, get_nullable_str, get_nullable_rec. rewrite Hget1, Hget2, Hget3.
  assert (Hc : z_enum ProtocolErrorCodeSchema v1 = Some v1) by exact (z_test_idempotent _ _ _ Hf1).
  assert (Hm : z_string 1 10000 v2 = Some v2) by exact (z_test_idempotent _ _ _ Hf2).
  assert (Hi : z_nullable (z_string 1 200) v3 = Some v3).
  { apply (z_nullable_idempotent _ (z_test_idempotent _) _ _ Hf3). }
  destruct v1 as [| | |c| |]; try done. destruct v2 as [| | |m| |]; try done.
  destruct (dget "retryable" d) as [[|r| | | |]|]; try (by destruct v3).
  destruct v3 as [| | |ci| |]; try done;
    destruct (dget "details" d) as [[| | | | |de]|]; try done; intros [= <-];
    unfold ProtocolErrorSchema, json_of_failure, z_object; simpl; unfold parse_field; simpl;
    rewrite Hc, Hm; simpl; rewrite ?Hi; done.
Qed.

Lemma failed_outcome_valid j o :
  FailedTurnOutcomeSchema j = Some j -> outcome_of_json j = Some o -> outcome_valid o = true.
Proof.
  unfold FailedTurnOutcomeSchema. destruct j as [| | | | |d]; try done. intros Hz.
  field_of Hz (req "status" (z_enum ["failed"])) o' v' Hj Hf Hget. injection Hj as <-.
  apply z_enum1 in Hf as ->. apply get_str_Some in Hget. unfold outcome_of_json. rewrite Hget.
  field_of Hz (req "failure" ProtocolErrorSchema) o1 v1 Hj1 Hf1 Hget1. injection Hj1 as <-.
  rewrite Hget1. apply ProtocolErrorSchema_idempotent in Hf1. cbn. destruct (failure_of_json v1) as [f|] eqn:Hfj; [|done].
  intros [= <-]. by eapply failure_valid.
Qed.

Lemma terminal_outcome_valid `{JsRuntime} e o :
  parse_event e = Ok e -> is_terminal_turn_event (type e) = true ->
  dget "outcome" (payload e) ≫= outcome_of_json = Some o -> outcome_valid o = true.
Proof.
  intros Hp Ht Ho. apply parse_event_inv in Hp as (sh & pl & Hsh & _ & _ & _ & _ & _ & Hpl & He).
  apply (f_equal payload) in He. cbn in He. subst pl.
  apply bind_Some in Ho as (j & Hj & Ho).
  assert (Hcase : forall S, z_object [req "outcome" S] (JObj (payload e)) = Some (JObj (payload e)) ->
    S j = Some j).
  { intros S Hz. field_of Hz (req "outcome" S) o' v' Hjo Hf Hget. injection Hjo as <-.
    cbn in Hv. congruence. }
  unfold is_terminal_turn_event in Ht. apply bool_decide_eq_true in Ht.
  rewrite !elem_of_cons, elem_of_nil in Ht. destruct Ht as [Ht|[Ht|[Ht|[]]]]; rewrite Ht in Hsh.
  - change (Some (turn_shape (z_object [req "outcome" CompletedTurnOutcomeSchema])) = Some sh) in Hsh.
    injection Hsh as <-. eapply completed_outcome_valid; [by apply Hcase|done].
  - change (Some (turn_shape (z_object [req "outcome" FailedTurnOutcomeSchema])) = Some sh) in Hsh.
    injection Hsh as <-. eapply failed_outcome_valid; [by apply Hcase|done].
  - change (Some (turn_shape (z_object [req "outcome" InterruptedTurnOutcomeSchema])) = Some sh) in Hsh.
    injection Hsh as <-. eapply interrupted_outcome_valid; [by apply Hcase|done].
Qed.

(** * The invariant of the projection *)

Definition item_ok (kv : string * LifecycleItemProjection) : Prop :=
  ip_itemId (snd kv) = fst kv /\ fst kv <> "" /\ ip_kind (snd kv) ∈ ItemKindSchema /\
  ip_status (snd kv) <> it_not_started /\ 0 <= ip_lastSequence (snd kv).
Definition tool_ok (kv : string * LifecycleToolCallProjection) : Prop :=
  tp_toolCallId (snd kv) = fst kv /\ fst kv <> "" /\ tp_itemId (snd kv) <> "" /\
  tp_status (snd kv) <> it_not_started /\ 0 <= tp_lastSequence (snd kv).
Definition approval_ok (kv : string * LifecycleApprovalProjection) : Prop :=
  ap_approvalId (snd kv) = fst kv /\ fst kv <> "" /\ ap_itemId (snd kv) <> "" /\
  0 <= ap_lastSequence (snd kv).
Definition request_ok (kv : string * LifecycleRequestProjection) : Prop :=
  rp_requestId (snd kv) = fst kv /\ fst kv <> "" /\ rp_itemId (snd kv) <> "" /\
  0 <= rp_lastSequence (snd kv).

(** The parts of a projection are filed under their own ids. *)
Record parts_ok (p : MutableProjection) : Prop := {
  po_items : Forall item_ok (p_items p);
  po_tools : Forall tool_ok (p_toolCalls p);
  po_approvals : Forall approval_ok (p_approvals p);
  po_requests : Forall request_ok (p_requests p);
}.

(** The turn itself: ended exactly when it has an outcome, and then settled. *)
Record turn_ok (p : MutableProjection) : Prop := {
  to_turn : p_turnId p <> "";
  to_blocking : valid_blocking (p_blockingState p) = true;
  to_outcome : match p_terminalOutcome p with
    | None => isTerminalTurnStatus (p_status p) = false
    | Some o => outcome_valid o = true /\
        settled (mkTerminalSettlementInput (p_status p) (Some o) (p_blockingState p)
          (dmap ip_status (p_items p)) (dmap ap_status (p_approvals p))) /\
        assertNoActiveToolsOrRequests p = Ok tt
    end;
}.

Lemma Forall_dset {V} (P : string * V -> Prop) k v (d : dict V) :
  P (k, v) -> Forall P d -> Forall P (dset k v d).
Proof.
  intros Hv Hd. induction Hd as [|[k' v'] d Hk Hd IH]; cbn; [by repeat constructor|].
  case_decide; subst; by constructor.
Qed.

Lemma Forall_dget {V} (P : string * V -> Prop) k v (d : dict V) :
  Forall P d -> dget k d = Some v -> P (k, v).
Proof. intros Hd Hk. rewrite Forall_forall in Hd. by apply Hd, dget_elem. Qed.

(** The handlers of the parts leave the turn's own fields alone. *)
Definition same_turn (p p' : MutableProjection) : Prop :=
  p_turnId p' = p_turnId p /\ p_status p' = p_status p /\
  p_blockingState p' = p_blockingState p /\ p_terminalOutcome p' = p_terminalOutcome p /\
  p_lastSequence p' = p_lastSequence p.

#[export] Instance same_turn_preorder : PreOrder same_turn.
Proof. split; [by intros p|]. intros p1 p2 p3 (?&?&?&?&?) (?&?&?&?&?). split_and!; congruence. Qed.

Definition part_step (p p' : MutableProjection) : Prop :=
  same_turn p p' /\ (parts_ok p -> parts_ok p').

Lemma part_step_refl p : part_step p p.
Proof. by split. Qed.

Lemma part_set_item i it p : item_ok (i, it) -> part_step p (p_set_item i it p).
Proof. intros Hi. split; [by split_and!|]. intros []. split; try done. by apply Forall_dset. Qed.
Lemma part_set_tool t it p : tool_ok (t, it) -> part_step p (p_set_tool t it p).
Proof. intros Hi. split; [by split_and!|]. intros []. split; try done. by apply Forall_dset. Qed.
Lemma part_set_approval a it p : approval_ok (a, it) -> part_step p (p_set_approval a it p).
Proof. intros Hi. split; [by split_and!|]. intros []. split; try done. by apply Forall_dset. Qed.
Lemma part_set_request r it p : request_ok (r, it) -> part_step p (p_set_request r it p).
Proof. intros Hi. split; [by split_and!|]. intros []. split; try done. by apply Forall_dset. Qed.

(** Updating a part that is there. *)
Lemma part_update_item i it it' p :
  dget i (p_items p) = Some it -> (item_ok (i, it) -> item_ok (i, it')) -> part_step p (p_set_item i it' p).
Proof.
  intros Hi Hok. split; [by split_and!|]. intros []. split; try done.
  apply Forall_dset; [|done]. by eapply Hok, Forall_dget.
Qed.
Lemma part_update_tool i it it' p :
  dget i (p_toolCalls p) = Some it -> (tool_ok (i, it) -> tool_ok (i, it')) -> part_step p (p_set_tool i it' p).
Proof.
  intros Hi Hok. split; [by split_and!|]. intros []. split; try done.
  apply Forall_dset; [|done]. by eapply Hok, Forall_dget.
Qed.
Lemma part_update_approval i it it' p :
  dget i (p_approvals p) = Some it -> (approval_ok (i, it) -> approval_ok (i, it')) ->
  part_step p (p_set_approval i it' p).
Proof.
  intros Hi Hok. split; [by split_and!|]. intros []. split; try done.
  apply Forall_dset; [|done]. by eapply Hok, Forall_dget.
Qed.
Lemma part_update_request i it it' p :
  dget i (p_requests p) = Some it -> (request_ok (i, it) -> request_ok (i, it')) ->
  part_step p (p_set_request i it' p).
Proof.
  intros Hi Hok. split; [by split_and!|]. intros []. split; try done.
  apply Forall_dset; [|done]. by eapply Hok, Forall_dget.
Qed.

Lemma ITEM_TRANSITIONS_started from to : to ∈ ITEM_TRANSITIONS from -> to <> it_not_started.
Proof. destruct from; set_solver. Qed.

Section PartSteps.
Context `{JsRuntime} (e : LifecycleEvent).
Hypothesis Hp : parse_event e = Ok e.
Hypothesis Hseq : 0 <= sequence e.

Lemma parsed_item_nonempty i : itemId e = Some i -> i <> "".
Proof.
  intros Hi. apply parse_event_inv in Hp as (sh & pl & _ & _ & Hpi & _). rewrite Hi in Hpi.
  by eapply present_item, prefixed_id_nonempty in Hpi.
Qed.

Notation steps m := (forall p, wp m (fun _ p' => part_step p p') (fun _ _ => True) p).

Lemma applyItem_part : steps (applyItem e).
Proof.
  intros p. unfold applyItem. destruct (itemId e) as [[|c i]|]; try apply part_step_refl.
  set (it := String c i). case_decide.
  - apply wp_bind, wp_lift; [|done]. intros kind Hk. apply part_set_item.
    unfold parse_kind in Hk. destruct (dget _ _) as [[| | |k| |]|]; try done.
    case_decide; [|done]. injection Hk as <-. by split_and!.
  - apply wp_bind, wp_gets.
    destruct (dget it (p_items p)) as [item|] eqn:Hi; [|apply part_step_refl].
    apply wp_bind. destruct (itemTerminalStatus (type e)) as [st|].
    + apply wp_lift; [|done]. intros next Hn. apply transition_ok in Hn as [-> Hn].
      apply ITEM_TRANSITIONS_started in Hn.
      eapply part_update_item; [done|]. intros (? & ? & ? & ? & ?). by split_and!.
    + apply wp_ret. eapply part_update_item; [done|]. intros (? & ? & ? & ? & ?). by split_and!.
Qed.

Lemma applyToolCall_part : steps (applyToolCall e).
Proof.
  intros p. unfold applyToolCall. destruct (toolCallId e) as [[|c t]|]; try apply part_step_refl.
  destruct (itemId e) as [i|] eqn:Hitem; [|apply part_step_refl].
  apply parsed_item_nonempty in Hitem. set (tc := String c t). case_decide.
  - by apply part_set_tool.
  - apply wp_bind, wp_gets.
    destruct (dget tc (p_toolCalls p)) as [tool|] eqn:Hi; [|apply part_step_refl].
    apply wp_bind. destruct (toolTerminalStatus (type e)) as [st|].
    + apply wp_lift; [|done]. intros next Hn. apply transition_ok in Hn as [-> Hn].
      apply ITEM_TRANSITIONS_started in Hn.
      eapply part_update_tool; [done|]. intros (? & ? & ? & ? & ?). by split_and!.
    + apply wp_ret. eapply part_update_tool; [done|]. intros (? & ? & ? & ? & ?). by split_and!.
Qed.

Lemma applyApproval_part : steps (applyApproval e).
Proof.
  intros p. unfold applyApproval. destruct (approvalId e) as [[|c a]|]; try apply part_step_refl.
  destruct (itemId e) as [i|] eqn:Hitem; [|apply part_step_refl].
  apply parsed_item_nonempty in Hitem. case_decide; [by apply part_set_approval|].
  case_decide; [|apply part_step_refl]. apply wp_bind, wp_gets.
  destruct (dget _ (p_approvals p)) as [cur|] eqn:Hi; [|apply part_step_refl].
  apply wp_bind, wp_lift; [|done]. intros next _.
  eapply part_update_approval; [done|]. intros (? & ? & ? & ?). by split_and!.
Qed.

Lemma applyRequest_part : steps (applyRequest e).
Proof.
  intros p. unfold applyRequest. destruct (requestId e) as [[|c a]|]; try apply part_step_refl.
  destruct (itemId e) as [i|] eqn:Hitem; [|apply part_step_refl].
  apply parsed_item_nonempty in Hitem. case_decide; [by apply part_set_request|].
  case_decide; [|apply part_step_refl]. apply wp_bind, wp_gets.
  destruct (dget _ (p_requests p)) as [cur|] eqn:Hi; [|apply part_step_refl].
  eapply part_update_request; [done|]. intros (? & ? & ? & ?). by split_and!.
Qed.
End PartSteps.

(** * The invariant is kept *)

Definition projection_ok (p : MutableProjection) : Prop :=
  turn_ok p /\ parts_ok p /\ 0 <= p_lastSequence p.

Definition same_parts (p p' : MutableProjection) : Prop :=
  p_items p' = p_items p /\ p_toolCalls p' = p_toolCalls p /\
  p_approvals p' = p_approvals p /\ p_requests p' = p_requests p /\
  p_lastSequence p' = p_lastSequence p.

Lemma same_parts_ok p p' : same_parts p p' -> parts_ok p -> parts_ok p'.
Proof. intros (H1 & H2 & H3 & H4 & _) []. split; congruence. Qed.

Lemma same_turn_ok p p' :
  same_turn p p' -> p_terminalOutcome p = None -> turn_ok p -> turn_ok p'.
Proof.
  intros (H1 & H2 & H3 & H4 & _) Hn [Ht Hb Ho]. split; [congruence|congruence|].
  rewrite H4, Hn, H2. by rewrite Hn in Ho.
Qed.

Lemma TURN_TRANSITIONS_live from to :
  to ∈ TURN_TRANSITIONS from -> to = in_progress \/ to = awaiting_approval ->
  isTerminalTurnStatus to = false.
Proof. intros _ [-> | ->]; done. Qed.

Section TurnStep.
Context `{JsRuntime} (e : LifecycleEvent).
Hypothesis Hp : parse_event e = Ok e.

Definition turn_post (p p' : MutableProjection) : Prop :=
  turn_ok p' /\ same_parts p p' /\
  (is_some (p_terminalOutcome p') = true -> is_terminal_turn_event (type e) = true).

Lemma turn_post_live p p' st b r :
  turn_ok p -> p_terminalOutcome p = None -> isTerminalTurnStatus st = false ->
  valid_blocking b = true ->
  p' = p_set_revision r (p_set_blocking b (p_set_status st p)) -> turn_post p p'.
Proof.
  intros [Ht Hb Ho] Hn Hst Hv ->. split; [|split; [by split_and!|by cbn; rewrite Hn]].
  split; cbn; [done|done|]. by rewrite Hn.
Qed.

Lemma applyTerminal_ok p :
  is_terminal_turn_event (type e) = true -> turn_ok p -> p_terminalOutcome p = None ->
  wp (applyTerminal e) (fun _ => turn_post p) (fun _ _ => True) p.
Proof.
  intros Hty [Ht Hb Ho] Hn. unfold applyTerminal. apply wp_bind, wp_gets. unfold id.
  destruct (dget "outcome" (payload e) ≫= outcome_of_json) as [o|] eqn:Hout; [|done].
  apply terminal_outcome_valid in Hout; [|done|done].
  apply wp_bind, wp_lift; [|done]. intros next Htr. apply transition_ok in Htr as [-> _].
  apply wp_bind, wp_lift; [|done]. intros [] Hset. apply settlement_iff in Hset.
  apply wp_bind, wp_lift; [|done]. intros [] Hact.
  apply wp_bind, wp_modify, wp_modify. split; [|split; [by split_and!|done]].
  split; cbn; [done|done|]. by split_and!.
Qed.

Lemma applyTurn_ok p :
  turn_ok p -> p_terminalOutcome p = None ->
  wp (applyTurn e) (fun _ => turn_post p) (fun _ _ => True) p.
Proof.
  intros Hok Hn. pose proof Hok as [Ht Hb Ho]. rewrite Hn in Ho. unfold applyTurn.
  case_decide; [|case_decide].
  - apply wp_bind, wp_gets, wp_bind, wp_lift; [|done].
    intros next Htr. apply transition_ok in Htr as [-> _].
    apply wp_bind, wp_modify. case_decide; [apply wp_ret|apply wp_modify].
    + by eapply (turn_post_live p _ in_progress (p_blockingState p) (p_revisionOfTurnId p)).
    + by eapply (turn_post_live p _ in_progress (p_blockingState p)).
  - apply wp_bind, wp_lift; [|done]. intros b Hpb.
    destruct (dget "blockingState" (payload e) ≫= parse_blocking) as [b'|] eqn:Hd; [|done].
    injection Hpb as ->. apply bind_Some in Hd as (j & _ & Hv%parse_blocking_valid).
    apply wp_bind, wp_modify, wp_bind, wp_gets. cbn [p_status p_set_blocking].
    assert (Hkeep : turn_post p (p_set_blocking b p))
      by by eapply (turn_post_live p _ (p_status p) b (p_revisionOfTurnId p)).
    assert (Hmove : forall st, isTerminalTurnStatus st = false ->
      turn_post p (p_set_status st (p_set_blocking b p)))
      by (intros st Hst; by eapply (turn_post_live p _ st b (p_revisionOfTurnId p))).
    destruct b; try (case_decide; [|by apply wp_ret]); (apply wp_bind, wp_lift; [|done]);
      intros next Htr; apply transition_ok in Htr as [-> _]; apply wp_modify; by apply Hmove.
  - destruct (is_terminal_turn_event (type e)) eqn:Hty; [by apply applyTerminal_ok|].
    apply wp_ret. split; [done|]. split; [by split_and!|by rewrite Hn].
Qed.

(** A terminal event names no item, so that it touches the turn alone. *)
Lemma terminal_event_bare : is_terminal_turn_event (type e) = true -> itemId e = None.
Proof.
  intros Ht. apply parse_event_inv in Hp as (sh & pl & Hsh & _ & Hi & _).
  unfold is_terminal_turn_event in Ht. apply bool_decide_eq_true in Ht.
  rewrite !elem_of_cons, elem_of_nil in Ht.
  assert (sh_item sh = Absent) as Ha.
  { destruct Ht as [Ht|[Ht|[Ht|[]]]]; rewrite Ht in Hsh;
      change (dget _ event_shapes) with (Some sh) in Hsh || (vm_compute in Hsh; injection Hsh as <-; done). }
  rewrite Ha in Hi. by destruct (itemId e).
Qed.
End TurnStep.

Section EventStep.
Context `{JsRuntime} (e : LifecycleEvent).
Hypothesis Hp : parse_event e = Ok e.

Lemma apply_parts_bare p :
  itemId e = None ->
  applyItem e p = (Ok tt, p) /\ applyToolCall e p = (Ok tt, p) /\
  applyApproval e p = (Ok tt, p) /\ applyRequest e p = (Ok tt, p).
Proof.
  intros Hi. unfold applyItem, applyToolCall, applyApproval, applyRequest. rewrite Hi.
  destruct (toolCallId e) as [[]|], (approvalId e) as [[]|], (requestId e) as [[]|]; done.
Qed.

Lemma apply_event_ok p :
  projection_ok p ->
  wp (applyLifecycleProjectionEvent e) (fun _ => projection_ok) (fun _ _ => True) p.
Proof.
  intros (Hturn & Hparts & Hlast). unfold applyLifecycleProjectionEvent.
  apply wp_bind, wp_gets, wp_bind, wp_lift; [|done]. intros [] Henv.
  apply assertEnvelope_ok in Henv as (_ & Hseq & Hnone). unfold id in Hseq, Hnone.
  assert (Hnn : 0 <= sequence e) by lia.
  apply wp_bind. eapply wp_mono; [by apply applyTurn_ok| |done].
  intros _ p1 (Hturn1 & Hsame & Hterm). pose proof (same_parts_ok _ _ Hsame Hparts) as Hparts1.
  assert (Hend : forall p', turn_ok p' -> parts_ok p' ->
    projection_ok (p_set_lastSequence (sequence e) p')).
  { intros p' [] []. split; [by split|]. by split. }
  destruct (p_terminalOutcome p1) eqn:Ho.
  - apply terminal_event_bare in Hterm; [|done..].
    destruct (apply_parts_bare p1 Hterm) as (H1 & H2 & H3 & H4).
    unfold wp, mbind, ST_bind, modify. rewrite H1, H2, H3, H4. by apply Hend.
  - apply wp_bind. eapply wp_mono; [by apply applyItem_part| |done]. intros _ p2 [Hs2 Hk2].
    apply wp_bind. eapply wp_mono; [by apply applyToolCall_part| |done]. intros _ p3 [Hs3 Hk3].
    apply wp_bind. eapply wp_mono; [by apply applyApproval_part| |done]. intros _ p4 [Hs4 Hk4].
    apply wp_bind. eapply wp_mono; [by apply applyRequest_part| |done]. intros _ p5 [Hs5 Hk5].
    apply wp_modify, Hend; [|auto]. eapply same_turn_ok; [|exact Ho|done].
    transitivity p2; [done|]. transitivity p3; [done|]. by transitivity p4.
Qed.
End EventStep.

Lemma project_from_ok `{JsRuntime} es p p' :
  projection_ok p -> Forall (fun e => parse_event e = Ok e) es ->
  project_from p es = Ok p' -> projection_ok p'.
Proof.
  intros Hok Hes. revert p Hok. induction Hes as [|e es He _ IH]; intros p Hok Hr.
  - by injection Hr as <-.
  - change (e :: es) with ([e] ++ es) in Hr. rewrite project_from_app in Hr.
    destruct (project_from p [e]) as [p1|] eqn:H1; [|done]. apply (IH p1); [|done].
    pose proof (apply_event_ok e He p Hok) as Hwp. unfold wp in Hwp.
    unfold project_from in H1. cbn in H1. unfold mbind, ST_bind in H1.
    destruct (applyLifecycleProjectionEvent e p) as [[[]|] p2]; [|done]. by injection H1 as <-.
Qed.

Lemma create_ok t : t <> "" -> projection_ok (createState t).
Proof. intros Ht. split; [by split|]. by split; [split|]. Qed.

Lemma forallb_dvals {V} (f : V -> bool) (d : dict V) :
  Forall (fun kv => f (snd kv) = true) d -> forallb f (dvals d) = true.
Proof.
  intros Hd. apply forallb_forall. intros v Hv. unfold dvals in Hv. apply in_map_iff in Hv as (kv & <- & Hin).
  rewrite Forall_forall in Hd. by apply Hd, list_elem_of_In.
Qed.

Lemma nonempty_bool (s : string) : s <> "" -> negb (bool_decide (s = "")) = true.
Proof. intros Hs. by rewrite bool_decide_eq_false_2. Qed.

Lemma projection_snapshot p : projection_ok p -> snapshot p = Ok p.
Proof.
  intros ([Ht Hb Ho] & [Hi Htl Ha Hr] & Hl). unfold snapshot.
  assert (snapshot_valid p = true) as ->; [|done]. unfold snapshot_valid.
  rewrite !andb_true_iff. split_and!; auto using nonempty_bool; [| | | | |by apply Z.leb_le].
  - by destruct (p_terminalOutcome p) as [[]|]; try destruct Ho as [Hv _].
  - apply forallb_dvals. eapply Forall_impl; [exact Hi|]. intros kv (He & Hne & Hk & _ & Hs).
    rewrite He, nonempty_bool, bool_decide_eq_true_2 by done. by apply Z.leb_le.
  - apply forallb_dvals. eapply Forall_impl; [exact Htl|]. intros kv (He & Hne & Hk & _ & Hs).
    rewrite He, !nonempty_bool by done. by apply Z.leb_le.
  - apply forallb_dvals. eapply Forall_impl; [exact Ha|]. intros kv (He & Hne & Hk & Hs).
    rewrite He, !nonempty_bool by done. by apply Z.leb_le.
  - apply forallb_dvals. eapply Forall_impl; [exact Hr|]. intros kv (He & Hne & Hk & Hs).
    rewrite He, !nonempty_bool by done. by apply Z.leb_le.
Qed.

(** * Folding event by event *)

Section Incremental.
Context `{JsRuntime}.

Lemma LifecycleProjector_apply_ok e p p' :
  parse_event e = Ok e -> projection_ok p ->
  applyLifecycleProjectionEvent e p = (Ok tt, p') ->
  LifecycleProjector_apply e p = (Ok p', p') /\ projection_ok p'.
Proof.
  intros He Hok Ha. pose proof (apply_event_ok e He p Hok) as Hwp. unfold wp in Hwp. rewrite Ha in Hwp.
  split; [|done]. unfold LifecycleProjector_apply, mbind, ST_bind, gets, lift, id. rewrite Ha.
  by rewrite projection_snapshot.
Qed.

Lemma project_from_cons p e es :
  project_from p (e :: es) =
  match applyLifecycleProjectionEvent e p with
  | (Ok _, p') => project_from p' es
  | (Err err, _) => Err err
  end.
Proof.
  unfold project_from. cbn. unfold mbind, ST_bind.
  by destruct (applyLifecycleProjectionEvent e p) as [[]].
Qed.

Lemma project_steps es p0 p :
  projection_ok p0 -> Forall (fun e => parse_event e = Ok e) es ->
  project_from p0 es = Ok p ->
  exists snaps, map_of es LifecycleProjector_apply p0 = (Ok snaps, p) /\
    length snaps = length es /\
    forall i q, snaps !! i = Some q -> project_from p0 (take (S i) es) = Ok q.
Proof.
  intros Hok Hes. revert p0 Hok. induction Hes as [|e es He _ IH]; intros p0 Hok Hr.
  - injection Hr as <-. by exists [].
  - rewrite project_from_cons in Hr.
    destruct (applyLifecycleProjectionEvent e p0) as [[[]|] p1] eqn:Ha; [|done].
    destruct (LifecycleProjector_apply_ok e p0 p1 He Hok Ha) as [Happ Hok1].
    destruct (IH p1 Hok1 Hr) as (snaps & Hmap & Hlen & Hsnap). exists (p1 :: snaps).
    rewrite map_of_cons, Happ, Hmap. split_and!; [done|cbn; lia|].
    intros [|i] q Hq; cbn [take]; rewrite project_from_cons, Ha.
    + injection Hq as <-. by destruct es.
    + by apply Hsnap.
Qed.

Lemma steps_project es p0 p snaps :
  map_of es LifecycleProjector_apply p0 = (Ok snaps, p) -> project_from p0 es = Ok p.
Proof.
  revert p0 snaps. induction es as [|e es IH]; intros p0 snaps; [by intros [= _ <-]|].
  rewrite map_of_cons, project_from_cons. unfold LifecycleProjector_apply at 1.
  unfold mbind at 1, ST_bind at 1.
  destruct (applyLifecycleProjectionEvent e p0) as [[[]|] p1]; [|done].
  unfold mbind at 1, ST_bind at 1, gets, lift. destruct (snapshot (id p1)) as [s|]; [|done].
  destruct (map_of es LifecycleProjector_apply p1) as [[r|] p2] eqn:Hm; [|done].
  intros [= _ <-]. by eapply IH.
Qed.

Lemma parsed_turn_nonempty e : parse_event e = Ok e -> turnId e <> "".
Proof.
  intros Hp. apply parse_event_inv in Hp as (sh & pl & _ & Henv & _). unfold LifecycleEventEnvelopeShape in Henv.
  rewrite !andb_true_iff in Henv. destruct_and!. by eapply (prefixed_id_nonempty "trn").
Qed.

Lemma project_whole e es :
  Forall (fun e => parse_event e = Ok e) (e :: es) ->
  projectLifecycleEvents (e :: es) =
  match project_from (createState (turnId e)) (e :: es) with
  | Ok p => Ok (Some p)
  | Err err => Err err
  end.
Proof.
  intros Hes. unfold projectLifecycleEvents.
  destruct (project_from (createState (turnId e)) (e :: es)) as [p|] eqn:Hr; [|done].
  rewrite projection_snapshot; [done|]. eapply project_from_ok; [|exact Hes|exact Hr].
  apply create_ok, parsed_turn_nonempty. by apply Forall_cons in Hes as [? _].
Qed.
End Incremental.

(** A small turn: started, one item answered, completed. *)
Definition sample_event (n : Z) (ty : string) (i : option string) (pl : JsonRecord) : LifecycleEvent :=
  mkEvent ("evt_demo01_" +:+ Number_toString n) "thr_demo01" "trn_demo01" "attempt_demo01" n
    ("trn_demo01:" +:+ Number_toString n) "kernel" 1 "2025-01-01T00:00:00.000Z" ty
    i None None None pl.

Definition sample_turn : list LifecycleEvent :=
  [sample_event 1 "turn.queued" None []; sample_event 2 "turn.started" None [];
   sample_event 3 "item.started" (Some "itm_answer1") [("kind", JStr "assistant_message")];
   sample_event 4 "assistant_message.delta" (Some "itm_answer1") [("delta", JStr "hello")];
   sample_event 5 "item.completed" (Some "itm_answer1") [("result", JObj [])];
   sample_event 6 "turn.completed" None [("outcome", JObj [("status", JStr "completed")])]].

Lemma sample_parsed : let _ := iso_runtime in Forall (fun e => parse_event e = Ok e) sample_turn.
Proof. intros R. repeat constructor. Qed.

(** * Properties *)

(** C19. A projected turn is settled exactly when it has ended: while it has no
    outcome its status is not terminal; once it has one, the status is that
    outcome's, nothing blocks it, every item is closed, every approval decided, no
    tool call or request is open, and no further event is accepted. *)
Theorem projected_turn_settled `{JsRuntime} events p :
  Forall (fun e => parse_event e = Ok e) events ->
  projectLifecycleEvents events = Ok (Some p) ->
  match p_terminalOutcome p with
  | None => isTerminalTurnStatus (p_status p) = false
  | Some o =>
      p_status p = outcome_status o /\ p_blockingState p = b_none /\
      Forall (fun kv => isTerminalItemStatus (ip_status (snd kv)) = true) (p_items p) /\
      Forall (fun kv => isTerminalApprovalStatus (ap_status (snd kv)) = true) (p_approvals p) /\
      assertNoActiveToolsOrRequests p = Ok tt /\
      forall e, is_ok (fst (applyLifecycleProjectionEvent e p)) = false
  end.
Proof.
  intros Hes Hr. destruct events as [|e es]; [done|]. rewrite project_whole in Hr by done.
  destruct (project_from _ _) as [p'|] eqn:Hp; [|done]. injection Hr as ->.
  pose proof Hes as Hes'. apply Forall_cons in Hes' as [He _].
  destruct (project_from_ok _ _ _ (create_ok _ (parsed_turn_nonempty e He)) Hes Hp) as ([_ _ Ho] & _ & _).
  destruct (p_terminalOutcome p) as [o|] eqn:Hout; [|done].
  destruct Ho as (_ & (_ & Hst & Hb & Hi & Ha) & Hact). cbn in Hst, Hb, Hi, Ha.
  unfold dmap in Hi, Ha. rewrite Forall_map in Hi, Ha. split_and!; try done.
  - by injection Hst.
  - eapply Forall_impl; [exact Hi|]. by intros [].
  - eapply Forall_impl; [exact Ha|]. by intros [].
  - intros e'. unfold applyLifecycleProjectionEvent, mbind, ST_bind, gets, lift, id, assertEnvelope.
    rewrite Hout. by repeat case_match.
Qed.

Lemma projected_turn_settled_witness :
  let _ := iso_runtime in
  exists p, projectLifecycleEvents sample_turn = Ok (Some p) /\ p_terminalOutcome p = Some to_completed /\
    match p_terminalOutcome p with
    | None => isTerminalTurnStatus (p_status p) = false
    | Some o =>
        p_status p = outcome_status o /\ p_blockingState p = b_none /\
        Forall (fun kv => isTerminalItemStatus (ip_status (snd kv)) = true) (p_items p) /\
        Forall (fun kv => isTerminalApprovalStatus (ap_status (snd kv)) = true) (p_approvals p) /\
        assertNoActiveToolsOrRequests p = Ok tt /\
        forall e, is_ok (fst (applyLifecycleProjectionEvent e p)) = false
    end.
Proof.
  intros R. destruct (projectLifecycleEvents sample_turn) as [[p|]|] eqn:Hp;
    [|by vm_compute in Hp|by vm_compute in Hp].
  exists p. split; [done|]. split; [by vm_compute in Hp; injection Hp as <-|].
  exact (projected_turn_settled (H := R) sample_turn p sample_parsed Hp).
Defined.

(** C22. The projector never rejects its own output, and folding event by event
    agrees with projecting the whole history: a history projects to [p] exactly
    when applying its events one at a time succeeds and ends in [p], and then the
    snapshot after each event is the projection of the history up to it. *)
Theorem projector_incremental `{JsRuntime} e es p :
  Forall (fun e => parse_event e = Ok e) (e :: es) ->
  projectLifecycleEvents (e :: es) = Ok (Some p) <->
  exists snaps, map_of (e :: es) LifecycleProjector_apply (createState (turnId e)) = (Ok snaps, p) /\
    length snaps = length (e :: es) /\
    forall i q, snaps !! i = Some q -> projectLifecycleEvents (take (S i) (e :: es)) = Ok (Some q).
Proof.
  intros Hes. rewrite project_whole by done. pose proof Hes as Hes'. apply Forall_cons in Hes' as [He _].
  pose proof (create_ok _ (parsed_turn_nonempty e He)) as Hok. split.
  - destruct (project_from _ _) as [p'|] eqn:Hp; [|done]. intros [= ->].
    destruct (project_steps _ _ _ Hok Hes Hp) as (snaps & Hmap & Hlen & Hq).
    exists snaps. split_and!; [done|done|]. intros i q Hi. apply Hq in Hi. cbn [take] in Hi |- *.
    rewrite project_whole by (by apply (Forall_take _ (S i)) in Hes). by rewrite Hi.
  - intros (snaps & Hmap & _). apply steps_project in Hmap. by rewrite Hmap.
Qed.

Lemma projector_incremental_witness :
  let _ := iso_runtime in
  exists e es p, e :: es = sample_turn /\ projectLifecycleEvents sample_turn = Ok (Some p) /\
    exists snaps, map_of (e :: es) LifecycleProjector_apply (createState (turnId e)) = (Ok snaps, p) /\
      length snaps = length (e :: es) /\
      forall i q, snaps !! i = Some q -> projectLifecycleEvents (take (S i) (e :: es)) = Ok (Some q).
Proof.
  intros R. destruct (projectLifecycleEvents sample_turn) as [[p|]|] eqn:Hp;
    [|by vm_compute in Hp|by vm_compute in Hp].
  eexists _, _, p. split; [reflexivity|]. split; [done|].
  exact (proj1 (projector_incremental (H := R) _ _ p sample_parsed) Hp).
Defined.
