(* ===== verification/Simulation.v ===== *)
(** The coordinator and the projection agree: the events a coordinator writes
    project to its own state, also when an operation fails half way.  The
    relation [sim] reads the coordinator's fields off a projection; [tracks]
    says that the log of the turn projects to such a state; [op_contract] is
    what callers owe an operation (fresh item ids, an approval requested only
    while the turn is in progress). *)
From S2P Require Import Prelude Js Zod Protocol LifecycleEvents EventStore Coordinator Projector ProjectorFacts Sink.

(** * Who owns an item *)

(** Every tool call and every approval has an item; a tool call in progress
    keeps its item active, and shares it neither with another one nor with a
    pending approval. *)
Record own_ok (items tools : dict ItemStatus) (toolItems : dict string)
    (approvals : dict ApprovalStatus) (approvalItems : dict string) : Prop := {
  own_nodup : NoDup (dkeys tools);
  own_keys : dkeys tools = dkeys toolItems;
  own_started : forall t, dget t tools <> Some it_not_started;
  own_tool_item : forall t i, dget t toolItems = Some i -> is_Some (dget i items);
  own_active : forall t i, dget t tools = Some it_active -> dget t toolItems = Some i ->
    dget i items = Some it_active;
  own_inj : forall t t' i, dget t tools = Some it_active -> dget t' tools = Some it_active ->
    dget t toolItems = Some i -> dget t' toolItems = Some i -> t = t';
  own_approval_item : forall a i, dget a approvalItems = Some i -> is_Some (dget i items);
  own_disjoint : forall a t i, dget a approvals = Some ap_pending ->
    dget a approvalItems = Some i -> dget t tools = Some it_active ->
    dget t toolItems <> Some i;
}.

Definition owned (c : RuntimeLifecycleCoordinator) : Prop :=
  own_ok (c_itemStatuses c) (c_toolCallStatuses c) (c_toolCallItems c)
    (c_approvalStatuses c) (c_approvalItems c).

Ltac dget_cases :=
  repeat match goal with
  | H : context [dget _ (dset _ _ _)] |- _ => rewrite dget_dset in H
  | |- context [dget _ (dset _ _ _)] => rewrite dget_dset
  | H : context [decide (?x = ?y)] |- _ => destruct (decide (x = y))
  | |- context [decide (?x = ?y)] => destruct (decide (x = y))
  end; simplify_eq.

Ltac own_cases := intros []; split; auto; intros; dget_cases; eauto using NoDup_dset.

Section Own.
Context (items tools : dict ItemStatus) (toolItems : dict string).
Context (approvals : dict ApprovalStatus) (approvalItems : dict string).

Lemma own_start_item i :
  own_ok items tools toolItems approvals approvalItems ->
  own_ok (dset i it_active items) tools toolItems approvals approvalItems.
Proof. own_cases. Qed.

Lemma own_settle_item i st :
  (forall t, dget t tools = Some it_active -> dget t toolItems <> Some i) ->
  own_ok items tools toolItems approvals approvalItems ->
  own_ok (dset i st items) tools toolItems approvals approvalItems.
Proof. intros Hfree. own_cases. by edestruct Hfree. Qed.

Lemma dkeys_dset_congr {V W} (d : dict V) (d' : dict W) k v w :
  dkeys d = dkeys d' -> dkeys (dset k v d) = dkeys (dset k w d').
Proof.
  intros Heq. destruct (decide (k ∈ dkeys d)) as [Hk|Hk].
  - rewrite !dkeys_dset_old; [done|by rewrite <- Heq|done].
  - rewrite !dkeys_dset_new; [by rewrite Heq|by rewrite <- Heq|done].
Qed.

Lemma own_settle_tool t st :
  st <> it_not_started -> st <> it_active -> is_Some (dget t tools) ->
  own_ok items tools toolItems approvals approvalItems ->
  own_ok items (dset t st tools) toolItems approvals approvalItems.
Proof.
  intros Hst Hst' Ht. own_cases.
  - by rewrite dkeys_dset_old by by apply elem_dkeys.
  - congruence.
Qed.

Lemma own_start_tool t i :
  dget i items = Some it_active ->
  (forall t', dget t' toolItems <> Some i) -> (forall a, dget a approvalItems <> Some i) ->
  own_ok items tools toolItems approvals approvalItems ->
  own_ok items (dset t it_active tools) (dset t i toolItems) approvals approvalItems.
Proof.
  intros Hi Hfree Hfree'. own_cases.
  { by apply dkeys_dset_congr. }
  all: intros; try (intros ?; simplify_eq); exfalso;
    solve [eapply Hfree; eauto | eapply Hfree'; eauto].
Qed.

Lemma own_request_approval a i :
  is_Some (dget i items) -> (forall t, dget t toolItems <> Some i) ->
  own_ok items tools toolItems approvals approvalItems ->
  own_ok items tools toolItems (dset a ap_pending approvals) (dset a i approvalItems).
Proof. intros Hi Hfree. own_cases. Qed.

Lemma own_decide_approval a st :
  st <> ap_pending -> own_ok items tools toolItems approvals approvalItems ->
  own_ok items tools toolItems (dset a st approvals) approvalItems.
Proof. intros Hst. own_cases. Qed.

(** A fresh item has no owner. *)
Lemma fresh_unowned i :
  own_ok items tools toolItems approvals approvalItems -> dget i items = None ->
  (forall t, dget t toolItems <> Some i) /\ (forall a, dget a approvalItems <> Some i).
Proof.
  intros [] Hi. split.
  - intros t Ht. apply own_tool_item0 in Ht as [? Ht]. congruence.
  - intros a Ha. apply own_approval_item0 in Ha as [? Ha]. congruence.
Qed.

Lemma settled_no_active t st :
  own_ok items tools toolItems approvals approvalItems ->
  Forall (fun kv => isTerminalItemStatus (snd kv) = true) items ->
  (t, st) ∈ tools -> isTerminalItemStatus st = true.
Proof.
  intros Hown Hitems Ht. pose proof Hown as [Hnd Hkeys Hns _ Hactive _ _ _].
  apply elem_dget in Ht; [|done].
  destruct (decide (st = it_active)) as [->|Hna].
  - assert (is_Some (dget t toolItems)) as [i Hi].
    { apply elem_dkeys. rewrite <- Hkeys. by apply elem_dkeys. }
    pose proof (Hactive t i Ht Hi) as Hact. apply dget_elem in Hact.
    rewrite Forall_forall in Hitems. by apply Hitems in Hact.
  - destruct st; try done. by apply Hns in Ht.
Qed.
End Own.

(** * The relation *)

Section Simulation.
Context `{!JsRuntime} {K : Type} `{!LifecycleSink K, !LifecycleSinkLaws K}.
Variable options : RuntimeLifecycleCoordinatorOptions.
Let T := o_turnId options.
Notation Coord := RuntimeLifecycleCoordinator.

Record sim (c : Coord) (p : MutableProjection) : Prop := {
  sim_turn : p_turnId p = T;
  sim_status : p_status p = c_status c;
  sim_blocking : p_blockingState p = c_blockingState c;
  sim_items : dmap ip_status (p_items p) = c_itemStatuses c;
  sim_tools : dmap tp_status (p_toolCalls p) = c_toolCallStatuses c;
  sim_toolItems : dmap tp_itemId (p_toolCalls p) = c_toolCallItems c;
  sim_approvals : dmap ap_status (p_approvals p) = c_approvalStatuses c;
  sim_approvalItems : dmap ap_itemId (p_approvals p) = c_approvalItems c;
  sim_requests : dmap rp_status (p_requests p) = [];
  sim_sequence : p_lastSequence p = c_sequence c;
  sim_outcome : is_some (p_terminalOutcome p) = isTerminal c;
}.

#[export] Instance sim_proper c : Proper (pequiv ==> iff) (sim c).
Proof.
  intros p p' []. split; intros []; split; congruence.
Qed.

Definition tracks (c : Coord) (log : list LifecycleEvent) : Prop :=
  Z.of_nat (length log) = c_sequence c /\
  (isTerminal c = false -> live log) /\
  owned c /\
  exists p, project_from (createState T) log = Ok p /\ sim c p.

Definition log_of (w : World (K:=K)) : list LifecycleEvent := sink_log T (snd w).

Definition good (w : World (K:=K)) : Prop :=
  sink_inv (snd w) /\ tracks (fst w) (log_of w).

(** The coordinator after one event was appended. *)
Definition after (c : Coord) : Coord := set_sequence (c_sequence c + 1) (tick c).

Lemma tracks_tick c log : tracks c log -> tracks (tick c) log.
Proof.
  intros (Hlen & Hlive & Hown & p & Hp & []). split_and!; try done. exists p. split; [done|by split].
Qed.

Lemma good_tick c k : good (c, k) -> good (tick c, k).
Proof. intros [Hk Ht]. split; [done|by apply tracks_tick]. Qed.

Lemma draft_canonical c fields offset e :
  parse_event (draft_event options c fields offset) = Ok e ->
  turnId e = T /\ canonical e /\ parse_event e = Ok e /\ sequence e = c_sequence c + offset /\
  type e = ef_type fields.
Proof.
  intros Hp. pose proof (parse_event_idem _ _ Hp).
  apply parse_event_set in Hp as [pl ->]. by split_and!.
Qed.

Lemma createEvent_wp fields offset (c : Coord) (k : K) Q X :
  (forall e, parse_event (draft_event options c fields offset) = Ok e -> Q e (tick c, k)) ->
  (forall err, X err (tick c, k)) ->
  wp (createEvent options fields offset) Q X (c, k).
Proof.
  intros HQ HX. unfold createEvent, wp, mbind, ST_bind, get, gets, upd, modify, lift. cbn.
  destruct (parse_event _) eqn:Hp; auto.
Qed.

Lemma appendBatch_wp es (c : Coord) (k : K) Q X :
  sink_inv k -> next_batch T (sink_log T k) es ->
  (forall r k', sink_inv k' -> sink_log T k' = sink_log T k ++ es -> Q r (c, k')) ->
  (forall err k', sink_inv k' -> sink_log T k' = sink_log T k -> X err (c, k')) ->
  wp (appendBatch es) Q X (c, k).
Proof.
  intros Hk Hb HQ HX. unfold wp, appendBatch. cbn.
  pose proof (sink_append_spec T k es Hk Hb) as Hspec.
  destruct (sink_appendBatch es k) as [[r|err] k']; cbn.
  - apply HQ; apply Hspec.
  - apply HX; apply Hspec.
Qed.

(** The rule for [emit]: an appended event extends the log by what the draft
    parsed to; a failure leaves a good state. *)
Lemma emit_wp fields (c : Coord) (k : K) Q :
  good (c, k) ->
  (forall e k', isTerminal c = false ->
     parse_event (draft_event options c fields 1) = Ok e ->
     sink_inv k' -> sink_log T k' = sink_log T k ++ [e] -> Q tt (after c, k')) ->
  wp (emit options fields) Q (fun _ => good) (c, k).
Proof.
  intros Hgood HQ. unfold emit. apply wp_bind. unfold wp at 1, get, gets. cbn.
  apply wp_bind. unfold wp at 1, lift, assertTurnAcceptsLifecycleEvent. cbn.
  destruct (isTerminalTurnStatus (c_status c)) eqn:Hterm; [done|].
  apply wp_bind. apply createEvent_wp; [|intros; by apply good_tick].
  intros e Hp. pose proof Hgood as [Hk (Hlen & Hlive & _)].
  destruct (draft_canonical _ _ _ _ Hp) as (Hturn & Hcan & Hself & Hseq & _).
  apply wp_bind. apply appendBatch_wp; [done| | |].
  - constructor; auto; [cbn in Hlen; unfold log_of in Hlen; cbn in Hlen; lia|constructor].
  - intros _ k' Hk' Hlog. unfold wp, upd, modify; cbn.
    rewrite Hseq. by eapply HQ.
  - intros err k' Hk' Hlog. split; [done|]. cbn. unfold log_of; cbn. rewrite Hlog.
    by apply tracks_tick, Hgood.
Qed.

Lemma tracks_follows c log p e :
  tracks c log -> sim c p -> isTerminal c = false -> turnId e = T ->
  sequence e = c_sequence c + 1 -> follows p e.
Proof.
  intros _ [] Hterm Ht Hs. split_and!; try congruence.
  by destruct (p_terminalOutcome p); [rewrite Hterm in *|].
Qed.

Lemma live_snoc log e : is_terminal_type (type e) = false -> live (log ++ [e]).
Proof. unfold live. by rewrite last_snoc. Qed.

(** One event appended and applied. *)
Lemma tracks_step c c' log e p p' :
  tracks c log -> project_from (createState T) log = Ok p ->
  applyLifecycleProjectionEvent e p = (Ok tt, p') ->
  sim c' p' -> owned c' -> c_sequence c' = c_sequence c + 1 ->
  (isTerminal c' = false -> is_terminal_type (type e) = false) ->
  tracks c' (log ++ [e]).
Proof.
  intros (Hlen & _) Hp Happ Hsim Hown Hseq Hterm. split_and!.
  - rewrite length_app. cbn. lia.
  - intros Ht. apply live_snoc. auto.
  - done.
  - exists p'. split; [|done]. rewrite project_from_app, Hp. by apply project_from_one.
Qed.

Lemma sim_after c p : sim c p -> sim (after c) (p_set_lastSequence (c_sequence c + 1) p).
Proof. intros []. by split. Qed.

Lemma good_project c k :
  good (c, k) -> exists p, project_from (createState T) (sink_log T k) = Ok p /\ sim c p /\
    owned c /\ tracks c (sink_log T k).
Proof. intros [_ Htr]. pose proof Htr as (_ & _ & Hown & p & Hp & Hsim). by exists p. Qed.

(** The step rule: when the coordinator goes from [c] to [c'] with the event,
    and the projection follows. *)
Lemma good_step c c' k k' e p p' :
  good (c, k) -> sink_inv k' -> sink_log T k' = sink_log T k ++ [e] ->
  project_from (createState T) (sink_log T k) = Ok p ->
  applyLifecycleProjectionEvent e p = (Ok tt, p') -> sim c' p' -> owned c' ->
  c_sequence c' = c_sequence c + 1 -> is_terminal_type (type e) = false ->
  good (c', k').
Proof.
  intros [Hk Htr] Hk' Hlog Hp Happ Hsim Hown Hseq Hterm. split; [done|].
  unfold log_of; cbn. rewrite Hlog. eapply tracks_step; eauto.
Qed.

Lemma step_facts fields c k e :
  good (c, k) -> isTerminal c = false ->
  parse_event (draft_event options c fields 1) = Ok e ->
  exists p, project_from (createState T) (sink_log T k) = Ok p /\ sim c p /\ owned c /\
    follows p e /\ type e = ef_type fields /\ sequence e = c_sequence c + 1.
Proof.
  intros Hgood Hterm Hp.
  destruct (good_project _ _ Hgood) as (p & Hproj & Hsim & Hown & Htr).
  destruct (draft_canonical _ _ _ _ Hp) as (Hturn & _ & _ & Hseq & Htype).
  exists p. split_and!; try done. by eapply tracks_follows.
Qed.

Lemma neutral_not_terminal t : neutral t = true -> is_terminal_type t = false.
Proof.
  unfold neutral, turn_neutral. rewrite !andb_true_iff, !negb_true_iff.
  unfold is_terminal_turn_event, is_terminal_type. rewrite !bool_decide_eq_false. set_solver.
Qed.

Lemma emit_neutral fields c k :
  good (c, k) -> neutral (ef_type fields) = true ->
  wp (emit options fields) (fun _ w => good w /\ fst w = after c) (fun _ => good) (c, k).
Proof.
  intros Hgood Hn. apply emit_wp; [done|]. intros e k' Hterm Hp Hk' Hlog. split; [|done].
  destruct (step_facts _ _ _ _ Hgood Hterm Hp) as (p & Hproj & Hsim & Hown & Hf & Htype & Hseq).
  destruct (apply_neutral e p Hf) as (p' & Happ & Heq); [by rewrite Htype|].
  eapply good_step; eauto; [|by rewrite Htype; apply neutral_not_terminal].
  rewrite <- Heq, Hseq. by apply sim_after.
Qed.

(** ** Items *)

Lemma draft_item fields c e i :
  parse_event (draft_event options c fields 1) = Ok e -> ef_itemId fields = Some i ->
  itemId e = Some i /\ i <> "".
Proof.
  intros Hp Hi. apply parse_event_inv in Hp as (sh & pl & _ & _ & Hit & _ & _ & _ & _ & ->).
  cbn in Hit |- *. rewrite Hi in *. split; [done|].
  apply present_item in Hit. by eapply prefixed_id_nonempty.
Qed.

Lemma started_kind c i kind payload e :
  parse_event (draft_event options c
    (mkFields "item.started" (Some i) None None (dset "kind" (JStr kind) payload)) 1) = Ok e ->
  dget "kind" (LifecycleEvents.payload e) = Some (JStr kind) /\ kind ∈ ItemKindSchema.
Proof.
  intros Hp. apply parse_event_inv in Hp as (sh & pl & Hsh & _ & _ & _ & _ & _ & Hpl & ->).
  change (Some (item_shape LifecycleItemPayloadSchema) = Some sh) in Hsh. injection Hsh as <-.
  cbn [sh_payload item_shape LifecycleEvents.payload draft_event ef_payload] in Hpl.
  eapply (z_object_get _ _ _ (opt "kind" (z_enum ItemKindSchema)) (JStr kind)) in Hpl
    as (v & Hv & Hget).
  - apply z_enum_str in Hv as [-> Hin]. by split.
  - by apply (bool_decide_unpack _).
  - by apply list_elem_of_here.
  - apply dget_dset_eq.
Qed.

Lemma startItem_good c k i kind payload :
  good (c, k) ->
  wp (startItem options i kind payload)
    (fun _ w => good w /\ fst w = set_itemStatus i it_active (after c)) (fun _ => good) (c, k).
Proof.
  intros Hgood. unfold startItem. apply wp_bind.
  unfold wp at 1, lift, transitionItemStatus, transition. cbn.
  apply wp_bind. apply emit_wp; [done|]. intros e k' Hterm Hp Hk' Hlog.
  unfold wp, upd, modify; cbn. split; [|done].
  destruct (step_facts _ _ _ _ Hgood Hterm Hp) as (p & Hproj & Hsim & Hown & Hf & Htype & Hseq).
  destruct (draft_item _ _ _ i Hp eq_refl) as [Hi Hne].
  destruct (started_kind _ _ _ _ _ Hp) as [Hkind Hin].
  destruct (apply_item_started e p i kind Hf Htype Hi Hne Hkind Hin) as (p' & Happ & Heq).
  eapply good_step; eauto; [| |by rewrite Htype].
  - rewrite <- Heq, Hseq. destruct (sim_after _ _ Hsim). split; try done.
    cbn. rewrite dmap_dset. cbn. by f_equal.
  - by apply own_start_item.
Qed.


Lemma wp_get {A} (f : Coord -> A) Q X (c : Coord) (k : K) :
  Q (f c) (c, k) -> wp (get f) Q X (c, k).
Proof. done. Qed.

Lemma settled_from_active subject (items : dict ItemStatus) i st r :
  transition ItemStatus_str subject ITEM_TRANSITIONS
    (default it_not_started (dget i items)) st = Ok r ->
  isTerminalItemStatus st = true -> dget i items = Some it_active /\ r = st.
Proof.
  intros Htr Hst. apply transition_ok in Htr as [-> Hin].
  destruct (dget i items) as [[]|]; cbn in Hin; try set_solver;
    apply list_elem_of_singleton in Hin; by subst.
Qed.

Lemma item_type_facts st :
  isTerminalItemStatus st = true ->
  let ty := "item." +:+ ItemStatus_str st in
  itemTerminalStatus ty = Some st /\ ty <> "item.started" /\ turn_neutral ty = true /\
  tool_neutral ty = true /\ request_neutral ty = true /\ is_terminal_type ty = false.
Proof. by destruct st; try done; split_and!. Qed.

Lemma sim_dget_item c p i st :
  sim c p -> dget i (c_itemStatuses c) = Some st ->
  exists item, dget i (p_items p) = Some item /\ ip_status item = st.
Proof.
  intros [] Hi. rewrite <- sim_items0, dget_dmap in Hi.
  destruct (dget i (p_items p)) as [item|]; [|done]. exists item. cbn in Hi. by simplify_eq.
Qed.

Lemma settleItem_good c k i st payload :
  good (c, k) -> isTerminalItemStatus st = true ->
  (forall t, dget t (c_toolCallStatuses c) = Some it_active ->
             dget t (c_toolCallItems c) <> Some i) ->
  wp (settleItem options i st payload)
    (fun _ w => good w /\ fst w = set_itemStatus i st (after c)) (fun _ => good) (c, k).
Proof.
  intros Hgood Hst Hfree. unfold settleItem.
  apply wp_bind, wp_get, wp_bind, wp_lift; [|done]. intros next Htr.
  apply settled_from_active in Htr as [Hact ->]; [|done].
  apply wp_bind. apply emit_wp; [done|]. intros e k' Hterm Hp Hk' Hlog.
  unfold wp, upd, modify; cbn. split; [|done].
  destruct (step_facts _ _ _ _ Hgood Hterm Hp) as (p & Hproj & Hsim & Hown & Hf & Htype & Hseq).
  destruct (draft_item _ _ _ i Hp eq_refl) as [Hi Hne]. cbn [ef_type] in Htype.
  destruct (item_type_facts st Hst) as (Hits & Hns & Hn1 & Hn2 & Hn3 & Hnt).
  rewrite <- Htype in Hits, Hns, Hn1, Hn2, Hn3, Hnt.
  destruct (sim_dget_item _ _ _ _ Hsim Hact) as (item & Hitem & Hstat).
  destruct (apply_item_settled e p i item st) as (p' & item' & Happ & Hst' & Heq); try done.
  { rewrite Hstat. by destruct st. }
  eapply good_step; eauto.
  - rewrite <- Heq, Hseq. destruct (sim_after _ _ Hsim). split; try done.
    cbn. rewrite dmap_dset, Hst'. by f_equal.
  - by apply own_settle_item.
Qed.

(** ** Tool calls *)

Lemma draft_tool fields c e t :
  parse_event (draft_event options c fields 1) = Ok e -> ef_toolCallId fields = Some t ->
  toolCallId e = Some t /\ t <> "".
Proof.
  intros Hp Hi. apply parse_event_inv in Hp as (sh & pl & _ & _ & _ & Hit & _ & _ & _ & ->).
  cbn in Hit |- *. rewrite Hi in *. split; [done|].
  apply present_tool in Hit. by eapply prefixed_id_nonempty.
Qed.

Lemma truthy_Some o s : truthy o = Some s -> o = Some s.
Proof. destruct o as [[|a s']|]; done. Qed.

(** Bookkeeping fields the projection does not have. *)
Lemma good_ext c c' k :
  good (c, k) -> isTerminal c' = isTerminal c -> c_status c' = c_status c ->
  c_blockingState c' = c_blockingState c -> c_itemStatuses c' = c_itemStatuses c ->
  c_toolCallStatuses c' = c_toolCallStatuses c -> c_toolCallItems c' = c_toolCallItems c ->
  c_approvalStatuses c' = c_approvalStatuses c -> c_approvalItems c' = c_approvalItems c ->
  c_sequence c' = c_sequence c -> good (c', k).
Proof.
  intros [Hk (Hlen & Hlive & Hown & p & Hp & [])] Ht Hs Hb Hi Htc Hti Ha Hai Hseq.
  split; [done|]. split_and!.
  - cbn in *. by rewrite Hseq.
  - cbn in *. by rewrite Ht.
  - unfold owned in *. cbn in *. by rewrite Hi, Htc, Hti, Ha, Hai.
  - exists p. split; [done|]. cbn in *. split; congruence.
Qed.

Lemma startToolCall_good c k i t name input batch display :
  good (c, k) -> dget i (c_itemStatuses c) = None ->
  wp (startToolCallNow options i t name input batch display)
    (fun _ => good) (fun _ => good) (c, k).
Proof.
  intros Hgood Hfresh. pose proof (good_project _ _ Hgood) as (_ & _ & _ & Hown0 & _).
  destruct (fresh_unowned _ _ _ _ _ _ Hown0 Hfresh) as [Hnt Hna].
  unfold startToolCallNow. apply wp_bind.
  eapply wp_mono; [by apply startItem_good| |done]. intros _ [c1 k1] [Hgood1 Hc1]. cbn in Hc1.
  apply wp_bind. unfold wp at 1, lift, transitionToolCallStatus, transition. cbn.
  apply wp_bind. apply emit_wp; [done|]. intros e k' Hterm Hp Hk' Hlog.
  destruct (step_facts _ _ _ _ Hgood1 Hterm Hp) as (p & Hproj & Hsim & Hown & Hf & Htype & Hseq).
  destruct (draft_item _ _ _ i Hp eq_refl) as [Hi Hine].
  destruct (draft_tool _ _ _ t Hp eq_refl) as [Ht Htne].
  destruct (apply_tool_started e p t i Hf Htype Hi Ht Htne) as (p' & tool & Happ & Hs & Hti & Heq).
  assert (Hgood2 : good (set_toolCallItem t i (set_toolCallStatus t it_active (after c1)), k')).
  { eapply good_step; [exact Hgood1|done|done|done|exact Happ| | |done|by rewrite Htype].
    - rewrite <- Heq, Hseq. destruct (sim_after _ _ Hsim). split; try done;
        cbn; rewrite dmap_dset; [rewrite Hs|rewrite Hti]; by f_equal.
    - apply own_start_tool; try done; rewrite Hc1; cbn; [by apply dget_dset_eq|done|done]. }
  apply wp_bind. unfold wp at 1, upd, modify; cbn.
  apply wp_bind. unfold wp at 1, modify; cbn.
  apply wp_bind. eapply (wp_mono _ (fun _ w => good (set_toolCallItem t i (fst w), snd w)) _ (fun _ _ => False)).
  - destruct (truthy batch); unfold wp, modify, mret, ST_ret; cbn; by eapply good_ext.
  - intros _ [c3 k3] Hgood3. apply wp_bind. unfold wp at 1, modify; cbn.
    eapply wp_mono; [by apply emit_neutral| |done]. by intros _ w [].
  - done.
Qed.

Lemma tool_type_facts st :
  isTerminalItemStatus st = true ->
  let ty := "tool_call." +:+ ItemStatus_str st in
  toolTerminalStatus ty = Some st /\ ty <> "tool_call.started" /\ turn_neutral ty = true /\
  item_neutral ty = true /\ request_neutral ty = true /\ is_terminal_type ty = false.
Proof. by destruct st; try done; split_and!. Qed.

Lemma sim_dget_tool c p t st :
  sim c p -> dget t (c_toolCallStatuses c) = Some st ->
  exists tool, dget t (p_toolCalls p) = Some tool /\ tp_status tool = st /\
    dget t (c_toolCallItems c) = Some (tp_itemId tool).
Proof.
  intros [] Ht. rewrite <- sim_tools0, dget_dmap in Ht. rewrite <- sim_toolItems0, dget_dmap.
  destruct (dget t (p_toolCalls p)) as [tool|]; [|done]. exists tool. cbn in *. by simplify_eq.
Qed.

Lemma requireActive_wp c k t Q X :
  (dget t (c_toolCallStatuses c) = Some it_active -> Q it_active (c, k)) ->
  (forall err, X err (c, k)) ->
  wp (requireActiveToolCall (K:=K) t) Q X (c, k).
Proof.
  intros HQ HX. unfold requireActiveToolCall. apply wp_bind, wp_get, wp_bind.
  destruct (decide _) as [Hact|Hact].
  - apply wp_ret, wp_ret. apply HQ. by destruct (dget t _) as [[]|]; cbn in Hact.
  - apply wp_lift; [|auto]. intros a Htr. apply transition_ok in Htr as [-> Hin].
    destruct (dget t _) as [[]|]; cbn in *; set_solver.
Qed.

Lemma requireToolItem_wp c k t Q X :
  (forall i, dget t (c_toolCallItems c) = Some i -> Q i (c, k)) ->
  (forall err, X err (c, k)) ->
  wp (requireToolCallItem (K:=K) t) Q X (c, k).
Proof.
  intros HQ HX. unfold requireToolCallItem. apply wp_bind, wp_get.
  destruct (truthy _) as [i|] eqn:Hi; [|by apply wp_throw].
  apply wp_ret, HQ. by apply truthy_Some.
Qed.

Lemma emit_tool_settled c k i t st payload :
  good (c, k) -> isTerminalItemStatus st = true ->
  dget t (c_toolCallStatuses c) = Some it_active ->
  wp (emit options (mkFields ("tool_call." +:+ ItemStatus_str st) (Some i) (Some t) None payload))
    (fun _ w => fst w = after c /\ good (set_toolCallStatus t st (after c), snd w))
    (fun _ => good) (c, k).
Proof.
  intros Hgood Hst Hact. apply emit_wp; [done|]. intros e k' Hterm Hp Hk' Hlog. split; [done|].
  destruct (step_facts _ _ _ _ Hgood Hterm Hp) as (p & Hproj & Hsim & Hown & Hf & Htype & Hseq).
  destruct (draft_item _ _ _ i Hp eq_refl) as [Hi Hine].
  destruct (draft_tool _ _ _ t Hp eq_refl) as [Ht Htne]. cbn [ef_type] in Htype.
  destruct (tool_type_facts st Hst) as (Hits & Hns & Hn1 & Hn2 & Hn3 & Hnt).
  rewrite <- Htype in Hits, Hns, Hn1, Hn2, Hn3, Hnt.
  destruct (sim_dget_tool _ _ _ _ Hsim Hact) as (tool & Htool & Hstat & Hitem).
  destruct (apply_tool_settled e p t i tool st) as (p' & tool' & Happ & Hs & Hti' & Heq); try done.
  { rewrite Hstat. by destruct st. }
  eapply good_step; eauto.
  - rewrite <- Heq, Hseq. destruct (sim_after _ _ Hsim). split; try done; cbn in *; rewrite dmap_dset.
    + rewrite Hs. by f_equal.
    + rewrite Hti', sim_toolItems0. apply dset_id. exact Hitem.
  - apply own_settle_tool; [by destruct st|by destruct st|exact (mk_is_Some _ _ Hact)|done].
Qed.

(** A settled tool call leaves its item without a tool in progress. *)
Lemma settled_tool_frees c k t i st :
  good (c, k) -> isTerminalItemStatus st = true ->
  dget t (c_toolCallStatuses c) = Some it_active -> dget t (c_toolCallItems c) = Some i ->
  forall t', dget t' (dset t st (c_toolCallStatuses c)) = Some it_active ->
    dget t' (c_toolCallItems c) <> Some i.
Proof.
  intros Hgood Hst Hact Hti t' Hact' Hti'.
  destruct (good_project _ _ Hgood) as (_ & _ & _ & Hown & _).
  rewrite dget_dset in Hact'. destruct (decide (t' = t)) as [->|Hne].
  - by destruct st; simplify_eq.
  - apply Hne. by eapply own_inj.
Qed.

(** The coordinator after a tool call on item [i] was settled. *)
Definition tool_settled (t i : string) (st : ItemStatus) (c : Coord) : Coord :=
  set_itemStatus i st (after (set_toolCallStatus t st (after c))).

Lemma settleToolCall_good c k t st payload :
  good (c, k) -> isTerminalItemStatus st = true ->
  wp (settleToolCall options t st payload)
    (fun _ w => good w /\ exists i, dget t (c_toolCallItems c) = Some i /\
       fst w = tool_settled t i st c)
    (fun _ => good) (c, k).
Proof.
  intros Hgood Hst. unfold settleToolCall.
  apply wp_bind. apply requireActive_wp; [|done]. intros Hact.
  apply wp_bind, wp_lift; [|done]. intros next Htr. apply transition_ok in Htr as [-> _].
  apply wp_bind. apply requireToolItem_wp; [|done]. intros i Hti.
  apply wp_bind, wp_get, wp_bind.
  eapply wp_mono; [by apply emit_tool_settled| |done]. intros _ [c1 k1] [Hc1 Hgood1].
  cbn in Hc1, Hgood1. subst c1. apply wp_bind. unfold wp at 1, upd, modify; cbn.
  eapply wp_mono; [apply settleItem_good; try done| |done].
  - exact (settled_tool_frees c k t i st Hgood Hst Hact Hti).
  - intros _ w [Hw ->]. split; [done|]. by exists i.
Qed.

(** ** Settling open work *)

Definition no_active (c : Coord) : Prop :=
  forall t, dget t (c_toolCallStatuses c) <> Some it_active.

Lemma settleOpenWork_good c k st payload :
  good (c, k) -> isTerminalItemStatus st = true ->
  wp (settleOpenWork options st payload) (fun _ => good) (fun _ => good) (c, k).
Proof.
  intros Hgood Hst. unfold settleOpenWork. apply wp_bind, wp_get, wp_bind.
  eapply wp_mono with (X := fun _ => good); [|intros ? [c1 k1] HI|done].
  - apply (wp_for_of _ (fun xs w => good w /\ forall t,
      dget t (c_toolCallStatuses (fst w)) = Some it_active -> (t, it_active) ∈ xs)).
    + intros [t cur] xs [c1 k1] [Hg1 Hin]. destruct (decide (cur = it_active)) as [->|Hne].
      * eapply wp_mono; [by apply settleToolCall_good| |done].
        intros _ [c2 k2] [Hg2 (i & _ & Hc2)]. split; [done|]. cbn in Hc2. intros t' Ht'.
        subst c2. cbn -[dset dget] in Ht'. dget_cases; try done.
        specialize (Hin t' Ht'). set_solver.
      * apply wp_ret. split; [done|]. intros t' Ht'. specialize (Hin t' Ht'). set_solver.
    + split; [done|]. intros t Ht. by apply dget_elem.
  - destruct HI as [Hg1 Hno]. apply wp_bind, wp_get.
    eapply wp_mono with (Q := fun _ w => good w /\ no_active (fst w)) (X := fun _ => good);
      [|by intros ? w []|done].
    apply (wp_for_of _ (fun _ w => good w /\ no_active (fst w))).
    + intros [i cur] xs [c2 k2] [Hg2 Hno2]. destruct (decide (cur = it_active)) as [->|Hne].
      * eapply wp_mono; [apply settleItem_good; try done| |done].
        { intros t Ht. by apply Hno2 in Ht. }
        intros _ [c3 k3] [Hg3 ->]. by split.
      * by apply wp_ret.
    + split; [done|]. intros t Ht. apply Hno in Ht. set_solver.
Qed.

(** ** Blocking and approvals *)

Lemma generic_payload c ty i pl e :
  parse_event (draft_event options c (mkFields ty i None None pl) 1) = Ok e ->
  dget ty event_shapes = Some generic_shape -> LifecycleEvents.payload e = pl.
Proof.
  intros Hp Hty. apply parse_event_inv in Hp as (sh & pl' & Hsh & _ & _ & _ & _ & _ & Hpl & ->).
  cbn [LifecycleEvents.type draft_event ef_type] in Hsh. rewrite Hty in Hsh. injection Hsh as <-.
  cbn in Hpl. by injection Hpl as <-.
Qed.

Definition may_block (c : Coord) (b : TurnBlockingState) : Prop :=
  valid_blocking b = true /\
  forall i a, b = b_waiting_for_approval i a -> c_status c = in_progress.

(** The coordinator after a blocking change. *)
Definition blocked (b : TurnBlockingState) (c : Coord) : Coord :=
  set_blockingState b
    match b with
    | b_waiting_for_approval _ _ => set_status awaiting_approval (after c)
    | _ => if decide (c_status c = awaiting_approval)
           then set_status in_progress (after c) else after c
    end.

Lemma sim_blocked c p b :
  sim c p -> isTerminal c = false ->
  (forall i a, b = b_waiting_for_approval i a -> c_status c = in_progress) ->
  sim (blocked b c) (p_set_lastSequence (c_sequence c + 1) (block b p)).
Proof.
  intros Hsim Hterm Hst. unfold block, blocked. pose proof Hsim as [_ -> _ _ _ _ _ _ _ _ _].
  destruct (sim_after _ _ Hsim). unfold isTerminal in *. cbn in *. rewrite Hterm in *.
  destruct b as [|i a| |]; try specialize (Hst _ _ eq_refl); try case_decide;
    split; unfold isTerminal; cbn in *; congruence.
Qed.

Lemma changeBlocking_good c k b :
  good (c, k) -> may_block c b ->
  wp (changeBlocking options b)
    (fun _ w => good w /\ fst w = blocked b c) (fun _ => good) (c, k).
Proof.
  intros Hgood [Hv Hst]. unfold changeBlocking. apply wp_bind. apply emit_wp; [done|].
  intros e k' Hterm Hp Hk' Hlog.
  destruct (step_facts _ _ _ _ Hgood Hterm Hp) as (p & Hproj & Hsim & Hown & Hf & Htype & Hseq).
  pose proof (generic_payload _ _ _ _ _ Hp eq_refl) as Hpl. cbn [ef_type] in Htype.
  destruct (apply_blocking e p b Hf Htype) as (p' & Happ & Heq); [by rewrite Hpl|done|
    intros i a ->; destruct Hsim as [_ -> _ _ _ _ _ _ _ _ _]; by eapply Hst|].
  assert (Hgood' : good (blocked b c, k')).
  { eapply good_step; eauto; [|by destruct b; unfold blocked; cbn; try case_decide|
      by destruct b; unfold blocked; cbn; try case_decide|by rewrite Htype].
    rewrite <- Heq, Hseq. by apply sim_blocked. }
  apply wp_bind, wp_get, wp_bind. change (c_status (after c)) with (c_status c).
  unfold blocked in *. destruct b as [|i a| |].
  2:{ rewrite (Hst i a eq_refl). by unfold wp, upd, modify, mbind, ST_bind, lift; cbn. }
  all: destruct (decide (c_status c = awaiting_approval)) as [Ha|Ha]; [rewrite Ha|];
    by unfold wp, upd, modify, mbind, ST_bind, lift, mret, ST_ret; cbn.
Qed.

Lemma draft_approval fields c e a :
  parse_event (draft_event options c fields 1) = Ok e -> ef_approvalId fields = Some a ->
  approvalId e = Some a /\ a <> "" /\ ApprovalIdSchema a = true /\ requestId e = None.
Proof.
  intros Hp Hi. apply parse_event_inv in Hp as (sh & pl & _ & _ & _ & _ & Hit & _ & _ & ->).
  cbn in Hit |- *. rewrite Hi in *. apply present_approval in Hit.
  split_and!; try done. by eapply prefixed_id_nonempty.
Qed.

Lemma draft_item_valid fields c e i :
  parse_event (draft_event options c fields 1) = Ok e -> ef_itemId fields = Some i ->
  ItemIdSchema i = true.
Proof.
  intros Hp Hi. apply parse_event_inv in Hp as (sh & pl & _ & _ & Hit & _ & _ & _ & _ & ->).
  cbn in Hit. rewrite Hi in *. by apply present_item in Hit.
Qed.

Lemma requestApproval_good c k parent a i payload :
  good (c, k) -> dget i (c_itemStatuses c) = None -> c_status c = in_progress ->
  wp (requestApprovalNow options parent a i payload) (fun _ => good) (fun _ => good) (c, k).
Proof.
  intros Hgood Hfresh Hst. pose proof (good_project _ _ Hgood) as (_ & _ & _ & Hown0 & _).
  destruct (fresh_unowned _ _ _ _ _ _ Hown0 Hfresh) as [Hnt Hna].
  unfold requestApprovalNow. apply wp_bind.
  eapply wp_mono; [by apply startItem_good| |done]. intros _ [c1 k1] [Hgood1 Hc1]. cbn in Hc1.
  apply wp_bind. apply emit_wp; [done|]. intros e k' Hterm Hp Hk' Hlog.
  destruct (step_facts _ _ _ _ Hgood1 Hterm Hp) as (p & Hproj & Hsim & Hown & Hf & Htype & Hseq).
  destruct (draft_item _ _ _ i Hp eq_refl) as [Hi Hine].
  destruct (draft_approval _ _ _ a Hp eq_refl) as (Ha & Hane & Hav & Hrq).
  pose proof (draft_item_valid _ _ _ i Hp eq_refl) as Hiv.
  destruct (apply_approval_requested e p a i Hf Htype Hi Ha Hane Hrq)
    as (p' & appr & Happ & Hs & Hti & Heq).
  assert (Hgood2 : good (set_approvalItem a i (set_approvalStatus a ap_pending (after c1)), k')).
  { eapply good_step; [exact Hgood1|done|done|done|exact Happ| | |done|by rewrite Htype].
    - rewrite <- Heq, Hseq. destruct (sim_after _ _ Hsim). split; try done;
        cbn; rewrite dmap_dset; [rewrite Hs|rewrite Hti]; by f_equal.
    - apply own_request_approval; try done; rewrite Hc1; cbn; [|done].
      by rewrite dget_dset_eq. }
  apply wp_bind. unfold wp at 1, upd, modify; cbn.
  apply wp_bind. unfold wp at 1, modify; cbn.
  eapply wp_mono; [apply changeBlocking_good; [done|]| |done].
  - split; [cbn; by rewrite Hiv, Hav|]. intros. by rewrite Hc1.
  - by intros _ w [].
Qed.

Lemma decided_payload c i a st payload e :
  parse_event (draft_event options c
    (mkFields "approval.decided" i None (Some a)
      (dset "status" (JStr (ApprovalStatus_str st)) payload)) 1) = Ok e ->
  dget "status" (LifecycleEvents.payload e) = Some (JStr (ApprovalStatus_str st)).
Proof.
  intros Hp. apply parse_event_inv in Hp as (sh & pl & Hsh & _ & _ & _ & _ & _ & Hpl & ->).
  change (Some (approval_shape ApprovalDecidedPayloadSchema) = Some sh) in Hsh. injection Hsh as <-.
  cbn [sh_payload approval_shape LifecycleEvents.payload draft_event ef_payload] in Hpl.
  unfold ApprovalDecidedPayloadSchema, z_refine in Hpl.
  destruct (z_passthrough _ _) as [j|] eqn:Hz; [|done].
  destruct (grant_requires_approval j); [|done]. injection Hpl as ->.
  eapply (z_passthrough_get _ _ _
    (req "status" (z_enum ["approved"; "denied"; "timed_out"; "cancelled"]))
    (JStr (ApprovalStatus_str st))) in Hz
    as (v & Hv & Hget).
  - apply z_enum_str in Hv as [-> Hin]. exact Hget.
  - by apply (bool_decide_unpack _).
  - by apply list_elem_of_here.
  - apply dget_dset_eq.
Qed.

Lemma transition_decision_str current st :
  transition_decision current (Some (JStr (ApprovalStatus_str st))) =
  transitionApprovalStatus current st.
Proof. by destruct st. Qed.

Lemma requireApprovalItem_wp c k a Q X :
  (forall i, dget a (c_approvalItems c) = Some i -> Q i (c, k)) ->
  (forall err, X err (c, k)) ->
  wp (requireApprovalItem (K:=K) a) Q X (c, k).
Proof.
  intros HQ HX. unfold requireApprovalItem. apply wp_bind, wp_get.
  destruct (truthy _) as [i|] eqn:Hi; [|by apply wp_throw].
  apply wp_ret, HQ. by apply truthy_Some.
Qed.

Lemma sim_dget_approval c p a i :
  sim c p -> dget a (c_approvalItems c) = Some i ->
  exists appr, dget a (p_approvals p) = Some appr /\ ap_itemId appr = i /\
    dget a (c_approvalStatuses c) = Some (ap_status appr).
Proof.
  intros [] Ht. rewrite <- sim_approvalItems0, dget_dmap in Ht.
  rewrite <- sim_approvals0, dget_dmap.
  destruct (dget a (p_approvals p)) as [appr|]; [|done]. exists appr. cbn in *. by simplify_eq.
Qed.

Definition decided_fields (i a : string) (st : ApprovalStatus) (payload : JsonRecord)
    : EventFields :=
  mkFields "approval.decided" (Some i) None (Some a)
    (dset "status" (JStr (ApprovalStatus_str st)) payload).

Lemma emit_decided c k i a st payload :
  good (c, k) -> dget a (c_approvalItems c) = Some i ->
  dget a (c_approvalStatuses c) = Some ap_pending -> st <> ap_pending ->
  wp (emit options (decided_fields i a st payload))
    (fun _ w => fst w = after c /\ good (set_approvalStatus a st (after c), snd w))
    (fun _ => good) (c, k).
Proof.
  intros Hgood Hai Hpend Hst. apply emit_wp; [done|]. intros e k' Hterm Hp Hk' Hlog.
  split; [done|].
  destruct (step_facts _ _ _ _ Hgood Hterm Hp) as (p & Hproj & Hsim & Hown & Hf & Htype & Hseq).
  destruct (draft_item _ _ _ i Hp eq_refl) as [Hi Hine].
  destruct (draft_approval _ _ _ a Hp eq_refl) as (Ha & Hane & Hav & Hrq).
  destruct (sim_dget_approval _ _ _ _ Hsim Hai) as (appr & Happr & Hit & Hstat).
  rewrite Hpend in Hstat. injection Hstat as Hstat.
  destruct (apply_approval_decided e p a i appr st Hf Htype Hi Ha Hane Hrq Happr)
    as (p' & appr' & Happ & Hs & Hti & Heq).
  { rewrite (decided_payload _ _ _ _ _ _ Hp), transition_decision_str, <- Hstat. by destruct st. }
  eapply good_step; [exact Hgood|done|done|done|exact Happ| | |done|by rewrite Htype].
  - rewrite <- Heq, Hseq. destruct (sim_after _ _ Hsim). split; try done; cbn in *; rewrite dmap_dset.
    + rewrite Hs. by f_equal.
    + rewrite Hti, sim_approvalItems0. apply dset_id. by rewrite Hit.
  - by apply own_decide_approval.
Qed.

Lemma decision_legal c k a st next :
  good (c, k) -> is_Some (dget a (c_approvalItems c)) ->
  transitionApprovalStatus (default ap_pending (dget a (c_approvalStatuses c))) st = Ok next ->
  next = st /\ dget a (c_approvalStatuses c) = Some ap_pending /\ st <> ap_pending.
Proof.
  intros Hgood [i Hai] Htr. destruct (good_project _ _ Hgood) as (p & _ & Hsim & _).
  destruct (sim_dget_approval _ _ _ _ Hsim Hai) as (appr & _ & _ & Hstat).
  rewrite Hstat in Htr |- *. apply transition_ok in Htr as [-> Hlegal]. cbn in Hlegal.
  split; [done|]. destruct (ap_status appr), st; set_solver.
Qed.

(** The item of a pending approval carries no tool call in progress. *)
Lemma pending_item_free c k a i :
  good (c, k) -> dget a (c_approvalStatuses c) = Some ap_pending ->
  dget a (c_approvalItems c) = Some i ->
  forall t, dget t (c_toolCallStatuses c) = Some it_active ->
    dget t (c_toolCallItems c) <> Some i.
Proof.
  intros Hgood Ha Hi t Ht. destruct (good_project _ _ Hgood) as (_ & _ & _ & Hown & _).
  by eapply own_disjoint.
Qed.

Definition decision_item_status (st : ApprovalStatus) : ItemStatus :=
  if decide (st = ap_approved) then it_completed else it_declined.

(** The coordinator after the approval [a] on item [i] was decided. *)
Definition approval_settled (a i : string) (st : ApprovalStatus) (c : Coord) : Coord :=
  set_itemStatus i (decision_item_status st)
    (after (blocked b_none (set_approvalStatus a st (after c)))).

Lemma decideApproval_good c k a st payload :
  good (c, k) ->
  wp (decideApprovalNow options a st payload)
    (fun _ w => good w /\ exists i, dget a (c_approvalItems c) = Some i /\
       fst w = approval_settled a i st c)
    (fun _ => good) (c, k).
Proof.
  intros Hgood. unfold decideApprovalNow.
  apply wp_bind, wp_get, wp_bind, wp_lift; [|done]. intros next Htr.
  apply wp_bind. apply requireApprovalItem_wp; [|done]. intros i Hai.
  destruct (decision_legal _ _ _ _ _ Hgood (mk_is_Some _ _ Hai) Htr) as (-> & Hpend & Hst).
  apply wp_bind. eapply wp_mono; [by apply emit_decided| |done].
  intros _ [c1 k1] [Hc1 Hgood1]. cbn in Hc1, Hgood1. subst c1.
  apply wp_bind. unfold wp at 1, upd, modify; cbn.
  apply wp_bind. eapply wp_mono; [apply changeBlocking_good; [done|by split]| |done].
  intros _ [c2 k2] [Hgood2 Hc2]. cbn in Hc2.
  assert (Hai2 : c_approvalItems c2 = c_approvalItems c)
    by (subst c2; unfold blocked; cbn; by case_decide).
  apply wp_bind. apply requireApprovalItem_wp; [|done]. intros i' Hai'.
  rewrite Hai2, Hai in Hai'. injection Hai' as <-.
  assert (Hfree : forall t, dget t (c_toolCallStatuses c2) = Some it_active ->
    dget t (c_toolCallItems c2) <> Some i).
  { pose proof (pending_item_free _ _ _ _ Hgood Hpend Hai) as Hfree.
    subst c2. unfold blocked. cbn. by case_decide. }
  unfold approval_settled, decision_item_status. rewrite <- Hc2.
  destruct (decide (st = ap_approved));
    (eapply wp_mono; [by apply settleItem_good| |done]; intros _ w [Hw Hc3];
     split; [done|]; by exists i).
Qed.

Lemma cancelPendingApprovals_good c k reason :
  good (c, k) ->
  wp (cancelPendingApprovals options reason) (fun _ => good) (fun _ => good) (c, k).
Proof.
  intros Hgood. unfold cancelPendingApprovals. apply wp_bind, wp_get.
  apply (wp_for_of _ (fun _ => good)); [|done].
  intros [a st] xs [c1 k1] Hg1. destruct (decide _); [|by apply wp_ret].
  eapply wp_mono; [by apply decideApproval_good| |done]. by intros _ w [].
Qed.


(** ** Batches *)

Lemma appendTerminal_wp es intended (c : Coord) (k : K) Q (X : error -> World -> Prop) :
  sink_inv k -> next_batch T (sink_log T k) es ->
  (forall k', sink_inv k' -> sink_log T k' = sink_log T k ++ es -> Q tt (c, k')) ->
  (forall err k', sink_inv k' -> sink_log T k' = sink_log T k -> X err (c, k')) ->
  wp (appendTerminalBatch es intended) Q X (c, k).
Proof.
  intros Hk Hb HQ HX. unfold appendTerminalBatch. apply wp_try_catch, wp_bind.
  apply appendBatch_wp; [done|done|intros; apply wp_ret; auto|].
  intros _ k1 Hk1 Hl1. apply wp_try_catch, wp_bind.
  apply appendBatch_wp; [done|by rewrite Hl1|intros r k2 Hk2 Hl2; apply wp_ret|].
  - apply HQ; [done|by rewrite Hl2, Hl1].
  - intros err k2 Hk2 Hl2. apply wp_throw, HX; [done|by rewrite Hl2, Hl1].
Qed.

Lemma good_unchanged c k k' :
  good (c, k) -> sink_inv k' -> sink_log T k' = sink_log T k -> good (c, k').
Proof. intros [_ Ht] Hk' Hl. split; [done|]. unfold log_of; cbn. by rewrite Hl. Qed.

Lemma draft_next c fields offset e log :
  parse_event (draft_event options c fields offset) = Ok e ->
  Z.of_nat (length log) + 1 = c_sequence c + offset -> live log ->
  forall es, next_batch T (log ++ [e]) es -> next_batch T log (e :: es).
Proof.
  intros Hp Hseq Hlive es Hes.
  destruct (draft_canonical _ _ _ _ Hp) as (Hturn & Hcan & Hself & Hs & _).
  constructor; auto. lia.
Qed.

Lemma terminal_payload c o off e :
  parse_event (draft_event options c (mkFields ("turn." +:+ TurnStatus_str (outcome_status o))
    None None None [("outcome", json_of_outcome o)]) off) = Ok e ->
  dget "outcome" (LifecycleEvents.payload e) = Some (json_of_outcome o).
Proof.
  intros Hp. apply parse_event_inv in Hp as (sh & pl & Hsh & _ & _ & _ & _ & _ & Hpl & ->).
  destruct o as [|r|f].
  - change (Some (turn_shape (z_object [req "outcome" CompletedTurnOutcomeSchema])) = Some sh) in Hsh.
    injection Hsh as <-. cbn [sh_payload turn_shape draft_event ef_payload LifecycleEvents.payload] in Hpl.
    eapply (z_object_get _ _ _ (req "outcome" _)) in Hpl as (v & Hv & Hget);
      [|by apply (bool_decide_unpack _)|by apply list_elem_of_here|reflexivity].
    by apply CompletedTurnOutcomeSchema_id in Hv as ->.
  - change (Some (turn_shape (z_object [req "outcome" InterruptedTurnOutcomeSchema])) = Some sh) in Hsh.
    injection Hsh as <-. cbn [sh_payload turn_shape draft_event ef_payload LifecycleEvents.payload] in Hpl.
    eapply (z_object_get _ _ _ (req "outcome" _)) in Hpl as (v & Hv & Hget);
      [|by apply (bool_decide_unpack _)|by apply list_elem_of_here|reflexivity].
    by apply InterruptedTurnOutcomeSchema_id in Hv as ->.
  - change (Some (turn_shape (z_object [req "outcome" FailedTurnOutcomeSchema])) = Some sh) in Hsh.
    injection Hsh as <-. cbn [sh_payload turn_shape draft_event ef_payload LifecycleEvents.payload] in Hpl.
    eapply (z_object_get _ _ _ (req "outcome" _)) in Hpl as (v & Hv & Hget);
      [|by apply (bool_decide_unpack _)|by apply list_elem_of_here|reflexivity].
    by apply FailedTurnOutcomeSchema_id in Hv as ->.
Qed.

Lemma terminal_type_facts o :
  let ty := "turn." +:+ TurnStatus_str (outcome_status o) in
  is_terminal_turn_event ty = true /\ item_neutral ty = true /\ tool_neutral ty = true /\
  request_neutral ty = true.
Proof. by destruct o. Qed.

Lemma attempt_neutral o : neutral ("run_attempt." +:+ RunAttemptStatus_str (attempt_of_outcome o)) = true.
Proof. by destruct o. Qed.

Lemma sim_live c p : sim c p -> isTerminal c = false -> p_terminalOutcome p = None.
Proof. intros [] Ht. destruct (p_terminalOutcome p); [cbn in *; congruence|done]. Qed.

Lemma sim_settled c p next o :
  sim c p -> owned c ->
  validateTerminalSettlement (mkTerminalSettlementInput next (Some o) (c_blockingState c)
    (c_itemStatuses c) (c_approvalStatuses c)) = Ok tt ->
  assertNoActiveToolsOrRequests p = Ok tt.
Proof.
  intros [] Hown Hval. apply settlement_iff in Hval as (_ & _ & _ & Hitems & _). cbn in Hitems.
  unfold assertNoActiveToolsOrRequests.
  assert (p_requests p = []) as Hr by by destruct (p_requests p). rewrite Hr. cbn.
  rewrite orb_false_r. destruct (existsb _ _) eqn:Hex; [exfalso|done].
  apply existsb_exists in Hex as (tool & Hin & Hact).
  unfold dvals in Hin. apply in_map_iff in Hin as ([t tool'] & Heq & Hin). cbn in Heq. subst tool'.
  assert (Ht : (t, tp_status tool) ∈ c_toolCallStatuses c).
  { rewrite <- sim_tools0. apply list_elem_of_In, in_map_iff. by exists (t, tool). }
  eapply settled_no_active in Ht; [|done|done].
  apply orb_true_iff in Hact as [Hact|Hact]; apply bool_decide_eq_true in Hact; by rewrite Hact in Ht.
Qed.

Lemma settleTurn_good c k outcome :
  good (c, k) -> wp (settleTurn options outcome) (fun _ => good) (fun _ => good) (c, k).
Proof.
  intros Hgood. unfold settleTurn. apply wp_bind, wp_get. unfold id.
  destruct (isTerminal c) eqn:Hterm; [by apply wp_ret|].
  apply wp_bind, wp_lift; [|done]. intros next Htr.
  pose proof (proj1 (transition_ok _ _ _ _ _ _) Htr) as [Hnext _].
  apply wp_bind, wp_lift; [|done]. intros nextAttempt _.
  apply wp_bind, wp_lift; [|done]. intros [] Hval.
  apply wp_bind. apply createEvent_wp; [|intros; by apply good_tick]. intros e1 Hp1.
  apply wp_bind. apply createEvent_wp; [|intros; by apply good_tick, good_tick]. intros e2 Hp2.
  pose proof (good_tick _ _ (good_tick _ _ Hgood)) as Hgood2.
  destruct Hgood as [Hk Htr0]. pose proof Htr0 as (Hlen & Hlive & Hown & p & Hp & Hsim).
  destruct (draft_canonical _ _ _ _ Hp1) as (Ht1 & _ & _ & Hs1 & Hty1).
  destruct (draft_canonical _ _ _ _ Hp2) as (Ht2 & _ & _ & Hs2 & Hty2). cbn in Hty1, Hty2, Hs2, Hlen.
  unfold log_of in *; cbn in Hlen, Hlive, Hp. fold T in Hp.
  assert (Hneutral : neutral (type e1) = true) by (rewrite Hty1; apply attempt_neutral).
  apply wp_bind. apply appendTerminal_wp; [done| | |].
  { eapply draft_next; [exact Hp1|lia|auto|]. eapply draft_next; [exact Hp2| | |constructor].
    - rewrite length_app. cbn. lia.
    - apply live_snoc. by apply neutral_not_terminal. }
  2:{ intros err k' Hk' Hl'. by eapply good_unchanged. }
  intros k' Hk' Hl'.
  destruct (apply_neutral e1 p) as (p1 & Happ1 & He1); [by eapply tracks_follows|done|].
  pose proof (sim_after _ _ Hsim) as Hsim1. rewrite Hs1 in He1.
  rewrite He1 in Hsim1. clear He1.
  destruct (terminal_type_facts outcome) as (Hf1 & Hf2 & Hf3 & Hf4).
  rewrite <- Hty2 in Hf1, Hf2, Hf3, Hf4.
  assert (Hfol : follows p1 e2).
  { pose proof (sim_live _ _ Hsim1 Hterm). destruct Hsim1. split_and!; [congruence|cbn in *; lia|done]. }
  destruct (apply_terminal e2 p1 outcome next) as (p2 & Happ2 & He2); try done.
  { by apply terminal_payload in Hp2. }
  { destruct Hsim1 as [_ -> _ _ _ _ _ _ _ _ _]. exact Htr. }
  { destruct Hsim1 as [_ _ -> -> _ _ -> _ _ _ _]. exact Hval. }
  { eapply sim_settled; [exact Hsim1|done|exact Hval]. }
  apply wp_bind. unfold wp at 1, upd, modify; cbn.
  apply wp_bind. unfold wp at 1, modify; cbn. unfold wp, modify; cbn.
  split; [done|]. unfold log_of; cbn. rewrite Hl'. split_and!.
  - rewrite length_app. cbn. lia.
  - cbn. unfold isTerminal; cbn. rewrite Hnext. by destruct outcome.
  - done.
  - exists p2. split.
    + rewrite project_from_app, Hp. change [e1; e2] with ([e1] ++ [e2]).
      rewrite project_from_app, (project_from_one _ _ _ Happ1). by apply project_from_one.
    + rewrite <- He2. rewrite Hs2. destruct Hsim1. split; cbn in *; try done; try lia; try congruence.
      unfold isTerminal; cbn. rewrite Hnext. by destruct outcome.
Qed.

Lemma startNow_good c k :
  good (c, k) -> wp (startNow options) (fun _ => good) (fun _ => good) (c, k).
Proof.
  intros Hgood. unfold startNow. apply wp_bind, wp_get. unfold id.
  destruct (c_accepted c); [by apply wp_throw|].
  apply wp_bind, wp_lift; [|done]. intros next Htr.
  pose proof (proj1 (transition_ok _ _ _ _ _ _) Htr) as [-> Hin].
  assert (Hterm : isTerminal c = false).
  { unfold isTerminal. destruct (c_status c); cbn in *; try done; by apply elem_of_nil in Hin. }
  apply wp_bind, wp_lift; [|done]. intros nextAttempt _.
  apply wp_bind. apply createEvent_wp; [|intros; by apply good_tick]. intros e1 Hp1.
  apply wp_bind. apply createEvent_wp; [|intros; by do 2 apply good_tick]. intros e2 Hp2.
  apply wp_bind. apply createEvent_wp; [|intros; by do 3 apply good_tick]. intros e3 Hp3.
  pose proof (good_tick _ _ (good_tick _ _ (good_tick _ _ Hgood))) as Hgood3.
  destruct Hgood as [Hk Htr0]. pose proof Htr0 as (Hlen & Hlive & Hown & p & Hp & Hsim).
  destruct (draft_canonical _ _ _ _ Hp1) as (Ht1 & _ & _ & Hs1 & Hty1).
  destruct (draft_canonical _ _ _ _ Hp2) as (Ht2 & _ & _ & Hs2 & Hty2).
  destruct (draft_canonical _ _ _ _ Hp3) as (Ht3 & _ & _ & Hs3 & Hty3).
  cbn in Hty1, Hty2, Hty3, Hs2, Hs3. unfold log_of in *; cbn in Hlen, Hlive, Hp. fold T in Hp.
  apply wp_bind. apply appendBatch_wp; [done| | |].
  { eapply draft_next; [exact Hp1|lia|auto|].
    eapply draft_next; [exact Hp2|rewrite length_app; cbn; lia|apply live_snoc; by rewrite Hty1|].
    eapply draft_next; [exact Hp3|rewrite !length_app; cbn; lia|apply live_snoc; by rewrite Hty2|].
    constructor. }
  2:{ intros err k' Hk' Hl'. by eapply good_unchanged. }
  intros r k' Hk' Hl'.
  destruct (apply_neutral e1 p) as (p1 & Happ1 & He1);
    [by eapply tracks_follows|by rewrite Hty1|].
  pose proof (sim_after _ _ Hsim) as Hsim1. rewrite Hs1 in He1. rewrite He1 in Hsim1. clear He1.
  assert (Hno1 : p_terminalOutcome p1 = None).
  { by eapply sim_live. }
  destruct (apply_turn_started e2 p1) as (p2 & Happ2 & He2); [|done| |].
  { destruct Hsim1. split_and!; [congruence|cbn in *; lia|done]. }
  { destruct Hsim1 as [_ -> _ _ _ _ _ _ _ _ _]. exact Htr. }
  assert (Hsim2 : sim (set_status in_progress (after (after c))) p2).
  { rewrite <- He2. rewrite Hs2. destruct Hsim1. split; cbn in *; try done; try lia; try congruence.
    by rewrite Hno1. }
  destruct (apply_neutral e3 p2) as (p3 & Happ3 & He3); [|by rewrite Hty3|].
  { destruct Hsim2. split_and!; [congruence|cbn in *; lia|].
    by destruct (p_terminalOutcome p2). }
  do 4 (apply wp_bind; unfold wp at 1, upd, modify; cbn). unfold wp, mret, ST_ret.
  split; [done|]. unfold log_of; cbn. rewrite Hl'. split_and!.
  - rewrite length_app. cbn. lia.
  - intros _. change [e1; e2; e3] with ([e1; e2] ++ [e3]). rewrite app_assoc.
    apply live_snoc. by rewrite Hty3.
  - done.
  - exists p3. split.
    + rewrite project_from_app, Hp. change [e1; e2; e3] with ([e1] ++ [e2] ++ [e3]).
      rewrite project_from_app, (project_from_one _ _ _ Happ1).
      rewrite project_from_app, (project_from_one _ _ _ Happ2). by apply project_from_one.
    + rewrite <- He3. rewrite Hs3. destruct Hsim2. split; cbn in *; try done; lia.
Qed.


(** ** Every operation *)

Definition fresh_item (c : Coord) (i : string) : Prop := dget i (c_itemStatuses c) = None.

(** What a caller owes an operation: items are opened under new ids, a
    compaction is settled on an item that is no tool call's, and an approval is
    requested while the turn is in progress. *)
Definition op_contract (c : Coord) (op : operation) : Prop :=
  match op with
  | OpStartToolCall i _ _ _ _ _ | OpCommentary i _ | OpReasoning i _ _ | OpComplete _ i =>
      fresh_item c i
  | OpRequestCompaction p => fresh_item c (cc_itemId p)
  | OpSettleCompaction p => forall t, dget t (c_toolCallItems c) <> Some (cc_itemId p)
  | OpRequestApproval _ _ i _ => fresh_item c i /\ c_status c = in_progress
  | _ => True
  end.

(** A state whose item [i] belongs to no tool call. *)
Definition unowned_good (i : string) (w : World (K:=K)) : Prop :=
  good w /\ forall t, dget t (c_toolCallItems (fst w)) <> Some i.

Lemma wp_good_mono {A} (m : M A) (Q : A -> World -> Prop) w :
  wp m Q (fun _ => good) w -> (forall a w', Q a w' -> good w') ->
  wp m (fun _ => good) (fun _ => good) w.
Proof. intros. by eapply wp_mono. Qed.

Lemma emit_neutral_good fields c k :
  good (c, k) -> neutral (ef_type fields) = true ->
  wp (emit options fields) (fun _ => good) (fun _ => good) (c, k).
Proof. intros. eapply wp_good_mono; [by apply emit_neutral|]. by intros ? ? []. Qed.

Lemma emit_unowned fields i w :
  unowned_good i w -> neutral (ef_type fields) = true ->
  wp (emit options fields) (fun _ => unowned_good i) (fun _ => good) w.
Proof.
  destruct w as [c k]. intros [Hg Hfree] Hn.
  eapply wp_mono; [by apply emit_neutral| |done]. intros _ [c' k'] [Hg' Hc]. cbn in Hc. subst c'.
  by split.
Qed.

Lemma emit_all_unowned i (f : string -> EventFields) xs w :
  (forall d, neutral (ef_type (f d)) = true) -> unowned_good i w ->
  wp (for_of xs (fun d => emit options (f d))) (fun _ => unowned_good i) (fun _ => good) w.
Proof.
  intros Hf Hw. apply (wp_for_of _ (fun _ => unowned_good i)); [|done].
  intros x xs' w' Hw'. by apply emit_unowned.
Qed.

Lemma startItem_unowned i kind payload c k :
  good (c, k) -> fresh_item c i ->
  wp (startItem options i kind payload) (fun _ => unowned_good i) (fun _ => good) (c, k).
Proof.
  intros Hgood Hfresh. pose proof (good_project _ _ Hgood) as (_ & _ & _ & Hown & _).
  destruct (fresh_unowned _ _ _ _ _ _ Hown Hfresh) as [Hnt _].
  eapply wp_mono; [by apply startItem_good| |done]. intros _ [c' k'] [Hg Hc].
  cbn in Hc. subst c'. by split.
Qed.

Lemma settleItem_unowned i st payload w :
  unowned_good i w -> isTerminalItemStatus st = true ->
  wp (settleItem options i st payload) (fun _ => good) (fun _ => good) w.
Proof.
  destruct w as [c k]. intros [Hg Hfree] Hst.
  eapply wp_good_mono; [by apply settleItem_good|by intros ? ? []].
Qed.

(** Text is streamed to a new item, which is then completed. *)
Lemma stream_good i kind (f : string -> EventFields) xs c k :
  (forall d, neutral (ef_type (f d)) = true) -> good (c, k) -> fresh_item c i ->
  wp (_ ← startItem options i kind []; _ ← for_of xs (fun d => emit options (f d));
      settleItem options i it_completed [("result", JObj [])])
    (fun _ => good) (fun _ => good) (c, k).
Proof.
  intros Hf Hg Hfresh. apply wp_bind.
  eapply wp_mono; [by apply startItem_unowned| |done]. intros ? w1 Hw1. apply wp_bind.
  eapply wp_mono; [by apply (emit_all_unowned i f)| |done]. intros ? w2 Hw2.
  by apply settleItem_unowned.
Qed.

Lemma complete_good output i c k :
  good (c, k) -> fresh_item c i ->
  wp (completeNow options output i) (fun _ => good) (fun _ => good) (c, k).
Proof.
  intros Hg Hfresh. unfold completeNow. apply wp_bind.
  eapply wp_mono; [by apply startItem_unowned| |done]. intros ? w1 Hw1. apply wp_bind.
  eapply wp_mono; [by apply (emit_all_unowned i (fun d => mkFields "assistant_message.delta" (Some i)
    None None [("phase", JStr "final_answer"); ("delta", JStr d)]))| |done]. intros ? w2 Hw2. apply wp_bind.
  eapply wp_mono; [by apply settleItem_unowned| |done]. intros ? [c3 k3] Hg3.
  by apply settleTurn_good.
Qed.

Lemma requestCompaction_good p c k :
  good (c, k) -> wp (requestContextCompaction options p) (fun _ => good) (fun _ => good) (c, k).
Proof.
  intros Hg. unfold requestContextCompaction. apply wp_bind.
  eapply wp_mono; [by apply startItem_good| |done]. intros ? [c1 k1] [Hg1 _]. apply wp_bind.
  eapply wp_mono; [by apply emit_neutral| |done]. intros ? [c2 k2] [Hg2 _].
  by apply emit_neutral_good.
Qed.

Lemma settleCompaction_good p c k :
  good (c, k) -> (forall t, dget t (c_toolCallItems c) <> Some (cc_itemId p)) ->
  wp (settleContextCompaction options p) (fun _ => good) (fun _ => good) (c, k).
Proof.
  intros Hg Hfree. unfold settleContextCompaction. apply wp_bind.
  destruct (decide (cc_phase p = "failed"));
    (eapply wp_mono; [eapply emit_unowned; [split; [exact Hg|exact Hfree]|done]| |done];
     intros ? w Hw; by apply settleItem_unowned).
Qed.

Lemma toolOutput_good t output c k :
  good (c, k) -> wp (appendToolOutputNow options t output) (fun _ => good) (fun _ => good) (c, k).
Proof.
  intros Hg. unfold appendToolOutputNow. apply wp_bind, requireActive_wp; [intros _|done].
  apply wp_bind, requireToolItem_wp; [intros i _|done]. by apply emit_neutral_good.
Qed.

Lemma emit_record_good ty key i value c k :
  good (c, k) -> neutral ty = true ->
  wp (emit_record options ty key i value) (fun _ => good) (fun _ => good) (c, k).
Proof.
  intros Hg Hn. unfold emit_record. apply wp_bind, wp_lift; [|done]. intros r _.
  by apply emit_neutral_good.
Qed.

Lemma hookAudit_good ty payload c k :
  good (c, k) -> wp (appendHookAudit options ty payload) (fun _ => good) (fun _ => good) (c, k).
Proof.
  intros Hg. unfold appendHookAudit, throw_if. apply wp_bind.
  destruct (negb _) eqn:Hty; [by apply wp_throw|]. apply wp_ret.
  apply wp_bind, wp_lift; [|done]. intros r _. apply emit_neutral_good; [done|]. cbn.
  apply negb_false_iff, bool_decide_eq_true in Hty.
  unfold RUNTIME_HOOK_AUDIT_EVENT_TYPES in Hty.
  by repeat (apply elem_of_cons in Hty as [->|Hty]; [done|]); apply elem_of_nil in Hty.
Qed.

Lemma acceptInput_good i ci m f c k :
  good (c, k) -> wp (acceptThreadInput options i ci m f) (fun _ => good) (fun _ => good) (c, k).
Proof.
  intros Hg. unfold acceptThreadInput, throw_if. apply wp_bind, wp_get.
  destruct (dget i _); [by apply wp_ret|]. apply wp_bind, wp_get, wp_bind.
  destruct (_ || _); [by apply wp_throw|]. apply wp_ret, wp_bind.
  eapply wp_mono; [by apply emit_neutral_good| |done]. intros ? [c1 k1] Hg1.
  apply wp_bind, wp_get, wp_bind. unfold wp at 1, upd, modify; cbn.
  assert (good (set_acceptedInput i (c_sequence c1) c1, k1)) by by eapply good_ext.
  apply wp_bind, wp_lift; [|done]. intros [] _. by apply wp_ret.
Qed.

(** The main step: an operation within its contract keeps the coordinator and
    the projection of its log in agreement, whether it returns or throws. *)
Lemma run_op_good op w :
  good w -> op_contract (fst w) op ->
  wp (run_op options op) (fun _ => good) (fun _ => good) w.
Proof.
  destruct w as [c k]. intros Hg Hc. cbn in Hc.
  destruct op; cbn [run_op] in *;
    try by (first [apply emit_neutral_good | apply emit_record_good | apply hookAudit_good]).
  - apply wp_bind. eapply wp_mono; [by apply startNow_good| |done]. intros ? ? ?. by apply wp_ret.
  - by apply startToolCall_good.
  - unfold appendAssistantCommentary. case_decide; [by apply wp_ret|].
    by apply (stream_good itemId "commentary" (fun d => mkFields "assistant_message.delta"
      (Some itemId) None None [("phase", JStr "commentary"); ("delta", JStr d)])).
  - unfold appendAssistantReasoning. destruct (_ || _); [by apply wp_ret|].
    by apply (stream_good itemId "reasoning" (fun d => mkFields "reasoning.summary_delta"
      (Some itemId) None None [("delta", JStr d); ("displaySafe", JBool true)])).
  - by apply toolOutput_good.
  - by apply requestCompaction_good.
  - by apply settleCompaction_good.
  - eapply wp_good_mono; [by apply settleToolCall_good|]. by intros ? ? [].
  - eapply wp_good_mono; [by apply settleToolCall_good|]. by intros ? ? [].
  - eapply wp_good_mono; [by apply settleToolCall_good|]. by intros ? ? [].
  - destruct Hc. by apply requestApproval_good.
  - eapply wp_good_mono; [by apply decideApproval_good|]. by intros ? ? [].
  - by apply complete_good.
  - apply wp_bind. eapply wp_mono; [by apply acceptInput_good| |done]. intros ? ? ?. by apply wp_ret.
  - apply wp_bind. unfold applyThreadInput. apply wp_bind.
    eapply wp_mono; [by apply emit_neutral_good| |done]. intros ? [c1 k1] Hg1.
    by apply wp_get, wp_ret.
  - apply wp_bind. unfold reserveCompletion. apply wp_bind, wp_get.
    destruct (_ || _); [by apply wp_ret, wp_ret|]. apply wp_bind. unfold wp, upd, modify; cbn.
    by eapply good_ext.
  - unfold failNow. apply wp_bind.
    eapply wp_mono; [by apply cancelPendingApprovals_good| |done]. intros ? [c1 k1] Hg1.
    apply wp_bind. eapply wp_mono; [by apply settleOpenWork_good| |done]. intros ? [c2 k2] Hg2.
    by apply settleTurn_good.
  - unfold interruptNow. apply wp_bind.
    eapply wp_mono; [by apply cancelPendingApprovals_good| |done]. intros ? [c1 k1] Hg1.
    apply wp_bind. eapply wp_mono; [by apply settleOpenWork_good| |done]. intros ? [c2 k2] Hg2.
    by apply settleTurn_good.
Qed.

(** A queue of operations each within its contract when it runs. *)
Fixpoint obeys (ops : list operation) (w : World (K:=K)) : Prop :=
  match ops with
  | [] => True
  | op :: ops' => op_contract (fst w) op /\ obeys ops' (snd (run_op options op w))
  end.

Lemma run_operations_good ops w : good w -> obeys ops w -> good (run_operations options ops w).
Proof.
  revert w. induction ops as [|op ops IH]; intros w Hg; [done|]. intros [Hc Hob].
  cbn. apply IH; [|done]. pose proof (run_op_good op w Hg Hc) as Hwp. unfold wp in Hwp.
  by destruct (run_op options op w) as [[] ?].
Qed.

Lemma new_coordinator_good k :
  sink_inv k -> sink_log T k = [] -> default 0 (o_initialSequence options) = 0 ->
  good (new_coordinator options, k).
Proof.
  intros Hk Hl Hi. split; [done|]. unfold log_of; cbn. rewrite Hl. split_and!.
  - cbn. by rewrite Hi.
  - done.
  - by split; cbn; try done; try apply NoDup_nil_2.
  - exists (createState T). split; [done|]. by split.
Qed.

End Simulation.

(** * Properties *)

(** C1. Refinement of the turn projection by the coordinator: whatever sequence
    of operations a new coordinator is asked to run, within their contracts and
    with any of them failing half way on a rejected event or an unavailable
    sink, the events it left in the log of its turn are accepted by the
    projector, and the projected state agrees with the coordinator's own fields:
    turn status, blocking state, items, tool calls, approvals and sequence. *)
Theorem coordinator_stream_projects `{!JsRuntime} {K : Type}
    `{!LifecycleSink K, !LifecycleSinkLaws K}
    (options : RuntimeLifecycleCoordinatorOptions) (k : K) (ops : list operation) :
  sink_inv k -> sink_log (o_turnId options) k = [] -> default 0 (o_initialSequence options) = 0 ->
  obeys options ops (new_coordinator options, k) ->
  let w := run_operations options ops (new_coordinator options, k) in
  exists p, project_from (createState (o_turnId options))
              (sink_log (o_turnId options) (snd w)) = Ok p /\
    sim options (fst w) p.
Proof.
  intros Hk Hl Hi Hob w. assert (Hgood : good options w).
  { apply run_operations_good; [by apply new_coordinator_good|done]. }
  destruct Hgood as (_ & _ & _ & _ & p & Hp & Hsim). by exists p.
Qed.

(** A turn of the demo host. *)
Definition demo_options : RuntimeLifecycleCoordinatorOptions :=
  mkOptions "thr_demo01" "wrk_demo01" "trn_demo01" "attempt_demo01" "kernel"
    (fun _ => "2025-01-01T00:00:00.000Z") None None None None None.

Definition demo_ops : list operation :=
  [OpStart; OpStartToolCall "itm_tool01" "toolcall_01aaaa" "read_file" [] None None;
   OpRequestApproval "itm_tool01" "appr_000001" "itm_appr01" [];
   OpToolOutput "toolcall_unknown" "x";
   OpDecideApproval "appr_000001" ap_approved [];
   OpCompleteTool "toolcall_01aaaa" []; OpComplete "done" "itm_answer1"].

Definition demo_world : World (K:=MemoryLifecycleEventStore) :=
  (new_coordinator demo_options, empty_store).

Lemma empty_store_sink `{JsRuntime} : sink_inv empty_store.
Proof.
  split; [apply empty_store_ok|]. intros t x. unfold turn_log; cbn. rewrite lookup_empty.
  cbn. by rewrite elem_of_nil.
Qed.

Lemma coordinator_stream_projects_witness :
  let _ := iso_runtime in
  let w := run_operations demo_options demo_ops demo_world in
  (c_status (fst w) = completed /\
   length (sink_log (H0 := memory_sink) "trn_demo01" (snd w)) = 19%nat) /\
  exists p, project_from (createState "trn_demo01")
    (sink_log (H0 := memory_sink) "trn_demo01" (snd w)) = Ok p /\ sim demo_options (fst w) p.
Proof.
  pose (R := iso_runtime). split; [by vm_compute|].
  apply (coordinator_stream_projects (H := R) demo_options empty_store demo_ops).
  - apply empty_store_sink.
  - by vm_compute.
  - done.
  - vm_compute. repeat split.
Defined.
