(* ===== verification/CoordinatorProps.v ===== *)
(** Properties of single operations of the coordinator: nothing is written after
    the end of a turn, streamed text is cut without loss, and the error paths the
    model brings to light. *)
From S2P Require Import Prelude Js Zod Protocol LifecycleEvents EventStore Coordinator Projector Sink ProjectorFacts Simulation.

(** * After the end of the turn *)

Section Silent.
Context `{!JsRuntime} {K : Type} `{!LifecycleSink K}.
Variable options : RuntimeLifecycleCoordinatorOptions.
Variable k0 : K.

(** The turn has ended, and the sink is as it was. *)
Definition ended (w : World (K:=K)) : Prop := isTerminal (fst w) = true /\ snd w = k0.

Lemma emit_ended fields w :
  ended w -> exists err, emit options fields w = (Err err, w).
Proof.
  intros [Ht _]. unfold emit, get, mbind, ST_bind, gets, lift, isTerminal in *.
  unfold assertTurnAcceptsLifecycleEvent. rewrite Ht. by eexists.
Qed.

Lemma keeps_emit_then {A} fields (k : unit -> M (K:=K) A) :
  keeps ended (emit options fields ≫= k).
Proof.
  intros w Hw. destruct (emit_ended fields w Hw) as [err He].
  unfold mbind, ST_bind. by rewrite He.
Qed.

Lemma keeps_emit fields : keeps ended (emit options fields).
Proof. intros w Hw. destruct (emit_ended fields w Hw) as [err He]. by rewrite He. Qed.

Lemma keeps_get {A} (f : RuntimeLifecycleCoordinator -> A) : keeps ended (get (K:=K) f).
Proof. by intros w. Qed.

Lemma keeps_upd f :
  (forall c, isTerminal (f c) = isTerminal c) -> keeps ended (upd (K:=K) f).
Proof. intros Hf [c k] [Ht Hk]. split; [cbn; by rewrite Hf|done]. Qed.

Lemma keeps_settleTurn outcome : keeps ended (settleTurn options outcome).
Proof. intros w [Ht Hk]. unfold settleTurn, get, mbind, ST_bind, gets, id. by rewrite Ht. Qed.

Lemma keeps_startNow : keeps ended (startNow options).
Proof.
  intros w [Ht Hk]. unfold startNow, get, mbind, ST_bind, gets, id, lift.
  destruct (c_accepted (fst w)); [done|].
  destruct (transitionTurnStatus (c_status (fst w)) in_progress) as [next|] eqn:Htr; [|done].
  apply transition_ok in Htr as [_ Htr]. unfold isTerminal in Ht.
  by rewrite (terminal_no_transition _ Ht), elem_of_nil in Htr.
Qed.

Hint Resolve keeps_emit keeps_emit_then keeps_get keeps_settleTurn keeps_startNow : legion.

Ltac silent :=
  repeat match goal with
  | |- keeps _ (emit _ _ ≫= _) => apply keeps_emit_then
  | |- keeps _ (upd _) => by apply keeps_upd
  | |- _ => solve_keeps
  end.

Lemma keeps_startItem i kind pl : keeps ended (startItem options i kind pl).
Proof. unfold startItem. apply keeps_bind; [auto with legion|]. intros ?. apply keeps_emit_then. Qed.

Lemma keeps_startItem_then {A} i kind pl (k : unit -> M (K:=K) A) :
  keeps ended (startItem options i kind pl ≫= k).
Proof.
  intros w Hw. unfold startItem, mbind at 1, ST_bind at 1. unfold mbind at 1, ST_bind at 1, lift.
  cbn -[emit]. unfold mbind at 1, ST_bind at 1.
  match goal with |- context [emit options ?f w] => destruct (emit_ended f w Hw) as [err ->] end.
  done.
Qed.

Lemma keeps_require_tool t : keeps ended (requireToolCallItem (K:=K) t).
Proof. unfold requireToolCallItem. silent. Qed.
Lemma keeps_require_active t : keeps ended (requireActiveToolCall (K:=K) t).
Proof. unfold requireActiveToolCall. silent. Qed.
Lemma keeps_require_approval a : keeps ended (requireApprovalItem (K:=K) a).
Proof. unfold requireApprovalItem. silent. Qed.
Hint Resolve keeps_require_tool keeps_require_active keeps_require_approval : legion.

Lemma keeps_settleItem i st pl : keeps ended (settleItem options i st pl).
Proof. unfold settleItem. silent. Qed.
Hint Resolve keeps_settleItem : legion.

Lemma keeps_settleToolCall t st pl : keeps ended (settleToolCall options t st pl).
Proof. unfold settleToolCall. silent. Qed.
Hint Resolve keeps_settleToolCall : legion.

Lemma keeps_decideApproval a st pl : keeps ended (decideApprovalNow options a st pl).
Proof. unfold decideApprovalNow. silent. Qed.
Hint Resolve keeps_decideApproval : legion.

Lemma keeps_cancel r : keeps ended (cancelPendingApprovals options r).
Proof. unfold cancelPendingApprovals. silent. Qed.
Lemma keeps_settleOpenWork st pl : keeps ended (settleOpenWork options st pl).
Proof. unfold settleOpenWork. silent. Qed.
Lemma keeps_emit_record ty key i v : keeps ended (emit_record options ty key i v).
Proof. unfold emit_record. silent. Qed.
Hint Resolve keeps_cancel keeps_settleOpenWork keeps_emit_record : legion.

Lemma keeps_acceptInput i ci m f : keeps ended (acceptThreadInput options i ci m f).
Proof. unfold acceptThreadInput. silent. Qed.
Hint Resolve keeps_acceptInput : legion.

Lemma run_op_ended op : keeps ended (run_op options op).
Proof.
  destruct op; cbn [run_op];
    unfold startToolCallNow, appendAssistantCommentary, appendAssistantReasoning,
      appendToolOutputNow, createArtifactNow, captureWorkspaceSnapshot,
      markWorkspaceSnapshotUnavailable, appendHookAudit, createTurnArtifact, updateTurnDiff,
      updateContextBudget, updateUsage, requestContextCompaction, settleContextCompaction,
      requestApprovalNow, applyThreadInput, reserveCompletion, completeNow, failNow, interruptNow;
    repeat case_decide; repeat case_match;
    try apply keeps_startItem_then; silent.
Qed.
End Silent.

(** * Cutting streamed text *)

Lemma substring_length o n s :
  String.length (String.substring o n s) = Nat.min n (String.length s - o).
Proof.
  revert o n. induction s as [|c s IH]; intros [|o] [|n]; cbn; try done.
  all: by rewrite IH, ?Nat.sub_0_r.
Qed.

Lemma substring_past o n s : (String.length s <= o + n)%nat ->
  String.substring o n s = String.substring o (String.length s - o) s.
Proof.
  revert o n. induction s as [|c s IH]; intros [|o] n Hn; [by destruct n..| |].
  - destruct n as [|n]; cbn in Hn; [lia|]. cbn. rewrite (IH 0%nat n) by lia. by rewrite Nat.sub_0_r.
  - cbn in Hn |- *. apply IH. lia.
Qed.

Lemma substring_none o s : String.substring o 0 s = "".
Proof. revert o. induction s as [|c s IH]; intros [|o]; cbn; auto. Qed.

Lemma concat_cons x l : String.concat "" (x :: l) = x +:+ String.concat "" l.
Proof. destruct l; cbn; [|done]. by rewrite append_nil_r. Qed.

Lemma split_chunks_concat fuel o s :
  (String.length s - o <= fuel)%nat -> String.concat "" (split_chunks fuel o s) = slice_from o s.
Proof.
  revert o. induction fuel as [|fuel IH]; intros o Hf; cbn [split_chunks].
  - unfold slice_from. replace (String.length s - o)%nat with 0%nat by lia. by rewrite substring_none.
  - case_match eqn:Ho.
    + apply Nat.ltb_lt in Ho. rewrite concat_cons, IH by (unfold MAX_LIFECYCLE_OUTPUT_LENGTH; lia).
      unfold slice, slice_from. replace (o + MAX_LIFECYCLE_OUTPUT_LENGTH - o)%nat
        with MAX_LIFECYCLE_OUTPUT_LENGTH by lia.
      rewrite substring_split. by apply substring_past; lia.
    + apply Nat.ltb_ge in Ho. unfold slice_from.
      replace (String.length s - o)%nat with 0%nat by lia. by rewrite substring_none.
Qed.

Lemma split_chunks_sizes fuel o s :
  Forall (fun x => (1 <= String.length x <= MAX_LIFECYCLE_OUTPUT_LENGTH)%nat) (split_chunks fuel o s).
Proof.
  revert o. induction fuel as [|fuel IH]; intros o; cbn [split_chunks]; [constructor|].
  case_match eqn:Ho; [|constructor]. apply Nat.ltb_lt in Ho. constructor; [|apply IH].
  unfold slice. rewrite substring_length. unfold MAX_LIFECYCLE_OUTPUT_LENGTH. lia.
Qed.

(** An [item.failed] event must carry a failure. *)
Lemma failure_needs_failure `{!JsRuntime} d e r :
  parse_event d = Ok e -> type d = "item.failed" -> payload d <> [("reason", r)].
Proof.
  intros Hp Hty Hpl. apply parse_event_inv in Hp as (sh & pl & Hsh & _ & _ & _ & _ & _ & Hz & _).
  rewrite Hty in Hsh.
  change (Some (item_shape (z_object [req "failure" ProtocolErrorSchema])) = Some sh) in Hsh.
  injection Hsh as <-. rewrite Hpl in Hz. discriminate Hz.
Qed.

(** * Properties *)

(** The end of a turn is final: no operation or sequence of operations writes
    anything for a turn that has ended, and it stays ended. *)
Theorem ended_turn_silent `{!JsRuntime} {K : Type} `{!LifecycleSink K} options ops
    (c : RuntimeLifecycleCoordinator) (k : K) :
  isTerminal c = true ->
  let w := run_operations options ops (c, k) in isTerminal (fst w) = true /\ snd w = k.
Proof.
  intros Ht. assert (Hw : ended k (c, k)) by done. revert Hw. generalize (c, k) as w.
  induction ops as [|op ops IH]; intros w Hw; [done|]. cbn. apply IH. by apply run_op_ended.
Qed.

Lemma ended_turn_silent_witness :
  let _ := iso_runtime in
  let w := run_operations demo_options demo_ops demo_world in
  isTerminal (fst w) = true /\
  isTerminal (fst (run_operations demo_options demo_ops w)) = true /\
  snd (run_operations demo_options demo_ops w) = snd w.
Proof.
  intros R w. assert (Ht : isTerminal (fst w) = true) by by vm_compute. split; [done|].
  pose proof (ended_turn_silent (H := R) demo_options demo_ops (fst w) (snd w) Ht) as Hs.
  cbn zeta in Hs. rewrite <- surjective_pairing in Hs. exact Hs.
Defined.

(** Streamed text reaches the log without loss: the deltas an output is cut
    into concatenate to it, each fits the 4000 characters of the schema, there is
    at least one, and none but that of the empty output is empty. *)
Theorem splitLifecycleOutput_lossless output :
  String.concat "" (splitLifecycleOutput output) = output /\
  splitLifecycleOutput output <> [] /\
  Forall (fun delta => (String.length delta <= MAX_LIFECYCLE_OUTPUT_LENGTH)%nat /\
                       (output <> "" -> delta <> "")) (splitLifecycleOutput output).
Proof.
  unfold splitLifecycleOutput. case_decide as Hout.
  - subst output. split_and!; [done|done|]. constructor; [|constructor]. split; [|done].
    apply Nat.leb_le. reflexivity.
  - assert (Hcat : String.concat "" (split_chunks (String.length output) 0 output) = output).
    { rewrite split_chunks_concat by lia. unfold slice_from. rewrite Nat.sub_0_r. apply substring_all. }
    split_and!; [done|intros Hnil; rewrite Hnil in Hcat; done|].
    eapply Forall_impl; [apply split_chunks_sizes|]. intros x Hx. cbn in Hx. split; [apply Hx|].
    intros _ ->. cbn in Hx. lia.
Qed.

(** A context compaction that failed cannot be recorded: settling one with the
    phase [failed] throws in every state, because the [item.failed] event it ends
    with carries a [reason] where the schema asks for a [failure]. *)
Theorem failed_compaction_throws `{!JsRuntime} {K : Type} `{!LifecycleSink K} options payload
    (w : World (K:=K)) :
  cc_phase payload = "failed" ->
  is_ok (fst (run_op options (OpSettleCompaction payload) w)) = false.
Proof.
  intros Hphase. cbn [run_op]. unfold settleContextCompaction. rewrite Hphase, !decide_True by done.
  unfold mbind at 1, ST_bind at 1. destruct (emit options _ w) as [[[]|] w']; [|done].
  unfold settleItem, mbind at 1, ST_bind at 1, get, gets.
  unfold mbind at 1, ST_bind at 1, lift. destruct (transitionItemStatus _ it_failed); [|done].
  unfold mbind at 1, ST_bind at 1, emit. unfold mbind at 1, ST_bind at 1, get, gets.
  unfold mbind at 1, ST_bind at 1, lift. destruct (assertTurnAcceptsLifecycleEvent _ _); [|done].
  unfold createEvent, mbind, ST_bind, get, gets, upd, modify, lift.
  destruct (parse_event _) as [e|] eqn:Hp; [|done].
  by eapply failure_needs_failure in Hp.
Qed.

Definition failed_compaction : ContextCompactionPayload :=
  mkCompaction "cmp_01" "itm_compact1" "manual" "failed" None None (Some "model unavailable").

Lemma failed_compaction_throws_witness :
  let _ := iso_runtime in
  is_ok (fst (run_op demo_options (OpSettleCompaction failed_compaction)
    (run_operations demo_options [OpStart; OpRequestCompaction failed_compaction] demo_world))) = false.
Proof. intros R. exact (failed_compaction_throws (H := R) demo_options failed_compaction _ eq_refl). Defined.

(** ** What the contract of C1 excludes *)

(** A second approval asked for while one is pending is refused, but only after its
    [turn.blocking_changed] event is in the log: the projector then rejects the
    log of the turn. *)
Example second_approval_corrupts :
  let _ := iso_runtime in
  let request a i := OpRequestApproval "itm_tool01" a i [] in
  let w := run_operations demo_options
    [OpStart; OpStartToolCall "itm_tool01" "toolcall_01aaaa" "read_file" [] None None;
     request "appr_000001" "itm_appr01"] demo_world in
  let '(r, w') := run_op demo_options (request "appr_000002" "itm_appr02") w in
  is_ok r = false /\
  is_ok (project_from (createState "trn_demo01") (sink_log (H0 := memory_sink) "trn_demo01" (snd w))) = true /\
  is_ok (project_from (createState "trn_demo01") (sink_log (H0 := memory_sink) "trn_demo01" (snd w'))) = false.
Proof. by vm_compute. Qed.

(** A store whose n-th append may fail. *)
Definition flaky_store : Type := MemoryLifecycleEventStore * list bool.
#[export] Instance flaky_sink `{JsRuntime} : LifecycleSink flaky_store := fun es k =>
  match snd k with
  | true :: up => (Err (JsError "unavailable"), (fst k, up))
  | up => let '(r, s) := EventStore.appendBatch es (fst k) in (r, (s, tail up))
  end.

(** One append that fails between [approval.decided] and the blocking change leaves
    the turn blocked on an approval that is no longer pending; neither [interrupt]
    nor [fail] can end it then, with the sink available again. *)
Example lost_unblock_never_settles :
  let _ := iso_runtime in
  let outages := [false; false; false; false; false; false; false; false; true] in
  let w := run_operations (K := flaky_store) demo_options
    [OpStart; OpStartToolCall "itm_tool01" "toolcall_01aaaa" "read_file" [] None None;
     OpRequestApproval "itm_tool01" "appr_000001" "itm_appr01" [];
     OpDecideApproval "appr_000001" ap_approved []]
    (new_coordinator demo_options, (empty_store, outages)) in
  let w' := run_operations demo_options
    [OpInterrupt "stop"; OpInterrupt "stop"] w in
  snd (snd w) = [] /\ isTerminal (fst w') = false /\ c_blockingState (fst w') <> b_none /\
  is_ok (fst (run_op demo_options (OpInterrupt "stop") w')) = false.
Proof. by vm_compute. Qed.
