(* ===== verification/Restore.v ===== *)
(** [RuntimeLifecycleCoordinator.restoreForInterruption]: rebuilding a
    coordinator from the history of a turn that waits for an approval, to
    interrupt it. *)
From S2P Require Import Prelude Js Zod Protocol LifecycleEvents Coordinator Projector.

(** The coordinator under reconstruction and the local variables of
    [restoreApprovalWaitState]. *)
Record RestoreState : Type := mkRestore {
  rs_coordinator : RuntimeLifecycleCoordinator;
  rs_previousStatus : TurnStatus;
  rs_queued : bool;
  rs_started : bool;
  rs_lastEvent : option LifecycleEvent;
}.

Definition with_coordinator (f : RuntimeLifecycleCoordinator -> RuntimeLifecycleCoordinator)
    (s : RestoreState) : RestoreState :=
  mkRestore (f (rs_coordinator s)) (rs_previousStatus s) (rs_queued s) (rs_started s)
    (rs_lastEvent s).
Definition with_status (st : TurnStatus) (s : RestoreState) : RestoreState :=
  mkRestore (rs_coordinator s) st (rs_queued s) (rs_started s) (rs_lastEvent s).

Definition reject_if (b : bool) (e : error) : res error unit :=
  if b then Err e else Ok tt.

Definition starts_with (p s : string) : bool := is_some (strip_prefix p s).

Definition opt_str_eqb (a b : option string) : bool := bool_decide (a = b).

(** The id a typed event carries. *)
Definition id_of (o : option string) : string := default "" o.

Definition has_status {A} `{EqDecision A} (a : A) (o : option A) : bool :=
  bool_decide (o = Some a).

Section Restore.
Context `{!JsRuntime}.
Variable options : RuntimeLifecycleCoordinatorOptions.

Definition check_identity (e : LifecycleEvent) : res error unit :=
  reject_if (negb (bool_decide (threadId e = o_threadId options)) ||
             negb (bool_decide (turnId e = o_turnId options)) ||
             negb (bool_decide (runAttemptId e = o_runAttemptId options)))
    (LifecycleTransitionError s_turn (o_turnId options) (turnId e)
       "lifecycle identity changed during approval-wait restoration").

Definition restore_turn_queued (e : LifecycleEvent) (s : RestoreState)
    : res error RestoreState :=
  _ ← reject_if (rs_queued s || rs_started s || negb (sequence e =? 1))
        (LifecycleTransitionError s_turn (Number_toString (sequence e)) "turn.queued"
           "turn acceptance must begin the canonical lifecycle");
  mret (mkRestore (rs_coordinator s) (rs_previousStatus s) true (rs_started s)
          (rs_lastEvent s)).

Definition restore_turn_started (e : LifecycleEvent) (s : RestoreState)
    : res error RestoreState :=
  _ ← reject_if (negb (rs_queued s) || rs_started s)
        (LifecycleTransitionError s_turn (TurnStatus_str (rs_previousStatus s)) "turn.started"
           "turn must be accepted exactly once before it starts");
  let eventRevision := get_str "revisionOfTurnId" (payload e) in
  _ ← reject_if ((is_some (dget "revisionOfTurnId" (payload e)) &&
                  negb (is_some eventRevision)) ||
                 negb (opt_str_eqb eventRevision (o_revisionOfTurnId options)))
        (LifecycleTransitionError s_turn (default "missing_revision" eventRevision)
           (default "no_revision" (o_revisionOfTurnId options))
           "turn revision identity changed during lifecycle restoration");
  let continuation := get_str "continuationOfTurnId" (payload e) in
  _ ← reject_if (negb (opt_str_eqb continuation (o_continuationOfTurnId options)) ||
                 negb (opt_str_eqb (get_str "originalPromptId" (payload e))
                         (o_originalPromptId options)))
        (LifecycleTransitionError s_turn (default "no_continuation" continuation)
           (default "no_continuation" (o_continuationOfTurnId options))
           "turn continuation identity changed during lifecycle restoration");
  next ← transitionTurnStatus (rs_previousStatus s) in_progress;
  mret (mkRestore (set_accepted true (rs_coordinator s)) next (rs_queued s) true
          (rs_lastEvent s)).

Definition blocking_kind (b : TurnBlockingState) : string :=
  match b with
  | b_none => "none"
  | b_waiting_for_approval _ _ => "waiting_for_approval"
  | b_waiting_for_user_input _ _ => "waiting_for_user_input"
  | b_retry_scheduled _ => "retry_scheduled"
  end.

Definition restore_blocking (e : LifecycleEvent) (s : RestoreState)
    : res error RestoreState :=
  _ ← reject_if (negb (rs_started s))
        (LifecycleTransitionError s_turn (TurnStatus_str (rs_previousStatus s))
           "turn.blocking_changed" "turn must be started before it can block");
  let c := rs_coordinator s in
  match dget "blockingState" (payload e) ≫= parse_blocking with
  | None => Err ZodError
  | Some blocking =>
      match blocking with
      | b_waiting_for_user_input _ _ | b_retry_scheduled _ =>
          Err (LifecycleTransitionError s_turn (blocking_kind blocking)
                 "waiting_for_approval" "only approval-wait recovery is supported")
      | b_waiting_for_approval i a =>
          _ ← reject_if (negb (has_status ap_pending (dget a (c_approvalStatuses c))) ||
                         negb (has_status i (dget a (c_approvalItems c))))
                (LifecycleTransitionError s_approval "missing" "pending"
                   "blocking approval does not match a pending approval request");
          next ← transitionTurnStatus (rs_previousStatus s) awaiting_approval;
          mret (with_coordinator (set_blockingState blocking) (with_status next s))
      | b_none =>
          next ← (if decide (rs_previousStatus s = awaiting_approval)
                  then transitionTurnStatus (rs_previousStatus s) in_progress
                  else mret (rs_previousStatus s));
          mret (with_coordinator (set_blockingState blocking) (with_status next s))
      end
  end.

Definition restore_attempt_started (s : RestoreState) : res error RestoreState :=
  _ ← reject_if (negb (rs_started s))
        (LifecycleTransitionError s_run_attempt "turn_not_started" "running"
           "run attempt cannot start before its turn");
  next ← transitionRunAttemptStatus (c_runAttemptStatus (rs_coordinator s)) ra_running;
  mret (with_coordinator (set_runAttemptStatus next) s).

Definition restore_attempt_settled (next : RunAttemptStatus) (s : RestoreState)
    : res error RestoreState :=
  next ← transitionRunAttemptStatus (c_runAttemptStatus (rs_coordinator s)) next;
  mret (with_coordinator (set_runAttemptStatus next) s).

Definition restore_item_started (e : LifecycleEvent) (s : RestoreState)
    : res error RestoreState :=
  let c := rs_coordinator s in
  let i := id_of (itemId e) in
  kind ← parse_kind (dget "kind" (payload e));
  match dget i (c_itemStatuses c) with
  | Some st =>
      Err (LifecycleTransitionError s_item (ItemStatus_str st) "active"
             ("item " +:+ i +:+ " was started more than once"))
  | None =>
      next ← transitionItemStatus it_not_started it_active;
      let parent := truthy (get_str "parentItemId" (payload e)) in
      mret (with_coordinator (fun c =>
        let c' := set_itemKind i kind (set_itemStatus i next c) in
        match (if decide (kind = "approval_request") then parent else None) with
        | Some parentItemId => set_approvalParent i parentItemId c'
        | None => c'
        end) s)
  end.

Definition restore_item_settled (e : LifecycleEvent) (status : ItemStatus)
    (s : RestoreState) : res error RestoreState :=
  let i := id_of (itemId e) in
  next ← transitionItemStatus
           (default it_not_started (dget i (c_itemStatuses (rs_coordinator s)))) status;
  mret (with_coordinator (set_itemStatus i next) s).

Definition tool_label (t : string) (c : RuntimeLifecycleCoordinator) : string :=
  default "missing" (ItemStatus_str <$> dget t (c_toolCallStatuses c)).

Definition restore_tool_started (e : LifecycleEvent) (s : RestoreState)
    : res error RestoreState :=
  let c := rs_coordinator s in
  let t := id_of (toolCallId e) in
  let i := id_of (itemId e) in
  _ ← reject_if (is_some (dget t (c_toolCallStatuses c)) ||
                 negb (has_status it_active (dget i (c_itemStatuses c))) ||
                 negb (has_status "tool_call" (dget i (c_itemKinds c))))
        (LifecycleTransitionError s_tool_call (tool_label t c) "active"
           ("tool call " +:+ t +:+ " has no fresh active item"));
  next ← transitionToolCallStatus it_not_started it_active;
  mret (with_coordinator (fun c => set_toolCallItem t i (set_toolCallStatus t next c)) s).

Definition restore_tool_delta (e : LifecycleEvent) (s : RestoreState)
    : res error RestoreState :=
  let c := rs_coordinator s in
  let t := id_of (toolCallId e) in
  _ ← reject_if (negb (has_status it_active (dget t (c_toolCallStatuses c))) ||
                 negb (has_status (id_of (itemId e)) (dget t (c_toolCallItems c))))
        (LifecycleTransitionError s_tool_call (tool_label t c) "active"
           ("tool call " +:+ t +:+ " is not active on its owning item"));
  mret s.

Definition restore_tool_settled (e : LifecycleEvent) (status : ItemStatus)
    (s : RestoreState) : res error RestoreState :=
  let c := rs_coordinator s in
  let t := id_of (toolCallId e) in
  _ ← reject_if (negb (has_status (id_of (itemId e)) (dget t (c_toolCallItems c))))
        (LifecycleTransitionError s_tool_call "missing" (type e)
           ("tool call " +:+ t +:+ " has no matching owner item"));
  next ← transitionToolCallStatus
           (default it_not_started (dget t (c_toolCallStatuses c))) status;
  mret (with_coordinator (set_toolCallStatus t next) s).

Definition restore_approval_requested (e : LifecycleEvent) (s : RestoreState)
    : res error RestoreState :=
  let c := rs_coordinator s in
  let a := id_of (approvalId e) in
  let i := id_of (itemId e) in
  _ ← reject_if (negb (has_status it_active (dget i (c_itemStatuses c))) ||
                 is_some (dget a (c_approvalStatuses c)))
        (LifecycleTransitionError s_approval
           (default "missing" (ApprovalStatus_str <$> dget a (c_approvalStatuses c)))
           "pending" ("approval " +:+ a +:+ " has no fresh active request item"));
  mret (with_coordinator (fun c => set_approvalItem a i (set_approvalStatus a ap_pending c)) s).

Definition restore_approval_decided (e : LifecycleEvent) (s : RestoreState)
    : res error RestoreState :=
  let c := rs_coordinator s in
  let a := id_of (approvalId e) in
  match dget a (c_approvalStatuses c) with
  | Some current =>
      _ ← reject_if (negb (has_status (id_of (itemId e)) (dget a (c_approvalItems c))))
            (LifecycleTransitionError s_approval "missing"
               (readString (dget "status" (payload e)))
               ("approval " +:+ a +:+ " has no matching request"));
      next ← transition_decision current (dget "status" (payload e));
      mret (with_coordinator (set_approvalStatus a next) s)
  | None =>
      Err (LifecycleTransitionError s_approval "missing"
             (readString (dget "status" (payload e)))
             ("approval " +:+ a +:+ " has no matching request"))
  end.

Definition other_owner (type : string) : bool :=
  starts_with "user_input." type || bool_decide (type = "request.resolved") ||
  bool_decide (type = "context_compaction.requested") ||
  bool_decide (type = "context_compaction.started") ||
  starts_with "hook.invocation." type.

(** The chain of [else if] on the type of the event. *)
Definition restore_dispatch (e : LifecycleEvent) (s : RestoreState)
    : res error RestoreState :=
  if decide (type e = "turn.queued") then restore_turn_queued e s
  else if decide (type e = "turn.started") then restore_turn_started e s
  else if decide (type e = "turn.blocking_changed") then restore_blocking e s
  else if decide (type e = "run_attempt.started") then restore_attempt_started s
  else if decide (type e = "run_attempt.succeeded") then restore_attempt_settled ra_succeeded s
  else if decide (type e = "run_attempt.failed") then restore_attempt_settled ra_failed s
  else if decide (type e = "run_attempt.interrupted") then
    restore_attempt_settled ra_interrupted s
  else if decide (type e = "item.started") then restore_item_started e s
  else match itemTerminalStatus (type e) with
  | Some status => restore_item_settled e status s
  | None =>
  if decide (type e = "tool_call.started") then restore_tool_started e s
  else if decide (type e ∈ ["tool_call.input_delta"; "tool_call.output_delta"]) then
    restore_tool_delta e s
  else match toolTerminalStatus (type e) with
  | Some status => restore_tool_settled e status s
  | None =>
  if decide (type e = "approval.requested") then restore_approval_requested e s
  else if decide (type e = "approval.decided") then restore_approval_decided e s
  else if other_owner (type e) then
    Err (LifecycleTransitionError s_turn (type e) "awaiting_approval"
           "history contains another pending runtime owner")
  else mret s
  end end.

(** One turn of the loop of [restoreApprovalWaitState]. *)
Definition restore_step (s : RestoreState) (e : LifecycleEvent) : res error RestoreState :=
  _ ← assertNextLifecycleSequence (c_sequence (rs_coordinator s)) (sequence e);
  _ ← check_identity e;
  _ ← assertTurnAcceptsLifecycleEvent (rs_previousStatus s) (type e);
  _ ← reject_if (negb (bool_decide (type e ∈ ["turn.queued"; "turn.started";
                                              "run_attempt.started"])) &&
                 (negb (rs_started s) ||
                  negb (bool_decide (c_runAttemptStatus (rs_coordinator s) = ra_running))))
        (LifecycleTransitionError s_turn (TurnStatus_str (rs_previousStatus s)) (type e)
           "lifecycle work requires a running run attempt");
  s' ← restore_dispatch e s;
  _ ← reject_if (is_terminal_turn_event (type e))
        (LifecycleTransitionError s_turn (type e) "awaiting_approval"
           "terminal history cannot be restored for interruption");
  mret (mkRestore (set_sequence (sequence e) (rs_coordinator s'))
          (rs_previousStatus s') (rs_queued s') (rs_started s') (Some e)).

Fixpoint restore_loop (s : RestoreState) (events : list LifecycleEvent)
    : res error RestoreState :=
  match events with
  | [] => mret s
  | e :: events' => s' ← restore_step s e; restore_loop s' events'
  end.

Definition entries_with {A} `{EqDecision A} (st : A) (d : dict A) : list string :=
  map fst (filter (fun kv : string * A => snd kv = st) (d : list (string * A))).

(** The final test: exactly one pending approval, raised for the one tool call
    in progress, whose item and the request's are the only open ones. *)
Definition isolated_gate (s : RestoreState) : bool :=
  let c := rs_coordinator s in
  let pendingApprovals := entries_with ap_pending (c_approvalStatuses c) in
  let activeToolCalls := entries_with it_active (c_toolCallStatuses c) in
  let activeItems := entries_with it_active (c_itemStatuses c) in
  c_accepted c && rs_started s &&
  bool_decide (c_runAttemptStatus c = ra_running) &&
  bool_decide (rs_previousStatus s = awaiting_approval) &&
  match c_blockingState c, pendingApprovals with
  | b_waiting_for_approval blockedItem blockedApproval, [pendingApprovalId] =>
      match truthy (Some pendingApprovalId),
            truthy (dget pendingApprovalId (c_approvalItems c)) with
      | Some _, Some pendingApprovalItemId =>
          bool_decide (blockedApproval = pendingApprovalId) &&
          bool_decide (blockedItem = pendingApprovalItemId) &&
          match truthy (dget pendingApprovalItemId (c_approvalParents c)) with
          | Some approvalParent =>
              (length activeToolCalls =? 1)%nat &&
              forallb (fun t => has_status approvalParent (dget t (c_toolCallItems c)))
                activeToolCalls &&
              (length activeItems =? length activeToolCalls + 1)%nat &&
              bool_decide (approvalParent ∈ activeItems) &&
              has_status "tool_call" (dget approvalParent (c_itemKinds c)) &&
              has_status "approval_request" (dget pendingApprovalItemId (c_itemKinds c)) &&
              bool_decide (pendingApprovalItemId ∈ activeItems) &&
              has_status "turn.blocking_changed" (type <$> rs_lastEvent s)
          | None => false
          end
      | _, _ => false
      end
  | _, _ => false
  end.

Definition zero_options : RuntimeLifecycleCoordinatorOptions :=
  mkOptions (o_threadId options) (o_workspaceId options) (o_turnId options)
    (o_runAttemptId options) (o_producerId options) (o_clock options) (Some 0)
    (o_revisionOfTurnId options) (o_continuationOfTurnId options)
    (o_originalPromptId options) (o_executionCapability options).

Definition restoreApprovalWaitState (events : list LifecycleEvent)
    (c : RuntimeLifecycleCoordinator) : res error RuntimeLifecycleCoordinator :=
  s ← restore_loop (mkRestore c queued false false None) events;
  _ ← reject_if (negb (isolated_gate s))
        (LifecycleTransitionError s_turn (TurnStatus_str (rs_previousStatus s))
           "awaiting_approval" "history does not prove an isolated pending approval gate");
  mret (set_status (rs_previousStatus s) (rs_coordinator s)).

Definition restoreForInterruption (history : list LifecycleEvent)
    : res error RuntimeLifecycleCoordinator :=
  _ ← reject_if (bool_decide (history = []))
        (LifecycleTransitionError s_turn "missing" "awaiting_approval"
           "recovery requires a canonical approval-wait history");
  events ← res_map parse_event history;
  restoreApprovalWaitState events (new_coordinator zero_options).
End Restore.
