(* ===== verification/RestoreFacts.v ===== *)
(** What a successful restoration means: the history projects, and the restored
    coordinator is in the projected state ([restore_tracks]), so it satisfies the
    invariant of Simulation.v and every later operation extends the same
    stream. *)
From S2P Require Import Prelude Js Zod Protocol LifecycleEvents EventStore Coordinator Projector ProjectorFacts Sink Simulation Restore.

Lemma reject_if_Ok b e u : reject_if b e = Ok u <-> b = false.
Proof. by destruct b, u. Qed.

Lemma has_status_true {A} `{EqDecision A} (a : A) o : has_status a o = true <-> o = Some a.
Proof. unfold has_status. apply bool_decide_eq_true. Qed.

(** Take a chain of checks apart. *)
Ltac res_split H :=
  repeat match type of H with
  | (_ ≫= _) = Ok _ => let x := fresh "x" in let Hx := fresh "Hx" in
      apply res_bind_Ok in H as (x & Hx & H)
  end.

Lemma terminal_item_status_Some s st :
  terminal_item_status s = Some st -> s = ItemStatus_str st /\ isTerminalItemStatus st = true.
Proof. unfold terminal_item_status. repeat case_decide; naive_solver. Qed.

Lemma itemTerminalStatus_Some t st :
  itemTerminalStatus t = Some st -> t = "item." +:+ ItemStatus_str st /\ isTerminalItemStatus st = true.
Proof.
  unfold itemTerminalStatus. intros Ht. apply bind_Some in Ht as (s & Hs & Ht).
  apply strip_prefix_Some in Hs as ->. by apply terminal_item_status_Some in Ht as [-> ?].
Qed.

Lemma toolTerminalStatus_Some t st :
  toolTerminalStatus t = Some st ->
  t = "tool_call." +:+ ItemStatus_str st /\ isTerminalItemStatus st = true.
Proof.
  unfold toolTerminalStatus. intros Ht. apply bind_Some in Ht as (s & Hs & Ht).
  apply strip_prefix_Some in Hs as ->. by apply terminal_item_status_Some in Ht as [-> ?].
Qed.

Section ParsedIds.
Context `{!JsRuntime}.

Lemma parsed_ids e sh :
  parse_event e = Ok e -> dget (type e) event_shapes = Some sh ->
  present_ok (sh_item sh) ItemIdSchema (itemId e) = true /\
  present_ok (sh_tool sh) ToolCallIdSchema (toolCallId e) = true /\
  present_ok (sh_approval sh) ApprovalIdSchema (approvalId e) = true /\
  present_ok (sh_request sh) (str_between 1 160) (requestId e) = true.
Proof.
  intros Hp Hsh. apply parse_event_inv in Hp as (sh' & pl & Hsh' & _ & H1 & H2 & H3 & H4 & _).
  by simplify_eq.
Qed.

Lemma required_item e sh :
  parse_event e = Ok e -> dget (type e) event_shapes = Some sh -> sh_item sh = Required ->
  itemId e = Some (id_of (itemId e)) /\ id_of (itemId e) <> "".
Proof.
  intros Hp Hsh Hr. destruct (parsed_ids e sh Hp Hsh) as (H1 & _). rewrite Hr in H1.
  destruct (itemId e); [|done]. split; [done|]. by eapply prefixed_id_nonempty.
Qed.

Lemma required_tool e sh :
  parse_event e = Ok e -> dget (type e) event_shapes = Some sh -> sh_tool sh = Required ->
  toolCallId e = Some (id_of (toolCallId e)) /\ id_of (toolCallId e) <> "".
Proof.
  intros Hp Hsh Hr. destruct (parsed_ids e sh Hp Hsh) as (_ & H1 & _). rewrite Hr in H1.
  destruct (toolCallId e); [|done]. split; [done|]. by eapply prefixed_id_nonempty.
Qed.

Lemma required_approval e sh :
  parse_event e = Ok e -> dget (type e) event_shapes = Some sh ->
  sh_approval sh = Required -> sh_request sh = Absent ->
  approvalId e = Some (id_of (approvalId e)) /\ id_of (approvalId e) <> "" /\ requestId e = None.
Proof.
  intros Hp Hsh Hr Hq. destruct (parsed_ids e sh Hp Hsh) as (_ & _ & H1 & H2).
  rewrite Hr in H1. rewrite Hq in H2.
  destruct (approvalId e); [|done]. destruct (requestId e); [done|].
  split_and!; try done. by eapply prefixed_id_nonempty.
Qed.
End ParsedIds.

(** * Every step follows the projection *)

Section Steps.
Context `{!JsRuntime}.
Variable options : RuntimeLifecycleCoordinatorOptions.

(** The coordinator with the status restored so far. *)
Definition view (s : RestoreState) : RuntimeLifecycleCoordinator :=
  set_status (rs_previousStatus s) (rs_coordinator s).

(** [s] after the event at [n]. *)
Definition step_end (n : Z) (s : RestoreState) : RuntimeLifecycleCoordinator :=
  set_sequence n (view s).

Definition follows_projection (e : LifecycleEvent) (p : MutableProjection) (s' : RestoreState)
    : Prop :=
  exists p', applyLifecycleProjectionEvent e p = (Ok tt, p') /\
    sim options (step_end (sequence e) s') p'.

Lemma step_neutral e p s s' :
  sim options (view s) p -> follows p e -> neutral (type e) = true ->
  rs_previousStatus s' = rs_previousStatus s ->
  (forall c, rs_coordinator s = c ->
     c_blockingState (rs_coordinator s') = c_blockingState c /\
     c_itemStatuses (rs_coordinator s') = c_itemStatuses c /\
     c_toolCallStatuses (rs_coordinator s') = c_toolCallStatuses c /\
     c_toolCallItems (rs_coordinator s') = c_toolCallItems c /\
     c_approvalStatuses (rs_coordinator s') = c_approvalStatuses c /\
     c_approvalItems (rs_coordinator s') = c_approvalItems c) ->
  follows_projection e p s'.
Proof.
  intros Hsim Hf Hn Hst Hc. destruct (Hc _ eq_refl) as (H1 & H2 & H3 & H4 & H5 & H6).
  destruct (apply_neutral e p Hf Hn) as (p' & Happ & He). exists p'. split; [done|].
  rewrite <- He. destruct Hsim.
  split; unfold isTerminal in *; cbn in *; try done; congruence.
Qed.

Context (s s' : RestoreState) (e : LifecycleEvent) (p : MutableProjection).
Hypothesis Hsim : sim options (view s) p.
Hypothesis Hf : follows p e.
Hypothesis Hp : parse_event e = Ok e.

Lemma step_turn_started :
  type e = "turn.started" -> restore_turn_started options e s = Ok s' ->
  follows_projection e p s'.
Proof.
  intros Ht Hr. unfold restore_turn_started in Hr. res_split Hr. injection Hr as <-.
  pose proof (proj1 (transition_ok _ _ _ _ _ _) Hx2) as [-> _].
  pose proof Hsim as [_ Hps _ _ _ _ _ _ _ _ _]. cbn in Hps.
  destruct (apply_turn_started e p) as (p' & Happ & He); [done|done|by rewrite Hps|].
  exists p'. split; [done|]. rewrite <- He. destruct Hsim. split; cbn in *; try done.
  by destruct Hf as (_ & _ & ->).
Qed.

Lemma step_blocking :
  type e = "turn.blocking_changed" -> restore_blocking e s = Ok s' ->
  follows_projection e p s'.
Proof.
  intros Ht Hr. unfold restore_blocking in Hr. res_split Hr.
  destruct (dget "blockingState" (payload e) ≫= parse_blocking) as [b|] eqn:Hb; [|done].
  apply bind_Some in Hb as (j & Hj & Hb).
  pose proof Hsim as [_ Hps _ _ _ _ _ _ _ _ Hout]. cbn in Hps.
  assert (Hterm : isTerminalTurnStatus (rs_previousStatus s) = false).
  { destruct Hf as (_ & _ & Hn). rewrite Hn in Hout. by symmetry. }
  assert (Hturn : exists p1, applyTurn e p = (Ok tt, p1) /\ pequiv (block b p) p1 /\
    view s' = set_blockingState b (set_status (p_status (block b p)) (view s))).
  { unfold applyTurn. rewrite decide_False by (rewrite Ht; discriminate).
    rewrite decide_True by done. rewrite Hj. cbn [mbind option_bind]. rewrite Hb. st_eval.
    destruct b as [|i a| |]; try done; cbn [p_status p_set_blocking block].
    - rewrite Hps. destruct (decide (rs_previousStatus s = awaiting_approval)) as [Ha|Ha].
      + rewrite Ha in Hr |- *. cbn in Hr. injection Hr as <-. eexists. split; [done|]. by split.
      + cbn in Hr. injection Hr as <-. eexists. split; [done|]. split; [done|].
        cbn. by rewrite Hps.
    - res_split Hr. injection Hr as <-.
      pose proof (proj1 (transition_ok _ _ _ _ _ _) Hx1) as [-> _].
      rewrite Hps, Hx1. eexists. split; [done|]. by split. }
  destruct Hturn as (p1 & H1 & He1 & Hview).
  destruct (apply_turn_event e p p1) as (p' & Happ & He); try done; try (by rewrite Ht).
  exists p'. split; [done|]. rewrite <- He. unfold step_end. rewrite Hview.
  assert (Hb1 : sim options (set_blockingState b (set_status (p_status (block b p)) (view s))) (block b p)).
  { unfold block. destruct Hsim; destruct b; cbn in *; try case_decide; split; cbn in *; try done;
      try congruence; rewrite ?sim_outcome, ?sim_status; try done. }
  apply (sim_proper options _ _ _ He1) in Hb1. destruct Hb1. by split.
Qed.

Lemma step_item_started :
  type e = "item.started" -> restore_item_started e s = Ok s' -> follows_projection e p s'.
Proof.
  intros Ht Hr. unfold restore_item_started in Hr. res_split Hr. rename x into kind.
  destruct (dget (id_of (itemId e)) (c_itemStatuses (rs_coordinator s))) eqn:Hd; [done|].
  cbn in Hr. injection Hr as <-.
  destruct (required_item e (item_shape LifecycleItemPayloadSchema)) as [Hi Hne];
    [done|by rewrite Ht|done|].
  unfold parse_kind in Hx. destruct (dget "kind" (payload e)) as [[]|] eqn:Hk; try done.
  destruct (decide (s0 ∈ ItemKindSchema)) as [Hin|]; [|done]. injection Hx as ->.
  destruct (apply_item_started e p _ kind Hf Ht Hi Hne Hk Hin) as (p' & Happ & He).
  exists p'. split; [done|]. rewrite <- He.
  destruct Hsim. destruct (if decide (kind = "approval_request") then _ else None);
    split; cbn in *; try done; rewrite dmap_dset; cbn; by f_equal.
Qed.

Lemma step_item_settled st :
  itemTerminalStatus (type e) = Some st -> restore_item_settled e st s = Ok s' ->
  follows_projection e p s'.
Proof.
  intros Ht Hr. unfold restore_item_settled in Hr. res_split Hr. injection Hr as <-.
  destruct (itemTerminalStatus_Some _ _ Ht) as [Hty Hst].
  apply settled_from_active in Hx as [Hact ->]; [|done].
  destruct (item_type_facts st Hst) as (_ & Hns & Hn1 & Hn2 & Hn3 & _).
  rewrite <- Hty in Hns, Hn1, Hn2, Hn3.
  destruct (sim_dget_item options (view s) p _ _ Hsim Hact) as (item & Hitem & Hstat).
  assert (exists sh, dget (type e) event_shapes = Some sh /\ sh_item sh = Required) as (sh & Hsh & Hr).
  { rewrite Hty. destruct st; try done; eexists; split; reflexivity. }
  destruct (required_item e sh Hp Hsh Hr) as [Hi Hne].
  destruct (apply_item_settled e p (id_of (itemId e)) item st) as (p' & item' & Happ & Hst' & He);
    try done.
  { rewrite Hstat. by destruct st. }
  exists p'. split; [done|]. rewrite <- He. destruct Hsim. split; cbn in *; try done.
  rewrite dmap_dset, Hst'. by f_equal.
Qed.

Lemma step_tool_started :
  type e = "tool_call.started" -> restore_tool_started e s = Ok s' -> follows_projection e p s'.
Proof.
  intros Ht Hr. unfold restore_tool_started in Hr. res_split Hr. injection Hr as <-.
  pose proof (proj1 (transition_ok _ _ _ _ _ _) Hx0) as [-> _].
  destruct (required_item e (tool_shape LifecycleItemPayloadSchema)) as [Hi Hine];
    [done|by rewrite Ht|done|].
  destruct (required_tool e (tool_shape LifecycleItemPayloadSchema)) as [Htc Hne];
    [done|by rewrite Ht|done|].
  destruct (apply_tool_started e p _ _ Hf Ht Hi Htc Hne) as (p' & tool & Happ & Hs & Hti & He).
  exists p'. split; [done|]. rewrite <- He. destruct Hsim. split; cbn in *; try done;
    rewrite dmap_dset; [rewrite Hs|rewrite Hti]; by f_equal.
Qed.

Lemma step_tool_settled st :
  toolTerminalStatus (type e) = Some st -> restore_tool_settled e st s = Ok s' ->
  follows_projection e p s'.
Proof.
  intros Ht Hr. unfold restore_tool_settled in Hr. res_split Hr. injection Hr as <-.
  destruct (toolTerminalStatus_Some _ _ Ht) as [Hty Hst].
  apply settled_from_active in Hx0 as [Hact ->]; [|done].
  destruct (tool_type_facts st Hst) as (_ & Hns & Hn1 & Hn2 & Hn3 & _).
  rewrite <- Hty in Hns, Hn1, Hn2, Hn3.
  destruct (sim_dget_tool options (view s) p _ _ Hsim Hact) as (tool & Htool & Hstat & Hitem).
  assert (exists sh, dget (type e) event_shapes = Some sh /\ sh_item sh = Required /\
    sh_tool sh = Required) as (sh & Hsh & Hr1 & Hr2).
  { rewrite Hty. destruct st; try done; eexists; split_and!; reflexivity. }
  destruct (required_item e sh Hp Hsh Hr1) as [Hi Hine].
  destruct (required_tool e sh Hp Hsh Hr2) as [Htc Hne].
  destruct (apply_tool_settled e p (id_of (toolCallId e)) (id_of (itemId e)) tool st)
    as (p' & tool' & Happ & Hs & Hti & He); try done.
  { rewrite Hstat. by destruct st. }
  exists p'. split; [done|]. rewrite <- He. destruct Hsim. split; cbn in *; try done;
    rewrite dmap_dset.
  - rewrite Hs. by f_equal.
  - rewrite Hti, sim_toolItems. by apply dset_id.
Qed.

Lemma step_approval_requested :
  type e = "approval.requested" -> restore_approval_requested e s = Ok s' ->
  follows_projection e p s'.
Proof.
  intros Ht Hr. unfold restore_approval_requested in Hr. res_split Hr. injection Hr as <-.
  destruct (required_item e (approval_shape z_record)) as [Hi Hine]; [done|by rewrite Ht|done|].
  destruct (required_approval e (approval_shape z_record)) as (Ha & Hane & Hrq);
    [done|by rewrite Ht|done|done|].
  destruct (apply_approval_requested e p _ _ Hf Ht Hi Ha Hane Hrq)
    as (p' & appr & Happ & Hs & Hai & He).
  exists p'. split; [done|]. rewrite <- He. destruct Hsim. split; cbn in *; try done;
    rewrite dmap_dset; [rewrite Hs|rewrite Hai]; by f_equal.
Qed.

Lemma step_approval_decided :
  type e = "approval.decided" -> restore_approval_decided e s = Ok s' ->
  follows_projection e p s'.
Proof.
  intros Ht Hr. unfold restore_approval_decided in Hr.
  destruct (dget (id_of (approvalId e)) (c_approvalStatuses (rs_coordinator s)))
    as [current|] eqn:Hcur; [|done].
  res_split Hr. injection Hr as <-. apply reject_if_Ok, negb_false_iff, has_status_true in Hx.
  destruct (sim_dget_approval options (view s) p _ _ Hsim Hx) as (appr & Happr & Hit & Hstat).
  cbn in Hstat. rewrite Hcur in Hstat. injection Hstat as ->.
  destruct (required_item e (approval_shape ApprovalDecidedPayloadSchema)) as [Hi Hine];
    [done|by rewrite Ht|done|].
  destruct (required_approval e (approval_shape ApprovalDecidedPayloadSchema))
    as (Ha & Hane & Hrq); [done|by rewrite Ht|done|done|].
  destruct (apply_approval_decided e p _ _ appr x0 Hf Ht Hi Ha Hane Hrq Happr Hx0)
    as (p' & appr' & Happ & Hs & Hai & He).
  exists p'. split; [done|]. rewrite <- He. destruct Hsim. split; cbn in *; try done;
    rewrite dmap_dset.
  - rewrite Hs. by f_equal.
  - rewrite Hai, sim_approvalItems. apply dset_id. by rewrite Hit.
Qed.
End Steps.

(** * The loop *)

Section Loop.
Context `{!JsRuntime}.
Variable options : RuntimeLifecycleCoordinatorOptions.

Lemma rest_neutral t :
  is_terminal_turn_event t = false -> t <> "turn.started" -> t <> "turn.blocking_changed" ->
  t <> "item.started" -> itemTerminalStatus t = None -> t <> "tool_call.started" ->
  toolTerminalStatus t = None -> t <> "approval.requested" -> t <> "approval.decided" ->
  other_owner t = false -> neutral t = true.
Proof.
  intros Ht1 Ht2 Ht3 Hi1 Hi2 Hc1 Hc2 Ha1 Ha2 Ho.
  unfold neutral, turn_neutral, item_neutral, tool_neutral, request_neutral.
  rewrite Ht1, Hi2, Hc2. rewrite !bool_decide_eq_false_2; [done|..]; try done.
  - intros Hin. unfold other_owner in Ho. rewrite !orb_false_iff in Ho.
    repeat (apply elem_of_cons in Hin as [->|Hin]; [naive_solver|]). by apply elem_of_nil in Hin.
  - set_solver.
Qed.

Lemma restore_dispatch_sim s s' e p :
  sim options (view s) p -> follows p e -> parse_event e = Ok e ->
  is_terminal_turn_event (type e) = false ->
  restore_dispatch options e s = Ok s' -> follows_projection options e p s'.
Proof.
  intros Hsim Hf Hp Hterm Hr. unfold restore_dispatch in Hr.
  destruct (decide (type e = "turn.queued")) as [Ht|_].
  { unfold restore_turn_queued in Hr. res_split Hr. injection Hr as <-.
    eapply step_neutral; try done; [by rewrite Ht|]. by intros ? <-. }
  destruct (decide (type e = "turn.started")) as [Ht|Hn1]; [by eapply step_turn_started|].
  destruct (decide (type e = "turn.blocking_changed")) as [Ht|Hn2]; [by eapply step_blocking|].
  destruct (decide (type e = "run_attempt.started")) as [Ht|_].
  { unfold restore_attempt_started in Hr. res_split Hr. injection Hr as <-.
    eapply step_neutral; try done; [by rewrite Ht|]. by intros ? <-. }
  assert (Hattempt : forall next, neutral (type e) = true ->
    restore_attempt_settled next s = Ok s' -> follows_projection options e p s').
  { intros next Hn Hr'. unfold restore_attempt_settled in Hr'. res_split Hr'. injection Hr' as <-.
    eapply step_neutral; try done. by intros ? <-. }
  destruct (decide (type e = "run_attempt.succeeded")) as [Ht|_];
    [eapply Hattempt; [by rewrite Ht|done]|].
  destruct (decide (type e = "run_attempt.failed")) as [Ht|_];
    [eapply Hattempt; [by rewrite Ht|done]|].
  destruct (decide (type e = "run_attempt.interrupted")) as [Ht|_];
    [eapply Hattempt; [by rewrite Ht|done]|].
  destruct (decide (type e = "item.started")) as [Ht|Hn3]; [by eapply step_item_started|].
  destruct (itemTerminalStatus (type e)) as [st|] eqn:Hit; [by eapply step_item_settled|].
  destruct (decide (type e = "tool_call.started")) as [Ht|Hn4]; [by eapply step_tool_started|].
  destruct (decide (type e ∈ _)) as [Ht|_].
  { unfold restore_tool_delta in Hr. res_split Hr. injection Hr as <-.
    eapply step_neutral; try done; [|by intros ? <-].
    apply elem_of_cons in Ht as [->|Ht%list_elem_of_singleton]; [done|by rewrite Ht]. }
  destruct (toolTerminalStatus (type e)) as [st|] eqn:Htt; [by eapply step_tool_settled|].
  destruct (decide (type e = "approval.requested")) as [Ht|Hn5];
    [by eapply step_approval_requested|].
  destruct (decide (type e = "approval.decided")) as [Ht|Hn6];
    [by eapply step_approval_decided|].
  destruct (other_owner (type e)) eqn:Ho; [done|]. injection Hr as <-.
  eapply step_neutral; try done; [by apply rest_neutral|by intros ? <-].
Qed.

Lemma restore_step_sim s s' e p :
  sim options (view s) p -> parse_event e = Ok e -> restore_step options s e = Ok s' ->
  exists p', applyLifecycleProjectionEvent e p = (Ok tt, p') /\ sim options (view s') p'.
Proof.
  intros Hsim Hp Hr. unfold restore_step in Hr. res_split Hr. injection Hr as <-.
  unfold assertNextLifecycleSequence in Hx. case_decide as Hseq; [|done].
  apply reject_if_Ok in Hx0. rewrite !orb_false_iff, !negb_false_iff in Hx0.
  destruct Hx0 as [[_ Hturn] _]. apply bool_decide_eq_true in Hturn.
  unfold assertTurnAcceptsLifecycleEvent in Hx1.
  destruct (isTerminalTurnStatus (rs_previousStatus s)) eqn:Hterm; [done|].
  apply reject_if_Ok in Hx4.
  assert (Hf : follows p e).
  { pose proof (sim_live _ _ _ Hsim Hterm). destruct Hsim. split_and!; [congruence| |done].
    cbn in *. congruence. }
  by apply (restore_dispatch_sim s x3 e p Hsim Hf Hp Hx4 Hx3).
Qed.

Lemma restore_loop_sim s s' events p :
  sim options (view s) p -> Forall (fun e => parse_event e = Ok e) events ->
  restore_loop options s events = Ok s' ->
  exists p', project_from p events = Ok p' /\ sim options (view s') p'.
Proof.
  intros Hsim Hp. revert s p Hsim. induction Hp as [|e events He _ IH]; intros s p Hsim Hr.
  - cbn in Hr. injection Hr as <-. by exists p.
  - cbn [restore_loop] in Hr. apply res_bind_Ok in Hr as (s1 & Hs1 & Hr).
    destruct (restore_step_sim s s1 e p Hsim He Hs1) as (p1 & Happ & Hsim1).
    destruct (IH s1 p1 Hsim1 Hr) as (p2 & Hproj & Hsim2). exists p2. split; [|done].
    change (e :: events) with ([e] ++ events). rewrite project_from_app.
    by rewrite (project_from_one _ _ _ Happ).
Qed.

(** ** What the loop builds *)

Record restore_inv (c : RuntimeLifecycleCoordinator) : Prop := {
  ri_items : NoDup (dkeys (c_itemStatuses c));
  ri_tools : NoDup (dkeys (c_toolCallStatuses c));
  ri_approvals : NoDup (dkeys (c_approvalStatuses c));
  ri_keys : dkeys (c_toolCallStatuses c) = dkeys (c_toolCallItems c);
  ri_item_ids : forall i st, dget i (c_itemStatuses c) = Some st ->
    ItemIdSchema i = true /\ st <> it_not_started;
  ri_tool_ids : forall t st, dget t (c_toolCallStatuses c) = Some st ->
    ToolCallIdSchema t = true /\ st <> it_not_started;
  ri_approval_ids : forall a st, dget a (c_approvalStatuses c) = Some st ->
    ApprovalIdSchema a = true;
  ri_tool_item : forall t i, dget t (c_toolCallItems c) = Some i ->
    is_Some (dget i (c_itemStatuses c));
  ri_approval_item : forall a i, dget a (c_approvalItems c) = Some i ->
    is_Some (dget i (c_itemStatuses c));
  ri_names : c_toolCallNames c = [];
  ri_batches : c_toolCallBatches c = [];
}.

Lemma required_valid e sh :
  parse_event e = Ok e -> dget (type e) event_shapes = Some sh ->
  (sh_item sh = Required -> ItemIdSchema (id_of (itemId e)) = true) /\
  (sh_tool sh = Required -> ToolCallIdSchema (id_of (toolCallId e)) = true) /\
  (sh_approval sh = Required -> ApprovalIdSchema (id_of (approvalId e)) = true).
Proof.
  intros Hp Hsh. destruct (parsed_ids e sh Hp Hsh) as (H1 & H2 & H3 & _).
  split_and!; intros Hr; rewrite Hr in *; [by destruct (itemId e)|by destruct (toolCallId e)|
    by destruct (approvalId e)].
Qed.

Ltac inv_cases := intros []; split; cbn -[dkeys dset dget]; auto; intros; dget_cases; eauto using NoDup_dset.

Lemma inv_set_item c i st :
  ItemIdSchema i = true -> st <> it_not_started ->
  restore_inv c -> restore_inv (set_itemStatus i st c).
Proof. intros Hi Hst. inv_cases. Qed.

Lemma inv_new_tool c t i :
  ToolCallIdSchema t = true -> is_Some (dget i (c_itemStatuses c)) ->
  restore_inv c -> restore_inv (set_toolCallItem t i (set_toolCallStatus t it_active c)).
Proof. intros Ht Hi. inv_cases. by apply dkeys_dset_congr. Qed.

Lemma inv_set_tool c t st :
  is_Some (dget t (c_toolCallStatuses c)) -> st <> it_not_started ->
  restore_inv c -> restore_inv (set_toolCallStatus t st c).
Proof.
  intros Ht Hst. inv_cases.
  - by rewrite dkeys_dset_old by by apply elem_dkeys.
  - destruct Ht as [st' Ht]. split; [|done]. by eapply ri_tool_ids0.
Qed.

Lemma inv_new_approval c a i :
  ApprovalIdSchema a = true -> is_Some (dget i (c_itemStatuses c)) ->
  restore_inv c -> restore_inv (set_approvalItem a i (set_approvalStatus a ap_pending c)).
Proof. intros Ha Hi. inv_cases. Qed.

Lemma inv_set_approval c a st :
  is_Some (dget a (c_approvalStatuses c)) ->
  restore_inv c -> restore_inv (set_approvalStatus a st c).
Proof. intros [st' Ha]. inv_cases. Qed.

Lemma terminal_not_started st : isTerminalItemStatus st = true -> st <> it_not_started.
Proof. by destruct st. Qed.

Lemma restore_dispatch_inv s s' e :
  parse_event e = Ok e -> restore_inv (rs_coordinator s) ->
  restore_dispatch options e s = Ok s' -> restore_inv (rs_coordinator s').
Proof.
  intros Hp Hinv Hr. unfold restore_dispatch in Hr.
  destruct (decide (type e = "turn.queued")).
  { unfold restore_turn_queued in Hr. res_split Hr. by injection Hr as <-. }
  destruct (decide (type e = "turn.started")).
  { unfold restore_turn_started in Hr. res_split Hr. injection Hr as <-. by destruct Hinv. }
  destruct (decide (type e = "turn.blocking_changed")).
  { unfold restore_blocking in Hr. res_split Hr.
    destruct (dget "blockingState" (payload e) ≫= parse_blocking) as [[]|]; try done;
      res_split Hr; injection Hr as <-; by destruct Hinv. }
  destruct (decide (type e = "run_attempt.started")).
  { unfold restore_attempt_started in Hr. res_split Hr. injection Hr as <-. by destruct Hinv. }
  assert (Hattempt : forall next, restore_attempt_settled next s = Ok s' ->
    restore_inv (rs_coordinator s')).
  { intros next Hr'. unfold restore_attempt_settled in Hr'. res_split Hr'.
    injection Hr' as <-. by destruct Hinv. }
  destruct (decide (type e = "run_attempt.succeeded")); [by eapply Hattempt|].
  destruct (decide (type e = "run_attempt.failed")); [by eapply Hattempt|].
  destruct (decide (type e = "run_attempt.interrupted")); [by eapply Hattempt|].
  clear Hattempt.
  destruct (decide (type e = "item.started")) as [Ht|_].
  { unfold restore_item_started in Hr. res_split Hr.
    destruct (dget (id_of (itemId e)) _) eqn:Hd; [done|]. cbn in Hr. injection Hr as <-.
    destruct (required_valid e (item_shape LifecycleItemPayloadSchema)) as (Hi & _ & _);
      [done|by rewrite Ht|]. specialize (Hi eq_refl).
    assert (Hinv' : restore_inv (set_itemStatus (id_of (itemId e)) it_active (rs_coordinator s)))
      by by apply inv_set_item.
    cbn. destruct (if decide (x = "approval_request") then _ else None); by destruct Hinv'. }
  destruct (itemTerminalStatus (type e)) as [st|] eqn:Hit.
  { unfold restore_item_settled in Hr. res_split Hr. injection Hr as <-.
    destruct (itemTerminalStatus_Some _ _ Hit) as [Hty Hst].
    apply settled_from_active in Hx as [Hact ->]; [|done].
    apply inv_set_item; [|by apply terminal_not_started|done].
    by apply (ri_item_ids _ Hinv) in Hact as [? _]. }
  destruct (decide (type e = "tool_call.started")) as [Ht|_].
  { unfold restore_tool_started in Hr. res_split Hr. cbn in Hx0. injection Hx0 as <-.
    injection Hr as <-.
    destruct (required_valid e (tool_shape LifecycleItemPayloadSchema)) as (_ & Hi & _);
      [done|by rewrite Ht|]. specialize (Hi eq_refl).
    apply reject_if_Ok in Hx. rewrite !orb_false_iff, !negb_false_iff, !has_status_true in Hx.
    destruct Hx as [[_ Hx] _]. by apply inv_new_tool; [|rewrite Hx|]. }
  destruct (decide (type e ∈ _)).
  { unfold restore_tool_delta in Hr. res_split Hr. by injection Hr as <-. }
  destruct (toolTerminalStatus (type e)) as [st|] eqn:Htt.
  { unfold restore_tool_settled in Hr. res_split Hr. injection Hr as <-.
    destruct (toolTerminalStatus_Some _ _ Htt) as [Hty Hst].
    apply settled_from_active in Hx0 as [Hact ->]; [|done].
    apply inv_set_tool; [by rewrite Hact|by apply terminal_not_started|done]. }
  destruct (decide (type e = "approval.requested")) as [Ht|_].
  { unfold restore_approval_requested in Hr. res_split Hr. injection Hr as <-.
    destruct (required_valid e (approval_shape z_record)) as (_ & _ & Hi);
      [done|by rewrite Ht|]. specialize (Hi eq_refl).
    apply reject_if_Ok in Hx. rewrite !orb_false_iff, !negb_false_iff, !has_status_true in Hx.
    destruct Hx as [Hx _]. by apply inv_new_approval; [|rewrite Hx|]. }
  destruct (decide (type e = "approval.decided")) as [Ht|_].
  { unfold restore_approval_decided in Hr.
    destruct (dget (id_of (approvalId e)) _) as [current|] eqn:Hcur; [|done].
    res_split Hr. injection Hr as <-. apply inv_set_approval; [by rewrite Hcur|done]. }
  destruct (other_owner (type e)); [done|]. by injection Hr as <-.
Qed.

Lemma restore_loop_inv s s' events :
  restore_inv (rs_coordinator s) -> Forall (fun e => parse_event e = Ok e) events ->
  restore_loop options s events = Ok s' -> restore_inv (rs_coordinator s').
Proof.
  intros Hinv Hp. revert s Hinv. induction Hp as [|e events He _ IH]; intros s Hinv Hr.
  - cbn in Hr. by injection Hr as <-.
  - cbn [restore_loop] in Hr. apply res_bind_Ok in Hr as (s1 & Hs1 & Hr).
    eapply IH; [|exact Hr]. unfold restore_step in Hs1. res_split Hs1. injection Hs1 as <-.
    apply restore_dispatch_inv in Hx3; [|done|done]. by destruct Hx3.
Qed.

Lemma new_restore_inv o : restore_inv (new_coordinator o).
Proof. split; cbn; try done; apply NoDup_nil_2. Qed.
End Loop.

(** * The gate *)

Lemma elem_entries_with {A} `{EqDecision A} (st : A) (d : dict A) k :
  k ∈ entries_with st d <-> (k, st) ∈ (d : list (string * A)).
Proof.
  unfold entries_with. change (map fst ?l) with (fst <$> l). rewrite list_elem_of_fmap. split.
  - intros ([k' st'] & -> & Hin). apply list_elem_of_filter in Hin as [Heq Hin]. cbn in Heq. by subst.
  - intros Hin. exists (k, st). split; [done|]. by apply list_elem_of_filter.
Qed.

Record gate (s : RestoreState) (a pi parent t : string) : Prop := {
  gt_accepted : c_accepted (rs_coordinator s) = true;
  gt_attempt : c_runAttemptStatus (rs_coordinator s) = ra_running;
  gt_status : rs_previousStatus s = awaiting_approval;
  gt_blocking : c_blockingState (rs_coordinator s) = b_waiting_for_approval pi a;
  gt_pending : entries_with ap_pending (c_approvalStatuses (rs_coordinator s)) = [a];
  gt_item : dget a (c_approvalItems (rs_coordinator s)) = Some pi;
  gt_parent : dget pi (c_approvalParents (rs_coordinator s)) = Some parent;
  gt_tools : entries_with it_active (c_toolCallStatuses (rs_coordinator s)) = [t];
  gt_tool_item : dget t (c_toolCallItems (rs_coordinator s)) = Some parent;
  gt_parent_active : (parent, it_active) ∈ (c_itemStatuses (rs_coordinator s) : list _);
  gt_request_active : (pi, it_active) ∈ (c_itemStatuses (rs_coordinator s) : list _);
  gt_kinds : dget parent (c_itemKinds (rs_coordinator s)) = Some "tool_call" /\
             dget pi (c_itemKinds (rs_coordinator s)) = Some "approval_request";
}.

Lemma isolated_gate_true s : isolated_gate s = true -> exists a pi parent t, gate s a pi parent t.
Proof.
  unfold isolated_gate. rewrite !andb_true_iff, !bool_decide_eq_true.
  intros [[[[Hacc _] Hatt] Hst] Hrest].
  destruct (c_blockingState (rs_coordinator s)) as [|bi ba| |] eqn:Hb; try done.
  destruct (entries_with ap_pending _) as [|a [|]] eqn:Hpend; try done.
  destruct (truthy (Some a)); [|done].
  destruct (truthy (dget a _)) as [pi|] eqn:Hpi; [|done]. apply truthy_Some in Hpi.
  rewrite !andb_true_iff, !bool_decide_eq_true in Hrest. destruct Hrest as [[-> ->] Hrest].
  destruct (truthy (dget pi _)) as [parent|] eqn:Hpar; [|done]. apply truthy_Some in Hpar.
  rewrite !andb_true_iff, !bool_decide_eq_true, !has_status_true in Hrest.
  destruct Hrest as [[[[[[[Hlen Hall] _] Hpact] Hk1] Hk2] Hract] _].
  destruct (entries_with it_active (c_toolCallStatuses _)) as [|t [|]] eqn:Htools; try done.
  cbn in Hall. rewrite andb_true_r in Hall. apply has_status_true in Hall.
  exists a, pi, parent, t. split; try done; by apply elem_entries_with.
Qed.

Lemma gate_owned s a pi parent t :
  gate s a pi parent t -> restore_inv (rs_coordinator s) -> owned (view s).
Proof.
  intros [] []. unfold owned, view; cbn -[dkeys].
  assert (Honly : forall t', dget t' (c_toolCallStatuses (rs_coordinator s)) = Some it_active -> t' = t).
  { intros t' Ht'. apply dget_elem, elem_entries_with in Ht'. rewrite gt_tools0 in Ht'.
    by apply list_elem_of_singleton in Ht'. }
  split; try done.
  - intros t' Ht'. by apply ri_tool_ids0 in Ht' as [_ ?].
  - intros t' i Ht' Hi. apply Honly in Ht' as ->. rewrite gt_tool_item0 in Hi. injection Hi as <-.
    by apply elem_dget.
  - intros t1 t2 i H1 H2 _ _. apply Honly in H1, H2. congruence.
  - intros a' t' i Ha Hi Ht' Hti. apply dget_elem, elem_entries_with in Ha.
    rewrite gt_pending0 in Ha. apply list_elem_of_singleton in Ha as ->.
    apply Honly in Ht' as ->. destruct gt_kinds0. congruence.
Qed.

Lemma apply_sequence e p p' :
  applyLifecycleProjectionEvent e p = (Ok tt, p') -> p_lastSequence p' = p_lastSequence p + 1.
Proof.
  unfold applyLifecycleProjectionEvent, mbind, ST_bind, gets, lift, id.
  destruct (assertEnvelope p e) as [[]|] eqn:Hf; [|done]. apply assertEnvelope_ok in Hf as (_ & Hs & _).
  destruct (applyTurn e p) as [[] ?]; [|done]. destruct (applyItem e _) as [[] ?]; [|done].
  destruct (applyToolCall e _) as [[] ?]; [|done]. destruct (applyApproval e _) as [[] ?]; [|done].
  destruct (applyRequest e _) as [[] ?]; [|done]. by intros [= <-].
Qed.

Lemma project_length p es p' :
  project_from p es = Ok p' -> p_lastSequence p' = p_lastSequence p + Z.of_nat (length es).
Proof.
  revert p. induction es as [|e es IH]; intros p Hp.
  - injection Hp as <-. cbn. lia.
  - change (e :: es) with ([e] ++ es) in Hp. rewrite project_from_app in Hp.
    unfold project_from in Hp at 1. cbn in Hp. unfold mbind, ST_bind in Hp.
    destruct (applyLifecycleProjectionEvent e p) as [[[]|] p1] eqn:He; [|done].
    cbn in Hp. apply IH in Hp. apply apply_sequence in He. cbn [length]. lia.
Qed.

Lemma restore_loop_open `{!JsRuntime} options s s' events :
  restore_loop options s events = Ok s' ->
  Forall (fun e => is_terminal_type (type e) = false) events.
Proof.
  revert s. induction events as [|e events IH]; intros s Hr; [constructor|].
  cbn [restore_loop] in Hr. apply res_bind_Ok in Hr as (s1 & Hs1 & Hr).
  constructor; [|by eapply IH]. unfold restore_step in Hs1. res_split Hs1.
  by apply reject_if_Ok in Hx4.
Qed.

Lemma open_live events : Forall (fun e => is_terminal_type (type e) = false) events -> live events.
Proof.
  intros Hall. unfold live. destruct (last events) as [e|] eqn:Hl; [|done].
  rewrite Forall_forall in Hall. apply Hall. by apply last_Some_elem_of.
Qed.

(** The restored coordinator is in the state its history projects to. *)
Lemma restore_tracks `{!JsRuntime} options history c :
  restoreForInterruption options history = Ok c ->
  exists events a pi parent t s,
    res_map parse_event history = Ok events /\ c = view s /\ gate s a pi parent t /\
    restore_inv (rs_coordinator s) /\ tracks options c events.
Proof.
  intros Hr. unfold restoreForInterruption in Hr. res_split Hr. rename x0 into events.
  unfold restoreApprovalWaitState in Hr. res_split Hr. injection Hr as <-.
  apply reject_if_Ok, negb_false_iff in Hx2.
  destruct (isolated_gate_true _ Hx2) as (a & pi & parent & t & Hgate).
  assert (Hparsed : Forall (fun e => parse_event e = Ok e) events) by by eapply parsed_self.
  set (s0 := mkRestore (new_coordinator (zero_options options)) queued false false None) in *.
  pose proof (restore_loop_inv options s0 _ _ (new_restore_inv (zero_options options)) Hparsed Hx1) as Hinv.
  assert (Hsim0 : sim options (view s0) (createState (o_turnId options))) by by split.
  destruct (restore_loop_sim options s0 x0 events _ Hsim0 Hparsed Hx1) as (p & Hproj & Hsim).
  exists events, a, pi, parent, t, x0. split_and!; try done. split_and!.
  - apply project_length in Hproj. pose proof (sim_sequence _ _ _ Hsim) as Hseq.
    unfold view in *. cbn in Hproj. lia.
  - intros _. eapply open_live, restore_loop_open, Hx1.
  - by eapply gate_owned.
  - by exists p.
Qed.
