(* ===== verification/Liveness.v ===== *)
(** Closing a turn always works: on an available sink, [interrupt] and [fail]
    settle every pending approval, open tool call and open item, and end the
    turn.  [settleable] is what this needs of the coordinator; a restored
    coordinator has it (RestoreProps.v). *)
From S2P Require Import Prelude Js Zod Protocol LifecycleEvents EventStore Coordinator Projector ProjectorFacts Sink Simulation.

(** * Events of a valid identity parse *)

Record env_valid `{!JsRuntime} (options : RuntimeLifecycleCoordinatorOptions) : Prop := {
  ev_thread : ThreadIdSchema (o_threadId options) = true;
  ev_turn : TurnIdSchema (o_turnId options) = true;
  (** so that event ids fit the 128 characters of an id suffix *)
  ev_turn_length : (String.length (o_turnId options) <= 115)%nat;
  ev_attempt : RunAttemptIdSchema (o_runAttemptId options) = true;
  ev_producer : str_between 1 160 (o_producerId options) = true;
  ev_clock : forall n, is_datetime (o_clock options n) = true;
}.

Lemma digit_id_char c : ascii_between 48 57 c = true -> is_id_char c = true.
Proof. unfold is_id_char, is_alnum. intros ->. by rewrite !orb_true_r. Qed.

Lemma decimal_id_chars n : 0 <= n -> str_forall is_id_char (Number_toString n) = true.
Proof.
  intros. eapply str_forall_mono; [apply digit_id_char|by apply Number_toString_digits].
Qed.

Lemma event_id_ok turn n :
  TurnIdSchema turn = true -> (String.length turn <= 115)%nat -> 0 <= n <= MAX_SAFE_INTEGER ->
  EventIdSchema ("evt_" +:+ slice_from 4 turn +:+ "_" +:+ Number_toString n) = true.
Proof.
  intros Ht Hlen Hn. apply prefixed_id_iff.
  exists (slice_from 4 turn +:+ "_" +:+ Number_toString n). split; [done|].
  pose proof (turn_id_slice turn Ht) as Hslice. rewrite Hslice, length_append in Hlen.
  apply prefixed_id_iff in Ht as (s & Hs & Hpat).
  assert (slice_from 4 turn = s) as Heq.
  { rewrite Hs. apply (slice_from_append "trn_"). }
  rewrite Heq in *. destruct s as [|c s]; [done|]. cbn [ID_SUFFIX_PATTERN] in Hpat.
  rewrite !andb_true_iff in Hpat. destruct Hpat as [[Hc Hs'] [Hlo _]]. apply Nat.leb_le in Hlo.
  rewrite append_cons. cbn [ID_SUFFIX_PATTERN]. rewrite Hc, !str_forall_app, Hs'.
  rewrite decimal_id_chars by lia. rewrite !length_append. cbn [String.length] in *.
  pose proof (Number_toString_length n Hn). cbn [andb].
  apply andb_true_iff. split; [done|]. apply andb_true_iff. split; apply Nat.leb_le; lia.
Qed.

Section Drafts.
Context `{!JsRuntime}.
Variable options : RuntimeLifecycleCoordinatorOptions.
Hypothesis Henv : env_valid options.

Definition room (n : Z) (c : RuntimeLifecycleCoordinator) : Prop :=
  0 <= c_sequence c /\ c_sequence c + n <= MAX_SAFE_INTEGER.

Lemma draft_envelope c fields off :
  0 <= c_sequence c + off <= MAX_SAFE_INTEGER -> (String.length (ef_type fields) <= 40)%nat ->
  LifecycleEventEnvelopeShape (draft_event options c fields off) = true.
Proof.
  intros Hn Hty. destruct Henv. unfold LifecycleEventEnvelopeShape.
  cbn [eventId threadId turnId runAttemptId sequence idempotencyKey producer_id schemaVersion
       createdAt draft_event].
  rewrite event_id_ok, ev_thread0, ev_turn0, ev_attempt0, ev_producer0, ev_clock0 by done.
  rewrite (proj2 (Z.leb_le 0 _)), (proj2 (Z.leb_le _ MAX_SAFE_INTEGER)) by lia.
  pose proof (Number_toString_length _ Hn). cbn [andb].
  unfold str_between, str_length. rewrite !length_append. cbn [String.length].
  rewrite (proj2 (Z.leb_le 1 _)), (proj2 (Z.leb_le _ 200)) by lia. done.
Qed.

Lemma draft_parses c ty i t a pl pl' sh off :
  0 <= c_sequence c + off <= MAX_SAFE_INTEGER -> (String.length ty <= 40)%nat ->
  dget ty event_shapes = Some sh ->
  present_ok (sh_item sh) ItemIdSchema i = true ->
  present_ok (sh_tool sh) ToolCallIdSchema t = true ->
  present_ok (sh_approval sh) ApprovalIdSchema a = true ->
  sh_request sh = Absent ->
  sh_payload sh (JObj pl) = Some (JObj pl') ->
  is_ok (parse_event (draft_event options c (mkFields ty i t a pl) off)) = true.
Proof.
  intros Hn Hty Hsh Hi Ht Ha Hr Hpl. unfold parse_event, LifecycleEventSchema.
  cbn [type itemId toolCallId approvalId requestId payload draft_event ef_type ef_itemId
       ef_toolCallId ef_approvalId ef_payload]. rewrite Hsh.
  rewrite draft_envelope by done. by rewrite Hi, Ht, Ha, Hr, Hpl.
Qed.
End Drafts.

(** * Steps that cannot fail *)

Section Liveness.
Context `{!JsRuntime} {K : Type} `{!LifecycleSink K, !LifecycleSinkLaws K, !SinkAvailable K}.
Variable options : RuntimeLifecycleCoordinatorOptions.
Hypothesis Henv : env_valid options.
Notation Coord := RuntimeLifecycleCoordinator.
Notation good := (good (K:=K) options).

(** [m] returns, in a state of [Q]. *)
Definition runs {A} (m : M (K:=K) A) (Q : A -> World (K:=K) -> Prop) (w : World (K:=K)) : Prop :=
  wp m Q (fun _ _ => False) w.

Lemma runs_and {A} (m : M (K:=K) A) Q X w :
  wp m Q X w -> runs m (fun _ _ => True) w -> runs m Q w.
Proof. unfold runs, wp. by destruct (m w) as [[] ?]. Qed.

Lemma runs_mono {A} (m : M (K:=K) A) Q Q' w :
  runs m Q w -> (forall a w', Q a w' -> Q' a w') -> runs m Q' w.
Proof. intros. by eapply wp_mono. Qed.

Lemma good_sequence c k : good (c, k) -> 0 <= c_sequence c.
Proof. intros [_ [Hlen _]]. cbn in Hlen. lia. Qed.

Lemma emit_runs fields c k :
  good (c, k) -> isTerminal c = false ->
  is_ok (parse_event (draft_event options c fields 1)) = true ->
  runs (emit options fields) (fun _ _ => True) (c, k).
Proof.
  intros Hgood Hterm Hok. pose proof Hgood as [Hk (Hlen & Hlive & _)].
  destruct (parse_event (draft_event options c fields 1)) as [e|] eqn:Hp; [|done].
  destruct (draft_canonical _ _ _ _ _ Hp) as (Hturn & Hcan & Hself & Hseq & _).
  unfold runs, emit. apply wp_bind, wp_get, wp_bind, wp_lift;
    [|unfold assertTurnAcceptsLifecycleEvent, isTerminal in *; by rewrite Hterm].
  intros [] _. apply wp_bind. unfold createEvent, wp, mbind, ST_bind, get, gets, upd, modify, lift.
  cbn. rewrite Hp. unfold appendBatch; cbn.
  pose proof (sink_available (o_turnId options) k [e] Hk) as Hav.
  destruct (sink_appendBatch [e] k) as [[] k']; [done|]. cbn in Hav. discriminate Hav.
  constructor; auto; [|constructor]. rewrite Hseq. cbn in Hlen. unfold log_of in Hlen. cbn in Hlen. lia.
Qed.

(** The event can be written now. *)
Definition writable (c : Coord) (fields : EventFields) : Prop :=
  isTerminal c = false /\ is_ok (parse_event (draft_event options c fields 1)) = true.

Lemma settleItem_runs c k i st payload payload' :
  good (c, k) -> isTerminal c = false -> room 1 c ->
  ItemIdSchema i = true -> dget i (c_itemStatuses c) = Some it_active ->
  isTerminalItemStatus st = true ->
  (forall t, dget t (c_toolCallStatuses c) = Some it_active ->
             dget t (c_toolCallItems c) <> Some i) ->
  (forall sh, dget ("item." +:+ ItemStatus_str st) event_shapes = Some sh ->
     sh_payload sh (JObj payload) = Some (JObj payload')) ->
  runs (settleItem options i st payload)
    (fun _ w => good w /\ fst w = set_itemStatus i st (after c)) (c, k).
Proof.
  intros Hgood Hterm Hroom Hi Hact Hst Hfree Hpl.
  eapply runs_and; [by apply settleItem_good|]. unfold runs, settleItem.
  apply wp_bind, wp_get, wp_bind, wp_lift; rewrite Hact; cbn [default];
    [intros next _|by destruct st].
  apply wp_bind. eapply wp_mono; [apply emit_runs; [done|done|]|done|done].
  assert (exists sh, dget ("item." +:+ ItemStatus_str st) event_shapes = Some sh /\
    sh_item sh = Required /\ sh_tool sh = Absent /\ sh_approval sh = Absent /\
    sh_request sh = Absent) as (sh & Hsh & H1 & H2 & H3 & H4).
  { destruct st; try done; eexists; split_and!; reflexivity. }
  eapply draft_parses; [done| | |exact Hsh|by rewrite H1|by rewrite H2|by rewrite H3|exact H4|
    by apply Hpl].
  - destruct Hroom. lia.
  - apply Nat.leb_le. by destruct st.
Qed.

(** ** What closes an item and a tool call *)

(** The payloads [interrupt] and [fail] close open work with. *)
Inductive close_payload : ItemStatus -> JsonRecord -> Prop :=
| close_interrupted reason :
    str_between 1 2000 reason = true ->
    close_payload it_interrupted [("reason", JStr reason)]
| close_failed failure :
    is_some (ProtocolErrorSchema (json_of_failure failure)) = true ->
    close_payload it_failed [("failure", json_of_failure failure)]
| close_declined reason :
    str_between 1 2000 reason = true ->
    close_payload it_declined [("reason", JStr reason)].

Lemma close_terminal st payload : close_payload st payload -> isTerminalItemStatus st = true.
Proof. by destruct 1. Qed.

Lemma reason_ok reason : str_between 1 2000 reason = true -> reason_schema (JStr reason) = Some (JStr reason).
Proof. unfold reason_schema, z_string, z_test, str_between. by intros ->. Qed.

Lemma failure_ok failure :
  is_some (ProtocolErrorSchema (json_of_failure failure)) = true ->
  ProtocolErrorSchema (json_of_failure failure) = Some (json_of_failure failure).
Proof.
  destruct (ProtocolErrorSchema _) as [j|] eqn:Hj; [|done]. intros _.
  by apply ProtocolErrorSchema_id in Hj as ->.
Qed.

(** An object schema whose first field is present and whose others are optional. *)
Lemma z_object_first key z v shape :
  z v = Some v -> parse_fields [(key, v)] shape = Some [] ->
  z_object (req key z :: shape) (JObj [(key, v)]) = Some (JObj [(key, v)]).
Proof.
  intros Hz Hrest. unfold z_object. cbn [map f_key req dkeys fst forallb].
  rewrite bool_decide_eq_true_2 by (apply list_elem_of_here). cbn [andb parse_fields].
  unfold parse_field. cbn [f_key f_schema req dget]. rewrite decide_True by done.
  rewrite Hz. cbn. by rewrite Hrest.
Qed.

Lemma close_item_payload st payload sh :
  close_payload st payload -> dget ("item." +:+ ItemStatus_str st) event_shapes = Some sh ->
  sh_payload sh (JObj payload) = Some (JObj payload).
Proof.
  destruct 1 as [r Hr|f Hf|r Hr]; intros Hsh.
  - change (Some (item_shape (z_object [req "reason" reason_schema])) = Some sh) in Hsh.
    injection Hsh as <-. apply z_object_first; [by apply reason_ok|done].
  - change (Some (item_shape (z_object [req "failure" ProtocolErrorSchema])) = Some sh) in Hsh.
    injection Hsh as <-. apply z_object_first; [by apply failure_ok|done].
  - change (Some (item_shape (z_object [req "reason" reason_schema])) = Some sh) in Hsh.
    injection Hsh as <-. apply z_object_first; [by apply reason_ok|done].
Qed.

Definition name_ok (o : option string) : Prop :=
  forall s, truthy o = Some s -> is_some (z_trimmed 1 160 (JStr s)) = true.
Definition batch_ok (o : option string) : Prop :=
  forall s, truthy o = Some s -> ToolCallBatchIdSchema s = true.

Lemma batch_regex b :
  ToolCallBatchIdSchema b = true -> z_regex ToolCallBatchIdSchema (JStr b) = Some (JStr b).
Proof. unfold z_regex, z_test. by intros ->. Qed.

(** A tool settlement with its identity: one lemma per payload key. *)
Ltac tool_identity_tac Hz Hn Hb :=
  unfold name_ok, batch_ok, opt_field in *;
  match goal with
  | |- context [truthy ?n] => destruct (truthy n) as [nm|]; [specialize (Hn _ eq_refl)|]
  end;
  match goal with
  | |- context [truthy ?b] => destruct (truthy b) as [bt|]; [specialize (Hb _ eq_refl)|]
  end;
  unfold z_object; simpl; unfold parse_field; simpl; rewrite Hz; simpl;
  try (destruct (z_trimmed 1 160 _) as [tn|]; [simpl|done]);
  try (rewrite batch_regex by done; simpl); by eexists.

#[local] Arguments z_trimmed _ _ _ : simpl never.
#[local] Arguments z_regex _ _ : simpl never.

Lemma tool_reason_payload z v name batch :
  z v = Some v -> name_ok name -> batch_ok batch ->
  exists pl, z_object (req "reason" z :: tool_identity)
    (JObj (dmerge [("reason", v)] (opt_field "toolName" name ++ opt_field "callBatchId" batch)))
    = Some (JObj pl).
Proof. intros Hz Hn Hb. tool_identity_tac Hz Hn Hb. Qed.

Lemma tool_failure_payload z v name batch :
  z v = Some v -> name_ok name -> batch_ok batch ->
  exists pl, z_object (req "failure" z :: tool_identity)
    (JObj (dmerge [("failure", v)] (opt_field "toolName" name ++ opt_field "callBatchId" batch)))
    = Some (JObj pl).
Proof. intros Hz Hn Hb. tool_identity_tac Hz Hn Hb. Qed.

Lemma close_tool_payload st payload sh name batch :
  close_payload st payload -> name_ok name -> batch_ok batch ->
  dget ("tool_call." +:+ ItemStatus_str st) event_shapes = Some sh ->
  exists pl, sh_payload sh (JObj (dmerge payload
    (opt_field "toolName" name ++ opt_field "callBatchId" batch))) = Some (JObj pl).
Proof.
  intros Hc Hn Hb Hsh. destruct Hc as [r Hr|f Hf|r Hr].
  - change (Some (tool_shape (z_object (req "reason" reason_schema :: tool_identity))) = Some sh) in Hsh.
    injection Hsh as <-. apply tool_reason_payload; [by apply reason_ok|done|done].
  - change (Some (tool_shape (z_object (req "failure" ProtocolErrorSchema :: tool_identity))) = Some sh) in Hsh.
    injection Hsh as <-. apply tool_failure_payload; [by apply failure_ok|done|done].
  - change (Some (tool_shape (z_object (req "reason" reason_schema :: tool_identity))) = Some sh) in Hsh.
    injection Hsh as <-. apply tool_reason_payload; [by apply reason_ok|done|done].
Qed.

Lemma settleToolCall_runs c k t i st payload :
  good (c, k) -> isTerminal c = false -> room 2 c ->
  dget t (c_toolCallStatuses c) = Some it_active -> dget t (c_toolCallItems c) = Some i ->
  ToolCallIdSchema t = true -> ItemIdSchema i = true -> close_payload st payload ->
  name_ok (dget t (c_toolCallNames c)) -> batch_ok (dget t (c_toolCallBatches c)) ->
  runs (settleToolCall options t st payload)
    (fun _ w => good w /\ fst w = tool_settled t i st c) (c, k).
Proof.
  intros Hgood Hterm Hroom Hact Hti Ht Hi Hpl Hn Hb.
  pose proof (close_terminal _ _ Hpl) as Hst. unfold runs, settleToolCall.
  apply wp_bind. unfold requireActiveToolCall. apply wp_bind, wp_get, wp_bind.
  rewrite Hact. cbn [default]. rewrite decide_True by done. apply wp_ret, wp_ret.
  apply wp_bind, wp_lift; [|by destruct st]. intros next Htr. apply transition_ok in Htr as [-> _].
  apply wp_bind. unfold requireToolCallItem. apply wp_bind, wp_get. rewrite Hti.
  assert (truthy (Some i) = Some i) as ->
    by (apply prefixed_id_nonempty in Hi; by destruct i). apply wp_ret.
  apply wp_bind, wp_get, wp_bind.
  eapply wp_mono; [eapply runs_and; [by apply emit_tool_settled|apply emit_runs; [done|done|]]| |done].
  { assert (exists sh, dget ("tool_call." +:+ ItemStatus_str st) event_shapes = Some sh /\
      sh_item sh = Required /\ sh_tool sh = Required /\ sh_approval sh = Absent /\
      sh_request sh = Absent) as (sh & Hsh & H1 & H2 & H3 & H4).
    { destruct Hpl; eexists; split_and!; reflexivity. }
    destruct (close_tool_payload _ _ _ _ _ Hpl Hn Hb Hsh) as [pl Hpl'].
    eapply draft_parses; [done| | |exact Hsh|by rewrite H1|by rewrite H2|by rewrite H3|exact H4|exact Hpl'].
    - destruct Hroom. lia.
    - apply Nat.leb_le. by destruct Hpl. }
  intros _ [c1 k1] [Hc1 Hgood1]. cbn in Hc1, Hgood1. subst c1.
  apply wp_bind. unfold wp at 1, upd, modify; cbn.
  pose proof (settled_tool_frees _ _ _ _ _ _ Hgood Hst Hact Hti) as Hfree.
  destruct (good_project _ _ _ Hgood) as (_ & _ & _ & Hown & _).
  eapply settleItem_runs; try done.
  - destruct Hroom. split; cbn in *; lia.
  - by eapply own_active.
  - intros sh Hsh. by eapply close_item_payload.
Qed.

Lemma cancelled_payload r :
  ApprovalDecidedPayloadSchema
    (JObj (dset "status" (JStr (ApprovalStatus_str ap_cancelled)) [("reason", JStr r)])) =
  Some (JObj [("status", JStr "cancelled"); ("reason", JStr r)]).
Proof. reflexivity. Qed.

Lemma decideApproval_runs c k a i r :
  good (c, k) -> isTerminal c = false -> room 3 c ->
  dget a (c_approvalStatuses c) = Some ap_pending -> dget a (c_approvalItems c) = Some i ->
  ApprovalIdSchema a = true -> ItemIdSchema i = true -> dget i (c_itemStatuses c) = Some it_active ->
  runs (decideApprovalNow options a ap_cancelled [("reason", JStr r)])
    (fun _ w => good w /\ fst w = approval_settled a i ap_cancelled c) (c, k).
Proof.
  intros Hgood Hterm Hroom Hpend Hai Ha Hi Hact.
  assert (Htruthy : truthy (Some i) = Some i) by (apply prefixed_id_nonempty in Hi; by destruct i).
  unfold runs, decideApprovalNow.
  apply wp_bind, wp_get, wp_bind. rewrite Hpend. cbn [default]. apply wp_lift; [|done].
  intros next Htr. apply transition_ok in Htr as [-> _].
  apply wp_bind. unfold requireApprovalItem at 1. apply wp_bind, wp_get. rewrite Hai, Htruthy.
  apply wp_ret, wp_bind.
  eapply wp_mono; [eapply runs_and; [by apply emit_decided|apply emit_runs; [done|done|]]| |done].
  { eapply (draft_parses _ Henv _ _ _ _ _ _ _ (approval_shape ApprovalDecidedPayloadSchema));
      [|apply Nat.leb_le; done|done|done|done|done|done|apply cancelled_payload].
    destruct Hroom. lia. }
  intros _ [c1 k1] [Hc1 Hgood1]. cbn in Hc1, Hgood1. subst c1.
  apply wp_bind. unfold wp at 1, upd, modify; cbn. set (c2 := set_approvalStatus a ap_cancelled (after c)) in *.
  assert (Hc2 : isTerminal c2 = false) by done.
  apply wp_bind. eapply wp_mono;
    [eapply runs_and; [by apply changeBlocking_good; [|split]|]| |done].
  { unfold runs, changeBlocking. apply wp_bind.
    eapply wp_mono; [apply emit_runs; [done|done|]| |done].
    - eapply (draft_parses _ Henv _ _ _ _ _ _ _ generic_shape);
        [|apply Nat.leb_le; done|done|done|done|done|done|reflexivity].
      destruct Hroom. cbn. lia.
    - intros _ [c3 k3] _. apply wp_bind, wp_get, wp_bind.
      destruct (decide (c_status c3 = awaiting_approval)) as [->|];
        by unfold wp, upd, modify, mbind, ST_bind, lift, mret, ST_ret; cbn. }
  intros _ [c3 k3] [Hgood3 Hc3]. cbn in Hc3.
  assert (Hai3 : c_approvalItems c3 = c_approvalItems c /\ c_itemStatuses c3 = c_itemStatuses c /\
    c_toolCallStatuses c3 = c_toolCallStatuses c /\ c_toolCallItems c3 = c_toolCallItems c /\
    isTerminal c3 = false /\ c_sequence c3 = c_sequence c + 2).
  { subst c3 c2. unfold blocked. cbn. unfold isTerminal in *.
    case_decide; cbn; split_and!; try done; lia. }
  destruct Hai3 as (E1 & E2 & E3 & E4 & E5 & E6).
  apply wp_bind. unfold requireApprovalItem. apply wp_bind, wp_get. rewrite E1, Hai, Htruthy.
  apply wp_ret. rewrite decide_False by done.
  unfold approval_settled, decision_item_status. rewrite decide_False by done.
  fold c2. rewrite <- Hc3. eapply settleItem_runs; try done.
  - destruct Hroom. split; lia.
  - by rewrite E2.
  - rewrite E3, E4. by eapply pending_item_free.
  - intros sh Hsh. by eapply (close_item_payload it_declined), Hsh; constructor.
Qed.

(** ** Coordinators that can be closed *)

Record settleable (c : Coord) : Prop := {
  sb_live : isTerminal c = false;
  sb_attempt : c_runAttemptStatus c = ra_queued \/ c_runAttemptStatus c = ra_running;
  sb_items : NoDup (dkeys (c_itemStatuses c));
  sb_approvals : NoDup (dkeys (c_approvalStatuses c));
  sb_item_ids : forall i st, dget i (c_itemStatuses c) = Some st ->
    ItemIdSchema i = true /\ st <> it_not_started;
  sb_tool_ids : forall t st, dget t (c_toolCallStatuses c) = Some st ->
    ToolCallIdSchema t = true;
  sb_names : forall t, name_ok (dget t (c_toolCallNames c));
  sb_batches : forall t, batch_ok (dget t (c_toolCallBatches c));
  sb_pending : forall a, dget a (c_approvalStatuses c) = Some ap_pending ->
    ApprovalIdSchema a = true /\
    exists i, dget a (c_approvalItems c) = Some i /\ dget i (c_itemStatuses c) = Some it_active;
  sb_distinct : forall a a' i, dget a (c_approvalStatuses c) = Some ap_pending ->
    dget a' (c_approvalStatuses c) = Some ap_pending ->
    dget a (c_approvalItems c) = Some i -> dget a' (c_approvalItems c) = Some i -> a = a';
  sb_blocking : c_blockingState c = b_none \/
    exists a, dget a (c_approvalStatuses c) = Some ap_pending;
}.

Definition no_pending (c : Coord) : Prop :=
  forall a, dget a (c_approvalStatuses c) <> Some ap_pending.

(** With its sizes, and room for [n] more events. *)
Record closing (nt ni : nat) (n : Z) (c : Coord) : Prop := {
  cl_settleable : settleable c;
  cl_tools : length (c_toolCallStatuses c) = nt;
  cl_items : length (c_itemStatuses c) = ni;
  cl_room : room n c;
}.

Lemma blocked_none_fields c :
  c_itemStatuses (blocked b_none c) = c_itemStatuses c /\
  c_toolCallStatuses (blocked b_none c) = c_toolCallStatuses c /\
  c_toolCallItems (blocked b_none c) = c_toolCallItems c /\
  c_toolCallNames (blocked b_none c) = c_toolCallNames c /\
  c_toolCallBatches (blocked b_none c) = c_toolCallBatches c /\
  c_approvalStatuses (blocked b_none c) = c_approvalStatuses c /\
  c_approvalItems (blocked b_none c) = c_approvalItems c /\
  c_runAttemptStatus (blocked b_none c) = c_runAttemptStatus c /\
  c_blockingState (blocked b_none c) = b_none /\
  c_sequence (blocked b_none c) = c_sequence c + 1 /\
  (isTerminal c = false -> isTerminal (blocked b_none c) = false).
Proof. unfold blocked, isTerminal; cbn. case_decide; cbn; by split_and!. Qed.

Lemma closing_approval nt ni n c a i :
  closing nt ni (n + 3) c -> dget a (c_approvalStatuses c) = Some ap_pending ->
  dget a (c_approvalItems c) = Some i -> dget i (c_itemStatuses c) = Some it_active ->
  closing nt ni n (approval_settled a i ap_cancelled c) /\
  c_blockingState (approval_settled a i ap_cancelled c) = b_none /\
  forall a', dget a' (c_approvalStatuses (approval_settled a i ap_cancelled c)) = Some ap_pending ->
    a' <> a /\ dget a' (c_approvalStatuses c) = Some ap_pending.
Proof.
  intros [Hs Ht Hi [Hr1 Hr2]] Hpend Hai Hact. unfold approval_settled.
  destruct (blocked_none_fields (set_approvalStatus a ap_cancelled (after c)))
    as (E1 & E2 & E3 & E4 & E5 & E6 & E7 & E8 & E9 & E10 & E11).
  cbn -[dset dget blocked dkeys] in *.
  assert (Hap : forall a', dget a' (dset a ap_cancelled (c_approvalStatuses c)) = Some ap_pending ->
    a' <> a /\ dget a' (c_approvalStatuses c) = Some ap_pending).
  { intros a'. rewrite dget_dset. by destruct (decide (a' = a)). }
  split_and!; [|done|by rewrite E6]. destruct Hs. split; cbn -[dset dget blocked dkeys].
  - split; cbn -[dset dget blocked dkeys];
      rewrite ?E1, ?E2, ?E3, ?E4, ?E5, ?E6, ?E7, ?E8, ?E9; try done; auto using NoDup_dset.
    + intros j st. rewrite dget_dset. destruct (decide (j = i)) as [->|]; [|apply sb_item_ids0].
      intros [= <-]. split; [by eapply sb_item_ids0|done].
    + intros a' Ha'. apply Hap in Ha' as [Hne Ha'].
      destruct (sb_pending0 a' Ha') as (Hid & j & Hj & Hjact). split; [done|]. exists j.
      split; [done|]. rewrite dget_dset_ne; [done|]. intros ->. apply Hne. by eapply sb_distinct0.
    + intros a1 a2 j [_ H1]%Hap [_ H2]%Hap. by apply sb_distinct0.
  - by rewrite E2.
  - rewrite E1. by rewrite length_dset_old.
  - split; cbn -[blocked]; rewrite E10; cbn; lia.
Qed.

Lemma closing_item nt ni n c i st k :
  good (c, k) -> closing nt ni (n + 1) c -> dget i (c_itemStatuses c) = Some it_active ->
  isTerminalItemStatus st = true ->
  (forall a, dget a (c_approvalStatuses c) = Some ap_pending -> dget a (c_approvalItems c) <> Some i) ->
  closing nt ni n (set_itemStatus i st (after c)).
Proof.
  intros Hgood [Hs Ht Hi [Hr1 Hr2]] Hact Hst Hfree. destruct Hs.
  split; cbn -[dset dget dkeys]; try done.
  - split; cbn -[dset dget dkeys]; auto using NoDup_dset.
    + intros j st'. rewrite dget_dset. destruct (decide (j = i)) as [->|]; [|apply sb_item_ids0].
      intros [= <-]. split; [by eapply sb_item_ids0|by destruct st].
    + intros a Ha. destruct (sb_pending0 a Ha) as (Hid & j & Hj & Hjact). split; [done|].
      exists j. split; [done|]. rewrite dget_dset_ne; [done|]. intros ->. by eapply Hfree.
  - by rewrite length_dset_old.
  - split; cbn; lia.
Qed.

Lemma closing_tool nt ni n c k t i st :
  good (c, k) -> closing nt ni (n + 2) c ->
  dget t (c_toolCallStatuses c) = Some it_active -> dget t (c_toolCallItems c) = Some i ->
  isTerminalItemStatus st = true ->
  closing nt ni n (tool_settled t i st c).
Proof.
  intros Hgood [Hs Ht Hi [Hr1 Hr2]] Hact Hti Hst.
  destruct (good_project _ _ _ Hgood) as (_ & _ & _ & Hown & _).
  pose proof (own_active _ _ _ _ _ Hown t i Hact Hti) as Hiact.
  pose proof (own_disjoint _ _ _ _ _ Hown) as Hdis. destruct Hs.
  split; cbn -[dset dget dkeys]; try done.
  - split; cbn -[dset dget dkeys]; auto using NoDup_dset.
    + intros j st'. rewrite dget_dset. destruct (decide (j = i)) as [->|]; [|apply sb_item_ids0].
      intros [= <-]. split; [by eapply sb_item_ids0|by destruct st].
    + intros t' st'. rewrite dget_dset. destruct (decide (t' = t)) as [->|]; [|apply sb_tool_ids0].
      intros _. by eapply sb_tool_ids0.
    + intros a Ha. destruct (sb_pending0 a Ha) as (Hid & j & Hj & Hjact). split; [done|].
      exists j. split; [done|]. rewrite dget_dset_ne; [done|]. intros ->. by eapply Hdis.
  - by rewrite length_dset_old.
  - by rewrite length_dset_old.
  - split; cbn; lia.
Qed.

(** ** The loops *)

Lemma cancelPendingApprovals_runs nt ni n c k reason :
  0 <= n -> good (c, k) ->
  closing nt ni (n + 3 * Z.of_nat (length (c_approvalStatuses c))) c ->
  runs (cancelPendingApprovals options reason)
    (fun _ w => good w /\ closing nt ni n (fst w) /\ no_pending (fst w)) (c, k).
Proof.
  intros Hn Hgood Hcl. unfold runs, cancelPendingApprovals. apply wp_bind, wp_get.
  eapply runs_mono; [apply (wp_for_of _ (fun xs w => good w /\
      closing nt ni (n + 3 * Z.of_nat (length xs)) (fst w) /\ NoDup (map fst xs) /\
      (forall a, (a, ap_pending) ∈ xs -> dget a (c_approvalStatuses (fst w)) = Some ap_pending) /\
      forall a, dget a (c_approvalStatuses (fst w)) = Some ap_pending -> (a, ap_pending) ∈ xs))|].
  - intros [a st] xs [c1 k1] (Hg1 & Hcl1 & Hnd & Hin & Hout). cbn in Hnd, Hin, Hout.
    apply NoDup_cons in Hnd as [Hnot Hnd].
    replace (n + 3 * Z.of_nat (length ((a, st) :: xs)))
      with (n + 3 * Z.of_nat (length xs) + 3) in Hcl1 by (cbn [length]; lia).
    destruct (decide (st = ap_pending)) as [->|Hne].
    + pose proof (Hin a ltac:(set_solver)) as Hpend.
      pose proof Hcl1 as [Hs1 _ _ Hroom1].
      destruct (sb_pending _ Hs1 a Hpend) as (Hid & i & Hai & Hact).
      eapply runs_mono; [eapply decideApproval_runs; try done|].
      * apply (sb_live _ Hs1).
      * destruct Hroom1. split; [done|]. cbn in *. lia.
      * by eapply sb_item_ids.
      * intros _ [c2 k2] [Hg2 Hc2]. cbn in Hc2. subst c2.
        destruct (closing_approval _ _ _ _ _ _ Hcl1 Hpend Hai Hact) as (Hcl2 & _ & Hold).
        split_and!; try done.
        -- intros a' Ha'. cbn [fst]. assert (a' <> a).
           { intros ->. apply Hnot. apply (list_elem_of_fmap_2 fst) in Ha'. exact Ha'. }
           pose proof (Hin a' ltac:(set_solver)) as Hp'. unfold approval_settled.
           destruct (blocked_none_fields (set_approvalStatus a ap_cancelled (after c1)))
             as (_ & _ & _ & _ & _ & E6 & _).
           cbn -[dset dget blocked]. rewrite E6. cbn -[dset dget]. by rewrite dget_dset_ne.
        -- intros a' Ha'. apply Hold in Ha' as [Hne Ha']. apply Hout in Ha'. set_solver.
    + apply wp_ret. split_and!; try done.
      * cbn [fst]. destruct Hcl1 as [? ? ? [? ?]]. split; try done. split; [done|]. cbn in *. lia.
      * intros a' Ha'. apply Hin. set_solver.
      * intros a' Ha'. apply Hout in Ha'. set_solver.
  - split_and!; try done.
    + apply (sb_approvals _ (cl_settleable _ _ _ _ Hcl)).
    + intros a Ha. apply elem_dget; [|done]. apply (sb_approvals _ (cl_settleable _ _ _ _ Hcl)).
    + intros a Ha. by apply dget_elem.
  - intros _ [c1 k1] (Hg1 & Hcl1 & _ & _ & Hout). split_and!; [done| |].
    + cbn in *. by rewrite Z.add_0_r in Hcl1.
    + intros a Ha. apply Hout in Ha. set_solver.
Qed.

Lemma settleTools_runs nt ni n c k st payload :
  0 <= n -> good (c, k) -> closing nt ni (n + 2 * Z.of_nat nt) c -> no_pending c -> close_payload st payload ->
  runs (for_of (c_toolCallStatuses c) (fun '(toolCallId, current) =>
          if decide (current = it_active) then settleToolCall options toolCallId st payload
          else mret tt))
    (fun _ w => good w /\ closing nt ni n (fst w) /\ no_pending (fst w) /\ no_active (fst w))
    (c, k).
Proof.
  intros Hn Hgood Hcl Hnp Hpl. pose proof (close_terminal _ _ Hpl) as Hst.
  rewrite <- (cl_tools _ _ _ _ Hcl) in Hcl at 2.
  destruct (good_project _ _ _ Hgood) as (_ & _ & _ & Hown & _).
  eapply runs_mono; [apply (wp_for_of _ (fun xs w => good w /\
      closing nt ni (n + 2 * Z.of_nat (length xs)) (fst w) /\ no_pending (fst w) /\
      NoDup (map fst xs) /\
      (forall t, (t, it_active) ∈ xs -> dget t (c_toolCallStatuses (fst w)) = Some it_active) /\
      forall t, dget t (c_toolCallStatuses (fst w)) = Some it_active -> (t, it_active) ∈ xs))|].
  - intros [t cur] xs [c1 k1] (Hg1 & Hcl1 & Hnp1 & Hnd & Hin & Hout). cbn in Hnd, Hin, Hout.
    apply NoDup_cons in Hnd as [Hnot Hnd].
    replace (n + 2 * Z.of_nat (length ((t, cur) :: xs)))
      with (n + 2 * Z.of_nat (length xs) + 2) in Hcl1 by (cbn [length]; lia).
    destruct (decide (cur = it_active)) as [->|Hne].
    + pose proof (Hin t ltac:(set_solver)) as Hact. pose proof Hcl1 as [Hs1 _ _ Hroom1].
      destruct (good_project _ _ _ Hg1) as (_ & _ & _ & Hown1 & _).
      assert (is_Some (dget t (c_toolCallItems c1))) as [i Hti].
      { apply elem_dkeys. rewrite <- (own_keys _ _ _ _ _ Hown1). apply elem_dkeys. by rewrite Hact. }
      pose proof (own_active _ _ _ _ _ Hown1 t i Hact Hti) as Hiact.
      eapply runs_mono; [eapply settleToolCall_runs; try done|].
      * apply (sb_live _ Hs1).
      * destruct Hroom1. split; [done|]. cbn in *. lia.
      * by eapply sb_tool_ids.
      * by eapply sb_item_ids.
      * apply (sb_names _ Hs1).
      * apply (sb_batches _ Hs1).
      * intros _ [c2 k2] [Hg2 Hc2]. cbn in Hc2. subst c2. split_and!; try done.
        -- by eapply closing_tool.
        -- intros t' Ht'. cbn -[dset dget]. rewrite dget_dset_ne; [apply Hin; set_solver|].
           intros ->. apply Hnot. apply (list_elem_of_fmap_2 fst) in Ht'. exact Ht'.
        -- intros t'. cbn -[dset dget]. rewrite dget_dset.
           destruct (decide (t' = t)) as [->|Hne]; [by destruct st|].
           intros Ht'. apply Hout in Ht'. set_solver.
    + apply wp_ret. split_and!; try done.
      * cbn [fst]. destruct Hcl1 as [? ? ? [? ?]]. split; try done. split; [done|]. cbn in *. lia.
      * intros t' Ht'. apply Hin. set_solver.
      * intros t' Ht'. apply Hout in Ht'. set_solver.
  - split_and!; try done.
    + apply (own_nodup _ _ _ _ _ Hown).
    + intros t Ht. apply elem_dget; [|done]. apply (own_nodup _ _ _ _ _ Hown).
    + intros t Ht. by apply dget_elem.
  - intros _ [c1 k1] (Hg1 & Hcl1 & Hnp1 & _ & _ & Hout). split_and!; [done| |done|].
    + cbn in *. by rewrite Z.add_0_r in Hcl1.
    + intros t Ht. apply Hout in Ht. set_solver.
Qed.

Lemma settleItems_runs nt ni n c k st payload :
  0 <= n -> good (c, k) -> closing nt ni (n + Z.of_nat ni) c -> no_pending c -> no_active c ->
  close_payload st payload ->
  runs (for_of (c_itemStatuses c) (fun '(itemId, current) =>
          if decide (current = it_active) then settleItem options itemId st payload
          else mret tt))
    (fun _ w => good w /\ closing nt ni n (fst w) /\ no_pending (fst w) /\
       Forall (fun kv => isTerminalItemStatus (snd kv) = true) (c_itemStatuses (fst w)))
    (c, k).
Proof.
  intros Hn Hgood Hcl Hnp Hna Hpl. pose proof (close_terminal _ _ Hpl) as Hst.
  rewrite <- (cl_items _ _ _ _ Hcl) in Hcl at 2.
  pose proof (sb_items _ (cl_settleable _ _ _ _ Hcl)) as Hnd0.
  eapply runs_mono; [apply (wp_for_of _ (fun xs w => good w /\
      closing nt ni (n + Z.of_nat (length xs)) (fst w) /\ no_pending (fst w) /\
      no_active (fst w) /\ NoDup (map fst xs) /\
      (forall i, (i, it_active) ∈ xs -> dget i (c_itemStatuses (fst w)) = Some it_active) /\
      forall i, dget i (c_itemStatuses (fst w)) = Some it_active -> (i, it_active) ∈ xs))|].
  - intros [i cur] xs [c1 k1] (Hg1 & Hcl1 & Hnp1 & Hna1 & Hnd & Hin & Hout). cbn in Hnd, Hin, Hout.
    apply NoDup_cons in Hnd as [Hnot Hnd].
    replace (n + Z.of_nat (length ((i, cur) :: xs)))
      with (n + Z.of_nat (length xs) + 1) in Hcl1 by (cbn [length]; lia).
    destruct (decide (cur = it_active)) as [->|Hne].
    + pose proof (Hin i ltac:(set_solver)) as Hact. pose proof Hcl1 as [Hs1 _ _ Hroom1].
      eapply runs_mono; [eapply settleItem_runs; try done|].
      * apply (sb_live _ Hs1).
      * destruct Hroom1. split; [done|]. cbn in *. lia.
      * by eapply sb_item_ids.
      * intros t Ht. by apply Hna1 in Ht.
      * intros sh Hsh. by eapply close_item_payload.
      * intros _ [c2 k2] [Hg2 Hc2]. cbn in Hc2. subst c2. split_and!; try done.
        -- eapply closing_item; try done. intros a Ha. by apply Hnp1 in Ha.
        -- intros i' Hi'. cbn -[dset dget]. rewrite dget_dset_ne; [apply Hin; set_solver|].
           intros ->. apply Hnot. apply (list_elem_of_fmap_2 fst) in Hi'. exact Hi'.
        -- intros i'. cbn -[dset dget]. rewrite dget_dset.
           destruct (decide (i' = i)) as [->|Hne]; [by destruct st|].
           intros Hi'. apply Hout in Hi'. set_solver.
    + apply wp_ret. split_and!; try done.
      * cbn [fst]. destruct Hcl1 as [? ? ? [? ?]]. split; try done. split; [done|]. cbn in *. lia.
      * intros i' Hi'. apply Hin. set_solver.
      * intros i' Hi'. apply Hout in Hi'. set_solver.
  - split_and!; try done.
    + intros i Hi. by apply elem_dget.
    + intros i Hi. by apply dget_elem.
  - intros _ [c1 k1] (Hg1 & Hcl1 & Hnp1 & _ & _ & _ & Hout).
    cbn [length] in Hcl1. rewrite Z.add_0_r in Hcl1. split_and!; [done|done|done|].
    apply Forall_forall. intros [i st'] Hi. cbn in *.
    pose proof (cl_settleable _ _ _ _ Hcl1) as Hs1.
    apply elem_dget in Hi; [|apply (sb_items _ Hs1)].
    pose proof (sb_item_ids _ Hs1 i st' Hi) as [_ Hns].
    destruct (decide (st' = it_active)) as [->|]; [|by destruct st'].
    apply Hout in Hi. set_solver.
Qed.

(** ** The terminal batch *)

(** How [interrupt] and [fail] end a turn. *)
Inductive closing_outcome : TurnTerminalOutcome -> ItemStatus -> JsonRecord -> Prop :=
| closing_interrupted r :
    str_between 1 2000 r = true ->
    closing_outcome (to_interrupted r) it_interrupted [("reason", JStr r)]
| closing_failed f :
    is_some (ProtocolErrorSchema (json_of_failure f)) = true ->
    closing_outcome (to_failed f) it_failed [("failure", json_of_failure f)].

Lemma closing_payload o st payload : closing_outcome o st payload -> close_payload st payload.
Proof. destruct 1; by constructor. Qed.

Lemma interrupted_outcome_ok r :
  str_between 1 2000 r = true ->
  InterruptedTurnOutcomeSchema (json_of_outcome (to_interrupted r)) = Some (json_of_outcome (to_interrupted r)).
Proof.
  intros Hr. unfold InterruptedTurnOutcomeSchema, json_of_outcome, z_object. simpl.
  unfold parse_field. simpl. unfold z_string, z_test. unfold str_between in Hr. by rewrite Hr.
Qed.

Lemma failed_outcome_ok f :
  is_some (ProtocolErrorSchema (json_of_failure f)) = true ->
  FailedTurnOutcomeSchema (json_of_outcome (to_failed f)) = Some (json_of_outcome (to_failed f)).
Proof.
  intros Hf%failure_ok. unfold FailedTurnOutcomeSchema, json_of_outcome, z_object.
  revert Hf. generalize (json_of_failure f). intros v Hv. simpl. unfold parse_field. simpl.
  by rewrite Hv.
Qed.

Lemma terminal_event_parses o st payload c :
  closing_outcome o st payload -> 0 <= c_sequence c + 2 <= MAX_SAFE_INTEGER ->
  is_ok (parse_event (draft_event options c (mkFields ("turn." +:+ TurnStatus_str (outcome_status o))
    None None None [("outcome", json_of_outcome o)]) 2)) = true.
Proof.
  intros [r Hr|f Hf] Hn.
  - eapply (draft_parses _ Henv _ _ _ _ _ _ _
      (turn_shape (z_object [req "outcome" InterruptedTurnOutcomeSchema])));
      [done|apply Nat.leb_le; done|done|done|done|done|done|].
    apply z_object_first; [by apply interrupted_outcome_ok|done].
  - eapply (draft_parses _ Henv _ _ _ _ _ _ _
      (turn_shape (z_object [req "outcome" FailedTurnOutcomeSchema])));
      [done|apply Nat.leb_le; done|done|done|done|done|done|].
    apply z_object_first; [by apply failed_outcome_ok|done].
Qed.

Lemma attempt_event_parses o st payload c :
  closing_outcome o st payload -> 0 <= c_sequence c + 1 <= MAX_SAFE_INTEGER ->
  is_ok (parse_event (draft_event options c
    (mkFields ("run_attempt." +:+ RunAttemptStatus_str (attempt_of_outcome o)) None None None
      match o with to_failed failure => [("failure", json_of_failure failure)] | _ => [] end) 1)) = true.
Proof.
  intros [r Hr|f Hf] Hn;
    (eapply (draft_parses _ Henv _ _ _ _ _ _ _ generic_shape);
      [done|apply Nat.leb_le; done|done|done|done|done|done|reflexivity]).
Qed.

Lemma closing_transitions o st payload c :
  closing_outcome o st payload -> settleable c ->
  transitionTurnStatus (c_status c) (outcome_status o) = Ok (outcome_status o) /\
  transitionRunAttemptStatus (c_runAttemptStatus c) (attempt_of_outcome o) = Ok (attempt_of_outcome o).
Proof.
  intros Ho [Hlive Hatt _ _ _ _ _ _ _ _ _]. unfold isTerminal in Hlive.
  destruct Ho; cbn; (split; [by destruct (c_status c)|by destruct Hatt as [-> | ->]]).
Qed.

Lemma all_items_settled c :
  Forall (fun kv => isTerminalItemStatus (snd kv) = true) (c_itemStatuses c) ->
  settleable c -> no_pending c -> forall o st payload, closing_outcome o st payload ->
  validateTerminalSettlement (mkTerminalSettlementInput (outcome_status o) (Some o)
    (c_blockingState c) (c_itemStatuses c) (c_approvalStatuses c)) = Ok tt.
Proof.
  intros Hitems Hs Hnp o st payload Ho. apply settlement_iff. split_and!; cbn.
  - by destruct Ho.
  - done.
  - destruct (sb_blocking _ Hs) as [|[a Ha]]; [done|]. by apply Hnp in Ha.
  - done.
  - apply Forall_forall. intros [a ast] Ha. apply (elem_dget _ _ _ (sb_approvals _ Hs)) in Ha.
    destruct ast; try done. by apply Hnp in Ha.
Qed.

Lemma createEvent_runs fields off c k Q :
  is_ok (parse_event (draft_event options c fields off)) = true ->
  (forall e, parse_event (draft_event options c fields off) = Ok e -> Q e (tick c, k)) ->
  runs (createEvent options fields off) Q (c, k).
Proof.
  intros Hok HQ. unfold runs, createEvent, wp, mbind, ST_bind, get, gets, upd, modify, lift. cbn.
  destruct (parse_event _) eqn:Hp; [auto|done].
Qed.

Lemma appendTerminal_runs es intended c k :
  sink_inv k -> next_batch (o_turnId options) (sink_log (o_turnId options) k) es ->
  runs (appendTerminalBatch es intended) (fun _ _ => True) (c, k).
Proof.
  intros Hk Hb. unfold runs, appendTerminalBatch. apply wp_try_catch, wp_bind.
  unfold wp, appendBatch. cbn. pose proof (sink_available _ _ _ Hk Hb) as Hav.
  destruct (sink_appendBatch es k) as [[] k']; done.
Qed.

Lemma settleTurn_runs o st payload c k :
  good (c, k) -> settleable c -> no_pending c -> room 2 c ->
  Forall (fun kv => isTerminalItemStatus (snd kv) = true) (c_itemStatuses c) ->
  closing_outcome o st payload ->
  runs (settleTurn options o)
    (fun _ w => good w /\ c_status (fst w) = outcome_status o) (c, k).
Proof.
  intros Hgood Hs Hnp Hroom Hitems Ho.
  pose proof (settleTurn_good options c k o Hgood) as Hpost. revert Hpost.
  enough (runs (settleTurn options o) (fun _ w => c_status (fst w) = outcome_status o) (c, k)) as Hr.
  { unfold runs, wp in *. destruct (settleTurn options o (c, k)) as [[] ?]; [done|done]. }
  destruct (closing_transitions _ _ _ _ Ho Hs) as [Htr Hatt].
  unfold runs, settleTurn. apply wp_bind, wp_get. unfold id. rewrite (sb_live _ Hs).
  rewrite Htr, Hatt. apply wp_bind, wp_lift; [intros ? [= <-]|done].
  apply wp_bind, wp_lift; [intros ? [= <-]|done]. erewrite all_items_settled by done.
  apply wp_bind, wp_lift; [intros [] _|done].
  destruct Hroom as [Hr1 Hr2]. pose proof Hgood as [Hk (Hlen & Hlive & _)].
  apply wp_bind, createEvent_runs; [eapply attempt_event_parses; [done|lia]|intros e1 Hp1].
  apply wp_bind, createEvent_runs; [eapply terminal_event_parses; [done|cbn; lia]|intros e2 Hp2].
  cbn in Hlen, Hlive. unfold log_of in *; cbn in Hlen, Hlive.
  destruct (draft_canonical _ _ _ _ _ Hp1) as (_ & _ & _ & _ & Hty1).
  apply wp_bind. eapply wp_mono; [apply appendTerminal_runs; [done|]| |done].
  - eapply draft_next; [exact Hp1|lia|auto using sb_live|].
    eapply draft_next; [exact Hp2| | |constructor].
    + rewrite length_app. cbn. lia.
    + apply live_snoc. apply neutral_not_terminal. rewrite Hty1. apply attempt_neutral.
  - intros _ [c' k'] _. by unfold wp, upd, modify, mbind, ST_bind; cbn.
Qed.

(** ** Closing the turn *)

(** Three events per approval, two per tool call, one per item and the
    terminal pair. *)
Definition closing_size (c : Coord) : Z :=
  2 + Z.of_nat (length (c_itemStatuses c)) + 2 * Z.of_nat (length (c_toolCallStatuses c))
  + 3 * Z.of_nat (length (c_approvalStatuses c)).

Lemma close_runs o st payload reason c k :
  good (c, k) -> settleable c -> room (closing_size c) c -> closing_outcome o st payload ->
  runs (_ ← cancelPendingApprovals options reason;
        _ ← settleOpenWork options st payload; settleTurn options o)
    (fun _ w => good w /\ c_status (fst w) = outcome_status o) (c, k).
Proof.
  intros Hgood Hs Hroom Ho. pose proof (closing_payload _ _ _ Ho) as Hpl.
  set (nt := length (c_toolCallStatuses c)). set (ni := length (c_itemStatuses c)).
  unfold runs. apply wp_bind. eapply runs_mono;
    [apply (cancelPendingApprovals_runs nt ni (2 + Z.of_nat ni + 2 * Z.of_nat nt)); [lia|done|by split]|].
  intros _ [c1 k1] (Hg1 & Hcl1 & Hnp1). apply wp_bind.
  unfold settleOpenWork. apply wp_bind, wp_get, wp_bind.
  eapply runs_mono; [by apply (settleTools_runs nt ni (2 + Z.of_nat ni)); [lia|..]|].
  intros _ [c2 k2] (Hg2 & Hcl2 & Hnp2 & Hna2). apply wp_bind, wp_get.
  eapply runs_mono; [by apply (settleItems_runs nt ni 2)|].
  intros _ [c3 k3] (Hg3 & Hcl3 & Hnp3 & Hitems3).
  eapply runs_mono; [eapply settleTurn_runs; try done; apply Hcl3|done].
Qed.

End Liveness.
