(* ===== verification/RestoreProps.v ===== *)
(** Properties of recovery: what a restored coordinator is, and that
    interrupting it ends the turn. *)
From S2P Require Import Prelude Js Zod Protocol LifecycleEvents EventStore Coordinator Projector ProjectorFacts Sink Simulation Restore RestoreFacts Liveness.

Section Restored.
Context `{!JsRuntime}.
Variable options : RuntimeLifecycleCoordinatorOptions.

Lemma gate_pending_only s a pi parent t a' :
  gate s a pi parent t ->
  dget a' (c_approvalStatuses (rs_coordinator s)) = Some ap_pending -> a' = a.
Proof.
  intros [] Ha. apply dget_elem, elem_entries_with in Ha. rewrite gt_pending in Ha.
  by apply list_elem_of_singleton in Ha.
Qed.

Lemma gate_is_pending s a pi parent t :
  gate s a pi parent t -> restore_inv (rs_coordinator s) ->
  dget a (c_approvalStatuses (rs_coordinator s)) = Some ap_pending.
Proof.
  intros [] []. apply elem_dget; [done|]. apply elem_entries_with. rewrite gt_pending.
  by apply list_elem_of_singleton.
Qed.

Lemma restored_settleable s a pi parent t :
  gate s a pi parent t -> restore_inv (rs_coordinator s) -> settleable (view s).
Proof.
  intros Hg Hinv. pose proof (fun a' => gate_pending_only s a pi parent t a' Hg) as Honly.
  pose proof (gate_is_pending _ _ _ _ _ Hg Hinv) as Hpend.
  pose proof Hg as []. pose proof Hinv as []. unfold view. split; cbn -[dget dkeys]; try done.
  - unfold isTerminal. cbn. by rewrite gt_status.
  - by right.
  - intros t' st Ht'. by apply ri_tool_ids in Ht' as [? _].
  - intros t'. by rewrite ri_names.
  - intros t'. by rewrite ri_batches.
  - intros a' Ha'. split; [by eapply ri_approval_ids|].
    apply Honly in Ha' as ->. exists pi. split; [done|].
    by apply elem_dget.
  - intros a1 a2 i H1 H2 _ _. apply Honly in H1, H2. congruence.
  - right. by exists a.
Qed.
End Restored.

(** * Closing a turn *)

Section Closing.
Context `{!JsRuntime} {K : Type} `{!LifecycleSink K, !LifecycleSinkLaws K, !SinkAvailable K}.
Variable options : RuntimeLifecycleCoordinatorOptions.
Hypothesis Henv : env_valid options.

(** The operation returned, and its turn ended with [o] for every reader of
    the log. *)
Definition closed_with (o : TurnTerminalOutcome) (w : World (K:=K)) : Prop :=
  c_status (fst w) = outcome_status o /\
  exists p, project_from (createState (o_turnId options))
              (sink_log (o_turnId options) (snd w)) = Ok p /\
    sim options (fst w) p /\ p_status p = outcome_status o /\ is_Some (p_terminalOutcome p).

Lemma good_closed o w :
  good options w -> c_status (fst w) = outcome_status o -> closed_with o w.
Proof.
  intros (_ & _ & _ & _ & p & Hp & Hsim) Hst. split; [done|]. exists p. split; [done|].
  split; [done|]. destruct Hsim. split; [congruence|]. unfold isTerminal in *.
  destruct (p_terminalOutcome p); [by eexists|]. rewrite Hst in sim_outcome. by destruct o.
Qed.

Lemma runs_Ok {A} (m : M (K:=K) A) Q w :
  runs m Q w -> exists x w', m w = (Ok x, w') /\ Q x w'.
Proof. unfold runs, wp. destruct (m w) as [[x|] w']; [|done]. by exists x, w'. Qed.

Lemma interrupt_closes c k r :
  good options (c, k) -> settleable c -> room (closing_size c) c ->
  str_between 1 2000 r = true ->
  exists w, run_op options (OpInterrupt r) (c, k) = (Ok tt, w) /\ closed_with (to_interrupted r) w.
Proof.
  intros Hg Hs Hroom Hr.
  destruct (runs_Ok _ _ _ (close_runs options Henv _ _ _ r c k Hg Hs Hroom (closing_interrupted r Hr)))
    as ([] & w & Hrun & Hgood & Hst).
  exists w. split; [exact Hrun|by apply good_closed].
Qed.

Lemma fail_closes c k f :
  good options (c, k) -> settleable c -> room (closing_size c) c ->
  is_some (ProtocolErrorSchema (json_of_failure f)) = true ->
  exists w, run_op options (OpFail f) (c, k) = (Ok tt, w) /\ closed_with (to_failed f) w.
Proof.
  intros Hg Hs Hroom Hf.
  destruct (runs_Ok _ _ _ (close_runs options Henv _ _ _ "Turn failed before approval resolution"
    c k Hg Hs Hroom (closing_failed f Hf))) as ([] & w & Hrun & Hgood & Hst).
  exists w. split; [exact Hrun|by apply good_closed].
Qed.

Lemma restored_good k c :
  sink_inv k -> restoreForInterruption options (sink_log (o_turnId options) k) = Ok c ->
  good options (c, k) /\ settleable c.
Proof.
  intros Hk Hr. apply restore_tracks in Hr as (events & a & pi & parent & t & s & He & -> & Hg & Hinv & Ht).
  rewrite self_parsed in He by by apply sink_log_parsed. injection He as <-.
  split; [by split|by eapply restored_settleable].
Qed.
End Closing.

(** * A turn of the demo host waiting for an approval *)

Definition waiting_ops : list operation :=
  [OpStart; OpStartToolCall "itm_tool01" "toolcall_01aaaa" "read_file" [] None None;
   OpRequestApproval "itm_tool01" "appr_000001" "itm_appr01" []].

Definition waiting_world : World (K:=MemoryLifecycleEventStore) :=
  let _ := iso_runtime in run_operations demo_options waiting_ops demo_world.

Definition waiting_log : list LifecycleEvent :=
  let _ := iso_runtime in sink_log (H0 := memory_sink) "trn_demo01" (snd waiting_world).

Lemma demo_env : let _ := iso_runtime in env_valid demo_options.
Proof. intros R. split; try (by vm_compute). apply Nat.leb_le. by vm_compute. Qed.

Lemma waiting_good : let _ := iso_runtime in good (H := iso_runtime) demo_options waiting_world.
Proof.
  intros R. apply (run_operations_good (H := R)).
  - apply new_coordinator_good; [apply empty_store_sink|by vm_compute|done].
  - vm_compute. repeat split.
Qed.

Lemma waiting_inv : let _ := iso_runtime in sink_inv (snd waiting_world).
Proof. exact (proj1 waiting_good). Qed.

Lemma waiting_restored :
  let _ := iso_runtime in
  exists c, restoreForInterruption demo_options waiting_log = Ok c /\ room (closing_size c) c.
Proof.
  intros R. destruct (restoreForInterruption demo_options waiting_log) as [c|] eqn:Hc;
    [|by vm_compute in Hc].
  exists c. split; [done|]. vm_compute in Hc. injection Hc as <-. split; apply Z.leb_le; by vm_compute.
Qed.

(** * Properties *)

(** C3. Recovery is faithful to the projection: when [restoreForInterruption]
    accepts a history, the projector accepts the parsed history too, and the
    restored coordinator agrees with the projected turn in every field they
    share; the turn is blocked on its only pending approval, whose request item
    and the item of the only active tool call are open. *)
Theorem restored_state_projects `{!JsRuntime} options history c :
  restoreForInterruption options history = Ok c ->
  exists events p a i parent t,
    res_map parse_event history = Ok events /\
    project_from (createState (o_turnId options)) events = Ok p /\ sim options c p /\
    c_status c = awaiting_approval /\ p_blockingState p = b_waiting_for_approval i a /\
    (forall a', dget a' (c_approvalStatuses c) = Some ap_pending <-> a' = a) /\
    (forall t', dget t' (c_toolCallStatuses c) = Some it_active <-> t' = t) /\
    dget t (c_toolCallItems c) = Some parent /\
    dget parent (c_itemStatuses c) = Some it_active /\ dget i (c_itemStatuses c) = Some it_active.
Proof.
  intros Hr. apply restore_tracks in Hr as (events & a & pi & parent & t & s & He & -> & Hg & Hinv & Ht).
  destruct Ht as (_ & _ & _ & p & Hp & Hsim). exists events, p, a, pi, parent, t.
  pose proof (gate_is_pending _ _ _ _ _ Hg Hinv) as Hpend.
  pose proof Hg as []. pose proof Hinv as [].
  split_and!; try done.
  - rewrite (sim_blocking _ _ _ Hsim). done.
  - intros a'. split; [by eapply gate_pending_only|by intros ->].
  - intros t'. split.
    + intros Ht'. apply dget_elem, elem_entries_with in Ht'.
      cbn -[entries_with] in Ht'. rewrite gt_tools in Ht'. by apply list_elem_of_singleton in Ht'.
    + intros ->. apply elem_dget; [done|]. apply elem_entries_with. cbn -[entries_with].
      rewrite gt_tools. by apply list_elem_of_singleton.
  - by apply elem_dget.
  - by apply elem_dget.
Qed.

Lemma restored_state_projects_witness :
  let _ := iso_runtime in
  is_ok (restoreForInterruption demo_options waiting_log) = true /\
  exists c events p a i parent t,
    res_map parse_event waiting_log = Ok events /\
    project_from (createState "trn_demo01") events = Ok p /\ sim demo_options c p /\
    c_status c = awaiting_approval /\ p_blockingState p = b_waiting_for_approval i a /\
    (forall a', dget a' (c_approvalStatuses c) = Some ap_pending <-> a' = a) /\
    (forall t', dget t' (c_toolCallStatuses c) = Some it_active <-> t' = t) /\
    dget t (c_toolCallItems c) = Some parent /\
    dget parent (c_itemStatuses c) = Some it_active /\ dget i (c_itemStatuses c) = Some it_active.
Proof.
  intros R. split; [by vm_compute|].
  destruct (restoreForInterruption demo_options waiting_log) as [c|] eqn:Hc; [|by vm_compute in Hc].
  exists c. exact (restored_state_projects demo_options waiting_log c Hc).
Defined.

(** C4. Recovery can always finish its job: a process that restores a waiting
    turn from the log of a sink and interrupts it on a sink that accepts valid
    batches gets the turn settled, whatever else the turn had open: the call
    returns, the approval is cancelled and the tool call and items closed, and the
    log of the turn projects to the status [interrupted]. *)
Theorem restored_interrupt_settles `{!JsRuntime} {K : Type}
    `{!LifecycleSink K, !LifecycleSinkLaws K, !SinkAvailable K} options (k : K) c r :
  env_valid options -> sink_inv k ->
  restoreForInterruption options (sink_log (o_turnId options) k) = Ok c ->
  room (closing_size c) c -> str_between 1 2000 r = true ->
  exists w, run_op options (OpInterrupt r) (c, k) = (Ok tt, w) /\
    closed_with options (to_interrupted r) w.
Proof.
  intros Henv Hk Hr Hroom Hlen. destruct (restored_good options k c Hk Hr) as [Hg Hs].
  by apply interrupt_closes.
Qed.

Lemma restored_interrupt_settles_witness :
  let _ := iso_runtime in
  exists c w, restoreForInterruption demo_options waiting_log = Ok c /\
    run_op (K := MemoryLifecycleEventStore) demo_options (OpInterrupt "process restarted")
      (c, snd waiting_world) = (Ok tt, w) /\
    closed_with (H := iso_runtime) demo_options (to_interrupted "process restarted") w.
Proof.
  intros R.
  destruct waiting_restored as (c & Hc & Hroom).
  assert (Hr : str_between 1 2000 "process restarted" = true) by done.
  destruct (restored_interrupt_settles (H := R) demo_options (snd waiting_world) c "process restarted"
    demo_env waiting_inv Hc Hroom Hr) as (w & Hw).
  exists c, w. exact (conj Hc Hw).
Defined.

(** C5. A failure settles everything as well: from any coordinator in the state its
    log projects to whose pending approvals and open work are consistent, [fail]
    with a valid error ends the turn as [failed] on an available sink. *)
Theorem fail_settles `{!JsRuntime} {K : Type}
    `{!LifecycleSink K, !LifecycleSinkLaws K, !SinkAvailable K} options c (k : K) f :
  env_valid options -> good options (c, k) -> settleable c -> room (closing_size c) c ->
  is_some (ProtocolErrorSchema (json_of_failure f)) = true ->
  exists w, run_op options (OpFail f) (c, k) = (Ok tt, w) /\ closed_with options (to_failed f) w.
Proof. intros Henv Hg Hs Hroom Hf. by apply fail_closes. Qed.

Definition demo_failure : ProtocolError := mkProtocolError "internal_error" "tool crashed" false None None.

Lemma fail_settles_witness :
  let _ := iso_runtime in
  exists c w, run_op (K := MemoryLifecycleEventStore) demo_options (OpFail demo_failure)
      (c, snd waiting_world) = (Ok tt, w) /\
    closed_with (H := iso_runtime) demo_options (to_failed demo_failure) w.
Proof.
  intros R.
  destruct waiting_restored as (c & Hc & Hroom).
  destruct (restored_good (H := R) demo_options (snd waiting_world) c waiting_inv Hc) as [Hg Hs].
  assert (Hf : is_some (ProtocolErrorSchema (json_of_failure demo_failure)) = true) by done.
  destruct (fail_settles (H := R) demo_options c (snd waiting_world) demo_failure
    demo_env Hg Hs Hroom Hf) as (w & Hw).
  exists c, w. exact Hw.
Defined.
