(* ===== verification/Footprint.v ===== *)
(** What an operation of the coordinator can change.  Every operation, also one
    that fails half way, is a sequence of the small changes [change]: the sequence
    number only grows, items are opened only under the id the operation names
    ([opens]), and only a request for approval makes the turn wait.  Facts about all
    operations follow by looking at each kind of change. *)
From S2P Require Import Prelude Js Zod Protocol LifecycleEvents EventStore Coordinator Projector ProjectorFacts Sink Simulation.

(** The item an operation opens. *)
Definition opens (op : operation) : option string :=
  match op with
  | OpStartToolCall i _ _ _ _ _ | OpCommentary i _ | OpReasoning i _ _ | OpComplete _ i
  | OpRequestApproval _ _ i _ => Some i
  | OpRequestCompaction p => Some (cc_itemId p)
  | _ => None
  end.

(** The item it gives to a tool call or an approval. *)
Definition gives (op : operation) : option string :=
  match op with
  | OpStartToolCall i _ _ _ _ _ | OpRequestApproval _ _ i _ => Some i
  | _ => None
  end.

(** The approval it asks for. *)
Definition asks (op : operation) : option string :=
  match op with OpRequestApproval _ a _ _ => Some a | _ => None end.

(** Equal but for the event counters and the bookkeeping of no interest here. *)
Record same_core (c c' : RuntimeLifecycleCoordinator) : Prop := {
  sc_status : c_status c' = c_status c;
  sc_blocking : c_blockingState c' = c_blockingState c;
  sc_attempt : c_runAttemptStatus c' = c_runAttemptStatus c;
  sc_items : c_itemStatuses c' = c_itemStatuses c;
  sc_tools : c_toolCallStatuses c' = c_toolCallStatuses c;
  sc_toolItems : c_toolCallItems c' = c_toolCallItems c;
  sc_approvals : c_approvalStatuses c' = c_approvalStatuses c;
  sc_approvalItems : c_approvalItems c' = c_approvalItems c;
  sc_sequence : c_sequence c <= c_sequence c';
}.

Inductive change (op : operation) (c : RuntimeLifecycleCoordinator)
    : RuntimeLifecycleCoordinator -> Prop :=
| ch_core c' : same_core c c' -> change op c c'
| ch_open i : opens op = Some i -> change op c (set_itemStatus i it_active c)
| ch_item i st : is_Some (dget i (c_itemStatuses c)) -> change op c (set_itemStatus i st c)
| ch_tool t st : change op c (set_toolCallStatus t st c)
| ch_toolItem t i : gives op = Some i -> change op c (set_toolCallItem t i c)
| ch_approval a st : (st = ap_pending -> asks op = Some a) ->
    change op c (set_approvalStatus a st c)
| ch_approvalItem a i : gives op = Some i -> change op c (set_approvalItem a i c)
| ch_status st : (st = awaiting_approval -> is_Some (asks op)) -> st <> queued ->
    change op c (set_status st c)
| ch_blocking b : change op c (set_blockingState b c)
| ch_attempt st : change op c (set_runAttemptStatus st c).

Section Footprint.
Context `{!JsRuntime} {K : Type} `{!LifecycleSink K}.
Variable options : RuntimeLifecycleCoordinatorOptions.
Notation Coord := RuntimeLifecycleCoordinator.
Notation W := (World (K:=K)).

(** The outcome of an attempt to write one event. *)
Lemma emit_states fields (c : Coord) (k : K) :
  wp (emit options fields)
    (fun _ w => fst w = after c /\ isTerminal c = false /\
       is_ok (parse_event (draft_event options c fields 1)) = true)
    (fun _ w => fst w = c \/ fst w = tick c) (c, k).
Proof.
  unfold emit. apply wp_bind, wp_get, wp_bind, wp_lift; [|by left]. intros [] Hterm.
  apply wp_bind. unfold createEvent, wp, mbind, ST_bind, get, gets, upd, modify, lift. cbn.
  destruct (parse_event (draft_event options c fields 1)) as [e|] eqn:Hp; cbn; [|by right].
  unfold appendBatch; cbn. destruct (sink_appendBatch [e] k) as [[] k']; cbn; [|by right].
  split_and!; [|by unfold assertTurnAcceptsLifecycleEvent, isTerminal in *; destruct (isTerminalTurnStatus _)|done].
  apply draft_canonical in Hp as (_ & _ & _ & -> & _). done.
Qed.

Variable op : operation.
Variable c0 : Coord.

(** Reached from [c0] by changes of [op]. *)
Definition reached (w : W) : Prop := rtc (change op) c0 (fst w).

Lemma reached_step (c c' : Coord) (k k' : K) : reached (c, k) -> change op c c' -> reached (c', k').
Proof. unfold reached; cbn. intros. by eapply rtc_r. Qed.

Lemma reached_emit fields : keeps reached (emit options fields).
Proof.
  apply wp_keeps. intros [c k] Hr. eapply wp_mono; [apply emit_states| |]; cbn.
  - intros _ [c' k'] [Hc _]; cbn in Hc; subst c'. eapply reached_step; [exact Hr|].
    apply ch_core. split; cbn; solve [done|lia].
  - intros _ [c' k'] [Hc|Hc]; cbn in Hc; subst c'; eapply reached_step; try exact Hr;
      apply ch_core; split; cbn; solve [done|lia].
Qed.

Lemma reached_upd f : (forall c, change op c (f c)) -> keeps reached (upd (K:=K) f).
Proof. intros Hf [c k] Hr. by eapply reached_step. Qed.

Lemma reached_core f : (forall c, same_core c (f c)) -> keeps reached (upd (K:=K) f).
Proof. intros Hf. apply reached_upd. intros. by apply ch_core. Qed.

Lemma reached_get {A} (f : Coord -> A) : keeps reached (get (K:=K) f).
Proof. by intros w. Qed.

Lemma reached_create fields off : keeps reached (createEvent (K:=K) options fields off).
Proof.
  unfold createEvent. apply keeps_bind; [apply reached_get|]. intros e.
  apply keeps_bind; [apply reached_core; split; cbn; solve [done|lia]|]. intros []. apply keeps_lift.
Qed.

Lemma reached_append es : keeps reached (appendBatch (K:=K) es).
Proof. intros [c k] Hr. unfold appendBatch, reached in *. cbn. by destruct (sink_appendBatch es k). Qed.

Lemma reached_terminal es s : keeps reached (appendTerminalBatch (K:=K) es s).
Proof.
  assert (keeps reached (_ ← appendBatch es; mret tt)) as Ha.
  { apply keeps_bind; [apply reached_append|]. intros. apply keeps_ret. }
  unfold appendTerminalBatch. apply keeps_try_catch; [done|]. intros _.
  apply keeps_try_catch; [done|]. intros. apply keeps_throw.
Qed.

#[local] Hint Resolve reached_emit reached_get reached_create reached_append reached_terminal : legion.

Ltac core := apply reached_core; intros; split; cbn; solve [done|lia].
Ltac reach := repeat match goal with
  | |- keeps _ (upd _) => first [core | solve [apply reached_upd; intros;
      auto using ch_tool, ch_approval, ch_blocking, ch_attempt, ch_toolItem, ch_approvalItem with legion]]
  | |- keeps _ (if decide ?P then _ else _) => destruct (decide P)
  | |- keeps _ (if ?b then _ else _) => destruct b
  | |- keeps _ (match ?x with _ => _ end) => destruct x
  | |- forall _, _ => intro
  | |- keeps _ _ => solve [auto with legion nocore]
  | |- keeps _ (_ ≫= _) => apply keeps_bind
  | |- keeps _ (for_of _ _) => apply keeps_for_of
  end.

Lemma reached_startItem i kind payload :
  opens op = Some i -> keeps reached (startItem options i kind payload).
Proof.
  intros Hi. apply wp_keeps. intros w Hw. unfold startItem. apply wp_bind.
  unfold wp at 1, lift, transitionItemStatus, transition. cbn.
  revert w Hw. apply wp_keeps, keeps_bind; [apply reached_emit|]. intros [].
  apply reached_upd. intros c. by apply ch_open.
Qed.

(** An item that was never opened cannot be settled. *)
Lemma transition_known items i st (next : ItemStatus) :
  transitionItemStatus (default it_not_started (dget i items)) st = Ok next -> st <> it_active ->
  is_Some (dget i items).
Proof.
  destruct (dget i items) as [s|]; [by eexists|]. intros Htr%transition_ok Hst. cbn in Htr. set_solver.
Qed.

Lemma reached_settleItem i st payload :
  st <> it_active -> keeps reached (settleItem options i st payload).
Proof.
  intros Hst. apply wp_keeps. intros [c k] Hr. unfold settleItem.
  apply wp_bind, wp_get, wp_bind, wp_lift; [|done]. intros next Htr.
  apply transition_known in Htr as Hi; [|done].
  apply wp_bind. eapply wp_mono; [apply emit_states| |]; cbn.
  - intros _ [c' k'] [Hc _]; cbn in Hc; subst c'. unfold wp, upd, modify; cbn.
    eapply reached_step; [eapply (reached_step c (after c) k k'); [exact Hr|]|by apply ch_item].
    apply ch_core. split; cbn; solve [done|lia].
  - intros _ [c' k'] [Hc|Hc]; cbn in Hc; subst c'; eapply reached_step; try exact Hr;
      apply ch_core; split; cbn; solve [done|lia].
Qed.

Lemma terminal_not_active st : isTerminalItemStatus st = true -> st <> it_active.
Proof. by intros ? ->. Qed.

#[local] Hint Resolve reached_startItem reached_settleItem terminal_not_active : legion.
#[local] Hint Extern 1 (_ <> it_active) => discriminate : legion.
#[local] Hint Extern 1 (gives _ = Some _) => (match goal with Hop : op = _ |- _ => by rewrite Hop end) : legion.
#[local] Hint Extern 1 (_ -> asks _ = Some _) =>
  (first [match goal with Hop : op = _ |- _ => by rewrite Hop end | intros; congruence]) : legion.
#[local] Hint Extern 1 (opens _ = Some _) => (match goal with Hop : op = _ |- _ => by rewrite Hop end) : legion.

Lemma reached_settleTool t st payload :
  st <> it_active -> keeps reached (settleToolCall options t st payload).
Proof.
  intros Hst. unfold settleToolCall, requireActiveToolCall, requireToolCallItem. reach.
Qed.

Lemma reached_block b :
  (forall i a, b = b_waiting_for_approval i a -> is_Some (asks op)) ->
  keeps reached (changeBlocking options b).
Proof.
  intros Hb. unfold changeBlocking. apply keeps_bind; [apply reached_emit|]. intros [].
  apply keeps_bind; [apply reached_get|]. intros st. apply keeps_bind; [|reach].
  assert (Hst : forall next, (next = awaiting_approval -> is_Some (asks op)) ->
    next <> queued -> keeps reached (upd (K:=K) (set_status next))).
  { intros. apply reached_upd. intros. by apply ch_status. }
  assert (Hlift : forall next, (next = awaiting_approval -> is_Some (asks op)) ->
    next <> queued -> keeps reached (n ← lift (transitionTurnStatus st next); upd (K:=K) (set_status n))).
  { intros next Hn Hq. apply wp_keeps. intros w Hw. apply wp_bind, wp_lift; [|done]. intros n Htr.
    apply transition_ok in Htr as [-> _]. revert w Hw. by apply wp_keeps, Hst. }
  destruct b; try (destruct (decide _); [by apply Hlift|apply keeps_ret]).
  apply Hlift; [eauto|done].
Qed.

Lemma reached_decide a st payload : keeps reached (decideApprovalNow options a st payload).
Proof.
  assert (keeps reached (changeBlocking options b_none)) by by apply reached_block.
  unfold decideApprovalNow, requireApprovalItem. apply keeps_bind; [apply reached_get|]. intros current.
  apply wp_keeps. intros w Hw. apply wp_bind, wp_lift; [|done]. intros next Htr.
  assert (next <> ap_pending) as Hnext.
  { apply transition_ok in Htr as [-> Hin]. intros ->. destruct current; cbn in Hin; set_solver. }
  revert w Hw. apply wp_keeps. reach.
Qed.

Lemma reached_cancel r : keeps reached (cancelPendingApprovals options r).
Proof. unfold cancelPendingApprovals. reach. apply reached_decide. Qed.

Lemma reached_openWork st payload : st <> it_active -> keeps reached (settleOpenWork options st payload).
Proof.
  intros Hst. unfold settleOpenWork. reach. by apply reached_settleTool.
Qed.

Lemma reached_settleTurn o : keeps reached (settleTurn options o).
Proof.
  unfold settleTurn. apply keeps_bind; [apply reached_get|]. intros c. destruct (isTerminal c); [reach|].
  apply wp_keeps. intros w Hw. apply wp_bind, wp_lift; [|done]. intros next Htr.
  apply transition_ok in Htr as [-> _]. revert w Hw. apply wp_keeps. reach.
  apply reached_upd. intros c'. by apply ch_status; destruct o.
Qed.

#[local] Hint Resolve reached_settleTool reached_decide reached_cancel reached_openWork reached_settleTurn : legion.

Lemma reached_emit_record ty key i v : keeps reached (emit_record options ty key i v).
Proof. unfold emit_record. reach. Qed.

Lemma reached_start : op = OpStart -> keeps reached (startNow options).
Proof.
  intros Hop. unfold startNow. apply keeps_bind; [apply reached_get|]. intros c.
  destruct (c_accepted c); [reach|]. apply wp_keeps. intros w Hw. apply wp_bind, wp_lift; [|done].
  intros next Htr. apply transition_ok in Htr as [-> _]. revert w Hw. apply wp_keeps. reach.
  apply reached_upd. intros c'. by apply ch_status.
Qed.

Lemma reached_run_op : keeps reached (run_op options op).
Proof.
  destruct op eqn:Hop; cbn [run_op]; try apply reached_emit_record.
  all: unfold startToolCallNow, appendAssistantCommentary, appendAssistantReasoning,
    appendToolOutputNow, requireActiveToolCall, requireToolCallItem,
    markWorkspaceSnapshotUnavailable, appendHookAudit, updateContextBudget, updateUsage,
    requestContextCompaction, settleContextCompaction, requestApprovalNow, completeNow,
    acceptThreadInput, applyThreadInput, reserveCompletion, failNow, interruptNow.
  all: try solve [reach].
  - apply keeps_bind; [by apply reached_start|]. intros. apply keeps_ret.
  - apply keeps_bind; [apply reached_emit|]. intros []. apply reached_settleItem. by case_decide.
  - reach. apply reached_block. intros. by rewrite Hop.
Qed.
End Footprint.

(** * What follows for every operation *)

Section Frames.
Context `{!JsRuntime} {K : Type} `{!LifecycleSink K}.
Variable options : RuntimeLifecycleCoordinatorOptions.
Notation Coord := RuntimeLifecycleCoordinator.
Notation W := (World (K:=K)).

Lemma run_op_frame (P : Coord -> Prop) op (w : W) :
  (forall c c', P c -> change op c c' -> P c') -> P (fst w) -> P (fst (snd (run_op options op w))).
Proof.
  intros Hstep HP. assert (Hr : reached op (fst w) (snd (run_op options op w))).
  { apply reached_run_op. apply rtc_refl. }
  unfold reached in Hr. induction Hr; eauto.
Qed.

Lemma run_op_sequence op (w : W) :
  c_sequence (fst w) <= c_sequence (fst (snd (run_op options op w))).
Proof.
  apply (run_op_frame (fun c => c_sequence (fst w) <= c_sequence c)); [|lia].
  intros c c' Hc. destruct 1 as [c' []| | | | | | | | |]; cbn; lia.
Qed.

(** An item is new until an operation opens it. *)
Lemma run_op_fresh op i (w : W) :
  opens op <> Some i -> fresh_item (fst w) i -> fresh_item (fst (snd (run_op options op w))) i.
Proof.
  intros Hi. apply (run_op_frame (fun c => fresh_item c i)). unfold fresh_item.
  intros c c' Hc. destruct 1 as [c' []|j Hj|j st [s Hj]| | | | | | |]; cbn -[dget dset]; try congruence.
  - rewrite dget_dset_ne; congruence.
  - rewrite dget_dset_ne; congruence.
Qed.

(** The items of tool calls and approvals are among those the operations name. *)
Definition owners_in (N : string -> Prop) (c : Coord) : Prop :=
  (forall t i, dget t (c_toolCallItems c) = Some i -> N i) /\
  (forall a i, dget a (c_approvalItems c) = Some i -> N i).

Lemma run_op_owners op N (w : W) :
  (forall i, gives op = Some i -> N i) -> owners_in N (fst w) ->
  owners_in N (fst (snd (run_op options op w))).
Proof.
  intros HN. apply (run_op_frame (owners_in N)). unfold owners_in.
  intros c c' [Ht Ha]. destruct 1 as [c' []| | | |t i Hi| |a i Hi| | |]; cbn -[dget dset]; try done.
  - by rewrite sc_toolItems0, sc_approvalItems0.
  - split; [|done]. intros t' i'. rewrite dget_dset. case_decide; [|by apply Ht].
    intros [= <-]. by apply HN.
  - split; [done|]. intros a' i'. rewrite dget_dset. case_decide; [|by apply Ha].
    intros [= <-]. by apply HN.
Qed.

(** The turn runs or has ended: it does not wait. *)
Definition moving (c : Coord) : Prop := c_status c = in_progress \/ isTerminal c = true.

Lemma run_op_moving op (w : W) :
  asks op = None -> moving (fst w) -> moving (fst (snd (run_op options op w))).
Proof.
  intros Hop. apply (run_op_frame moving). unfold moving, isTerminal.
  intros c c' Hc. destruct 1 as [c' []| | | | | | |st Hst Hq| |]; cbn; try done; [congruence|].
  destruct st; auto. destruct (Hst eq_refl). congruence.
Qed.

(** It stays started. *)
Lemma run_op_started op (w : W) :
  c_status (fst w) <> queued -> c_status (fst (snd (run_op options op w))) <> queued.
Proof.
  apply (run_op_frame (fun c => c_status c <> queued)).
  intros c c' Hc. destruct 1 as [c' []| | | | | | | | |]; cbn; congruence.
Qed.

(** Only a request makes an approval pending. *)
Lemma run_op_pending op (P : string -> Prop) (w : W) :
  (forall a, asks op = Some a -> P a) ->
  (forall a, dget a (c_approvalStatuses (fst w)) = Some ap_pending -> P a) ->
  forall a, dget a (c_approvalStatuses (fst (snd (run_op options op w)))) = Some ap_pending -> P a.
Proof.
  intros Hop. apply (run_op_frame (fun c => forall a, dget a (c_approvalStatuses c) = Some ap_pending -> P a)).
  intros c c' Hc. destruct 1 as [c' []| | | | |a st Hst| | | |]; cbn -[dget dset]; try done; [by rewrite sc_approvals0|].
  intros a'. rewrite dget_dset. case_decide; [|by apply Hc]. subst. intros [= ->]. by apply Hop, Hst.
Qed.
End Frames.
