(* ===== verification/Closable.v ===== *)
(** Whatever a coordinator is asked to do, it can still be closed: on an available
    sink every operation, whether it returns or fails half way, leaves it ended, or
    with open work that [interrupt] and [fail] can settle, or out of sequence
    numbers.  (RestoreProps.v shows that a coordinator restored from a log can be
    closed, Liveness.v that closing works.) *)
From S2P Require Import Prelude Js Zod Protocol LifecycleEvents EventStore Coordinator Projector ProjectorFacts Sink Simulation CoordinatorProps Restore RestoreFacts Liveness RestoreProps Footprint.

Section Settleable.
Notation Coord := RuntimeLifecycleCoordinator.

Lemma settleable_ext (c c' : Coord) :
  isTerminal c' = isTerminal c -> c_runAttemptStatus c' = c_runAttemptStatus c ->
  c_itemStatuses c' = c_itemStatuses c -> c_approvalStatuses c' = c_approvalStatuses c ->
  c_toolCallStatuses c' = c_toolCallStatuses c -> c_toolCallNames c' = c_toolCallNames c ->
  c_toolCallBatches c' = c_toolCallBatches c -> c_approvalItems c' = c_approvalItems c ->
  c_blockingState c' = c_blockingState c -> settleable c -> settleable c'.
Proof. intros E1 E2 E3 E4 E5 E6 E7 E8 E9 []. split; by rewrite ?E1, ?E2, ?E3, ?E4, ?E5, ?E6, ?E7, ?E8, ?E9. Qed.

Lemma settleable_after (c : Coord) : settleable c -> settleable (after c).
Proof. by apply settleable_ext. Qed.

Lemma settleable_tick (c : Coord) : settleable c -> settleable (tick c).
Proof. by apply settleable_ext. Qed.

Definition free_of_pending (i : string) (c : Coord) : Prop :=
  forall a, dget a (c_approvalStatuses c) = Some ap_pending -> dget a (c_approvalItems c) <> Some i.

Ltac settleable_cases :=
  intros []; split; cbn -[dget dset dkeys]; auto using NoDup_dset.

Lemma settleable_start_item (c : Coord) i :
  ItemIdSchema i = true -> settleable c -> settleable (set_itemStatus i it_active c).
Proof.
  intros Hi. settleable_cases.
  - intros j st. rewrite dget_dset. case_decide; [|by eauto]. intros [= <-]. by subst.
  - intros a Ha. destruct (sb_pending a Ha) as (Hid & j & Hj & Hact). split; [done|].
    exists j. split; [done|]. rewrite dget_dset. by case_decide.
Qed.

Lemma settleable_settle_item (c : Coord) i st :
  is_Some (dget i (c_itemStatuses c)) -> isTerminalItemStatus st = true -> free_of_pending i c ->
  settleable c -> settleable (set_itemStatus i st c).
Proof.
  intros [st0 Hi] Hst Hfree. settleable_cases.
  - intros j st'. rewrite dget_dset. case_decide; [|by eauto]. intros [= <-]. subst.
    split; [by eapply sb_item_ids|by destruct st].
  - intros a Ha. destruct (sb_pending a Ha) as (Hid & j & Hj & Hact). split; [done|].
    exists j. split; [done|]. rewrite dget_dset_ne; [done|]. intros ->. by eapply Hfree.
Qed.

Lemma settleable_tool (c : Coord) t st :
  ToolCallIdSchema t = true -> settleable c -> settleable (set_toolCallStatus t st c).
Proof.
  intros Ht. settleable_cases. intros t' st'. rewrite dget_dset. case_decide; [by subst|eauto].
Qed.

Lemma settleable_tool_name (c : Coord) t name :
  name_ok (Some name) -> settleable c -> settleable (set_toolCallName t name c).
Proof. intros Hn. settleable_cases. intros t'. rewrite dget_dset. by case_decide. Qed.

Lemma settleable_tool_batch (c : Coord) t b :
  batch_ok (Some b) -> settleable c -> settleable (set_toolCallBatch t b c).
Proof. intros Hn. settleable_cases. intros t'. rewrite dget_dset. by case_decide. Qed.

Lemma settleable_request (c : Coord) a i :
  ApprovalIdSchema a = true -> dget i (c_itemStatuses c) = Some it_active ->
  (forall a', dget a' (c_approvalItems c) <> Some i) ->
  settleable c -> settleable (set_approvalItem a i (set_approvalStatus a ap_pending c)).
Proof.
  intros Ha Hi Hfree. settleable_cases.
  - intros a'. rewrite !dget_dset. destruct (decide (a' = a)) as [->|]; [|by eauto]. intros _.
    split; [done|]. by exists i.
  - intros a1 a2 j. rewrite !dget_dset.
    destruct (decide (a1 = a)) as [->|]; destruct (decide (a2 = a)) as [->|]; try done; [| |by eauto].
    + intros _ _ [= <-] Hj. by apply Hfree in Hj.
    + intros _ _ Hj [= <-]. by apply Hfree in Hj.
  - right. exists a. apply dget_dset_eq.
Qed.

Lemma settleable_waiting (c : Coord) a i :
  dget a (c_approvalStatuses c) = Some ap_pending ->
  settleable c -> settleable (blocked (b_waiting_for_approval i a) c).
Proof. intros Ha. settleable_cases. right. by exists a. Qed.

(** Decided, and not blocked any more. *)
Lemma settleable_unblock (c : Coord) a st :
  st <> ap_pending -> settleable c -> settleable (blocked b_none (set_approvalStatus a st (after c))).
Proof.
  intros Hst Hs.
  destruct (blocked_none_fields (set_approvalStatus a st (after c)))
    as (E1 & E2 & E3 & E4 & E5 & E6 & E7 & E8 & E9 & E10 & E11).
  cbn -[dset dget blocked dkeys] in *.
  assert (Hap : forall a', dget a' (dset a st (c_approvalStatuses c)) = Some ap_pending ->
    dget a' (c_approvalStatuses c) = Some ap_pending).
  { intros a'. rewrite dget_dset. case_decide; congruence. }
  destruct Hs. split; rewrite ?E1, ?E2, ?E3, ?E4, ?E5, ?E6, ?E7, ?E8, ?E9; auto using NoDup_dset.
  intros a1 a2 j H1%Hap H2%Hap. by apply sb_distinct.
Qed.
End Settleable.

Section Closable.
Context `{!JsRuntime} {K : Type} `{!LifecycleSink K, !LifecycleSinkLaws K, !SinkAvailable K}.
Variable options : RuntimeLifecycleCoordinatorOptions.
Hypothesis Henv : env_valid options.
Notation Coord := RuntimeLifecycleCoordinator.
Notation W := (World (K:=K)).
Notation good := (good (K:=K) options).

(** No sequence number is left. *)
Definition full (c : Coord) : Prop := MAX_SAFE_INTEGER <= c_sequence c.

Definition closable (c : Coord) : Prop := isTerminal c = true \/ settleable c \/ full c.

(** Nothing can be written any more. *)
Definition over (c : Coord) : Prop := isTerminal c = true \/ full c.

(** After a step that went wrong. *)
Definition sound (w : W) : Prop := good w /\ (settleable (fst w) \/ full (fst w)).

(** What callers owe an operation so that the turn can still be closed. *)
Definition op_fits (c : Coord) (op : operation) : Prop :=
  match op with
  | OpRequestApproval _ _ i _ => fresh_item c i /\ (c_status c = in_progress \/ over c)
  | OpSettleCompaction p => op_contract c op /\ free_of_pending (cc_itemId p) c
  | _ => op_contract c op
  end.

(** A step that wrote nothing. *)
Definition unwritten (c : Coord) (w : W) : Prop := fst w = c \/ fst w = tick c.

Lemma unwritten_sound c w : settleable c -> good w -> unwritten c w -> sound w.
Proof.
  intros Hs Hg Hc. split; [done|]. left. destruct Hc as [->| ->]; [done|by apply settleable_tick].
Qed.

Lemma emit_sound fields c k :
  good (c, k) -> settleable c -> neutral (ef_type fields) = true ->
  wp (emit options fields) (fun _ w => good w /\ fst w = after c) (fun _ => sound) (c, k).
Proof.
  intros Hg Hs Hn. eapply wp_mono; [apply (wp_and _ _ _ _ _ _
    (emit_neutral options fields c k Hg Hn) (emit_states options fields c k))| |].
  - by intros _ w [[Hg' _] [Hc _]].
  - intros _ w [Hg' Hc]. by eapply unwritten_sound.
Qed.

Lemma emitted_item fields c i :
  is_ok (parse_event (draft_event options c fields 1)) = true -> ef_itemId fields = Some i ->
  ItemIdSchema i = true.
Proof.
  destruct (parse_event _) as [e|] eqn:Hp; [|done]. intros _ Hi. by eapply draft_item_valid.
Qed.

Lemma startItem_states c k i kind payload :
  wp (startItem options i kind payload)
    (fun _ w => fst w = set_itemStatus i it_active (after c) /\ ItemIdSchema i = true)
    (fun _ => unwritten c) (c, k).
Proof.
  unfold startItem. apply wp_bind. unfold wp at 1, lift, transitionItemStatus, transition. cbn.
  apply wp_bind. eapply wp_mono; [apply emit_states| |done].
  intros _ [c' k'] (Hc & _ & Hok); cbn in Hc; subst c'. split; [done|by eapply emitted_item].
Qed.

Lemma startItem_sound c k i kind payload :
  good (c, k) -> settleable c ->
  wp (startItem options i kind payload)
    (fun _ w => good w /\ fst w = set_itemStatus i it_active (after c) /\ settleable (fst w))
    (fun _ => sound) (c, k).
Proof.
  intros Hg Hs. eapply wp_mono; [apply (wp_and _ _ _ _ _ _
    (startItem_good options c k i kind payload Hg) (startItem_states c k i kind payload))| |].
  - intros _ w [[Hg' _] [Hc Hi]]. split_and!; [done|done|]. rewrite Hc.
    by apply settleable_start_item, settleable_after.
  - intros _ w [Hg' Hc]. by eapply unwritten_sound.
Qed.

Lemma settleItem_states c k i st payload :
  st <> it_active ->
  wp (settleItem options i st payload)
    (fun _ w => is_Some (dget i (c_itemStatuses c))) (fun _ => unwritten c) (c, k).
Proof.
  intros Hst. unfold settleItem. apply wp_bind, wp_get, wp_bind, wp_lift; [|by left].
  intros next Htr. apply transition_known in Htr; [|done].
  apply wp_bind. by eapply wp_mono; [apply emit_states| |].
Qed.

Lemma settleItem_sound c k i st payload :
  good (c, k) -> settleable c -> isTerminalItemStatus st = true ->
  (forall t, dget t (c_toolCallStatuses c) = Some it_active ->
             dget t (c_toolCallItems c) <> Some i) ->
  free_of_pending i c ->
  wp (settleItem options i st payload)
    (fun _ w => good w /\ fst w = set_itemStatus i st (after c) /\ settleable (fst w))
    (fun _ => sound) (c, k).
Proof.
  intros Hg Hs Hst Hfree Hfree'. eapply wp_mono; [apply (wp_and _ _ _ _ _ _
    (settleItem_good options c k i st payload Hg Hst Hfree)
    (settleItem_states c k i st payload (terminal_not_active st Hst)))| |].
  - intros _ w [[Hg' Hc] Hi]. split_and!; [done|done|]. rewrite Hc.
    by apply settleable_settle_item; [..|apply settleable_after].
  - intros _ w [Hg' Hc]. by eapply unwritten_sound.
Qed.

(** ** Tool calls *)

Definition ws (w : W) : Prop := settleable (fst w).

Lemma unwritten_ws c w : settleable c -> unwritten c w -> ws w.
Proof. intros Hs [Hc|Hc]; unfold ws; rewrite Hc; [done|by apply settleable_tick]. Qed.

Lemma emit_ws fields (w : W) : ws w -> wp (emit options fields) (fun _ => ws) (fun _ => ws) w.
Proof.
  destruct w as [c k]. intros Hws. eapply wp_mono; [apply emit_states| |].
  - intros ? w [Hc _]. red. rewrite Hc. by apply settleable_after.
  - intros ? w. by apply unwritten_ws.
Qed.

Lemma tool_start_valid c i t name batch display :
  is_ok (parse_event (draft_event options c (mkFields "tool_call.started" (Some i) (Some t) None
    ([("toolName", JStr name)] ++ opt_field "callBatchId" batch ++ opt_record "display" display)) 1))
  = true ->
  ToolCallIdSchema t = true /\ name_ok (Some name) /\ batch_ok batch.
Proof.
  destruct (parse_event _) as [e|] eqn:Hp; [|done]. intros _.
  apply parse_event_inv in Hp as (sh & pl & Hsh & _ & _ & Ht & _ & _ & Hpl & _).
  change (Some (tool_shape LifecycleItemPayloadSchema) = Some sh) in Hsh. injection Hsh as <-.
  split; [by eapply present_tool|].
  cbn [sh_payload tool_shape LifecycleEvents.payload draft_event ef_payload] in Hpl. split.
  - intros s Hs%truthy_Some. injection Hs as <-.
    eapply (z_object_get _ _ _ (opt "toolName" (z_trimmed 1 160)) (JStr name)) in Hpl as (v & Hv & _).
    + cbn [f_schema opt] in Hv. by rewrite Hv.
    + by apply (bool_decide_unpack _).
    + unfold LifecycleItemPayloadSchema. repeat (apply list_elem_of_here || apply list_elem_of_further).
    + done.
  - intros b Hb.
    eapply (z_object_get _ _ _ (opt "callBatchId" (z_regex ToolCallBatchIdSchema)) (JStr b)) in Hpl as (v & Hv & _).
    + cbn [f_schema opt] in Hv. unfold z_regex in Hv. by apply z_test_Some in Hv as [_ Hv].
    + by apply (bool_decide_unpack _).
    + repeat (apply list_elem_of_here || apply list_elem_of_further).
    + unfold opt_field. by rewrite Hb.
Qed.

Lemma startToolCall_ws c k i t name input batch display :
  settleable c ->
  wp (startToolCallNow options i t name input batch display) (fun _ => ws) (fun _ => ws) (c, k).
Proof.
  intros Hs. unfold startToolCallNow. apply wp_bind.
  eapply wp_mono; [apply startItem_states| |by intros ? w; apply unwritten_ws].
  intros ? [c1 k1] [Hc1 Hi]; cbn in Hc1.
  assert (Hs1 : settleable c1) by (rewrite Hc1; by apply settleable_start_item, settleable_after).
  clear Hc1 Hs. apply wp_bind. unfold wp at 1, lift, transitionToolCallStatus, transition. cbn.
  apply wp_bind. eapply wp_mono; [apply emit_states| |by intros ? w; apply unwritten_ws].
  intros ? [c2 k2] (Hc2 & _ & Hok); cbn in Hc2; subst c2.
  apply tool_start_valid in Hok as (Ht & Hn & Hb).
  pose proof (settleable_tool _ t it_active Ht (settleable_after _ Hs1)) as Hs2.
  pose proof (settleable_tool_name _ t name Hn Hs2) as Hs3.
  do 2 (apply wp_bind; unfold wp at 1, upd, modify; cbn -[dset]).
  apply wp_bind. eapply (wp_mono _ (fun _ => ws) _ (fun _ _ => False)); [|intros ? [c4 k4] Hs4|done].
  - destruct (truthy batch) as [b|] eqn:Hbatch; [|exact Hs3].
    apply (settleable_tool_batch _ t b); [|exact Hs3]. intros s Hs%truthy_Some. injection Hs as <-.
    by apply Hb.
  - apply wp_bind. unfold wp at 1, modify; cbn. apply emit_ws. by apply (settleable_ext c4).
Qed.

Lemma settleToolCall_sound c k t st payload :
  good (c, k) -> settleable c -> isTerminalItemStatus st = true ->
  wp (settleToolCall options t st payload)
    (fun _ w => good w /\ settleable (fst w)) (fun _ => sound) (c, k).
Proof.
  intros Hg Hs Hst. unfold settleToolCall.
  assert (Hsame : sound (c, k)) by by split; [|left].
  apply wp_bind. apply requireActive_wp; [|done]. intros Hact.
  apply wp_bind, wp_lift; [|done]. intros next Htr. apply transition_ok in Htr as [-> _].
  apply wp_bind. apply requireToolItem_wp; [|done]. intros i Hti.
  apply wp_bind, wp_get, wp_bind.
  eapply wp_mono; [apply (wp_and _ _ _ _ _ _ (emit_tool_settled options c k i t st _ Hg Hst Hact)
    (emit_states options _ c k))| |].
  2:{ intros ? w [Hg' Hc]. by eapply unwritten_sound. }
  intros ? [c1 k1] [[Hc1 Hg1] _]. cbn in Hc1, Hg1. subst c1.
  apply wp_bind. unfold wp at 1, upd, modify; cbn -[dset].
  eapply wp_mono; [apply settleItem_sound; [exact Hg1| |done| |]| |done].
  - eapply settleable_tool; [by eapply (sb_tool_ids _ Hs)|by apply settleable_after].
  - exact (settled_tool_frees options c k t i st Hg Hst Hact Hti).
  - intros b Hb Hi. cbn in Hb, Hi. by eapply (pending_item_free options c k b i Hg).
  - by intros ? w (? & ? & ?).
Qed.

(** ** Text, compactions *)

(** A state whose item [i] belongs to nobody. *)
Definition loose (i : string) (w : W) : Prop :=
  good w /\ settleable (fst w) /\ (forall t, dget t (c_toolCallItems (fst w)) <> Some i) /\
  (forall a, dget a (c_approvalItems (fst w)) <> Some i).

Lemma loose_start i kind payload c k :
  good (c, k) -> settleable c -> fresh_item c i ->
  wp (startItem options i kind payload) (fun _ => loose i) (fun _ => sound) (c, k).
Proof.
  intros Hg Hs Hi. destruct (good_project _ _ _ Hg) as (_ & _ & _ & Hown & _).
  destruct (fresh_unowned _ _ _ _ _ _ Hown Hi) as [Ht Ha].
  eapply wp_mono; [by apply startItem_sound| |done]. intros ? w (Hg' & Hc & Hs').
  split_and!; try done; by rewrite Hc.
Qed.

Lemma loose_emit i fields w :
  loose i w -> neutral (ef_type fields) = true ->
  wp (emit options fields) (fun _ => loose i) (fun _ => sound) w.
Proof.
  destruct w as [c k]. intros (Hg & Hs & Ht & Ha) Hn.
  eapply wp_mono; [by apply emit_sound| |done]. intros ? w [Hg' Hc].
  split_and!; rewrite ?Hc; try done. by apply settleable_after.
Qed.

Lemma loose_settle i st payload w :
  loose i w -> isTerminalItemStatus st = true ->
  wp (settleItem options i st payload) (fun _ w => good w /\ settleable (fst w)) (fun _ => sound) w.
Proof.
  destruct w as [c k]. intros (Hg & Hs & Ht & Ha) Hst.
  eapply wp_mono; [apply settleItem_sound;
    [exact Hg|exact Hs|exact Hst|intros t _; apply Ht|intros a _; apply Ha]| |done].
  by intros ? w (? & ? & ?).
Qed.

Lemma stream_sound i kind (f : string -> EventFields) xs payload c k :
  (forall d, neutral (ef_type (f d)) = true) -> good (c, k) -> settleable c -> fresh_item c i ->
  wp (_ ← startItem options i kind []; _ ← for_of xs (fun d => emit options (f d));
      settleItem options i it_completed payload)
    (fun _ w => good w /\ settleable (fst w)) (fun _ => sound) (c, k).
Proof.
  intros Hf Hg Hs Hi. apply wp_bind. eapply wp_mono; [apply (loose_start i); [exact Hg|exact Hs|exact Hi]| |done].
  intros ? w1 Hw1. apply wp_bind.
  apply (wp_mono _ (fun _ => loose i) _ (fun _ => sound)); [| |done].
  - apply (wp_for_of _ (fun _ => loose i)); [|done]. intros. by apply loose_emit.
  - intros ? w2 Hw2. by apply loose_settle.
Qed.

(** ** Approvals *)

Lemma unblock_sound c k :
  good (c, k) -> isTerminal c = false ->
  wp (changeBlocking options b_none) (fun _ w => good w /\ fst w = blocked b_none c)
    (fun _ w => good w /\ full (fst w)) (c, k).
Proof.
  intros Hg Hterm. eapply wp_mono; [apply (wp_and _ _ _ (fun _ _ => True) (fun _ w => full (fst w)) _
    (changeBlocking_good options c k b_none Hg ltac:(by split)))| |].
  2:{ by intros ? w [[? ?] _]. }
  2:{ by intros ? w []. }
  assert (Hpost : wp (emit options (mkFields "turn.blocking_changed" None None None
      [("blockingState", json_of_blocking b_none)])) (fun _ _ => True) (fun _ w => full (fst w)) (c, k)).
  { destruct (decide (full c)) as [Hf|Hf].
    { eapply wp_mono; [apply emit_states|done|]. intros ? w [Hc|Hc]; by rewrite Hc. }
    pose proof (good_sequence _ _ _ Hg). unfold full in Hf.
    eapply wp_mono; [apply emit_runs; [done..|]|done|done].
    eapply (draft_parses _ Henv _ _ _ _ _ _ _ generic_shape);
      [|apply Nat.leb_le; done|done|done|done|done|done|reflexivity]. lia. }
  unfold changeBlocking. apply wp_bind. eapply wp_mono; [exact Hpost| |done].
  intros ? [c3 k3] _. apply wp_bind, wp_get, wp_bind.
  destruct (decide (c_status c3 = awaiting_approval)) as [->|];
    by unfold wp, upd, modify, mbind, ST_bind, lift, mret, ST_ret; cbn.
Qed.

(** The approval [a] is decided, and the turn waits no more. *)
Definition decided (a : string) (w : W) : Prop :=
  good w /\ settleable (fst w) /\ c_status (fst w) <> awaiting_approval.

Lemma decideApproval_sound c k a st payload :
  good (c, k) -> settleable c ->
  wp (decideApprovalNow options a st payload) (fun _ => decided a) (fun _ => sound) (c, k).
Proof.
  intros Hg Hs. assert (Hsame : sound (c, k)) by by split; [|left].
  unfold decideApprovalNow. apply wp_bind, wp_get, wp_bind, wp_lift; [|done]. intros next Htr.
  apply wp_bind. apply requireApprovalItem_wp; [|done]. intros i Hai.
  destruct (decision_legal _ _ _ _ _ _ Hg (mk_is_Some _ _ Hai) Htr) as (-> & Hpend & Hst).
  apply wp_bind. eapply wp_mono; [apply (wp_and _ _ _ _ _ _
    (emit_decided options c k i a st payload Hg Hai Hpend Hst) (emit_states options _ c k))| |].
  2:{ intros ? w [Hg' Hc]. by eapply unwritten_sound. }
  intros ? [c1 k1] [[Hc1 Hg1] _]. cbn in Hc1, Hg1. subst c1.
  apply wp_bind. unfold wp at 1, upd, modify; cbn -[dset].
  apply wp_bind. eapply wp_mono; [apply unblock_sound; [exact Hg1|exact (sb_live _ Hs)]| |].
  2:{ intros ? w [Hg2 Hf]. split; [done|by right]. }
  intros ? [c2 k2] [Hg2 Hc2]. cbn in Hc2.
  pose proof (settleable_unblock c a st Hst Hs) as Hs2. rewrite <- Hc2 in Hs2.
  destruct (blocked_none_fields (set_approvalStatus a st (after c)))
    as (E1 & E2 & E3 & E4 & E5 & E6 & E7 & E8 & E9 & E10 & E11).
  rewrite <- Hc2 in *. cbn -[dset] in E1, E2, E3, E6, E7.
  assert (Hstatus : c_status c2 <> awaiting_approval).
  { rewrite Hc2. unfold blocked. cbn. case_decide; [done|]. by cbn. }
  apply wp_bind. apply requireApprovalItem_wp; [|by split; [|left]]. intros i' Hai'.
  rewrite E7, Hai in Hai'. injection Hai' as <-.
  assert (Hsettle : forall st' pl, isTerminalItemStatus st' = true ->
    wp (settleItem options i st' pl) (fun _ => decided a) (fun _ => sound) (c2, k2)).
  { intros st' pl Hst'. eapply wp_mono; [apply settleItem_sound; [exact Hg2|exact Hs2|exact Hst'|..]| |done].
    - rewrite E2, E3. exact (pending_item_free options c k a i Hg Hpend Hai).
    - intros a' Ha' Hi'. rewrite E6, dget_dset in Ha'. rewrite E7 in Hi'.
      case_decide as Ha; [congruence|]. apply Ha. by eapply (sb_distinct _ Hs).
    - intros ? w (Hg3 & Hc3 & Hs3). split_and!; [done|done|]. by rewrite Hc3. }
  destruct (decide (st = ap_approved)); by apply Hsettle.
Qed.

Lemma block_ws a i c k :
  settleable c -> dget a (c_approvalStatuses c) = Some ap_pending ->
  wp (changeBlocking options (b_waiting_for_approval i a)) (fun _ => ws) (fun _ => ws) (c, k).
Proof.
  intros Hs Ha. unfold changeBlocking. apply wp_bind.
  eapply wp_mono; [apply emit_states| |by intros ? w; apply unwritten_ws].
  intros ? [c1 k1] [Hc1 _]; cbn in Hc1; subst c1. apply wp_bind, wp_get, wp_bind, wp_bind, wp_lift.
  2:{ intros ? _. by apply settleable_after. }
  intros next Htr. apply transition_ok in Htr as [-> _]. unfold wp, upd, modify; cbn.
  by apply (settleable_waiting _ a i).
Qed.

Lemma requestApproval_ws c k parent a i payload :
  good (c, k) -> settleable c -> fresh_item c i ->
  wp (requestApprovalNow options parent a i payload) (fun _ => ws) (fun _ => ws) (c, k).
Proof.
  intros Hg Hs Hi. destruct (good_project _ _ _ Hg) as (_ & _ & _ & Hown & _).
  destruct (fresh_unowned _ _ _ _ _ _ Hown Hi) as [_ Ha].
  unfold requestApprovalNow. apply wp_bind.
  eapply wp_mono; [apply startItem_states| |by intros ? w; apply unwritten_ws].
  intros ? [c1 k1] [Hc1 Hid]; cbn in Hc1.
  assert (Hs1 : settleable c1) by (rewrite Hc1; by apply settleable_start_item, settleable_after).
  apply wp_bind. eapply wp_mono; [apply emit_states| |by intros ? w; apply unwritten_ws].
  intros ? [c2 k2] (Hc2 & _ & Hok); cbn in Hc2; subst c2.
  assert (Hav : ApprovalIdSchema a = true).
  { destruct (parse_event _) as [e|] eqn:Hp in Hok; [|done].
    by apply (draft_approval options _ _ _ a) in Hp as (_ & _ & ? & _). }
  do 2 (apply wp_bind; unfold wp at 1, upd, modify; cbn -[dset]).
  apply block_ws; [|apply dget_dset_eq].
  apply settleable_request; [done| | |by apply settleable_after]; cbn; rewrite Hc1; cbn -[dget dset].
  - apply dget_dset_eq.
  - done.
Qed.

(** ** The end of the turn *)

Lemma appendTerminal_states es s (c : Coord) (k : K) :
  wp (appendTerminalBatch (K:=K) es s) (fun _ w => fst w = c) (fun _ w => fst w = c) (c, k).
Proof.
  unfold appendTerminalBatch, try_catch, appendBatch, wp, mbind, ST_bind. cbn.
  destruct (sink_appendBatch es k) as [[] k1]; cbn; [done|].
  by destruct (sink_appendBatch es k1) as [[] k2].
Qed.

Lemma createEvent_states fields off c (k : K) :
  wp (createEvent options fields off) (fun _ w => w = (tick c, k)) (fun _ w => w = (tick c, k)) (c, k).
Proof.
  unfold createEvent, wp, mbind, ST_bind, get, gets, upd, modify, lift. cbn.
  by destruct (parse_event _).
Qed.

Lemma settleTurn_ws o c k :
  settleable c ->
  wp (settleTurn options o) (fun _ w => isTerminal (fst w) = true) (fun _ => ws) (c, k).
Proof.
  intros Hs. unfold settleTurn. apply wp_bind, wp_get. unfold id. rewrite (sb_live _ Hs).
  apply wp_bind, wp_lift; [|done]. intros next Htr. apply transition_ok in Htr as [-> _].
  do 2 (apply wp_bind, wp_lift; [intros ? _|done]).
  apply wp_bind. eapply wp_mono; [apply createEvent_states| |].
  2:{ intros ? w ->. by apply settleable_tick. }
  intros ? w ->. apply wp_bind. eapply wp_mono; [apply createEvent_states| |].
  2:{ intros ? w ->. by do 2 apply settleable_tick. }
  intros ? w ->. apply wp_bind. eapply wp_mono; [apply appendTerminal_states| |].
  2:{ intros ? w Hw. unfold ws. rewrite Hw. by do 2 apply settleable_tick. }
  intros ? [c1 k1] _. unfold wp, upd, modify, mbind, ST_bind; cbn. by destruct o.
Qed.

Lemma startNow_ws c k : settleable c -> wp (startNow options) (fun _ => ws) (fun _ => ws) (c, k).
Proof.
  intros Hs. unfold startNow. apply wp_bind, wp_get. unfold id. destruct (c_accepted c); [done|].
  apply wp_bind, wp_lift; [|done]. intros next Htr. apply transition_ok in Htr as [-> _].
  apply wp_bind, wp_lift; [|done]. intros att Htr. apply transition_ok in Htr as [-> _].
  apply wp_bind. eapply wp_mono; [apply createEvent_states| |].
  2:{ intros ? w ->. by apply settleable_tick. }
  intros ? w ->. apply wp_bind. eapply wp_mono; [apply createEvent_states| |].
  2:{ intros ? w ->. by do 2 apply settleable_tick. }
  intros ? w ->. apply wp_bind. eapply wp_mono; [apply createEvent_states| |].
  2:{ intros ? w ->. by do 3 apply settleable_tick. }
  intros ? w ->. assert (Hs3 : settleable (tick (tick (tick c)))) by by do 3 apply settleable_tick.
  apply wp_bind. unfold wp, appendBatch; cbn. destruct (sink_appendBatch _ k) as [[] k1]; cbn; [|done].
  destruct Hs3. split; cbn; try done. by right.
Qed.

Lemma settled_approvals a i st c :
  c_approvalStatuses (approval_settled a i st c) = dset a st (c_approvalStatuses c).
Proof. unfold approval_settled, blocked. cbn. by case_decide. Qed.

Lemma cancel_sound c k reason :
  good (c, k) -> settleable c ->
  wp (cancelPendingApprovals options reason)
    (fun _ w => good w /\ settleable (fst w) /\ no_pending (fst w)) (fun _ => sound) (c, k).
Proof.
  intros Hg Hs. unfold cancelPendingApprovals. apply wp_bind, wp_get.
  eapply wp_mono with (X := fun _ => sound); [|intros ? w HI|done].
  - apply (wp_for_of _ (fun xs w => good w /\ settleable (fst w) /\ forall a,
      dget a (c_approvalStatuses (fst w)) = Some ap_pending -> (a, ap_pending) ∈ xs)).
    + intros [a cur] xs [c1 k1] (Hg1 & Hs1 & Hin). cbn in Hs1, Hin.
      destruct (decide (cur = ap_pending)) as [->|Hne].
      * eapply wp_mono; [apply (wp_and _ _ _ _ _ _ (decideApproval_sound c1 k1 a _ _ Hg1 Hs1)
          (decideApproval_good options c1 k1 a ap_cancelled _ Hg1))| |by intros ? w []].
        intros ? w [(Hg2 & Hs2 & _) [_ (i & _ & Hc)]]. split_and!; [done|done|].
        intros a' Ha'. rewrite Hc, settled_approvals, dget_dset in Ha'. case_decide; [done|]. specialize (Hin a' Ha'). set_solver.
      * apply wp_ret. split_and!; [done|done|]. intros a' Ha'. specialize (Hin a' Ha'). set_solver.
    + split_and!; [done|done|]. intros a. apply dget_elem.
  - destruct HI as (Hg1 & Hs1 & Hno). split_and!; [done|done|]. intros b Hb. apply Hno in Hb. set_solver.
Qed.

Lemma no_pending_free i c : no_pending c -> free_of_pending i c.
Proof. intros Hno a Ha. by apply Hno in Ha. Qed.

Lemma openWork_sound c k st payload :
  good (c, k) -> settleable c -> no_pending c -> isTerminalItemStatus st = true ->
  wp (settleOpenWork options st payload)
    (fun _ w => good w /\ settleable (fst w)) (fun _ => sound) (c, k).
Proof.
  intros Hg Hs Hnp Hst. unfold settleOpenWork. apply wp_bind, wp_get, wp_bind.
  eapply wp_mono with (X := fun _ => sound); [|intros ? [c1 k1] HI|done].
  - apply (wp_for_of _ (fun xs w => good w /\ settleable (fst w) /\ no_pending (fst w) /\ forall t,
      dget t (c_toolCallStatuses (fst w)) = Some it_active -> (t, it_active) ∈ xs)).
    + intros [t cur] xs [c1 k1] (Hg1 & Hs1 & Hn1 & Hin). cbn in Hs1, Hn1, Hin.
      destruct (decide (cur = it_active)) as [->|Hne].
      * eapply wp_mono; [apply (wp_and _ _ _ _ _ _ (settleToolCall_sound c1 k1 t st payload Hg1 Hs1 Hst)
          (settleToolCall_good options c1 k1 t st payload Hg1 Hst))| |by intros ? w []].
        intros ? [c2 k2] [[Hg2 Hs2] [_ (i & _ & Hc2)]]. cbn in Hc2. subst c2.
        split_and!; [done|done|exact Hn1|]. intros t' Ht'. cbn -[dset dget] in Ht'.
        rewrite dget_dset in Ht'. case_decide; [by destruct st; simplify_eq|].
        specialize (Hin t' Ht'). set_solver.
      * apply wp_ret. split_and!; try done. intros t' Ht'. specialize (Hin t' Ht'). set_solver.
    + split_and!; [done|done|done|]. intros t. apply dget_elem.
  - destruct HI as (Hg1 & Hs1 & Hn1 & Hno). apply wp_bind, wp_get.
    eapply wp_mono with (X := fun _ => sound)
      (Q := fun _ w => good w /\ settleable (fst w) /\ no_pending (fst w) /\ no_active (fst w));
      [|by intros ? w (? & ? & _)|done].
    apply (wp_for_of _ (fun _ w => good w /\ settleable (fst w) /\ no_pending (fst w) /\ no_active (fst w))).
    + intros [i cur] xs [c2 k2] (Hg2 & Hs2 & Hn2 & Hno2). destruct (decide (cur = it_active)); [|by apply wp_ret].
      eapply wp_mono; [apply settleItem_sound; [exact Hg2|exact Hs2|exact Hst| |by apply no_pending_free]| |done].
      { intros t Ht. by apply Hno2 in Ht. }
      intros ? [c3 k3] (Hg3 & Hc3 & Hs3). cbn in Hc3. split_and!; try done; by subst c3.
    + split_and!; [done|done|done|]. intros t Ht. apply Hno in Ht. set_solver.
Qed.

Lemma close_sound o reason st payload c k :
  good (c, k) -> settleable c -> isTerminalItemStatus st = true ->
  wp (_ ← cancelPendingApprovals options reason;
      _ ← settleOpenWork options st payload; settleTurn options o)
    (fun _ w => closable (fst w)) (fun _ w => closable (fst w)) (c, k).
Proof.
  assert (Hsound : forall w, sound w -> closable (fst w)).
  { intros w [_ [?|?]]; [by right; left|by right; right]. }
  intros Hg Hs Hst. apply wp_bind. eapply wp_mono; [by apply cancel_sound| |by auto].
  intros ? [c1 k1] (Hg1 & Hs1 & Hn1). apply wp_bind.
  eapply wp_mono; [by apply openWork_sound| |by auto]. intros ? [c2 k2] [Hg2 Hs2].
  eapply wp_mono; [by apply settleTurn_ws|by left|]. intros ? w Hw. by right; left.
Qed.

(** ** Every operation *)

Lemma full_rejects c fields :
  full c -> is_ok (parse_event (draft_event options c fields 1)) = false.
Proof.
  intros Hf. destruct (parse_event _) as [e|] eqn:Hp; [|done].
  pose proof (draft_canonical _ _ _ _ _ Hp) as (_ & _ & Hself & Hseq & _).
  apply parsed_envelope in Hself as [_ Hb]. unfold full in Hf. cbn in Hb. lia.
Qed.

Lemma emit_over c k fields :
  good (c, k) -> over c -> wp (emit options fields) (fun _ _ => False) (fun _ => good) (c, k).
Proof.
  intros Hg Hover.
  assert (Herr : wp (emit options fields) (fun _ _ => False) (fun _ w => w = (c, k) \/ w = (tick c, k)) (c, k)).
  { unfold emit. apply wp_bind, wp_get, wp_bind, wp_lift; [|by left]. intros [] Hterm.
    destruct Hover as [Ht|Hf].
    { unfold assertTurnAcceptsLifecycleEvent, isTerminal in *. by rewrite Ht in Hterm. }
    apply wp_bind. unfold createEvent, wp, mbind, ST_bind, get, gets, upd, modify, lift. cbn.
    pose proof (full_rejects c fields Hf) as Hrej. destruct (parse_event _); [done|by right]. }
  eapply wp_mono; [exact Herr|done|]. intros ? w [-> | ->]; [done|by apply good_tick].
Qed.

Lemma request_over c k parent a i payload :
  good (c, k) -> over c ->
  wp (requestApprovalNow options parent a i payload) (fun _ => good) (fun _ => good) (c, k).
Proof.
  intros Hg Ho. unfold requestApprovalNow, startItem. apply wp_bind, wp_bind.
  unfold wp at 1, lift, transitionItemStatus, transition. cbn. apply wp_bind.
  by eapply wp_mono; [by apply emit_over| |].
Qed.

Lemma op_fits_good op (w : W) :
  good w -> op_fits (fst w) op -> wp (run_op options op) (fun _ => good) (fun _ => good) w.
Proof.
  intros Hg Hfit. destruct op; try (apply run_op_good; [done|apply Hfit]).
  destruct Hfit as [Hfresh [Hst|Hover]]; [by apply run_op_good|]. destruct w as [c k].
  by apply request_over.
Qed.

Lemma ws_closable {A} (m : M (K:=K) A) (w : W) :
  wp m (fun _ => ws) (fun _ => ws) w ->
  wp m (fun _ w' => closable (fst w')) (fun _ w' => closable (fst w')) w.
Proof. intros. eapply wp_mono; [done|..]; by right; left. Qed.

Lemma sound_closable {A} (m : M (K:=K) A) Q (w : W) :
  wp m Q (fun _ => sound) w -> (forall a w', Q a w' -> settleable (fst w')) ->
  wp m (fun _ w' => closable (fst w')) (fun _ w' => closable (fst w')) w.
Proof.
  intros Hm HQ. eapply wp_mono; [done|..].
  - intros ? w' Hw. right; left. by eapply HQ.
  - by intros ? w' [_ Hw]; right.
Qed.

Lemma wp_ws_ret {A B} (m : M (K:=K) A) (b : B) (w : W) :
  wp m (fun _ => ws) (fun _ => ws) w -> wp (_ ← m; mret b) (fun _ => ws) (fun _ => ws) w.
Proof. intros. apply wp_bind. by eapply wp_mono. Qed.

Lemma complete_closable output i c k :
  good (c, k) -> settleable c -> fresh_item c i ->
  wp (completeNow options output i) (fun _ w => closable (fst w)) (fun _ w => closable (fst w)) (c, k).
Proof.
  intros Hg Hs Hi. unfold completeNow.
  pose proof (stream_sound i "assistant_message" (fun d => mkFields "assistant_message.delta" (Some i)
    None None [("phase", JStr "final_answer"); ("delta", JStr d)]) (splitLifecycleOutput output)
    [("result", JObj [("output", JStr output)])] c k ltac:(done) Hg Hs Hi) as Hstream.
  apply wp_bind in Hstream. apply wp_bind. eapply wp_mono; [exact Hstream| |by intros ? w [_ ?]; right].
  intros ? w1 Hw1. apply wp_bind in Hw1. apply wp_bind.
  eapply wp_mono; [exact Hw1| |by intros ? w [_ ?]; right]. intros ? w2 Hw2. apply wp_bind.
  eapply wp_mono; [exact Hw2| |by intros ? w [_ ?]; right]. intros ? [c3 k3] [_ Hs3].
  eapply wp_mono; [by apply settleTurn_ws|by left|]. by intros ? w Hw; right; left.
Qed.

Lemma input_ws i ci m c k :
  settleable c ->
  wp (acceptThreadInput options i ci m (fun _ => Ok tt)) (fun _ => ws) (fun _ => ws) (c, k).
Proof.
  intros Hs. unfold acceptThreadInput, throw_if. apply wp_bind, wp_get.
  destruct (dget i _); [by apply wp_ret|]. apply wp_bind, wp_get, wp_bind.
  destruct (_ || _); [by apply wp_throw|]. apply wp_ret, wp_bind.
  eapply wp_mono; [by apply emit_ws| |done]. intros ? [c1 k1] Hs1.
  apply wp_bind, wp_get, wp_bind. unfold wp at 1, upd, modify; cbn.
  assert (ws (set_acceptedInput i (c_sequence c1) c1, k1)) by by apply (settleable_ext c1).
  by apply wp_bind, wp_ret, wp_ret.
Qed.

Lemma compaction_ws p c k :
  settleable c -> wp (requestContextCompaction options p) (fun _ => ws) (fun _ => ws) (c, k).
Proof.
  intros Hs. unfold requestContextCompaction. apply wp_bind.
  eapply wp_mono; [apply startItem_states| |by intros ? w; apply unwritten_ws].
  intros ? [c1 k1] [Hc1 Hi]; cbn in Hc1. apply wp_bind.
  assert (ws (c1, k1)) by (red; cbn; rewrite Hc1; by apply settleable_start_item, settleable_after).
  eapply wp_mono; [by apply emit_ws| |done]. intros ? w Hw. by apply emit_ws.
Qed.

Lemma settleCompaction_closable p c k :
  good (c, k) -> settleable c -> (forall t, dget t (c_toolCallItems c) <> Some (cc_itemId p)) ->
  free_of_pending (cc_itemId p) c ->
  wp (settleContextCompaction options p) (fun _ w => closable (fst w)) (fun _ w => closable (fst w)) (c, k).
Proof.
  intros Hg Hs Ht Ha. unfold settleContextCompaction. apply wp_bind.
  destruct (decide (cc_phase p = "failed"));
    (eapply wp_mono; [by apply emit_sound| |by intros ? w [_ ?]; right]; intros ? [c1 k1] [Hg1 Hc1]; cbn in Hc1;
     eapply sound_closable; [apply settleItem_sound; [exact Hg1| |done|..]|by intros ? w (_ & _ & ?)];
     rewrite Hc1; [by apply settleable_after|intros t _; apply Ht|exact Ha]).
Qed.

Lemma settleable_op op c k :
  good (c, k) -> settleable c -> op_fits c op ->
  wp (run_op options op) (fun _ w => closable (fst w)) (fun _ w => closable (fst w)) (c, k).
Proof.
  intros Hg Hs Hfit.
  assert (He : forall fields, wp (emit options fields) (fun _ => ws) (fun _ => ws) (c, k)) by by intros; apply emit_ws.
  assert (Hrec : forall ty key i v, wp (emit_record options ty key i v) (fun _ => ws) (fun _ => ws) (c, k)).
  { intros. unfold emit_record. apply wp_bind, wp_lift; [|done]. intros. by apply emit_ws. }
  destruct op; cbn [run_op]; unfold captureWorkspaceSnapshot, createTurnArtifact,
    createArtifactNow, updateTurnDiff, markWorkspaceSnapshotUnavailable, updateContextBudget, updateUsage;
    lazymatch goal with
    | |- wp (emit _ _) _ _ _ => apply ws_closable, He
    | |- wp (emit_record _ _ _ _ _) _ _ _ => apply ws_closable, Hrec
    | |- wp (startToolCallNow _ _ _ _ _ _ _) _ _ _ => by apply ws_closable, startToolCall_ws
    | |- wp (requestContextCompaction _ _) _ _ _ => by apply ws_closable, compaction_ws
    | |- _ => idtac
    end.
  - by apply ws_closable, wp_ws_ret, startNow_ws.
  - unfold appendAssistantCommentary. case_decide; [by right; left|].
    eapply sound_closable; [by apply (stream_sound itemId "commentary" (fun d =>
      mkFields "assistant_message.delta" (Some itemId) None None
        [("phase", JStr "commentary"); ("delta", JStr d)]))|by intros ? w [_ ?]].
  - unfold appendAssistantReasoning. destruct (_ || _); [by right; left|].
    eapply sound_closable; [by apply (stream_sound itemId "reasoning" (fun d =>
      mkFields "reasoning.summary_delta" (Some itemId) None None
        [("delta", JStr d); ("displaySafe", JBool true)]))|by intros ? w [_ ?]].
  - apply ws_closable. unfold appendToolOutputNow. apply wp_bind, requireActive_wp; [intros _|done].
    apply wp_bind, requireToolItem_wp; [intros i _|done]. apply He.
  - apply ws_closable. unfold appendHookAudit, throw_if. apply wp_bind.
    destruct (negb _); [by apply wp_throw|]. apply wp_ret, wp_bind, wp_lift; [intros r _; apply He|done].
  - destruct Hfit as [Ht Ha]. by apply settleCompaction_closable.
  - eapply sound_closable; [by apply settleToolCall_sound|by intros ? w []].
  - eapply sound_closable; [by apply settleToolCall_sound|by intros ? w []].
  - eapply sound_closable; [by apply settleToolCall_sound|by intros ? w []].
  - apply ws_closable. destruct Hfit. by apply requestApproval_ws.
  - eapply sound_closable; [by apply decideApproval_sound|by intros ? w (_ & ? & _)].
  - by apply complete_closable.
  - by apply ws_closable, wp_ws_ret, input_ws.
  - apply ws_closable, wp_ws_ret. unfold applyThreadInput. apply wp_bind.
    by eapply wp_mono; [apply He| |].
  - apply ws_closable, wp_ws_ret. unfold reserveCompletion. apply wp_bind, wp_get.
    destruct (_ || _); [by apply wp_ret|]. apply wp_bind. unfold wp, upd, modify; cbn.
    by apply (settleable_ext c).
  - by apply close_sound.
  - by apply close_sound.
Qed.

(** The main step: on an available sink, an operation within its contract leaves
    a turn that can be closed. *)
Lemma run_op_closable op (w : W) :
  good w -> closable (fst w) -> op_fits (fst w) op ->
  wp (run_op options op) (fun _ w' => good w' /\ closable (fst w'))
    (fun _ w' => good w' /\ closable (fst w')) w.
Proof.
  intros Hg Hc Hfit. apply wp_and; [by apply op_fits_good|]. destruct w as [c k].
  destruct Hc as [Hterm|[Hs|Hfull]].
  - pose proof (run_op_ended options k op (c, k) (conj Hterm eq_refl)) as [Ht _].
    unfold wp. by destruct (run_op options op (c, k)) as [[] w']; left.
  - by apply settleable_op.
  - pose proof (run_op_sequence options op (c, k)) as Hseq. cbn in Hseq, Hfull. unfold full in Hfull.
    unfold wp. by destruct (run_op options op (c, k)) as [[] w']; right; right; unfold full; cbn in Hseq; lia.
Qed.

(** ** Waiting for an approval *)

(** The turn runs and waits for nothing; and it waits at most for [a]. *)
Definition idle (c : Coord) : Prop := over c \/ (c_status c = in_progress /\ no_pending c).
Definition waiting (a : string) (c : Coord) : Prop :=
  over c \/ (c_status c <> queued /\ forall b, dget b (c_approvalStatuses c) = Some ap_pending -> b = a).

Lemma run_op_over op (w : W) : over (fst w) -> over (fst (snd (run_op options op w))).
Proof.
  intros [Ht|Hf].
  - left. destruct w as [c k]. by destruct (run_op_ended options k op (c, k) (conj Ht eq_refl)).
  - right. pose proof (run_op_sequence options op w). unfold full in *. lia.
Qed.

Lemma run_op_idle op (w : W) :
  asks op = None -> idle (fst w) -> idle (fst (snd (run_op options op w))).
Proof.
  intros Hop [Ho|[Hst Hnp]]; [by left; apply run_op_over|].
  destruct (run_op_moving options op w Hop) as [Hst'|Ht]; [by left| |by left; left].
  right. split; [done|]. intros a Ha.
  apply (run_op_pending options op (fun _ => False) w) in Ha; [done|by rewrite Hop|].
  intros b Hb. by apply Hnp in Hb.
Qed.

Lemma run_op_waiting op a (w : W) :
  (forall b, asks op = Some b -> b = a) -> waiting a (fst w) ->
  waiting a (fst (snd (run_op options op w))).
Proof.
  intros Hop [Ho|[Hst Hp]]; [by left; apply run_op_over|]. right.
  split; [by apply run_op_started|]. by apply run_op_pending.
Qed.

Lemma idle_waiting a c : idle c -> waiting a c.
Proof.
  intros [?|[Hst Hn]]; [by left|]. right. split; [by rewrite Hst|]. intros b Hb. by apply Hn in Hb.
Qed.

(** The decision of the one approval waited for. *)
Lemma decide_idle a st payload (w : W) :
  good w -> closable (fst w) -> waiting a (fst w) -> st <> ap_pending ->
  wp (run_op options (OpDecideApproval a st payload)) (fun _ w' => idle (fst w')) (fun _ _ => True) w.
Proof.
  intros Hg Hc [Ho|[Hst Hp]] Hst0.
  { pose proof (run_op_over (OpDecideApproval a st payload) w Ho) as Ho'.
    unfold wp. by destruct (run_op options _ w) as [[] ?]; [left|]. }
  destruct w as [c k]. destruct Hc as [Ht|[Hs|Hf]].
  1,3: assert (over c) as Ho by (by left + by right);
    pose proof (run_op_over (OpDecideApproval a st payload) (c, k) Ho) as Ho';
    unfold wp; by destruct (run_op options _ (c, k)) as [[] ?]; [left|].
  pose proof (run_op_started options (OpDecideApproval a st payload) (c, k) Hst) as Hst'.
  assert (Hwp := wp_and _ _ _ _ _ _ (decideApproval_sound c k a st payload Hg Hs)
    (decideApproval_good options c k a st payload Hg)). cbn [run_op] in *.
  unfold wp in *. destruct (decideApprovalNow options a st payload (c, k)) as [[] w']; [|done].
  destruct Hwp as [(Hg' & Hs' & Hna) [_ (i & _ & Hc')]].
  right. cbn in Hst'. split.
  - pose proof (sb_live _ Hs') as Hlive. unfold isTerminal in Hlive. by destruct (c_status (fst w')).
  - intros b Hb. rewrite Hc', settled_approvals, dget_dset in Hb. case_decide; [congruence|].
    by apply Hp in Hb.
Qed.

(** ** What has happened when an operation returns *)

Lemma settleTurn_ends o (w : W) :
  wp (settleTurn options o) (fun _ w' => isTerminal (fst w') = true) (fun _ _ => True) w.
Proof.
  unfold settleTurn. destruct w as [c k]. apply wp_bind, wp_get. unfold id.
  destruct (isTerminal c) eqn:Ht; [exact Ht|].
  apply wp_bind, wp_lift; [|done]. intros next Htr. apply transition_ok in Htr as [-> _].
  repeat (apply wp_last; intros ? ?). by destruct o.
Qed.

(** The operations that end a turn. *)
Definition ending (op : operation) : bool :=
  match op with OpComplete _ _ | OpFail _ | OpInterrupt _ => true | _ => false end.

Lemma ending_ends op (w : W) :
  ending op = true ->
  wp (run_op options op) (fun _ w' => isTerminal (fst w') = true) (fun _ _ => True) w.
Proof.
  destruct op; try done; intros _; cbn [run_op]; unfold completeNow, failNow, interruptNow;
    repeat (apply settleTurn_ends || (apply wp_last; intros ? ?)).
Qed.

(** Only a pending approval is decided. *)
Lemma decide_pending a st payload (w : W) :
  good w ->
  wp (run_op options (OpDecideApproval a st payload))
    (fun _ _ => dget a (c_approvalStatuses (fst w)) = Some ap_pending) (fun _ _ => True) w.
Proof.
  destruct w as [c k]. intros Hg. cbn [run_op fst]. unfold decideApprovalNow.
  apply wp_bind, wp_get, wp_bind, wp_lift; [|done]. intros next Htr.
  apply wp_bind. apply requireApprovalItem_wp; [|done]. intros i Hai.
  destruct (decision_legal options _ _ _ _ _ Hg (mk_is_Some _ _ Hai) Htr) as (_ & Hpend & _).
  unfold wp. by destruct (_ ≫= _) as [[]].
Qed.

(** The size of what is left to close only grows. *)
Lemma length_dset {V} k (v : V) d : (length d <= length (dset k v d))%nat.
Proof. induction d as [|[k' v'] d IH]; cbn; [lia|]. case_decide; cbn; lia. Qed.

Lemma run_op_size op (w : W) :
  closing_size (fst w) <= closing_size (fst (snd (run_op options op w))).
Proof.
  apply (run_op_frame options (fun c => closing_size (fst w) <= closing_size c)); [|lia].
  unfold closing_size. intros c c' Hc. destruct 1 as [c' []| | | | | | | | |]; cbn -[dset]; try lia.
  - rewrite sc_items, sc_tools, sc_approvals. lia.
  - pose proof (length_dset i it_active (c_itemStatuses c)). lia.
  - pose proof (length_dset i st (c_itemStatuses c)). lia.
  - pose proof (length_dset t st (c_toolCallStatuses c)). lia.
  - pose proof (length_dset a st (c_approvalStatuses c)). lia.
Qed.

Lemma room_before op (w : W) :
  0 <= c_sequence (fst w) ->
  room (closing_size (fst (snd (run_op options op w)))) (fst (snd (run_op options op w))) ->
  room (closing_size (fst w)) (fst w).
Proof.
  intros H0 [_ Hr]. pose proof (run_op_size op w). pose proof (run_op_sequence options op w).
  split; lia.
Qed.

Lemma new_coordinator_settleable : settleable (new_coordinator options).
Proof. split; cbn; try done; try apply NoDup_nil_2; by left. Qed.

(** A queue of operations each of which fits when it runs. *)
Fixpoint all_fit (ops : list operation) (w : W) : Prop :=
  match ops with
  | [] => True
  | op :: ops' => op_fits (fst w) op /\ all_fit ops' (snd (run_op options op w))
  end.

Lemma run_operations_closable ops (w : W) :
  good w -> closable (fst w) -> all_fit ops w ->
  good (run_operations options ops w) /\ closable (fst (run_operations options ops w)).
Proof.
  revert w. induction ops as [|op ops IH]; intros w Hg Hc; [done|]. intros [Hfit Hall]. cbn.
  pose proof (run_op_closable op w Hg Hc Hfit) as Hwp. unfold wp in Hwp.
  apply IH; [..|done]; destruct (run_op options op w) as [[] ?]; by destruct Hwp.
Qed.

(** A turn that has not ended and has room is closed by [interrupt] and [fail]. *)
Lemma closable_closes (w : W) op o :
  good w -> closable (fst w) -> isTerminal (fst w) = false -> room (closing_size (fst w)) (fst w) ->
  (exists r, op = OpInterrupt r /\ o = to_interrupted r /\ str_between 1 2000 r = true) \/
  (exists f, op = OpFail f /\ o = to_failed f /\ is_some (ProtocolErrorSchema (json_of_failure f)) = true) ->
  exists w', run_op options op w = (Ok tt, w') /\ closed_with options o w'.
Proof.
  intros Hg [Ht|[Hs|Hf]] Hlive Hroom Hop; [congruence| |].
  - destruct w as [c k]. destruct Hop as [(r & -> & -> & Hr)|(f & -> & -> & Hf)].
    + by apply interrupt_closes.
    + by apply fail_closes.
  - exfalso. unfold full in Hf. unfold room, closing_size in Hroom. lia.
Qed.
End Closable.

(** * Properties *)

(** C6. A turn can always be ended: whatever operations a new coordinator runs
    within their contracts on an available sink, with any of them failing half way
    and leaving an item or a tool call open, an approval pending or the turn waiting,
    [interrupt] with a reason of legal length and [fail] with a valid error return
    and end the turn for every reader of the log, as long as it has not ended and
    enough sequence numbers are left. *)
Theorem turn_can_always_end `{!JsRuntime} {K : Type} `{!LifecycleSink K, !LifecycleSinkLaws K, !SinkAvailable K}
    (options : RuntimeLifecycleCoordinatorOptions) (k : K) (ops : list operation) (r : string)
    (f : ProtocolError) :
  env_valid options -> sink_inv k -> sink_log (o_turnId options) k = [] ->
  default 0 (o_initialSequence options) = 0 ->
  all_fit options ops (new_coordinator options, k) ->
  let w := run_operations options ops (new_coordinator options, k) in
  isTerminal (fst w) = false -> room (closing_size (fst w)) (fst w) ->
  (str_between 1 2000 r = true ->
   exists w', run_op options (OpInterrupt r) w = (Ok tt, w') /\ closed_with options (to_interrupted r) w') /\
  (is_some (ProtocolErrorSchema (json_of_failure f)) = true ->
   exists w', run_op options (OpFail f) w = (Ok tt, w') /\ closed_with options (to_failed f) w').
Proof.
  intros Henv Hk Hlog Hi Hall w Hlive Hroom.
  destruct (run_operations_closable options Henv ops (new_coordinator options, k)) as [Hg Hc]; try done.
  { by apply new_coordinator_good. }
  { right; left. apply new_coordinator_settleable. }
  split; intros Hr; apply closable_closes; eauto.
Qed.

(** The second tool call is refused after its item was opened, and the decision is
    refused after the request was recorded. *)
Definition broken_ops : list operation :=
  waiting_ops ++ [OpStartToolCall "itm_tool02" "no id" "read_file" [] None None;
    OpDecideApproval "appr_000001" ap_approved [("grantScope", JStr "for ever")]].

Lemma turn_can_always_end_witness :
  let _ := iso_runtime in
  let w := run_operations demo_options broken_ops demo_world in
  (dget "itm_tool02" (c_itemStatuses (fst w)) = Some it_active /\
   c_status (fst w) = awaiting_approval) /\
  exists w', run_op demo_options (OpFail demo_failure) w = (Ok tt, w') /\
    closed_with (H := iso_runtime) demo_options (to_failed demo_failure) w'.
Proof.
  pose (R := iso_runtime). split; [by vm_compute|].
  refine (proj2 (turn_can_always_end (H := R) demo_options empty_store broken_ops "stop" demo_failure
    demo_env empty_store_sink _ _ _ _ _) _).
  - by vm_compute.
  - done.
  - vm_compute. repeat split; by left.
  - by vm_compute.
  - split; apply Z.leb_le; by vm_compute.
  - by vm_compute.
Defined.
