(* ===== verification/Ordering.v ===== *)
(** The client's view of a stream,
    [packages/platform-client-sdk/src/platform/lifecycle-ordering.ts]: the
    events of a turn are taken once and in order, whatever the transport
    delivers again, and a lost event is noticed. *)
From S2P Require Import Prelude Js Zod Protocol LifecycleEvents EventStore EventStoreProps.

Record LifecycleOrderingState : Type := mkOrdering {
  os_turnId : string;
  os_currentSequence : Z;
  os_eventIds : gset string;
  os_idempotencyKeys : gset string;
}.

Definition createLifecycleOrderingState (turnId : string) (afterSequence : option Z)
    : LifecycleOrderingState :=
  mkOrdering turnId (default 0 afterSequence) ∅ ∅.

Definition OM (A : Type) : Type := ST LifecycleOrderingState error A.

Definition assertTurn (e : LifecycleEvent) : OM unit := fun s =>
  if decide (turnId e = os_turnId s) then (Ok tt, s)
  else (Err (LifecycleContinuationError "lifecycle_turn_mismatch" None (Some (sequence e))), s).

Definition acceptDuplicateOrThrow (e : LifecycleEvent) : OM bool := fun s =>
  if bool_decide (eventId e ∈ os_eventIds s) || bool_decide (idempotencyKey e ∈ os_idempotencyKeys s)
  then (Ok false, s)
  else (Err (LifecycleContinuationError "lifecycle_sequence_regression"
          (Some (os_currentSequence s + 1)) (Some (sequence e))), s).

Definition assertNext (e : LifecycleEvent) : OM unit := fun s =>
  let expected := os_currentSequence s + 1 in
  if decide (sequence e = expected) then (Ok tt, s)
  else (Err (LifecycleContinuationError "lifecycle_sequence_gap"
          (Some expected) (Some (sequence e))), s).

Definition remember (e : LifecycleEvent) (s : LifecycleOrderingState) : LifecycleOrderingState :=
  mkOrdering (os_turnId s) (os_currentSequence s)
    ({[eventId e]} ∪ os_eventIds s) ({[idempotencyKey e]} ∪ os_idempotencyKeys s).

Definition set_currentSequence (n : Z) (s : LifecycleOrderingState) : LifecycleOrderingState :=
  mkOrdering (os_turnId s) n (os_eventIds s) (os_idempotencyKeys s).

Definition accept (e : LifecycleEvent) : OM bool :=
  _ ← assertTurn e;
  current ← gets os_currentSequence;
  if sequence e <=? current then acceptDuplicateOrThrow e
  else
    _ ← assertNext e;
    _ ← modify (remember e);
    _ ← modify (set_currentSequence (sequence e));
    mret true.

(** A consumer that keeps what [accept] answers [true] to, until it throws:
    the events kept, the state, and the exception if there was one. *)
Fixpoint consume (deliveries : list LifecycleEvent) (s : LifecycleOrderingState)
    : list LifecycleEvent * LifecycleOrderingState * option error :=
  match deliveries with
  | [] => ([], s, None)
  | e :: rest =>
      match accept e s with
      | (Err err, s') => ([], s', Some err)
      | (Ok taken, s') =>
          let '(kept, s'', failure) := consume rest s' in
          (if taken then e :: kept else kept, s'', failure)
      end
  end.

(** * Reading a log *)

Section Log.
(** A log numbered from 1, of one turn. *)
Variables (t : string) (log : list LifecycleEvent).
Hypothesis Hlog : forall i e, log !! i = Some e -> sequence e = Z.of_nat i + 1 /\ turnId e = t.

(** The state after the events of [log] from [after] to [n] were taken. *)
Record taken_to (after n : nat) (s : LifecycleOrderingState) : Prop := {
  tt_turn : os_turnId s = t;
  tt_sequence : os_currentSequence s = Z.of_nat n;
  tt_ids : forall i e, log !! i = Some e -> (after <= i < n)%nat -> eventId e ∈ os_eventIds s;
}.

(** The delivery of the event at position [i] to a consumer at [n]: the next
    one is taken, one it has seen is skipped, and one that skips others is
    refused. *)
Lemma accept_next after n s e :
  taken_to after n s -> log !! n = Some e ->
  exists s', accept e s = (Ok true, s') /\ taken_to after (S n) s'.
Proof.
  intros [] He. destruct (Hlog _ _ He) as [Hseq Ht].
  unfold accept, mbind, ST_bind, assertTurn, gets, assertNext, modify, mret, ST_ret.
  rewrite Ht, tt_turn0, decide_True by done. rewrite tt_sequence0, Hseq.
  rewrite (proj2 (Z.leb_gt _ _)) by lia. cbv beta zeta. rewrite decide_True by lia.
  eexists. split; [done|]. split; cbn; [done|lia|].
  intros i e' He' Hi. destruct (decide (i = n)) as [->|Hne].
  - assert (e' = e) as -> by congruence. set_solver.
  - apply elem_of_union_r. apply (tt_ids0 i); [done|lia].
Qed.

Lemma accept_seen after n s i e :
  taken_to after n s -> log !! i = Some e -> (after <= i < n)%nat -> accept e s = (Ok false, s).
Proof.
  intros [] He Hi. destruct (Hlog _ _ He) as [Hseq Ht].
  unfold accept, mbind, ST_bind, assertTurn, gets. rewrite Ht, tt_turn0, decide_True by done.
  rewrite tt_sequence0, Hseq, (proj2 (Z.leb_le _ _)) by lia.
  unfold acceptDuplicateOrThrow. by rewrite (bool_decide_eq_true_2 _ (tt_ids0 i e He Hi)).
Qed.

Lemma accept_gap after n s i e :
  taken_to after n s -> log !! i = Some e -> (n < i)%nat ->
  accept e s = (Err (LifecycleContinuationError "lifecycle_sequence_gap"
    (Some (Z.of_nat n + 1)) (Some (Z.of_nat i + 1))), s).
Proof.
  intros [] He Hi. destruct (Hlog _ _ He) as [Hseq Ht].
  unfold accept, mbind, ST_bind, assertTurn, gets. rewrite Ht, tt_turn0, decide_True by done.
  rewrite tt_sequence0, Hseq, (proj2 (Z.leb_gt _ _)) by lia.
  unfold assertNext. by rewrite tt_sequence0, Hseq, decide_False by lia.
Qed.

Lemma created_taken after : taken_to after after (createLifecycleOrderingState t (Some (Z.of_nat after))).
Proof. split; [done|done|]. intros i e _ Hi. lia. Qed.

(** The positions a transport delivers: [highest n ps] is how far the consumer
    is after them, [None] when one was skipped. *)
Fixpoint highest (n : nat) (ps : list nat) : option nat :=
  match ps with
  | [] => Some n
  | p :: ps' =>
      if decide (p < n)%nat then highest n ps'
      else if decide (p = n) then highest (S n) ps'
      else None
  end.

Lemma consume_positions after n s ps ds :
  taken_to after n s -> Forall2 (fun p e => (after <= p)%nat /\ log !! p = Some e) ps ds ->
  exists m, let '(kept, s', failure) := consume ds s in
    kept = take (m - n) (drop n log) /\ (n <= m)%nat /\ taken_to after m s' /\
    match highest n ps with Some h => m = h /\ failure = None | None => is_Some failure end.
Proof.
  intros Hs Hds. revert n s Hs. induction Hds as [|p e ps ds [Hp He] Hds IH]; intros n s Hs.
  - exists n. cbn. by rewrite Nat.sub_diag.
  - cbn [consume highest]. case_decide as Hlt; [|case_decide as Heq].
    + rewrite (accept_seen after n s p e Hs He) by lia.
      destruct (IH n s Hs) as [m Hm]. exists m.
      by destruct (consume ds s) as [[kept s'] failure].
    + subst p. destruct (accept_next after n s e Hs He) as (s1 & -> & Hs1).
      destruct (IH (S n) s1 Hs1) as [m Hm]. exists m.
      destruct (consume ds s1) as [[kept s'] failure]. destruct Hm as (-> & Hle & Hs' & Hh).
      split_and!; [|lia|done|done]. rewrite (drop_S _ _ _ He).
      replace (m - n)%nat with (S (m - S n)) by lia. done.
    + rewrite (accept_gap after n s p e Hs He) by lia. exists n. rewrite Nat.sub_diag.
      by split_and!.
Qed.
End Log.

(** * Any deliveries *)

Section Deliveries.
(** The turn followed, and the sequence number it is resumed after *)
Variables (t : string) (after : Z).

(** [e] is a delivery of an event already among [kept]: it carries the id or the
    idempotency key of one. *)
Definition repeats (kept : list LifecycleEvent) (e : LifecycleEvent) : Prop :=
  exists e', e' ∈ kept /\ (eventId e = eventId e' \/ idempotencyKey e = idempotencyKey e').
(** Why a delivery is refused once [kept] was taken, and with which exception *)
Inductive refused (kept : list LifecycleEvent) (e : LifecycleEvent) : error -> Prop :=
  | other_turn :
      turnId e <> t ->
      refused kept e (LifecycleContinuationError "lifecycle_turn_mismatch" None (Some (sequence e)))
  | events_missing :
      turnId e = t -> after + Z.of_nat (length kept) + 1 < sequence e ->
      refused kept e (LifecycleContinuationError "lifecycle_sequence_gap"
        (Some (after + Z.of_nat (length kept) + 1)) (Some (sequence e)))
  | conflicting :
      turnId e = t -> sequence e <= after + Z.of_nat (length kept) -> ~ repeats kept e ->
      refused kept e (LifecycleContinuationError "lifecycle_sequence_regression"
        (Some (after + Z.of_nat (length kept) + 1)) (Some (sequence e))).
(** The consumer stops at a delivery it refuses, and only there. *)
Definition stops (kept rest : list LifecycleEvent) (failure : option error) : Prop :=
  match failure, rest with
  | None, [] => True
  | Some err, e :: _ => refused kept e err
  | _, _ => False
  end.

(** The state of a consumer that took [kept] *)
Record has_taken (kept : list LifecycleEvent) (s : LifecycleOrderingState) : Prop := {
  ht_turn : os_turnId s = t;
  ht_sequence : os_currentSequence s = after + Z.of_nat (length kept);
  ht_ids : os_eventIds s = list_to_set (map eventId kept);
  ht_keys : os_idempotencyKeys s = list_to_set (map idempotencyKey kept);
}.
Lemma created_has_taken : has_taken [] (createLifecycleOrderingState t (Some after)).
Proof. split; cbn; [done|lia|done|done]. Qed.

Lemma remembered_iff kept s e :
  has_taken kept s ->
  bool_decide (eventId e ∈ os_eventIds s) || bool_decide (idempotencyKey e ∈ os_idempotencyKeys s) = true <->
  repeats kept e.
Proof.
  intros []. rewrite orb_true_iff, !bool_decide_eq_true, ht_ids0, ht_keys0, !elem_of_list_to_set, !list_elem_of_fmap.
  unfold repeats. naive_solver.
Qed.
Lemma accept_cases kept s e :
  has_taken kept s ->
  let '(answer, s') := accept e s in
  match answer with
  | Ok true => turnId e = t /\ sequence e = after + Z.of_nat (length kept) + 1 /\ has_taken (kept ++ [e]) s'
  | Ok false => turnId e = t /\ repeats kept e /\ s' = s
  | Err err => refused kept e err /\ s' = s
  end.
Proof.
  intros Hs. pose proof (remembered_iff kept s e Hs) as Hseen. destruct Hs.
  unfold accept, mbind, ST_bind, assertTurn, gets, assertNext, modify, mret, ST_ret, acceptDuplicateOrThrow.
  rewrite ht_turn0. destruct (decide (turnId e = t)) as [Ht|Ht]; [|split; [by apply other_turn|done]].
  rewrite ht_sequence0.
  destruct (Z.leb_spec (sequence e) (after + Z.of_nat (length kept))) as [Hle|Hgt].
  - destruct (_ || _); [by split_and!; [| apply Hseen|]|].
    split; [|done]. rewrite ht_sequence0. apply conflicting; [done..|]. by rewrite <- Hseen.
  - cbv beta. rewrite ht_sequence0. destruct (decide (sequence e = _)) as [Hn|Hn];
      [|split; [apply events_missing; [done|lia]|done]]. split_and!; [done..|].
    split; cbn; [done|rewrite length_app; cbn; lia| |]; rewrite map_app, list_to_set_app_L; cbn; set_solver.
Qed.

(** What consuming [ds] from a state that took [before] keeps *)
Record consumed (before ds kept : list LifecycleEvent) (s : LifecycleOrderingState) (failure : option error)
    (passed rest : list LifecycleEvent) : Prop := {
  cs_split : ds = passed ++ rest;
  cs_kept : kept `sublist_of` passed;
  cs_numbers : forall i e, kept !! i = Some e ->
    turnId e = t /\ sequence e = after + Z.of_nat (length before) + Z.of_nat i + 1;
  cs_done : Forall (repeats (before ++ kept)) passed;
  cs_state : has_taken (before ++ kept) s;
  cs_stops : stops (before ++ kept) rest failure;
}.

Lemma repeats_app kept kept' e : repeats kept e -> repeats (kept ++ kept') e.
Proof. intros (e' & Hin & He). exists e'. split; [set_solver|done]. Qed.
Lemma repeats_self kept e : e ∈ kept -> repeats kept e.
Proof. intros Hin. exists e. auto. Qed.

Lemma consume_account ds before s :
  has_taken before s ->
  let '(kept, s', failure) := consume ds s in exists passed rest, consumed before ds kept s' failure passed rest.
Proof.
  revert before s. induction ds as [|e ds IH]; intros before s Hs.
  - exists [], []. split; cbn; rewrite ?app_nil_r; try done.
  - cbn [consume]. pose proof (accept_cases before s e Hs) as Ha. destruct (accept e s) as [[[]|err] s1].
    + destruct Ha as (Ht & Hn & Hs1). specialize (IH _ _ Hs1).
      destruct (consume ds s1) as [[kept s'] failure]. destruct IH as (passed & rest & []).
      exists (e :: passed), rest. rewrite <- app_assoc in *. cbn [app] in *. split; [by subst|by constructor| |..].
      * intros [|i] x Hx; [injection Hx as <-; split; [done|lia]|].
        destruct (cs_numbers0 i x Hx) as [? Hx']. split; [done|]. rewrite length_app in Hx'. cbn in Hx'. lia.
      * constructor; [apply repeats_self; set_solver|done].
      * done.
      * done.
    + destruct Ha as (Ht & Hseen & ->). specialize (IH _ _ Hs).
      destruct (consume ds s) as [[kept s'] failure]. destruct IH as (passed & rest & []).
      exists (e :: passed), rest. split; [by subst|by constructor|done| |done|done].
      constructor; [by apply repeats_app|done].
    + destruct Ha as [Hr ->]. exists [], (e :: ds). split; cbn; rewrite ?app_nil_r; done.
Qed.
End Deliveries.

(** * Properties *)

(** C23. A client sees each event of a turn once and in order, whatever the transport
    delivers.  Of any deliveries whatsoever, resumed after any position, [accept] takes
    events of the turn followed whose numbers go up by one from that position; the
    others it has let pass carry the id or the idempotency key of an event taken, and
    it stops with an exception exactly at the first delivery that belongs to another
    turn, leaves numbers out, or has a number already passed without repeating an event
    taken; the state says how far the client is.  When the deliveries are events at or
    after the position of a log numbered from 1, in any order and any number of times,
    what it takes is the stretch of the log from the position on, and there is no
    exception exactly when none of them skips an event. *)
Theorem deliveries_exactly_once t after ds :
  let '(kept, s, failure) := consume ds (createLifecycleOrderingState t (Some (Z.of_nat after))) in
  (exists passed rest, ds = passed ++ rest /\
    kept `sublist_of` passed /\ Forall (repeats kept) passed /\
    (forall i e, kept !! i = Some e -> turnId e = t /\ sequence e = Z.of_nat (after + i) + 1) /\
    os_currentSequence s = Z.of_nat (after + length kept) /\
    stops t (Z.of_nat after) kept rest failure) /\
  forall log ps,
    (forall i e, log !! i = Some e -> sequence e = Z.of_nat i + 1 /\ turnId e = t) ->
    Forall2 (fun p e => (after <= p)%nat /\ log !! p = Some e) ps ds ->
    exists m, kept = take (m - after) (drop after log) /\ (after <= m)%nat /\
      os_currentSequence s = Z.of_nat m /\
      (failure = None <-> highest after ps = Some m) /\
      (is_Some failure <-> highest after ps = None).
Proof.
  pose proof (consume_account t (Z.of_nat after) ds [] _ (created_has_taken t (Z.of_nat after))) as Ha.
  pose proof (fun log Hlog ps Hds =>
    consume_positions t log Hlog after after _ ps ds (created_taken t log after) Hds) as Hlog.
  destruct (consume ds _) as [[kept s] failure]. split.
  - destruct Ha as (passed & rest & []). exists passed, rest. split_and!; try done.
    + intros i e He. destruct (cs_numbers0 i e He) as [? Hn]. split; [done|]. cbn in Hn. lia.
    + destruct cs_state0 as [_ -> _ _]. cbn. lia.
  - intros log ps Hnum Hds. destruct (Hlog log Hnum ps Hds) as (m & -> & Hle & [_ Hseq _] & Hh). exists m.
    split_and!; [done..| |]; destruct (highest after ps) as [h|].
    + destruct Hh as [-> ->]. done.
    + destruct Hh as [err ->]. done.
    + destruct Hh as [-> ->]. split; [by intros []|done].
    + done.
Qed.

(** A reconnection that delivers two events again; and, after it, an event with a number
    already passed that is none of those taken. *)
Lemma deliveries_exactly_once_witness :
  let e n := demo_event n in
  let ds := [e 1 "turn.queued"; e 2 "turn.started"; e 1 "turn.queued"; e 2 "turn.started";
             e 3 "run_attempt.started"] in
  let '(kept, s, failure) := consume ds (createLifecycleOrderingState "trn_demo01" (Some 0)) in
  kept = demo_batch /\
  exists m, kept = take (m - 0) (drop 0 demo_batch) /\ (0 <= m)%nat /\
    os_currentSequence s = Z.of_nat m /\
    (failure = None <-> highest 0 [0; 1; 0; 1; 2]%nat = Some m) /\
    (is_Some failure <-> highest 0 [0; 1; 0; 1; 2]%nat = None).
Proof.
  intros e ds.
  assert (Hlog : forall i x, demo_batch !! i = Some x -> sequence x = Z.of_nat i + 1 /\ turnId x = "trn_demo01").
  { intros [|[|[|i]]] x Hx; cbn in Hx; try (injection Hx as <-; done). done. }
  assert (Hds : Forall2 (fun p x => (0 <= p)%nat /\ demo_batch !! p = Some x) [0; 1; 0; 1; 2]%nat ds).
  { repeat constructor. }
  destruct (deliveries_exactly_once "trn_demo01" 0 ds) as [_ Hc].
  split; [by vm_compute|exact (Hc demo_batch _ Hlog Hds)].
Defined.
