(* ===== verification/Admission.v ===== *)
(** Admission of runs, [apps/brain/src/runtime/RunAdmissionLimiter.ts]: fixed
    window rate limits and leases on concurrent runs, kept in the storage of a
    durable object.  The object serialises its requests ([withAdmissionLock]),
    so each handler is one step on the storage.  The storage holds JSON texts;
    here it holds the values they parse to. *)
From S2P Require Import Prelude Js Zod.
From Stdlib Require Import QArith_base Qround.
#[local] Open Scope Z_scope.

Notation Storage := (gmap string json).
Definition SM (A : Type) : Type := ST Storage Empty_set A.

Definition COUNTER_KEY_PREFIX : string := "launch:admission:v1:".
Definition CONCURRENCY_BUCKET_KEY_PREFIX : string := "launch:concurrency:bucket:v1:".
Definition CONCURRENCY_LEASE_KEY_PREFIX : string := "launch:concurrency:lease:v1:".

Record EnforceRequest : Type := mkEnforce {
  en_bucket : string;
  en_scopeKey : string;
  en_limit : Z;
  en_windowSeconds : Z;
}.

Record ConcurrencyConstraint : Type := mkConstraint {
  ct_bucket : string;
  ct_scopeKey : string;
  ct_limit : Z;
}.

Record AcquireConcurrencyRequest : Type := mkAcquire {
  aq_leaseId : string;
  aq_leaseTtlSeconds : Z;
  aq_constraints : list ConcurrencyConstraint;
}.

Record WindowCounterState : Type := mkCounter { wc_windowBucket : Z; wc_count : Z }.
Record ConcurrencyLeaseState : Type := mkLease { le_expiresAt : Q; le_bucketKeys : list string }.

Record EnforceResponse : Type := mkEnforceResponse {
  er_allowed : bool;
  er_retryAfterSeconds : Z;
}.

Record AcquireConcurrencyResponse : Type := mkAcquireResponse {
  ar_allowed : bool;
  ar_retryAfterSeconds : Z;
  ar_leaseId : option string;
  ar_blockedBucket : option string;
}.

Record PrunedLeaseIds : Type := mkPruned {
  pr_leaseIds : list string;
  pr_changed : bool;
  pr_nextExpiryMs : option Q;
}.

(** * The storage *)

Definition buildCounterKey (bucket scopeKey : string) : string :=
  COUNTER_KEY_PREFIX +:+ bucket +:+ ":" +:+ scopeKey.
Definition buildConcurrencyBucketKey (bucket scopeKey : string) : string :=
  CONCURRENCY_BUCKET_KEY_PREFIX +:+ bucket +:+ ":" +:+ scopeKey.
Definition buildLeaseKey (leaseId : string) : string :=
  CONCURRENCY_LEASE_KEY_PREFIX +:+ leaseId.

Definition storage_put (key : string) (value : json) : SM unit := modify (<[key := value]>).
Definition storage_delete (key : string) : SM unit := modify (base.delete key).

(** The non-empty strings of an array. *)
Definition nonempty_strings (l : list json) : list string :=
  omap (fun j => match j with
                 | JStr s => if decide (s = "") then None else Some s
                 | _ => None
                 end) l.

(** The readers, as functions of the storage. *)
Definition counter_at (key : string) (s : Storage) : option WindowCounterState :=
  match s !! key with
  | Some (JObj o) =>
      match dget "windowBucket" o, dget "count" o with
      | Some (JNum (NInt w)), Some (JNum (NInt c)) =>
          if (w <? 0) || (c <? 0) then None else Some (mkCounter w c)
      | _, _ => None
      end
  | _ => None
  end.

Definition bucket_at (key : string) (s : Storage) : list string :=
  match s !! key with
  | Some (JObj o) =>
      match dget "leaseIds" o with Some (JArr l) => nonempty_strings l | _ => [] end
  | _ => []
  end.

Definition lease_at (leaseId : string) (s : Storage) : option ConcurrencyLeaseState :=
  match s !! buildLeaseKey leaseId with
  | Some (JObj o) =>
      match dget "expiresAt" o, dget "bucketKeys" o with
      | Some (JNum n), Some (JArr l) => Some (mkLease (num_value n) (nonempty_strings l))
      | _, _ => None
      end
  | _ => None
  end.

Definition readCounter (key : string) : SM (option WindowCounterState) := gets (counter_at key).
Definition readConcurrencyBucketState (key : string) : SM (list string) := gets (bucket_at key).
Definition readLease (leaseId : string) : SM (option ConcurrencyLeaseState) :=
  gets (lease_at leaseId).

Definition writeCounter (key : string) (state : WindowCounterState) : SM unit :=
  storage_put key (JObj [("windowBucket", JNum (NInt (wc_windowBucket state)));
                         ("count", JNum (NInt (wc_count state)))]).

Definition writeConcurrencyBucketState (key : string) (leaseIds : list string) : SM unit :=
  if decide (leaseIds = []) then storage_delete key
  else storage_put key (JObj [("leaseIds", JArr (map JStr leaseIds))]).

Definition writeLease (leaseId : string) (expiresAt : Z) (bucketKeys : list string) : SM unit :=
  storage_put (buildLeaseKey leaseId)
    (JObj [("expiresAt", JNum (NInt expiresAt)); ("bucketKeys", JArr (map JStr bucketKeys))]).

(** * Rate limits *)

Definition ceil_seconds (remainingMs : Q) : Z := Qceiling (remainingMs / inject_Z 1000).

Definition computeRetryAfterSeconds (windowBucket windowMs now : Z) : Z :=
  let windowEnd := (windowBucket + 1) * windowMs in
  ceil_seconds (inject_Z (Z.max (windowEnd - now) 1000)).

Definition enforceLimit (now : Z) (payload : EnforceRequest) : SM EnforceResponse :=
  let windowMs := en_windowSeconds payload * 1000 in
  let activeWindow := now / windowMs in
  let key := buildCounterKey (en_bucket payload) (en_scopeKey payload) in
  current ← readCounter key;
  match current with
  | Some c =>
      if decide (wc_windowBucket c = activeWindow) then
        if en_limit payload <=? wc_count c then
          mret (mkEnforceResponse false (computeRetryAfterSeconds activeWindow windowMs now))
        else
          _ ← writeCounter key (mkCounter (wc_windowBucket c) (wc_count c + 1));
          mret (mkEnforceResponse true 0)
      else _ ← writeCounter key (mkCounter activeWindow 1); mret (mkEnforceResponse true 0)
  | None => _ ← writeCounter key (mkCounter activeWindow 1); mret (mkEnforceResponse true 0)
  end.

(** * Leases *)

Definition releaseLease (leaseId : string) : SM bool :=
  lease ← readLease leaseId;
  _ ← storage_delete (buildLeaseKey leaseId);
  match lease with
  | None => mret false
  | Some l =>
      _ ← for_of (le_bucketKeys l) (fun bucketKey =>
            leaseIds ← readConcurrencyBucketState bucketKey;
            if decide (leaseIds = []) then mret tt else
            let nextLeaseIds := filter (fun candidate => candidate <> leaseId) leaseIds in
            if decide (length nextLeaseIds <> length leaseIds)
            then writeConcurrencyBucketState bucketKey nextLeaseIds else mret tt);
      mret true
  end.

Definition releaseConcurrencyLease (leaseId : string) : SM bool := releaseLease leaseId.

(** [Array.from(new Set(ids))] *)
Fixpoint unique (seen ids : list string) : list string :=
  match ids with
  | [] => []
  | id :: ids' =>
      if decide (id ∈ seen) then unique seen ids' else id :: unique (id :: seen) ids'
  end.

Definition expired (now : Z) (l : ConcurrencyLeaseState) : bool :=
  Qle_bool (le_expiresAt l) (inject_Z now).

Definition earlier (a : option Q) (b : Q) : option Q :=
  match a with
  | Some q => if Qle_bool q b then Some q else Some b
  | None => Some b
  end.

(** The loop of [pruneLeaseIds] over the unique ids. *)
Fixpoint prune_loop (now : Z) (ids : list string) (acc : PrunedLeaseIds) : SM PrunedLeaseIds :=
  match ids with
  | [] => mret acc
  | id :: ids' =>
      lease ← readLease id;
      match lease with
      | None => prune_loop now ids' (mkPruned (pr_leaseIds acc) true (pr_nextExpiryMs acc))
      | Some l =>
          if expired now l then
            _ ← storage_delete (buildLeaseKey id);
            prune_loop now ids' (mkPruned (pr_leaseIds acc) true (pr_nextExpiryMs acc))
          else
            prune_loop now ids' (mkPruned (pr_leaseIds acc ++ [id]) (pr_changed acc)
              (earlier (pr_nextExpiryMs acc) (le_expiresAt l)))
      end
  end.

Definition pruneLeaseIds (leaseIds : list string) (now : Z) : SM PrunedLeaseIds :=
  let uniqueLeaseIds := unique [] leaseIds in
  prune_loop now uniqueLeaseIds
    (mkPruned [] (negb (length uniqueLeaseIds =? length leaseIds)%nat) None).

Definition createAllowedConcurrencyResponse (leaseId : string) : AcquireConcurrencyResponse :=
  mkAcquireResponse true 0 (Some leaseId) None.

Definition computeRetryAfterSecondsFromExpiry (nextExpiryMs : option Q) (now : Z) : Z :=
  match nextExpiryMs with
  | None => 1
  | Some next =>
      let remaining := (next - inject_Z now)%Q in
      ceil_seconds (if Qle_bool remaining (inject_Z 1000) then inject_Z 1000 else remaining)
  end.

Definition checkExistingLease (leaseId : string) (now : Z)
    : SM (option AcquireConcurrencyResponse) :=
  existingLease ← readLease leaseId;
  match existingLease with
  | None => mret None
  | Some l =>
      if expired now l then _ ← releaseLease leaseId; mret None
      else mret (Some (createAllowedConcurrencyResponse leaseId))
  end.

Definition constraint_key (c : ConcurrencyConstraint) : string :=
  buildConcurrencyBucketKey (ct_bucket c) (ct_scopeKey c).

Definition resolveConcurrencyBucketKeys (payload : AcquireConcurrencyRequest) : list string :=
  map constraint_key (aq_constraints payload).

Fixpoint checkConcurrencyConstraints (constraints : list ConcurrencyConstraint) (now : Z)
    : SM (option AcquireConcurrencyResponse) :=
  match constraints with
  | [] => mret None
  | c :: constraints' =>
      let bucketKey := constraint_key c in
      leaseIds ← readConcurrencyBucketState bucketKey;
      pruned ← pruneLeaseIds leaseIds now;
      _ ← (if pr_changed pruned then writeConcurrencyBucketState bucketKey (pr_leaseIds pruned)
           else mret tt);
      if ct_limit c <=? Z.of_nat (length (pr_leaseIds pruned)) then
        mret (Some (mkAcquireResponse false
          (computeRetryAfterSecondsFromExpiry (pr_nextExpiryMs pruned) now) None
          (Some (ct_bucket c))))
      else checkConcurrencyConstraints constraints' now
  end.

Definition persistConcurrencyLease (payload : AcquireConcurrencyRequest)
    (bucketKeys : list string) (now : Z) : SM unit :=
  let leaseTtlMs := aq_leaseTtlSeconds payload * 1000 in
  _ ← writeLease (aq_leaseId payload) (now + leaseTtlMs) bucketKeys;
  for_of bucketKeys (fun bucketKey =>
    leaseIds ← readConcurrencyBucketState bucketKey;
    if decide (aq_leaseId payload ∈ leaseIds) then mret tt
    else writeConcurrencyBucketState bucketKey (leaseIds ++ [aq_leaseId payload])).

Definition acquireConcurrencyLease (now : Z) (payload : AcquireConcurrencyRequest)
    : SM AcquireConcurrencyResponse :=
  idempotentResult ← checkExistingLease (aq_leaseId payload) now;
  match idempotentResult with
  | Some r => mret r
  | None =>
      let bucketKeys := resolveConcurrencyBucketKeys payload in
      blockedResult ← checkConcurrencyConstraints (aq_constraints payload) now;
      match blockedResult with
      | Some r => mret r
      | None =>
          _ ← persistConcurrencyLease payload bucketKeys now;
          mret (createAllowedConcurrencyResponse (aq_leaseId payload))
      end
  end.

(** * Requests *)

(** [z.number().int().positive()] *)
Definition positive_int (j : option json) : option Z :=
  match j with Some (JNum (NInt z)) => if 0 <? z then Some z else None | _ => None end.
(** [z.string().min(1).max(hi)] *)
Definition bounded_string (hi : Z) (j : option json) : option string :=
  match j with
  | Some (JStr s) => if (1 <=? str_length s) && (str_length s <=? hi) then Some s else None
  | _ => None
  end.
Definition enum_string (values : list string) (j : option json) : option string :=
  match j with Some (JStr s) => if decide (s ∈ values) then Some s else None | _ => None end.

Definition EnforceRequestSchema (j : json) : option EnforceRequest :=
  match j with
  | JObj o =>
      bucket ← enum_string ["run_submission"; "mutation_run_submission"] (dget "bucket" o);
      scopeKey ← bounded_string 512 (dget "scopeKey" o);
      limit ← positive_int (dget "limit" o);
      windowSeconds ← positive_int (dget "windowSeconds" o);
      Some (mkEnforce bucket scopeKey limit windowSeconds)
  | _ => None
  end.

Definition ConcurrencyConstraintSchema (j : json) : option ConcurrencyConstraint :=
  match j with
  | JObj o =>
      bucket ← enum_string ["concurrent_expensive_run_session"; "concurrent_expensive_run_user";
                            "concurrent_expensive_run_workspace"; "cloudflare_sandbox_capacity"]
                 (dget "bucket" o);
      scopeKey ← bounded_string 256 (dget "scopeKey" o);
      limit ← positive_int (dget "limit" o);
      Some (mkConstraint bucket scopeKey limit)
  | _ => None
  end.

Definition AcquireConcurrencyRequestSchema (j : json) : option AcquireConcurrencyRequest :=
  match j with
  | JObj o =>
      leaseId ← bounded_string 256 (dget "leaseId" o);
      ttl ← positive_int (dget "leaseTtlSeconds" o);
      constraints ← (match dget "constraints" o with
                     | Some (JArr l) => if decide (l = []) then None else mapM ConcurrencyConstraintSchema l
                     | _ => None
                     end);
      Some (mkAcquire leaseId ttl constraints)
  | _ => None
  end.

Definition ReleaseConcurrencyRequestSchema (j : json) : option string :=
  match j with JObj o => bounded_string 256 (dget "leaseId" o) | _ => None end.

(** What the handler answers, by status and body. *)
Inductive Response : Type :=
| enforce_result (r : EnforceResponse)
| acquire_result (r : AcquireConcurrencyResponse)
| release_result (released : bool)
| status_405 | status_404 | status_400.

Record Request : Type := mkRequest {
  rq_method : string;
  rq_pathname : string;
  (** [None]: the body is not JSON, and reading it throws a [SyntaxError]. *)
  rq_body : option json;
}.

Definition fetch (now : Z) (request : Request) : SM Response :=
  if negb (bool_decide (rq_method request = "POST")) then mret status_405
  else if decide (rq_pathname request = "/enforce") then
    match rq_body request ≫= EnforceRequestSchema with
    | Some payload => r ← enforceLimit now payload; mret (enforce_result r)
    | None => mret status_400
    end
  else if decide (rq_pathname request = "/acquire-concurrency") then
    match rq_body request ≫= AcquireConcurrencyRequestSchema with
    | Some payload => r ← acquireConcurrencyLease now payload; mret (acquire_result r)
    | None => mret status_400
    end
  else if decide (rq_pathname request = "/release-concurrency") then
    match rq_body request ≫= ReleaseConcurrencyRequestSchema with
    | Some leaseId => r ← releaseConcurrencyLease leaseId; mret (release_result r)
    | None => mret status_400
    end
  else mret status_404.

(** The requests in the order the lock lets them in, each with its time. *)
Fixpoint serve (requests : list (Z * Request)) (s : Storage) : list Response * Storage :=
  match requests with
  | [] => ([], s)
  | (now, request) :: rest =>
      match fetch now request s with
      | (Ok r, s') => let '(rs, s'') := serve rest s' in (r :: rs, s'')
      | (Err impossible, _) => match impossible with end
      end
  end.
