(* ===== verification/AdmissionProps.v ===== *)
(** Properties of run admission: the concurrency limits hold at every moment,
    leases are idempotent and can be given back, and a window admits exactly
    its limit. *)
From S2P Require Import Prelude Js Zod Admission.
From Stdlib Require Import QArith_base.
#[local] Open Scope Z_scope.

(** * Keys *)

Definition is_bucket_key (k : string) : Prop := exists k', k = CONCURRENCY_BUCKET_KEY_PREFIX +:+ k'.

Lemma constraint_key_bucket c : is_bucket_key (constraint_key c).
Proof. by eexists. Qed.

Lemma bucket_key_nonempty k : is_bucket_key k -> k <> "".
Proof. by intros [k' ->]. Qed.

Lemma lease_bucket_ne id k : is_bucket_key k -> buildLeaseKey id <> k.
Proof. by intros [k' ->]. Qed.

Lemma lease_counter_ne id b sc : buildLeaseKey id <> buildCounterKey b sc.
Proof. done. Qed.

Lemma bucket_counter_ne k b sc : is_bucket_key k -> k <> buildCounterKey b sc.
Proof. by intros [k' ->]. Qed.

Lemma buildLeaseKey_inj id id' : buildLeaseKey id = buildLeaseKey id' -> id = id'.
Proof. apply append_inj_l. Qed.

(** * Reading what was written *)

Lemma nonempty_strings_map l : Forall (fun s => s <> "") l -> nonempty_strings (map JStr l) = l.
Proof.
  induction 1 as [|x l Hx _ IH]; [done|]. unfold nonempty_strings in *. cbn.
  rewrite decide_False by done. by rewrite IH.
Qed.

Lemma nonempty_strings_ok l : Forall (fun s => s <> "") (nonempty_strings l).
Proof.
  unfold nonempty_strings. apply Forall_forall. intros s Hs.
  apply list_elem_of_omap in Hs as (j & _ & Hj). destruct j; try done. by case_decide; simplify_eq.
Qed.

Lemma bucket_at_nonempty k s : Forall (fun id => id <> "") (bucket_at k s).
Proof.
  unfold bucket_at. repeat (case_match; try constructor). apply nonempty_strings_ok.
Qed.

Lemma lease_keys_nonempty id s l : lease_at id s = Some l -> Forall (fun k => k <> "") (le_bucketKeys l).
Proof.
  unfold lease_at. repeat case_match; try done. intros [= <-]. apply nonempty_strings_ok.
Qed.

(** The effects of the writers, seen by the readers. *)
Lemma writeBucket_spec k ids s :
  is_bucket_key k -> Forall (fun id => id <> "") ids ->
  exists s', writeConcurrencyBucketState k ids s = (Ok tt, s') /\
    bucket_at k s' = ids /\ (forall k', k' <> k -> bucket_at k' s' = bucket_at k' s) /\
    (forall id, lease_at id s' = lease_at id s).
Proof.
  intros Hk Hids. unfold writeConcurrencyBucketState.
  case_decide as Hnil; eexists; (split; [reflexivity|]); cbv beta; split_and!.
  - unfold bucket_at. by rewrite lookup_delete_eq, Hnil.
  - intros k' Hne. unfold bucket_at. by rewrite lookup_delete_ne.
  - intros id. unfold lease_at. rewrite lookup_delete_ne; [done|]. intros Heq. by eapply lease_bucket_ne.
  - unfold bucket_at. rewrite lookup_insert_eq. cbn. by apply nonempty_strings_map.
  - intros k' Hne. unfold bucket_at. by rewrite lookup_insert_ne.
  - intros id. unfold lease_at. rewrite lookup_insert_ne; [done|]. intros Heq. by eapply lease_bucket_ne.
Qed.

Lemma lease_at_write id e keys s :
  Forall (fun k => k <> "") keys ->
  exists s', writeLease id e keys s = (Ok tt, s') /\
    lease_at id s' = Some (mkLease (inject_Z e) keys) /\
    (forall id', id' <> id -> lease_at id' s' = lease_at id' s) /\
    forall k, is_bucket_key k -> bucket_at k s' = bucket_at k s.
Proof.
  intros Hkeys. unfold writeLease. eexists. split; [reflexivity|]. cbv beta. split_and!.
  - unfold lease_at. rewrite lookup_insert_eq. simpl. by rewrite nonempty_strings_map.
  - intros id' Hne. unfold lease_at. rewrite lookup_insert_ne; [done|].
    intros Heq%buildLeaseKey_inj. by apply Hne.
  - intros k Hk. unfold bucket_at. rewrite lookup_insert_ne; [done|]. by apply lease_bucket_ne.
Qed.

Lemma lease_at_delete id s :
  let s' := base.delete (buildLeaseKey id) s in
  lease_at id s' = None /\ (forall id', id' <> id -> lease_at id' s' = lease_at id' s) /\
  forall k, is_bucket_key k -> bucket_at k s' = bucket_at k s.
Proof.
  cbv zeta. split_and!.
  - unfold lease_at. by rewrite lookup_delete_eq.
  - intros id' Hne. unfold lease_at. rewrite lookup_delete_ne; [done|].
    intros Heq%buildLeaseKey_inj. by apply Hne.
  - intros k Hk. unfold bucket_at. rewrite lookup_delete_ne; [done|]. by apply lease_bucket_ne.
Qed.

(** * The invariant *)

(** A lease is listed in every bucket it counts in. *)
Definition listed (s : Storage) : Prop :=
  forall id l, lease_at id s = Some l ->
    id <> "" /\ forall k, k ∈ le_bucketKeys l -> is_bucket_key k /\ id ∈ bucket_at k s.

(** The run [id] holds a place in the bucket [k] at [now]. *)
Definition active (now : Z) (k : string) (s : Storage) (id : string) : Prop :=
  exists l, lease_at id s = Some l /\ expired now l = false /\ k ∈ le_bucketKeys l.

(** No more than [n] runs do. *)
Definition at_most (n : Z) (now : Z) (k : string) (s : Storage) : Prop :=
  forall ids, NoDup ids -> Forall (active now k s) ids -> Z.of_nat (length ids) <= n.

(** [s'] has the leases of [s], less some, and its buckets are no longer. *)
Record shrinks (s s' : Storage) : Prop := {
  sh_listed : listed s';
  sh_leases : forall id l, lease_at id s' = Some l -> lease_at id s = Some l;
  sh_buckets : forall k, is_bucket_key k -> (length (bucket_at k s') <= length (bucket_at k s))%nat;
}.

Lemma shrinks_refl s : listed s -> shrinks s s.
Proof. by split. Qed.

Lemma shrinks_trans s1 s2 s3 : shrinks s1 s2 -> shrinks s2 s3 -> shrinks s1 s3.
Proof.
  intros [] []. split; [done|auto|]. intros k Hk. etransitivity; [by apply sh_buckets1|auto].
Qed.

Lemma shrinks_active s s' now k id : shrinks s s' -> active now k s' id -> active now k s id.
Proof. intros [] (l & Hl & He & Hk). exists l. auto. Qed.

Lemma at_most_shrinks n now k s s' : shrinks s s' -> at_most n now k s -> at_most n now k s'.
Proof.
  intros Hsh Hn ids Hnd Hids. apply Hn; [done|]. eapply Forall_impl; [exact Hids|].
  intros id. by apply shrinks_active.
Qed.

Lemma expired_later now now' l : now <= now' -> expired now' l = false -> expired now l = false.
Proof.
  unfold expired. intros Hle He. destruct (Qle_bool (le_expiresAt l) (inject_Z now)) eqn:Hq; [|done].
  apply Qle_bool_iff in Hq. assert (Hq' : Qle_bool (le_expiresAt l) (inject_Z now') = true); [|congruence].
  apply Qle_bool_iff. eapply Qle_trans; [exact Hq|]. by rewrite <- Zle_Qle.
Qed.

Lemma at_most_later n now now' k s : now <= now' -> at_most n now k s -> at_most n now' k s.
Proof.
  intros Hle Hn ids Hnd Hids. apply Hn; [done|]. eapply Forall_impl; [exact Hids|].
  intros id (l & Hl & He & Hk). exists l. eauto using expired_later.
Qed.

(** The bucket lists every active lease, so its length bounds their number. *)
Lemma bucket_bounds now k s :
  listed s -> at_most (Z.of_nat (length (bucket_at k s))) now k s.
Proof.
  intros Hs ids Hnd Hids. apply Nat2Z.inj_le, submseteq_length, NoDup_submseteq; [done|].
  intros id Hin. rewrite Forall_forall in Hids. destruct (Hids id Hin) as (l & Hl & _ & Hk).
  by apply (Hs id l Hl).
Qed.

(** * Pruning *)

(** [s'] is [s] without some leases that had expired. *)
Record dropped (now : Z) (s s' : Storage) : Prop := {
  dr_buckets : forall k, is_bucket_key k -> bucket_at k s' = bucket_at k s;
  dr_leases : forall id, lease_at id s' = lease_at id s \/
    lease_at id s' = None /\ exists l, lease_at id s = Some l /\ expired now l = true;
}.

Lemma dropped_refl now s : dropped now s s.
Proof. by split; [|by left]. Qed.

Lemma dropped_trans now s1 s2 s3 : dropped now s1 s2 -> dropped now s2 s3 -> dropped now s1 s3.
Proof.
  intros [B1 L1] [B2 L2]. split; [intros k Hk; by rewrite B2, B1|]. intros id.
  destruct (L2 id) as [->|[H2 (l & Hl & He)]]; [apply L1|]. right. split; [done|].
  exists l. split; [|done]. destruct (L1 id) as [<-|[H1 _]]; [done|congruence].
Qed.

Lemma dropped_kept now s s' id l :
  dropped now s s' -> lease_at id s' = Some l -> lease_at id s = Some l.
Proof. intros [_ HL] Hl. destruct (HL id) as [<-|[Hn _]]; [done|congruence]. Qed.

(** What pruning [ids] into [acc] from [s] yields. *)
Record pruned (now : Z) (ids : list string) (acc : PrunedLeaseIds) (s : Storage)
    (r : PrunedLeaseIds) (s' : Storage) : Prop := {
  pn_dropped : dropped now s s';
  pn_ids : forall id, id ∈ pr_leaseIds r <->
    id ∈ pr_leaseIds acc \/ id ∈ ids /\ is_Some (lease_at id s');
  pn_live : forall id l, id ∈ ids -> lease_at id s' = Some l -> expired now l = false;
  pn_length : (length (pr_leaseIds r) <= length (pr_leaseIds acc) + length ids)%nat;
  pn_changed : pr_changed r = false ->
    pr_changed acc = false /\ pr_leaseIds r = pr_leaseIds acc ++ ids;
}.

(** An id whose lease is gone, and one whose lease stays. *)
Lemma pruned_gone now id ids acc next s s1 r s' :
  dropped now s s1 -> lease_at id s1 = None ->
  pruned now ids (mkPruned (pr_leaseIds acc) true next) s1 r s' ->
  pruned now (id :: ids) acc s r s'.
Proof.
  intros Hs1 Hid [Hdr Hin Hexp Hlen Hch]. cbn in *.
  assert (Hnone : lease_at id s' = None).
  { destruct (lease_at id s') eqn:Hs'; [|done]. apply (dropped_kept _ _ _ _ _ Hdr) in Hs'. congruence. }
  split.
  - by eapply dropped_trans.
  - intros id'. rewrite Hin, elem_of_cons. split; [tauto|]. intros [?|[[->|?] Hsome]]; auto.
    rewrite Hnone in Hsome. by destruct Hsome.
  - intros id' l' Hid' Hl'. apply elem_of_cons in Hid' as [->|Hid']; [congruence|eauto].
  - cbn. lia.
  - intros Hf. by apply Hch in Hf as [? _].
Qed.

Lemma pruned_kept now id ids acc next s r s' l :
  lease_at id s = Some l -> expired now l = false ->
  pruned now ids (mkPruned (pr_leaseIds acc ++ [id]) (pr_changed acc) next) s r s' ->
  pruned now (id :: ids) acc s r s'.
Proof.
  intros Hl He [Hdr Hin Hexp Hlen Hch]. cbn in *.
  assert (Hsome : lease_at id s' = Some l).
  { destruct Hdr as [_ HL]. destruct (HL id) as [->|[_ (l' & Hl' & He')]]; [done|congruence]. }
  split; [done| | | |].
  - intros id'. rewrite Hin, elem_of_app, list_elem_of_singleton, elem_of_cons. split; [|tauto].
    intros [[?|Heq]|?]; [tauto| |tauto]. subst id'. right. split; [by left|]. by rewrite Hsome.
  - intros id' l' Hid' Hl'. apply elem_of_cons in Hid' as [->|Hid']; [congruence|eauto].
  - rewrite length_app in Hlen. cbn in *. lia.
  - intros Hf. apply Hch in Hf as [? ->]. by rewrite <- app_assoc.
Qed.

Lemma prune_loop_spec now ids acc s :
  exists r s', prune_loop now ids acc s = (Ok r, s') /\ pruned now ids acc s r s'.
Proof.
  revert acc s. induction ids as [|id ids IH]; intros acc s.
  - exists acc, s. split; [done|]. split; [apply dropped_refl|set_solver|set_solver|cbn; lia|].
    by rewrite app_nil_r.
  - cbn [prune_loop]. unfold mbind, ST_bind, readLease, gets.
    destruct (lease_at id s) as [l|] eqn:Hl; [destruct (expired now l) eqn:He|].
    + unfold storage_delete, modify. destruct (lease_at_delete id s) as (Hd & Hother & Hb).
      edestruct IH as (r & s' & Hr & Hpr). exists r, s'. split; [exact Hr|].
      eapply pruned_gone; [|exact Hd|exact Hpr]. split; [exact Hb|]. intros id'.
      destruct (decide (id' = id)) as [->|Hne]; [right; eauto|left; auto].
    + edestruct IH as (r & s' & Hr & Hpr). exists r, s'. split; [exact Hr|]. by eapply pruned_kept.
    + edestruct IH as (r & s' & Hr & Hpr). exists r, s'. split; [exact Hr|].
      eapply pruned_gone; [apply dropped_refl|exact Hl|exact Hpr].
Qed.

Lemma unique_spec seen ids :
  (forall id, id ∈ unique seen ids <-> id ∈ ids /\ id ∉ seen) /\
  (length (unique seen ids) <= length ids)%nat /\
  (length (unique seen ids) = length ids -> unique seen ids = ids).
Proof.
  revert seen. induction ids as [|id ids IH]; intros seen; cbn.
  - split_and!; [set_solver|lia|done].
  - case_decide as Hs.
    + destruct (IH seen) as (Hin & Hlen & Heq). split_and!; [|lia|lia].
      intros id'. rewrite Hin. set_solver.
    + destruct (IH (id :: seen)) as (Hin & Hlen & Heq). split_and!; [|cbn; lia|].
      * intros id'. rewrite !elem_of_cons, Hin, not_elem_of_cons.
        destruct (decide (id' = id)) as [->|]; naive_solver.
      * cbn. intros He. f_equal. apply Heq. lia.
Qed.

(** * Each handler *)

Lemma prune_bucket now k s :
  is_bucket_key k -> listed s ->
  exists r s1 s2, pruneLeaseIds (bucket_at k s) now s = (Ok r, s1) /\
    (if pr_changed r then writeConcurrencyBucketState k (pr_leaseIds r) else mret tt) s1 = (Ok tt, s2) /\
    shrinks s s2 /\ bucket_at k s2 = pr_leaseIds r.
Proof.
  intros Hk Hs. unfold pruneLeaseIds. set (ids := bucket_at k s).
  destruct (unique_spec [] ids) as (Huin & Hulen & Hueq).
  destruct (prune_loop_spec now (unique [] ids)
    (mkPruned [] (negb (length (unique [] ids) =? length ids)%nat) None) s)
    as (r & s1 & Hr & [[Hb Hl] Hin Hlive Hlen Hch]). cbn in Hin, Hlen, Hch.
  assert (Hw : exists s2,
    (if pr_changed r then writeConcurrencyBucketState k (pr_leaseIds r) else mret tt) s1 = (Ok tt, s2) /\
    bucket_at k s2 = pr_leaseIds r /\ (forall k', is_bucket_key k' -> k' <> k -> bucket_at k' s2 = bucket_at k' s1) /\
    forall id, lease_at id s2 = lease_at id s1).
  { destruct (pr_changed r) eqn:Hc.
    - destruct (writeBucket_spec k (pr_leaseIds r) s1 Hk) as (s2 & ? & ? & ? & ?); [|eauto 10].
      apply Forall_forall. intros id [?|[Hid _]]%Hin; [set_solver|]. apply Huin in Hid as [Hid _].
      pose proof (bucket_at_nonempty k s) as Hne. rewrite Forall_forall in Hne. by apply Hne.
    - exists s1. split_and!; try done. destruct (Hch eq_refl) as [Heq ->].
      apply negb_false_iff, Nat.eqb_eq, Hueq in Heq. cbn. rewrite Heq. by apply Hb. }
  destruct Hw as (s2 & Hw & Hbk & Hbo & Hls). exists r, s1, s2. split_and!; [done|done| |done].
  assert (Hkeep : forall id l, lease_at id s2 = Some l -> lease_at id s1 = Some l /\ lease_at id s = Some l).
  { intros id l Hid. rewrite Hls in Hid. split; [done|]. by eapply (dropped_kept now s s1). }
  split.
  - intros id l Hid. destruct (Hkeep id l Hid) as [Hid1 Hid0]. destruct (Hs id l Hid0) as [Hne Hkeys].
    split; [done|]. intros k' Hk'. destruct (Hkeys k' Hk') as [Hbk' Hin']. split; [done|].
    destruct (decide (k' = k)) as [->|Hne']; [|by rewrite Hbo, Hb].
    rewrite Hbk. apply Hin. right. split; [apply Huin; set_solver|by rewrite Hid1].
  - intros id l Hid. by apply Hkeep.
  - intros k' Hk'. destruct (decide (k' = k)) as [->|Hne']; [rewrite Hbk; fold ids; lia|].
    by rewrite Hbo, Hb.
Qed.

Lemma check_spec now cs s :
  listed s ->
  exists r s', checkConcurrencyConstraints cs now s = (Ok r, s') /\ shrinks s s' /\
    match r with
    | None => Forall (fun c => Z.of_nat (length (bucket_at (constraint_key c) s')) < ct_limit c) cs
    | Some resp => ar_allowed resp = false
    end.
Proof.
  revert s. induction cs as [|c cs IH]; intros s Hs.
  - exists None, s. split; [done|]. split; [by apply shrinks_refl|constructor].
  - cbn [checkConcurrencyConstraints]. unfold mbind, ST_bind, readConcurrencyBucketState, gets.
    destruct (prune_bucket now (constraint_key c) s (constraint_key_bucket c) Hs)
      as (r & s1 & s2 & -> & Hw & Hsh & Hb). rewrite Hw.
    destruct (ct_limit c <=? Z.of_nat (length (pr_leaseIds r))) eqn:Hlim.
    + eexists _, s2. split; [reflexivity|]. by split.
    + destruct (IH s2 (sh_listed _ _ Hsh)) as (r' & s' & Hr & Hsh' & Hpost).
      exists r', s'. split; [exact Hr|]. split; [by eapply shrinks_trans|].
      destruct r'; [done|]. constructor; [|done]. apply Z.leb_gt in Hlim. rewrite <- Hb in Hlim.
      pose proof (sh_buckets _ _ Hsh' _ (constraint_key_bucket c)). lia.
Qed.

Lemma release_loop id keys s :
  Forall is_bucket_key keys ->
  exists s', for_of keys (fun bucketKey =>
      leaseIds ← readConcurrencyBucketState bucketKey;
      if decide (leaseIds = []) then mret tt else
      if decide (length (filter (fun candidate => candidate <> id) leaseIds) <> length leaseIds)
      then writeConcurrencyBucketState bucketKey
        (filter (fun candidate => candidate <> id) leaseIds)
      else mret tt) s = (Ok tt, s') /\
    (forall id', lease_at id' s' = lease_at id' s) /\
    forall k, is_bucket_key k -> (length (bucket_at k s') <= length (bucket_at k s))%nat /\
      forall x, x <> id -> x ∈ bucket_at k s -> x ∈ bucket_at k s'.
Proof.
  intros Hkeys. revert s. induction Hkeys as [|k keys Hk _ IH]; intros s.
  - exists s. split_and!; try done.
  - cbn [for_of]. unfold mbind at 1, ST_bind at 1. unfold mbind at 1, ST_bind at 1.
    unfold readConcurrencyBucketState at 1, gets at 1. set (ids := bucket_at k s).
    set (next := filter (fun candidate => candidate <> id) ids).
    assert (Hstep : exists s1, (if decide (ids = []) then mret tt else
        if decide (length next <> length ids) then writeConcurrencyBucketState k next else mret tt) s
        = (Ok tt, s1) /\ (forall id', lease_at id' s1 = lease_at id' s) /\
      forall k, is_bucket_key k -> (length (bucket_at k s1) <= length (bucket_at k s))%nat /\
        forall x, x <> id -> x ∈ bucket_at k s -> x ∈ bucket_at k s1).
    { case_decide; [by exists s|]. case_decide; [|by exists s].
      destruct (writeBucket_spec k next s Hk) as (s1 & Hw & Hb & Ho & Hl).
      { unfold next. apply Forall_forall. intros x [_ Hx]%list_elem_of_filter.
        pose proof (bucket_at_nonempty k s) as Hne. rewrite Forall_forall in Hne. by apply Hne. }
      exists s1. split_and!; [done|done|]. intros k' Hk'. destruct (decide (k' = k)) as [->|]; [|by rewrite Ho].
      rewrite Hb. unfold next. split; [apply length_filter|]. intros x Hx Hin. by apply list_elem_of_filter. }
    destruct Hstep as (s1 & -> & Hl1 & Hb1). destruct (IH s1) as (s' & Hr & Hl & Hb).
    exists s'. split; [exact Hr|]. split; [intros id'; by rewrite Hl|].
    intros k' Hk'. destruct (Hb k' Hk') as [Hlen Hin]. destruct (Hb1 k' Hk') as [Hlen1 Hin1].
    split; [lia|auto].
Qed.

Lemma release_spec id s :
  listed s ->
  exists s', releaseLease id s = (Ok (is_some (lease_at id s)), s') /\ shrinks s s' /\ lease_at id s' = None.
Proof.
  intros Hs. unfold releaseLease, mbind at 1, ST_bind at 1. unfold readLease, gets.
  unfold mbind at 1, ST_bind at 1, storage_delete at 1, modify.
  destruct (lease_at_delete id s) as (Hd & Ho & Hb). set (s1 := base.delete (buildLeaseKey id) s) in *.
  assert (Hend : forall s', (forall id', lease_at id' s' = lease_at id' s1) ->
    (forall k, is_bucket_key k -> (length (bucket_at k s') <= length (bucket_at k s1))%nat /\
       forall x, x <> id -> x ∈ bucket_at k s1 -> x ∈ bucket_at k s') ->
    shrinks s s' /\ lease_at id s' = None).
  { intros s' Hl Hk. assert (Hsome : forall id' l, lease_at id' s' = Some l -> id' <> id /\ lease_at id' s = Some l).
    { intros id' l Hid'. rewrite Hl in Hid'. destruct (decide (id' = id)) as [->|]; [congruence|].
      rewrite Ho in Hid' by done. done. }
    split; [|by rewrite Hl]. split.
    - intros id' l Hid'. apply Hsome in Hid' as [Hne Hid']. destruct (Hs id' l Hid') as [? Hkeys].
      split; [done|]. intros k Hin. destruct (Hkeys k Hin) as [Hbk Hin']. split; [done|].
      apply (Hk k Hbk); [done|]. by rewrite Hb.
    - intros id' l Hid'. by apply Hsome in Hid' as [_ ?].
    - intros k Hbk. rewrite <- (Hb k Hbk). by apply Hk. }
  destruct (lease_at id s) as [l|] eqn:Hl.
  - destruct (release_loop id (le_bucketKeys l) s1) as (s' & Hr & Hls & Hbs).
    { apply Forall_forall. intros k Hk. by apply (Hs id l Hl). }
    exists s'. split; [|by apply Hend]. unfold mbind at 1, ST_bind at 1. by rewrite Hr.
  - exists s1. split; [done|]. apply Hend; [done|]. by intros k Hk.
Qed.

Lemma persist_loop id keys s :
  id <> "" -> Forall is_bucket_key keys ->
  exists s', for_of keys (fun bucketKey =>
      leaseIds ← readConcurrencyBucketState bucketKey;
      if decide (id ∈ leaseIds) then mret tt
      else writeConcurrencyBucketState bucketKey (leaseIds ++ [id])) s = (Ok tt, s') /\
    (forall id', lease_at id' s' = lease_at id' s) /\
    (forall k, is_bucket_key k -> bucket_at k s' = bucket_at k s \/
       id ∉ bucket_at k s /\ bucket_at k s' = bucket_at k s ++ [id]) /\
    forall k, k ∈ keys -> id ∈ bucket_at k s'.
Proof.
  intros Hid Hkeys. revert s. induction Hkeys as [|k keys Hk _ IH]; intros s.
  - exists s. split_and!; [done|done|by left|set_solver].
  - cbn [for_of]. unfold mbind at 1, ST_bind at 1. unfold mbind at 1, ST_bind at 1.
    unfold readConcurrencyBucketState at 1, gets at 1.
    assert (Hstep : exists s1, (if decide (id ∈ bucket_at k s) then mret tt
        else writeConcurrencyBucketState k (bucket_at k s ++ [id])) s = (Ok tt, s1) /\
      (forall id', lease_at id' s1 = lease_at id' s) /\ id ∈ bucket_at k s1 /\
      forall k, is_bucket_key k -> bucket_at k s1 = bucket_at k s \/
        id ∉ bucket_at k s /\ bucket_at k s1 = bucket_at k s ++ [id]).
    { case_decide; [by exists s; auto 10|].
      destruct (writeBucket_spec k (bucket_at k s ++ [id]) s Hk) as (s1 & Hw & Hb & Ho & Hl).
      { apply Forall_app. split; [apply bucket_at_nonempty|by constructor]. }
      exists s1. split_and!; [done|done|rewrite Hb; set_solver|]. intros k' Hk'.
      destruct (decide (k' = k)) as [->|]; [by right|left; auto]. }
    destruct Hstep as (s1 & -> & Hl1 & Hin1 & Hb1). destruct (IH s1) as (s' & Hr & Hl & Hb & Hin).
    exists s'. split; [exact Hr|]. split_and!.
    + intros id'. by rewrite Hl.
    + intros k' Hk'. destruct (Hb k' Hk') as [->|[Hn ->]]; [by apply Hb1|].
      destruct (Hb1 k' Hk') as [Heq|[_ Heq]]; rewrite Heq in *; [by right|set_solver].
    + intros k' [->|Hk']%elem_of_cons; [|by apply Hin].
      destruct (Hb k Hk) as [->|[_ ->]]; set_solver.
Qed.

Lemma keys_are_buckets payload : Forall is_bucket_key (resolveConcurrencyBucketKeys payload).
Proof.
  apply Forall_forall. intros k Hk. unfold resolveConcurrencyBucketKeys in Hk.
  change (map constraint_key ?l) with (constraint_key <$> l) in Hk.
  apply list_elem_of_fmap in Hk as (c & -> & _). apply constraint_key_bucket.
Qed.

Lemma persist_spec payload now s :
  aq_leaseId payload <> "" -> listed s -> lease_at (aq_leaseId payload) s = None ->
  let keys := resolveConcurrencyBucketKeys payload in
  exists s', persistConcurrencyLease payload keys now s = (Ok tt, s') /\ listed s' /\
    lease_at (aq_leaseId payload) s' =
      Some (mkLease (inject_Z (now + aq_leaseTtlSeconds payload * 1000)) keys) /\
    (forall id, id <> aq_leaseId payload -> lease_at id s' = lease_at id s) /\
    forall k, is_bucket_key k -> (length (bucket_at k s') <= S (length (bucket_at k s)))%nat.
Proof.
  intros Hid Hs Hnone keys. set (id := aq_leaseId payload) in *.
  pose proof (keys_are_buckets payload) as Hkeys.
  destruct (lease_at_write id (now + aq_leaseTtlSeconds payload * 1000) keys s)
    as (s1 & Hw & Hl1 & Ho1 & Hb1).
  { eapply Forall_impl; [exact Hkeys|]. apply bucket_key_nonempty. }
  destruct (persist_loop id keys s1 Hid Hkeys) as (s' & Hr & Hl & Hb & Hin).
  exists s'. split; [|split_and!].
  - unfold persistConcurrencyLease, mbind at 1, ST_bind at 1. fold id. by rewrite Hw.
  - intros id' l Hid'. rewrite Hl in Hid'. destruct (decide (id' = id)) as [->|Hne].
    + rewrite Hl1 in Hid'. injection Hid' as <-. split; [done|]. cbn. intros k Hk.
      split; [by rewrite Forall_forall in Hkeys; apply Hkeys|by apply Hin].
    + rewrite Ho1 in Hid' by done. destruct (Hs id' l Hid') as [? Hk]. split; [done|].
      intros k Hink. destruct (Hk k Hink) as [Hbk Hin']. split; [done|].
      destruct (Hb k Hbk) as [->|[_ ->]]; rewrite Hb1 by done; set_solver.
  - by rewrite Hl.
  - intros id' Hne. by rewrite Hl, Ho1.
  - intros k Hk. rewrite <- (Hb1 k Hk). destruct (Hb k Hk) as [->|[_ ->]]; [lia|].
    rewrite length_app. cbn. lia.
Qed.

(** The request asks for the limits everybody asks for. *)
Definition consistent (limits : string -> nat) (payload : AcquireConcurrencyRequest) : Prop :=
  aq_leaseId payload <> "" /\
  Forall (fun c => ct_limit c = Z.of_nat (limits (constraint_key c))) (aq_constraints payload).

Lemma acquire_spec limits now payload s :
  listed s -> consistent limits payload ->
  (forall k, at_most (Z.of_nat (limits k)) now k s) ->
  exists r s', acquireConcurrencyLease now payload s = (Ok r, s') /\ listed s' /\
    forall k, at_most (Z.of_nat (limits k)) now k s'.
Proof.
  intros Hs [Hid Hlim] Hmost. unfold acquireConcurrencyLease, mbind at 1, ST_bind at 1.
  assert (Hex : exists r s1, checkExistingLease (aq_leaseId payload) now s = (Ok r, s1) /\
    shrinks s s1 /\ (r = None -> lease_at (aq_leaseId payload) s1 = None)).
  { unfold checkExistingLease, mbind, ST_bind, readLease, gets.
    destruct (lease_at (aq_leaseId payload) s) as [l|] eqn:Hl; [destruct (expired now l)|].
    - destruct (release_spec (aq_leaseId payload) s Hs) as (s1 & -> & Hsh & Hn). by exists None, s1.
    - eexists _, s. split; [done|]. split; [by apply shrinks_refl|done].
    - exists None, s. split; [done|]. split; [by apply shrinks_refl|done]. }
  destruct Hex as (r & s1 & -> & Hsh1 & Hnone).
  destruct r as [resp|]; [exists resp, s1; split; [done|]; split; [apply Hsh1|];
    intros k; by eapply at_most_shrinks|].
  unfold mbind at 1, ST_bind at 1.
  destruct (check_spec now (aq_constraints payload) s1 (sh_listed _ _ Hsh1)) as (r & s2 & -> & Hsh2 & Hpost).
  pose proof (shrinks_trans _ _ _ Hsh1 Hsh2) as Hsh.
  destruct r as [resp|]; [exists resp, s2; split; [done|]; split; [apply Hsh|];
    intros k; by eapply at_most_shrinks|].
  assert (Hnone2 : lease_at (aq_leaseId payload) s2 = None).
  { destruct (lease_at (aq_leaseId payload) s2) eqn:Hl; [|done].
    apply (sh_leases _ _ Hsh2) in Hl. rewrite (Hnone eq_refl) in Hl. done. }
  destruct (persist_spec payload now s2 Hid (sh_listed _ _ Hsh) Hnone2)
    as (s' & Hp & Hs' & Hl & Ho & Hb). eexists _, s'. split; [|split; [done|]].
  { unfold mbind, ST_bind. by rewrite Hp. }
  intros k. destruct (decide (k ∈ resolveConcurrencyBucketKeys payload)) as [Hk|Hk].
  - pose proof (keys_are_buckets payload) as Hbk. rewrite Forall_forall in Hbk.
    unfold resolveConcurrencyBucketKeys in Hk. change (map constraint_key ?l) with (constraint_key <$> l) in Hk.
    apply list_elem_of_fmap in Hk as (c & -> & Hc). rewrite Forall_forall in Hpost, Hlim.
    specialize (Hpost c Hc). rewrite (Hlim c Hc) in Hpost.
    intros ids Hnd Hids. pose proof (bucket_bounds now _ s' Hs' ids Hnd Hids).
    pose proof (Hb _ (constraint_key_bucket c)). lia.
  - intros ids Hnd Hids. apply (at_most_shrinks _ now k s s2 Hsh (Hmost k)); [done|].
    eapply Forall_impl; [exact Hids|]. intros id (l & Hl' & He & Hkl). exists l. split_and!; [|done|done].
    destruct (decide (id = aq_leaseId payload)) as [->|Hne]; [|by rewrite <- Ho].
    rewrite Hl in Hl'. injection Hl' as <-. done.
Qed.

Lemma counter_at_write b sc w c s :
  0 <= w -> 0 <= c ->
  exists s', writeCounter (buildCounterKey b sc) (mkCounter w c) s = (Ok tt, s') /\
    counter_at (buildCounterKey b sc) s' = Some (mkCounter w c) /\
    (forall id, lease_at id s' = lease_at id s) /\
    forall k, is_bucket_key k -> bucket_at k s' = bucket_at k s.
Proof.
  intros Hw Hc. unfold writeCounter. eexists. split; [reflexivity|]. cbv beta. split_and!.
  - unfold counter_at. rewrite lookup_insert_eq. simpl.
    by rewrite (proj2 (Z.ltb_ge _ _)), (proj2 (Z.ltb_ge _ _)).
  - intros id. unfold lease_at. by rewrite lookup_insert_ne.
  - intros k Hk. unfold bucket_at. rewrite lookup_insert_ne; [done|].
    intros Heq. by eapply (bucket_counter_ne k b sc).
Qed.

(** Leases and buckets untouched. *)
Definition same_leases (s s' : Storage) : Prop :=
  (forall id, lease_at id s' = lease_at id s) /\ forall k, is_bucket_key k -> bucket_at k s' = bucket_at k s.

Lemma same_leases_shrinks s s' : listed s -> same_leases s s' -> shrinks s s'.
Proof.
  intros Hs [Hl Hb]. split.
  - intros id l Hid. rewrite Hl in Hid. destruct (Hs id l Hid) as [? Hk]. split; [done|].
    intros k Hin. destruct (Hk k Hin) as [Hbk ?]. by rewrite Hb.
  - intros id l. by rewrite Hl.
  - intros k Hk. by rewrite Hb.
Qed.

Lemma putCounter_same b sc v s : same_leases s (<[buildCounterKey b sc := v]> s).
Proof.
  split.
  - intros id. unfold lease_at. by rewrite lookup_insert_ne.
  - intros k Hk. unfold bucket_at. rewrite lookup_insert_ne; [done|].
    intros Heq. by eapply (bucket_counter_ne k b sc).
Qed.

Lemma enforce_same now payload s :
  exists r s', enforceLimit now payload s = (Ok r, s') /\ same_leases s s'.
Proof.
  unfold enforceLimit, mbind, ST_bind, readCounter, gets, writeCounter, storage_put, modify, mret, ST_ret.
  pose proof (putCounter_same (en_bucket payload) (en_scopeKey payload)) as Hput.
  repeat case_match; simplify_eq; eexists _, _; (split; [reflexivity|]); try apply Hput; by split.
Qed.

(** * Histories *)

Definition respects (limits : string -> nat) (request : Request) : Prop :=
  forall payload, rq_body request ≫= AcquireConcurrencyRequestSchema = Some payload ->
    Forall (fun c => ct_limit c = Z.of_nat (limits (constraint_key c))) (aq_constraints payload).

(** Times do not go back. *)
Fixpoint ordered (t : Z) (requests : list (Z * Request)) : Prop :=
  match requests with [] => True | (now, _) :: rest => t <= now /\ ordered now rest end.
Fixpoint end_time (t : Z) (requests : list (Z * Request)) : Z :=
  match requests with [] => t | (now, _) :: rest => end_time now rest end.

Lemma acquire_schema_id j payload :
  AcquireConcurrencyRequestSchema j = Some payload -> aq_leaseId payload <> "".
Proof.
  unfold AcquireConcurrencyRequestSchema. destruct j as [| | | | |o]; try done. intros Hp.
  apply bind_Some in Hp as (id & Hid & Hp). apply bind_Some in Hp as (ttl & _ & Hp).
  apply bind_Some in Hp as (cs & _ & [= <-]). cbn. intros ->.
  unfold bounded_string in Hid. by repeat case_match; simplify_eq.
Qed.

Definition within (limits : string -> nat) (now : Z) (s : Storage) : Prop :=
  listed s /\ forall k, at_most (Z.of_nat (limits k)) now k s.

Lemma within_shrinks limits now s s' : within limits now s -> shrinks s s' -> within limits now s'.
Proof. intros [Hs Hm] Hsh. split; [apply Hsh|]. intros k. by eapply at_most_shrinks. Qed.

Lemma fetch_within limits now request s :
  within limits now s -> respects limits request ->
  exists r s', fetch now request s = (Ok r, s') /\ within limits now s'.
Proof.
  intros Hw Hr. pose proof Hw as [Hs Hm]. unfold fetch.
  destruct (negb _); [by eexists _, s|]. case_decide; [|case_decide; [|case_decide; [|by eexists _, s]]].
  - destruct (rq_body request ≫= EnforceRequestSchema) as [payload|]; [|by eexists _, s].
    destruct (enforce_same now payload s) as (r & s' & He & Hsame). unfold mbind, ST_bind.
    rewrite He. eexists _, s'. split; [done|]. by eapply within_shrinks, same_leases_shrinks.
  - destruct (rq_body request ≫= AcquireConcurrencyRequestSchema) as [payload|] eqn:Hp; [|by eexists _, s].
    pose proof (Hr payload Hp) as Hlim. apply bind_Some in Hp as (j & _ & Hid%acquire_schema_id).
    destruct (acquire_spec limits now payload s Hs (conj Hid Hlim) Hm) as (r & s' & Ha & Hw').
    unfold mbind, ST_bind. rewrite Ha. by eexists _, s'.
  - destruct (rq_body request ≫= ReleaseConcurrencyRequestSchema) as [id|]; [|by eexists _, s].
    destruct (release_spec id s Hs) as (s' & He & Hsh & _). unfold releaseConcurrencyLease, mbind, ST_bind.
    rewrite He. eexists _, s'. split; [done|]. by eapply within_shrinks.
Qed.

Lemma serve_within limits requests t s :
  ordered t requests -> Forall (fun r => respects limits (snd r)) requests -> within limits t s ->
  within limits (end_time t requests) (snd (serve requests s)).
Proof.
  revert t s. induction requests as [|[now request] rest IH]; intros t s Ho Hr Hw; [done|].
  destruct Ho as [Hle Ho]. apply Forall_cons in Hr as [Hr Hrest]. cbn in Hr.
  assert (Hw' : within limits now s).
  { destruct Hw as [Hs Hm]. split; [done|]. intros k. by eapply at_most_later. }
  destruct (fetch_within limits now request s Hw' Hr) as (r & s' & Hf & Hw'').
  cbn [serve end_time]. rewrite Hf. specialize (IH now s' Ho Hrest Hw''). by destruct (serve rest s').
Qed.

Lemma empty_within limits t : within limits t ∅.
Proof.
  assert (Hn : forall id, lease_at id (∅ : Storage) = None) by by intros id; unfold lease_at; rewrite lookup_empty.
  split; [intros id l; by rewrite Hn|]. intros k [|id ids] _ Hids; [cbn; lia|].
  apply Forall_cons in Hids as [(l & Hl & _) _]. by rewrite Hn in Hl.
Qed.

(** Rate limit requests at the given times, and how many were let in. *)
Fixpoint enforce_all (times : list Z) (payload : EnforceRequest) (s : Storage) : nat :=
  match times with
  | [] => 0
  | now :: rest =>
      match enforceLimit now payload s with
      | (Ok r, s') => (if er_allowed r then S else id) (enforce_all rest payload s')
      | (Err impossible, _) => match impossible with end
      end
  end.

Lemma enforce_counts w payload c times s :
  let key := buildCounterKey (en_bucket payload) (en_scopeKey payload) in
  counter_at key s = Some (mkCounter w c) -> 0 <= w -> 0 <= c ->
  Forall (fun now => now / (en_windowSeconds payload * 1000) = w) times ->
  Z.of_nat (enforce_all times payload s) = Z.min (Z.of_nat (length times)) (Z.max 0 (en_limit payload - c)).
Proof.
  intros key Hc Hw Hnn Htimes. revert c s Hc Hnn. induction Htimes as [|now times Hnow _ IH]; intros c s Hc Hnn.
  - cbn. lia.
  - cbn [enforce_all length]. unfold enforceLimit, mbind at 1, ST_bind at 1, readCounter, gets.
    fold key. rewrite Hc. cbn [wc_windowBucket wc_count]. rewrite decide_True by done.
    destruct (en_limit payload <=? c) eqn:Hl.
    + apply Z.leb_le in Hl. cbn [mret ST_ret er_allowed id]. rewrite (IH c s Hc Hnn). lia.
    + apply Z.leb_gt in Hl. unfold mbind at 1, ST_bind at 1.
      destruct (counter_at_write (en_bucket payload) (en_scopeKey payload) w (c + 1) s)
        as (s' & Hwr & Hc' & _); [done|lia|]. fold key in Hwr, Hc'. rewrite Hwr.
      cbn [mret ST_ret er_allowed]. rewrite Nat2Z.inj_succ, (IH (c + 1) s' Hc') by lia. lia.
Qed.

(** * Properties *)

(** C24. The concurrency limits hold at every moment: whatever requests a limiter
    has served, in any order and with any leases lost, released, expired or
    acquired again, if every acquisition asks for the same limit of a bucket then
    at no later time do more runs hold an unexpired lease on a bucket than its
    limit. *)
Theorem concurrency_limits_hold limits requests now k ids :
  ordered 0 requests -> Forall (fun r => respects limits (snd r)) requests ->
  end_time 0 requests <= now -> NoDup ids ->
  Forall (active now k (snd (serve requests ∅))) ids -> (length ids <= limits k)%nat.
Proof.
  intros Ho Hr Hnow Hnd Hids.
  pose proof (serve_within limits requests 0 ∅ Ho Hr (empty_within limits 0)) as [_ Hm].
  apply Nat2Z.inj_le. by apply (at_most_later _ _ _ _ _ Hnow (Hm k) ids Hnd).
Qed.

Definition demo_key : string := buildConcurrencyBucketKey "concurrent_expensive_run_user" "user:u1".

Definition acquire_request (id : string) : Request :=
  mkRequest "POST" "/acquire-concurrency" (Some (JObj
    [("leaseId", JStr id); ("leaseTtlSeconds", JNum (NInt 900));
     ("constraints", JArr [JObj [("bucket", JStr "concurrent_expensive_run_user");
        ("scopeKey", JStr "user:u1"); ("limit", JNum (NInt 2))]])])).
Definition release_request (id : string) : Request :=
  mkRequest "POST" "/release-concurrency" (Some (JObj [("leaseId", JStr id)])).

(** Three runs of a user with two places: the third is let in when one is back. *)
Definition demo_requests : list (Z * Request) :=
  [(1000, acquire_request "run_a"); (2000, acquire_request "run_b"); (3000, acquire_request "run_c");
   (4000, release_request "run_a"); (5000, acquire_request "run_c")].

Lemma concurrency_limits_hold_witness :
  map (fun r => match r with acquire_result r => ar_allowed r | _ => true end)
    (fst (serve demo_requests ∅)) = [true; true; false; true; true] /\
  (length ["run_b"; "run_c"] <= 2)%nat.
Proof.
  split; [by vm_compute|].
  apply (concurrency_limits_hold (fun _ => 2%nat) demo_requests 6000 demo_key).
  - vm_compute. repeat split; discriminate.
  - repeat constructor; intros payload Hp; vm_compute in Hp; try discriminate Hp; injection Hp as <-; repeat constructor.
  - by vm_compute.
  - by apply (bool_decide_unpack _).
  - repeat constructor; eexists; (split; [vm_compute; reflexivity|]); (split; [by vm_compute|]);
      by apply (bool_decide_unpack _); vm_compute.
Defined.

(** A lease lasts until it expires or is given back: a run let in for the
    first time counts in each bucket it asked for until the time to live is over;
    asking again meanwhile is answered the same and changes nothing; and once
    released the run counts nowhere. *)
Theorem lease_lifecycle now payload s resp s' :
  listed s -> aq_leaseId payload <> "" -> lease_at (aq_leaseId payload) s = None ->
  acquireConcurrencyLease now payload s = (Ok resp, s') -> ar_allowed resp = true ->
  (forall t, t < now + aq_leaseTtlSeconds payload * 1000 ->
     Forall (fun c => active t (constraint_key c) s' (aq_leaseId payload)) (aq_constraints payload) /\
     acquireConcurrencyLease t payload s' = (Ok resp, s')) /\
  exists s'', releaseConcurrencyLease (aq_leaseId payload) s' = (Ok true, s'') /\
    forall t k, ~ active t k s'' (aq_leaseId payload).
Proof.
  intros Hs Hid Hnone Hacq Hallow. unfold acquireConcurrencyLease in Hacq.
  unfold mbind at 1, ST_bind at 1, checkExistingLease in Hacq.
  unfold mbind at 1, ST_bind at 1, readLease, gets in Hacq. rewrite Hnone in Hacq. cbn [mret ST_ret] in Hacq.
  unfold mbind at 1, ST_bind at 1 in Hacq.
  destruct (check_spec now (aq_constraints payload) s Hs) as (r & s2 & Hc & Hsh & Hpost).
  rewrite Hc in Hacq. destruct r as [r|]; [injection Hacq as -> ->; congruence|].
  assert (Hnone2 : lease_at (aq_leaseId payload) s2 = None).
  { destruct (lease_at (aq_leaseId payload) s2) eqn:Hl; [|done]. apply (sh_leases _ _ Hsh) in Hl. congruence. }
  destruct (persist_spec payload now s2 Hid (sh_listed _ _ Hsh) Hnone2) as (s3 & Hp & Hs3 & Hl & _).
  unfold mbind, ST_bind in Hacq. rewrite Hp in Hacq. injection Hacq as <- <-. split.
  - intros t Ht. assert (He : expired t (mkLease (inject_Z (now + aq_leaseTtlSeconds payload * 1000))
        (resolveConcurrencyBucketKeys payload)) = false).
    { unfold expired. cbn [le_expiresAt]. destruct (Qle_bool _ _) eqn:Hq; [|done].
      apply Qle_bool_iff in Hq. rewrite <- Zle_Qle in Hq. lia. }
    split.
    + apply Forall_forall. intros c Hc'. eexists. split; [exact Hl|]. split; [exact He|]. cbn.
      by apply (list_elem_of_fmap_2 constraint_key).
    + unfold acquireConcurrencyLease, checkExistingLease, mbind, ST_bind, readLease, gets.
      cbv beta. rewrite Hl. cbv beta iota. by rewrite He.
  - destruct (release_spec (aq_leaseId payload) s3 Hs3) as (s4 & Hr & _ & Hn). exists s4.
    unfold releaseConcurrencyLease. rewrite Hr, Hl. split; [done|].
    intros t k (l & Hl' & _). congruence.
Qed.

Definition demo_acquire : AcquireConcurrencyRequest :=
  mkAcquire "run_a" 900 [mkConstraint "concurrent_expensive_run_user" "user:u1" 2].

Lemma lease_lifecycle_witness :
  exists resp s', acquireConcurrencyLease 1000 demo_acquire ∅ = (Ok resp, s') /\ ar_allowed resp = true /\
  (forall t, t < 901000 ->
     Forall (fun c => active t (constraint_key c) s' "run_a") (aq_constraints demo_acquire) /\
     acquireConcurrencyLease t demo_acquire s' = (Ok resp, s')) /\
  exists s'', releaseConcurrencyLease "run_a" s' = (Ok true, s'') /\
    forall t k, ~ active t k s'' "run_a".
Proof.
  destruct (acquireConcurrencyLease 1000 demo_acquire ∅) as [[resp|[]] s'] eqn:Ha.
  assert (Hallow : ar_allowed resp = true) by (vm_compute in Ha; by injection Ha as <- _).
  exists resp, s'. split; [done|]. split; [done|].
  apply (lease_lifecycle 1000 demo_acquire ∅ resp s'); [apply (empty_within (fun _ => 0%nat) 0)|done|done|exact Ha|done].
Defined.

(** A rate limit window admits exactly its limit: of the requests that reach a
    fresh window, the first [limit] are let in and the others refused. *)
Theorem window_admits_limit payload w times s :
  let key := buildCounterKey (en_bucket payload) (en_scopeKey payload) in
  0 <= w -> 1 <= en_limit payload ->
  match counter_at key s with Some c => wc_windowBucket c <> w | None => True end ->
  Forall (fun now => now / (en_windowSeconds payload * 1000) = w) times ->
  Z.of_nat (enforce_all times payload s) = Z.min (Z.of_nat (length times)) (en_limit payload).
Proof.
  intros key Hw Hlim Hfresh Htimes. destruct Htimes as [|now times Hnow Htimes]; [cbn; lia|].
  cbn [enforce_all length].
  destruct (counter_at_write (en_bucket payload) (en_scopeKey payload) w 1 s) as (s' & Hwr & Hc & _); [done|lia|].
  assert (Hstep : enforceLimit now payload s = (Ok (mkEnforceResponse true 0), s')).
  { unfold enforceLimit, mbind, ST_bind, readCounter, gets. fold key. rewrite Hnow. fold key in Hwr.
    destruct (counter_at key s) as [c|]; [rewrite decide_False by done|]; by rewrite Hwr. }
  rewrite Hstep. cbn [er_allowed].
  rewrite Nat2Z.inj_succ, (enforce_counts w payload 1 times s' Hc) by (done || lia). lia.
Qed.

Lemma window_admits_limit_witness :
  let payload := mkEnforce "run_submission" "user:u1" 2 600 in
  Z.of_nat (enforce_all [5; 10; 15] payload ∅) = 2.
Proof.
  intros payload. rewrite (window_admits_limit payload 0 [5; 10; 15] ∅); [done|done|done|done|].
  repeat constructor.
Defined.
