(* ===== verification/Permission.v ===== *)
(** The permission policy of [packages/permission-policy/src]: wildcard
    patterns (patterns.ts), the schemas of policies and requests (types.ts) and
    the evaluation of a request (evaluate.ts).  The URL parser of the host is
    the class [UrlParser]. *)
From S2P Require Import Prelude Js Zod.
From Stdlib Require Import Ascii.
#[local] Open Scope Z_scope.

(** * patterns.ts *)

(** The four local variables of [matchesWildcardPattern]. *)
Record MatchState : Type := mkMatch {
  patternIndex : nat;
  valueIndex : nat;
  starIndex : Z;
  starValueIndex : Z;
}.

Definition is_char (c : ascii) (token : option ascii) : bool :=
  match token with Some d => Ascii.eqb c d | None => false end.

(** One round of the first loop, run while [valueIndex < value.length]; [None]
    is the early return of [false]. *)
Definition match_step (pattern : string) (c : ascii) (st : MatchState) : option MatchState :=
  let token := String.get (patternIndex st) pattern in
  if is_char "?" token || is_char c token then
    Some (mkMatch (S (patternIndex st)) (S (valueIndex st)) (starIndex st) (starValueIndex st))
  else if is_char "*" token then
    Some (mkMatch (S (patternIndex st)) (valueIndex st) (Z.of_nat (patternIndex st))
            (Z.of_nat (valueIndex st)))
  else if 0 <=? starIndex st then
    Some (mkMatch (Z.to_nat (starIndex st + 1)) (Z.to_nat (starValueIndex st + 1))
            (starIndex st) (starValueIndex st + 1))
  else None.

(** The second loop, [while (pattern[patternIndex] === "*") patternIndex += 1]. *)
Fixpoint skip_stars (fuel : nat) (pattern : string) (i : nat) : nat :=
  match fuel with
  | O => i
  | S fuel' =>
      if is_char "*" (String.get i pattern) then skip_stars fuel' pattern (S i) else i
  end.

(** [None] when the fuel runs out. *)
Fixpoint match_loop (fuel : nat) (pattern value : string) (st : MatchState) : option bool :=
  match fuel with
  | O => None
  | S fuel' =>
      match String.get (valueIndex st) value with
      | Some c =>
          match match_step pattern c st with
          | Some st' => match_loop fuel' pattern value st'
          | None => Some false
          end
      | None =>
          Some (skip_stars (String.length pattern) pattern (patternIndex st)
                =? String.length pattern)%nat
      end
  end.

(** Every round advances the star, or the value position it retries from, or
    the position in the value. *)
Definition match_fuel (pattern value : string) : nat :=
  let p := S (S (String.length pattern)) in
  let v := S (S (String.length value)) in
  S (p * (v * v)).

Definition match_start : MatchState := mkMatch 0 0 (-1) (-1).

Definition matchesWildcardPattern (pattern value : string) : bool :=
  default false (match_loop (match_fuel pattern value) pattern value match_start).

(** The searches of evaluate.ts and patterns.ts: the last rule that matches. *)
Definition find_last {A} (matches : A -> bool) (rules : list A) : option A :=
  foldl (fun matched rule => if matches rule then Some rule else matched) None rules.

(** [subject.replaceAll("\\", "/").replace(/^\.\//u, "")] *)
Definition normalizePolicySubject (subject : string) : string :=
  strip_start "./" (replaceAll (ascii_of_nat 92) "/" subject).

(** * types.ts *)

Inductive PermissionEffect : Type := allow | ask | deny.
Inductive PermissionRiskLevel : Type := low | medium | high | critical.
Inductive PolicyDomain : Type :=
| d_command | d_path | d_network | d_git | d_package_manager | d_secret
| d_external_service | d_tool.
#[export] Instance PermissionEffect_eq_dec : EqDecision PermissionEffect.
Proof. solve_decision. Defined.
#[export] Instance PermissionRiskLevel_eq_dec : EqDecision PermissionRiskLevel.
Proof. solve_decision. Defined.

Definition PermissionEffect_str (e : PermissionEffect) : string :=
  match e with allow => "allow" | ask => "ask" | deny => "deny" end.
Definition PermissionRiskLevel_str (r : PermissionRiskLevel) : string :=
  match r with low => "low" | medium => "medium" | high => "high" | critical => "critical" end.
Definition PolicyDomain_str (d : PolicyDomain) : string :=
  match d with
  | d_command => "command" | d_path => "path" | d_network => "network" | d_git => "git"
  | d_package_manager => "package_manager" | d_secret => "secret"
  | d_external_service => "external_service" | d_tool => "tool"
  end.

Definition all_effects : list PermissionEffect := [allow; ask; deny].
Definition all_risks : list PermissionRiskLevel := [low; medium; high; critical].

Record PermissionRule : Type := mkRule {
  pr_id : string;
  pr_pattern : string;
  pr_effect : PermissionEffect;
  pr_reason : option string;
  pr_riskLevel : option PermissionRiskLevel;
  pr_approvalPrompt : option string;
}.

Record RuleSetPolicy : Type := mkRuleSet {
  rs_defaultEffect : PermissionEffect;
  rs_defaultRiskLevel : PermissionRiskLevel;
  rs_rules : list PermissionRule;
}.

Record PermissionPolicy : Type := mkPolicy {
  commands : RuleSetPolicy;
  paths : RuleSetPolicy;
  network : RuleSetPolicy;
  git : RuleSetPolicy;
  packageManagers : RuleSetPolicy;
  secrets : RuleSetPolicy;
  externalServices : RuleSetPolicy;
  tools : RuleSetPolicy;
}.

Inductive PermissionRequest : Type :=
| rq_command (command : string)
| rq_path (path operation : string)
| rq_network (url operation : string)
| rq_git (operation : string)
| rq_package_manager (manager operation : string)
| rq_secret (secretRef operation : string)
| rq_external_service (service operation : string)
| rq_tool (toolName : string) (action : option string).

Definition PermissionEffectSchema : zod := z_enum (map PermissionEffect_str all_effects).
Definition PermissionRiskLevelSchema : zod := z_enum (map PermissionRiskLevel_str all_risks).

Definition PermissionRuleSchema : zod := z_object
  [req "id" (z_string 1 160); req "pattern" (z_string 1 2000);
   req "effect" PermissionEffectSchema; opt "reason" (z_string 1 2000);
   opt "riskLevel" PermissionRiskLevelSchema; opt "approvalPrompt" (z_string 1 2000)].

(** [z.array(schema)] *)
Definition z_array (z : zod) : zod := fun j =>
  match j with JArr l => JArr <$> mapM z l | _ => None end.

Definition RuleSetPolicySchema : zod := z_object
  [req "defaultEffect" PermissionEffectSchema;
   req "defaultRiskLevel" PermissionRiskLevelSchema;
   req "rules" (z_array PermissionRuleSchema)].

Definition policy_fields : list string :=
  ["commands"; "paths"; "network"; "git"; "packageManagers"; "secrets";
   "externalServices"; "tools"].
Definition PermissionPolicySchema : zod :=
  z_object (map (fun k => req k RuleSetPolicySchema) policy_fields).

Definition SubjectSchema : zod := z_string 1 4000.

Definition tagged (tag : string) (shape : list field) : string * zod :=
  (tag, z_object (req "domain" (z_enum [tag]) :: shape)).
Definition PermissionRequestSchema : zod := z_tagged_union "domain"
  [tagged "command" [req "command" SubjectSchema];
   tagged "path" [req "path" SubjectSchema;
                  req "operation" (z_enum ["read"; "write"; "delete"; "list"])];
   tagged "network" [req "url" SubjectSchema; req "operation" (z_enum ["connect"; "fetch"])];
   tagged "git" [req "operation" SubjectSchema];
   tagged "package_manager" [req "manager" SubjectSchema; req "operation" SubjectSchema];
   tagged "secret" [req "secretRef" SubjectSchema;
                    req "operation" (z_enum ["read"; "write"; "use"; "reveal"])];
   tagged "external_service" [req "service" SubjectSchema; req "operation" SubjectSchema];
   tagged "tool" [req "toolName" SubjectSchema; opt "action" SubjectSchema]].

(** The records a parsed value stands for. *)
Definition PermissionEffect_of_json (j : json) : option PermissionEffect :=
  match j with
  | JStr s => find_last (fun e => String.eqb (PermissionEffect_str e) s) all_effects
  | _ => None
  end.
Definition PermissionRiskLevel_of_json (j : json) : option PermissionRiskLevel :=
  match j with
  | JStr s => find_last (fun r => String.eqb (PermissionRiskLevel_str r) s) all_risks
  | _ => None
  end.
Definition str_of_json (j : json) : option string :=
  match j with JStr s => Some s | _ => None end.

Definition rule_of_json (j : json) : option PermissionRule :=
  match j with
  | JObj o =>
      id ← dget "id" o ≫= str_of_json;
      pattern ← dget "pattern" o ≫= str_of_json;
      effect ← dget "effect" o ≫= PermissionEffect_of_json;
      Some (mkRule id pattern effect (dget "reason" o ≫= str_of_json)
              (dget "riskLevel" o ≫= PermissionRiskLevel_of_json)
              (dget "approvalPrompt" o ≫= str_of_json))
  | _ => None
  end.

Definition ruleset_of_json (j : json) : option RuleSetPolicy :=
  match j with
  | JObj o =>
      effect ← dget "defaultEffect" o ≫= PermissionEffect_of_json;
      risk ← dget "defaultRiskLevel" o ≫= PermissionRiskLevel_of_json;
      match dget "rules" o with
      | Some (JArr l) => rules ← mapM rule_of_json l; Some (mkRuleSet effect risk rules)
      | _ => None
      end
  | _ => None
  end.

Definition policy_of_json (j : json) : option PermissionPolicy :=
  match j with
  | JObj o =>
      sets ← mapM (fun k => dget k o ≫= ruleset_of_json) policy_fields;
      match sets with
      | [c; p; n; g; m; s; e; t] => Some (mkPolicy c p n g m s e t)
      | _ => None
      end
  | _ => None
  end.

(** [None] is a [ZodError]. *)
Definition parsePermissionPolicy (input : json) : option PermissionPolicy :=
  PermissionPolicySchema input ≫= policy_of_json.

Definition request_of_json (j : json) : option PermissionRequest :=
  match j with
  | JObj o =>
      let field k := dget k o ≫= str_of_json in
      domain ← field "domain";
      if decide (domain = "command") then rq_command <$> field "command"
      else if decide (domain = "path") then
        path ← field "path"; operation ← field "operation"; Some (rq_path path operation)
      else if decide (domain = "network") then
        url ← field "url"; operation ← field "operation"; Some (rq_network url operation)
      else if decide (domain = "git") then rq_git <$> field "operation"
      else if decide (domain = "package_manager") then
        manager ← field "manager"; operation ← field "operation";
        Some (rq_package_manager manager operation)
      else if decide (domain = "secret") then
        ref ← field "secretRef"; operation ← field "operation"; Some (rq_secret ref operation)
      else if decide (domain = "external_service") then
        service ← field "service"; operation ← field "operation";
        Some (rq_external_service service operation)
      else if decide (domain = "tool") then
        toolName ← field "toolName"; Some (rq_tool toolName (field "action"))
      else None
  | _ => None
  end.

Definition parsePermissionRequest (input : json) : option PermissionRequest :=
  PermissionRequestSchema input ≫= request_of_json.

(** * evaluate.ts *)

Record PolicyDecisionResult : Type := mkDecision {
  pd_domain : PolicyDomain;
  pd_subject : string;
  pd_effect : PermissionEffect;
  pd_reason : string;
  pd_riskLevel : PermissionRiskLevel;
  pd_matchedRule : option PermissionRule;
  pd_approval : option string;
}.

(** [URL], of which the policy reads two properties. *)
Record URL : Type := mkUrl { hostname : string; href : string }.

(** [new URL(raw)], [None] when it throws. *)
Class UrlParser : Type := parsePolicyUrl : string -> option URL.

Definition defaultReason (domain : PolicyDomain) (effect : PermissionEffect)
    (matchedRule : option PermissionRule) : string :=
  match matchedRule with
  | Some rule => "Matched " +:+ PolicyDomain_str domain +:+ " policy rule " +:+
      dquote +:+ pr_id rule +:+ dquote +:+ "."
  | None => "Applied " +:+ PolicyDomain_str domain +:+ " default policy " +:+
      dquote +:+ PermissionEffect_str effect +:+ dquote +:+ "."
  end.

Definition buildApprovalRequest (domain : PolicyDomain) (subject : string)
    (matchedRule : option PermissionRule) (reason : string) : string :=
  default ("Allow " +:+ PolicyDomain_str domain +:+ " action for " +:+ dquote +:+ subject +:+
           dquote +:+ "? " +:+ reason)
    (matchedRule ≫= pr_approvalPrompt).

Definition createDecision (domain : PolicyDomain) (subject : string)
    (effect : PermissionEffect) (matchedRule : option PermissionRule)
    (riskLevel : PermissionRiskLevel) : PolicyDecisionResult :=
  let reason := default (defaultReason domain effect matchedRule)
                  (matchedRule ≫= pr_reason) in
  mkDecision domain subject effect reason riskLevel matchedRule
    (if decide (effect = ask)
     then Some (buildApprovalRequest domain subject matchedRule reason) else None).

Definition denied (domain : PolicyDomain) (subject reason : string) : PolicyDecisionResult :=
  mkDecision domain subject deny reason critical None None.

(** [matchedRule?.effect ?? policy.defaultEffect] and the same of the risk. *)
Definition chosen_effect (policy : RuleSetPolicy) (matched : option PermissionRule) :=
  default (rs_defaultEffect policy) (pr_effect <$> matched).
Definition chosen_risk (policy : RuleSetPolicy) (matched : option PermissionRule) :=
  default (rs_defaultRiskLevel policy) (matched ≫= pr_riskLevel).

Definition findLastMatchingRule (rules : list PermissionRule) (subject : string)
    : option PermissionRule :=
  find_last (fun rule => matchesWildcardPattern (pr_pattern rule) subject) rules.

Definition evaluateRuleSet (domain : PolicyDomain) (rawSubject : string)
    (policy : RuleSetPolicy) : PolicyDecisionResult :=
  let subject := normalizePolicySubject rawSubject in
  let matchedRule := findLastMatchingRule (rs_rules policy) subject in
  createDecision domain subject (chosen_effect policy matchedRule) matchedRule
    (chosen_risk policy matchedRule).

Definition isPathTraversal (path : string) : bool :=
  String.eqb path ".." || startsWith "../" path || includes "/../" path.

Definition evaluatePathPermission (policy : RuleSetPolicy) (rawPath operation : string)
    : PolicyDecisionResult :=
  let subject := normalizePolicySubject rawPath in
  if isPathTraversal subject then
    denied d_path subject "Path traversal outside the workspace is denied."
  else
    let operationSubject := operation +:+ ":" +:+ subject in
    let matchedRule := findLastMatchingRule (rs_rules policy) operationSubject in
    createDecision d_path operationSubject (chosen_effect policy matchedRule) matchedRule
      (chosen_risk policy matchedRule).

(** [/^172\.(1[6-9]|2\d|3[0-1])\./u] *)
Definition is_172_private (s : string) : bool :=
  startsWith "172." s &&
  match String.get 4 s, String.get 5 s, String.get 6 s with
  | Some a, Some b, Some dot =>
      Ascii.eqb dot "." &&
      (Ascii.eqb a "1" && ascii_between 54 57 b || Ascii.eqb a "2" && ascii_between 48 57 b
       || Ascii.eqb a "3" && ascii_between 48 49 b)
  | _, _, _ => false
  end.

(** [/^fe[89ab]/u] *)
Definition is_fe80 (s : string) : bool :=
  startsWith "fe" s &&
  match String.get 2 s with
  | Some c => ascii_between 56 57 c || ascii_between 97 98 c
  | None => false
  end.

Definition isLocalNetworkHost (host : string) : bool :=
  let normalized := strip_end "." (strip_end "]" (strip_start "[" (toLowerCase host))) in
  String.eqb normalized "localhost" ||
  endsWith ".localhost" normalized ||
  String.eqb normalized "0.0.0.0" ||
  startsWith "10." normalized ||
  startsWith "127." normalized ||
  startsWith "169.254." normalized ||
  startsWith "192.168." normalized ||
  is_172_private normalized ||
  String.eqb normalized "::" ||
  String.eqb normalized "::1" ||
  startsWith "fc" normalized ||
  startsWith "fd" normalized ||
  is_fe80 normalized.

Definition findLastMatchingNetworkRule (rules : list PermissionRule) (url : URL)
    (operation : string) : option PermissionRule :=
  find_last (fun rule =>
    if matchesWildcardPattern (pr_pattern rule) (operation +:+ ":" +:+ hostname url) then true
    else matchesWildcardPattern (pr_pattern rule) (operation +:+ ":" +:+ href url)) rules.

Definition findLastMatchingToolRule (rules : list PermissionRule) (toolName subject : string)
    : option PermissionRule :=
  find_last (fun rule =>
    if matchesWildcardPattern (pr_pattern rule) toolName then true
    else matchesWildcardPattern (pr_pattern rule) subject) rules.

Definition evaluateNetworkPermission `{!UrlParser} (policy : RuleSetPolicy)
    (rawUrl operation : string) : PolicyDecisionResult :=
  match parsePolicyUrl rawUrl with
  | None => denied d_network rawUrl "Invalid URLs are denied."
  | Some parsedUrl =>
      let matchedRule := findLastMatchingNetworkRule (rs_rules policy) parsedUrl operation in
      let subject := operation +:+ ":" +:+ href parsedUrl in
      if isLocalNetworkHost (hostname parsedUrl) &&
         bool_decide (pr_effect <$> matchedRule <> Some allow) then
        denied d_network subject "Local network access requires an allow rule."
      else
        createDecision d_network subject (chosen_effect policy matchedRule) matchedRule
          (chosen_risk policy matchedRule)
  end.

Definition evaluateToolPermission (policy : RuleSetPolicy) (toolName : string)
    (action : option string) : PolicyDecisionResult :=
  let subject := normalizePolicySubject
    (match action with
     | Some a => if String.eqb a "" then toolName else toolName +:+ ":" +:+ a
     | None => toolName
     end) in
  let matchedRule := findLastMatchingToolRule (rs_rules policy) toolName subject in
  createDecision d_tool subject (chosen_effect policy matchedRule) matchedRule
    (chosen_risk policy matchedRule).

Definition evaluatePermission `{!UrlParser} (policy : PermissionPolicy)
    (request : PermissionRequest) : PolicyDecisionResult :=
  match request with
  | rq_command command => evaluateRuleSet d_command command (commands policy)
  | rq_path path operation => evaluatePathPermission (paths policy) path operation
  | rq_network url operation => evaluateNetworkPermission (network policy) url operation
  | rq_git operation => evaluateRuleSet d_git operation (git policy)
  | rq_package_manager manager operation =>
      evaluateRuleSet d_package_manager (manager +:+ ":" +:+ operation)
        (packageManagers policy)
  | rq_secret secretRef operation =>
      evaluateRuleSet d_secret (operation +:+ ":" +:+ secretRef) (secrets policy)
  | rq_external_service service operation =>
      evaluateRuleSet d_external_service (service +:+ ":" +:+ operation)
        (externalServices policy)
  | rq_tool toolName action => evaluateToolPermission (tools policy) toolName action
  end.
