(* ===== verification/PermissionProps.v ===== *)
(** Properties of the permission policy: the wildcard matcher is a matcher, the
    last matching rule decides, and what is denied whatever the rules say. *)
From S2P Require Import Prelude Js Zod Permission.
From Stdlib Require Import Ascii.
#[local] Open Scope nat_scope.

(** * What a wildcard pattern means *)

(** [?] stands for any character, [*] for any text. *)
Inductive glob : string -> string -> Prop :=
| glob_end : glob "" ""
| glob_any c p v : glob p v -> glob (String "?" p) (String c v)
| glob_char c p v : glob p v -> glob (String c p) (String c v)
| glob_none p v : glob p v -> glob (String "*" p) v
| glob_more c p v : glob (String "*" p) v -> glob (String "*" p) (String c v).
#[export] Hint Constructors glob : legion.

Fixpoint sdrop (n : nat) (s : string) : string :=
  match n, s with
  | S n', String _ s' => sdrop n' s'
  | O, _ => s
  | _, EmptyString => EmptyString
  end.

Lemma sdrop_get n s :
  match String.get n s with
  | Some c => sdrop n s = String c (sdrop (S n) s) /\ n < String.length s
  | None => sdrop n s = "" /\ String.length s <= n
  end.
Proof.
  revert s. induction n as [|n IH]; intros [|c s]; simpl; [split; [done|lia]..| |].
  - split; [done|lia].
  - specialize (IH s). destruct (String.get n s); destruct IH as [-> ?]; simpl; split; try done; lia.
Qed.

Lemma sdrop_sdrop n m s : sdrop n (sdrop m s) = sdrop (m + n) s.
Proof.
  revert s. induction m as [|m IH]; intros s; [done|].
  destruct s; simpl; [by destruct n|apply IH].
Qed.

Lemma sdrop_length n s : String.length (sdrop n s) = String.length s - n.
Proof. revert s. induction n as [|n IH]; intros [|c s]; simpl; rewrite ?IH; lia. Qed.

Lemma glob_star_drop p v n : glob (String "*" p) (sdrop n v) -> glob (String "*" p) v.
Proof.
  revert v. induction n as [|n IH]; intros [|c v]; simpl; try done.
  intros H. apply glob_more, IH, H.
Qed.

Lemma glob_star_iff p v :
  glob (String "*" p) v <-> exists n, n <= String.length v /\ glob p (sdrop n v).
Proof.
  split.
  - remember (String "*" p) as q eqn:Hq. intros H. revert p Hq.
    induction H as [|c p v H IH|c p v H IH|p v H IH|c p v H IH]; intros q' Hq; simplify_eq.
    + exists 1. simpl. split; [lia|done].
    + exists 0. split; [lia|done].
    + destruct (IH _ eq_refl) as (n & ? & ?). exists (S n). split; [simpl; lia|done].
  - intros (n & _ & H). apply (glob_star_drop p v n). by constructor.
Qed.

Lemma glob_cons c p v :
  glob (String c p) v -> c <> "*"%char ->
  exists d v', v = String d v' /\ (c = "?"%char \/ c = d) /\ glob p v'.
Proof. intros H Hc. inversion H; subst; try done; eauto 6. Qed.

(** * The matcher *)

Definition no_star (s : string) : Prop := forall i c, String.get i s = Some c -> c <> "*"%char.

Section Matcher.
Variables pattern value : string.

(** What is left to match: from the current position, or again from the last
    star with more of the value absorbed by it. *)
Definition pending (st : MatchState) : Prop :=
  glob (sdrop (patternIndex st) pattern) (sdrop (valueIndex st) value) \/
  (0 <= starIndex st)%Z /\
  exists k, (starValueIndex st < Z.of_nat k)%Z /\ k <= String.length value /\
    glob (sdrop (Z.to_nat (starIndex st + 1)) pattern) (sdrop k value).

(** Since the last star the two positions moved together. *)
Record match_inv (st : MatchState) : Prop := {
  mi_pattern : patternIndex st <= String.length pattern;
  mi_value : valueIndex st <= String.length value;
  mi_star : starIndex st = (-1)%Z /\ starValueIndex st = (-1)%Z \/
    (0 <= starIndex st < Z.of_nat (patternIndex st))%Z /\ (0 <= starValueIndex st)%Z /\
    (Z.of_nat (patternIndex st) - (starIndex st + 1) =
     Z.of_nat (valueIndex st) - starValueIndex st)%Z /\
    String.get (Z.to_nat (starIndex st)) pattern = Some "*"%char;
}.

(** No star was passed since. *)
Definition plain_since_star (st : MatchState) : Prop :=
  (0 <= starIndex st)%Z -> forall i c, (starIndex st < Z.of_nat i)%Z -> i < patternIndex st ->
  String.get i pattern = Some c -> c <> "*"%char.

Definition match_measure (st : MatchState) : Z :=
  let v := (Z.of_nat (String.length value) + 2)%Z in
  ((Z.of_nat (String.length pattern) - starIndex st) * (v * v) +
   (Z.of_nat (String.length value) - starValueIndex st) * v +
   (Z.of_nat (String.length value) - Z.of_nat (valueIndex st)))%Z.

Lemma is_char_true c token : is_char c token = true <-> token = Some c.
Proof.
  destruct token as [d|]; simpl; [|by split].
  rewrite Ascii.eqb_eq. split; [by intros ->|by intros [= ->]].
Qed.

(** A star may absorb what the positions after it matched. *)
Lemma plain_segment n i v :
  (forall j c, i <= j -> j < i + n -> String.get j pattern = Some c -> c <> "*"%char) ->
  i + n <= String.length pattern ->
  glob (sdrop i pattern) v ->
  n <= String.length v /\ glob (sdrop (i + n) pattern) (sdrop n v).
Proof.
  revert i v. induction n as [|n IH]; intros i v Hplain Hlen H.
  { rewrite Nat.add_0_r. split; [lia|done]. }
  pose proof (sdrop_get i pattern) as Hg. destruct (String.get i pattern) as [c|] eqn:Hc; [|lia].
  destruct Hg as [Hs _]. rewrite Hs in H.
  apply glob_cons in H as (d & v' & -> & _ & H); [|apply (Hplain i); auto; lia].
  destruct (IH (S i) v') as [??]; [|lia|done|].
  - intros j e ? ?. apply Hplain; lia.
  - simpl. rewrite <- Nat.add_succ_comm. split; [lia|done].
Qed.

(** What one round of the loop does. *)
Definition advances (st st' : MatchState) : Prop :=
  match_inv st' /\ (match_measure st' < match_measure st)%Z /\
  (pending st' -> pending st) /\
  (no_star value -> plain_since_star st ->
   plain_since_star st' /\ (pending st -> pending st')).

Lemma inv_star_bounds st :
  match_inv st ->
  (-1 <= starValueIndex st <= Z.of_nat (valueIndex st))%Z /\
  (-1 <= starIndex st < Z.of_nat (patternIndex st))%Z.
Proof. intros [? ? [[-> ->]|(? & ? & ? & ?)]]; lia. Qed.

Lemma advance_char st c d :
  match_inv st -> String.get (valueIndex st) value = Some c ->
  String.get (patternIndex st) pattern = Some d -> d = "?"%char \/ d = c ->
  advances st (mkMatch (S (patternIndex st)) (S (valueIndex st)) (starIndex st) (starValueIndex st)).
Proof.
  intros Hinv Hv Hp Hd. pose proof (sdrop_get (valueIndex st) value) as Gv.
  pose proof (sdrop_get (patternIndex st) pattern) as Gp.
  rewrite Hv in Gv. rewrite Hp in Gp. destruct Gv as [Ev Lv], Gp as [Ep Lp].
  destruct Hinv as [_ _ Hstar]. unfold advances, pending, match_measure, plain_since_star.
  cbn [patternIndex valueIndex starIndex starValueIndex]. repeat split; [cbn; lia..| | | | |].
  - destruct Hstar as [?|(? & ? & ? & ?)]; [by left|right]. cbn. repeat split; try done; lia.
  - lia.
  - intros [H|H]; [left|by right]. rewrite Ev, Ep.
    destruct Hd as [->| ->]; by constructor.
  - intros Hs i e Hi Hlt He.
    destruct (decide (i = patternIndex st)) as [->|]; [|eapply H0; eauto; lia].
    rewrite Hp in He. simplify_eq. destruct Hd as [->| ->]; [done|by apply (H (valueIndex st))].
  - intros [H1|H1]; [left|by right]. rewrite Ev, Ep in H1.
    apply glob_cons in H1 as (? & ? & ? & _ & ?); [by simplify_eq|].
    destruct Hd as [->| ->]; [done|by apply (H (valueIndex st))].
Qed.

Lemma advance_star st c :
  match_inv st -> String.get (valueIndex st) value = Some c ->
  String.get (patternIndex st) pattern = Some "*"%char ->
  advances st (mkMatch (S (patternIndex st)) (valueIndex st) (Z.of_nat (patternIndex st))
    (Z.of_nat (valueIndex st))).
Proof.
  intros Hinv Hv Hp. pose proof (sdrop_get (valueIndex st) value) as Gv.
  pose proof (sdrop_get (patternIndex st) pattern) as Gp.
  rewrite Hv in Gv. rewrite Hp in Gp. destruct Gv as [Ev Lv], Gp as [Ep Lp].
  pose proof (inv_star_bounds st Hinv) as [Hb1 Hb2]. destruct Hinv as [_ _ Hstar].
  assert (Hk : forall k, (Z.of_nat (valueIndex st) < Z.of_nat k)%Z ->
            sdrop k value = sdrop (k - valueIndex st) (sdrop (valueIndex st) value)).
  { intros k ?. rewrite sdrop_sdrop. f_equal. lia. }
  unfold advances, pending, match_measure, plain_since_star.
  cbn [patternIndex valueIndex starIndex starValueIndex].
  replace (Z.to_nat (Z.of_nat (patternIndex st) + 1)) with (S (patternIndex st)) by lia.
  repeat split; [cbn; lia..| | | | |].
  - right. cbn. rewrite Nat2Z.id. repeat split; try done; lia.
  - nia.
  - intros H. left. rewrite Ep. destruct H as [H|(_ & k & ? & ? & H)]; [by constructor|].
    rewrite Hk in H by done. eapply glob_star_drop. constructor. exact H.
  - intros _ i e ? ?. lia.
  - intros HG. assert (HG' : glob (String "*" (sdrop (S (patternIndex st)) pattern))
      (sdrop (valueIndex st) value)).
    { destruct HG as [HG|(Hs & k & Hk1 & Hk2 & HG)]; [by rewrite <- Ep|].
      destruct Hstar as [[??]|(? & ? & Heq & ?)]; [lia|].
      apply plain_segment with (n := patternIndex st - Z.to_nat (starIndex st + 1)) in HG;
        [|intros j e ? ? He; apply (H0 Hs j e); auto; lia|lia].
      destruct HG as [Hlen HG].
      replace (Z.to_nat (starIndex st + 1) + (patternIndex st - Z.to_nat (starIndex st + 1)))
        with (patternIndex st) in HG by lia. rewrite Ep, sdrop_sdrop in HG.
      apply (glob_star_drop _ _ (k + (patternIndex st - Z.to_nat (starIndex st + 1)) - valueIndex st)).
      rewrite sdrop_sdrop. eapply eq_ind; [exact HG|]. f_equal. lia. }
    apply glob_star_iff in HG' as (n & Hn & HG').
    rewrite sdrop_length in Hn. destruct n as [|n]; [by left|right].
    split; [lia|]. exists (valueIndex st + S n). rewrite sdrop_sdrop in HG'. repeat split; [lia..|done].
Qed.

(** When neither the character nor a star fits, the current position is lost. *)
Lemma mismatch st c :
  String.get (valueIndex st) value = Some c ->
  is_char "?" (String.get (patternIndex st) pattern) ||
    is_char c (String.get (patternIndex st) pattern) = false ->
  is_char "*" (String.get (patternIndex st) pattern) = false ->
  ~ glob (sdrop (patternIndex st) pattern) (sdrop (valueIndex st) value).
Proof.
  intros Hv Hc Hs H. pose proof (sdrop_get (valueIndex st) value) as Gv.
  pose proof (sdrop_get (patternIndex st) pattern) as Gp. rewrite Hv in Gv.
  destruct Gv as [Ev _]. rewrite Ev in H.
  destruct (String.get (patternIndex st) pattern) as [d|]; destruct Gp as [Ep _]; rewrite Ep in H;
    [|by inversion H].
  cbn [is_char] in Hc, Hs. apply orb_false_iff in Hc as [Hq Hc].
  apply Ascii.eqb_neq in Hq, Hc, Hs.
  apply glob_cons in H as (e & v' & ? & He & _); [|congruence]. simplify_eq. by destruct He; congruence.
Qed.

Lemma advance_retry st c :
  match_inv st -> String.get (valueIndex st) value = Some c ->
  ~ glob (sdrop (patternIndex st) pattern) (sdrop (valueIndex st) value) ->
  (0 <= starIndex st)%Z ->
  advances st (mkMatch (Z.to_nat (starIndex st + 1)) (Z.to_nat (starValueIndex st + 1))
    (starIndex st) (starValueIndex st + 1)).
Proof.
  intros Hinv Hv Hno Hs. pose proof (sdrop_get (valueIndex st) value) as Gv. rewrite Hv in Gv.
  destruct Gv as [_ Lv]. pose proof (inv_star_bounds st Hinv) as [Hb1 Hb2].
  destruct Hinv as [Hp _ [[??]|(? & ? & ? & ?)]]; [lia|].
  unfold advances, pending, match_measure, plain_since_star.
  cbn [patternIndex valueIndex starIndex starValueIndex]. repeat split; [cbn; lia..| | | | |].
  - right. cbn. repeat split; try done; lia.
  - nia.
  - intros [Hg|(_ & k & ? & ? & Hg)]; right; (split; [done|]).
    + exists (Z.to_nat (starValueIndex st + 1)). repeat split; [lia..|done].
    + exists k. repeat split; [lia..|done].
  - intros _ i e ? ?. lia.
  - intros [Hg|(_ & k & ? & ? & Hg)]; [done|].
    destruct (decide (Z.of_nat k = starValueIndex st + 1)%Z) as [Hk|Hk]; [left|right].
    + by replace (Z.to_nat (starValueIndex st + 1)) with k by lia.
    + split; [done|]. exists k. repeat split; [lia..|done].
Qed.

Lemma match_step_advances st c :
  match_inv st -> String.get (valueIndex st) value = Some c ->
  match match_step pattern c st with
  | Some st' => advances st st'
  | None => ~ pending st
  end.
Proof.
  intros Hinv Hv. unfold match_step.
  destruct (is_char "?" _ || is_char c _) eqn:Hc.
  - apply orb_true_iff in Hc as [Hc|Hc]; apply is_char_true in Hc;
      eapply advance_char; eauto.
  - destruct (is_char "*" _) eqn:Hs; [apply is_char_true in Hs; by eapply advance_star|].
    pose proof (mismatch st c Hv Hc Hs) as Hno.
    destruct (Z.leb_spec 0 (starIndex st)); [by eapply advance_retry|].
    intros [?|[? _]]; [done|lia].
Qed.

Lemma skip_stars_glob fuel i :
  i <= String.length pattern -> String.length pattern - i <= fuel ->
  skip_stars fuel pattern i = String.length pattern <-> glob (sdrop i pattern) "".
Proof.
  revert i. induction fuel as [|fuel IH]; intros i Hi Hf; simpl;
    pose proof (sdrop_get i pattern) as Gp.
  - destruct (String.get i pattern); destruct Gp as [-> ?]; [lia|].
    split; [by constructor|lia].
  - destruct (is_char "*" (String.get i pattern)) eqn:Hs.
    + apply is_char_true in Hs. rewrite Hs in Gp. destruct Gp as [-> ?].
      rewrite IH by lia. split; [by constructor|]. intros Hg. by inversion Hg.
    + destruct (String.get i pattern) as [c|]; destruct Gp as [-> ?].
      * cbn [is_char] in Hs. apply Ascii.eqb_neq in Hs. split; [lia|]. intros Hg.
        by inversion Hg; subst.
      * split; [by constructor|lia].
Qed.

(** At the end of the value no text is left for an earlier star. *)
Lemma pending_end st :
  match_inv st -> plain_since_star st -> valueIndex st = String.length value ->
  pending st -> glob (sdrop (patternIndex st) pattern) "".
Proof.
  intros [Hp _ Hstar] Hplain Hend [Hg|(Hs & k & ? & ? & Hg)].
  - rewrite Hend in Hg. pose proof (sdrop_get (String.length value) value) as G.
    destruct (String.get _ value); destruct G as [E ?]; [lia|]. by rewrite E in Hg.
  - destruct Hstar as [[??]|(? & ? & ? & ?)]; [lia|].
    apply plain_segment with (n := patternIndex st - Z.to_nat (starIndex st + 1)) in Hg;
      [|intros j e ? ? He; apply (Hplain Hs j e); auto; lia|lia].
    rewrite sdrop_length in Hg. lia.
Qed.

Lemma match_loop_pending fuel st :
  match_inv st -> (match_measure st < Z.of_nat fuel)%Z ->
  exists b, match_loop fuel pattern value st = Some b /\ (b = true -> pending st) /\
    (no_star value -> plain_since_star st -> pending st -> b = true).
Proof.
  revert st. induction fuel as [|fuel IH]; intros st Hinv Hf.
  { pose proof (inv_star_bounds st Hinv). destruct Hinv as [? ? _]. unfold match_measure in Hf. nia. }
  simpl. pose proof (sdrop_get (valueIndex st) value) as Gv.
  destruct (String.get (valueIndex st) value) as [c|] eqn:Hv.
  - pose proof (match_step_advances st c Hinv Hv) as Hstep.
    destruct (match_step pattern c st) as [st'|]; [|by exists false].
    destruct Hstep as (Hinv' & Hm & Hback & Hforth).
    destruct (IH st' Hinv' ltac:(lia)) as (b & Hb & Hb1 & Hb2). exists b. split; [done|].
    split; [by auto|]. intros Hns Hpl Hpend. destruct (Hforth Hns Hpl). auto.
  - destruct Gv as [Ev Lv]. eexists. split; [done|]. rewrite Nat.eqb_eq.
    rewrite skip_stars_glob; [|apply Hinv|lia]. split.
    + intros H. left. by rewrite Ev.
    + intros _ Hpl. apply pending_end; [done..|]. destruct Hinv. lia.
Qed.

Lemma match_start_pending :
  match_inv match_start /\ plain_since_star match_start /\
  (match_measure match_start < Z.of_nat (match_fuel pattern value))%Z /\
  (pending match_start <-> glob pattern value).
Proof.
  split; [constructor; cbn; [lia..|by left]|].
  split; [intros Hs; cbn in Hs; lia|].
  split; [unfold match_measure, match_fuel; cbn [starIndex starValueIndex valueIndex match_start]; nia|].
  split; [|by left]. intros [Hg|[Hs _]]; [done|cbn in Hs; lia].
Qed.

End Matcher.

(** * Properties *)

(** C31. The wildcard matcher ends on every input and accepts nothing that the
    pattern does not mean; it accepts all the pattern means when the value
    contains no [*]. *)
Theorem matchesWildcardPattern_glob pattern value :
  is_Some (match_loop (match_fuel pattern value) pattern value match_start) /\
  (matchesWildcardPattern pattern value = true -> glob pattern value) /\
  (str_forall (fun c => negb (Ascii.eqb c "*")) value = true ->
   glob pattern value -> matchesWildcardPattern pattern value = true).
Proof.
  destruct (match_start_pending pattern value) as (Hinv & Hpl & Hm & Hiff).
  destruct (match_loop_pending pattern value _ _ Hinv Hm) as (b & Hb & Hb1 & Hb2).
  unfold matchesWildcardPattern. rewrite Hb. simpl. split; [by eexists|]. rewrite <- Hiff.
  split; [done|]. intros Hns. apply Hb2; [|done].
  intros i c Hc ->. revert i Hc Hns. clear.
  induction value as [|d v IH]; intros [|i]; simpl; [done..|by intros [= ->]|].
  intros ? [_ ?]%andb_true_iff. by eapply IH.
Qed.

(** The pattern [rm *] means [rm *.txt], and the matcher refuses it: it takes the
    [*] of the value for the star itself.  A rule that denies [rm *] does not
    see the command. *)
Example star_in_value_missed :
  glob "rm *" "rm *.txt" /\ matchesWildcardPattern "rm *" "rm *.txt" = false /\
  pd_effect (evaluateRuleSet d_command "rm *.txt"
    (mkRuleSet allow low [mkRule "no-rm" "rm *" deny None None None])) = allow.
Proof.
  split; [|by vm_compute]. do 3 apply glob_char. do 5 apply glob_more. apply glob_none, glob_end.
Qed.

(** * The last matching rule decides *)

Lemma find_last_spec {A} (f : A -> bool) l :
  match find_last f l with
  | Some r => exists before after, l = before ++ r :: after /\ f r = true /\
      Forall (fun r' => f r' = false) after
  | None => Forall (fun r' => f r' = false) l
  end.
Proof.
  unfold find_last. induction l as [|x l IH] using rev_ind; simpl; [constructor|].
  rewrite foldl_app. simpl. destruct (f x) eqn:Hx.
  - exists l, []. repeat split; [done|constructor].
  - destruct (foldl _ None l) as [r|].
    + destruct IH as (before & after & -> & Hr & Hall). exists before, (after ++ [x]).
      rewrite <- app_assoc. repeat split; [done|]. apply Forall_app. by repeat constructor.
    + apply Forall_app. by repeat constructor.
Qed.

Lemma find_last_ext {A} (f g : A -> bool) l : (forall x, f x = g x) -> find_last f l = find_last g l.
Proof.
  intros Hfg. unfold find_last. generalize (@None A).
  induction l as [|x l IH]; intros o; simpl; [done|]. by rewrite Hfg.
Qed.

(** The rule set a request is judged by, and the texts its patterns are matched
    with. *)
Definition consulted (policy : PermissionPolicy) (request : PermissionRequest) : RuleSetPolicy :=
  match request with
  | rq_command _ => commands policy
  | rq_path _ _ => paths policy
  | rq_network _ _ => network policy
  | rq_git _ => git policy
  | rq_package_manager _ _ => packageManagers policy
  | rq_secret _ _ => secrets policy
  | rq_external_service _ _ => externalServices policy
  | rq_tool _ _ => tools policy
  end.

Section Decisions.
Context `{!UrlParser}.

Definition subjects (request : PermissionRequest) : list string :=
  match request with
  | rq_command c => [normalizePolicySubject c]
  | rq_path p op => [op +:+ ":" +:+ normalizePolicySubject p]
  | rq_network url op =>
      match parsePolicyUrl url with
      | Some u => [op +:+ ":" +:+ hostname u; op +:+ ":" +:+ href u]
      | None => []
      end
  | rq_git op => [normalizePolicySubject op]
  | rq_package_manager m op => [normalizePolicySubject (m +:+ ":" +:+ op)]
  | rq_secret ref op => [normalizePolicySubject (op +:+ ":" +:+ ref)]
  | rq_external_service s op => [normalizePolicySubject (s +:+ ":" +:+ op)]
  | rq_tool name None => [name; normalizePolicySubject name]
  | rq_tool name (Some "") => [name; normalizePolicySubject name]
  | rq_tool name (Some action) => [name; normalizePolicySubject (name +:+ ":" +:+ action)]
  end.

Definition applies (request : PermissionRequest) (rule : PermissionRule) : bool :=
  existsb (matchesWildcardPattern (pr_pattern rule)) (subjects request).

(** What is refused before any rule is read. *)
Definition refused (policy : PermissionPolicy) (request : PermissionRequest) : bool :=
  match request with
  | rq_path p _ => isPathTraversal (normalizePolicySubject p)
  | rq_network url _ =>
      match parsePolicyUrl url with
      | None => true
      | Some u => isLocalNetworkHost (hostname u) &&
          bool_decide (pr_effect <$> find_last (applies request) (rs_rules (network policy))
                       <> Some allow)
      end
  | _ => false
  end.

Lemma evaluatePermission_eq policy request :
  let d := evaluatePermission policy request in
  let matched := find_last (applies request) (rs_rules (consulted policy request)) in
  if refused policy request
  then pd_effect d = deny /\ pd_riskLevel d = critical /\ pd_matchedRule d = None /\
       pd_approval d = None
  else exists domain subject, d = createDecision domain subject
         (chosen_effect (consulted policy request) matched) matched
         (chosen_risk (consulted policy request) matched).
Proof.
  destruct request as [c|p op|url op|op|m op|ref op|s op|name action]; cbv zeta;
    cbn [refused consulted evaluatePermission];
    unfold evaluateRuleSet, evaluatePathPermission, evaluateNetworkPermission,
      evaluateToolPermission, findLastMatchingRule, findLastMatchingNetworkRule,
      findLastMatchingToolRule;
    repeat match goal with
    | |- context [find_last (applies ?r) ?rules] =>
        lazymatch r with
        | rq_network _ _ => fail
        | rq_tool _ _ => fail
        | _ => rewrite (find_last_ext (applies r) (fun rule =>
                 matchesWildcardPattern (pr_pattern rule) (hd "" (subjects r))))
                 by (intros ?; unfold applies; cbn [subjects existsb]; by rewrite orb_false_r)
        end
    end; cbn [subjects hd]; try by eauto.
  - destruct (isPathTraversal _); [done|by eauto].
  - destruct (parsePolicyUrl url) as [u|] eqn:Hu; [|done].
    rewrite (find_last_ext (applies (rq_network url op)) (fun rule =>
      if matchesWildcardPattern (pr_pattern rule) (op +:+ ":" +:+ hostname u) then true
      else matchesWildcardPattern (pr_pattern rule) (op +:+ ":" +:+ href u))).
    + destruct (_ && _); [done|by eauto].
    + intros ?. unfold applies. cbn [subjects]. rewrite Hu. simpl. rewrite orb_false_r.
      by destruct (matchesWildcardPattern _ _).
  - assert (Hs : subjects (rq_tool name action) = [name; normalizePolicySubject
      match action with
      | Some a => if String.eqb a "" then name else name +:+ ":" +:+ a
      | None => name
      end]) by (by destruct action as [[]|]).
    rewrite (find_last_ext (applies (rq_tool name action)) (fun rule =>
      if matchesWildcardPattern (pr_pattern rule) name then true
      else matchesWildcardPattern (pr_pattern rule) (normalizePolicySubject
      match action with
      | Some a => if String.eqb a "" then name else name +:+ ":" +:+ a
      | None => name
      end))); [by eauto|].
    intros ?. unfold applies. rewrite Hs. simpl. rewrite orb_false_r.
    by destruct (matchesWildcardPattern _ _).
Qed.

End Decisions.

(** A request is decided by the last rule of its set that matches it, or by
    the default of the set when none does; a few requests are denied as
    critical whatever the rules say.  An approval is asked for exactly when the
    effect is [ask]. *)
Theorem last_rule_decides `{!UrlParser} policy request :
  let d := evaluatePermission policy request in
  let set := consulted policy request in
  (pd_approval d <> None <-> pd_effect d = ask) /\
  if refused policy request
  then pd_effect d = deny /\ pd_riskLevel d = critical /\ pd_matchedRule d = None
  else match pd_matchedRule d with
  | Some rule =>
      exists before after, rs_rules set = before ++ rule :: after /\
        applies request rule = true /\ Forall (fun r => applies request r = false) after /\
        pd_effect d = pr_effect rule /\
        pd_riskLevel d = default (rs_defaultRiskLevel set) (pr_riskLevel rule)
  | None =>
      Forall (fun r => applies request r = false) (rs_rules set) /\
      pd_effect d = rs_defaultEffect set /\ pd_riskLevel d = rs_defaultRiskLevel set
  end.
Proof.
  cbv zeta. pose proof (evaluatePermission_eq policy request) as Heval. cbv zeta in Heval.
  destruct (refused policy request).
  - destruct Heval as (-> & -> & -> & ->). done.
  - destruct Heval as (domain & subject & ->). unfold createDecision.
    cbn [pd_approval pd_effect pd_matchedRule pd_riskLevel]. split; [by case_decide|].
    pose proof (find_last_spec (applies request) (rs_rules (consulted policy request))) as Hl.
    destruct (find_last _ _) as [rule|]; [|by repeat split].
    destruct Hl as (before & after & -> & Hr & Hall). by exists before, after.
Qed.

(** * Paths stay in the workspace *)

Fixpoint segments (s : string) : list string :=
  match s with
  | EmptyString => [""]
  | String c s' =>
      if Ascii.eqb c "/" then "" :: segments s'
      else match segments s' with
           | x :: rest => String c x :: rest
           | [] => [String c ""]
           end
  end.

(** The directory a path is at, as a process in the directory [cwd] finds it: the
    names from the inside out, those of [cwd] for a relative path. *)
Fixpoint walk (place path : list string) : list string :=
  match path with
  | [] => place
  | x :: rest =>
      if decide (x = "..") then walk (tail place) rest
      else if decide (x = "." \/ x = "") then walk place rest
      else walk (x :: place) rest
  end.
Definition is_absolute (path : list string) : bool :=
  match path with "" :: _ :: _ => true | _ => false end.
Definition place (cwd path : list string) : list string :=
  walk (if is_absolute path then [] else cwd) path.

(** The depth below where it started that a walk ends at; [None] when it climbs
    above it on the way. *)
Fixpoint resolve (depth : nat) (path : list string) : option nat :=
  match path with
  | [] => Some depth
  | x :: rest =>
      if decide (x = "..") then match depth with O => None | S d => resolve d rest end
      else if decide (x = "." \/ x = "") then resolve depth rest
      else resolve (S depth) rest
  end.

Lemma segments_nonempty s : segments s <> [].
Proof. destruct s as [|c s]; simpl; [done|]. destruct (Ascii.eqb c "/"); [done|]. by destruct (segments s). Qed.

Lemma join_segments s : join "/" (segments s) = s.
Proof.
  induction s as [|c s IH]; [done|]. simpl.
  pose proof (segments_nonempty s) as Hne.
  destruct (Ascii.eqb_spec c "/") as [->|_]; destruct (segments s) as [|x rest]; [done| |done|].
  - cbn [join]. cbn [join] in IH. by rewrite IH.
  - destruct rest; cbn [join] in *; by rewrite <- IH.
Qed.

Lemma prefix_app p s : String.prefix p (p +:+ s) = true.
Proof. induction p as [|c p IH]; [by destruct s|]. simpl. by destruct (ascii_dec c c). Qed.

Lemma includes_app needle a b : includes needle (a +:+ needle +:+ b) = true.
Proof.
  induction a as [|c a IH].
  - rewrite append_nil_l. pose proof (prefix_app needle b) as Hp.
    destruct (needle +:+ b); cbn [includes]; by rewrite Hp.
  - rewrite append_cons. cbn [includes]. by rewrite IH, orb_true_r.
Qed.

Lemma join_app l l' : l <> [] -> l' <> [] -> join "/" (l ++ l') = join "/" l +:+ "/" +:+ join "/" l'.
Proof.
  intros Hl Hl'. induction l as [|x l IH]; [done|]. destruct l as [|y l].
  - simpl. by destruct l'.
  - change ((x :: y :: l) ++ l') with (x :: (y :: l) ++ l').
    change (join "/" (x :: (y :: l) ++ l')) with (x +:+ "/" +:+ join "/" ((y :: l) ++ l')).
    rewrite IH by done. change (join "/" (x :: y :: l)) with (x +:+ "/" +:+ join "/" (y :: l)).
    by rewrite !append_assoc.
Qed.

(** A [..] that is not the last segment is a traversal, and so is a lone one. *)
Lemma dotdot_last path before after :
  isPathTraversal path = false -> segments path = before ++ ".." :: after ->
  before <> [] /\ after = [].
Proof.
  unfold isPathTraversal. intros Hp Hs. rewrite !orb_false_iff in Hp.
  destruct Hp as [[Hp1 Hp2] Hp3]. pose proof (join_segments path) as Hj. rewrite Hs in Hj.
  destruct after as [|x after]; destruct before as [|y before]; try done.
  - simpl in Hj. subst. done.
  - change ([] ++ ".." :: x :: after) with ([".."] ++ x :: after) in Hj.
    rewrite join_app in Hj by done. subst path.
    cbn [join] in Hp2. unfold startsWith in Hp2.
    by rewrite <- append_assoc, (prefix_app "../") in Hp2.
  - change (".." :: x :: after) with ([".."] ++ x :: after) in Hj.
    rewrite !join_app in Hj by done. subst path.
    pose proof (includes_app "/../" (join "/" (y :: before)) (join "/" (x :: after))) as Hi.
    discriminate (eq_trans (eq_sym Hi) Hp3).
Qed.

Lemma resolve_plain path depth :
  Forall (fun x => x <> "..") path ->
  exists d, resolve depth path = Some d /\ (depth <= d) /\
    (d = depth -> Forall (fun x => x = "." \/ x = "") path).
Proof.
  intros H. revert depth. induction H as [|x path Hx _ IH]; intros depth; simpl; [by exists depth|].
  rewrite decide_False by done. case_decide as Hd.
  - destruct (IH depth) as (d & -> & ? & Hall). exists d. split; [done|]. split; [done|]. by constructor; auto.
  - destruct (IH (S depth)) as (d & -> & ? & Hall). exists d. split; [done|]. split; [lia|lia].
Qed.

Lemma resolve_app path path' depth :
  resolve depth (path ++ path') = resolve depth path ≫= fun d => resolve d path'.
Proof.
  revert depth. induction path as [|x path IH]; intros depth; simpl; [done|].
  repeat case_decide; [destruct depth; [done|]|..]; apply IH.
Qed.

Lemma first_dotdot (path : list string) :
  Forall (fun x => x <> "..") path \/
  exists before after, path = before ++ ".." :: after /\ Forall (fun x => x <> "..") before.
Proof.
  induction path as [|x path IH]; [by left|]. destruct (decide (x = "..")) as [->|Hx].
  - right. exists [], path. split; [done|constructor].
  - destruct IH as [?|(b & a & -> & ?)]; [left; by constructor|right].
    exists (x :: b), a. split; [done|by constructor].
Qed.

Lemma walk_resolved path depth d names root :
  resolve depth path = Some d -> length names = depth ->
  exists names', length names' = d /\ walk (names ++ root) path = names' ++ root.
Proof.
  revert depth names. induction path as [|x path IH]; intros depth names; simpl.
  { intros [= ->] Hn. by exists names. }
  case_decide; [|case_decide].
  - destruct depth as [|depth]; [done|]. intros Hd Hn. destruct names as [|y names]; [done|].
    injection Hn as Hn. by apply (IH depth).
  - apply IH.
  - intros Hd Hn. apply (IH (S depth) (x :: names)); [done|]. cbn. by rewrite Hn.
Qed.
Lemma walk_dots cwd dots :
  Forall (fun x => x = "." \/ x = "") dots -> walk cwd (dots ++ [".."]) = tail cwd.
Proof.
  induction 1 as [|x dots Hx _ IH]; [done|]. cbn. rewrite decide_False by (by destruct Hx as [-> | ->]).
  by rewrite decide_True by done.
Qed.

(** C30. What the path policy lets through: a relative path it does not deny is at the
    workspace root or below it wherever the root is, unless it is one [..] behind
    nothing but empty and [.] segments, which is the parent of the root.  The policy
    confines relative paths only: an absolute path is denied as a traversal just for a
    [..] that is not its last segment, and otherwise left to the rules ([absolute_open]
    below). *)
Theorem path_containment policy rawPath operation root :
  pd_effect (evaluatePathPermission policy rawPath operation) <> deny ->
  let path := segments (normalizePolicySubject rawPath) in
  if is_absolute path then
    place root path = place [] path /\
    forall before after, path = before ++ ".." :: after -> after = []
  else
    (exists names, place root path = names ++ root) \/
    (place root path = tail root /\
     exists dots, path = dots ++ [".."] /\ dots <> [] /\ Forall (fun x => x = "." \/ x = "") dots).
Proof.
  unfold evaluatePathPermission. destruct (isPathTraversal _) eqn:Hp; [done|]. intros _. cbv zeta. unfold place.
  destruct (is_absolute _); [split; [done|]; intros before after Hs; by destruct (dotdot_last _ _ _ Hp Hs)|].
  assert (Hbelow : forall d, resolve 0 (segments (normalizePolicySubject rawPath)) = Some d ->
    exists names, walk root (segments (normalizePolicySubject rawPath)) = names ++ root).
  { intros d Hd. destruct (walk_resolved _ 0 d [] root Hd eq_refl) as (names & _ & Hn). by exists names. }
  destruct (first_dotdot (segments (normalizePolicySubject rawPath))) as [H|(b & a & Hs & Hb)].
  - left. destruct (resolve_plain _ 0 H) as (d & Hd & _). by apply (Hbelow d).
  - destruct (dotdot_last _ _ _ Hp Hs) as [Hne ->].
    destruct (resolve_plain _ 0 Hb) as (d & Hd & _ & Hdots). rewrite Hs in Hbelow |- *.
    destruct d as [|d]; [right|left; apply (Hbelow d); by rewrite resolve_app, Hd].
    split; [by apply walk_dots, Hdots|]. exists b. auto.
Qed.

(** The exception is real: [././..] is the parent of the workspace. *)
Lemma path_containment_witness :
  let policy := mkRuleSet allow low [] in
  let root := ["app"; "srv"] in
  pd_effect (evaluatePathPermission policy "././.." "read") = allow /\
  place root (segments (normalizePolicySubject "././..")) = ["srv"] /\
  exists names, place root (segments (normalizePolicySubject "src/..")) = names ++ root.
Proof.
  split; [by vm_compute|]. split; [by vm_compute|].
  destruct (path_containment (mkRuleSet allow low []) "src/.." "read" ["app"; "srv"]) as [H|[H _]];
    [by vm_compute|exact H|by vm_compute in H].
Defined.

(** Under a policy that allows by default an absolute path anywhere is allowed. *)
Example absolute_open :
  let policy := mkRuleSet allow low [] in
  pd_effect (evaluatePathPermission policy "/etc/passwd" "read") = allow /\
  place ["app"; "srv"] (segments (normalizePolicySubject "/etc/passwd")) = ["passwd"; "etc"].
Proof. by vm_compute. Qed.

(** * Local network hosts *)

Section Hosts.
#[local] Open Scope Z_scope.

(** The text [new URL] gives an IPv4 host. *)
Definition dotted (a b c d : Z) : string :=
  Number_toString a +:+ "." +:+ Number_toString b +:+ "." +:+
  Number_toString c +:+ "." +:+ Number_toString d.

Definition octet (a : Z) : Prop := 0 <= a <= 255.

Definition private_ipv4 (a b c d : Z) : Prop :=
  a = 10 \/ a = 127 \/ a = 169 /\ b = 254 \/ a = 192 /\ b = 168 \/
  a = 172 /\ 16 <= b <= 31 \/ a = 0 /\ b = 0 /\ c = 0 /\ d = 0.

Definition host_char (c : ascii) : bool := ascii_between 48 57 c || Ascii.eqb c ".".

Lemma prefix_split p s : String.prefix p s = true -> exists b, s = p +:+ b.
Proof.
  revert s. induction p as [|c p IH]; intros s H; [by exists s|].
  destruct s as [|d s]; [done|]. simpl in H. destruct (ascii_dec c d) as [->|]; [|done].
  destruct (IH s H) as [b ->]. by exists b.
Qed.

Lemma endsWith_split suffix s : endsWith suffix s = true -> exists a, s = a +:+ suffix.
Proof.
  unfold endsWith. intros [Hl He]%andb_true_iff. apply Nat.leb_le in Hl. apply String.eqb_eq in He.
  exists (String.substring 0 (String.length s - String.length suffix) s).
  rewrite <- He at 2. unfold slice_from. rewrite <- (substring_all s) at 1.
  rewrite (substring_split 0). f_equal. lia.
Qed.

(** A text with a character that is not one of an address is not part of one. *)
Lemma foreign_text p s :
  str_forall host_char s = true -> str_forall host_char p = false ->
  startsWith p s = false /\ endsWith p s = false /\ String.eqb s p = false.
Proof.
  intros Hs Hp. repeat split; apply not_true_is_false; intros H.
  - apply prefix_split in H as [b ->]. by rewrite str_forall_app, Hp in Hs.
  - apply endsWith_split in H as [a ->]. by rewrite str_forall_app, Hp, andb_false_r in Hs.
  - apply String.eqb_eq in H as ->. congruence.
Qed.

Lemma toLowerCase_host s : str_forall host_char s = true -> toLowerCase s = s.
Proof.
  induction s as [|c s IH]; [done|]. cbn [str_forall toLowerCase]. intros [Hc Hs]%andb_true_iff.
  rewrite IH by done. f_equal. unfold lower_char, host_char, ascii_between in *.
  destruct (Ascii.eqb_spec c ".") as [->|_]; [done|]. rewrite orb_false_r in Hc.
  apply andb_true_iff in Hc as [? ?%Nat.leb_le]. 
  destruct (Nat.leb_spec 65 (nat_of_ascii c)), (Nat.leb_spec 192 (nat_of_ascii c)),
    (Nat.leb_spec 216 (nat_of_ascii c)); try lia. done.
Qed.

Lemma octet_host_char n : 0 <= n -> str_forall host_char (Number_toString n) = true.
Proof.
  intros Hn. eapply str_forall_mono; [|by apply Number_toString_digits].
  intros c Hc. unfold host_char. by rewrite Hc.
Qed.

Lemma octet_cut n a r r' :
  0 <= n -> 0 <= a -> Number_toString n +:+ "." +:+ r = Number_toString a +:+ "." +:+ r' ->
  n = a /\ r = r'.
Proof.
  intros Hn Ha H. apply (split_first_unique (ascii_between 48 57)) in H as [H ->];
    [|done|by apply Number_toString_digits..]. by apply Number_toString_inj in H.
Qed.

Lemma startsWith_octet n a r :
  0 <= n -> 0 <= a ->
  startsWith (Number_toString n +:+ ".") (Number_toString a +:+ "." +:+ r) = true <-> a = n.
Proof.
  intros Hn Ha. split.
  - intros [b H]%prefix_split. rewrite append_assoc in H. by apply octet_cut in H as [-> _].
  - intros ->. rewrite <- append_assoc. apply prefix_app.
Qed.

Lemma startsWith_octets n m a b r :
  0 <= n -> 0 <= a -> 0 <= m -> 0 <= b ->
  startsWith (Number_toString n +:+ "." +:+ Number_toString m +:+ ".")
    (Number_toString a +:+ "." +:+ Number_toString b +:+ "." +:+ r) = true <-> a = n /\ b = m.
Proof.
  intros Hn Ha Hm Hb. split.
  - intros [t H]%prefix_split. rewrite !append_assoc in H. apply octet_cut in H as [-> H]; [|done..].
    by apply octet_cut in H as [-> _].
  - intros [-> ->]. rewrite <- !append_assoc. apply prefix_app.
Qed.

Lemma dotted_host_char a b c d :
  0 <= a -> 0 <= b -> 0 <= c -> 0 <= d -> str_forall host_char (dotted a b c d) = true.
Proof.
  intros. unfold dotted. rewrite !str_forall_app, !octet_host_char by done. done.
Qed.

Lemma dotted_no_dot a b c d : 0 <= d -> endsWith "." (dotted a b c d) = false.
Proof.
  intros Hd. apply not_true_is_false. intros [x H]%endsWith_split.
  unfold dotted in H. rewrite <- !append_assoc in H. rewrite (append_assoc _ "." (Number_toString d)) in H.
  change (x +:+ ".") with (x +:+ String "." "") in H.
  apply (split_last_unique (ascii_between 48 57) _ _ x "") in H as [_ H]; [|done|done| |done].
  - by apply Number_toString_nonempty in H.
  - by apply Number_toString_digits.
Qed.

Lemma normalized_host a b c d :
  0 <= a -> 0 <= b -> 0 <= c -> 0 <= d ->
  strip_end "." (strip_end "]" (strip_start "[" (toLowerCase (dotted a b c d)))) = dotted a b c d.
Proof.
  intros Ha Hb Hc Hd. pose proof (dotted_host_char a b c d Ha Hb Hc Hd) as Hs.
  rewrite toLowerCase_host by done. unfold strip_start, strip_end.
  destruct (foreign_text "[" (dotted a b c d) Hs eq_refl) as (-> & _ & _).
  destruct (foreign_text "]" (dotted a b c d) Hs eq_refl) as (_ & -> & _).
  by rewrite dotted_no_dot.
Qed.

Lemma dotted_zero a b c d :
  0 <= a -> 0 <= b -> 0 <= c -> 0 <= d ->
  String.eqb (dotted a b c d) "0.0.0.0" = true <-> a = 0 /\ b = 0 /\ c = 0 /\ d = 0.
Proof.
  intros. rewrite String.eqb_eq. split; [|by intros (-> & -> & -> & ->)].
  change "0.0.0.0" with (dotted 0 0 0 0). unfold dotted. intros Heq.
  apply octet_cut in Heq as [-> Heq]; [|done..].
  apply octet_cut in Heq as [-> Heq]; [|done..].
  apply octet_cut in Heq as [-> Heq]; [|done..]. by apply Number_toString_inj in Heq.
Qed.

(** The second octets the pattern of 172.16.0.0/12 spells. *)
Lemma two_digits_value x y b r r' :
  0 <= b -> ascii_between 48 57 x = true -> ascii_between 48 57 y = true ->
  Number_toString b +:+ "." +:+ r = String x (String y (String "." r')) ->
  b = 10 * (Z.of_nat (nat_of_ascii x) - 48) + (Z.of_nat (nat_of_ascii y) - 48).
Proof.
  intros Hb Hx Hy H. change (String x (String y (String "." r'))) with (String x (String y "") +:+ "." +:+ r') in H.
  apply (split_first_unique (ascii_between 48 57)) in H as [H _];
    [|done|by apply Number_toString_digits|cbn; by rewrite Hx, Hy].
  apply (f_equal (dec_value 0)) in H. unfold Number_toString in H.
  destruct (Z.ltb_spec b 0); [lia|].
  rewrite dec_go_value in H by (split; [done|by apply dec_fuel_enough]). cbn [dec_value] in H. lia.
Qed.

Lemma is_172_private_iff a b r :
  0 <= a -> octet b ->
  is_172_private (Number_toString a +:+ "." +:+ Number_toString b +:+ "." +:+ r) = true <->
  a = 172 /\ 16 <= b <= 31.
Proof.
  intros Ha Hb. unfold is_172_private. rewrite andb_true_iff.
  rewrite (startsWith_octet 172 a _ ltac:(lia) Ha). split.
  - intros [-> H]. split; [done|].
    change (Number_toString 172 +:+ "." +:+ Number_toString b +:+ "." +:+ r)
      with ("172." +:+ (Number_toString b +:+ "." +:+ r)) in H.
    destruct (Number_toString b +:+ "." +:+ r) as [|x [|y [|z r']]] eqn:E; cbn in H; try done.
    apply andb_true_iff in H as [Hz H]. apply Ascii.eqb_eq in Hz as ->.
    rewrite !orb_true_iff, !andb_true_iff, !Ascii.eqb_eq in H.
    unfold ascii_between in H. rewrite !andb_true_iff, !Nat.leb_le in H.
    assert (Hy : ascii_between 48 57 y = true).
    { unfold ascii_between. rewrite andb_true_iff, !Nat.leb_le. lia. }
    destruct H as [[[-> H]|[-> H]]|[-> H]];
      (apply two_digits_value in E; [|by destruct Hb|done|done]);
      [change (nat_of_ascii "1") with 49%nat in E|change (nat_of_ascii "2") with 50%nat in E
      |change (nat_of_ascii "3") with 51%nat in E]; lia.
  - intros [-> Hr]. split; [done|].
    assert (Hex : forallb (fun n => match Number_toString n with
        | String x (String y "") => Ascii.eqb x "1" && ascii_between 54 57 y
          || Ascii.eqb x "2" && ascii_between 48 57 y || Ascii.eqb x "3" && ascii_between 48 49 y
        | _ => false end) (seqZ 16 16) = true) by by vm_compute.
    rewrite forallb_forall in Hex.
    specialize (Hex b ltac:(apply list_elem_of_In, elem_of_seqZ; lia)).
    by destruct (Number_toString b) as [|x [|y [|]]].
Qed.

Lemma local_ipv4 a b c d :
  octet a -> octet b -> octet c -> octet d ->
  isLocalNetworkHost (dotted a b c d) = true <-> private_ipv4 a b c d.
Proof.
  intros [Ha _] Hb [Hc _] [Hd _]. pose proof (proj1 Hb) as Hb0.
  pose proof (dotted_host_char a b c d Ha Hb0 Hc Hd) as Hs.
  unfold isLocalNetworkHost. rewrite normalized_host by done.
  destruct (foreign_text "localhost" _ Hs eq_refl) as (_ & _ & ->).
  destruct (foreign_text ".localhost" _ Hs eq_refl) as (_ & -> & _).
  destruct (foreign_text "::" _ Hs eq_refl) as (_ & _ & ->).
  destruct (foreign_text "::1" _ Hs eq_refl) as (_ & _ & ->).
  destruct (foreign_text "fc" _ Hs eq_refl) as (-> & _ & _).
  destruct (foreign_text "fd" _ Hs eq_refl) as (-> & _ & _).
  unfold is_fe80. destruct (foreign_text "fe" _ Hs eq_refl) as (-> & _ & _).
  cbn [andb]. rewrite !orb_false_r, !orb_false_l, !orb_true_iff, dotted_zero by done.
  unfold dotted. rewrite is_172_private_iff by done.
  rewrite (startsWith_octet 10 a _ ltac:(lia) Ha), (startsWith_octet 127 a _ ltac:(lia) Ha).
  rewrite (startsWith_octets 169 254 a b _ ltac:(lia) Ha ltac:(lia) Hb0).
  rewrite (startsWith_octets 192 168 a b _ ltac:(lia) Ha ltac:(lia) Hb0).
  unfold private_ipv4. tauto.
Qed.

End Hosts.

(** The local network is closed unless a rule opens it: a request to a local
    host is allowed only when the last rule that matches it says so and denied
    otherwise, never asked for; and the IPv4 hosts that count as local are
    exactly the loopback, link-local, private and unspecified addresses. *)
Theorem local_network_closed `{!UrlParser} policy url operation u :
  parsePolicyUrl url = Some u ->
  (isLocalNetworkHost (hostname u) = true ->
   let d := evaluateNetworkPermission policy url operation in
   match find_last (applies (rq_network url operation)) (rs_rules policy) with
   | Some rule => if decide (pr_effect rule = allow)
                  then pd_effect d = allow /\ pd_matchedRule d = Some rule
                  else pd_effect d = deny
   | None => pd_effect d = deny
   end) /\
  forall a b c d, octet a -> octet b -> octet c -> octet d ->
    isLocalNetworkHost (dotted a b c d) = true <-> private_ipv4 a b c d.
Proof.
  intros Hu. split; [|apply local_ipv4]. intros Hl. cbv zeta.
  pose proof (evaluatePermission_eq (mkPolicy policy policy policy policy policy policy policy policy)
    (rq_network url operation)) as Heval.
  cbv zeta in Heval. cbn [refused consulted network evaluatePermission] in Heval.
  rewrite Hu, Hl in Heval. cbn [andb] in Heval.
  destruct (find_last _ _) as [rule|]; cbn [fmap option_fmap option_map] in Heval.
  - destruct (decide (pr_effect rule = allow)) as [Ha|Ha].
    + rewrite bool_decide_eq_false_2 in Heval by (rewrite Ha; intros Hn; by apply Hn).
      destruct Heval as (domain & subject & ->). split; [exact Ha|done].
    + rewrite bool_decide_eq_true_2 in Heval by congruence. by destruct Heval.
  - rewrite bool_decide_eq_true_2 in Heval by done. by destruct Heval.
Qed.

(** A parser for the texts the witnesses use: [http://] and a host. *)
Definition demo_parser : UrlParser := fun raw =>
  if startsWith "http://" raw then Some (mkUrl (slice_from 7 raw) (raw +:+ "/")) else None.

Lemma local_network_closed_witness :
  let _ := demo_parser in
  parsePolicyUrl "http://10.0.0.7" = Some (mkUrl "10.0.0.7" "http://10.0.0.7/") /\
  (isLocalNetworkHost (dotted 10 0 0 7) = true <-> private_ipv4 10 0 0 7).
Proof.
  intros P. split; [by vm_compute|].
  apply (local_network_closed (mkRuleSet allow low []) "http://10.0.0.7" "fetch"
    (mkUrl "10.0.0.7" "http://10.0.0.7/")); [by vm_compute|unfold octet; lia..].
Defined.

(** An IPv4 address in IPv6 notation is not recognised. *)
Example mapped_loopback_open :
  let _ : UrlParser := demo_parser in
  isLocalNetworkHost "[::ffff:7f00:1]" = false /\
  pd_effect (evaluateNetworkPermission (mkRuleSet allow low []) "http://[::ffff:7f00:1]" "fetch") = allow.
Proof. by vm_compute. Qed.

(** * Policies and JSON *)

Section Json.
#[local] Open Scope Z_scope.


Definition opt_field {A} (k : string) (f : A -> json) (o : option A) : JsonRecord :=
  match o with Some x => [(k, f x)] | None => [] end.

Definition json_of_rule (r : PermissionRule) : json := JObj
  ([("id", JStr (pr_id r)); ("pattern", JStr (pr_pattern r));
    ("effect", JStr (PermissionEffect_str (pr_effect r)))] ++
   opt_field "reason" JStr (pr_reason r) ++
   opt_field "riskLevel" (fun x => JStr (PermissionRiskLevel_str x)) (pr_riskLevel r) ++
   opt_field "approvalPrompt" JStr (pr_approvalPrompt r)).

Definition json_of_ruleset (s : RuleSetPolicy) : json := JObj
  [("defaultEffect", JStr (PermissionEffect_str (rs_defaultEffect s)));
   ("defaultRiskLevel", JStr (PermissionRiskLevel_str (rs_defaultRiskLevel s)));
   ("rules", JArr (map json_of_rule (rs_rules s)))].

Definition policy_sets (p : PermissionPolicy) : list RuleSetPolicy :=
  [commands p; paths p; network p; git p; packageManagers p; secrets p;
   externalServices p; tools p].
Definition json_of_policy (p : PermissionPolicy) : json :=
  JObj (zip policy_fields (map json_of_ruleset (policy_sets p))).

Definition valid_rule (r : PermissionRule) : bool :=
  str_between 1 160 (pr_id r) && str_between 1 2000 (pr_pattern r) &&
  from_option (str_between 1 2000) true (pr_reason r) &&
  from_option (str_between 1 2000) true (pr_approvalPrompt r).
Definition valid_policy (p : PermissionPolicy) : bool :=
  forallb (fun s => forallb valid_rule (rs_rules s)) (policy_sets p).

Lemma z_string_eq lo hi s :
  z_string lo hi (JStr s) = if str_between lo hi s then Some (JStr s) else None.
Proof. done. Qed.

Lemma effect_schema e : PermissionEffectSchema (JStr (PermissionEffect_str e)) =
  Some (JStr (PermissionEffect_str e)).
Proof. by destruct e. Qed.
Lemma risk_schema r : PermissionRiskLevelSchema (JStr (PermissionRiskLevel_str r)) =
  Some (JStr (PermissionRiskLevel_str r)).
Proof. by destruct r. Qed.

Lemma rule_schema r :
  PermissionRuleSchema (json_of_rule r) = if valid_rule r then Some (json_of_rule r) else None.
Proof.
  destruct r as [id pattern effect reason risk prompt].
  unfold PermissionRuleSchema, json_of_rule, valid_rule, z_object.
  cbn [pr_id pr_pattern pr_effect pr_reason pr_riskLevel pr_approvalPrompt].
  destruct reason, risk, prompt; simpl; unfold parse_field; simpl;
    rewrite ?z_string_eq, effect_schema, ?risk_schema;
    repeat (destruct (str_between _ _ _); simpl); done.
Qed.

Lemma rule_decode r : rule_of_json (json_of_rule r) = Some r.
Proof. by destruct r as [id pattern [] [] [[]|] []]. Qed.

Lemma mapM_encode {A} (f : A -> json) (z : zod) (ok : A -> bool) l :
  (forall x, z (f x) = if ok x then Some (f x) else None) ->
  mapM z (map f l) = if forallb ok l then Some (map f l) else None.
Proof.
  intros H. induction l as [|x l IH]; simpl; [done|]. rewrite H, IH.
  by destruct (ok x), (forallb ok l).
Qed.

Lemma mapM_decode {A} (f : A -> json) (g : json -> option A) l :
  (forall x, g (f x) = Some x) -> mapM g (map f l) = Some l.
Proof. intros H. induction l as [|x l IH]; simpl; [done|]. by rewrite H, IH. Qed.

Lemma ruleset_schema s :
  RuleSetPolicySchema (json_of_ruleset s) =
  if forallb valid_rule (rs_rules s) then Some (json_of_ruleset s) else None.
Proof.
  unfold RuleSetPolicySchema, json_of_ruleset, z_object. simpl. unfold parse_field. simpl.
  rewrite effect_schema, risk_schema.
  rewrite (mapM_encode _ _ _ _ rule_schema). by destruct (forallb _ _).
Qed.

Lemma ruleset_decode s : ruleset_of_json (json_of_ruleset s) = Some s.
Proof.
  destruct s as [effect risk rules]. unfold ruleset_of_json, json_of_ruleset. simpl.
  rewrite (mapM_decode _ _ _ rule_decode). by destruct effect, risk.
Qed.
End Json.
#[local] Arguments json_of_ruleset : simpl never.
#[local] Arguments RuleSetPolicySchema : simpl never.
#[local] Arguments ruleset_of_json : simpl never.

(** A policy survives its JSON: what is written from a policy parses back to
    it when its texts have the lengths the schema asks for, and does not parse
    when they have not. *)
Theorem policy_roundtrip policy :
  parsePermissionPolicy (json_of_policy policy) =
  if valid_policy policy then Some policy else None.
Proof.
  destruct policy as [c p n g m s e t].
  unfold parsePermissionPolicy, PermissionPolicySchema, json_of_policy, valid_policy, z_object.
  cbn [policy_sets commands paths network git packageManagers secrets externalServices tools].
  simpl. unfold parse_field. simpl. rewrite !ruleset_schema.
  repeat (destruct (forallb valid_rule _); simpl; [|done]).
  rewrite !ruleset_decode. done.
Qed.
