(* ===== verification/Regex.v ===== *)
(** Regular expressions of the sources: a matcher for the part of them that is
    used, and [split] at white space. *)
From S2P Require Import Prelude Js.
From Stdlib Require Import Ascii.
#[local] Open Scope Z_scope.

(** The part of regular expressions the sources use: a character of a class, any
    number of them, and a word boundary. *)
Inductive rx : Type :=
| One (p : ascii -> bool)
| Many (p : ascii -> bool)
| Bnd.

(** Matching at a position, after the character [prev]. *)
Fixpoint rx_here (r : list rx) (prev : option ascii) (s : string) : bool :=
  match r with
  | [] => true
  | One p :: r' =>
      match s with String c s' => p c && rx_here r' (Some c) s' | EmptyString => false end
  | Bnd :: r' => xorb (is_word prev) (is_word (first_char s)) && rx_here r' prev s
  | Many p :: r' =>
      (fix go (prev : option ascii) (s : string) : bool :=
         rx_here r' prev s ||
         match s with String c s' => p c && go (Some c) s' | EmptyString => false end) prev s
  end.

(** [pattern.test(s)] *)
Fixpoint rx_search (r : list rx) (prev : option ascii) (s : string) : bool :=
  rx_here r prev s ||
  match s with String c s' => rx_search r (Some c) s' | EmptyString => false end.
Definition rx_test (alternatives : list (list rx)) (s : string) : bool :=
  existsb (fun r => rx_search r None s) alternatives.

Definition lit (s : string) : list rx := map (fun c => One (Ascii.eqb c)) (String.list_ascii_of_string s).
Definition word (s : string) : list rx := Bnd :: lit s ++ [Bnd].
(** [.] *)
Definition any_char (c : ascii) : bool :=
  negb (Ascii.eqb c (ascii_of_nat 10) || Ascii.eqb c (ascii_of_nat 13)).
(** [\s+], [\S+] and [.*] *)
Definition spaces : list rx := [One is_space; Many is_space].
Definition nonspaces : list rx := let p c := negb (is_space c) in [One p; Many p].
Definition anything : list rx := [Many any_char].

(** [s.split(/\s+/)]: cut at every white space, and drop the empty texts between
    two of them. *)
Fixpoint cut_spaces (s : string) : list string :=
  match s with
  | EmptyString => [""]
  | String c s' =>
      if is_space c then "" :: cut_spaces s'
      else match cut_spaces s' with
           | first :: others => String c first :: others
           | [] => [String c ""]
           end
  end.
Fixpoint drop_inner (pieces : list string) : list string :=
  match pieces with
  | [] => []
  | [last] => [last]
  | piece :: rest => if String.eqb piece "" then drop_inner rest else piece :: drop_inner rest
  end.
Definition split_spaces (s : string) : list string :=
  match cut_spaces s with [] => [] | first :: rest => first :: drop_inner rest end.
