(* ===== verification/Tasks.v ===== *)
(** Tasks and runs of [packages/execution-engine/src/runtime]: the entities and
    their state machines (task/Task.ts, task/TaskState.ts, run/Run.ts,
    run/RunStateMachine.ts) and the repositories that keep them in the storage
    of a durable object (task/TaskRepository.ts, run/RunRepository.ts).  A run's
    [blockConcurrencyWhile] makes each write one step on the storage.  The
    creation and update dates of a task, which nothing reads, are left out. *)
From stdpp Require Import sorting.
From S2P Require Import Prelude Js.
#[local] Open Scope Z_scope.

(** An exception of this package: an [Error] with its message, or another
    value. *)
Inductive exn : Type :=
| Exn (message : string)
| NotAnError.
#[export] Instance exn_eq_dec : EqDecision exn.
Proof. solve_decision. Defined.

(** [error instanceof Error ? error.message : "Unknown error"] *)
Definition exn_message (e : exn) : string :=
  match e with Exn m => m | NotAnError => "Unknown error" end.

(** * Task states *)

Inductive TaskStatus : Type :=
| PENDING | READY | RUNNING | DONE | FAILED | BLOCKED | CANCELLED | RETRYING.
#[export] Instance TaskStatus_eq_dec : EqDecision TaskStatus.
Proof. solve_decision. Defined.

Definition TaskStatus_str (s : TaskStatus) : string :=
  match s with
  | PENDING => "PENDING" | READY => "READY" | RUNNING => "RUNNING" | DONE => "DONE"
  | FAILED => "FAILED" | BLOCKED => "BLOCKED" | CANCELLED => "CANCELLED"
  | RETRYING => "RETRYING"
  end.

Module TaskState.
Definition VALID_TRANSITIONS (from : TaskStatus) : list TaskStatus :=
  match from with
  | PENDING => [READY; FAILED; CANCELLED]
  | READY => [RUNNING; BLOCKED; CANCELLED]
  | RUNNING => [DONE; FAILED; CANCELLED]
  | DONE => []
  | FAILED => [RETRYING; CANCELLED]
  | BLOCKED => [READY; CANCELLED]
  | CANCELLED => []
  | RETRYING => [RUNNING]
  end.

Definition isValidTransition (from to : TaskStatus) : bool :=
  bool_decide (to ∈ VALID_TRANSITIONS from).
Definition getValidTransitions := VALID_TRANSITIONS.
Definition isTerminal (s : TaskStatus) : bool := bool_decide (s ∈ [DONE; CANCELLED; FAILED]).
Definition isActive (s : TaskStatus) : bool :=
  bool_decide (s ∈ [PENDING; READY; RUNNING; BLOCKED; RETRYING]).
Definition canStart (s : TaskStatus) : bool := bool_decide (s = READY \/ s = RETRYING).
Definition getInitialStatus : TaskStatus := PENDING.

Definition validateTaskStateTransition (from to : TaskStatus) : res exn unit :=
  if isValidTransition from to then Ok tt
  else Err (Exn ("[task/state] Invalid transition from " +:+ dquote +:+ TaskStatus_str from +:+
    dquote +:+ " to " +:+ dquote +:+ TaskStatus_str to +:+ dquote +:+
    ". Valid transitions from " +:+ dquote +:+ TaskStatus_str from +:+ dquote +:+ " are: " +:+
    match getValidTransitions from with
    | [] => "none (terminal state)"
    | tos => join ", " (map TaskStatus_str tos)
    end)).
End TaskState.

(** * Tasks *)

Record Task : Type := mkTask {
  t_id : string;
  t_runId : string;
  t_type : string;
  t_status : TaskStatus;
  t_dependencies : list string;
  t_input : json;
  t_output : option json;
  t_error : option string;
  t_retryCount : Z;
  t_maxRetries : Z;
}.

Definition InvalidTaskStateTransitionError (from to : TaskStatus) : exn :=
  Exn ("[task/state] Invalid transition from " +:+ TaskStatus_str from +:+ " to " +:+
       TaskStatus_str to).

(** [transition(newStatus, { output, error })] *)
Definition transition (newStatus : TaskStatus) (output : option json) (err : option string)
    (t : Task) : res exn Task :=
  if TaskState.isValidTransition (t_status t) newStatus then
    Ok (mkTask (t_id t) (t_runId t) (t_type t) newStatus (t_dependencies t) (t_input t)
          (match output with Some _ => output | None => t_output t end)
          (match err with Some _ => err | None => t_error t end)
          (t_retryCount t) (t_maxRetries t))
  else Err (InvalidTaskStateTransitionError (t_status t) newStatus).

Definition canRetry (t : Task) : bool :=
  (t_retryCount t <? t_maxRetries t) && bool_decide (t_status t = FAILED).

Definition incrementRetry (t : Task) : Task :=
  mkTask (t_id t) (t_runId t) (t_type t) (t_status t) (t_dependencies t) (t_input t)
    (t_output t) (t_error t) (t_retryCount t + 1) (t_maxRetries t).

Definition isReady (t : Task) : bool :=
  bool_decide (t_status t = READY) ||
  bool_decide (t_status t = PENDING) && (length (t_dependencies t) =? 0)%nat.

(** * Runs *)

Inductive RunStatus : Type :=
| R_CREATED | R_PLANNING | R_RUNNING | R_PAUSED | R_COMPLETED | R_FAILED | R_CANCELLED.
#[export] Instance RunStatus_eq_dec : EqDecision RunStatus.
Proof. solve_decision. Defined.

Definition RunStatus_str (s : RunStatus) : string :=
  match s with
  | R_CREATED => "CREATED" | R_PLANNING => "PLANNING" | R_RUNNING => "RUNNING"
  | R_PAUSED => "PAUSED" | R_COMPLETED => "COMPLETED" | R_FAILED => "FAILED"
  | R_CANCELLED => "CANCELLED"
  end.

Module RunStateMachine.
Definition VALID_TRANSITIONS (from : RunStatus) : list RunStatus :=
  match from with
  | R_CREATED => [R_PLANNING; R_RUNNING; R_CANCELLED]
  | R_PLANNING => [R_RUNNING; R_FAILED; R_CANCELLED]
  | R_RUNNING => [R_PAUSED; R_COMPLETED; R_FAILED; R_CANCELLED]
  | R_PAUSED | R_COMPLETED | R_FAILED | R_CANCELLED => []
  end.
Definition isValidTransition (from to : RunStatus) : bool :=
  bool_decide (to ∈ VALID_TRANSITIONS from).
Definition getValidTransitions := VALID_TRANSITIONS.
Definition isTerminalState (s : RunStatus) : bool :=
  bool_decide (s ∈ [R_PAUSED; R_COMPLETED; R_FAILED; R_CANCELLED]).
Definition isActiveState (s : RunStatus) : bool :=
  bool_decide (s ∈ [R_CREATED; R_PLANNING; R_RUNNING]).
End RunStateMachine.

(** A run; of its metadata, the fields the state machine and the recovery write. *)
Record Run : Type := mkRun {
  r_id : string;
  r_sessionId : string;
  r_status : RunStatus;
  r_input : json;
  r_output : option json;
  r_startedAt : option string;
  r_completedAt : option string;
  r_error : option string;
}.

Definition InvalidStateTransitionError (from to : RunStatus) : exn :=
  Exn ("[run/state] Invalid transition from " +:+ RunStatus_str from +:+ " to " +:+
       RunStatus_str to).

(** [transition(newStatus)] at the time [now] *)
Definition run_transition (now : string) (newStatus : RunStatus) (r : Run) : res exn Run :=
  if RunStateMachine.isValidTransition (r_status r) newStatus then
    Ok (mkRun (r_id r) (r_sessionId r) newStatus (r_input r) (r_output r)
          (if bool_decide (newStatus = R_RUNNING) &&
              negb (is_some (r_startedAt r) && bool_decide (r_startedAt r <> Some ""))
           then Some now else r_startedAt r)
          (if RunStateMachine.isTerminalState newStatus then Some now else r_completedAt r)
          (r_error r))
  else Err (InvalidStateTransitionError (r_status r) newStatus).

Definition set_run_error (e : string) (r : Run) : Run :=
  mkRun (r_id r) (r_sessionId r) (r_status r) (r_input r) (r_output r) (r_startedAt r)
    (r_completedAt r) (Some e).

(** * The repositories *)

(** The values the storage holds: a task, a run, or a list of ids. *)
Inductive stored : Type :=
| StTask (t : Task)
| StRun (r : Run)
| StIds (ids : list string).

Notation Storage := (gmap string stored).

Module TaskRepository.
Definition TASK_KEY_PREFIX : string := "task:".
Definition RUN_TASKS_KEY_PREFIX : string := "run_tasks:".

Definition getTaskKey (taskId runId : string) : string :=
  TASK_KEY_PREFIX +:+ runId +:+ ":" +:+ taskId.
Definition getRunTasksKey (runId : string) : string := RUN_TASKS_KEY_PREFIX +:+ runId.

(** [storage.get<string[]>(key) ?? []] *)
Definition stored_ids (key : string) (s : Storage) : list string :=
  match s !! key with Some (StIds ids) => ids | _ => [] end.

Definition create (t : Task) (s : Storage) : Storage :=
  let runTasksKey := getRunTasksKey (t_runId t) in
  let s := <[getTaskKey (t_id t) (t_runId t) := StTask t]> s in
  let existingTaskIds := stored_ids runTasksKey s in
  if decide (t_id t ∈ existingTaskIds) then s
  else <[runTasksKey := StIds (existingTaskIds ++ [t_id t])]> s.

Definition getById (taskId runId : string) (s : Storage) : option Task :=
  match s !! getTaskKey taskId runId with Some (StTask t) => Some t | _ => None end.

Definition getByIds (taskIds : list string) (runId : string) (s : Storage) : list Task :=
  omap (fun taskId => getById taskId runId s) taskIds.

Definition getByRun (runId : string) (s : Storage) : list Task :=
  getByIds (stored_ids (getRunTasksKey runId) s) runId s.

Definition getByRunAndStatus (runId : string) (status : TaskStatus) (s : Storage) : list Task :=
  filter (fun t => t_status t = status) (getByRun runId s).

Definition update (t : Task) (s : Storage) : Storage :=
  <[getTaskKey (t_id t) (t_runId t) := StTask t]> s.

Definition updateMany (ts : list Task) (s : Storage) : Storage :=
  foldl (fun s t => update t s) s ts.

Definition deleteByRun (runId : string) (s : Storage) : Storage :=
  let runTasksKey := getRunTasksKey runId in
  let taskIds := stored_ids runTasksKey s in
  delete runTasksKey (foldl (fun s taskId => delete (getTaskKey taskId runId) s) s taskIds).
End TaskRepository.

Module RunRepository.
Definition RUN_KEY_PREFIX : string := "run:".
Definition SESSION_RUNS_KEY_PREFIX : string := "session_runs:".
Definition getRunKey (runId : string) : string := RUN_KEY_PREFIX +:+ runId.
Definition getSessionRunsKey (sessionId : string) : string := SESSION_RUNS_KEY_PREFIX +:+ sessionId.

Definition create (r : Run) (s : Storage) : Storage :=
  let sessionRunsKey := getSessionRunsKey (r_sessionId r) in
  let s := <[getRunKey (r_id r) := StRun r]> s in
  let existingRunIds := TaskRepository.stored_ids sessionRunsKey s in
  if decide (r_id r ∈ existingRunIds) then s
  else <[sessionRunsKey := StIds (existingRunIds ++ [r_id r])]> s.

Definition getById (runId : string) (s : Storage) : option Run :=
  match s !! getRunKey runId with Some (StRun r) => Some r | _ => None end.

Definition getBySession (sessionId : string) (s : Storage) : list Run :=
  omap (fun runId => getById runId s)
    (TaskRepository.stored_ids (getSessionRunsKey sessionId) s).

Definition update (r : Run) (s : Storage) : Storage := <[getRunKey (r_id r) := StRun r]> s.

Definition updateUnlessStatus (r : Run) (blockedStatuses : list RunStatus) (s : Storage)
    : bool * Storage :=
  match getById (r_id r) s with
  | Some current =>
      if decide (r_status current ∈ blockedStatuses) then (false, s) else (true, update r s)
  | None => (true, update r s)
  end.

Definition key_le (x y : string * stored) : Prop := String.leb (fst x) (fst y) = true.
#[export] Instance key_le_dec : RelDecision key_le.
Proof. intros x y. unfold key_le. apply _. Defined.

(** [storage.list({ prefix })]: the entries under a prefix, by key. *)
Definition list_prefix (prefix : string) (s : Storage) : list (string * stored) :=
  merge_sort key_le
    (filter (fun kv => String.prefix prefix (fst kv) = true) (map_to_list s)).

Definition listActiveRuns (s : Storage) : list Run :=
  omap (fun kv => match snd kv with
                  | StRun r => if RunStateMachine.isActiveState (r_status r) then Some r else None
                  | _ => None
                  end) (list_prefix RUN_KEY_PREFIX s).
End RunRepository.
