(* ===== verification/Scheduler.v ===== *)
(** The task scheduler of [packages/execution-engine/src/runtime/orchestration]:
    RetryClassifier.ts, RetryPolicy.ts and TaskScheduler.ts.  The executor and
    the hooks are parameters that act on an environment of their own type; a
    batch runs its tasks one after another (each touches only its own record of
    the storage).  The retry recursion and the main loop take fuel:
    [SchedulerProps] gives how much is enough, and when no fuel is. *)
From S2P Require Import Prelude Js Regex Tasks.
From Stdlib Require Import Ascii.
#[local] Open Scope Z_scope.

(** * RetryClassifier.ts *)

Definition not_quote (c : ascii) : bool := negb (Ascii.eqb c "'").

Inductive RetryReasonCode : Type :=
| DETERMINISTIC_COMMAND_POLICY | DETERMINISTIC_PATH_VALIDATION
| DETERMINISTIC_INPUT_VALIDATION | DETERMINISTIC_INVALID_TARGET
| TRANSIENT_OR_UNKNOWN.

Record RetryClassification : Type := mkClassification {
  rc_retryable : bool;
  rc_reasonCode : RetryReasonCode;
}.

Definition DETERMINISTIC_RULES : list (list (list rx) * RetryReasonCode) :=
  [([lit "command not allowed"; lit "git shell commands are not allowed";
     lit "unsafe shell token"], DETERMINISTIC_COMMAND_POLICY);
   ([lit "path traversal detected"; lit "absolute paths are not allowed";
     lit "path cannot be empty"], DETERMINISTIC_PATH_VALIDATION);
   ([Bnd :: lit "missing '" ++ One not_quote :: Many not_quote :: lit "' field" ++ [Bnd];
     word "must be a concrete non-empty"; word "invalid git action"; word "invalid payload";
     word "schema validation"], DETERMINISTIC_INPUT_VALIDATION);
   ([word "is a directory"; word "no such file or directory"; word "file does not exist";
     Bnd :: lit "path " ++ Many any_char :: lit " not found" ++ [Bnd];
     Bnd :: lit "target " ++ Many any_char :: lit " ambiguous" ++ [Bnd];
     word "no files matched glob pattern"; word "no matches found for"],
    DETERMINISTIC_INVALID_TARGET)].

(** The patterns have the flag [i] and no upper case letters. *)
Fixpoint first_rule (rules : list (list (list rx) * RetryReasonCode)) (message : string)
    : RetryClassification :=
  match rules with
  | [] => mkClassification true TRANSIENT_OR_UNKNOWN
  | (pattern, reasonCode) :: rules' =>
      if rx_test pattern (toLowerCase message) then mkClassification false reasonCode
      else first_rule rules' message
  end.

Definition classifyRetryability (message : string) : RetryClassification :=
  first_rule DETERMINISTIC_RULES message.

(** * RetryPolicy.ts *)

Record RetryPolicy : Type := mkRetryPolicy {
  rp_maxRetries : Z;
  rp_baseDelayMs : Z;
  rp_backoffMultiplier : Z;
}.

Definition new_RetryPolicy (maxRetries baseDelayMs backoffMultiplier : option Z)
    : res exn RetryPolicy :=
  let p := mkRetryPolicy (default 3 maxRetries) (default 1000 baseDelayMs)
             (default 2 backoffMultiplier) in
  if rp_maxRetries p <? 0 then Err (Exn "maxRetries must be non-negative")
  else if rp_baseDelayMs p <? 0 then Err (Exn "baseDelayMs must be non-negative")
  else if rp_backoffMultiplier p <? 1 then Err (Exn "backoffMultiplier must be >= 1")
  else Ok p.

Definition shouldRetry (p : RetryPolicy) (t : Task) (attempt : Z) : bool :=
  if rp_maxRetries p <? attempt then false
  else if rp_maxRetries p <=? t_retryCount t then false
  else true.

Definition getBackoffDelay (p : RetryPolicy) (attempt : Z) : Z :=
  if attempt <=? 0 then 0 else rp_baseDelayMs p * rp_backoffMultiplier p ^ (attempt - 1).

(** * TaskScheduler.ts *)

Record TaskResult : Type := mkResult {
  tr_taskId : string;
  tr_status : TaskStatus;
  tr_output : option json;
  tr_error : option string;
}.

Record SchedulerConfig : Type := mkConfig {
  sc_concurrencyLimit : Z;
  sc_enforceReadOnlyParallel : bool;
  sc_readOnlyTaskTypes : list string;
}.

Definition SchedulerError (message : string) : exn := Exn ("[task/scheduler] " +:+ message).
Definition SchedulerTaskResultError (taskId status message : string) : exn :=
  Exn ("[task/scheduler] Task " +:+ taskId +:+ " returned " +:+ status +:+ ": " +:+ message).

Definition new_SchedulerConfig (concurrencyLimit : option Z) (enforceReadOnlyParallel : option bool)
    (readOnlyTaskTypes : option (list string)) : res exn SchedulerConfig :=
  let limit := default 1 concurrencyLimit in
  if limit <? 1 then Err (SchedulerError "concurrencyLimit must be >= 1")
  else Ok (mkConfig limit (default true enforceReadOnlyParallel)
             (map toLowerCase (default ["analyze"; "review"] readOnlyTaskTypes))).

(** The task executor, and the optional hooks of the caller. *)
Class TaskExecutor (E : Type) : Type :=
  executor_execute : Task -> E -> res exn TaskResult * E.

Record SchedulerHooks (E : Type) : Type := mkHooks {
  beforeTask : option (Task -> E -> res exn unit * E);
  afterTask : option (Task -> TaskResult -> E -> res exn unit * E);
  onTaskError : option (Task -> exn -> E -> res exn unit * E);
  onRetryDecision : option (Task -> RetryClassification -> E -> res exn unit * E);
}.
Arguments mkHooks {E}.
Arguments beforeTask {E}.
Arguments afterTask {E}.
Arguments onTaskError {E}.
Arguments onRetryDecision {E}.

(** An exception, or the end of the fuel, which no handler catches. *)
Inductive stop : Type :=
| Threw (e : exn)
| OutOfFuel.

Section Scheduler.
Context {E : Type} `{!TaskExecutor E}.
Variable config : SchedulerConfig.
Variable hooks : SchedulerHooks E.

Definition SM (A : Type) : Type := ST (Storage * E) stop A.

Definition js_throw {A} (e : exn) : SM A := throw (Threw e).
Definition js_lift {A} (r : res exn A) : SM A :=
  match r with Ok a => mret a | Err e => js_throw e end.
Definition js_catch {A} (m : SM A) (h : exn -> SM A) : SM A :=
  try_catch m (fun s => match s with Threw e => h e | OutOfFuel => throw OutOfFuel end).

(** A call into the environment. *)
Definition env {A} (f : E -> res exn A * E) : SM A := fun '(s, e) =>
  let '(r, e') := f e in
  (match r with Ok a => Ok a | Err x => Err (Threw x) end, (s, e')).
Definition repo {A} (f : Storage -> A) : SM A := gets (fun w => f (fst w)).
Definition save (t : Task) : SM unit := modify (fun w => (TaskRepository.update t (fst w), snd w)).

Definition call_hook (h : option (E -> res exn unit * E)) : SM unit :=
  match h with Some f => env f | None => mret tt end.

Definition isReadOnlyTask (taskType : string) : bool :=
  bool_decide (toLowerCase taskType ∈ sc_readOnlyTaskTypes config).

Definition selectExecutionBatch (readyTasks : list Task) : list Task :=
  let limit := Z.to_nat (sc_concurrencyLimit config) in
  if (sc_concurrencyLimit config =? 1) || negb (sc_enforceReadOnlyParallel config)
  then take limit readyTasks
  else
    match filter (fun t => isReadOnlyTask (t_type t) = true) readyTasks with
    | [] => take 1 readyTasks
    | readOnlyTasks => take limit readOnlyTasks
    end.

Definition failTask (t : Task) (message : string) : SM unit :=
  t' ← js_lift (transition FAILED None (Some message) t);
  save t'.

(** [handleTaskFailure], with the task object as it leaves it; [retry] runs the
    task again. *)
Definition handleTaskFailure (retry : string -> string -> SM TaskResult) (t : Task) (error : exn)
    : SM (Task * TaskResult) :=
  let errorMessage := exn_message error in
  t ← js_lift (transition FAILED None (Some errorMessage) t);
  let classification := classifyRetryability errorMessage in
  let retryDecision := mkClassification (canRetry t && rc_retryable classification)
                         (rc_reasonCode classification) in
  _ ← js_catch (call_hook ((fun h => h t retryDecision) <$> onRetryDecision hooks))
        (fun _ => mret tt);
  if rc_retryable retryDecision then
    t ← js_lift (transition RETRYING None None (incrementRetry t));
    _ ← save t;
    result ← retry (t_id t) (t_runId t);
    mret (t, result)
  else
    _ ← save t;
    mret (t, mkResult (t_id t) FAILED None (Some errorMessage)).

(** The body of the [try]: run a task to success. *)
Definition runTask (t : Task) : SM (Task * TaskResult) :=
  result ← env (executor_execute t);
  if decide (tr_status result = DONE) then
    t ← js_lift (transition DONE (tr_output result) None t);
    _ ← save t;
    mret (t, result)
  else
    js_throw (SchedulerTaskResultError (t_id t) (TaskStatus_str (tr_status result))
      (default ("Task " +:+ t_id t +:+ " returned non-success status: " +:+
                TaskStatus_str (tr_status result)) (tr_error result))).

(** What the [catch] sees of [task]: the object [runTask] was given, moved to
    [DONE] when it is [afterTask] that threw. *)
Definition runAndReport (t : Task) : SM (TaskResult + Task * exn) :=
  r ← js_catch (r ← runTask t; mret (inl r)) (fun e => mret (inr (t, e)));
  match r with
  | inr failure => mret (inr failure)
  | inl (t, result) =>
      js_catch (_ ← call_hook ((fun h => h t result) <$> afterTask hooks); mret (inl result))
        (fun e => mret (inr (t, e)))
  end.

(** The whole [try] statement. *)
Definition runToEnd (retry : string -> string -> SM TaskResult) (t : Task) : SM TaskResult :=
  r ← runAndReport t;
  match r with
  | inl result => mret result
  | inr (t, error) =>
      _ ← call_hook ((fun h => h t error) <$> onTaskError hooks);
      r ← handleTaskFailure retry t error;
      _ ← call_hook ((fun h => h (fst r) (snd r)) <$> afterTask hooks);
      mret (snd r)
  end.

Fixpoint executeSingleWithHooks (fuel : nat) (taskId runId : string) : SM TaskResult :=
  match fuel with
  | O => throw OutOfFuel
  | S fuel' =>
      task ← repo (TaskRepository.getById taskId runId);
      match task with
      | None => js_throw (SchedulerError ("Task " +:+ taskId +:+ " not found in run " +:+ runId))
      | Some t =>
          if decide (t_status t ∈ [READY; RETRYING]) then
            _ ← call_hook ((fun h => h t) <$> beforeTask hooks);
            t ← js_lift (transition RUNNING None None t);
            _ ← save t;
            runToEnd (executeSingleWithHooks fuel') t
          else js_throw (SchedulerError ("Task " +:+ taskId +:+
                 " is not ready for execution (status: " +:+ TaskStatus_str (t_status t) +:+ ")"))
      end
  end.

Definition bestEffortFinalizeRunningTask (taskId runId : string) (error : exn) : SM unit :=
  persistedTask ← repo (TaskRepository.getById taskId runId);
  match persistedTask with
  | Some t =>
      if decide (t_status t = RUNNING) then
        js_catch (failTask t (exn_message error)) (fun _ => mret tt)
      else mret tt
  | None => mret tt
  end.

Definition executeBatch (fuel : nat) (tasks : list Task) (runId : string) : SM unit :=
  for_of tasks (fun t =>
    js_catch (_ ← executeSingleWithHooks fuel (t_id t) runId; mret tt)
      (fun error => bestEffortFinalizeRunningTask (t_id t) runId error)).

Definition checkDependencies (t : Task) (runId : string) : SM bool :=
  dependencies ← repo (TaskRepository.getByIds (t_dependencies t) runId);
  if (length dependencies =? length (t_dependencies t))%nat then
    match find (fun d => bool_decide (t_status d = FAILED)) dependencies with
    | Some failedDep =>
        _ ← failTask t ("Dependency task " +:+ t_id failedDep +:+ " failed");
        mret false
    | None =>
        if forallb (fun d => bool_decide (t_status d = DONE)) dependencies then
          t ← js_lift (transition READY None None t);
          _ ← save t;
          mret true
        else mret false
    end
  else
    let foundIds := map t_id dependencies in
    let missingIds := filter (fun id => id ∉ foundIds) (t_dependencies t) in
    _ ← failTask t ("Missing dependencies: " +:+ Js.join ", " missingIds);
    mret false.

Definition preparePendingTask (t : Task) (runId : string) : SM bool :=
  match t_dependencies t with
  | [] =>
      t ← js_lift (transition READY None None t);
      _ ← save t;
      mret true
  | _ => checkDependencies t runId
  end.

(** The tasks [readyTasks] collects; their ids are what is used of them. *)
Fixpoint collectReady (tasks : list Task) (runId : string) : SM (list Task) :=
  match tasks with
  | [] => mret []
  | t :: tasks' =>
      if decide (t_status t = READY) then
        rest ← collectReady tasks' runId; mret (t :: rest)
      else if decide (t_status t = PENDING) then
        ready ← preparePendingTask t runId;
        rest ← collectReady tasks' runId;
        mret (if ready : bool then t :: rest else rest)
      else collectReady tasks' runId
  end.

Definition findAllReadyTasks (runId : string) : SM (list Task) :=
  allTasks ← repo (TaskRepository.getByRun runId);
  collectReady allTasks runId.

Definition hasExecutableTasks (runId : string) (s : Storage) : bool :=
  existsb (fun t => bool_decide (t_status t ∈ [READY; PENDING]))
    (TaskRepository.getByRun runId s).

Definition hasPendingTasks (runId : string) (s : Storage) : bool :=
  existsb (fun t => bool_decide (t_status t ∈ [PENDING; READY; RUNNING; RETRYING]))
    (TaskRepository.getByRun runId s).

(** [fuel] bounds the rounds of the loop and [depth] the retries of a task. *)
Fixpoint execute (fuel depth : nat) (runId : string) : SM unit :=
  match fuel with
  | O => throw OutOfFuel
  | S fuel' =>
      executable ← repo (hasExecutableTasks runId);
      if executable : bool then
        readyTasks ← findAllReadyTasks runId;
        match readyTasks with
        | [] =>
            hasPending ← repo (hasPendingTasks runId);
            if hasPending : bool
            then js_throw (SchedulerError "Task dependency deadlock detected")
            else mret tt
        | _ =>
            _ ← executeBatch depth (selectExecutionBatch readyTasks) runId;
            execute fuel' depth runId
        end
      else mret tt
  end.

Definition executeSingle (fuel : nat) (taskId runId : string) : SM TaskResult :=
  executeSingleWithHooks fuel taskId runId.
End Scheduler.
