(* ===== verification/SchedulerProps.v ===== *)
(** The scheduler against its abstract specification: a queue of tasks that move
    one at a time ([queue_step]).  Every execution, whatever the executor and the
    hooks do, is a sequence of such steps; the order of dependencies, the bound
    on retries and the end of the main loop follow from the steps. *)
From S2P Require Import Prelude Js Tasks Scheduler.
#[local] Open Scope Z_scope.

(** * The specification *)

Section Queue.
Variable runId : string.

Notation find_task id s := (TaskRepository.getById id runId s).

Definition dependencies_done (t : Task) (s : Storage) : Prop :=
  forall d, d ∈ t_dependencies t -> exists td, find_task d s = Some td /\ t_status td = DONE.

(** A task with a dependency that is missing or has failed. *)
Definition hopeless (t : Task) (s : Storage) : Prop :=
  exists d, d ∈ t_dependencies t /\
    forall td, find_task d s = Some td -> t_status td = FAILED.

(** One task moves: it becomes ready when all it depends on is done, fails when
    that can no longer happen, starts, and ends; a failure may instead use up a
    retry. *)
Inductive task_step (s : Storage) : Task -> Task -> Prop :=
| ts_ready t t' :
    t_status t = PENDING -> dependencies_done t s ->
    transition READY None None t = Ok t' -> task_step s t t'
| ts_hopeless t t' message :
    t_status t = PENDING -> hopeless t s ->
    transition FAILED None (Some message) t = Ok t' -> task_step s t t'
| ts_start t t' :
    transition RUNNING None None t = Ok t' -> task_step s t t'
| ts_done t t' output :
    transition DONE output None t = Ok t' -> task_step s t t'
| ts_failed t t' message :
    t_status t = RUNNING -> transition FAILED None (Some message) t = Ok t' -> task_step s t t'
| ts_retry t t1 t' message :
    t_status t = RUNNING -> transition FAILED None (Some message) t = Ok t1 ->
    rc_retryable (classifyRetryability message) = true -> canRetry t1 = true ->
    transition RETRYING None None (incrementRetry t1) = Ok t' -> task_step s t t'.

Inductive queue_step (s : Storage) : Storage -> Prop :=
| qs_task t t' :
    find_task (t_id t) s = Some t -> t_runId t = runId -> task_step s t t' ->
    queue_step s (TaskRepository.update t' s).

Definition run_ids (s : Storage) : list string :=
  TaskRepository.stored_ids (TaskRepository.getRunTasksKey runId) s.

(** The tasks of the run are stored under their own keys, and listed once. *)
Definition queue_ok (s : Storage) : Prop :=
  (forall id t, find_task id s = Some t -> t_id t = id /\ t_runId t = runId) /\
  NoDup (run_ids s).

(** * Facts about steps *)

Lemma transition_Ok st o m t t' :
  transition st o m t = Ok t' <->
  TaskState.isValidTransition (t_status t) st = true /\
  t' = mkTask (t_id t) (t_runId t) (t_type t) st (t_dependencies t) (t_input t)
         (match o with Some _ => o | None => t_output t end)
         (match m with Some _ => m | None => t_error t end) (t_retryCount t) (t_maxRetries t).
Proof. unfold transition. destruct (TaskState.isValidTransition _ _); naive_solver. Qed.

Lemma transition_fields st o m t t' :
  transition st o m t = Ok t' ->
  t_id t' = t_id t /\ t_runId t' = t_runId t /\ t_dependencies t' = t_dependencies t /\
  t_status t' = st /\ t_retryCount t' = t_retryCount t /\ t_maxRetries t' = t_maxRetries t.
Proof. by intros [_ ->]%transition_Ok. Qed.

Lemma task_key_inj id id' :
  TaskRepository.getTaskKey id runId = TaskRepository.getTaskKey id' runId -> id = id'.
Proof. unfold TaskRepository.getTaskKey. intros H. by do 3 apply append_inj_l in H. Qed.

Lemma task_key_ids id r : TaskRepository.getTaskKey id runId <> TaskRepository.getRunTasksKey r.
Proof. done. Qed.

Lemma find_update t s id :
  t_runId t = runId ->
  find_task id (TaskRepository.update t s) = if decide (id = t_id t) then Some t else find_task id s.
Proof.
  intros Hr. unfold TaskRepository.getById, TaskRepository.update. rewrite Hr. case_decide as Hid.
  - subst id. by rewrite lookup_insert_eq.
  - rewrite lookup_insert_ne; [done|]. intros H%task_key_inj. congruence.
Qed.

Lemma ids_update t s r :
  t_runId t = runId ->
  TaskRepository.stored_ids (TaskRepository.getRunTasksKey r) (TaskRepository.update t s) =
  TaskRepository.stored_ids (TaskRepository.getRunTasksKey r) s.
Proof.
  intros Hr. unfold TaskRepository.stored_ids, TaskRepository.update.
  rewrite lookup_insert_ne; [done|]. rewrite Hr. apply task_key_ids.
Qed.

Lemma task_step_fields s t t' :
  task_step s t t' -> t_id t' = t_id t /\ t_runId t' = t_runId t /\
    t_dependencies t' = t_dependencies t.
Proof.
  intros Hs. destruct Hs; repeat match goal with
  | H : transition _ _ _ _ = Ok _ |- _ => apply transition_fields in H; cbn in H
  end; intuition congruence.
Qed.

Lemma queue_step_ids s s' : queue_step s s' -> run_ids s' = run_ids s.
Proof.
  intros [t t' Ht Hr Hs]. apply task_step_fields in Hs as (_ & Hrun & _).
  apply ids_update. congruence.
Qed.

Lemma queue_step_ok s s' : queue_step s s' -> queue_ok s -> queue_ok s'.
Proof.
  intros Hq [Hok Hnd]. split; [|by rewrite (queue_step_ids _ _ Hq)].
  destruct Hq as [t t' Ht Hr Hs]. intros id u Hu. apply task_step_fields in Hs as (Hi & Hrun & _).
  rewrite find_update in Hu by congruence. case_decide; simplify_eq; [split; congruence|by apply Hok].
Qed.

Lemma queue_steps_ok s s' : rtc queue_step s s' -> queue_ok s -> queue_ok s'.
Proof. induction 1; eauto using queue_step_ok. Qed.

(** Every step is a transition of the table (a retry is two). *)
Definition legal (t t' : Task) : Prop :=
  rtc (fun a b => TaskState.isValidTransition a b = true) (t_status t) (t_status t') /\
  t_dependencies t' = t_dependencies t /\ t_maxRetries t' = t_maxRetries t /\
  t_retryCount t <= t_retryCount t' <= Z.max (t_retryCount t) (t_maxRetries t).

Lemma legal_refl t : legal t t.
Proof. repeat split; [constructor|lia..]. Qed.

Lemma legal_trans t t' t'' : legal t t' -> legal t' t'' -> legal t t''.
Proof.
  intros (H1 & H2 & H3 & H4) (H1' & H2' & H3' & H4'). repeat split; [by etrans|congruence|congruence|lia..].
Qed.

Lemma transition_legal st o m t t' : transition st o m t = Ok t' -> legal t t'.
Proof.
  intros [Hv ->]%transition_Ok. unfold legal. cbn. repeat split; [by apply rtc_once|lia..].
Qed.

Lemma retry_legal t : canRetry t = true -> legal t (incrementRetry t).
Proof.
  unfold canRetry. intros [H _]%andb_true_iff. apply Z.ltb_lt in H.
  unfold legal. cbn. repeat split; [constructor|lia..].
Qed.

Lemma task_step_legal s t t' : task_step s t t' -> legal t t'.
Proof.
  destruct 1; try by eapply transition_legal.
  eapply legal_trans; [by eapply transition_legal|].
  eapply legal_trans; [by apply retry_legal|by eapply transition_legal].
Qed.

(** ** Order *)

(** What has started, or may start, has all it depends on done. *)
Definition in_order (s : Storage) : Prop :=
  forall id t, find_task id s = Some t -> t_status t ∈ [READY; RUNNING; RETRYING; DONE] ->
  dependencies_done t s.

Lemma done_is_final s t t' : task_step s t t' -> t_status t <> DONE.
Proof.
  destruct 1; try congruence;
    match goal with H : transition _ _ _ t = Ok _ |- _ => apply transition_Ok in H as [Hv _] end;
    intros Hd; by rewrite Hd in Hv.
Qed.

Lemma dependencies_done_step s s' t :
  queue_step s s' -> dependencies_done t s -> dependencies_done t s'.
Proof.
  intros [u u' Hu Hr Hs] Hd d Hin. destruct (Hd d Hin) as (td & Hf & Hst).
  pose proof (task_step_fields _ _ _ Hs) as (Hi & Hrun & _).
  exists td. rewrite find_update by congruence. case_decide as Hid; [|done].
  assert (td = u) as -> by congruence. by apply done_is_final in Hs.
Qed.

Lemma started_before s t t' :
  task_step s t t' -> t_status t' ∈ [READY; RUNNING; RETRYING; DONE] ->
  t_status t ∈ [READY; RUNNING; RETRYING; DONE] \/ dependencies_done t s.
Proof.
  destruct 1 as [t t' _ Hd H|t t' m _ _ H|t t' H|t t' o H|t t' m Hs H|t t1 t' m Hs _ _ _ _];
    intros Hin; [by right| |left..].
  - apply transition_fields in H as (_ & _ & _ & Hst & _). rewrite Hst in Hin. set_solver.
  - apply transition_Ok in H as [Hv _]. destruct (t_status t); first [by vm_compute in Hv|set_solver].
  - apply transition_Ok in H as [Hv _]. destruct (t_status t); first [by vm_compute in Hv|set_solver].
  - rewrite Hs. set_solver.
  - rewrite Hs. set_solver.
Qed.

Lemma queue_step_in_order s s' : queue_step s s' -> in_order s -> in_order s'.
Proof.
  intros Hstep Hord id t Ht Hst. apply (dependencies_done_step s); [done|].
  destruct Hstep as [u u' Hu Hr Hs]. pose proof (task_step_fields _ _ _ Hs) as (Hi & Hrun & Hd).
  rewrite find_update in Ht by congruence. case_decide as Hid; [|by eapply Hord].
  simplify_eq. unfold dependencies_done. rewrite Hd.
  destruct (started_before _ _ _ Hs Hst) as [Hst'|?]; [|done]. by eapply Hord.
Qed.

(** ** Progress *)

(** How many steps a task can still take. *)
Definition retries_left (t : Task) : nat := Z.to_nat (t_maxRetries t - t_retryCount t).
Definition task_weight (t : Task) : nat :=
  match t_status t with
  | PENDING => 3 + 2 * retries_left t
  | READY | RETRYING => 2 + 2 * retries_left t
  | RUNNING => 1 + 2 * retries_left t
  | _ => 0
  end.

Definition id_weight (s : Storage) (id : string) : nat :=
  from_option task_weight 0%nat (find_task id s).
Definition queue_weight (s : Storage) : nat := sum_list_with (id_weight s) (run_ids s).

Lemma task_step_weight s t t' : task_step s t t' -> (task_weight t' < task_weight t)%nat.
Proof.
  destruct 1 as [t t' Hp _ H|t t' m Hp _ H|t t' H|t t' o H|t t' m Hs H|t t1 t' m Hs H _ Hr H'];
    unfold task_weight, retries_left;
    repeat match goal with
    | H : transition _ _ _ _ = Ok _ |- _ =>
        let Hv := fresh "Hv" in
        pose proof H as [Hv _]%transition_Ok;
        apply transition_fields in H as (_ & _ & _ & ?Hst & ?Hc & ?Hm)
    end.
  - rewrite Hst, Hp. lia.
  - rewrite Hst, Hp. lia.
  - rewrite Hst. destruct (t_status t); first [by vm_compute in Hv | lia].
  - rewrite Hst. destruct (t_status t); first [by vm_compute in Hv | lia].
  - rewrite Hst, Hs. lia.
  - unfold canRetry in Hr. apply andb_true_iff in Hr as [Hr%Z.ltb_lt _]. cbn in *.
    rewrite Hs. destruct (t_status t'); try discriminate. lia.
Qed.

Lemma sum_list_with_le {A} (f g : A -> nat) l :
  (forall x, x ∈ l -> f x <= g x)%nat -> (sum_list_with f l <= sum_list_with g l)%nat.
Proof.
  induction l as [|x l IH]; intros H; simpl; [done|].
  assert (f x <= g x)%nat by (apply H; set_solver).
  assert (sum_list_with f l <= sum_list_with g l)%nat by (apply IH; set_solver). lia.
Qed.

Lemma sum_list_with_lt {A} (f g : A -> nat) l x :
  (forall y, y ∈ l -> f y <= g y)%nat -> x ∈ l -> (f x < g x)%nat ->
  (sum_list_with f l < sum_list_with g l)%nat.
Proof.
  intros Hle Hin Hlt. induction Hin as [x l|x y l Hin IH]; simpl.
  - assert (sum_list_with f l <= sum_list_with g l)%nat
      by (apply sum_list_with_le; intros; apply Hle; set_solver). lia.
  - assert (f y <= g y)%nat by (apply Hle; set_solver).
    assert (sum_list_with f l < sum_list_with g l)%nat by (apply IH; [intros; apply Hle; set_solver|done]). lia.
Qed.

Lemma queue_step_id_weight s s' id : queue_step s s' -> (id_weight s' id <= id_weight s id)%nat.
Proof.
  intros [t t' Ht Hr Hs]. pose proof (task_step_fields _ _ _ Hs) as (Hi & Hrun & _).
  unfold id_weight. rewrite find_update by congruence. case_decide as Hid; [|done].
  rewrite Hid, Hi, Ht. simpl. apply task_step_weight in Hs. lia.
Qed.

Lemma queue_steps_weight s s' : rtc queue_step s s' -> (queue_weight s' <= queue_weight s)%nat.
Proof.
  induction 1 as [|s s1 s' Hs _ IH]; [done|]. etrans; [exact IH|].
  unfold queue_weight. rewrite (queue_step_ids _ _ Hs). apply sum_list_with_le.
  intros. by apply queue_step_id_weight.
Qed.

Lemma queue_steps_ids s s' : rtc queue_step s s' -> run_ids s' = run_ids s.
Proof. induction 1 as [|s s1 s' Hs _ IH]; [done|]. by rewrite IH, (queue_step_ids _ _ Hs). Qed.

(** Steps of a task of the queue use up its weight. *)
Lemma queue_step_weight_lt s s' t t' :
  find_task (t_id t) s = Some t -> t_runId t = runId -> t_id t ∈ run_ids s ->
  task_step s t t' -> rtc queue_step (TaskRepository.update t' s) s' ->
  (queue_weight s' < queue_weight s)%nat.
Proof.
  intros Ht Hr Hin Hs Hrest. apply queue_steps_weight in Hrest.
  pose proof (qs_task s t t' Ht Hr Hs) as Hq.
  assert (queue_weight (TaskRepository.update t' s) < queue_weight s)%nat; [|lia].
  unfold queue_weight. rewrite (queue_step_ids _ _ Hq).
  apply (sum_list_with_lt _ _ _ (t_id t)); [|done|].
  - intros. by apply queue_step_id_weight.
  - pose proof (task_step_fields _ _ _ Hs) as (Hi & Hrun & _). unfold id_weight.
    rewrite find_update by congruence. rewrite decide_True by done. rewrite Ht. simpl.
    by eapply task_step_weight.
Qed.

End Queue.

(** * The scheduler takes such steps *)

Section Execution.
Context {E : Type} `{!TaskExecutor E}.
Variable config : SchedulerConfig.
Variable hooks : SchedulerHooks E.
Variable runId : string.

Notation World := (Storage * E)%type.
Notation find_task id s := (TaskRepository.getById id runId s).
Notation step := (queue_step runId).
Notation single := (executeSingleWithHooks hooks).

Definition at_task (t : Task) (s : Storage) : Prop :=
  find_task (t_id t) s = Some t /\ t_runId t = runId.

(** The hook before a task never throws. *)
Definition quiet_before : Prop :=
  forall h t e, beforeTask hooks = Some h -> is_ok (fst (h t e)) = true.

Lemma wp_env {A} (f : E -> res exn A * E) (Q : A -> World -> Prop) (X : stop -> World -> Prop) s e :
  (forall a e', f e = (Ok a, e') -> Q a (s, e')) ->
  (forall x e', f e = (Err x, e') -> X (Threw x) (s, e')) -> wp (env f) Q X (s, e).
Proof. intros HQ HX. unfold wp, env. destruct (f e) as [[] e'] eqn:He; auto. Qed.

Lemma wp_hook (h : option (E -> res exn unit * E)) (Q : unit -> World -> Prop)
    (X : stop -> World -> Prop) s e :
  (forall e', Q tt (s, e')) ->
  (forall f x e', h = Some f -> f e = (Err x, e') -> X (Threw x) (s, e')) ->
  wp (call_hook h) Q X (s, e).
Proof.
  intros HQ HX. destruct h as [f|]; [|by apply wp_ret].
  apply wp_env; [by intros [] e' _|by intros; eapply HX].
Qed.

Lemma wp_js_lift {A} (r : res exn A) (Q : A -> World -> Prop) (X : stop -> World -> Prop) w :
  (forall a, r = Ok a -> Q a w) -> (forall x, r = Err x -> X (Threw x) w) -> wp (js_lift r) Q X w.
Proof. destruct r; unfold wp; simpl; auto. Qed.

Lemma wp_js_catch {A} (m : SM A) (h : exn -> SM A) (Q : A -> World -> Prop)
    (X : stop -> World -> Prop) w :
  wp m Q (fun x w' => match x with Threw e => wp (h e) Q X w' | OutOfFuel => X OutOfFuel w' end) w ->
  wp (js_catch m h) Q X w.
Proof.
  intros H. apply wp_try_catch. eapply wp_mono; [exact H|done|].
  intros [e|] w' HX; [exact HX|by apply wp_throw].
Qed.

Lemma save_task t t' s :
  at_task t s -> task_step runId s t t' ->
  step s (TaskRepository.update t' s) /\ at_task t' (TaskRepository.update t' s).
Proof.
  intros [Ht Hr] Hs. split; [by eapply qs_task|].
  pose proof (task_step_fields _ _ _ _ Hs) as (Hi & Hrun & _).
  split; [|congruence]. rewrite find_update by congruence. by rewrite decide_True.
Qed.

Lemma wp_save t t' s e (Q : unit -> World -> Prop) (X : stop -> World -> Prop) :
  at_task t s -> task_step runId s t t' ->
  (forall s', step s s' -> at_task t' s' -> s' = TaskRepository.update t' s -> Q tt (s', e)) ->
  wp (save t') Q X (s, e).
Proof. intros Ht Hs HQ. apply wp_modify. simpl. destruct (save_task t t' s Ht Hs). auto. Qed.

Lemma runAndReport_spec t s e :
  at_task t s -> t_status t = RUNNING ->
  wp (runAndReport hooks t)
    (fun r w => rtc step s (fst w) /\
       match r with
       | inl _ => True
       | inr (t', _) => at_task t' (fst w) /\ (t' = t \/ t_status t' = DONE)
       end) (fun _ _ => False) (s, e).
Proof.
  intros Ht Hrun. unfold runAndReport. apply wp_bind.
  apply (wp_mono _ (fun r w => rtc step s (fst w) /\
       match r with
       | inl (t', _) => at_task t' (fst w) /\ t_status t' = DONE
       | inr (t', _) => at_task t' (fst w) /\ t' = t
       end) _ (fun _ _ => False)); [| |done].
  - apply wp_js_catch. apply wp_bind. unfold runTask. apply wp_bind.
    apply wp_env; [|intros x e' _; apply wp_ret; by split].
    intros result e' _. case_decide; [|apply wp_throw, wp_ret; by split].
    apply wp_bind, wp_js_lift; [|intros x _; apply wp_ret; by split].
    intros t' Ht'. apply wp_bind. eapply wp_save; [exact Ht|by eapply ts_done|].
    intros s' Hs' Hat _. apply wp_ret, wp_ret. split; [by apply rtc_once|].
    split; [done|]. by apply transition_fields in Ht' as (_ & _ & _ & -> & _).
  - intros [[t' result]|[t' error]] [s' e'] [Hs H]; [|apply wp_ret; naive_solver].
    destruct H as [Hat Hd]. apply wp_js_catch, wp_bind. apply wp_hook.
    + intros e1. by apply wp_ret.
    + intros f x e1 _ _. apply wp_ret. split; [done|]. auto.
Qed.

(** What a run of a task leaves behind: steps of the queue, and when it stops for
    want of fuel, the task had more retries than that. *)
Definition stops_at (n : nat) (id : string) (s : Storage) (x : stop) (w : World) : Prop :=
  rtc step s (fst w) /\
  (x = OutOfFuel -> n = 0%nat \/
    exists t, find_task id s = Some t /\ t_status t ∈ [READY; RETRYING] /\ (n <= retries_left t)%nat).

Lemma handleTaskFailure_spec n retry t error s e :
  (forall id s e, queue_ok runId s ->
     wp (retry id runId) (fun _ w => rtc step s (fst w)) (stops_at n id s) (s, e)) ->
  queue_ok runId s -> at_task t s -> t_status t = RUNNING \/ t_status t = DONE ->
  wp (handleTaskFailure hooks retry t error) (fun _ w => rtc step s (fst w))
    (fun x w => rtc step s (fst w) /\
       (x = OutOfFuel -> t_status t = RUNNING /\ (S n <= retries_left t)%nat)) (s, e).
Proof.
  intros Hretry Hok Hat Hst. unfold handleTaskFailure.
  apply wp_bind, wp_js_lift; [|by intros]. intros t1 Ht1.
  assert (Hrun : t_status t = RUNNING).
  { destruct Hst as [?|Hd]; [done|]. apply transition_Ok in Ht1 as [Hv _]. by rewrite Hd in Hv. }
  pose proof Ht1 as (Hi1 & Hr1 & _ & _ & Hc1 & Hm1)%transition_fields.
  apply wp_bind, (wp_mono _ (fun _ w => fst w = s) _ (fun _ _ => False)); [| |done].
  { apply wp_js_catch, wp_hook; [done|]. intros f x e' _ _. by apply wp_ret. }
  intros _ [s1 e1] Hs1. simpl in Hs1. subst s1. cbn [rc_retryable].
  destruct (canRetry t1 && rc_retryable _) eqn:Hretryable.
  - apply andb_true_iff in Hretryable as [Hcan Hclass].
    apply wp_bind, wp_js_lift; [|by intros]. intros t2 Ht2.
    pose proof Ht2 as (Hi2 & Hr2 & _ & _ & Hc2 & Hm2)%transition_fields. cbn in Hi2, Hr2, Hc2, Hm2.
    apply wp_bind. eapply wp_save; [exact Hat|by eapply ts_retry|].
    intros s' Hs' Hat' _. apply wp_bind. rewrite (proj2 Hat').
    eapply wp_mono; [apply Hretry; by eapply queue_step_ok| |].
    + intros r [s2 e2] H2. apply wp_ret. by eapply rtc_l.
    + intros x [s2 e2] [H2 Hfuel]. split; [by eapply rtc_l|]. intros Hx. split; [done|].
      unfold canRetry in Hcan. apply andb_true_iff in Hcan as [Hcan%Z.ltb_lt _].
      destruct (Hfuel Hx) as [->|(u & Hu & _ & Hn)]; [unfold retries_left; lia|].
      rewrite (proj1 Hat') in Hu. simplify_eq. unfold retries_left in *. lia.
  - apply wp_bind. eapply wp_save; [exact Hat|by eapply ts_failed|].
    intros s' Hs' _ _. apply wp_ret. by apply rtc_once.
Qed.

Lemma runToEnd_spec n retry t s e :
  (forall id s e, queue_ok runId s ->
     wp (retry id runId) (fun _ w => rtc step s (fst w)) (stops_at n id s) (s, e)) ->
  queue_ok runId s -> at_task t s -> t_status t = RUNNING ->
  wp (runToEnd hooks retry t) (fun _ w => rtc step s (fst w))
    (fun x w => rtc step s (fst w) /\ (x = OutOfFuel -> (S n <= retries_left t)%nat)) (s, e).
Proof.
  intros Hretry Hok Hat Hst. unfold runToEnd.
  apply wp_bind. eapply wp_mono; [by apply runAndReport_spec| |done].
  intros [result|[t2 error]] [s2 e2] [Hs2 H2]; simpl in *; [by apply wp_ret|].
  destruct H2 as [Hat2 Ht2]. apply wp_bind, wp_hook; [|intros; by split].
  intros e3. apply wp_bind. eapply wp_mono; [apply (handleTaskFailure_spec n); [exact Hretry|..]| |].
  - by eapply queue_steps_ok.
  - done.
  - destruct Ht2 as [->|?]; auto.
  - intros r [s3 e4] H3. simpl in H3. apply wp_bind, wp_hook.
    + intros e5. apply wp_ret. simpl. by etrans.
    + intros f x e5 _ _. split; [simpl; by etrans|done].
  - intros x [s3 e4] [H3 Hfuel]. split; [simpl in *; by etrans|]. intros Hx.
    destruct (Hfuel Hx) as [Hst2 Hn]. destruct Ht2 as [->|Hd]; [done|congruence].
Qed.

(** Running a task: [progress] when it could start and its hook let it. *)
Definition progress (id : string) (s : Storage) (w : World) : Prop :=
  quiet_before -> forall t, find_task id s = Some t -> t_status t ∈ [READY; RETRYING] ->
  exists t', task_step runId s t t' /\ rtc step (TaskRepository.update t' s) (fst w).

Lemma single_spec fuel id s e :
  queue_ok runId s ->
  wp (single fuel id runId) (fun _ w => rtc step s (fst w) /\ progress id s w)
    (fun x w => stops_at fuel id s x w /\ (x <> OutOfFuel -> progress id s w)) (s, e).
Proof.
  revert id s e. induction fuel as [|fuel IH]; intros id s e Hok.
  { apply wp_throw. split; [split; [done|by left]|done]. }
  cbn [executeSingleWithHooks]. apply wp_bind, wp_gets. cbn [fst].
  destruct (find_task id s) as [t|] eqn:Ht.
  2: { apply wp_throw. split; [split; [done|congruence]|]. intros _ _ t Ht'. congruence. }
  destruct (proj1 Hok id t Ht) as [Hid Hr]. subst id.
  case_decide as Hst.
  2: { apply wp_throw. split; [split; [done|congruence]|]. intros _ _ t' Ht'. congruence. }
  apply wp_bind, wp_hook.
  2: { intros f x e' Hf Hx. split; [split; [done|congruence]|]. intros _ Hq.
       destruct (beforeTask hooks) as [h|] eqn:Hh; [|done]. injection Hf as <-.
       specialize (Hq h t e Hh). by rewrite Hx in Hq. }
  intros e1. apply wp_bind, wp_js_lift.
  2: { intros x Hx. exfalso. unfold transition in Hx.
       destruct (TaskState.isValidTransition (t_status t) RUNNING) eqn:Hv; [done|].
       destruct (t_status t); first [by vm_compute in Hv|set_solver]. }
  intros t1 Ht1. pose proof Ht1 as (Hi1 & Hr1 & _ & Hst1 & Hc1 & Hm1)%transition_fields.
  assert (Hat : at_task t s) by done.
  assert (Hstart : task_step runId s t t1) by by eapply ts_start.
  apply wp_bind. eapply wp_save; [exact Hat|exact Hstart|]. intros s1 Hs1 Hat1 ->.
  set (s1 := TaskRepository.update t1 s) in *.
  assert (Hprog : forall w, rtc step s1 (fst w) -> progress (t_id t) s w).
  { intros w Hw _ t0 Ht0 _. assert (t0 = t) as -> by congruence. by exists t1. }
  assert (Hretry : forall id s e, queue_ok runId s -> wp (single fuel id runId)
    (fun _ w => rtc step s (fst w)) (stops_at fuel id s) (s, e)).
  { intros id' s' e' Hok'. eapply wp_mono; [by apply IH|naive_solver|naive_solver]. }
  pose proof (runToEnd_spec fuel (single fuel) t1 s1 e1 Hretry
    (queue_step_ok _ _ _ Hs1 Hok) Hat1 Hst1) as Hrest.
  eapply wp_mono; [exact Hrest| |].
  - intros r w Hw. split; [by eapply rtc_l|by apply Hprog].
  - intros x w [Hw Hfuel]. split; [split; [by eapply rtc_l|]|by intros _; apply Hprog].
    intros Hx. right. exists t. specialize (Hfuel Hx).
    unfold retries_left in *. by rewrite Hc1, Hm1 in Hfuel.
Qed.

(** ** Batches *)

Lemma failTask_spec t m s e :
  at_task t s -> (forall t', transition FAILED None (Some m) t = Ok t' -> task_step runId s t t') ->
  TaskState.isValidTransition (t_status t) FAILED = true ->
  wp (failTask t m)
    (fun _ (w : World) => exists t', transition FAILED None (Some m) t = Ok t' /\ snd w = e /\
       step s (fst w) /\ fst w = TaskRepository.update t' s) (fun _ _ => False) (s, e).
Proof.
  intros Hat Hstep Hv. apply wp_bind, wp_js_lift.
  - intros t' Ht'. eapply wp_save; [exact Hat|by apply Hstep|]. intros s' Hs' _ ->. by exists t'.
  - intros x Hx. unfold transition in Hx. by rewrite Hv in Hx.
Qed.

Lemma finalize_spec id err s e :
  queue_ok runId s ->
  wp (bestEffortFinalizeRunningTask id runId err) (fun _ (w : World) => rtc step s (fst w))
    (fun _ _ => False) (s, e).
Proof.
  intros Hok. apply wp_bind, wp_gets. cbn [fst].
  destruct (find_task id s) as [t|] eqn:Ht; [|by apply wp_ret].
  destruct (proj1 Hok id t Ht) as [<- Hr]. case_decide as Hst; [|by apply wp_ret].
  apply wp_js_catch. eapply wp_mono; [apply failTask_spec| |done].
  - done.
  - intros t' Ht'. by eapply ts_failed.
  - by rewrite Hst.
  - intros _ w (t' & _ & _ & Hs & _). by apply rtc_once.
Qed.

Lemma retries_weight s id t :
  find_task id s = Some t -> t_status t ∈ [READY; RETRYING] -> id ∈ run_ids runId s ->
  (retries_left t <= queue_weight runId s)%nat.
Proof.
  intros Ht Hst Hin. unfold queue_weight.
  assert (Hle : (id_weight runId s id <= sum_list_with (id_weight runId s) (run_ids runId s))%nat).
  { revert Hin. generalize (run_ids runId s). intros l Hin.
    induction Hin as [x l|x y l Hin IH]; simpl in *; [lia|]. specialize (IH Ht). lia. }
  unfold id_weight in Hle at 1. rewrite Ht in Hle. simpl in Hle. unfold task_weight in Hle.
  destruct (t_status t); try lia; set_solver.
Qed.

(** The first task of the batch, ready as it is, uses up some weight. *)
Definition drains (ts : list Task) (s s' : Storage) : Prop :=
  quiet_before -> forall t0 t, head ts = Some t0 -> find_task (t_id t0) s = Some t ->
  t_status t = READY -> (queue_weight runId s' < queue_weight runId s)%nat.

Lemma progress_drains t0 ts s w :
  queue_ok runId s -> t_id t0 ∈ run_ids runId s -> progress (t_id t0) s w ->
  drains (t0 :: ts) s (fst w).
Proof.
  intros Hok Hid Hp Hq t1 t [= <-] Ht Hst. destruct (Hp Hq t Ht) as (t' & Hs & Hrest); [set_solver|].
  destruct (proj1 Hok _ _ Ht) as [Hi Hr].
  eapply queue_step_weight_lt; [| | |exact Hs|exact Hrest]; congruence.
Qed.

Lemma drains_mono ts s s1 s2 : rtc step s1 s2 -> drains ts s s1 -> drains ts s s2.
Proof.
  intros Hs2 Hd Hq t0 t H1 H2 H3. specialize (Hd Hq t0 t H1 H2 H3).
  apply queue_steps_weight in Hs2. lia.
Qed.

(** A batch runs to its end: it throws nothing, and stops for want of fuel only
    when it is given less than the weight of the queue. *)
Definition lacks_fuel (depth : nat) (s : Storage) (x : stop) (w : World) : Prop :=
  rtc step s (fst w) /\ x = OutOfFuel /\ (depth <= queue_weight runId s)%nat.

Lemma executeBatch_spec depth ts s e :
  queue_ok runId s -> Forall (fun t => t_id t ∈ run_ids runId s) ts ->
  wp (executeBatch hooks depth ts runId)
    (fun _ w => rtc step s (fst w) /\ drains ts s (fst w)) (lacks_fuel depth s) (s, e).
Proof.
  revert s e. induction ts as [|t0 ts IH]; intros s e Hok Hids; [by apply wp_ret|].
  inversion_clear Hids as [|? ? Hid Hids']. cbn [executeBatch for_of].
  apply wp_bind, wp_js_catch, wp_bind.
  assert (Hrest : forall s1 e1, rtc step s s1 -> drains (t0 :: ts) s s1 ->
    wp (executeBatch hooks depth ts runId)
      (fun _ w => rtc step s (fst w) /\ drains (t0 :: ts) s (fst w)) (lacks_fuel depth s) (s1, e1)).
  { intros s1 e1 Hs1 Hd. eapply wp_mono; [apply IH| |].
    - by eapply queue_steps_ok.
    - by rewrite (queue_steps_ids _ _ _ Hs1).
    - intros _ [s2 e2] [Hs2 _]. simpl in *. split; [by etrans|]. by eapply drains_mono.
    - intros x [s2 e2] (Hs2 & -> & Hdep). apply queue_steps_weight in Hs1 as Hw. simpl in *.
      repeat split; [simpl; by etrans|lia]. }
  eapply wp_mono; [by apply single_spec| |].
  - intros r [s1 e1] [Hs1 Hp]. apply wp_ret. apply Hrest; [done|].
    by apply (progress_drains t0 ts s (s1, e1)).
  - intros [x|] [s1 e1] [[Hs1 Hfuel] Hp].
    + eapply wp_mono; [apply finalize_spec; by eapply queue_steps_ok| |done].
      intros _ [s2 e2] Hs2. simpl in *. apply Hrest; [by etrans|]. apply (drains_mono _ _ s1); [done|].
      apply (progress_drains t0 ts s (s1, e1)); [done..|]. by apply Hp.
    + repeat split; [done|]. destruct (Hfuel eq_refl) as [->|(t & Ht & Hst & Hn)]; [lia|].
      pose proof (retries_weight _ _ _ Ht Hst Hid). lia.
Qed.

(** ** Readiness *)

(** A pending task waits: something it depends on is there and not done. *)
Definition waits (t : Task) (s : Storage) : Prop :=
  exists d td, d ∈ t_dependencies t /\ find_task d s = Some td /\ t_status td <> DONE.

(** What a pass over the tasks [ts] does to the storage. *)
Record pass (ts : list Task) (s s' : Storage) : Prop := {
  pa_steps : rtc step s s';
  pa_frame : forall id, id ∉ map t_id ts -> find_task id s' = find_task id s;
  pa_exists : forall id, is_Some (find_task id s) -> is_Some (find_task id s');
  pa_done : forall id td', find_task id s' = Some td' -> t_status td' = DONE ->
    exists td, find_task id s = Some td /\ t_status td = DONE;
}.

Lemma pass_refl ts s : pass ts s s.
Proof. split; [done..|eauto]. Qed.

Lemma pass_trans t ts s s1 s2 : pass [t] s s1 -> pass ts s1 s2 -> pass (t :: ts) s s2.
Proof.
  intros [H1 H2 H3 H4] [H1' H2' H3' H4']. split; [by etrans| |auto|].
  - intros id Hid. rewrite H2' by set_solver. apply H2. set_solver.
  - intros id td' Hf Hd. destruct (H4' id td' Hf Hd) as (td & Hf' & Hd'). by apply (H4 id td).
Qed.

Lemma pass_task t t' s :
  at_task t s -> task_step runId s t t' -> t_status t' <> DONE ->
  pass [t] s (TaskRepository.update t' s).
Proof.
  intros Hat Hs Hd. destruct (save_task _ _ _ Hat Hs) as [Hstep _].
  pose proof (task_step_fields _ _ _ _ Hs) as (Hi & Hr & _). destruct Hat as [Ht Hrun].
  split; [by apply rtc_once|..]; intros id; rewrite find_update by congruence; rewrite Hi.
  - intros Hid. rewrite decide_False; [done|]. set_solver.
  - case_decide; [by eexists|done].
  - intros td'. case_decide; [by intros [= <-]|eauto].
Qed.

Lemma waits_pass ts t s s' : pass ts s s' -> waits t s -> waits t s'.
Proof.
  intros [_ _ He Hd] (d & td & Hin & Hf & Hst). destruct (He d) as [td' Hf']; [by eexists|].
  exists d, td'. repeat split; [done..|]. intros Hdone.
  destruct (Hd d td' Hf' Hdone) as (td0 & ? & ?). congruence.
Qed.

Lemma length_omap_le {A B} (f : A -> option B) l : (length (omap f l) <= length l)%nat.
Proof. induction l as [|x l IH]; csimpl; [done|]. destruct (f x); csimpl; lia. Qed.

Lemma getByIds_all ids s :
  length (TaskRepository.getByIds ids runId s) = length ids ->
  forall d, d ∈ ids -> is_Some (find_task d s).
Proof.
  unfold TaskRepository.getByIds. induction ids as [|i ids IH]; csimpl; [set_solver|].
  pose proof (length_omap_le (fun taskId => find_task taskId s) ids) as Hle.
  destruct (find_task i s) as [t|] eqn:Hi; csimpl; intros Hlen d; [|lia].
  rewrite elem_of_cons. intros [->|Hd]; [by exists t|]. apply IH; [lia|done].
Qed.

Lemma getByIds_missing ids s :
  length (TaskRepository.getByIds ids runId s) <> length ids ->
  exists d, d ∈ ids /\ find_task d s = None.
Proof.
  unfold TaskRepository.getByIds. induction ids as [|i ids IH]; csimpl; [done|].
  destruct (find_task i s) as [t|] eqn:Hi; csimpl; intros Hlen; [|exists i; set_solver].
  destruct IH as (d & ? & ?); [lia|]. exists d. set_solver.
Qed.

Lemma getByIds_elem ids s t :
  t ∈ TaskRepository.getByIds ids runId s <-> exists d, d ∈ ids /\ find_task d s = Some t.
Proof. unfold TaskRepository.getByIds. by rewrite list_elem_of_omap. Qed.

(** A pending task becomes ready, fails, or waits. *)
Definition prepared (t : Task) (s : Storage) (ready : bool) (w : World) : Prop :=
  pass [t] s (fst w) /\
  exists t', find_task (t_id t) (fst w) = Some t' /\
    if ready then t_status t' = READY
    else t_status t' <> READY /\ (t_status t' = PENDING -> waits t' (fst w)).

Lemma make_ready_spec t s e :
  at_task t s -> t_status t = PENDING -> dependencies_done runId t s ->
  wp (t ← js_lift (transition READY None None t); _ ← save t; mret true)
    (prepared t s) (fun _ _ => False) (s, e).
Proof.
  intros Hat Hst Hd. apply wp_bind, wp_js_lift.
  - intros t' Ht'. pose proof Ht' as (Hi & _ & _ & Hst' & _)%transition_fields.
    apply wp_bind. eapply wp_save; [exact Hat|by eapply ts_ready|].
    intros s' Hs' [Hat' _] ->. apply wp_ret. split.
    + apply pass_task; [done|by eapply ts_ready|congruence].
    + exists t'. by rewrite <- Hi.
  - intros x Hx. unfold transition in Hx. by rewrite Hst in Hx.
Qed.

Lemma give_up_spec t m s e :
  at_task t s -> t_status t = PENDING -> hopeless runId t s ->
  wp (_ ← failTask t m; mret false) (prepared t s) (fun _ _ => False) (s, e).
Proof.
  intros Hat Hst Hh. apply wp_bind. eapply wp_mono; [apply failTask_spec; [exact Hat| |]| |done].
  - intros t' Ht'. by eapply ts_hopeless.
  - by rewrite Hst.
  - intros _ w (t' & Ht' & _ & Hs & Hw). pose proof Ht' as (Hi & Hr & _ & Hst' & _)%transition_fields.
    apply wp_ret. unfold prepared. rewrite Hw. split.
    + apply pass_task; [done|by eapply ts_hopeless|congruence].
    + exists t'. rewrite find_update by (rewrite Hr; apply Hat). rewrite decide_True by congruence.
      repeat split; [congruence|]. intros. congruence.
Qed.

Lemma preparePendingTask_spec t s e :
  at_task t s -> t_status t = PENDING ->
  wp (preparePendingTask t runId) (prepared t s) (fun _ _ => False) (s, e).
Proof.
  intros Hat Hst. unfold preparePendingTask.
  destruct (t_dependencies t) as [|d0 ds] eqn:Hdeps.
  { apply make_ready_spec; [done..|]. intros d Hd. rewrite Hdeps in Hd. set_solver. }
  unfold checkDependencies. apply wp_bind, wp_gets. cbn [fst]. rewrite Hdeps.
  destruct (Nat.eqb_spec (length (TaskRepository.getByIds (d0 :: ds) runId s)) (length (d0 :: ds)))
    as [Hlen|Hlen].
  2: { apply give_up_spec; [done..|]. destruct (getByIds_missing _ _ Hlen) as (d & Hd & Hn).
       exists d. rewrite Hdeps. split; [done|congruence]. }
  destruct (find _ _) as [td|] eqn:Hfind.
  - apply find_some in Hfind as [Hin Hf]. apply bool_decide_eq_true in Hf.
    apply give_up_spec; [done..|]. apply list_elem_of_In, getByIds_elem in Hin as (d & Hd & Htd).
    exists d. rewrite Hdeps. split; [done|congruence].
  - destruct (forallb _ _) eqn:Hall.
    + apply make_ready_spec; [done..|]. intros d Hd. rewrite Hdeps in Hd.
      destruct (getByIds_all _ _ Hlen d Hd) as [td Htd]. exists td. split; [done|].
      rewrite forallb_forall in Hall. apply (bool_decide_eq_true (t_status td = DONE)), Hall, list_elem_of_In.
      apply getByIds_elem. by exists d.
    + apply wp_ret. split; [apply pass_refl|]. exists t. split; [apply Hat|].
      split; [congruence|]. intros _. apply not_true_iff_false in Hall.
      rewrite forallb_forall in Hall. destruct (decide (Exists (fun td => t_status td <> DONE)
        (TaskRepository.getByIds (d0 :: ds) runId s))) as [Hex|Hne].
      * apply Exists_exists in Hex as (td & Hin & Hnd). apply getByIds_elem in Hin as (d & Hd & Htd).
        exists d, td. by rewrite Hdeps.
      * exfalso. apply Hall. intros td Hin. apply bool_decide_eq_true.
        destruct (decide (t_status td = DONE)); [done|]. exfalso. apply Hne, Exists_exists.
        exists td. split; [by apply list_elem_of_In|done].
Qed.

(** The pass finds the tasks that are ready now; a task it leaves pending waits. *)
Definition collected (ts ready : list Task) (s : Storage) : Prop :=
  (forall t, t ∈ ready -> t ∈ ts /\
     exists t', find_task (t_id t) s = Some t' /\ t_status t' = READY) /\
  (forall t, t ∈ ts -> t ∉ ready -> exists t', find_task (t_id t) s = Some t' /\
     t_status t' <> READY /\ (t_status t' = PENDING -> waits t' s)).

Lemma collectReady_spec ts s e :
  NoDup (map t_id ts) -> Forall (fun t => at_task t s) ts ->
  wp (collectReady ts runId) (fun ready (w : World) => pass ts s (fst w) /\ collected ts ready (fst w))
    (fun _ _ => False) (s, e).
Proof.
  revert s e. induction ts as [|t ts IH]; intros s e Hnd Hall.
  { apply wp_ret. split; [apply pass_refl|]. split; set_solver. }
  cbn [map] in Hnd. apply NoDup_cons in Hnd as [Hni Hnd]. inversion_clear Hall as [|? ? Hat Hall'].
  assert (Hrest : forall (ready : bool) s1 e1, prepared t s ready (s1, e1) ->
    wp (rest ← collectReady ts runId; mret (if ready then t :: rest else rest))
      (fun ready w => pass (t :: ts) s (fst w) /\ collected (t :: ts) ready (fst w))
      (fun _ _ => False) (s1, e1)).
  { intros ready s1 e1 [Hp (t' & Ht' & Hst')]. simpl in Hp, Ht', Hst'. apply wp_bind.
    eapply wp_mono; [apply IH; [done|]| |done].
    - apply Forall_forall. intros u Hu. rewrite Forall_forall in Hall'. destruct (Hall' u Hu) as [Hf Hr].
      split; [|done]. rewrite (pa_frame _ _ _ Hp); [done|]. simpl. rewrite list_elem_of_singleton.
      intros Heq. apply Hni. rewrite <- Heq. by apply list_elem_of_fmap_2.
    - intros rest [s2 e2] [Hp2 [Hr Hn]]. simpl in *. apply wp_ret. simpl. split; [by eapply pass_trans|].
      assert (Ht2 : find_task (t_id t) s2 = Some t') by by rewrite (pa_frame _ _ _ Hp2).
      split.
      + intros u Hu. assert (Hu' : u = t /\ ready = true \/ u ∈ rest).
        { destruct ready; [|by right]. apply elem_of_cons in Hu as [->|]; auto. }
        destruct Hu' as [[-> ->]|Hu']; [split; [left|by exists t']|].
        destruct (Hr u Hu') as [? ?]. split; [by right|done].
      + intros u Hu Hnot. apply elem_of_cons in Hu as [->|Hu].
        * destruct ready; [exfalso; apply Hnot; left|]. exists t'. split; [done|].
          destruct Hst' as [? Hw]. split; [done|]. intros ?. eapply waits_pass; eauto.
        * apply Hn; [done|]. intros ?. apply Hnot. destruct ready; [by right|done]. }
  cbn [collectReady]. case_decide as Hready.
  { apply (Hrest true s e). split; [apply pass_refl|]. exists t. split; [apply Hat|done]. }
  case_decide as Hpend.
  - apply wp_bind. eapply wp_mono; [by apply preparePendingTask_spec| |done].
    intros ready [s1 e1] Hp. by apply (Hrest ready).
  - assert (Heq : wp (rest ← collectReady ts runId; mret rest)
      (fun ready w => pass (t :: ts) s (fst w) /\ collected (t :: ts) ready (fst w))
      (fun _ _ => False) (s, e)).
    { apply (Hrest false s e). split; [apply pass_refl|]. exists t. split; [apply Hat|done]. }
    apply wp_bind in Heq. eapply wp_mono; [exact Heq|done|done].
Qed.

(** ** The main loop *)

Lemma getByRun_elem s t :
  queue_ok runId s ->
  t ∈ TaskRepository.getByRun runId s <-> t_id t ∈ run_ids runId s /\ find_task (t_id t) s = Some t.
Proof.
  intros [Hok _]. unfold TaskRepository.getByRun. rewrite getByIds_elem. split.
  - intros (d & Hd & Hf). destruct (Hok d t Hf) as [-> _]. done.
  - intros [Hin Hf]. by exists (t_id t).
Qed.

Lemma getByRun_snapshot s :
  queue_ok runId s ->
  NoDup (map t_id (TaskRepository.getByRun runId s)) /\
  Forall (fun t => at_task t s) (TaskRepository.getByRun runId s).
Proof.
  intros Hq. split.
  - destruct Hq as [Hok Hnd]. unfold TaskRepository.getByRun, TaskRepository.getByIds.
    fold (run_ids runId s). induction Hnd as [|id ids Hni Hnd IH]; csimpl; [constructor|].
    destruct (find_task id s) as [t|] eqn:Ht; [|done]. csimpl.
    destruct (Hok id t Ht) as [-> _]. constructor; [|done].
    intros (u & Hu & Hin)%list_elem_of_fmap. apply list_elem_of_omap in Hin as (d & Hd & Hf).
    destruct (Hok d u Hf) as [Hid _]. congruence.
  - apply Forall_forall. intros t Ht. apply getByRun_elem in Ht as [_ Hf]; [|done].
    split; [done|]. by destruct (proj1 Hq _ _ Hf).
Qed.

(** Nothing of the run is left to execute. *)
Definition idle (s : Storage) : Prop :=
  forall t, t ∈ TaskRepository.getByRun runId s -> t_status t ∉ [READY; PENDING].

(** Nothing of the run can start, and yet something is not over. *)
Definition deadlocked (s : Storage) : Prop :=
  (forall t, t ∈ TaskRepository.getByRun runId s ->
     t_status t <> READY /\ (t_status t = PENDING -> waits t s)) /\
  exists t, t ∈ TaskRepository.getByRun runId s /\ t_status t ∈ [PENDING; RUNNING; RETRYING].

Lemma hasExecutable_false s : hasExecutableTasks runId s = false -> idle s.
Proof.
  intros H t Ht Hst. apply not_true_iff_false in H. apply H. apply existsb_exists.
  exists t. split; [by apply list_elem_of_In|]. by apply bool_decide_eq_true.
Qed.

Lemma batch_of_ready ready :
  1 <= sc_concurrencyLimit config -> ready <> [] ->
  exists t0 rest, selectExecutionBatch config ready = t0 :: rest /\
    forall t, t ∈ t0 :: rest -> t ∈ ready.
Proof.
  intros Hlimit Hne. unfold selectExecutionBatch.
  assert (Htake : forall l : list Task, l <> [] -> (forall t, t ∈ l -> t ∈ ready) ->
    forall n, (1 <= n)%nat -> exists t0 rest, take n l = t0 :: rest /\
      forall t, t ∈ t0 :: rest -> t ∈ ready).
  { intros [|t0 l] Hl Hsub [|n] Hn; [done|done|lia|]. exists t0, (take n l). split; [done|].
    intros t Ht. apply Hsub.
    rewrite <- (take_drop (S n) (t0 :: l)). apply elem_of_app. by left. }
  destruct (_ || _); [by apply Htake; [..|lia]|].
  destruct (filter _ ready) as [|u us] eqn:Hf; [by apply Htake; [..|lia]|].
  apply Htake; [done| |lia]. intros t Ht. rewrite <- Hf in Ht. by apply list_elem_of_filter in Ht as [_ ?].
Qed.

(** How the loop ends: nothing is left, or a deadlock, or the fuel. *)
Definition loop_stop (fuel depth : nat) (s : Storage) (x : stop) (w : World) : Prop :=
  rtc step s (fst w) /\
  match x with
  | Threw err => err = SchedulerError "Task dependency deadlock detected" /\ deadlocked (fst w)
  | OutOfFuel => quiet_before -> (fuel <= queue_weight runId s \/ depth <= queue_weight runId s)%nat
  end.

Lemma nothing_ready_spec s s' e :
  queue_ok runId s -> rtc step s s' ->
  collected (TaskRepository.getByRun runId s) [] s' ->
  wp (hasPending ← repo (hasPendingTasks runId);
      if hasPending : bool then js_throw (SchedulerError "Task dependency deadlock detected")
      else mret tt)
    (fun _ (w : World) => rtc step s (fst w) /\ idle (fst w))
    (fun x w => rtc step s (fst w) /\
       x = Threw (SchedulerError "Task dependency deadlock detected") /\ deadlocked (fst w)) (s', e).
Proof.
  intros Hq Hs [_ Hc]. pose proof (queue_steps_ok _ _ _ Hs Hq) as Hq'.
  pose proof (queue_steps_ids _ _ _ Hs) as Hids.
  assert (Hall : forall t, t ∈ TaskRepository.getByRun runId s' ->
     t_status t <> READY /\ (t_status t = PENDING -> waits t s')).
  { intros t Ht. apply getByRun_elem in Ht as [Hin Hf]; [|done]. rewrite Hids in Hin.
    assert (Hback : exists u, u ∈ TaskRepository.getByRun runId s /\ t_id u = t_id t).
    { destruct (find_task (t_id t) s) as [u|] eqn:Hu.
      - destruct (proj1 Hq _ _ Hu) as [Hi _]. exists u. split; [|done]. apply getByRun_elem; [done|].
        by rewrite Hi.
      - exfalso. revert Hu Hf. clear -Hs. intros Hu. induction Hs as [|s s1 s' Hstep _ IH]; [congruence|].
        intros Hf. apply IH; [|done]. destruct Hstep as [v v' Hv Hr Hst].
        pose proof (task_step_fields _ _ _ _ Hst) as (Hi & Hrun & _).
        rewrite find_update by congruence. case_decide; [congruence|done]. }
    destruct Hback as (u & Hu & Hi). destruct (Hc u Hu) as (t' & Ht' & Hst); [set_solver|].
    rewrite Hi in Ht'. by simplify_eq. }
  apply wp_bind, wp_gets. cbn [fst]. destruct (hasPendingTasks runId s') eqn:Hp.
  - apply wp_throw. split; [done|]. split; [done|]. split; [done|].
    apply existsb_exists in Hp as (t & Hin & Hst). apply list_elem_of_In in Hin.
    apply bool_decide_eq_true in Hst. exists t. split; [done|].
    destruct (Hall t Hin) as [Hnr _]. set_solver.
  - apply wp_ret. split; [done|]. intros t Ht Hst. apply not_true_iff_false in Hp. apply Hp.
    apply existsb_exists. exists t. split; [by apply list_elem_of_In|].
    apply bool_decide_eq_true. set_solver.
Qed.

Lemma execute_spec fuel depth s e :
  queue_ok runId s -> 1 <= sc_concurrencyLimit config ->
  wp (execute config hooks fuel depth runId) (fun _ w => rtc step s (fst w) /\ idle (fst w))
    (loop_stop fuel depth s) (s, e).
Proof.
  intros Hq Hlimit. revert s e Hq. induction fuel as [|fuel IH]; intros s e Hq.
  { apply wp_throw. split; [done|]. intros _. left. lia. }
  cbn [execute]. apply wp_bind, wp_gets. cbn [fst].
  destruct (hasExecutableTasks runId s) eqn:Hex; [|by apply wp_ret; split; [|apply hasExecutable_false]].
  apply wp_bind. unfold findAllReadyTasks. apply wp_bind, wp_gets. cbn [fst].
  destruct (getByRun_snapshot s Hq) as [Hnd Hall].
  eapply wp_mono; [by apply collectReady_spec| |done].
  intros ready [s1 e1] [Hp Hc]. simpl in Hp, Hc. pose proof (pa_steps _ _ _ Hp) as Hs1.
  destruct ready as [|r0 rs] eqn:Hr.
  { eapply wp_mono; [by apply (nothing_ready_spec s)|done|]. intros x w (Hs & -> & Hd). by split. }
  destruct (batch_of_ready ready Hlimit ltac:(by subst)) as (t0 & rest & Hbatch & Hsub).
  rewrite Hr in Hbatch, Hsub. rewrite Hbatch.
  pose proof (queue_steps_ok _ _ _ Hs1 Hq) as Hq1.
  pose proof (queue_steps_weight _ _ _ Hs1) as Hw1.
  assert (Hids : Forall (fun t => t_id t ∈ run_ids runId s1) (t0 :: rest)).
  { apply Forall_forall. intros t Ht. rewrite (queue_steps_ids _ _ _ Hs1).
    destruct Hc as [Hc _]. destruct (Hc t (Hsub t Ht)) as [Hin _]. by apply getByRun_elem in Hin as [??]. }
  apply wp_bind. eapply wp_mono; [by apply executeBatch_spec| |].
  - intros _ [s2 e2] [Hs2 Hdrain]. simpl in Hs2, Hdrain. eapply wp_mono; [apply IH| |].
    + by eapply queue_steps_ok.
    + intros _ [s3 e3] [Hs3 Hi]. split; [simpl in *; by etrans; [|etrans]|done].
    + intros x [s3 e3] [Hs3 Hx]. simpl in Hs3. split; [simpl; by etrans; [|etrans]|].
      destruct x; [done|]. intros Hquiet. apply queue_steps_weight in Hs2 as Hw2.
      destruct (proj1 Hc t0 (Hsub t0 ltac:(left))) as (_ & t' & Ht' & Hst).
      specialize (Hdrain Hquiet t0 t' eq_refl Ht' Hst). specialize (Hx Hquiet). lia.
  - intros x [s2 e2] (Hs2 & -> & Hdep). split; [simpl in *; by etrans|]. intros _. right. lia.
Qed.

End Execution.

Lemma execute_steps {E : Type} `{!TaskExecutor E} config (hooks : SchedulerHooks E) runId fuel depth s e :
  queue_ok runId s -> 1 <= sc_concurrencyLimit config ->
  rtc (queue_step runId) s (fst (snd (execute config hooks fuel depth runId (s, e)))).
Proof.
  intros Hq Hl. pose proof (execute_spec config hooks runId fuel depth s e Hq Hl) as Hw.
  unfold wp in Hw. destruct (execute _ _ _ _ _ _) as [[[]|x] w]; by destruct Hw.
Qed.
Lemma queue_steps_order runId s s' :
  rtc (queue_step runId) s s' ->
  (in_order runId s -> in_order runId s') /\
  forall id t, TaskRepository.getById id runId s = Some t ->
    exists t', TaskRepository.getById id runId s' = Some t' /\ legal t t'.
Proof.
  induction 1 as [s|s s1 s' Hstep _ [IHo IHl]].
  { split; [done|]. intros id t Ht. exists t. split; [done|apply legal_refl]. }
  split; [intros Ho; apply IHo; by eapply queue_step_in_order|].
  intros id t Ht. destruct Hstep as [u u' Hu Hr Hs].
  pose proof (task_step_fields _ _ _ _ Hs) as (Hi & Hrun & _).
  destruct (decide (id = t_id u)) as [->|Hne].
  - assert (u = t) as -> by congruence. destruct (IHl (t_id t) u') as (t' & Ht' & Hl').
    { rewrite find_update by congruence. by rewrite decide_True. }
    exists t'. split; [done|]. eapply legal_trans; [by eapply task_step_legal|done].
  - apply IHl. rewrite find_update by congruence. by rewrite decide_False by congruence.
Qed.

(** * Properties *)

(** C26. The scheduler implements its specification: whatever the executor and
    the hooks do, throwing included, and however long it is run, an execution
    takes the queue through a sequence of the steps of [queue_step]: tasks become
    ready when all they depend on is done, fail when that cannot happen any
    more, start, and end or retry. *)
Theorem scheduler_refines {E : Type} `{!TaskExecutor E} config (hooks : SchedulerHooks E)
    runId fuel depth s e :
  queue_ok runId s -> 1 <= sc_concurrencyLimit config ->
  rtc (queue_step runId) s (fst (snd (execute config hooks fuel depth runId (s, e)))).
Proof. apply execute_steps. Qed.

(** C27. Dependencies come first: whatever the executor and the hooks do, and however
    far the scheduler gets, an execution that starts from a queue in order - new queues
    are, their tasks being pending - leaves one in which every task that was made ready,
    started, retried or done has everything it depends on done; every task is still
    there with its dependencies, its status was reached by transitions the state machine
    allows, and it was never retried more often than [maxRetries]. *)
Theorem dependencies_first {E : Type} `{!TaskExecutor E} config (hooks : SchedulerHooks E)
    runId fuel depth s e :
  queue_ok runId s -> 1 <= sc_concurrencyLimit config -> in_order runId s ->
  let s' := fst (snd (execute config hooks fuel depth runId (s, e))) in
  in_order runId s' /\
  forall id t, TaskRepository.getById id runId s = Some t ->
    exists t', TaskRepository.getById id runId s' = Some t' /\ legal t t'.
Proof.
  intros Hq Hl Ho. destruct (queue_steps_order runId _ _ (execute_steps config hooks runId fuel depth s e Hq Hl)).
  auto.
Qed.

(** C28. The main loop ends: with a [beforeTask] hook that does not throw, as many
    rounds as the queue has steps left are enough, and then either no task of
    the run is ready or pending, or the scheduler reports a deadlock and every
    pending task waits for one that is not done. *)
Theorem execute_terminates {E : Type} `{!TaskExecutor E} config (hooks : SchedulerHooks E)
    runId s e :
  queue_ok runId s -> 1 <= sc_concurrencyLimit config -> quiet_before hooks ->
  let fuel := S (queue_weight runId s) in
  match execute config hooks fuel fuel runId (s, e) with
  | (Ok _, (s', _)) => idle runId s'
  | (Err (Threw err), (s', _)) =>
      err = SchedulerError "Task dependency deadlock detected" /\ deadlocked runId s'
  | (Err OutOfFuel, _) => False
  end.
Proof.
  intros Hq Hl Hquiet. cbv zeta.
  pose proof (execute_spec config hooks runId (S (queue_weight runId s)) (S (queue_weight runId s))
    s e Hq Hl) as Hw. unfold wp in Hw.
  destruct (execute _ _ _ _ _ _) as [[[]|[err|]] [s' e']]; destruct Hw as [_ Hw]; [done|done|].
  specialize (Hw Hquiet). lia.
Qed.

(** ** A run *)

(** An executor that fails on tasks of the type [bad]; it logs what it runs. *)
#[export] Instance demo_executor : TaskExecutor (list string) := fun t log =>
  (if String.eqb (t_type t) "bad" then Err (Exn "boom")
   else Ok (mkResult (t_id t) DONE (Some JNull) None), log ++ [t_id t]).
Definition no_hooks {E} : SchedulerHooks E := mkHooks None None None None.
Definition demo_config : SchedulerConfig := mkConfig 1 true ["analyze"; "review"].
Definition demo_task (id type : string) (status : TaskStatus) (deps : list string) : Task :=
  mkTask id "run1" type status deps JNull None None 0 3.
Definition demo_queue (ts : list Task) : Storage :=
  foldl (fun s t => TaskRepository.create t s) ∅ ts.
Definition demo_tasks : Storage :=
  demo_queue [demo_task "a" "edit" PENDING ["b"]; demo_task "b" "bad" PENDING [];
              demo_task "c" "review" PENDING []].

(** Creating a task keeps the queue well-formed. *)
Lemma find_create t s id :
  TaskRepository.getById id (t_runId t) (TaskRepository.create t s) =
  if decide (id = t_id t) then Some t else TaskRepository.getById id (t_runId t) s.
Proof.
  rewrite <- (find_update (t_runId t) t s id eq_refl). unfold TaskRepository.create. cbv zeta.
  case_decide; [done|]. unfold TaskRepository.getById.
  rewrite lookup_insert_ne; [done|]. intros Heq. by apply (task_key_ids (t_runId t) id (t_runId t)).
Qed.

Lemma create_queue_ok runId t s :
  t_runId t = runId -> queue_ok runId s -> t_id t ∉ run_ids runId s ->
  queue_ok runId (TaskRepository.create t s).
Proof.
  intros <- [Hok Hnd] Hni. split.
  { intros id u Hu. rewrite find_create in Hu. case_decide; [by simplify_eq|by apply Hok]. }
  unfold TaskRepository.create. cbv zeta.
  change (<[TaskRepository.getTaskKey (t_id t) (t_runId t):=StTask t]> s)
    with (TaskRepository.update t s).
  rewrite (ids_update (t_runId t) t s (t_runId t) eq_refl).
  fold (run_ids (t_runId t) s). rewrite decide_False by done.
  unfold run_ids at 1, TaskRepository.stored_ids at 1. rewrite lookup_insert_eq.
  apply NoDup_app. split; [done|]. split; [|apply NoDup_singleton].
  intros x Hx Hin%list_elem_of_singleton. congruence.
Qed.

(** A new queue, of pending tasks, is in order. *)
Definition all_pending (runId : string) (s : Storage) : Prop :=
  forall id t, TaskRepository.getById id runId s = Some t -> t_status t = PENDING.

Lemma create_pending runId t s :
  t_runId t = runId -> all_pending runId s -> t_status t = PENDING ->
  all_pending runId (TaskRepository.create t s).
Proof. intros <- Hp Ht id u. rewrite find_create. case_decide; [by intros [= <-]|by apply Hp]. Qed.

Lemma pending_in_order runId s : all_pending runId s -> in_order runId s.
Proof. intros Hp id t Ht Hst. rewrite (Hp id t Ht) in Hst. set_solver. Qed.

Lemma demo_queue_ok : queue_ok "run1" demo_tasks /\ all_pending "run1" demo_tasks.
Proof.
  assert (H0 : forall id, TaskRepository.getById id "run1" ∅ = None).
  { intros id. unfold TaskRepository.getById. by rewrite lookup_empty. }
  unfold demo_tasks, demo_queue. cbn [foldl]. split.
  - do 3 (apply create_queue_ok; [done| |intros Hin; vm_compute in Hin; repeat (apply elem_of_cons in Hin as [Hin|Hin]; [done|]);
        by apply not_elem_of_nil in Hin]).
    split; [intros id t Ht; by rewrite H0 in Ht|by constructor].
  - do 3 (apply create_pending; [done| |done]). intros id t Ht. by rewrite H0 in Ht.
Qed.

Lemma scheduler_refines_witness :
  rtc (queue_step "run1") demo_tasks
    (fst (snd (execute demo_config no_hooks 20 20 "run1" (demo_tasks, [])))) /\
  map t_status (TaskRepository.getByRun "run1"
    (fst (snd (execute demo_config no_hooks 20 20 "run1" (demo_tasks, []))))) = [FAILED; FAILED; DONE].
Proof.
  split; [|by vm_compute]. apply scheduler_refines; [apply demo_queue_ok|done].
Defined.

Lemma dependencies_first_witness :
  in_order "run1" (fst (snd (execute demo_config no_hooks 20 20 "run1" (demo_tasks, [])))).
Proof.
  apply (dependencies_first demo_config no_hooks "run1" 20 20 demo_tasks ([] : list string));
    [apply demo_queue_ok|done|apply pending_in_order, demo_queue_ok].
Defined.

Lemma execute_terminates_witness :
  match execute demo_config no_hooks (S (queue_weight "run1" demo_tasks))
    (S (queue_weight "run1" demo_tasks)) "run1" (demo_tasks, []) with
  | (Ok _, (s', log)) => idle "run1" s' /\ log = ["b"; "b"; "b"; "b"; "c"]
  | _ => False
  end.
Proof.
  pose proof (execute_terminates demo_config no_hooks "run1" demo_tasks ([] : list string)
    (proj1 demo_queue_ok) ltac:(done) ltac:(done)) as H. cbv zeta in H.
  assert (Hr : match execute demo_config no_hooks (S (queue_weight "run1" demo_tasks))
    (S (queue_weight "run1" demo_tasks)) "run1" (demo_tasks, []) with
    | (Ok _, (_, log)) => log = ["b"; "b"; "b"; "b"; "c"] | _ => False end) by by vm_compute.
  destruct (execute _ _ _ _ _ _) as [[|[]] [s' log]]; done.
Defined.

(** ** What the scheduler gets wrong *)

(** A failure that reaches a task through another one takes one round per link,
    but a round in which nothing becomes ready is reported as a deadlock: [a]
    waits for [b], [b] for [c], and [c] fails. *)
Example false_deadlock :
  let s := demo_queue [demo_task "a" "edit" PENDING ["b"]; demo_task "b" "edit" PENDING ["c"];
                       demo_task "c" "bad" PENDING []] in
  let '(r, (s', _)) := execute demo_config no_hooks 20 20 "run1" (s, []) in
  r = Err (Threw (SchedulerError "Task dependency deadlock detected")) /\
  map t_status (TaskRepository.getByRun "run1" s') = [PENDING; FAILED; FAILED].
Proof. by vm_compute. Qed.

(** With a [beforeTask] hook that always throws the loop never ends: the ready
    task it is asked about stays ready, and is tried again, for ever. *)
Theorem failing_hook_diverges {E : Type} `{!TaskExecutor E} config (hooks : SchedulerHooks E)
    runId t s e fuel depth :
  1 <= sc_concurrencyLimit config ->
  (exists h, beforeTask hooks = Some h /\ forall t e, exists x, h t e = (Err x, e)) ->
  TaskRepository.getByRun runId s = [t] -> TaskRepository.getById (t_id t) runId s = Some t ->
  t_status t = READY ->
  execute config hooks fuel (S depth) runId (s, e) = (Err OutOfFuel, (s, e)).
Proof.
  intros Hl (h & Hh & Hx) Hrun Ht Hst. destruct (Hx t e) as [x Hxt].
  assert (Hbatch : selectExecutionBatch config [t] = [t]).
  { assert (Htake : take (Z.to_nat (sc_concurrencyLimit config)) [t] = [t]).
    { destruct (Z.to_nat (sc_concurrencyLimit config)) eqn:Hn; [lia|]. simpl. by rewrite take_nil. }
    unfold selectExecutionBatch. destruct (_ || _); [done|].
    rewrite filter_cons. by case_decide; rewrite filter_nil. }
  induction fuel as [|fuel IH]; [done|]. cbn [execute].
  unfold mbind, ST_bind, repo, gets at 1. cbn [fst]. unfold hasExecutableTasks. rewrite Hrun.
  cbn [existsb]. rewrite (bool_decide_eq_true_2 (t_status t ∈ _)) by (rewrite Hst; left). cbn [orb].
  unfold findAllReadyTasks, mbind, ST_bind, repo, gets at 1. cbn [fst]. rewrite Hrun.
  cbn [collectReady]. rewrite decide_True by done. unfold mbind, ST_bind, mret, ST_ret.
  rewrite Hbatch. unfold executeBatch. cbn [for_of executeSingleWithHooks].
  unfold mbind, ST_bind, js_catch, try_catch, repo, gets. cbn [fst].
  rewrite Ht, decide_True by (rewrite Hst; left). rewrite Hh. cbn. unfold env. rewrite Hxt.
  unfold bestEffortFinalizeRunningTask, mbind, ST_bind, repo, gets. cbn [fst].
  rewrite Ht, decide_False by (rewrite Hst; done). exact IH.
Qed.

Lemma failing_hook_diverges_witness :
  let hooks : SchedulerHooks (list string) :=
    mkHooks (Some (fun t log => (Err (Exn "refused"), log))) None None None in
  let s := demo_queue [demo_task "a" "edit" READY []] in
  hasExecutableTasks "run1" s = true /\
  forall fuel, execute demo_config hooks fuel 5 "run1" (s, []) = (Err OutOfFuel, (s, [])).
Proof.
  intros hooks s. split; [by vm_compute|]. intros fuel.
  apply (failing_hook_diverges demo_config hooks "run1" (demo_task "a" "edit" READY []));
    [done| |by vm_compute|by vm_compute|done].
  eexists. split; [done|]. intros t e. by eexists.
Defined.
