(* ===== verification/Dependencies.v ===== *)
(** [DependencyResolver] of
    [packages/execution-engine/src/runtime/orchestration/DependencyResolver.ts]:
    the check that the dependencies of a plan form a DAG, a depth first search
    that threads its two sets, and the topological sort, Kahn's algorithm on a
    queue and a map of degrees. *)
From S2P Require Import Prelude Js Tasks.
#[local] Open Scope Z_scope.

(** [new Map(tasks.map((t) => [t.id, t]))]: of equal ids the last one counts. *)
Definition task_map (tasks : list Task) : gmap string Task :=
  foldl (fun m t => <[t_id t := t]> m) ∅ tasks.

Record ValidationResult : Type := mkValidation {
  vr_valid : bool;
  vr_cycle : option (list string);
}.

(** The two sets [detectCycleDFS] updates. *)
Record DfsState : Type := mkDfs {
  visited : gset string;
  recStack : gset string;
}.

(** The loop over the dependencies of [nodeId]; [search] is the recursive call.
    [None] is the end of the fuel. *)
Fixpoint dfs_deps (search : string -> DfsState -> option (option (list string) * DfsState))
    (nodeId : string) (deps : list string) (st : DfsState)
    : option (option (list string) * DfsState) :=
  match deps with
  | [] => Some (None, mkDfs (visited st) (recStack st ∖ {[nodeId]}))
  | depId :: deps' =>
      if decide (depId ∈ visited st) then
        if decide (depId ∈ recStack st) then Some (Some [depId; nodeId], st)
        else dfs_deps search nodeId deps' st
      else
        match search depId st with
        | Some (None, st') => dfs_deps search nodeId deps' st'
        | found => found
        end
  end.

Fixpoint detectCycleDFS (fuel : nat) (taskMap : gmap string Task) (nodeId : string)
    (st : DfsState) : option (option (list string) * DfsState) :=
  match fuel with
  | O => None
  | S fuel' =>
      let st := mkDfs ({[nodeId]} ∪ visited st) ({[nodeId]} ∪ recStack st) in
      match taskMap !! nodeId with
      | None => Some (None, st)
      | Some task => dfs_deps (detectCycleDFS fuel' taskMap) nodeId (t_dependencies task) st
      end
  end.

Fixpoint dfs_all (fuel : nat) (taskMap : gmap string Task) (tasks : list Task) (st : DfsState)
    : option (option (list string)) :=
  match tasks with
  | [] => Some None
  | t :: tasks' =>
      if decide (t_id t ∈ visited st) then dfs_all fuel taskMap tasks' st
      else
        match detectCycleDFS fuel taskMap (t_id t) st with
        | Some (None, st') => dfs_all fuel taskMap tasks' st'
        | Some (Some cycle, _) => Some (Some cycle)
        | None => None
        end
  end.

(** Every recursive call visits a new node, an id or a dependency of a task. *)
Definition all_nodes (tasks : list Task) : gset string :=
  list_to_set (map t_id tasks ++ concat (map t_dependencies tasks)).
Definition dfs_fuel (tasks : list Task) : nat := S (size (all_nodes tasks)).

Definition validateDAG (tasks : list Task) : option ValidationResult :=
  match find (fun t => bool_decide (t_id t ∈ t_dependencies t)) tasks with
  | Some t => Some (mkValidation false (Some [t_id t]))
  | None =>
      match dfs_all (dfs_fuel tasks) (task_map tasks) tasks (mkDfs ∅ ∅) with
      | Some (Some cycle) => Some (mkValidation false (Some cycle))
      | Some None => Some (mkValidation true None)
      | None => None
      end
  end.

Definition areMet (dependencies : list string) (runId : string) (s : Storage) : bool :=
  match dependencies with
  | [] => true
  | _ =>
      let depTasks := TaskRepository.getByIds dependencies runId s in
      (length depTasks =? length dependencies)%nat &&
      forallb (fun t => bool_decide (t_status t = DONE)) depTasks
  end.

(** The loop over the candidates once [taskId] is taken from the queue. *)
Fixpoint release (taskId : string) (candidates : list Task) (inDegree : gmap string Z)
    (queue : list string) : gmap string Z * list string :=
  match candidates with
  | [] => (inDegree, queue)
  | c :: candidates' =>
      if decide (taskId ∈ t_dependencies c) then
        let degree := default 0 (inDegree !! t_id c) - 1 in
        release taskId candidates' (<[t_id c := degree]> inDegree)
          (if decide (degree = 0) then queue ++ [t_id c] else queue)
      else release taskId candidates' inDegree queue
  end.

Fixpoint kahn (fuel : nat) (tasks : list Task) (taskMap : gmap string Task)
    (inDegree : gmap string Z) (queue : list string) (sorted : list Task) : option (list Task) :=
  match queue with
  | [] => Some sorted
  | taskId :: queue' =>
      match fuel with
      | O => None
      | S fuel' =>
          let sorted := match taskMap !! taskId with
                        | Some task => sorted ++ [task]
                        | None => sorted
                        end in
          let '(inDegree', queue'') := release taskId tasks inDegree queue' in
          kahn fuel' tasks taskMap inDegree' queue'' sorted
      end
  end.

Definition initial_degrees (tasks : list Task) : gmap string Z :=
  foldl (fun m t => <[t_id t := Z.of_nat (length (t_dependencies t))]> m) ∅ tasks.
Definition roots (tasks : list Task) : list string :=
  map t_id (filter (fun t => t_dependencies t = []) tasks).

(** Each task enters the queue once. *)
Definition topologicalSort (tasks : list Task) : option (list Task) :=
  kahn (length tasks) tasks (task_map tasks) (initial_degrees tasks) (roots tasks) [].

(** Properties of the dependency resolver: the search finds every cycle and only
    cycles, and the sort puts each task after what it depends on and leaves out
    only what can never be reached. *)

Lemma filter_ext_elem {A} (P Q : A -> Prop) `{!forall x, Decision (P x), !forall x, Decision (Q x)}
    (l : list A) :
  (forall x, x ∈ l -> P x <-> Q x) -> filter P l = filter Q l.
Proof.
  induction l as [|x l IH]; intros HPQ; [done|]. rewrite !filter_cons.
  assert (Hx : P x <-> Q x) by (apply HPQ; left). rewrite IH by (intros; apply HPQ; by right).
  by repeat case_decide; tauto.
Qed.

Section Plan.
Variable tasks : list Task.
Hypothesis Hids : NoDup (map t_id tasks).

(** The task [x] names depends on [d]. *)
Definition needs (x d : string) : Prop :=
  exists t, t ∈ tasks /\ t_id t = x /\ d ∈ t_dependencies t.

Definition acyclic : Prop := forall x, ~ tc needs x x.

(** Every dependency is a task of the plan. *)
Definition closed_plan : Prop := forall x d, needs x d -> d ∈ map t_id tasks.

Lemma id_unique t t' : t ∈ tasks -> t' ∈ tasks -> t_id t = t_id t' -> t = t'.
Proof.
  clear -Hids. induction tasks as [|u us IH]; [set_solver|]. cbn [map] in Hids.
  apply NoDup_cons in Hids as [Hni Hnd]. intros Ht Ht' Heq.
  assert (Hin : forall v, v ∈ us -> t_id v ∈ map t_id us) by (intros; by apply list_elem_of_fmap_2).
  apply elem_of_cons in Ht as [->|Ht], Ht' as [->|Ht']; [done|..].
  - exfalso. apply Hni. rewrite Heq. auto.
  - exfalso. apply Hni. rewrite <- Heq. auto.
  - by apply IH.
Qed.

Lemma fold_insert_lookup {A} (f : Task -> A) (l : list Task) (m : gmap string A) x :
  NoDup (map t_id l) ->
  foldl (fun m t => <[t_id t := f t]> m) m l !! x =
  match find (fun t => bool_decide (t_id t = x)) l with
  | Some t => Some (f t)
  | None => m !! x
  end.
Proof.
  revert m. induction l as [|t l IH]; intros m Hnd; [done|]. cbn [map] in Hnd.
  apply NoDup_cons in Hnd as [Hni Hnd]. cbn [foldl find]. rewrite IH by done.
  destruct (bool_decide_reflect (t_id t = x)) as [<-|Hx].
  - destruct (find _ l) as [u|] eqn:Hf; [|by rewrite lookup_insert_eq].
    exfalso. apply find_some in Hf as [Hin Hu]. apply bool_decide_eq_true in Hu.
    apply Hni. rewrite <- Hu. apply list_elem_of_fmap_2. by apply list_elem_of_In.
  - destruct (find _ l); [done|]. by rewrite lookup_insert_ne.
Qed.

Lemma find_task_id x t :
  find (fun t => bool_decide (t_id t = x)) tasks = Some t <-> t ∈ tasks /\ t_id t = x.
Proof.
  split.
  - intros [Hin Hx]%find_some. apply bool_decide_eq_true in Hx. by rewrite list_elem_of_In.
  - intros [Hin Hx]. destruct (find _ tasks) as [u|] eqn:Hf.
    + apply find_some in Hf as [Hin' Hu]. apply bool_decide_eq_true in Hu. f_equal.
      apply id_unique; [by apply list_elem_of_In|done|congruence].
    + apply find_none with (x := t) in Hf; [|by apply list_elem_of_In].
      by apply bool_decide_eq_false in Hf.
Qed.

Lemma task_map_lookup x t : task_map tasks !! x = Some t <-> t ∈ tasks /\ t_id t = x.
Proof.
  unfold task_map. rewrite (fold_insert_lookup (fun t => t)) by done. rewrite <- find_task_id.
  by destruct (find _ tasks).
Qed.

Lemma degrees_lookup t :
  t ∈ tasks -> initial_degrees tasks !! t_id t = Some (Z.of_nat (length (t_dependencies t))).
Proof.
  intros Ht. unfold initial_degrees.
  rewrite (fold_insert_lookup (fun t => Z.of_nat (length (t_dependencies t)))) by done.
  by rewrite (proj2 (find_task_id (t_id t) t)).
Qed.

(** * The topological sort *)

Section Sort.
Hypothesis Hdeps : forall t, t ∈ tasks -> NoDup (t_dependencies t).

(** How many of the dependencies were processed. *)
Definition met (P deps : list string) : nat := length (filter (fun d => d ∈ P) deps).

Lemma met_all P deps : met P deps = length deps <-> forall d, d ∈ deps -> d ∈ P.
Proof.
  unfold met. induction deps as [|d deps IH]; [split; set_solver|].
  rewrite filter_cons. pose proof (length_filter (fun d => d ∈ P) deps) as Hle.
  case_decide as Hd; cbn [length].
  - rewrite (Nat.succ_inj_wd). rewrite IH. set_solver.
  - split; [lia|]. intros H. exfalso. apply Hd, H. left.
Qed.

Lemma met_snoc P x deps :
  NoDup deps -> x ∉ P ->
  met (P ++ [x]) deps = (met P deps + if decide (x ∈ deps) then 1 else 0)%nat.
Proof.
  intros Hnd Hx. unfold met. induction Hnd as [|d deps Hni Hnd IH]; [done|].
  rewrite !filter_cons. destruct (decide (d = x)) as [->|Hne].
  - rewrite decide_True by set_solver. rewrite decide_False by done. cbn [length].
    rewrite IH. rewrite decide_False by done. rewrite decide_True by set_solver. lia.
  - destruct (decide (d ∈ P)) as [Hd|Hd].
    + rewrite decide_True by set_solver. cbn [length]. rewrite IH.
      destruct (decide (x ∈ deps)); [rewrite decide_True by set_solver|rewrite decide_False by set_solver]; lia.
    + rewrite decide_False by set_solver. rewrite IH.
      destruct (decide (x ∈ deps)); [rewrite decide_True by set_solver|rewrite decide_False by set_solver]; lia.
Qed.

(** The candidates the processing of [x] sets free. *)
Definition freed (x : string) (D : gmap string Z) (cs : list Task) : list Task :=
  filter (fun c => x ∈ t_dependencies c /\ default 0 (D !! t_id c) - 1 = 0) cs.

Lemma release_degrees x cs D Q D' Q' :
  NoDup (map t_id cs) -> release x cs D Q = (D', Q') ->
  Q' = Q ++ map t_id (freed x D cs) /\
  (forall c, c ∈ cs -> D' !! t_id c = if decide (x ∈ t_dependencies c)
     then Some (default 0 (D !! t_id c) - 1) else D !! t_id c) /\
  (forall id, id ∉ map t_id cs -> D' !! id = D !! id).
Proof.
  revert D Q. induction cs as [|c cs IH]; intros D Q Hnd H.
  { cbn in H. simplify_eq. rewrite app_nil_r. split; [done|]. split; [set_solver|done]. }
  cbn [map] in Hnd. apply NoDup_cons in Hnd as [Hni Hnd]. cbn [release] in H.
  assert (Hne : forall u, u ∈ cs -> t_id u <> t_id c).
  { intros u Hu Heq. apply Hni. rewrite <- Heq. by apply list_elem_of_fmap_2. }
  unfold freed. rewrite filter_cons. case_decide as Hx.
  - apply IH in H as (HQ & Hin & Hout); [|done].
    assert (Hf : filter (fun c0 => x ∈ t_dependencies c0 /\
        default 0 (<[t_id c := default 0 (D !! t_id c) - 1]> D !! t_id c0) - 1 = 0) cs = freed x D cs).
    { apply filter_ext_elem. intros u Hu. rewrite lookup_insert_ne; [done|].
      intros Heq. by apply (Hne u Hu). }
    unfold freed in HQ. rewrite Hf in HQ. repeat split.
    + rewrite HQ. case_decide as H0; [rewrite decide_True by done|rewrite decide_False by tauto];
        cbn [map]; [by rewrite <- app_assoc|done].
    + intros u Hu. apply elem_of_cons in Hu as [->|Hu].
      * rewrite decide_True by done. rewrite Hout by done. by rewrite lookup_insert_eq.
      * rewrite Hin by done. by rewrite lookup_insert_ne by (intros Heq; by apply (Hne u Hu)).
    + intros id Hid. rewrite Hout by set_solver. rewrite lookup_insert_ne; [done|]. set_solver.
  - rewrite decide_False by tauto. apply IH in H as (HQ & Hin & Hout); [|done]. repeat split.
    + exact HQ.
    + intros u Hu. apply elem_of_cons in Hu as [->|Hu]; [|by apply Hin].
      rewrite decide_False by done. by apply Hout.
    + intros id Hid. apply Hout. set_solver.
Qed.

(** The state of the sort after processing [P] with [Q] queued. *)
Record kahn_inv (P Q : list string) (D : gmap string Z) (sorted : list Task) : Prop := {
  ki_nodup : NoDup (P ++ Q);
  ki_tasks : forall x, x ∈ P ++ Q -> x ∈ map t_id tasks;
  ki_degrees : forall t, t ∈ tasks ->
    D !! t_id t = Some (Z.of_nat (length (t_dependencies t)) - Z.of_nat (met P (t_dependencies t)));
  ki_queued : forall t, t ∈ tasks ->
    t_id t ∈ P ++ Q <-> forall d, d ∈ t_dependencies t -> d ∈ P;
  ki_sorted : map t_id sorted = P;
  ki_from : forall t, t ∈ sorted -> t ∈ tasks;
  ki_order : forall before t after, sorted = before ++ t :: after ->
    forall d, d ∈ t_dependencies t -> d ∈ map t_id before;
}.

Lemma met_nil deps : met [] deps = 0%nat.
Proof. unfold met. induction deps; [done|]. by rewrite filter_cons, decide_False by set_solver. Qed.

Lemma kahn_start : kahn_inv [] (roots tasks) (initial_degrees tasks) [].
Proof.
  assert (Hroot : forall t, t ∈ tasks -> t_id t ∈ roots tasks <-> t_dependencies t = []).
  { intros t Ht. unfold roots. rewrite list_elem_of_fmap. split.
    - intros (u & Hi & [Hu Hin]%list_elem_of_filter). by rewrite (id_unique t u).
    - intros Hd. exists t. split; [done|]. by apply list_elem_of_filter. }
  split; simpl; try done.
  - unfold roots. eapply sublist_NoDup; [exact Hids|]. apply fmap_sublist, sublist_filter.
  - intros x (u & -> & [_ Hu]%list_elem_of_filter)%list_elem_of_fmap. by apply list_elem_of_fmap_2.
  - intros t Ht. rewrite degrees_lookup by done. rewrite met_nil. f_equal. lia.
  - intros t Ht. rewrite Hroot by done. destruct (t_dependencies t); [split; set_solver|].
    split; [done|]. intros H. exfalso. apply (not_elem_of_nil s), H. left.
  - intros t Ht. by apply not_elem_of_nil in Ht.
  - intros [] ? ? [=].
Qed.

Lemma kahn_step P x Q D D' Q' sorted t :
  kahn_inv P (x :: Q) D sorted -> t ∈ tasks -> t_id t = x ->
  release x tasks D Q = (D', Q') ->
  kahn_inv (P ++ [x]) Q' D' (sorted ++ [t]).
Proof.
  intros [Hnd Hsub Hdeg Hq Hs Hfrom Hord] Ht Hx Hrel.
  apply release_degrees in Hrel as (HQ & HD & _); [|done].
  assert (HxP : x ∉ P) by (apply NoDup_app in Hnd as (_ & Hd & _); intros Hin; apply (Hd x Hin); left).
  assert (Hfreed : forall u, u ∈ tasks -> u ∈ freed x D tasks <->
    x ∈ t_dependencies u /\ forall d, d ∈ t_dependencies u -> d ∈ P ++ [x]).
  { intros u Hu. unfold freed. rewrite list_elem_of_filter, (Hdeg u Hu). cbn [from_option id].
    rewrite <- (met_all (P ++ [x])), met_snoc by auto.
    destruct (decide (x ∈ t_dependencies u)); [|tauto].
    split; [intros [[? ?] _]|intros [? ?]]; repeat split; try done; lia. }
  assert (Happ : (P ++ [x]) ++ Q' = (P ++ x :: Q) ++ map t_id (freed x D tasks)).
  { rewrite HQ, <- !app_assoc. done. }
  assert (Hmem : forall u, u ∈ tasks -> t_id u ∈ map t_id (freed x D tasks) <-> u ∈ freed x D tasks).
  { intros u Hu. rewrite list_elem_of_fmap. split; [|by exists u].
    intros (v & Hv & Hin). assert (v ∈ tasks) by by apply list_elem_of_filter in Hin as [_ ?].
    by rewrite (id_unique u v). }
  split.
  - rewrite Happ. apply NoDup_app. split; [done|]. split.
    + intros y Hy Hin. apply list_elem_of_fmap in Hin as (u & -> & Hu).
      assert (Hut : u ∈ tasks) by by apply list_elem_of_filter in Hu as [_ ?].
      pose proof (proj1 (Hq u Hut) Hy) as Hall. apply Hfreed in Hu as [Hxu _]; [|done].
      by apply HxP, Hall.
    + eapply sublist_NoDup; [exact Hids|]. apply fmap_sublist, sublist_filter.
  - intros y Hy. rewrite Happ in Hy. apply elem_of_app in Hy as [Hy|Hy]; [by apply Hsub|].
    apply list_elem_of_fmap in Hy as (u & -> & [_ Hu]%list_elem_of_filter). by apply list_elem_of_fmap_2.
  - intros u Hu. rewrite HD by done. rewrite (Hdeg u Hu), met_snoc by auto. cbn [from_option id].
    case_decide; f_equal; lia.
  - intros u Hu. rewrite Happ, elem_of_app, Hmem, Hfreed, Hq by done. split.
    + intros [Hall|[_ Hall]]; [set_solver|done].
    + intros Hall. destruct (decide (x ∈ t_dependencies u)); [by right|left].
      intros d Hd. specialize (Hall d Hd). apply elem_of_app in Hall as [?|Hdx]; [done|].
      apply list_elem_of_singleton in Hdx. congruence.
  - rewrite map_app, Hs. simpl. by rewrite Hx.
  - intros u [Hu|Hu]%elem_of_app; [by apply Hfrom|]. by apply list_elem_of_singleton in Hu as ->.
  - intros before u after Heq d Hd. destruct after as [|v after _] using rev_ind.
    + apply app_inj_tail in Heq as [<- <-]. rewrite Hs. apply (Hq t Ht); [|done].
      rewrite Hx. set_solver.
    + rewrite app_comm_cons, app_assoc in Heq. apply app_inj_tail in Heq as [Heq _].
      by apply (Hord before u after Heq).
Qed.

Lemma kahn_spec fuel P Q D sorted :
  kahn_inv P Q D sorted -> (fuel + length P = length tasks)%nat ->
  exists sorted' D', kahn fuel tasks (task_map tasks) D Q sorted = Some sorted' /\
    kahn_inv (map t_id sorted') [] D' sorted'.
Proof.
  revert P Q D sorted. induction fuel as [|fuel IH]; intros P Q D sorted Hinv Hf;
    (destruct Q as [|x Q];
     [exists sorted, D; split; [done|]; by rewrite (ki_sorted _ _ _ _ Hinv)|]).
  - exfalso. pose proof (submseteq_length _ _
      (NoDup_submseteq _ _ (ki_nodup _ _ _ _ Hinv) (ki_tasks _ _ _ _ Hinv))) as Hlen.
    rewrite length_app, length_map in Hlen. simpl in Hlen. lia.
  - assert (Hx : x ∈ map t_id tasks) by (apply (ki_tasks _ _ _ _ Hinv); set_solver).
    apply list_elem_of_fmap in Hx as (t & Hx & Ht). cbn [kahn].
    rewrite (proj2 (task_map_lookup x t)) by done.
    destruct (release x tasks D Q) as [D' Q'] eqn:Hrel.
    apply (IH (P ++ [x])); [by eapply kahn_step|]. rewrite length_app. simpl. lia.
Qed.

(** A task that can run some day: all it depends on exists and can run. *)
Inductive sortable : string -> Prop :=
| sortable_task t :
    t ∈ tasks -> (forall d, d ∈ t_dependencies t -> sortable d) -> sortable (t_id t).

Lemma sorted_sortable P D sorted t :
  kahn_inv P [] D sorted -> t ∈ tasks -> t ∈ sorted <-> sortable (t_id t).
Proof.
  intros Hinv Ht. split.
  - assert (Hall : forall k u, u ∈ take k sorted -> sortable (t_id u)).
    { intros k. induction k as [|k IH]; intros u Hu; [by apply not_elem_of_nil in Hu|].
      destruct (sorted !! k) as [v|] eqn:Hv.
      - rewrite (take_S_r _ _ _ Hv) in Hu. apply elem_of_app in Hu as [Hu|Hu]; [by apply IH|].
        apply list_elem_of_singleton in Hu as ->.
        assert (Heq : sorted = take k sorted ++ v :: drop (S k) sorted) by by rewrite take_drop_middle.
        constructor.
        + apply (ki_from _ _ _ _ Hinv). by eapply list_elem_of_lookup_2.
        + intros d Hd. apply (ki_order _ _ _ _ Hinv _ _ _ Heq) in Hd.
          apply list_elem_of_fmap in Hd as (w & -> & Hw). by apply IH.
      - apply lookup_ge_None in Hv. rewrite take_ge in Hu by lia. apply IH. by rewrite take_ge. }
    intros Hin. apply (Hall (length sorted)). by rewrite take_ge.
  - intros Hs. assert (HP : t_id t ∈ P).
    { clear Ht. induction Hs as [u Hu _ IH]. rewrite <- (app_nil_r P).
      by apply (ki_queued _ _ _ _ Hinv). }
    rewrite <- (ki_sorted _ _ _ _ Hinv) in HP. apply list_elem_of_fmap in HP as (u & Hi & Hu).
    rewrite (id_unique t u); [done|done|by apply (ki_from _ _ _ _ Hinv)|done].
Qed.

End Sort.
(** * The search for cycles *)

Definition flip_needs (d x : string) : Prop := needs x d.

(** The finished nodes, each after everything it needs. *)
Inductive finished : list string -> Prop :=
| fin_nil : finished []
| fin_snoc L x : finished L -> (forall d, needs x d -> d ∈ L) -> finished (L ++ [x]).

Lemma finished_Acc L x : finished L -> x ∈ L -> Acc flip_needs x.
Proof.
  intros HL. revert x. induction HL as [|L y HL IH Hy]; intros x Hx; [by apply not_elem_of_nil in Hx|].
  apply elem_of_app in Hx as [Hx| ->%list_elem_of_singleton]; [by apply IH|].
  constructor. intros d Hd. apply IH. by apply Hy.
Qed.

Lemma Acc_acyclic x : Acc flip_needs x -> ~ tc needs x x.
Proof.
  intros HA. induction HA as [x _ IH]. intros Hc. inversion Hc as [? ? H|? y ? H Hrest]; subst.
  - by apply (IH x).
  - apply (IH y); [done|]. eapply tc_r; [exact Hrest|exact H].
Qed.

(** Every node visited is finished or on the path of the search; those off the
    recursion stack are finished. *)
Record dfs_inv (st : DfsState) (L path : list string) : Prop := {
  di_finished : finished L;
  di_visited : forall x, x ∈ visited st -> x ∈ L \/ x ∈ path;
  di_off : forall x, x ∈ visited st -> x ∉ recStack st -> x ∈ L;
  di_nodes : visited st ⊆ all_nodes tasks;
}.

(** How the search of one node ends. *)
Definition dfs_ends (node : string) (st : DfsState) (L path : list string)
    (r : option (option (list string) * DfsState)) : Prop :=
  exists c st', r = Some (c, st') /\ visited st ⊆ visited st' /\
    (c = None -> exists L', dfs_inv st' L' path /\ L `prefix_of` L' /\ node ∈ L').

Lemma needs_node x d : needs x d -> d ∈ all_nodes tasks.
Proof.
  intros (t & Ht & _ & Hd). unfold all_nodes. apply elem_of_list_to_set, elem_of_app. right.
  apply list_elem_of_In, in_concat. exists (t_dependencies t).
  split; [by apply in_map, list_elem_of_In|by apply list_elem_of_In].
Qed.

Lemma dfs_deps_spec search node deps st L path done_deps t :
  t ∈ tasks -> t_id t = node -> t_dependencies t = done_deps ++ deps ->
  (forall d, d ∈ done_deps -> d ∈ L) -> dfs_inv st L (node :: path) ->
  (forall d st1 L1, d ∉ visited st1 -> d ∈ all_nodes tasks -> visited st ⊆ visited st1 ->
     dfs_inv st1 L1 (node :: path) -> dfs_ends d st1 L1 (node :: path) (search d st1)) ->
  dfs_ends node st L path (dfs_deps search node deps st).
Proof.
  intros Ht Hnode. revert st L done_deps.
  induction deps as [|d deps IH]; intros st L dd Hdeps Hdone Hinv Hsearch.
  - rewrite app_nil_r in Hdeps. eexists _, _. split; [done|]. split; [done|]. intros _.
    exists (L ++ [node]). destruct Hinv as [Hf Hv Ho Hn]. split; [|split; [by eexists|set_solver]].
    split; cbn [visited recStack].
    + constructor; [done|]. intros d (u & Hu & Hi & Hd). apply Hdone. rewrite <- Hdeps.
      by rewrite (id_unique t u) by congruence.
    + set_solver.
    + intros x Hx Hoff. destruct (decide (x = node)) as [->|]; set_solver.
    + done.
  - assert (Hd : needs node d) by (exists t; rewrite Hdeps; set_solver).
    cbn [dfs_deps]. case_decide as Hv.
    + case_decide as Hr; [by eexists _, _|].
      apply (IH st L (dd ++ [d])); [by rewrite <- app_assoc| |done|done].
      intros e [He| ->%list_elem_of_singleton]%elem_of_app; [by apply Hdone|by apply (di_off _ _ _ Hinv)].
    + destruct (Hsearch d st L Hv (needs_node _ _ Hd) ltac:(done) Hinv) as (c & st' & -> & Hsub & Hnone).
      destruct c as [c|]; [by eexists _, _|].
      destruct (Hnone eq_refl) as (L' & Hinv' & Hpre & Hin).
      destruct (IH st' L' (dd ++ [d])) as (c & st'' & -> & Hsub' & Hend).
      * by rewrite <- app_assoc.
      * intros e [He| ->%list_elem_of_singleton]%elem_of_app; [|done].
        destruct Hpre as [k ->]. apply elem_of_app. left. by apply Hdone.
      * done.
      * intros e st1 L1 ? ? ?. apply Hsearch; [done..|]. by etrans.
      * exists c, st''. split; [done|]. split; [by etrans|]. intros Hc.
        destruct (Hend Hc) as (L'' & ? & ? & ?). exists L''. split; [done|]. split; [by etrans|done].
Qed.

Lemma dfs_spec fuel node st L path :
  node ∉ visited st -> node ∈ all_nodes tasks -> dfs_inv st L path ->
  (size (all_nodes tasks ∖ visited st) < fuel)%nat ->
  dfs_ends node st L path (detectCycleDFS fuel (task_map tasks) node st).
Proof.
  revert node st L path. induction fuel as [|fuel IH]; intros node st L path Hv Hn Hinv Hf; [lia|].
  cbn [detectCycleDFS].
  set (st1 := mkDfs ({[node]} ∪ visited st) ({[node]} ∪ recStack st)).
  assert (Hlt : (size (all_nodes tasks ∖ visited st1) < size (all_nodes tasks ∖ visited st))%nat).
  { apply subset_size. unfold st1. cbn [visited]. split; [clear; set_solver|].
    intros Hs. specialize (Hs node). clear -Hs Hn Hv. set_solver. }
  assert (Hinv1 : dfs_inv st1 L (node :: path)).
  { destruct Hinv as [Hfin Hvis Hoff Hnodes]. split; cbn [visited recStack st1]; set_solver. }
  assert (Hends : forall r, dfs_ends node st1 L path r -> dfs_ends node st L path r).
  { intros r (c & st' & -> & Hsub & H). exists c, st'. split; [done|]. split; [|done].
    etrans; [|exact Hsub]. unfold st1. cbn [visited]. set_solver. }
  destruct (task_map tasks !! node) as [t|] eqn:Ht.
  - apply task_map_lookup in Ht as [Ht Hi]. apply Hends.
    apply (dfs_deps_spec _ _ _ _ _ _ [] t); [done..|set_solver|done|].
    intros d st2 L2 Hd Hdn Hsub Hinv2. apply IH; [done..|].
    assert (size (all_nodes tasks ∖ visited st2) <= size (all_nodes tasks ∖ visited st1))%nat
      by (apply subseteq_size; set_solver). lia.
  - exists None, st1. split; [done|]. split; [unfold st1; cbn [visited]; set_solver|]. intros _.
    exists (L ++ [node]). destruct Hinv1 as [Hfin Hvis Hoff Hnodes]. split; [|split; [by eexists|set_solver]].
    split.
    + constructor; [done|]. intros d (u & Hu & Hi & _).
      assert (task_map tasks !! node = Some u) by by apply task_map_lookup. congruence.
    + intros x Hx. specialize (Hvis x Hx). set_solver.
    + intros x Hx Hr. specialize (Hoff x Hx Hr). set_solver.
    + done.
Qed.

Lemma dfs_all_spec fuel ts st L :
  (forall t, t ∈ ts -> t ∈ tasks) -> dfs_inv st L [] -> (size (all_nodes tasks) < fuel)%nat ->
  exists c, dfs_all fuel (task_map tasks) ts st = Some c /\
    (c = None -> exists L', finished L' /\ L `prefix_of` L' /\ forall t, t ∈ ts -> t_id t ∈ L').
Proof.
  revert st L. induction ts as [|t ts IH]; intros st L Hts Hinv Hf.
  { exists None. split; [done|]. intros _. exists L. split; [apply Hinv|]. split; [done|set_solver]. }
  cbn [dfs_all]. assert (Hts' : forall u, u ∈ ts -> u ∈ tasks) by (intros; apply Hts; by right).
  case_decide as Hv.
  - destruct (IH st L Hts' Hinv Hf) as (c & -> & Hc). exists c. split; [done|]. intros Hn.
    destruct (Hc Hn) as (L' & Hfin & [k ->] & Hall). exists (L ++ k). split; [done|].
    split; [by eexists|]. intros u [->|Hu]%elem_of_cons; [|by apply Hall].
    destruct (di_visited _ _ _ Hinv _ Hv) as [|Hp]; [set_solver|by apply not_elem_of_nil in Hp].
  - assert (Hn : t_id t ∈ all_nodes tasks).
    { apply elem_of_list_to_set, elem_of_app. left. apply list_elem_of_fmap_2, Hts. left. }
    assert (Hsize : (size (all_nodes tasks ∖ visited st) < fuel)%nat).
    { eapply Nat.le_lt_trans; [|exact Hf]. apply subseteq_size. set_solver. }
    destruct (dfs_spec fuel (t_id t) st L [] Hv Hn Hinv Hsize) as (c & st' & -> & _ & Hnone).
    destruct c as [c|]; [by exists (Some c)|].
    destruct (Hnone eq_refl) as (L' & Hinv' & Hpre & Hin).
    destruct (IH st' L' Hts' Hinv' Hf) as (c & -> & Hc). exists c. split; [done|]. intros Hcn.
    destruct (Hc Hcn) as (L'' & Hfin & [k ->] & Hall). exists (L' ++ k). split; [done|].
    split; [etrans; [exact Hpre|by eexists]|].
    intros u [->|Hu]%elem_of_cons; [set_solver|by apply Hall].
Qed.

(** ** A cycle that is reported is one, in a closed plan *)

Definition cyclic : Prop := exists x, tc needs x x.

(** The recursion stack is as it was, unless a cycle was found. *)
Definition dfs_back (gone : gset string) (st : DfsState)
    (r : option (option (list string) * DfsState)) : Prop :=
  match r with
  | Some (Some _, _) => cyclic
  | Some (None, st') => recStack st' = recStack st ∖ gone /\ visited st ⊆ visited st'
  | None => True
  end.

Lemma dfs_deps_back search node deps st :
  (forall d, d ∈ deps -> needs node d) ->
  (forall x, x ∈ recStack st -> x = node \/ tc needs x node) -> recStack st ⊆ visited st ->
  (forall d st1, needs node d -> d ∉ visited st1 -> recStack st1 = recStack st ->
     recStack st1 ⊆ visited st1 -> dfs_back ∅ st1 (search d st1)) ->
  dfs_back {[node]} st (dfs_deps search node deps st).
Proof.
  revert st. induction deps as [|d deps IH]; intros st Hdeps Hstack Hsub Hsearch; [by split|].
  assert (Hd : needs node d) by (apply Hdeps; left).
  assert (Hdeps' : forall e, e ∈ deps -> needs node e) by (intros; apply Hdeps; by right).
  cbn [dfs_deps]. case_decide as Hv.
  - case_decide as Hr; [|by apply IH]. exists node. destruct (Hstack d Hr) as [->|Hc]; [by apply tc_once|].
    eapply tc_l; [exact Hd|exact Hc].
  - specialize (Hsearch d st Hd Hv eq_refl Hsub) as Hb.
    destruct (search d st) as [[[c|] st']|]; [done| |done].
    destruct Hb as [Hrs Hvs]. rewrite difference_empty_L in Hrs.
    assert (Hrest : dfs_back {[node]} st' (dfs_deps search node deps st')).
    { apply IH; [done|by rewrite Hrs|rewrite Hrs; set_solver|by rewrite Hrs]. }
    destruct (dfs_deps search node deps st') as [[[c|] st'']|]; [done| |done].
    destruct Hrest as [Hrs' Hvs']. rewrite Hrs in Hrs'. split; [done|set_solver].
Qed.

Lemma dfs_back_spec fuel node st :
  closed_plan -> node ∉ visited st -> node ∈ map t_id tasks ->
  (forall x, x ∈ recStack st -> tc needs x node) -> recStack st ⊆ visited st ->
  dfs_back ∅ st (detectCycleDFS fuel (task_map tasks) node st).
Proof.
  intros Hclosed. revert node st. induction fuel as [|fuel IH]; intros node st Hv Hnode Hstack Hsub; [done|].
  cbn [detectCycleDFS]. set (st1 := mkDfs ({[node]} ∪ visited st) ({[node]} ∪ recStack st)).
  apply list_elem_of_fmap in Hnode as (t & Hi & Ht).
  rewrite (proj2 (task_map_lookup node t)) by done.
  assert (Hdeps : forall d, d ∈ t_dependencies t -> needs node d) by (intros d Hd; by exists t).
  assert (Hstack1 : forall x, x ∈ recStack st1 -> x = node \/ tc needs x node).
  { intros x [Hx|Hx]%elem_of_union; [left; set_solver|right; by apply Hstack]. }
  assert (Hb : dfs_back {[node]} st1 (dfs_deps (detectCycleDFS fuel (task_map tasks)) node
    (t_dependencies t) st1)).
  { apply dfs_deps_back; [done..|unfold st1; cbn [recStack visited]; set_solver|].
    intros d st2 Hd Hv2 Hrs Hsub2. apply IH; [done|by apply (Hclosed node)| |done].
    rewrite Hrs. intros x Hx. destruct (Hstack1 x Hx) as [->|Hc]; [by apply tc_once|].
    eapply tc_r; [exact Hc|exact Hd]. }
  destruct (dfs_deps _ _ _ _) as [[[c|] st']|]; [done| |done].
  destruct Hb as [Hrs Hvs]. unfold st1 in *. cbn [recStack visited] in *. split; [|set_solver].
  rewrite Hrs. apply set_eq. intros x. assert (node ∉ recStack st) by set_solver. set_solver.
Qed.

Lemma dfs_all_back fuel ts st c :
  closed_plan -> (forall t, t ∈ ts -> t ∈ tasks) -> recStack st = ∅ ->
  dfs_all fuel (task_map tasks) ts st = Some (Some c) -> cyclic.
Proof.
  intros Hclosed. revert st. induction ts as [|t ts IH]; intros st Hts Hr; [done|].
  assert (Hts' : forall u, u ∈ ts -> u ∈ tasks) by (intros; apply Hts; by right).
  cbn [dfs_all]. case_decide as Hv; [by apply IH|].
  assert (Hb : dfs_back ∅ st (detectCycleDFS fuel (task_map tasks) (t_id t) st)).
  { apply dfs_back_spec; [done|done|apply list_elem_of_fmap_2, Hts; left|rewrite Hr; set_solver..]. }
  destruct (detectCycleDFS _ _ _ _) as [[[c'|] st']|]; [done| |done].
  destruct Hb as [Hrs _]. apply IH; [done|]. rewrite Hrs, Hr. set_solver.
Qed.

End Plan.

(** * Properties *)

(** C29. The topological sort of a plan with distinct ids and no repeated
    dependency ends, lists each task at most once and after all it depends on,
    and leaves out exactly the tasks that can never run: those that depend,
    through others or not, on a missing task or on themselves. *)
Theorem topologicalSort_sorts tasks :
  NoDup (map t_id tasks) -> Forall (fun t => NoDup (t_dependencies t)) tasks ->
  exists sorted, topologicalSort tasks = Some sorted /\
    NoDup (map t_id sorted) /\
    (forall before t after, sorted = before ++ t :: after ->
     forall d, d ∈ t_dependencies t -> d ∈ map t_id before) /\
    (forall t, t ∈ sorted -> t ∈ tasks) /\
    (forall t, t ∈ tasks -> t ∈ sorted <-> sortable tasks (t_id t)).
Proof.
  intros Hids Hdeps. rewrite Forall_forall in Hdeps.
  destruct (kahn_spec tasks Hids Hdeps (length tasks) [] (roots tasks) (initial_degrees tasks) [])
    as (sorted & D & Hs & Hinv); [by apply kahn_start|simpl; lia|].
  exists sorted. split; [exact Hs|]. split.
  { pose proof (ki_nodup _ _ _ _ _ Hinv) as Hnd. by rewrite app_nil_r in Hnd. }
  split; [by apply Hinv|]. split; [by apply Hinv|].
  intros t Ht. by eapply sorted_sortable.
Qed.

(** The check of a plan with distinct ids ends, and what it accepts has no
    cycle; when every dependency is a task of the plan it accepts exactly the
    plans without cycles. *)
Theorem validateDAG_exact tasks :
  NoDup (map t_id tasks) ->
  exists r, validateDAG tasks = Some r /\
    (vr_valid r = true -> acyclic tasks) /\
    (closed_plan tasks -> acyclic tasks -> vr_valid r = true).
Proof.
  intros Hids. unfold validateDAG. destruct (find _ tasks) as [t|] eqn:Hself.
  { exists (mkValidation false (Some [t_id t])). split; [done|]. split; [done|]. intros _ Ha. exfalso.
    apply find_some in Hself as [Hin Hs]. apply bool_decide_eq_true in Hs.
    apply (Ha (t_id t)), tc_once. exists t. split; [by apply list_elem_of_In|done]. }
  assert (Hstart : dfs_inv tasks (mkDfs ∅ ∅) [] []) by (split; [constructor|set_solver..]).
  destruct (dfs_all_spec tasks Hids (dfs_fuel tasks) tasks (mkDfs ∅ ∅) [] ltac:(done) Hstart)
    as (c & Hc & Hnone); [unfold dfs_fuel; lia|]. rewrite Hc.
  destruct c as [cycle|].
  - exists (mkValidation false (Some cycle)). split; [done|]. split; [done|]. intros Hcl Ha. exfalso.
    apply (dfs_all_back tasks Hids) in Hc as [x Hx]; [by apply (Ha x)|done..].
  - exists (mkValidation true None). split; [done|]. split; [|done]. intros _ x Hx.
    destruct (Hnone eq_refl) as (L & Hfin & _ & Hall).
    assert (Hxt : x ∈ L).
    { assert (Hn : exists d, needs tasks x d) by (inversion Hx; eauto).
      destruct Hn as (d & t & Ht & <- & _). by apply Hall. }
    eapply Acc_acyclic; [by eapply finished_Acc|exact Hx].
Qed.

Definition plan_task (id : string) (deps : list string) : Task :=
  mkTask id "run1" "edit" PENDING deps JNull None None 0 3.

Lemma topologicalSort_sorts_witness :
  let tasks := [plan_task "a" ["b"; "c"]; plan_task "b" ["c"]; plan_task "c" []; plan_task "d" ["x"]] in
  exists sorted, topologicalSort tasks = Some sorted /\ map t_id sorted = ["c"; "b"; "a"] /\
    NoDup (map t_id sorted).
Proof.
  intros tasks. destruct (topologicalSort_sorts tasks) as (sorted & Hs & Hnd & _).
  - by apply (bool_decide_unpack _).
  - repeat constructor; set_solver.
  - exists sorted. split; [done|]. split; [|done]. vm_compute in Hs. by injection Hs as <-.
Defined.

Lemma validateDAG_exact_witness :
  let tasks := [plan_task "a" ["b"]; plan_task "b" ["c"]; plan_task "c" []] in
  exists r, validateDAG tasks = Some r /\ vr_valid r = true /\ acyclic tasks.
Proof.
  intros tasks. destruct (validateDAG_exact tasks) as (r & Hr & Hv & _); [by apply (bool_decide_unpack _)|].
  assert (Hvr : vr_valid r = true) by (vm_compute in Hr; by injection Hr as <-).
  exists r. split; [done|]. split; [done|]. by apply Hv.
Defined.

(** Two tasks that share a missing dependency are reported as a cycle: the search
    leaves the missing node on the recursion stack. *)
Example shared_missing_dependency :
  let tasks := [plan_task "a" ["x"]; plan_task "b" ["x"]] in
  validateDAG tasks = Some (mkValidation false (Some ["x"; "b"])).
Proof. by vm_compute. Qed.

(** A dependency named twice is counted twice and met once: the task is lost. *)
Example repeated_dependency_lost :
  map t_id <$> topologicalSort [plan_task "a" []; plan_task "b" ["a"; "a"]] = Some ["a"].
Proof. by vm_compute. Qed.
