(* ===== verification/Recovery.v ===== *)
(** [RunRecovery] of
    [packages/execution-engine/src/runtime/orchestration/RunRecovery.ts]: the
    status of a run is rebuilt from the statuses of its tasks, and a run that is
    not over can be resumed.  The memory of the checkpoints is a parameter; the
    time of a transition is the argument [now]. *)
From S2P Require Import Prelude Js Tasks.
#[local] Open Scope Z_scope.

(** The memory coordinator: the checkpoint to resume a run from, and the context
    it retrieves for the phase of a checkpoint. *)
Class MemoryCoordinator (Checkpoint Context : Type) : Type := {
  getCheckpointForResume : string -> option Checkpoint;
  retrieveContext : string -> string -> Checkpoint -> Run -> Context;
}.

Record ReplayContext (Checkpoint Context : Type) : Type := mkReplay {
  rp_checkpoint : Checkpoint;
  rp_memoryContext : Context;
  rp_run : Run;
  rp_tasks : list Task;
}.
Arguments mkReplay {Checkpoint Context}.
Arguments rp_run {Checkpoint Context}.
Arguments rp_tasks {Checkpoint Context}.

Definition RunRecoveryError (message : string) : exn := Exn ("[recovery/run] " +:+ message).

Notation SM := (ST Storage exn).

Definition count_status (s : TaskStatus) (tasks : list Task) : nat :=
  length (filter (fun t => t_status t = s) tasks).

Definition save_run (r : Run) : SM Run := _ ← modify (RunRepository.update r); mret r.

(** [reconstructState], which returns the run it changed. *)
Definition reconstructState (now : string) (run : Run) : SM Run :=
  tasks ← gets (TaskRepository.getByRun (r_id run));
  match tasks with
  | [] => mret run
  | _ =>
      let doneCount := count_status DONE tasks in
      let failedCount := count_status FAILED tasks in
      let cancelledCount := count_status CANCELLED tasks in
      let terminalCount := (doneCount + failedCount + cancelledCount)%nat in
      if (0 <? cancelledCount)%nat then
        if decide (r_status run = R_CANCELLED) then mret run
        else run ← lift (run_transition now R_CANCELLED run); save_run run
      else if (0 <? failedCount)%nat then
        if decide (r_status run = R_FAILED) then mret run
        else
          run ← lift (run_transition now R_FAILED run);
          save_run (set_run_error
            (Number_toString (Z.of_nat failedCount) +:+ " task(s) failed") run)
      else if ((terminalCount =? length tasks) && (failedCount =? 0))%nat then
        if decide (r_status run = R_COMPLETED) then mret run
        else run ← lift (run_transition now R_COMPLETED run); save_run run
      else if decide (r_status run ∈ [R_PLANNING; R_RUNNING]) then mret run
      else run ← lift (run_transition now R_RUNNING run); save_run run
  end.

Definition resumeRun (now runId : string) : SM Run :=
  run ← gets (RunRepository.getById runId);
  match run with
  | None => throw (RunRecoveryError ("Run " +:+ runId +:+ " not found"))
  | Some run =>
      run ← reconstructState now run;
      if decide (r_status run ∈ [R_COMPLETED; R_FAILED; R_CANCELLED]) then
        throw (RunRecoveryError ("Cannot resume run " +:+ runId +:+ " - status is " +:+
          RunStatus_str (r_status run)))
      else mret run
  end.

Definition replayFromCheckpoint {Checkpoint Context : Type} `{!MemoryCoordinator Checkpoint Context}
    (now runId sessionId : string) : SM (ReplayContext Checkpoint Context) :=
  match getCheckpointForResume runId with
  | None => throw (RunRecoveryError ("No checkpoint found for run " +:+ runId))
  | Some checkpoint =>
      run ← gets (RunRepository.getById runId);
      match run with
      | None => throw (RunRecoveryError ("Run " +:+ runId +:+ " not found during replay"))
      | Some run =>
          run ← reconstructState now run;
          tasks ← gets (TaskRepository.getByRun runId);
          mret (mkReplay checkpoint (retrieveContext runId sessionId checkpoint run) run tasks)
      end
  end.

Definition findLastIncompleteTask (runId : string) (s : Storage) : option Task :=
  find (fun t => bool_decide (t_status t ∉ [DONE; FAILED; CANCELLED]))
    (reverse (TaskRepository.getByRun runId s)).

(** * What recovery promises *)

(** The status the tasks of a run entail. *)
Definition entailed_status (tasks : list Task) (current : RunStatus) : RunStatus :=
  if decide (tasks = []) then current
  else if decide (Exists (fun t => t_status t = CANCELLED) tasks) then R_CANCELLED
  else if decide (Exists (fun t => t_status t = FAILED) tasks) then R_FAILED
  else if decide (Forall (fun t => t_status t = DONE) tasks) then R_COMPLETED
  else if decide (current ∈ [R_PLANNING; R_RUNNING]) then current
  else R_RUNNING.

Lemma count_pos s tasks : (0 <? count_status s tasks)%nat = bool_decide (Exists (fun t => t_status t = s) tasks).
Proof.
  unfold count_status. induction tasks as [|t tasks IH]; [done|]. rewrite filter_cons.
  case_decide as Ht.
  - symmetry. apply bool_decide_eq_true_2. by left.
  - rewrite IH. apply bool_decide_ext. rewrite Exists_cons. tauto.
Qed.

Lemma count_zero s tasks : count_status s tasks = 0%nat <-> ~ Exists (fun t => t_status t = s) tasks.
Proof.
  rewrite <- (bool_decide_eq_false (Exists _ _)), <- count_pos, Nat.ltb_ge. lia.
Qed.

Lemma count_done_all tasks :
  count_status DONE tasks = length tasks <-> Forall (fun t => t_status t = DONE) tasks.
Proof.
  unfold count_status. induction tasks as [|t tasks IH]; [by split|]. rewrite filter_cons, Forall_cons.
  pose proof (length_filter (fun t => t_status t = DONE) tasks) as Hle.
  case_decide as Ht; cbn [length].
  - rewrite Nat.succ_inj_wd, IH. tauto.
  - split; [lia|tauto].
Qed.

(** [reconstructState] moves the run to the entailed status, or throws when that
    is no transition of the state machine. *)
Definition moves_to (now : string) (target : RunStatus) (run : Run) (s : Storage)
    (o : res exn Run * Storage) : Prop :=
  match o with
  | (Ok run', s') =>
      r_id run' = r_id run /\ r_status run' = target /\
      if decide (r_status run = target) then run' = run /\ s' = s
      else s' = RunRepository.update run' s /\
           RunStateMachine.isValidTransition (r_status run) target = true
  | (Err e, s') =>
      s' = s /\ r_status run <> target /\
      RunStateMachine.isValidTransition (r_status run) target = false /\
      e = InvalidStateTransitionError (r_status run) target
  end.

Lemma transition_moves now target run s (f : Run -> Run) :
  r_status run <> target -> (forall r, r_id (f r) = r_id r /\ r_status (f r) = r_status r) ->
  moves_to now target run s
    ((run ← lift (run_transition now target run); save_run (f run) : SM Run) s).
Proof.
  intros Hne Hf. unfold run_transition, moves_to, mbind, ST_bind, lift.
  destruct (RunStateMachine.isValidTransition (r_status run) target) eqn:Hv; [|done].
  unfold save_run, mbind, ST_bind, modify, mret, ST_ret.
  rewrite (proj1 (Hf _)), (proj2 (Hf _)). cbn [r_id r_status]. by rewrite decide_False.
Qed.

Lemma reconstruct_moves now run s :
  moves_to now (entailed_status (TaskRepository.getByRun (r_id run) s) (r_status run)) run s
    (reconstructState now run s).
Proof.
  unfold reconstructState, mbind at 1, ST_bind at 1, gets, entailed_status.
  destruct (TaskRepository.getByRun (r_id run) s) as [|t0 ts] eqn:Hts.
  { rewrite decide_True by done. cbn. by rewrite decide_True. }
  rewrite decide_False by done. rewrite <- Hts. clear Hts t0 ts.
  set (tasks := TaskRepository.getByRun (r_id run) s). cbv zeta. rewrite !count_pos.
  assert (Hid : forall r : Run, r_id (id r) = r_id r /\ r_status (id r) = r_status r) by done.
  destruct (decide (Exists (fun t => t_status t = CANCELLED) tasks)) as [Hc|Hc].
  { rewrite bool_decide_eq_true_2 by done. case_decide; [cbn; by rewrite decide_True|].
    by apply (transition_moves now R_CANCELLED run s id). }
  rewrite (bool_decide_eq_false_2 _ Hc).
  destruct (decide (Exists (fun t => t_status t = FAILED) tasks)) as [Hf|Hf].
  { rewrite bool_decide_eq_true_2 by done. case_decide; [cbn; by rewrite decide_True|].
    by apply (transition_moves now R_FAILED run s (set_run_error _)). }
  rewrite (bool_decide_eq_false_2 _ Hf).
  apply count_zero in Hc, Hf. rewrite Hc, Hf, !Nat.add_0_r.
  destruct (decide (Forall (fun t => t_status t = DONE) tasks)) as [Hd|Hd].
  { rewrite (proj2 (count_done_all tasks) Hd), Nat.eqb_refl. cbn [andb].
    change ((0 =? 0)%nat) with true. cbn [andb]. case_decide; [cbn; by rewrite decide_True|].
    by apply (transition_moves now R_COMPLETED run s id). }
  assert (Hne : (count_status DONE tasks =? length tasks)%nat = false).
  { apply Nat.eqb_neq. by rewrite count_done_all. }
  rewrite Hne. cbn [andb]. case_decide as Hs; [cbn; by rewrite decide_True|].
  apply (transition_moves now R_RUNNING run s id); [|done]. intros Hr. apply Hs. rewrite Hr. set_solver.
Qed.

(** Properties of run recovery, and of the repository it reads the tasks from. *)
From Stdlib Require Import Ascii.

Lemma omap_ext {A B} (f g : A -> option B) (l : list A) : (forall x, f x = g x) -> omap f l = omap g l.
Proof. intros H. induction l as [|x l IH]; csimpl; [done|]. by rewrite H, IH. Qed.

Lemma run_key_not_task runId id r : RunRepository.getRunKey runId <> TaskRepository.getTaskKey id r.
Proof. done. Qed.
Lemma run_key_not_ids runId r : RunRepository.getRunKey runId <> TaskRepository.getRunTasksKey r.
Proof. done. Qed.

Lemma getByRun_update_run r run s :
  TaskRepository.getByRun r (RunRepository.update run s) = TaskRepository.getByRun r s.
Proof.
  unfold TaskRepository.getByRun, TaskRepository.getByIds, TaskRepository.stored_ids, RunRepository.update.
  rewrite lookup_insert_ne by apply run_key_not_ids. apply omap_ext. intros id.
  unfold TaskRepository.getById. by rewrite lookup_insert_ne by apply run_key_not_task.
Qed.

Lemma getById_update_run run s : RunRepository.getById (r_id run) (RunRepository.update run s) = Some run.
Proof. unfold RunRepository.getById, RunRepository.update. by rewrite lookup_insert_eq. Qed.

(** A run is stored under its own key. *)
Definition runs_ok (s : Storage) : Prop :=
  forall runId run, RunRepository.getById runId s = Some run -> r_id run = runId.

Lemma entailed_idem tasks c :
  entailed_status tasks (entailed_status tasks c) = entailed_status tasks c.
Proof.
  unfold entailed_status. repeat case_decide; try done.
Qed.

(** ** The repository *)

(** Where no run id contains a colon, the keys of tasks and of runs are apart. *)
Definition no_colon (s : string) : bool := str_forall (fun c => negb (Ascii.eqb c ":")) s.

Lemma task_key_apart id r id' r' :
  no_colon r = true -> no_colon r' = true ->
  TaskRepository.getTaskKey id r = TaskRepository.getTaskKey id' r' -> id = id' /\ r = r'.
Proof.
  unfold TaskRepository.getTaskKey. intros Hr Hr' H. apply append_inj_l in H.
  apply (split_first_unique (fun c => negb (Ascii.eqb c ":"))) in H; naive_solver.
Qed.

Lemma getByRun_deleted r s : TaskRepository.getByRun r (TaskRepository.deleteByRun r s) = [].
Proof.
  unfold TaskRepository.getByRun, TaskRepository.deleteByRun, TaskRepository.stored_ids at 1.
  by rewrite lookup_delete_eq.
Qed.

Lemma delete_tasks_lookup r ids (s : Storage) k :
  foldl (fun s id => delete (TaskRepository.getTaskKey id r) s) s ids !! k =
  if decide (Exists (fun id => TaskRepository.getTaskKey id r = k) ids) then None else s !! k.
Proof.
  revert s. induction ids as [|id ids IH]; intros s; cbn [foldl].
  { by rewrite decide_False by (intros H; inversion H). }
  rewrite IH. destruct (decide (TaskRepository.getTaskKey id r = k)) as [<-|Hne].
  - rewrite (decide_True (P := Exists _ (id :: ids))) by by left.
    case_decide; [done|]. by rewrite lookup_delete_eq.
  - rewrite lookup_delete_ne by done.
    destruct (decide (Exists (fun id => TaskRepository.getTaskKey id r = k) ids)) as [He|He].
    + by rewrite decide_True by by right.
    + rewrite decide_False; [done|]. rewrite Exists_cons. tauto.
Qed.

Lemma get_create t s id r :
  no_colon (t_runId t) = true -> no_colon r = true ->
  TaskRepository.getById id r (TaskRepository.create t s) =
  if decide (id = t_id t /\ r = t_runId t) then Some t else TaskRepository.getById id r s.
Proof.
  intros Ht Hr. unfold TaskRepository.create, TaskRepository.getById. cbv zeta.
  set (s1 := <[_ := StTask t]> s).
  assert (Hins : forall l, (if decide (t_id t ∈ l) then s1
      else <[TaskRepository.getRunTasksKey (t_runId t):=StIds (l ++ [t_id t])]> s1)
      !! TaskRepository.getTaskKey id r = s1 !! TaskRepository.getTaskKey id r).
  { intros l. case_decide; [done|]. by rewrite lookup_insert_ne. }
  rewrite Hins. unfold s1. case_decide as Hid; [destruct Hid as [-> ->]; by rewrite lookup_insert_eq|].
  rewrite lookup_insert_ne; [done|]. intros Heq. apply task_key_apart in Heq; naive_solver.
Qed.

Lemma ids_create t s :
  t_id t ∈ TaskRepository.stored_ids (TaskRepository.getRunTasksKey (t_runId t)) (TaskRepository.create t s).
Proof.
  unfold TaskRepository.create. cbv zeta. case_decide as Hin; [exact Hin|].
  unfold TaskRepository.stored_ids at 1. rewrite lookup_insert_eq. set_solver.
Qed.

Lemma get_deleted id r r' s :
  no_colon r = true -> no_colon r' = true -> r <> r' ->
  TaskRepository.getById id r (TaskRepository.deleteByRun r' s) = TaskRepository.getById id r s.
Proof.
  intros Hr Hr' Hne. unfold TaskRepository.getById, TaskRepository.deleteByRun.
  rewrite lookup_delete_ne by done. rewrite delete_tasks_lookup. rewrite decide_False; [done|].
  intros (id' & _ & Heq)%Exists_exists. by apply task_key_apart in Heq as [_ ->].
Qed.

(** The task repository keeps the runs apart: a created task is read back, by
    its id and among the tasks of its run, every other task is as it was, and
    deleting a run removes its tasks and touches no task of another run. *)
Theorem repository_apart t s id r :
  no_colon (t_runId t) = true -> no_colon r = true ->
  let s' := TaskRepository.create t s in
  TaskRepository.getById id r s' =
    (if decide (id = t_id t /\ r = t_runId t) then Some t else TaskRepository.getById id r s) /\
  t ∈ TaskRepository.getByRun (t_runId t) s' /\
  TaskRepository.getByRun (t_runId t) (TaskRepository.deleteByRun (t_runId t) s') = [] /\
  (r <> t_runId t -> TaskRepository.getById id r (TaskRepository.deleteByRun (t_runId t) s') =
                     TaskRepository.getById id r s).
Proof.
  intros Ht Hr. cbv zeta. split; [by apply get_create|]. split; [|split; [apply getByRun_deleted|]].
  - unfold TaskRepository.getByRun, TaskRepository.getByIds. apply list_elem_of_omap.
    exists (t_id t). split; [apply ids_create|]. rewrite get_create by done. by rewrite decide_True.
  - intros Hne. rewrite get_deleted, get_create by done. by rewrite decide_False by naive_solver.
Qed.

Lemma repository_apart_witness :
  let t := mkTask "a" "run1" "edit" PENDING [] JNull None None 0 3 in
  t ∈ TaskRepository.getByRun "run1" (TaskRepository.create t ∅).
Proof. intros t. by apply (repository_apart t ∅ "a" "run1"). Defined.

(** ** Recovery *)

Lemma resumeRun_eq now runId s :
  resumeRun now runId s =
  match RunRepository.getById runId s with
  | None => (Err (RunRecoveryError ("Run " +:+ runId +:+ " not found")), s)
  | Some run =>
      match reconstructState now run s with
      | (Ok run, s') =>
          (if decide (r_status run ∈ [R_COMPLETED; R_FAILED; R_CANCELLED]) then
             Err (RunRecoveryError ("Cannot resume run " +:+ runId +:+ " - status is " +:+
               RunStatus_str (r_status run)))
           else Ok run, s')
      | (Err e, s') => (Err e, s')
      end
  end.
Proof.
  unfold resumeRun, mbind, ST_bind, gets. cbn beta iota.
  destruct (RunRepository.getById runId s) as [run|]; [|done].
  destruct (reconstructState now run s) as [[run'|e] s']; [|done]. by case_decide.
Qed.

(** C35. Resuming a run gives it the status its tasks entail: it succeeds exactly
    when that status is the run's own or one it may move to, and the run is not
    over; the repository then holds the resumed run, the tasks are untouched,
    and resuming again changes nothing.  What the tasks entail is what the code makes of
    them ([entailed_status]), which is more than its comment says: a failed task makes the
    run FAILED whether or not it could be retried ([retryable_failure_fails]), and open
    tasks keep the status only of a run that is planning or running and make any other
    RUNNING ([paused_run_stuck]). *)
Theorem resumeRun_exact now runId s :
  runs_ok s ->
  match RunRepository.getById runId s with
  | None => resumeRun now runId s = (Err (RunRecoveryError ("Run " +:+ runId +:+ " not found")), s)
  | Some run =>
      let tasks := TaskRepository.getByRun runId s in
      let target := entailed_status tasks (r_status run) in
      let '(r, s') := resumeRun now runId s in
      (is_ok r = true <->
       (r_status run = target \/ RunStateMachine.isValidTransition (r_status run) target = true) /\
       target ∉ [R_COMPLETED; R_FAILED; R_CANCELLED]) /\
      TaskRepository.getByRun runId s' = tasks /\
      forall run', r = Ok run' ->
        RunRepository.getById runId s' = Some run' /\ r_status run' = target /\
        forall now', resumeRun now' runId s' = (Ok run', s')
  end.
Proof.
  intros Hok. pose proof (resumeRun_eq now runId s) as Heq.
  destruct (RunRepository.getById runId s) as [run|] eqn:Hrun; [|done]. cbv zeta. rewrite Heq. clear Heq.
  pose proof (Hok _ _ Hrun) as Hid. pose proof (reconstruct_moves now run s) as Hm.
  rewrite Hid in Hm. set (tasks := TaskRepository.getByRun runId s) in *.
  set (target := entailed_status tasks (r_status run)) in *.
  destruct (reconstructState now run s) as [[run'|e] s'].
  2: { destruct Hm as (-> & Hne & Hv & _). split; [|done]. split; [done|].
       by intros [[?|Hv'] _]; [|rewrite Hv' in Hv]. }
  destruct Hm as (Hid' & Hst & Hs').
  assert (Htasks : TaskRepository.getByRun runId s' = tasks).
  { case_decide; [by destruct Hs' as [_ ->]|]. destruct Hs' as [-> _]. apply getByRun_update_run. }
  assert (Hstored : RunRepository.getById runId s' = Some run').
  { case_decide; [by destruct Hs' as [-> ->]|]. destruct Hs' as [-> _]. rewrite <- Hid, <- Hid'. apply getById_update_run. }
  rewrite Hst. destruct (decide (target ∈ [R_COMPLETED; R_FAILED; R_CANCELLED])) as [Hover|Hover].
  - split; [split; [done|]|by split]. by intros [_ ?].
  - split; [split; [|done]|split; [done|]].
    + intros _. split; [|done]. case_decide; [by left|right]. by destruct Hs'.
    + intros ? [= <-]. split; [done|]. split; [done|]. intros now'. rewrite resumeRun_eq, Hstored.
      pose proof (reconstruct_moves now' run' s') as Hm. rewrite Hid', Hid, Htasks, Hst in Hm.
      unfold target in Hm at 1. rewrite entailed_idem in Hm. fold target in Hm.
      destruct (reconstructState now' run' s') as [[run''|e] s'']; [|by destruct Hm as (_ & ? & _)].
      destruct Hm as (_ & _ & Hm). rewrite decide_True in Hm by done. destruct Hm as [-> ->].
      by rewrite Hst, decide_False.
Qed.

Lemma get_run_create runId r s :
  RunRepository.getById runId (RunRepository.create r s) =
  if decide (runId = r_id r) then Some r else RunRepository.getById runId s.
Proof.
  unfold RunRepository.create, RunRepository.getById. cbv zeta. set (s1 := <[_ := StRun r]> s).
  assert (Hins : forall l, (if decide (r_id r ∈ l) then s1
      else <[RunRepository.getSessionRunsKey (r_sessionId r):=StIds (l ++ [r_id r])]> s1)
      !! RunRepository.getRunKey runId = s1 !! RunRepository.getRunKey runId).
  { intros l. case_decide; [done|]. by rewrite lookup_insert_ne. }
  rewrite Hins. unfold s1. case_decide as Hid; [subst; by rewrite lookup_insert_eq|].
  rewrite lookup_insert_ne; [done|]. intros Heq%append_inj_l. congruence.
Qed.

Lemma get_run_create_task runId t s :
  RunRepository.getById runId (TaskRepository.create t s) = RunRepository.getById runId s.
Proof.
  unfold TaskRepository.create, RunRepository.getById. cbv zeta.
  case_decide; by rewrite !lookup_insert_ne.
Qed.

Definition demo_run (status : RunStatus) : Run :=
  mkRun "run1" "session1" status JNull None None None None.
Definition demo_state (status : RunStatus) : Storage :=
  TaskRepository.create (mkTask "a" "run1" "edit" PENDING [] JNull None None 0 3)
    (RunRepository.create (demo_run status) ∅).

Lemma resumeRun_exact_witness :
  let '(r, s') := resumeRun "now" "run1" (demo_state R_CREATED) in
  exists run', r = Ok run' /\ RunRepository.getById "run1" s' = Some run' /\
    r_status run' = R_RUNNING /\ resumeRun "later" "run1" s' = (Ok run', s').
Proof.
  assert (Hok : runs_ok (demo_state R_CREATED)).
  { intros runId run H. unfold demo_state in H. rewrite get_run_create_task, get_run_create in H.
    case_decide as Hid; [by simplify_eq|]. unfold RunRepository.getById in H. by rewrite lookup_empty in H. }
  pose proof (resumeRun_exact "now" "run1" (demo_state R_CREATED) Hok) as H.
  assert (Hg : RunRepository.getById "run1" (demo_state R_CREATED) = Some (demo_run R_CREATED)) by by vm_compute.
  rewrite Hg in H. cbv zeta in H.
  assert (Ht : entailed_status (TaskRepository.getByRun "run1" (demo_state R_CREATED))
    (r_status (demo_run R_CREATED)) = R_RUNNING) by by vm_compute.
  rewrite Ht in H. destruct (resumeRun "now" "run1" (demo_state R_CREATED)) as [r s'].
  destruct H as (Hr & _ & Hrun). destruct r as [run'|e].
  - exists run'. destruct (Hrun run' eq_refl) as (? & ? & ?). by repeat split.
  - exfalso. assert (is_ok (Err (A := Run) e) = true); [|done]. apply Hr. split; [right; by vm_compute|set_solver].
Defined.

(** A failed task with all its retries left: the run fails all the same. *)
Example retryable_failure_fails :
  let failed := mkTask "a" "run1" "edit" FAILED [] JNull None (Some "timeout") 0 3 in
  let s := TaskRepository.create failed (RunRepository.create (demo_run R_RUNNING) ∅) in
  canRetry failed = true /\
  (r_status <$> RunRepository.getById "run1" (snd (resumeRun "now" "run1" s))) = Some R_FAILED.
Proof. by vm_compute. Qed.

(** A paused run with work left is neither kept as it is nor resumed: the state
    machine has no way out of [PAUSED]. *)
Example paused_run_stuck :
  fst (resumeRun "now" "run1" (demo_state R_PAUSED)) =
  Err (InvalidStateTransitionError R_PAUSED R_RUNNING).
Proof. by vm_compute. Qed.
