(* ===== verification/KernelErrors.v ===== *)
(** The exceptions of [packages/runtime-kernel/src] and what a turn reports of
    them: errors.ts.  A thrown value is an error of the kernel, one of the
    lifecycle packages, another [Error], or a value that is no [Error]. *)
From S2P Require Import Prelude Js Zod Protocol.
From Stdlib Require Import Ascii.
#[local] Open Scope Z_scope.

Inductive RuntimeKernelErrorCode : Type :=
| invalid_turn_identity | workspace_not_found | workspace_not_executable | model_final_missing
| provider_failed | tool_loop_limit_exceeded | worker_failed | tool_not_registered
| invalid_tool_input | tool_policy_denied | approval_denied | approval_timed_out
| invalid_approval_grant_scope | approval_retry_required | invalid_approval_item
| approval_not_active | approval_already_active | turn_not_active | turn_already_owned
| turn_artifact_settlement_failed | turn_cancelled | context_compaction_unsupported.
#[export] Instance RuntimeKernelErrorCode_eq_dec : EqDecision RuntimeKernelErrorCode.
Proof. solve_decision. Defined.

Definition RuntimeKernelErrorCode_str (c : RuntimeKernelErrorCode) : string :=
  match c with
  | invalid_turn_identity => "invalid_turn_identity"
  | workspace_not_found => "workspace_not_found"
  | workspace_not_executable => "workspace_not_executable"
  | model_final_missing => "model_final_missing"
  | provider_failed => "provider_failed"
  | tool_loop_limit_exceeded => "tool_loop_limit_exceeded"
  | worker_failed => "worker_failed"
  | tool_not_registered => "tool_not_registered"
  | invalid_tool_input => "invalid_tool_input"
  | tool_policy_denied => "tool_policy_denied"
  | approval_denied => "approval_denied"
  | approval_timed_out => "approval_timed_out"
  | invalid_approval_grant_scope => "invalid_approval_grant_scope"
  | approval_retry_required => "approval_retry_required"
  | invalid_approval_item => "invalid_approval_item"
  | approval_not_active => "approval_not_active"
  | approval_already_active => "approval_already_active"
  | turn_not_active => "turn_not_active"
  | turn_already_owned => "turn_already_owned"
  | turn_artifact_settlement_failed => "turn_artifact_settlement_failed"
  | turn_cancelled => "turn_cancelled"
  | context_compaction_unsupported => "context_compaction_unsupported"
  end.

(** A thrown value.  [Foreign] is an [Error] of other code with the property
    [statusCode] where it is a number, and the first of its [causeError],
    [cause], [lastError] and [error] that is neither [undefined] nor [null];
    [Value] is anything else. *)
Inductive thrown : Type :=
| KernelError (code : RuntimeKernelErrorCode) (msg : string) (causeError : option thrown)
| Lifecycle (e : error)
| Foreign (msg : string) (statusCode : option jsnum) (next : option thrown)
| Value (v : json).

(** The loop of [readProviderStatusCode], which looks at eight objects. *)
Fixpoint status_in_json (depth : nat) (v : json) : option jsnum :=
  match depth, v with
  | S depth', JObj o =>
      match dget "statusCode" o with
      | Some (JNum n) => Some n
      | _ =>
          let next := find (fun x => match x with Some JNull | None => false | _ => true end)
            (map (fun k => dget k o) ["causeError"; "cause"; "lastError"; "error"]) in
          match next with Some (Some v') => status_in_json depth' v' | _ => None end
      end
  | _, _ => None
  end.

Fixpoint status_in (depth : nat) (error : option thrown) : option jsnum :=
  match depth, error with
  | S depth', Some (KernelError _ _ next) => status_in depth' next
  | S depth', Some (Foreign _ statusCode next) =>
      match statusCode with Some n => Some n | None => status_in depth' next end
  | _, Some (Value v) => status_in_json depth v
  | _, _ => None
  end.

Definition readProviderStatusCode (error : option thrown) : option jsnum := status_in 8 error.

(** [s.replace(/\s+/g, " ")] *)
Fixpoint collapse_spaces (after_space : bool) (s : string) : string :=
  match s with
  | EmptyString => ""
  | String c s' =>
      if is_space c
      then if after_space then collapse_spaces true s' else String " " (collapse_spaces true s')
      else String c (collapse_spaces false s')
  end.

(** The keys [safeRuntimeErrorMessage] redacts:
    [/\b(sk|key|token)-[A-Za-z0-9_-]{12,}\b/gi]. *)
Fixpoint class_run (s : string) : nat :=
  match s with
  | String c s' => if is_id_char c then S (class_run s') else 0
  | EmptyString => 0
  end.

(** The last position from which a run of [n] characters may be cut at a word
    boundary, at least at the twelfth. *)
Fixpoint cut_run (n : nat) (s : string) : option nat :=
  match n with
  | O => None
  | S n' =>
      if (n <? 12)%nat then None
      else if xorb (is_word (String.get n' s)) (is_word (String.get n s)) then Some n
      else cut_run n' s
  end.

(** How long a secret starts at a position that follows [prev]. *)
Definition secret_at (prev : option ascii) (s : string) : option nat :=
  if xorb (is_word prev) (is_word (first_char s)) then
    match find (fun k => startsWith k (toLowerCase s)) ["sk-"; "key-"; "token-"] with
    | Some k =>
        let rest := slice_from (String.length k) s in
        (fun n => (String.length k + n)%nat) <$> cut_run (class_run rest) rest
    | None => None
    end
  else None.

(** [skip] counts the characters of a secret still to drop. *)
Fixpoint redact_from (skip : nat) (prev : option ascii) (s : string) : string :=
  match s with
  | EmptyString => ""
  | String c s' =>
      match skip with
      | S skip' => redact_from skip' (Some c) s'
      | O =>
          match secret_at prev s with
          | Some (S n) => "[redacted]" +:+ redact_from n (Some c) s'
          | _ => String c (redact_from 0 (Some c) s')
          end
      end
  end.

Definition redact (s : string) : string := redact_from 0 None s.

Section Messages.
(** The text of a lifecycle error, which this development leaves out. *)
Variable lifecycle_text : error -> string.

(** [error instanceof Error ? Some(error.message) : None] *)
Definition thrown_message (e : thrown) : option string :=
  match e with
  | KernelError _ m _ | Foreign m _ _ => Some m
  | Lifecycle e => Some (lifecycle_text e)
  | Value _ => None
  end.

Definition safeRuntimeErrorMessage (error : option thrown) : string :=
  match error ≫= thrown_message with
  | None => "The model provider request failed."
  | Some m =>
      let message := trim (collapse_spaces false m) in
      if decide (message = "") then "The model provider request failed."
      else slice 0 500 (redact message)
  end.

Definition kernel_code_field (c : RuntimeKernelErrorCode) : string * json :=
  ("runtimeKernelCode", JStr (RuntimeKernelErrorCode_str c)).

Definition mapProviderFailure (code : RuntimeKernelErrorCode) (causeError : option thrown)
    : ProtocolError :=
  let statusCode := readProviderStatusCode causeError in
  mkProtocolError "provider_unavailable"
    (match statusCode with
     | Some (NInt 429) =>
         "The model provider is temporarily rate limited. LegionCode exhausted its bounded cooldown retry; retry later or choose another model."
     | _ => safeRuntimeErrorMessage causeError
     end)
    true None
    (Some (kernel_code_field code ::
           match statusCode with Some n => [("providerStatusCode", JNum n)] | None => [] end)).

(** [ProtocolErrorSchema.safeParse(value)]: an [Error] of this package has the
    own property [name], which the strict schema does not know. *)
Definition parseWorkerFailure (value : option thrown) : option ProtocolError :=
  match value with
  | Some (Value v) => ProtocolErrorSchema v ≫= failure_of_json
  | _ => None
  end.

Definition mapWorkerFailure (code : RuntimeKernelErrorCode) (msg : string)
    (causeError : option thrown) : ProtocolError :=
  match parseWorkerFailure causeError with
  | None => mkProtocolError "command_failed" msg true None (Some [kernel_code_field code])
  | Some failure =>
      mkProtocolError (Protocol.code failure) (message failure) (retryable failure)
        (correlationId failure)
        (Some (dmerge (default [] (details failure)) [kernel_code_field code]))
  end.

Definition mapProtocolErrorCode (code : RuntimeKernelErrorCode) : string :=
  match code with
  | workspace_not_found => "not_found"
  | workspace_not_executable | invalid_turn_identity => "conflict"
  | worker_failed => "command_failed"
  | provider_failed => "provider_unavailable"
  | tool_not_registered => "not_found"
  | invalid_tool_input | model_final_missing => "validation_failed"
  | tool_policy_denied | approval_denied | approval_timed_out => "policy_denied"
  | approval_retry_required => "approval_required"
  | invalid_approval_item | invalid_approval_grant_scope | approval_not_active
  | approval_already_active | turn_not_active | turn_already_owned => "conflict"
  | tool_loop_limit_exceeded | turn_artifact_settlement_failed
  | context_compaction_unsupported => "internal_error"
  | turn_cancelled => "conflict"
  end.

Definition isRetryable (code : RuntimeKernelErrorCode) : bool :=
  bool_decide (code ∈ [worker_failed; provider_failed; approval_retry_required]).

Definition toProtocolError (error : thrown) : ProtocolError :=
  match error with
  | KernelError worker_failed m causeError => mapWorkerFailure worker_failed m causeError
  | KernelError provider_failed _ causeError => mapProviderFailure provider_failed causeError
  | KernelError code m _ =>
      mkProtocolError (mapProtocolErrorCode code) m (isRetryable code) None
        (Some [kernel_code_field code])
  | _ => mkProtocolError "internal_error" "Runtime kernel turn execution failed" false None None
  end.
End Messages.

Example redacts_keys :
  safeRuntimeErrorMessage (fun _ => "")
    (Some (Foreign ("bad  key: sk-abcdefghijkl-- and token-short") None None)) =
  "bad key: [redacted]-- and token-short".
Proof. by vm_compute. Qed.
