(* ===== verification/Workspace.v ===== *)
(** [packages/workspace-core/src]: the manifest that binds a run to its
    workspace, the state machine of a workspace, and the in-memory repository
    that keeps the manifests.  A transition that is not allowed, a change of an
    immutable field and an invalid manifest are [WorkspaceCoreError]s. *)
From S2P Require Import Prelude Js Zod Protocol LifecycleEvents Permission PermissionProps.
From Stdlib Require Import Ascii.

(** * errors.ts *)

(** [WorkspaceCoreError] with its [code] and [context].  The issues of an invalid
    manifest are zod's texts and are left out. *)
Inductive WorkspaceCoreError : Type :=
| workspace_manifest_already_exists (workspaceId : string)
| workspace_manifest_not_found (workspaceId : string)
| workspace_immutable_field_changed (changedFields : list string)
| workspace_manifest_invalid
| workspace_missing_run_id
| workspace_transition_invalid (fromState toState reason : string).

(** * state-machine.ts *)

Inductive WorkspaceState : Type :=
| ws_empty | ws_preparing | ws_cloning | ws_ready | ws_dirty | ws_committed | ws_pushed
| ws_pr_opened | ws_failed | ws_closed.
#[export] Instance WorkspaceState_eq_dec : EqDecision WorkspaceState.
Proof. solve_decision. Defined.

Definition WorkspaceState_str (s : WorkspaceState) : string :=
  match s with
  | ws_empty => "empty" | ws_preparing => "preparing" | ws_cloning => "cloning"
  | ws_ready => "ready" | ws_dirty => "dirty" | ws_committed => "committed"
  | ws_pushed => "pushed" | ws_pr_opened => "pr_opened" | ws_failed => "failed"
  | ws_closed => "closed"
  end.

Definition WORKSPACE_STATES : list WorkspaceState :=
  [ws_empty; ws_preparing; ws_cloning; ws_ready; ws_dirty; ws_committed; ws_pushed;
   ws_pr_opened; ws_failed; ws_closed].

Definition WorkspaceStateSchema : zod := z_enum (map WorkspaceState_str WORKSPACE_STATES).

Definition workspace_state_of_str (s : string) : option WorkspaceState :=
  find (fun x => String.eqb (WorkspaceState_str x) s) WORKSPACE_STATES.

Inductive WorkspaceCloseUnresolvedChangesPolicy : Type := reject | allow_close.
#[export] Instance close_policy_eq_dec : EqDecision WorkspaceCloseUnresolvedChangesPolicy.
Proof. solve_decision. Defined.

(** The one option there is, [unresolvedChangesPolicy]. *)
Definition WorkspaceTransitionOptions : Type := option WorkspaceCloseUnresolvedChangesPolicy.

Definition DIRECT_TRANSITIONS (s : WorkspaceState) : list WorkspaceState :=
  match s with
  | ws_empty => [ws_preparing]
  | ws_preparing => [ws_cloning]
  | ws_cloning => [ws_ready]
  | ws_ready => [ws_dirty; ws_closed]
  | ws_dirty => [ws_committed]
  | ws_committed => [ws_pushed]
  | ws_pushed => [ws_pr_opened]
  | ws_pr_opened | ws_failed | ws_closed => []
  end.

Definition createInvalidTransitionError (fromState toState : WorkspaceState) (reason : string)
    : WorkspaceCoreError :=
  workspace_transition_invalid (WorkspaceState_str fromState) (WorkspaceState_str toState) reason.

Definition assertDirtyClosePolicy (fromState toState : WorkspaceState)
    (options : WorkspaceTransitionOptions) : res WorkspaceCoreError unit :=
  if decide (options = Some allow_close) then Ok tt
  else Err (createInvalidTransitionError fromState toState
              "dirty workspaces require an explicit unresolved-change policy to close").

Definition assertValidWorkspaceTransition (fromState toState : WorkspaceState)
    (options : WorkspaceTransitionOptions) : res WorkspaceCoreError unit :=
  if decide (fromState = toState)
  then Err (createInvalidTransitionError fromState toState "no state change")
  else if decide (toState = ws_failed) then Ok tt
  else if decide (fromState = ws_dirty /\ toState = ws_closed)
  then assertDirtyClosePolicy fromState toState options
  else if decide (toState ∈ DIRECT_TRANSITIONS fromState) then Ok tt
  else Err (createInvalidTransitionError fromState toState "transition is not allowed").

Definition isValidWorkspaceTransition (fromState toState : WorkspaceState)
    (options : WorkspaceTransitionOptions) : bool :=
  is_ok (assertValidWorkspaceTransition fromState toState options).

(** * manifest.ts *)

(** [/^[a-fA-F0-9]+$/] with 7 to 64 characters (workspaces.ts) *)
Definition is_hex (c : ascii) : bool :=
  ascii_between 97 102 c || ascii_between 65 70 c || ascii_between 48 57 c.
Definition GitCommitShaSchema (s : string) : bool := str_between 7 64 s && str_forall is_hex s.

(** capabilities.ts *)
Definition WorkerExecutionLocationSchema : list string :=
  ["cloud_sandbox"; "desktop_local"; "local_worktree"; "cloud_vm"; "ssh_remote";
   "self_hosted_worker"].

Definition WorkerIdSchema := createPrefixedIdSchema "worker".
Definition PermissionProfileIdSchema := createPrefixedIdSchema "perm".

Record WorkspaceManifest : Type := mkManifest {
  wm_runId : string;
  wm_workspaceId : string;
  wm_repoOwner : string;
  wm_repoName : string;
  wm_repoUrl : string;
  wm_baseBranch : string;
  wm_workingBranch : string;
  wm_baseSha : string;
  wm_headSha : string;
  wm_executionLocation : string;
  wm_workerId : string;
  wm_filesystemRoot : string;
  wm_artifactNamespace : string;
  wm_permissionProfileId : string;
  wm_state : WorkspaceState;
  wm_lastError : option string;
  wm_createdAt : string;
  wm_updatedAt : string;
}.

Definition IMMUTABLE_WORKSPACE_MANIFEST_FIELDS : list (string * (WorkspaceManifest -> string)) :=
  [("runId", wm_runId); ("workspaceId", wm_workspaceId); ("repoOwner", wm_repoOwner);
   ("repoName", wm_repoName); ("repoUrl", wm_repoUrl); ("baseBranch", wm_baseBranch);
   ("workingBranch", wm_workingBranch); ("baseSha", wm_baseSha);
   ("executionLocation", wm_executionLocation); ("workerId", wm_workerId);
   ("filesystemRoot", wm_filesystemRoot); ("artifactNamespace", wm_artifactNamespace);
   ("permissionProfileId", wm_permissionProfileId); ("createdAt", wm_createdAt)].

Definition json_of_manifest (m : WorkspaceManifest) : JsonRecord :=
  [("runId", JStr (wm_runId m)); ("workspaceId", JStr (wm_workspaceId m));
   ("repoOwner", JStr (wm_repoOwner m)); ("repoName", JStr (wm_repoName m));
   ("repoUrl", JStr (wm_repoUrl m)); ("baseBranch", JStr (wm_baseBranch m));
   ("workingBranch", JStr (wm_workingBranch m)); ("baseSha", JStr (wm_baseSha m));
   ("headSha", JStr (wm_headSha m)); ("executionLocation", JStr (wm_executionLocation m));
   ("workerId", JStr (wm_workerId m)); ("filesystemRoot", JStr (wm_filesystemRoot m));
   ("artifactNamespace", JStr (wm_artifactNamespace m));
   ("permissionProfileId", JStr (wm_permissionProfileId m));
   ("state", JStr (WorkspaceState_str (wm_state m)));
   ("lastError", nullable_str (wm_lastError m));
   ("createdAt", JStr (wm_createdAt m)); ("updatedAt", JStr (wm_updatedAt m))].

Definition manifest_of_json (o : JsonRecord) : option WorkspaceManifest :=
  runId ← get_str "runId" o; workspaceId ← get_str "workspaceId" o;
  repoOwner ← get_str "repoOwner" o; repoName ← get_str "repoName" o;
  repoUrl ← get_str "repoUrl" o; baseBranch ← get_str "baseBranch" o;
  workingBranch ← get_str "workingBranch" o; baseSha ← get_str "baseSha" o;
  headSha ← get_str "headSha" o; executionLocation ← get_str "executionLocation" o;
  workerId ← get_str "workerId" o; filesystemRoot ← get_str "filesystemRoot" o;
  artifactNamespace ← get_str "artifactNamespace" o;
  permissionProfileId ← get_str "permissionProfileId" o;
  state ← get_str "state" o ≫= workspace_state_of_str;
  lastError ← get_nullable_str "lastError" o;
  createdAt ← get_str "createdAt" o; updatedAt ← get_str "updatedAt" o;
  Some (mkManifest runId workspaceId repoOwner repoName repoUrl baseBranch workingBranch
    baseSha headSha executionLocation workerId filesystemRoot artifactNamespace
    permissionProfileId state lastError createdAt updatedAt).

Section Manifest.
Context `{!JsRuntime, !UrlParser}.

(** [z.string().url()] *)
Definition z_url : zod := z_regex (fun s => is_some (parsePolicyUrl s)).

Definition WorkspaceManifestSchema : zod := z_object
  [req "runId" (z_regex RunIdSchema); req "workspaceId" (z_regex WorkspaceIdSchema);
   req "repoOwner" (z_string 1 200); req "repoName" (z_string 1 200); req "repoUrl" z_url;
   req "baseBranch" (z_string 1 240); req "workingBranch" (z_string 1 240);
   req "baseSha" (z_regex GitCommitShaSchema); req "headSha" (z_regex GitCommitShaSchema);
   req "executionLocation" (z_enum WorkerExecutionLocationSchema);
   req "workerId" (z_regex WorkerIdSchema); req "filesystemRoot" (z_string 1 2048);
   req "artifactNamespace" (z_string 1 512);
   req "permissionProfileId" (z_regex PermissionProfileIdSchema);
   req "state" WorkspaceStateSchema; req "lastError" (z_nullable (z_string 1 2000));
   req "createdAt" (z_regex is_datetime); req "updatedAt" (z_regex is_datetime)].

(** [hasMissingRunIdIssue] of the issues of a failed parse *)
Definition hasMissingRunIdIssue (input : json) : bool :=
  match input with JObj o => negb (is_some (dget "runId" o)) | _ => false end.

Definition parseWorkspaceManifest (input : json) : res WorkspaceCoreError WorkspaceManifest :=
  match WorkspaceManifestSchema input with
  | Some (JObj o) =>
      match manifest_of_json o with Some m => Ok m | None => Err workspace_manifest_invalid end
  | _ => Err (if hasMissingRunIdIssue input then workspace_missing_run_id
              else workspace_manifest_invalid)
  end.

Definition findChangedImmutableFields (current next : WorkspaceManifest) : list string :=
  map fst (filter (fun f : string * (WorkspaceManifest -> string) => snd f current <> snd f next)
                  IMMUTABLE_WORKSPACE_MANIFEST_FIELDS).

Definition assertWorkspaceManifestImmutableFieldsUnchanged (current next : WorkspaceManifest)
    : res WorkspaceCoreError unit :=
  match findChangedImmutableFields current next with
  | [] => Ok tt
  | changedFields => Err (workspace_immutable_field_changed changedFields)
  end.

Definition validateWorkspaceManifestUpdate (currentInput nextInput : json)
    (options : WorkspaceTransitionOptions) : res WorkspaceCoreError WorkspaceManifest :=
  current ← parseWorkspaceManifest currentInput;
  next ← parseWorkspaceManifest nextInput;
  _ ← assertWorkspaceManifestImmutableFieldsUnchanged current next;
  _ ← (if decide (wm_state current = wm_state next) then Ok tt
       else assertValidWorkspaceTransition (wm_state current) (wm_state next) options);
  mret next.
End Manifest.

(** * repository.ts *)

Record MemoryWorkspaceManifestRepository : Type := mkManifests {
  manifestsByWorkspaceId : gmap string WorkspaceManifest;
  workspaceIdsByRunId : gmap string (list string);
}.

Definition empty_manifests : MemoryWorkspaceManifestRepository := mkManifests ∅ ∅.

Module WorkspaceManifestRepository.
Section Repository.
Context `{!JsRuntime, !UrlParser}.
Notation RM := (ST MemoryWorkspaceManifestRepository WorkspaceCoreError).

Definition appendRunWorkspaceId (runId workspaceId : string) : RM unit :=
  modify (fun s => mkManifests (manifestsByWorkspaceId s)
    (<[runId := default [] (workspaceIdsByRunId s !! runId) ++ [workspaceId]]>
       (workspaceIdsByRunId s))).

Definition set_manifest (m : WorkspaceManifest) : RM unit :=
  modify (fun s => mkManifests (<[wm_workspaceId m := m]> (manifestsByWorkspaceId s))
    (workspaceIdsByRunId s)).

Definition create (manifest : WorkspaceManifest) : RM WorkspaceManifest :=
  parsed ← lift (parseWorkspaceManifest (JObj (json_of_manifest manifest)));
  existing ← gets (fun s => manifestsByWorkspaceId s !! wm_workspaceId parsed);
  _ ← throw_if (is_some existing) (workspace_manifest_already_exists (wm_workspaceId parsed));
  _ ← set_manifest parsed;
  _ ← appendRunWorkspaceId (wm_runId parsed) (wm_workspaceId parsed);
  mret parsed.

Definition update (manifest : WorkspaceManifest) (options : WorkspaceTransitionOptions)
    : RM WorkspaceManifest :=
  current ← gets (fun s => manifestsByWorkspaceId s !! wm_workspaceId manifest);
  match current with
  | None => throw (workspace_manifest_not_found (wm_workspaceId manifest))
  | Some current =>
      next ← lift (validateWorkspaceManifestUpdate (JObj (json_of_manifest current))
                     (JObj (json_of_manifest manifest)) options);
      _ ← set_manifest next;
      mret next
  end.

Definition getByWorkspaceId (workspaceId : string) (s : MemoryWorkspaceManifestRepository)
    : option WorkspaceManifest :=
  manifestsByWorkspaceId s !! workspaceId.

(** [workspaceIds.at(-1)], whose empty string would count as missing *)
Definition getLatestByRunId (runId : string) (s : MemoryWorkspaceManifestRepository)
    : option WorkspaceManifest :=
  match truthy (last (default [] (workspaceIdsByRunId s !! runId))) with
  | None => None
  | Some latestWorkspaceId => getByWorkspaceId latestWorkspaceId s
  end.
End Repository.
End WorkspaceManifestRepository.

(** Properties of the workspaces: what walks the state machine allows, and what
    the repository keeps of a manifest over any sequence of requests. *)
(** * The state machine *)

(** How far a workspace has come. *)
Definition ws_rank (s : WorkspaceState) : nat :=
  match s with
  | ws_empty => 0 | ws_preparing => 1 | ws_cloning => 2 | ws_ready => 3 | ws_dirty => 4
  | ws_committed => 5 | ws_pushed => 6 | ws_pr_opened => 7 | ws_closed => 8 | ws_failed => 9
  end.

(** A change of state that some options allow. *)
Definition ws_step (s s' : WorkspaceState) : Prop :=
  exists options, isValidWorkspaceTransition s s' options = true.

(** The walks a manifest can make. *)
Inductive ws_walk : nat -> WorkspaceState -> WorkspaceState -> Prop :=
| ws_here s : ws_walk 0 s s
| ws_more n s s' s'' : ws_step s s' -> ws_walk n s' s'' -> ws_walk (S n) s s''.

Lemma ws_step_rank s s' : ws_step s s' -> (ws_rank s < ws_rank s')%nat.
Proof. intros [[[]|] Ho]; destruct s, s'; first [by vm_compute in Ho|simpl; lia]. Qed.

Lemma ws_walk_length n s s' : ws_walk n s s' -> (n + ws_rank s <= ws_rank s')%nat.
Proof. induction 1 as [|n s s1 s2 Hs _ IH]; [lia|]. apply ws_step_rank in Hs. lia. Qed.

Lemma ws_walk_trans n m s s' s'' : ws_walk n s s' -> ws_walk m s' s'' -> ws_walk (n + m) s s''.
Proof. induction 1; [done|]. intros. econstructor; eauto. Qed.

Lemma ws_state_read s : workspace_state_of_str (WorkspaceState_str s) = Some s.
Proof. by destruct s. Qed.

Lemma ws_state_schema s : WorkspaceStateSchema (JStr (WorkspaceState_str s)) = Some (JStr (WorkspaceState_str s)).
Proof. by destruct s. Qed.

(** * Manifests *)

Section Manifests.
Context `{!JsRuntime, !UrlParser}.

(** The manifests the schema accepts. *)
Definition valid_manifest (m : WorkspaceManifest) : bool :=
  RunIdSchema (wm_runId m) && WorkspaceIdSchema (wm_workspaceId m) &&
  str_between 1 200 (wm_repoOwner m) && str_between 1 200 (wm_repoName m) &&
  is_some (parsePolicyUrl (wm_repoUrl m)) &&
  str_between 1 240 (wm_baseBranch m) && str_between 1 240 (wm_workingBranch m) &&
  GitCommitShaSchema (wm_baseSha m) && GitCommitShaSchema (wm_headSha m) &&
  bool_decide (wm_executionLocation m ∈ WorkerExecutionLocationSchema) &&
  WorkerIdSchema (wm_workerId m) && str_between 1 2048 (wm_filesystemRoot m) &&
  str_between 1 512 (wm_artifactNamespace m) &&
  PermissionProfileIdSchema (wm_permissionProfileId m) &&
  from_option (str_between 1 2000) true (wm_lastError m) &&
  is_datetime (wm_createdAt m) && is_datetime (wm_updatedAt m).

Lemma z_regex_eq p s : z_regex p (JStr s) = if p s then Some (JStr s) else None.
Proof. done. Qed.
Lemma z_enum_eq l s : z_enum l (JStr s) = if bool_decide (s ∈ l) then Some (JStr s) else None.
Proof. done. Qed.

Lemma manifest_schema m :
  WorkspaceManifestSchema (JObj (json_of_manifest m)) =
  if valid_manifest m then Some (JObj (json_of_manifest m)) else None.
Proof.
  destruct m as [runId workspaceId owner name url base work bsha hsha loc worker root ns perm st err c u].
  unfold WorkspaceManifestSchema, valid_manifest, json_of_manifest, z_object.
  cbn [wm_runId wm_workspaceId wm_repoOwner wm_repoName wm_repoUrl wm_baseBranch wm_workingBranch
       wm_baseSha wm_headSha wm_executionLocation wm_workerId wm_filesystemRoot wm_artifactNamespace
       wm_permissionProfileId wm_state wm_lastError wm_createdAt wm_updatedAt].
  simpl. unfold parse_field. simpl. unfold z_url.
  rewrite !z_regex_eq, !z_string_eq, z_enum_eq, ws_state_schema.
  destruct err; simpl; rewrite ?z_string_eq;
    repeat match goal with |- context [if ?b then _ else _] => destruct b; simpl; try done end.
Qed.

Lemma manifest_read m : manifest_of_json (json_of_manifest m) = Some m.
Proof. destruct m as [? ? ? ? ? ? ? ? ? ? ? ? ? ? st [] ? ?]; by destruct st. Qed.

Lemma parse_manifest m :
  parseWorkspaceManifest (JObj (json_of_manifest m)) =
  if valid_manifest m then Ok m else Err workspace_manifest_invalid.
Proof.
  unfold parseWorkspaceManifest. rewrite manifest_schema. destruct (valid_manifest m); [|done].
  by rewrite manifest_read.
Qed.

(** What an update must not change. *)
Definition same_binding (m m' : WorkspaceManifest) : Prop :=
  Forall (fun f : string * (WorkspaceManifest -> string) => snd f m = snd f m')
    IMMUTABLE_WORKSPACE_MANIFEST_FIELDS.

Lemma same_binding_iff m m' :
  assertWorkspaceManifestImmutableFieldsUnchanged m m' = Ok tt <-> same_binding m m'.
Proof.
  unfold assertWorkspaceManifestImmutableFieldsUnchanged, findChangedImmutableFields, same_binding.
  induction IMMUTABLE_WORKSPACE_MANIFEST_FIELDS as [|f fs IH]; [done|].
  rewrite filter_cons, Forall_cons. destruct (decide (snd f m <> snd f m')) as [Hne|Heq].
  - simpl. split; [done|by intros [? _]].
  - rewrite IH. split; [|tauto]. split; [|done]. by destruct (decide (snd f m = snd f m')).
Qed.

(** An update succeeds exactly on a valid manifest with the same binding whose
    state stays or moves as the options allow. *)
Lemma validate_update m m' options r :
  valid_manifest m = true ->
  validateWorkspaceManifestUpdate (JObj (json_of_manifest m)) (JObj (json_of_manifest m')) options = Ok r <->
  r = m' /\ valid_manifest m' = true /\ same_binding m m' /\
  (wm_state m = wm_state m' \/ isValidWorkspaceTransition (wm_state m) (wm_state m') options = true).
Proof.
  intros Hm. unfold validateWorkspaceManifestUpdate. rewrite !parse_manifest, Hm. cbn.
  destruct (valid_manifest m') eqn:Hm'; [|split; [done|by intros (_ & ? & _)]].
  cbn. rewrite <- same_binding_iff.
  destruct (assertWorkspaceManifestImmutableFieldsUnchanged m m') as [[]|];
    [|split; [done|by intros (_ & _ & ? & _)]].
  cbn. unfold isValidWorkspaceTransition. destruct (decide (wm_state m = wm_state m')) as [Heq|Hne]; cbn.
  - split; [intros [= <-]|intros (-> & _)]; auto.
  - destruct (assertValidWorkspaceTransition _ _ _) as [[]|]; cbn.
    + split; [intros [= <-]|intros (-> & _)]; auto.
    + split; [done|]. by intros (_ & _ & _ & [|]).
Qed.
End Manifests.

(** * The repository *)

Section Repository.
Context `{!JsRuntime, !UrlParser}.

(** The requests the repository serves. *)
Inductive manifest_op : Type :=
| CreateManifest (m : WorkspaceManifest)
| UpdateManifest (m : WorkspaceManifest) (options : WorkspaceTransitionOptions).

Definition serve_manifest (op : manifest_op)
    : ST MemoryWorkspaceManifestRepository WorkspaceCoreError WorkspaceManifest :=
  match op with
  | CreateManifest m => WorkspaceManifestRepository.create m
  | UpdateManifest m options => WorkspaceManifestRepository.update m options
  end.

(** Requests one after another, refused ones included. *)
Definition serve_manifests (ops : list manifest_op) (s : MemoryWorkspaceManifestRepository)
    : MemoryWorkspaceManifestRepository :=
  foldl (fun s op => snd (serve_manifest op s)) s ops.

(** The manifests [ops] created. *)
Fixpoint creations (ops : list manifest_op) (s : MemoryWorkspaceManifestRepository)
    : list WorkspaceManifest :=
  match ops with
  | [] => []
  | op :: ops' =>
      let rest := creations ops' (snd (serve_manifest op s)) in
      match op with
      | CreateManifest m => if is_ok (fst (serve_manifest op s)) then m :: rest else rest
      | UpdateManifest _ _ => rest
      end
  end.

Record manifests_ok (s : MemoryWorkspaceManifestRepository) : Prop := {
  mo_key : forall id m, manifestsByWorkspaceId s !! id = Some m -> wm_workspaceId m = id;
  mo_valid : forall id m, manifestsByWorkspaceId s !! id = Some m -> valid_manifest m = true;
}.

Lemma empty_manifests_ok : manifests_ok empty_manifests.
Proof. split; intros id m; cbn; by rewrite lookup_empty. Qed.

(** What one creation does. *)
Lemma create_eq m s :
  WorkspaceManifestRepository.create m s =
  if valid_manifest m then
    if is_some (manifestsByWorkspaceId s !! wm_workspaceId m)
    then (Err (workspace_manifest_already_exists (wm_workspaceId m)), s)
    else (Ok m, mkManifests (<[wm_workspaceId m := m]> (manifestsByWorkspaceId s))
            (<[wm_runId m := default [] (workspaceIdsByRunId s !! wm_runId m) ++ [wm_workspaceId m]]>
               (workspaceIdsByRunId s)))
  else (Err workspace_manifest_invalid, s).
Proof.
  unfold WorkspaceManifestRepository.create, mbind, ST_bind, lift. rewrite parse_manifest.
  destruct (valid_manifest m); [|done]. cbn. by destruct (is_some _).
Qed.

(** What one update does. *)
Lemma update_spec m options s :
  manifests_ok s ->
  match WorkspaceManifestRepository.update m options s with
  | (Ok m', s') =>
      m' = m /\ valid_manifest m = true /\
      s' = mkManifests (<[wm_workspaceId m := m]> (manifestsByWorkspaceId s)) (workspaceIdsByRunId s) /\
      exists current, manifestsByWorkspaceId s !! wm_workspaceId m = Some current /\
        same_binding current m /\ (wm_state current = wm_state m \/ ws_step (wm_state current) (wm_state m))
  | (Err _, s') => s' = s
  end.
Proof.
  intros [_ Hv]. unfold WorkspaceManifestRepository.update, mbind, ST_bind, gets. cbn beta iota.
  destruct (manifestsByWorkspaceId s !! wm_workspaceId m) as [current|] eqn:Hc; [|done].
  unfold lift. destruct (validateWorkspaceManifestUpdate _ _ options) as [m'|] eqn:Hu; [|done].
  apply validate_update in Hu as (-> & Hvm & Hb & Hst); [|by eapply Hv].
  split_and!; [done..|]. exists current. split_and!; [done..|].
  destruct Hst; [by left|right; by exists options].
Qed.

Lemma serve_manifest_ok op s : manifests_ok s -> manifests_ok (snd (serve_manifest op s)).
Proof.
  intros Hok. assert (Hput : forall m ids, valid_manifest m = true ->
    manifests_ok (mkManifests (<[wm_workspaceId m := m]> (manifestsByWorkspaceId s)) ids)).
  { intros m ids Hm. destruct Hok as [Hk Hv]. split; intros id m'; cbn; rewrite lookup_insert_Some;
      intros [[<- <-]|[_ Hl]]; eauto. }
  destruct op as [m|m options]; cbn.
  - rewrite create_eq. destruct (valid_manifest m) eqn:Hm; [|done].
    destruct (is_some _); [done|]. by apply Hput.
  - pose proof (update_spec m options s Hok) as Hu.
    destruct (WorkspaceManifestRepository.update m options s) as [[m'|] s']; cbn; [|by subst].
    destruct Hu as (_ & Hm & -> & _). by apply Hput.
Qed.

Lemma serve_manifests_ok ops s : manifests_ok s -> manifests_ok (serve_manifests ops s).
Proof. revert s. induction ops as [|op ops IH]; intros s Hok; [done|]. by apply IH, serve_manifest_ok. Qed.

(** What a request leaves of a stored manifest. *)
Definition descends (m m' : WorkspaceManifest) : Prop :=
  same_binding m m' /\ exists n, ws_walk n (wm_state m) (wm_state m').

Lemma descends_refl m : descends m m.
Proof. split; [|exists 0%nat; constructor]. by apply Forall_forall. Qed.

Lemma descends_trans m m' m'' : descends m m' -> descends m' m'' -> descends m m''.
Proof.
  intros [Hb [n Hn]] [Hb' [n' Hn']]. split; [|eexists; by eapply ws_walk_trans].
  unfold same_binding in *. rewrite Forall_forall in *. intros f Hf. etrans; auto.
Qed.

Lemma serve_manifest_descends op s id m :
  manifests_ok s -> manifestsByWorkspaceId s !! id = Some m ->
  exists m', manifestsByWorkspaceId (snd (serve_manifest op s)) !! id = Some m' /\ descends m m'.
Proof.
  intros Hok Hm. destruct op as [m0|m0 options]; cbn.
  - rewrite create_eq. destruct (valid_manifest m0); [|by exists m; auto using descends_refl].
    destruct (manifestsByWorkspaceId s !! wm_workspaceId m0) eqn:Hnone; cbn;
      [by exists m; auto using descends_refl|].
    exists m. rewrite lookup_insert_ne by congruence. auto using descends_refl.
  - pose proof (update_spec m0 options s Hok) as Hu.
    destruct (WorkspaceManifestRepository.update m0 options s) as [[m'|] s']; cbn;
      [|subst; by exists m; auto using descends_refl].
    destruct Hu as (_ & _ & -> & current & Hc & Hb & Hst). cbn.
    destruct (decide (id = wm_workspaceId m0)) as [->|Hne].
    + exists m0. rewrite lookup_insert_eq. split; [done|]. assert (current = m) as -> by congruence.
      split; [done|]. destruct Hst as [->|Hst]; [exists 0%nat; constructor|].
      exists 1%nat. econstructor; [done|constructor].
    + exists m. rewrite lookup_insert_ne by done. auto using descends_refl.
Qed.

Lemma serve_manifests_descends ops s id m :
  manifests_ok s -> manifestsByWorkspaceId s !! id = Some m ->
  exists m', manifestsByWorkspaceId (serve_manifests ops s) !! id = Some m' /\ descends m m'.
Proof.
  revert s m. induction ops as [|op ops IH]; intros s m Hok Hm; [exists m; auto using descends_refl|].
  destruct (serve_manifest_descends op s id m Hok Hm) as (m1 & Hm1 & Hd1).
  destruct (IH (snd (serve_manifest op s)) m1) as (m2 & Hm2 & Hd2); [by apply serve_manifest_ok|done|].
  exists m2. split; [done|by eapply descends_trans].
Qed.

(** The index of the runs, followed through the requests. *)
Lemma serve_manifests_index ops s r :
  default [] (workspaceIdsByRunId (serve_manifests ops s) !! r) =
  default [] (workspaceIdsByRunId s !! r) ++
  map wm_workspaceId (filter (fun m => wm_runId m = r) (creations ops s)).
Proof.
  revert s. induction ops as [|op ops IH]; intros s; [by rewrite app_nil_r|].
  change (serve_manifests (op :: ops) s) with (serve_manifests ops (snd (serve_manifest op s))).
  rewrite IH. destruct op as [m|m options]; cbn [creations serve_manifest].
  - rewrite create_eq. destruct (valid_manifest m); [|done].
    destruct (is_some _); [done|]. cbn [fst snd is_ok workspaceIdsByRunId]. rewrite filter_cons.
    destruct (decide (wm_runId m = r)) as [<-|Hne].
    + rewrite lookup_insert_eq. cbn [from_option id map]. by rewrite <- app_assoc.
    + by rewrite lookup_insert_ne.
  - assert (workspaceIdsByRunId (snd (WorkspaceManifestRepository.update m options s)) = workspaceIdsByRunId s)
      as ->; [|done].
    unfold WorkspaceManifestRepository.update, mbind, ST_bind, gets, lift. cbn beta iota.
    destruct (manifestsByWorkspaceId s !! _); [|done].
    by destruct (validateWorkspaceManifestUpdate _ _ options).
Qed.

Lemma creations_valid ops s : Forall (fun m => valid_manifest m = true) (creations ops s).
Proof.
  revert s. induction ops as [|[m|m options] ops IH]; intros s; cbn; [constructor| |apply IH].
  rewrite create_eq. destruct (valid_manifest m) eqn:Hm; [|apply IH].
  destruct (is_some _); [apply IH|]. constructor; [done|apply IH].
Qed.
End Repository.

(** * Properties *)

(** C36. A workspace keeps its binding and only moves forward: whatever requests are
    served, valid or not, a stored manifest stays stored and valid, keeps its
    run, repository, branches, worker and permissions, and its state is reached
    by a walk of the state machine, which never comes back and has at most nine
    steps. *)
Theorem manifest_history `{!JsRuntime, !UrlParser} ops ops' id m :
  let s := serve_manifests ops empty_manifests in
  let s' := serve_manifests ops' s in
  WorkspaceManifestRepository.getByWorkspaceId id s = Some m ->
  exists m' n, WorkspaceManifestRepository.getByWorkspaceId id s' = Some m' /\
    wm_workspaceId m' = id /\ valid_manifest m' = true /\ same_binding m m' /\
    ws_walk n (wm_state m) (wm_state m') /\ (n <= 9)%nat /\
    (wm_state m' = wm_state m -> n = 0%nat).
Proof.
  intros s s' Hm. assert (Hok : manifests_ok s) by apply serve_manifests_ok, empty_manifests_ok.
  destruct (serve_manifests_descends ops' s id m Hok Hm) as (m' & Hm' & Hb & n & Hn).
  destruct (serve_manifests_ok ops' s Hok) as [Hk Hv].
  pose proof (ws_walk_length _ _ _ Hn) as Hlen. exists m', n. split_and!; eauto.
  - destruct (wm_state m'); simpl in Hlen; lia.
  - intros Heq. rewrite Heq in Hlen. lia.
Qed.

(** The latest workspace of a run is the one whose creation succeeded last,
    in its current form: refused requests and the updates of any workspace change
    nothing about which it is. *)
Theorem latest_workspace `{!JsRuntime, !UrlParser} ops r :
  let s := serve_manifests ops empty_manifests in
  WorkspaceManifestRepository.getLatestByRunId r s =
  (m ← last (filter (fun m => wm_runId m = r) (creations ops empty_manifests));
   WorkspaceManifestRepository.getByWorkspaceId (wm_workspaceId m) s).
Proof.
  intros s. unfold WorkspaceManifestRepository.getLatestByRunId, s.
  rewrite serve_manifests_index. cbn [workspaceIdsByRunId empty_manifests]. rewrite lookup_empty.
  cbn [from_option id app]. match goal with |- context [map wm_workspaceId ?l] => change (map wm_workspaceId l) with (wm_workspaceId <$> l) end. rewrite fmap_last.
  destruct (last _) as [m|] eqn:Hl; cbn; [|done].
  pose proof (creations_valid ops empty_manifests) as Hv. rewrite Forall_forall in Hv.
  assert (Hm : valid_manifest m = true).
  { apply Hv. apply last_Some in Hl as [l' Hl]. assert (m ∈ l' ++ [m]) as Hin by set_solver.
    rewrite <- Hl in Hin. by apply list_elem_of_filter in Hin as [_ ?]. }
  assert (Hid : WorkspaceIdSchema (wm_workspaceId m) = true).
  { unfold valid_manifest in Hm. by repeat (apply andb_true_iff in Hm as [Hm ?]). }
  apply prefixed_id_nonempty in Hid. by destruct (wm_workspaceId m).
Qed.

Definition demo_manifest (state : WorkspaceState) : WorkspaceManifest :=
  mkManifest "run_demo01" "wrk_demo01" "legion" "code" "http://example.com" "main" "agent/1"
    "0123abc" "0123abc" "cloud_sandbox" "worker_demo01" "/workspace" "runs/1" "perm_demo01" state
    None "2025-01-01T00:00:00.000Z" "2025-01-01T00:00:00.000Z".

(** An update that would go back is refused, one that closes a dirty workspace
    needs the policy. *)
Definition demo_requests : list manifest_op :=
  [UpdateManifest (demo_manifest ws_ready) None; UpdateManifest (demo_manifest ws_dirty) None;
   UpdateManifest (demo_manifest ws_ready) None; UpdateManifest (demo_manifest ws_closed) None;
   UpdateManifest (demo_manifest ws_closed) (Some allow_close)].

Lemma manifest_history_witness :
  let _ := iso_runtime in let _ := demo_parser in
  let s := serve_manifests [CreateManifest (demo_manifest ws_cloning)] empty_manifests in
  let s' := serve_manifests demo_requests s in
  (wm_state <$> WorkspaceManifestRepository.getByWorkspaceId "wrk_demo01" s') = Some ws_closed /\
  exists m' n, WorkspaceManifestRepository.getByWorkspaceId "wrk_demo01" s' = Some m' /\
    wm_workspaceId m' = "wrk_demo01" /\ valid_manifest m' = true /\
    same_binding (demo_manifest ws_cloning) m' /\
    ws_walk n ws_cloning (wm_state m') /\ (n <= 9)%nat /\ (wm_state m' = ws_cloning -> n = 0%nat).
Proof.
  intros R U s s'. split; [by vm_compute|].
  apply (manifest_history [CreateManifest (demo_manifest ws_cloning)] demo_requests "wrk_demo01"
    (demo_manifest ws_cloning)).
  by vm_compute.
Defined.
