(* ===== verification/WorkerEvents.v ===== *)
(** What the kernel takes from the result of a tool: WorkerResultEventMapper.ts
    of [packages/runtime-kernel/src], and the artifact metadata schema it maps to
    (artifacts.ts of [packages/platform-protocol/src]). *)
From S2P Require Import Prelude Js Zod Protocol.
From Stdlib Require Import Ascii.
#[local] Open Scope Z_scope.

(** * artifacts.ts *)

Definition is_lower_hex (c : ascii) : bool := ascii_between 97 102 c || ascii_between 48 57 c.

Definition ArtifactKindSchema : list string :=
  ["git_patch"; "file_snapshot"; "command_log"; "diff"; "screenshot"; "browser_recording";
   "context_checkpoint"; "workspace_snapshot"; "final_report"; "generated_file"].
Definition ArtifactPayloadBackendSchema : list string :=
  ["r2"; "cloudflare_artifacts"; "local_blob"].

(** [SHA256_HEX_PATTERN] *)
Definition sha256_hex (s : string) : bool := (str_length s =? 64) && str_forall is_lower_hex s.

Definition ArtifactPayloadRefSchema : zod := z_object
  [req "backend" (z_enum ArtifactPayloadBackendSchema); req "objectKey" (z_string 1 1024);
   req "uri" (z_nullable (z_string 1 2048)); req "contentType" (z_string 1 255);
   req "sizeBytes" z_token; req "sha256" (z_regex sha256_hex)].

Definition ArtifactChangedFileSchema : zod := z_object
  [req "path" (z_string 1 2048);
   req "status" (z_enum ["added"; "modified"; "deleted"; "renamed"; "copied"; "unchanged"]);
   req "additions" (z_nullable z_token); req "deletions" (z_nullable z_token);
   req "previousPath" (z_nullable (z_string 1 2048))].

Section Metadata.
Context `{!JsRuntime}.

Definition ArtifactMetadataSchema : zod := z_object
  [req "artifactId" (z_regex ArtifactIdSchema); req "threadId" (z_regex ThreadIdSchema);
   req "runId" (z_regex RunIdSchema); req "workspaceId" (z_regex WorkspaceIdSchema);
   req "itemId" (z_nullable (z_regex ItemIdSchema)); req "kind" (z_enum ArtifactKindSchema);
   req "label" (z_string 1 240); req "payloadRef" ArtifactPayloadRefSchema;
   req "changedFiles" (z_list ArtifactChangedFileSchema 2000); req "metadata" z_record;
   req "createdAt" (z_regex is_datetime); req "eventSequence" z_token].

(** * WorkerResultEventMapper.ts *)

(** The events a worker may attach to a result. *)
Inductive WorkerToolRuntimeEvent : Type :=
| tool_output_delta (delta : string)
| artifact_created (artifact : json).

Definition readString (output : JsonRecord) (key : string) : option string := get_str key output.

(** [hasContent], as a filter on what may be [null] *)
Definition hasContent (value : option string) : list string :=
  match truthy value with Some s => [s] | None => [] end.

Definition collectCommandOutputDeltas (output : JsonRecord) : list string :=
  hasContent (readString output "stdout") ++ hasContent (readString output "stderr").

Definition collectOutputDeltas (output : JsonRecord) (events : list WorkerToolRuntimeEvent)
    : list string :=
  flat_map (fun event => match event with
                         | tool_output_delta delta => hasContent (Some delta)
                         | artifact_created _ => []
                         end) events ++
  collectCommandOutputDeltas output.

Definition readLabel (properties : JsonRecord) (kind : string) : string :=
  default kind (truthy (get_str "label" properties)).

Definition readRequiredString (record : JsonRecord) (key : string) : option string :=
  truthy (get_str key record).

Definition readRequiredNumber (record : JsonRecord) (key : string) : option Z :=
  match dget key record with
  | Some (JNum (NInt n)) => if is_safe_integer n && (0 <=? n) then Some n else None
  | _ => None
  end.

Definition parseJsonRecord (value : option json) : option JsonRecord :=
  match value with Some (JObj o) => Some o | _ => None end.

Record CanonicalOwnership : Type := mkOwnership {
  ow_createdBy : string; ow_workspaceId : string; ow_threadId : string; ow_runId : string }.

Definition parseCanonicalOwnership (value : option json) : option CanonicalOwnership :=
  o ← parseJsonRecord value;
  createdBy ← readRequiredString o "createdBy"; workspaceId ← readRequiredString o "workspaceId";
  threadId ← readRequiredString o "threadId"; runId ← readRequiredString o "runId";
  Some (mkOwnership createdBy workspaceId threadId runId).

Record CanonicalPayload : Type := mkPayload {
  pl_backend : string; pl_storageKey : string; pl_contentType : string; pl_byteSize : Z;
  pl_sha256 : string }.

Definition parseCanonicalPayload (value : option json) : option CanonicalPayload :=
  o ← parseJsonRecord value;
  backend ← readRequiredString o "backend"; storageKey ← readRequiredString o "storageKey";
  contentType ← readRequiredString o "contentType"; byteSize ← readRequiredNumber o "byteSize";
  sha256 ← readRequiredString o "sha256";
  Some (mkPayload backend storageKey contentType byteSize sha256).

Record CanonicalArtifactMetadata : Type := mkCanonical {
  ca_artifactId : string; ca_kind : string; ca_ownership : CanonicalOwnership;
  ca_visibility : string; ca_payload : CanonicalPayload; ca_properties : JsonRecord;
  ca_createdAt : string }.

Definition parseCanonicalArtifact (value : option json) : option CanonicalArtifactMetadata :=
  o ← parseJsonRecord value;
  artifactId ← readRequiredString o "artifactId"; kind ← readRequiredString o "kind";
  ownership ← parseCanonicalOwnership (dget "ownership" o);
  visibility ← readRequiredString o "visibility";
  payload ← parseCanonicalPayload (dget "payload" o);
  properties ← parseJsonRecord (dget "properties" o);
  createdAt ← readRequiredString o "createdAt";
  Some (mkCanonical artifactId kind ownership visibility payload properties createdAt).

(** The metadata made of an artifact of the artifact store. *)
Definition canonical_metadata (lastEventSequence : Z) (itemId : string)
    (c : CanonicalArtifactMetadata) : json := JObj
  [("artifactId", JStr (ca_artifactId c));
   ("threadId", JStr (ow_threadId (ca_ownership c))); ("runId", JStr (ow_runId (ca_ownership c)));
   ("workspaceId", JStr (ow_workspaceId (ca_ownership c))); ("itemId", JStr itemId);
   ("kind", JStr (if decide (ca_kind c = "patch") then "git_patch" else ca_kind c));
   ("label", JStr (readLabel (ca_properties c) (ca_kind c)));
   ("payloadRef", JObj
     [("backend", JStr (if decide (pl_backend (ca_payload c) = "memory") then "local_blob"
                        else pl_backend (ca_payload c)));
      ("objectKey", JStr (pl_storageKey (ca_payload c))); ("uri", JNull);
      ("contentType", JStr (pl_contentType (ca_payload c)));
      ("sizeBytes", JNum (NInt (pl_byteSize (ca_payload c))));
      ("sha256", JStr (pl_sha256 (ca_payload c)))]);
   ("changedFiles", JArr []);
   ("metadata", JObj (dmerge (ca_properties c)
     [("visibility", JStr (ca_visibility c));
      ("createdBy", JStr (ow_createdBy (ca_ownership c))); ("source", JStr "artifact_store")]));
   ("createdAt", JStr (ca_createdAt c)); ("eventSequence", JNum (NInt lastEventSequence))].

(** [undefined] is [None]. *)
Definition parseArtifactProjection (lastEventSequence : Z) (itemId : string) (value : option json)
    : res error (option json) :=
  match value ≫= ArtifactMetadataSchema with
  | Some data => Ok (Some data)
  | None =>
      match parseCanonicalArtifact value with
      | None => Ok None
      | Some canonical =>
          match ArtifactMetadataSchema (canonical_metadata lastEventSequence itemId canonical) with
          | Some data => Ok (Some data)
          | None => Err ZodError
          end
      end
  end.

Definition collectOutputArtifacts (lastEventSequence : Z) (itemId : string) (output : JsonRecord)
    : res error (list json) :=
  direct ← parseArtifactProjection lastEventSequence itemId (Some (JObj output));
  match direct with
  | Some artifact => mret [artifact]
  | None =>
      nested ← parseArtifactProjection lastEventSequence itemId (dget "artifact" output);
      mret (match nested with Some artifact => [artifact] | None => [] end)
  end.

Definition collectArtifacts (lastEventSequence : Z) (itemId : string) (output : JsonRecord)
    (events : list WorkerToolRuntimeEvent) : res error (list json) :=
  artifacts ← collectOutputArtifacts lastEventSequence itemId output;
  mret (flat_map (fun event => match event with
                               | artifact_created artifact => [artifact]
                               | tool_output_delta _ => []
                               end) events ++ artifacts).

(** [mapWorkerResultEvents], of the run's [lastEventSequence]: the output deltas
    and the artifacts. *)
Definition mapWorkerResultEvents (lastEventSequence : Z) (itemId : string) (output : JsonRecord)
    (events : list WorkerToolRuntimeEvent) : res error (list string * list json) :=
  artifacts ← collectArtifacts lastEventSequence itemId output events;
  mret (collectOutputDeltas output events, artifacts).
End Metadata.

Example maps_output :
  let _ := iso_runtime in
  mapWorkerResultEvents 3 "itm_tool01" [("stdout", JStr "ok"); ("stderr", JStr "")]
    [tool_output_delta ""; tool_output_delta "line"] = Ok (["line"; "ok"], []).
Proof. by vm_compute. Qed.
