(* ===== verification/Kernel.v ===== *)
(** [packages/runtime-kernel/src] around the coordinator: the types and ports
    (types.ts, ports.ts), [WorkspaceCoordinator], [ApprovalCoordinator],
    [ToolExecutionCoordinator] and [TurnArtifactSettlementCoordinator].

    The kernel keeps its maps by turn id; [TurnSlots] is their entries for one
    turn.  A port is a computation on the kernel's world: it may throw, and while
    it is awaited the other entry points of the kernel may run, on the slots and
    on the coordinator ([kp_others] is what they do while the kernel waits for
    its turn in the coordinator's queue). *)
From S2P Require Import Prelude Js Zod Protocol LifecycleEvents Coordinator Permission Workspace KernelErrors WorkerEvents.
From Stdlib Require Import QArith_base.
#[local] Open Scope Z_scope.

(** * Data *)

(** What the kernel reads of a parsed [Run] and [Turn]. *)
Record Run : Type := mkRun {
  run_id : string;
  run_threadId : string;
  run_userId : string;
  run_workspaceId : string;
  run_executionCapability : option string;
  run_lastEventSequence : Z;
}.

Record Turn : Type := mkTurn {
  turn_id : string;
  turn_threadId : string;
  turn_runId : string;
  turn_parentTurnId : option string;
  turn_lastEventSequence : Z;
}.

Record RuntimeContext : Type := mkContext {
  ctx_instructions : string;
  ctx_metadata : JsonRecord;
  ctx_budgetSnapshot : option JsonRecord;
  ctx_usage : option JsonRecord;
}.

Record ToolCallItemContent : Type := mkToolCall {
  tc_toolCallId : string;
  tc_toolName : string;
  tc_input : JsonRecord;
  tc_callBatchId : option string;
  tc_display : option JsonRecord;
}.

Record ToolResult : Type := mkToolResult {
  tres_toolCallId : string;
  tres_output : JsonRecord;
  tres_failure : option ProtocolError;
}.

Record ApprovalRequest : Type := mkApprovalRequest {
  aq_approvalId : string;
  aq_itemId : option string;
  aq_question : string;
  (** each with its [id] *)
  aq_options : list JsonRecord;
  aq_metadata : JsonRecord;
}.

Inductive ApprovalDecision : Type := d_approved | d_denied | d_cancelled.
#[export] Instance ApprovalDecision_eq_dec : EqDecision ApprovalDecision.
Proof. solve_decision. Defined.

Definition decision_status (d : ApprovalDecision) : ApprovalStatus :=
  match d with d_approved => ap_approved | d_denied => ap_denied | d_cancelled => ap_cancelled end.

Record ApprovalResolution : Type := mkResolution {
  ar_decision : ApprovalDecision;
  ar_decidedBy : option string;
  ar_reason : option string;
  ar_timedOut : bool;
  ar_grantScope : option string;
}.

Inductive ToolAuthorizationResult : Type :=
| ta_authorized (toolCall : ToolCallItemContent)
| ta_approval_required (toolCall : ToolCallItemContent) (request : ApprovalRequest)
| ta_rejected (code : RuntimeKernelErrorCode) (reason : string).

Record Reasoning : Type := mkReasoning { rs_text : string; rs_displaySafe : bool }.

Inductive ProviderStep : Type :=
| ps_complete (itemId output : string) (reasoning : option Reasoning) (usage : option JsonRecord)
| ps_tool_call (itemId : string) (content : ToolCallItemContent) (commentary : option string)
    (reasoning : option Reasoning) (usage : option JsonRecord).

Inductive WorkerToolResult : Type :=
| wr_completed (output : JsonRecord) (events : list WorkerToolRuntimeEvent)
| wr_failed (failure : ProtocolError) (recoverable : bool)
| wr_cancelled (reason : string)
| wr_approval_required (request : ApprovalRequest).

Record StartTurnResult : Type := mkStartTurnResult {
  str_output : string;
  str_toolCallCount : Z;
  str_workspace : option WorkspaceManifest;
}.

Inductive ContextCompactionMode : Type := automatic | manual.
#[export] Instance ContextCompactionMode_eq_dec : EqDecision ContextCompactionMode.
Proof. solve_decision. Defined.
Definition mode_str (m : ContextCompactionMode) : string :=
  match m with automatic => "automatic" | manual => "manual" end.

Record RuntimeGitDiffFile : Type := mkDiffFile {
  df_path : string;
  df_previousPath : option string;
  df_status : string;
  df_additions : Z;
  df_deletions : Z;
}.

(** A [TurnWorkspaceSnapshot] of the turn. *)
Record TurnWorkspaceSnapshot : Type := mkSnapshot {
  sn_turnId : string;
  sn_treeId : string;
  sn_headSha : string;
  sn_phase : string;
  sn_capturedAt : string;
  sn_resumeSnapshotRef : option JsonRecord;
  sn_resumeUnavailableReason : option string;
}.

Record TurnArtifactSettlementResult : Type := mkSettlement {
  ts_terminalSnapshot : option TurnWorkspaceSnapshot;
  ts_terminalSnapshotArtifact : option json;
  ts_resumeWorkspaceArtifact : option json;
  ts_turnDiff : option json;
  ts_turnDiffArtifact : option json;
  ts_resumeUnavailableReason : option string;
}.

Definition no_settlement : TurnArtifactSettlementResult := mkSettlement None None None None None None.

(** The fields of a [TurnArtifactSettlementCoordinator]. *)
Record ArtifactCoordinator : Type := mkArtifacts {
  ac_startSnapshot : option TurnWorkspaceSnapshot;
  ac_startSnapshotArtifact : option json;
  (** a settlement that succeeded; a failed one is forgotten *)
  ac_settlement : option TurnArtifactSettlementResult;
}.

(** A promise the kernel keeps for those who ask again. *)
Inductive kept (A : Type) : Type :=
| absent
| in_flight
| settled (outcome : res thrown A).
Arguments absent {A}.
Arguments in_flight {A}.
Arguments settled {A}.

(** [PendingApprovalResolution]: [pa_resolution] is the promise [resolve]
    fulfils, [pa_settlement] the decision sent to the lifecycle coordinator. *)
Record PendingApproval : Type := mkPending {
  pa_request : ApprovalRequest;
  pa_resolution : option ApprovalResolution;
  pa_settlement : kept unit;
}.

(** The entries of the kernel's maps under one turn id. *)
Record TurnSlots : Type := mkSlots {
  sl_lifecycle : bool;
  (** whether [approvalCoordinators] has the turn, and what its coordinator has pending *)
  sl_registered : bool;
  sl_approvals : dict PendingApproval;
  sl_artifacts : option ArtifactCoordinator;
  sl_emission : kept TurnArtifactSettlementResult;
  sl_pendingInterrupt : option string;
  sl_execution : bool;
  sl_prepared : bool;
  sl_activeContext : option RuntimeContext;
  sl_compacted : bool;
  sl_compacting : bool;
  sl_automatic : bool;
  (** the reason of the turn's abort signal, once aborted *)
  sl_aborted : option thrown;
}.

Definition no_slots : TurnSlots :=
  mkSlots false false [] None absent None false false None false false false None.

Definition set_lifecycle v s := mkSlots v (sl_registered s) (sl_approvals s) (sl_artifacts s)
  (sl_emission s) (sl_pendingInterrupt s) (sl_execution s) (sl_prepared s) (sl_activeContext s)
  (sl_compacted s) (sl_compacting s) (sl_automatic s) (sl_aborted s).
Definition set_registered v s := mkSlots (sl_lifecycle s) v (sl_approvals s) (sl_artifacts s)
  (sl_emission s) (sl_pendingInterrupt s) (sl_execution s) (sl_prepared s) (sl_activeContext s)
  (sl_compacted s) (sl_compacting s) (sl_automatic s) (sl_aborted s).
Definition set_approvals v s := mkSlots (sl_lifecycle s) (sl_registered s) v (sl_artifacts s)
  (sl_emission s) (sl_pendingInterrupt s) (sl_execution s) (sl_prepared s) (sl_activeContext s)
  (sl_compacted s) (sl_compacting s) (sl_automatic s) (sl_aborted s).
Definition set_artifacts v s := mkSlots (sl_lifecycle s) (sl_registered s) (sl_approvals s) v
  (sl_emission s) (sl_pendingInterrupt s) (sl_execution s) (sl_prepared s) (sl_activeContext s)
  (sl_compacted s) (sl_compacting s) (sl_automatic s) (sl_aborted s).
Definition set_emission v s := mkSlots (sl_lifecycle s) (sl_registered s) (sl_approvals s)
  (sl_artifacts s) v (sl_pendingInterrupt s) (sl_execution s) (sl_prepared s) (sl_activeContext s)
  (sl_compacted s) (sl_compacting s) (sl_automatic s) (sl_aborted s).
Definition set_pendingInterrupt v s := mkSlots (sl_lifecycle s) (sl_registered s) (sl_approvals s)
  (sl_artifacts s) (sl_emission s) v (sl_execution s) (sl_prepared s) (sl_activeContext s)
  (sl_compacted s) (sl_compacting s) (sl_automatic s) (sl_aborted s).
Definition set_execution v s := mkSlots (sl_lifecycle s) (sl_registered s) (sl_approvals s)
  (sl_artifacts s) (sl_emission s) (sl_pendingInterrupt s) v (sl_prepared s) (sl_activeContext s)
  (sl_compacted s) (sl_compacting s) (sl_automatic s) (sl_aborted s).
Definition set_prepared v s := mkSlots (sl_lifecycle s) (sl_registered s) (sl_approvals s)
  (sl_artifacts s) (sl_emission s) (sl_pendingInterrupt s) (sl_execution s) v (sl_activeContext s)
  (sl_compacted s) (sl_compacting s) (sl_automatic s) (sl_aborted s).
Definition set_activeContext v s := mkSlots (sl_lifecycle s) (sl_registered s) (sl_approvals s)
  (sl_artifacts s) (sl_emission s) (sl_pendingInterrupt s) (sl_execution s) (sl_prepared s) v
  (sl_compacted s) (sl_compacting s) (sl_automatic s) (sl_aborted s).
Definition set_compacted v s := mkSlots (sl_lifecycle s) (sl_registered s) (sl_approvals s)
  (sl_artifacts s) (sl_emission s) (sl_pendingInterrupt s) (sl_execution s) (sl_prepared s)
  (sl_activeContext s) v (sl_compacting s) (sl_automatic s) (sl_aborted s).
Definition set_compacting v s := mkSlots (sl_lifecycle s) (sl_registered s) (sl_approvals s)
  (sl_artifacts s) (sl_emission s) (sl_pendingInterrupt s) (sl_execution s) (sl_prepared s)
  (sl_activeContext s) (sl_compacted s) v (sl_automatic s) (sl_aborted s).
Definition set_automatic v s := mkSlots (sl_lifecycle s) (sl_registered s) (sl_approvals s)
  (sl_artifacts s) (sl_emission s) (sl_pendingInterrupt s) (sl_execution s) (sl_prepared s)
  (sl_activeContext s) (sl_compacted s) (sl_compacting s) v (sl_aborted s).
Definition set_aborted v s := mkSlots (sl_lifecycle s) (sl_registered s) (sl_approvals s)
  (sl_artifacts s) (sl_emission s) (sl_pendingInterrupt s) (sl_execution s) (sl_prepared s)
  (sl_activeContext s) (sl_compacted s) (sl_compacting s) (sl_automatic s) v.

(** * The world of a turn *)

Record KWorld (K E : Type) : Type := mkKWorld {
  kw_lifecycle : World (K:=K);
  kw_slots : TurnSlots;
  (** the state of the ports *)
  kw_env : E;
}.
Arguments mkKWorld {K E}.
Arguments kw_lifecycle {K E}.
Arguments kw_slots {K E}.
Arguments kw_env {K E}.

Definition coordinator_of {K E} (w : KWorld K E) : RuntimeLifecycleCoordinator := fst (kw_lifecycle w).

Definition KM (K E A : Type) : Type := ST (KWorld K E) thrown A.

(** ports.ts; a port that may be missing is an option. *)
Class KernelPorts (K E : Type) : Type := {
  kp_others : KWorld K E -> KWorld K E;
  kp_now : KM K E string;
  kp_getLatestByRunId : option (string -> KM K E (option WorkspaceManifest));
  kp_assemble : list ToolResult -> KM K E RuntimeContext;
  kp_compact : option (ContextCompactionMode -> RuntimeContext ->
    KM K E (RuntimeContext * string * string));
  (** awaiting what another caller started: a compaction, the decision of an
      approval, the settlement of the artifacts *)
  kp_compaction : KM K E unit;
  kp_settlement : string -> KM K E unit;
  kp_emission : KM K E TurnArtifactSettlementResult;
  kp_generateNext : RuntimeContext -> list ToolResult -> KM K E ProviderStep;
  kp_enqueueThreadInput : option (string -> Z -> KWorld K E -> KWorld K E);
  kp_hasPendingThreadInputs : option (KWorld K E -> bool);
  kp_flushThreadInputs : option (KM K E bool);
  kp_awaitQuiescence : option (KM K E bool);
  kp_executeTool : ToolCallItemContent -> option ApprovalResolution -> KM K E WorkerToolResult;
  kp_authorize : string -> ToolCallItemContent -> KM K E ToolAuthorizationResult;
  (** [None] when another promise of the race settled first *)
  kp_waitForDecision : ApprovalRequest -> KM K E (option ApprovalResolution);
  (** [runSessionStart] and [runUserPromptSubmit], by the id of the trigger *)
  kp_hooks : option ((string -> KM K E unit) * (string -> KM K E unit));
  kp_captureSnapshot : KM K E (string * string);
  kp_captureResumeSnapshot : option (string * string -> KM K E JsonRecord);
  kp_getSnapshotDiff : TurnWorkspaceSnapshot -> TurnWorkspaceSnapshot ->
    KM K E (list RuntimeGitDiffFile * string);
  kp_putSnapshot : json -> KM K E json;
  kp_putTurnDiff : json -> KM K E json;
  (** the abort reason of the signal the kernel was given *)
  kp_signal : KWorld K E -> option thrown;
  (** whether Git and artifact owners were given *)
  kp_has_artifact_owners : bool;
  (** awaiting the execution of the turn, for two seconds at most *)
  kp_execution : KM K E unit;
  (** [(used / budget) * 100] in floating point *)
  kp_percent : Q -> Q -> jsnum;
  (** the messages of the lifecycle's errors *)
  kp_lifecycle_text : error -> string;
}.

(** * Helpers *)

Section Kernel.
Context `{!JsRuntime} {K E : Type} `{!LifecycleSink K, !KernelPorts K E}.
(** the turn the kernel owns *)
Variable options : RuntimeLifecycleCoordinatorOptions.
Variable run : Run.
Variable turn : Turn.

Notation KW := (KWorld K E).
Notation KO := (KM K E).

(** A call on the lifecycle coordinator, after what the other callers queued. *)
Definition lc {A} (m : KW -> M (K:=K) A) : KO A := fun w =>
  let w := kp_others w in
  match m w (kw_lifecycle w) with
  | (Ok a, l) => (Ok a, mkKWorld l (kw_slots w) (kw_env w))
  | (Err e, l) => (Err (Lifecycle e), mkKWorld l (kw_slots w) (kw_env w))
  end.

Definition lifecycle_op (op : operation) : KO unit := lc (fun _ => run_op options op).

Definition slots {A} (f : TurnSlots -> A) : KO A := gets (fun w => f (kw_slots w)).
Definition upd_slots (f : TurnSlots -> TurnSlots) : KO unit :=
  modify (fun w => mkKWorld (kw_lifecycle w) (f (kw_slots w)) (kw_env w)).

Definition lifecycle_isTerminal : KO bool := gets (fun w => isTerminal (coordinator_of w)).
Definition aborted : KO bool := slots (fun s => is_some (sl_aborted s)).

(** [try { m } finally { fin }] for a [fin] that does not throw *)
Definition finally {A} (m : KO A) (fin : TurnSlots -> TurnSlots) : KO A := fun w =>
  let '(r, w') := m w in (r, snd (upd_slots fin w')).

(** A promise whose outcome is kept. *)
Definition keeping {A} (m : KO A) (keep : res thrown A -> KO unit) : KO A := fun w =>
  let '(r, w') := m w in (r, snd (keep r w')).

(** Text of a thrown value. *)
Definition message_of (e : thrown) : option string := thrown_message kp_lifecycle_text e.
Definition failure_of (e : thrown) : ProtocolError := toProtocolError kp_lifecycle_text e.

Definition kernel_error (code : RuntimeKernelErrorCode) (msg : string) : thrown :=
  KernelError code msg None.

Definition isTurnCancelled (e : thrown) : bool :=
  match e with KernelError turn_cancelled _ _ => true | _ => false end.
Definition isArtifactSettlementError (e : thrown) : bool :=
  match e with KernelError turn_artifact_settlement_failed _ _ => true | _ => false end.

(** [ItemIdSchema.parse(id)] *)
Definition parse_item_id (id : string) : KO string :=
  if ItemIdSchema id then mret id else throw (Lifecycle ZodError).

(** * WorkspaceCoordinator.ts *)

Definition EXECUTABLE_STATES : list WorkspaceState :=
  [ws_ready; ws_dirty; ws_committed; ws_pushed; ws_pr_opened].

Definition loadExecutableManifest (getLatestByRunId : string -> KO (option WorkspaceManifest))
    (runId : string) : KO WorkspaceManifest :=
  manifest ← getLatestByRunId runId;
  match manifest with
  | None => throw (kernel_error workspace_not_found
      ("No durable workspace manifest exists for run " +:+ runId))
  | Some manifest =>
      if decide (wm_state manifest ∈ EXECUTABLE_STATES) then mret manifest
      else throw (kernel_error workspace_not_executable
        ("Workspace " +:+ wm_workspaceId manifest +:+ " is not executable in state " +:+
         WorkspaceState_str (wm_state manifest)))
  end.

(** * ApprovalCoordinator.ts *)

Definition set_pending (approvalId : string) (p : PendingApproval) : KO unit :=
  upd_slots (fun s => set_approvals (dset approvalId p (sl_approvals s)) s).

(** [pending.settlement = v] *)
Definition set_settlement (approvalId : string) (v : kept unit) : KO unit :=
  upd_slots (fun s => match dget approvalId (sl_approvals s) with
    | Some p => set_approvals (dset approvalId
        (mkPending (pa_request p) (pa_resolution p) v) (sl_approvals s)) s
    | None => s
    end).

Definition createPending (request : ApprovalRequest) : KO unit :=
  existing ← slots (fun s => dget (aq_approvalId request) (sl_approvals s));
  _ ← throw_if (is_some existing) (kernel_error approval_already_active
        ("Approval " +:+ aq_approvalId request +:+ " is already active in this runtime kernel"));
  set_pending (aq_approvalId request) (mkPending request None absent).

Definition decided_payload (resolution : ApprovalResolution) : JsonRecord :=
  [("decidedBy", nullable_str (ar_decidedBy resolution));
   ("reason", nullable_str (ar_reason resolution))] ++
  if decide (ar_decision resolution = d_approved /\ ar_timedOut resolution = false)
  then opt_field "grantScope" (ar_grantScope resolution) else [].

Definition settle_approval (approvalId : string) (resolution : ApprovalResolution) : KO unit :=
  pending ← slots (fun s => dget approvalId (sl_approvals s));
  match pending with
  | None => mret tt
  | Some pending =>
      _ ← throw_if (is_some (truthy (ar_grantScope resolution)) &&
                    (negb (bool_decide (ar_decision resolution = d_approved)) ||
                     ar_timedOut resolution))
            (kernel_error invalid_approval_grant_scope
               "A reusable approval scope requires an approved decision.");
      _ ← throw_if (is_some (truthy (ar_grantScope resolution)) &&
                    negb (existsb (fun o => bool_decide (get_str "id" o = Some "allow_matching_in_chat"))
                            (aq_options (pa_request pending))))
            (kernel_error invalid_approval_grant_scope
               "The approval request did not offer matching-in-chat permission.");
      match pa_settlement pending with
      | settled outcome => lift outcome
      | in_flight => kp_settlement approvalId
      | absent =>
          _ ← set_settlement approvalId in_flight;
          keeping (lifecycle_op (OpDecideApproval approvalId
            (if ar_timedOut resolution then ap_timed_out
             else decision_status (ar_decision resolution)) (decided_payload resolution)))
            (fun outcome => set_settlement approvalId (settled outcome))
      end
  end.

(** The value [raceApprovalResolution] settles with. *)
Definition race_resolution (request : ApprovalRequest) : KO ApprovalResolution :=
  was_aborted ← aborted;
  answer ← kp_waitForDecision request;
  if (was_aborted : bool) then throw (kernel_error turn_cancelled "Turn cancelled by user.")
  else match answer with
  | Some resolution => mret resolution
  | None =>
      pending ← slots (fun s => dget (aq_approvalId request) (sl_approvals s));
      match pending ≫= pa_resolution with
      | Some resolution => mret resolution
      | None => throw (kernel_error turn_cancelled "Turn cancelled by user.")
      end
  end.

Definition approval_payload (request : ApprovalRequest) : JsonRecord :=
  [("question", JStr (aq_question request)); ("options", JArr (map JObj (aq_options request)));
   ("metadata", JObj (aq_metadata request))].

Definition requestAndWait (parentItemId : string) (request : ApprovalRequest)
    : KO ApprovalResolution :=
  match aq_itemId request with
  | Some itemId =>
      if decide (itemId = parentItemId) then
        throw (kernel_error invalid_approval_item
          ("Approval " +:+ aq_approvalId request +:+ " requires a distinct approval item"))
      else
      _ ← createPending request;
      finally
        (_ ← lifecycle_op (OpRequestApproval parentItemId (aq_approvalId request) itemId
                             (approval_payload request));
         resolution ← race_resolution request;
         _ ← settle_approval (aq_approvalId request) resolution;
         if ar_timedOut resolution then
           throw (kernel_error approval_timed_out
             ("Approval " +:+ aq_approvalId request +:+
              " timed out before a decision was recorded."))
         else match ar_decision resolution with
         | d_cancelled => throw (kernel_error turn_cancelled
             ("Approval " +:+ aq_approvalId request +:+ " was cancelled by the user."))
         | d_denied => throw (kernel_error approval_denied
             "The user denied this action, so it was not executed. Do not repeat it or bypass the permission policy. Continue with permitted work, or explain what is blocked.")
         | d_approved => mret resolution
         end)
        (fun s => set_approvals (ddel (aq_approvalId request) (sl_approvals s)) s)
  | None => throw (kernel_error invalid_approval_item
      ("Approval " +:+ aq_approvalId request +:+ " requires a distinct approval item"))
  end.

Definition resolve_pending (approvalId : string) (resolution : ApprovalResolution) : KO unit :=
  pending ← slots (fun s => dget approvalId (sl_approvals s));
  match pending with
  | None => throw (kernel_error approval_not_active
      ("Approval " +:+ approvalId +:+ " is not active in this runtime kernel"))
  | Some _ =>
      _ ← settle_approval approvalId resolution;
      upd_slots (fun s => match dget approvalId (sl_approvals s) with
        | Some p => set_approvals (dset approvalId
            (mkPending (pa_request p) (Some (default resolution (pa_resolution p))) (pa_settlement p))
            (sl_approvals s)) s
        | None => s
        end)
  end.

(** * ToolExecutionCoordinator.ts *)

Definition error_output (failure : ProtocolError) (retry : bool) : JsonRecord :=
  [("error", JObj [("code", JStr (Protocol.code failure)); ("message", JStr (message failure));
                   ("details", nullable_rec (details failure)); ("retryable", JBool retry)])].

Definition emitWorkerResultEvents (itemId : string) (toolCall : ToolCallItemContent)
    (output : JsonRecord) (events : list WorkerToolRuntimeEvent) : KO unit :=
  projection ← lift (match mapWorkerResultEvents (run_lastEventSequence run) itemId output events with
                     | Ok p => Ok p | Err e => Err (Lifecycle e) end);
  _ ← for_of (fst projection) (fun delta => lifecycle_op (OpToolOutput (tc_toolCallId toolCall) delta));
  for_of (snd projection) (fun artifact => lifecycle_op (OpCreateArtifact itemId artifact)).

(** A completed or failed result. *)
Definition WorkerOutcome : Type :=
  ((JsonRecord * list WorkerToolRuntimeEvent) + (ProtocolError * bool))%type.

Definition resolveApprovedRetry (toolCall : ToolCallItemContent) (approval : ApprovalResolution)
    : KO WorkerOutcome :=
  result ← kp_executeTool toolCall (Some approval);
  match result with
  | wr_approval_required _ => throw (kernel_error approval_retry_required
      ("Worker requested approval again for " +:+ tc_toolCallId toolCall))
  | wr_failed failure recoverable => mret (inr (failure, recoverable))
  | wr_cancelled reason => throw (kernel_error turn_cancelled reason)
  | wr_completed output events => mret (inl (output, events))
  end.

Definition executeToCompletion (itemId : string) (toolCall : ToolCallItemContent)
    (approval : option ApprovalResolution) : KO WorkerOutcome :=
  initial ← kp_executeTool toolCall approval;
  match initial with
  | wr_completed output events => mret (inl (output, events))
  | wr_failed failure recoverable => mret (inr (failure, recoverable))
  | wr_cancelled reason => throw (kernel_error turn_cancelled reason)
  | wr_approval_required request =>
      match approval with
      | Some _ => throw (kernel_error approval_retry_required
          ("Worker requested approval again for " +:+ tc_toolCallId toolCall))
      | None =>
          workerApproval ← requestAndWait itemId request;
          resolveApprovedRetry toolCall workerApproval
      end
  end.

Definition executeAuthorizedTool (itemId : string) (authorization : ToolAuthorizationResult)
    : KO ToolResult :=
  match authorization with
  | ta_rejected code reason => throw (kernel_error code reason)
  | ta_authorized toolCall | ta_approval_required toolCall _ =>
      approval ← (match authorization with
                  | ta_approval_required _ request =>
                      r ← requestAndWait itemId request; mret (Some r)
                  | _ => mret None
                  end);
      result ← executeToCompletion itemId toolCall approval;
      match result with
      | inr (failure, true) =>
          _ ← lifecycle_op (OpFailTool (tc_toolCallId toolCall) failure);
          mret (mkToolResult (tc_toolCallId toolCall)
                  (error_output failure (retryable failure)) (Some failure))
      | inr (failure, false) =>
          throw (KernelError worker_failed (message failure) (Some (Value (json_of_failure failure))))
      | inl (output, events) =>
          stopped ← aborted;
          terminal ← lifecycle_isTerminal;
          _ ← throw_if (stopped || terminal) (Lifecycle
                (LifecycleTransitionError s_tool_call "active" "interrupted"
                   "turn was interrupted before tool completion"));
          _ ← emitWorkerResultEvents itemId toolCall output events;
          _ ← lifecycle_op (OpCompleteTool (tc_toolCallId toolCall) output);
          mret (mkToolResult (tc_toolCallId toolCall) output None)
      end
  end.

Definition with_retryable (r : bool) (f : ProtocolError) : ProtocolError :=
  mkProtocolError (Protocol.code f) (message f) r (correlationId f) (details f).

Definition execute_tool (itemId : string) (toolCall : ToolCallItemContent) : KO ToolResult :=
  authorization ← kp_authorize itemId toolCall;
  let canonicalToolCall := match authorization with
    | ta_authorized c | ta_approval_required c _ => c
    | ta_rejected _ _ => toolCall
    end in
  _ ← lifecycle_op (OpStartToolCall itemId (tc_toolCallId canonicalToolCall)
        (tc_toolName canonicalToolCall) (tc_input canonicalToolCall)
        (tc_callBatchId canonicalToolCall) (tc_display canonicalToolCall));
  try_catch (executeAuthorizedTool itemId authorization) (fun error =>
    match error with
    | KernelError turn_cancelled _ _ => throw error
    | KernelError approval_denied msg _ =>
        _ ← lifecycle_op (OpDeclineTool (tc_toolCallId toolCall) msg);
        let failure := failure_of error in
        mret (mkToolResult (tc_toolCallId toolCall) (error_output failure false)
                (Some (with_retryable false failure)))
    | _ =>
        _ ← lifecycle_op (OpFailTool (tc_toolCallId toolCall) (failure_of error));
        throw error
    end).

(** * TurnArtifactSettlementCoordinator.ts *)

Definition opt_json (k : string) (o : option json) : JsonRecord :=
  match o with Some v => [(k, v)] | None => [] end.

Definition json_of_snapshot (s : TurnWorkspaceSnapshot) : json := JObj
  ([("turnId", JStr (sn_turnId s)); ("snapshotKey", JStr (sn_turnId s));
    ("treeId", JStr (sn_treeId s)); ("headSha", JStr (sn_headSha s));
    ("phase", JStr (sn_phase s)); ("capturedAt", JStr (sn_capturedAt s))] ++
   opt_record "resumeSnapshotRef" (sn_resumeSnapshotRef s) ++
   opt_json "resumeUnavailableReason" (JStr <$> sn_resumeUnavailableReason s)).

Definition settlement_error (msg : string) : thrown := kernel_error turn_artifact_settlement_failed msg.

(** [/size limit|too large/iu.test(message)] *)
Definition too_large (msg : string) : bool :=
  includes "size limit" (toLowerCase msg) || includes "too large" (toLowerCase msg).

(** The resume snapshot [capture] takes of a terminal snapshot, or the reason why
    there is none. *)
Definition captureResume (phase : string) (preserveWorkspaceProgress : bool)
    (resumeUnavailableReason : option string) (snapshot : string * string)
    : KO (option JsonRecord * option string) :=
  if bool_decide (phase = "terminal") && preserveWorkspaceProgress &&
     negb (is_some (truthy resumeUnavailableReason))
  then try_catch
    (match kp_captureResumeSnapshot with
     | None => throw (settlement_error
         "Interrupted turn workspace progress cannot be stored for resume.")
     | Some captureResumeSnapshot =>
         ref ← captureResumeSnapshot snapshot; mret (Some ref, resumeUnavailableReason)
     end)
    (fun error => mret (None, Some
       (if too_large (default "" (message_of error)) then "snapshot_too_large"
        else "snapshot_unavailable")))
  else mret (None, resumeUnavailableReason).

Definition capture (phase : string) (preserveWorkspaceProgress : bool)
    (resumeUnavailableReason : option string) : KO TurnWorkspaceSnapshot :=
  snapshot ← try_catch kp_captureSnapshot (fun _ => throw (settlement_error
    (if decide (phase = "terminal") then "Terminal workspace snapshot is unavailable."
     else "Start workspace snapshot is unavailable.")));
  resume ← captureResume phase preserveWorkspaceProgress resumeUnavailableReason snapshot;
  capturedAt ← kp_now;
  mret (mkSnapshot (turn_id turn) (fst snapshot) (snd snapshot) phase capturedAt (fst resume)
          (if decide (phase = "terminal") then truthy (snd resume) else None)).

Definition set_artifact_fields (f : ArtifactCoordinator -> ArtifactCoordinator) : KO unit :=
  upd_slots (fun s => set_artifacts (f <$> sl_artifacts s) s).

Definition begin_artifacts : KO (json * json) :=
  known ← slots (fun s => a ← sl_artifacts s; snapshot ← ac_startSnapshot a;
                          artifact ← ac_startSnapshotArtifact a; Some (snapshot, artifact));
  match known with
  | Some (snapshot, artifact) => mret (json_of_snapshot snapshot, artifact)
  | None =>
      snapshot ← capture "start" false None;
      artifact ← kp_putSnapshot (json_of_snapshot snapshot);
      _ ← set_artifact_fields (fun a => mkArtifacts (Some snapshot) (Some artifact) (ac_settlement a));
      mret (json_of_snapshot snapshot, artifact)
  end.

Definition toArtifactChangedFile (file : RuntimeGitDiffFile) : res thrown json :=
  if decide (df_status file = "unmerged") then
    Err (settlement_error ("Snapshot diff cannot contain an unmerged file: " +:+ df_path file))
  else Ok (JObj
    [("path", JStr (df_path file)); ("previousPath", nullable_str (df_previousPath file));
     ("status", JStr (if decide (df_status file = "type_changed") then "modified"
                      else if decide (df_status file = "untracked") then "added"
                      else df_status file));
     ("additions", JNum (NInt (df_additions file)));
     ("deletions", JNum (NInt (df_deletions file)))]).

(** A field of the reference a resume snapshot is stored under. *)
Definition ref_field (ref : JsonRecord) (k : string) : json := default JNull (dget k ref).

Definition resumeWorkspaceArtifact (terminal : TurnWorkspaceSnapshot) : option json :=
  ref ← sn_resumeSnapshotRef terminal;
  Some (JObj
    [("artifactId", ref_field ref "artifactId"); ("kind", JStr "workspace_snapshot");
     ("threadId", JStr (run_threadId run)); ("runId", JStr (run_id run));
     ("workspaceId", JStr (run_workspaceId run)); ("itemId", JNull);
     ("label", JStr "Interrupted workspace progress");
     ("payloadRef", JObj
       [("backend", JStr "r2"); ("objectKey", ref_field ref "payloadObjectKey"); ("uri", JNull);
        ("contentType", JStr "application/vnd.git.patch"); ("sizeBytes", ref_field ref "byteLength");
        ("sha256", ref_field ref "patchSha256")]);
     ("changedFiles", JArr []);
     ("metadata", JObj
       (("role", JStr "resume_workspace_progress") ::
        ("sourceUserId", ref_field ref "userId") ::
        map (fun k => (k, ref_field ref k))
          ["sourceRunId"; "sourceTurnId"; "sourceRunAttemptId"; "baseSnapshotId"; "baseCommitSha";
           "terminalTreeSha"; "patchSha256"; "byteLength"]));
     ("createdAt", JStr (sn_capturedAt terminal))]).

(** A step of [settleNow]: a failure is a settlement error, or for an
    interrupted turn the partial settlement [partial]. *)
Definition or_partial {A B} (interrupted : bool) (msg : string) (partial : B) (m : KO A)
    (k : A -> KO B) : KO B :=
  r ← try_catch (a ← m; mret (inl a)) (fun _ =>
        if interrupted then mret (inr partial) else throw (settlement_error msg));
  match r with inl a => k a | inr partial => mret partial end.

Definition settleNow (startSnapshot : TurnWorkspaceSnapshot)
    (interrupted preserveWorkspaceProgress : bool) (resumeUnavailableReason : option string)
    : KO TurnArtifactSettlementResult :=
  let unavailable := Some "snapshot_unavailable" in
  if decide (resumeUnavailableReason = Some "worker_not_quiescent") then
    mret (mkSettlement None None None None None resumeUnavailableReason)
  else
  or_partial interrupted "Terminal workspace snapshot is unavailable."
    (mkSettlement None None None None None unavailable)
    (capture "terminal" preserveWorkspaceProgress resumeUnavailableReason) (fun terminalSnapshot =>
  or_partial interrupted "Terminal workspace diff is unavailable."
    (mkSettlement (Some terminalSnapshot) None None None None unavailable)
    (kp_getSnapshotDiff startSnapshot terminalSnapshot) (fun diff =>
  or_partial interrupted "Terminal workspace snapshot artifact could not be persisted."
    (mkSettlement (Some terminalSnapshot) None None None None unavailable)
    (kp_putSnapshot (json_of_snapshot terminalSnapshot)) (fun terminalSnapshotArtifact =>
  files ← lift (res_map toArtifactChangedFile (fst diff));
  let turnDiff := JObj
    [("turnId", JStr (turn_id turn)); ("startSnapshot", json_of_snapshot startSnapshot);
     ("terminalSnapshot", json_of_snapshot terminalSnapshot); ("files", JArr files);
     ("patch", JStr (snd diff))] in
  or_partial interrupted "Terminal workspace diff artifact could not be persisted."
    (mkSettlement (Some terminalSnapshot) (Some terminalSnapshotArtifact) None None None unavailable)
    (kp_putTurnDiff turnDiff) (fun turnDiffArtifact =>
  mret (mkSettlement (Some terminalSnapshot) (Some terminalSnapshotArtifact)
          (resumeWorkspaceArtifact terminalSnapshot) (Some turnDiff) (Some turnDiffArtifact)
          (truthy (sn_resumeUnavailableReason terminalSnapshot))))))).

Definition settle_artifacts (interrupted preserveWorkspaceProgress : bool)
    (resumeUnavailableReason : option string) : KO TurnArtifactSettlementResult :=
  artifacts ← slots sl_artifacts;
  match artifacts ≫= ac_startSnapshot with
  | None => throw (settlement_error ("Turn " +:+ turn_id turn +:+ " has no start snapshot"))
  | Some startSnapshot =>
      match artifacts ≫= ac_settlement with
      | Some settlement => mret settlement
      | None =>
          settlement ← settleNow startSnapshot interrupted preserveWorkspaceProgress
                         resumeUnavailableReason;
          _ ← set_artifact_fields (fun a =>
                mkArtifacts (ac_startSnapshot a) (ac_startSnapshotArtifact a) (Some settlement));
          mret settlement
      end
  end.
End Kernel.
