(* ===== verification/RuntimeKernel.v ===== *)
(** [RuntimeKernel] of [packages/runtime-kernel/src]: it prepares a turn, runs
    the loop of model steps and tool calls, settles the turn whatever happens,
    and serves the other entry points (interrupts, approvals, inputs,
    compaction).  The loop takes fuel, one unit per model step. *)
From S2P Require Import Prelude Js Zod Protocol LifecycleEvents Coordinator Permission Workspace KernelErrors WorkerEvents Kernel.
From Stdlib Require Import QArith_base Ascii.
#[local] Open Scope Z_scope.

Record PreparedTurn : Type := mkPrepared {
  pt_workspace : option WorkspaceManifest;
  (** the ids of the events that trigger the hooks *)
  pt_sessionStart : string;
  pt_userPromptSubmit : string;
}.

Record LoopResult : Type := mkLoop { lr_output : string; lr_toolCallCount : Z; lr_finalItemId : string }.

Section RuntimeKernel.
Context `{!JsRuntime} {K E : Type} `{!LifecycleSink K, !KernelPorts K E}.
Variable options : RuntimeLifecycleCoordinatorOptions.
Variable run : Run.
Variable turn : Turn.
Variable maxToolCalls : Z.

Notation KW := (KWorld K E).
Notation KO := (KM K E).
#[local] Notation lifecycle_op := (Kernel.lifecycle_op options).

(** [this.lifecycles.get(turn.id)] *)
Definition require_lifecycle : KO unit :=
  owned ← slots sl_lifecycle;
  throw_if (negb owned) (kernel_error turn_not_active
    ("Turn " +:+ turn_id turn +:+ " has no lifecycle coordinator")).

Definition num_field (k : string) (o : JsonRecord) : option Q :=
  match dget k o with Some (JNum n) => Some (num_value n) | _ => None end.

(** [Math.min(100, (used / budget) * 100)]; [None] is [NaN]. *)
Definition utilization (used budget : Q) : option jsnum :=
  if Qeq_bool budget 0 then if Qeq_bool used 0 then None else Some (NInt 100)
  else let percent := kp_percent used budget in
       Some (if Qle_bool (num_value percent) 100 then percent else NInt 100).

(** The number a token count field of the snapshot is parsed to. *)
Definition token_field (k : string) (o : JsonRecord) : Z :=
  match dget k o with Some (JNum (NInt z)) => z | _ => 0 end.

(** [reconcileProviderContextBudget] (ProviderContextBudget.ts) *)
Definition reconcileProviderContextBudget (budget : option JsonRecord) (usage : JsonRecord)
    : res thrown (option JsonRecord) :=
  match budget with
  | None => Ok None
  | Some budget =>
      let tokensUsed := token_field "totalTokens" usage in
      let limit := token_field "effectiveInputBudget" budget in
      match utilization (inject_Z tokensUsed) (inject_Z limit) with
      | None => Err (Lifecycle ZodError)
      | Some percent =>
          match ContextBudgetSnapshotSchema (JObj (dmerge budget
            [("tokensUsed", JNum (NInt tokensUsed));
             ("tokensRemaining", JNum (NInt (Z.max 0 (limit - tokensUsed))));
             ("utilizationPercent", JNum percent); ("measurementSource", JStr "provider")])) with
          | Some (JObj snapshot) => Ok (Some snapshot)
          | _ => Err (Lifecycle ZodError)
          end
      end
  end.

Definition assembleContext (toolResults : list ToolResult) : KO RuntimeContext :=
  context ← kp_assemble toolResults;
  _ ← require_lifecycle;
  _ ← (match ctx_budgetSnapshot context with
       | Some b => lifecycle_op (OpContextBudget b) | None => mret tt end);
  _ ← (match ctx_usage context with
       | Some u => lifecycle_op (OpUsage u) | None => mret tt end);
  mret context.

(** [itm_<turn>_<suffix>] *)
Definition kernel_item (suffix : string) : string :=
  "itm_" +:+ slice_from 4 (turn_id turn) +:+ "_" +:+ suffix.

Definition compaction_payload (itemId : string) (mode : ContextCompactionMode) (phase : string)
    (preserved summary err : option string) : ContextCompactionPayload :=
  mkCompaction ("cmp_" +:+ slice_from 4 (turn_id turn) +:+ "_" +:+ mode_str mode) itemId
    (mode_str mode) phase preserved summary err.

Definition compactPreparedTurn (context : RuntimeContext) (mode : ContextCompactionMode) : KO unit :=
  match kp_compact with
  | None => throw (kernel_error context_compaction_unsupported
      "The active runtime does not support context compaction")
  | Some compact =>
      itemId ← parse_item_id (kernel_item ("context_compaction_" +:+ mode_str mode));
      _ ← lifecycle_op (OpRequestCompaction
            (compaction_payload itemId mode "compacting" None None None));
      try_catch
        (result ← compact mode context;
         let '(context', preservedContextReference, summary) := result in
         _ ← upd_slots (set_activeContext (Some context'));
         _ ← upd_slots (set_compacted true);
         _ ← (match ctx_budgetSnapshot context' with
              | Some b => lifecycle_op (OpContextBudget b) | None => mret tt end);
         lifecycle_op (OpSettleCompaction (compaction_payload itemId mode "compacted"
           (Some preservedContextReference) (Some summary) None)))
        (fun error =>
         _ ← lifecycle_op (OpSettleCompaction (compaction_payload itemId mode "failed" None None
               (Some (default "Context compaction failed" (message_of error)))));
         throw error)
  end.

Definition runCompaction (context : RuntimeContext) (mode : ContextCompactionMode) : KO unit :=
  existing ← slots sl_compacting;
  if (existing : bool) then kp_compaction
  else
    _ ← upd_slots (set_compacting true);
    finally (compactPreparedTurn context mode) (set_compacting false).

Definition below_threshold (budget : JsonRecord) : bool :=
  match num_field "utilizationPercent" budget,
        num_field "automaticCompactionThresholdPercent" budget with
  | Some u, Some t => negb (Qle_bool t u)
  | _, _ => false
  end.

Definition maybeAutomaticallyCompact (context : RuntimeContext) : KO unit :=
  match ctx_budgetSnapshot context with
  | None => mret tt
  | Some budget =>
      done ← slots sl_automatic;
      if below_threshold budget || done then mret tt
      else
        _ ← upd_slots (set_automatic true);
        runCompaction context automatic
  end.

Definition active_context (fallback : RuntimeContext) : KO RuntimeContext :=
  slots (fun s => default fallback (sl_activeContext s)).

(** The context of the next model step. *)
Definition next_context (context : RuntimeContext) (toolResults : list ToolResult)
    : KO RuntimeContext :=
  currentContext ← active_context context;
  compacted ← slots sl_compacted;
  effectiveContext ← (if (compacted : bool) then mret currentContext else assembleContext toolResults);
  _ ← upd_slots (set_activeContext (Some effectiveContext));
  _ ← maybeAutomaticallyCompact effectiveContext;
  mret effectiveContext.

(** The callbacks the model step is given *)
Record AppliedThreadInput : Type := mkApplied {
  ai_inputId : string; ai_acceptedSequence : Z; ai_modelStep : Z; ai_contextRevision : Z }.

Definition refreshContext (toolResults : list ToolResult) : KO RuntimeContext :=
  refreshed ← assembleContext toolResults;
  _ ← upd_slots (set_activeContext (Some refreshed));
  _ ← maybeAutomaticallyCompact refreshed;
  active_context refreshed.

Definition onThreadInputsApplied (inputs : list AppliedThreadInput) : KO unit :=
  for_of inputs (fun input => lifecycle_op (OpApplyInput (ai_inputId input)
    (ai_acceptedSequence input) (ai_modelStep input) (ai_contextRevision input))).

Definition generate_step (effectiveContext : RuntimeContext) (toolResults : list ToolResult)
    : KO ProviderStep :=
  context ← active_context effectiveContext;
  try_catch (kp_generateNext context toolResults) (fun error =>
    match error with
    | KernelError _ _ _ => throw error
    | _ => throw (KernelError provider_failed
        (match message_of error with
         | Some m => if decide (trim m = "") then "Model provider request failed" else m
         | None => "Model provider request failed"
         end) (Some error))
    end).

Definition record_usage (effectiveContext : RuntimeContext) (usage : option JsonRecord) : KO unit :=
  match usage with
  | None => mret tt
  | Some usage =>
      _ ← require_lifecycle;
      _ ← lifecycle_op (OpUsage usage);
      latestContext ← active_context effectiveContext;
      providerBudget ← lift (reconcileProviderContextBudget (ctx_budgetSnapshot latestContext) usage);
      match providerBudget with
      | None => mret tt
      | Some budget =>
          _ ← upd_slots (set_activeContext (Some (mkContext (ctx_instructions latestContext)
                (ctx_metadata latestContext) (Some budget) (ctx_usage latestContext))));
          lifecycle_op (OpContextBudget budget)
      end
  end.

Definition append_reasoning (toolCallCount : Z) (reasoning : option Reasoning) : KO unit :=
  match reasoning with
  | None => mret tt
  | Some r =>
      _ ← require_lifecycle;
      itemId ← parse_item_id (kernel_item ("reasoning_" +:+ Number_toString toolCallCount));
      lifecycle_op (OpReasoning itemId (rs_text r) (rs_displaySafe r))
  end.

Definition append_commentary (toolCallCount : Z) (commentary : option string) : KO unit :=
  match truthy commentary with
  | None => mret tt
  | Some text =>
      _ ← require_lifecycle;
      itemId ← parse_item_id (kernel_item ("commentary_" +:+ Number_toString toolCallCount));
      lifecycle_op (OpCommentary itemId text)
  end.

Definition flush_inputs : KO bool :=
  match kp_flushThreadInputs with None => mret false | Some flush => flush end.

Definition reserve_completion : KO bool :=
  lc (fun w => reserveCompletion
    (match kp_hasPendingThreadInputs with None => false | Some pending => pending w end)).

(** A tool call of the loop. *)
Definition loop_tool (workspace : option WorkspaceManifest) (toolCallCount : Z) (itemId : string)
    (content : ToolCallItemContent) (commentary : option string) (reasoning : option Reasoning)
    : KO ToolResult :=
  _ ← throw_if (toolCallCount =? maxToolCalls) (kernel_error tool_loop_limit_exceeded
        ("Turn " +:+ turn_id turn +:+ " exceeded " +:+ Number_toString maxToolCalls +:+ " tool calls"));
  _ ← append_commentary toolCallCount commentary;
  _ ← append_reasoning toolCallCount reasoning;
  match workspace with
  | None => throw (kernel_error tool_policy_denied "Select a project before using repository tools.")
  | Some _ => execute_tool options run itemId content
  end.

(** The loop from [toolCallCount] on; a flushed input repeats a round.  [None] is
    a run that needs more than [fuel] rounds. *)
Fixpoint executeLoop (fuel : nat) (workspace : option WorkspaceManifest) (context : RuntimeContext)
    (toolCallCount : Z) (toolResults : list ToolResult) : KO (option LoopResult) :=
  match fuel with
  | O => mret None
  | S fuel' =>
      if maxToolCalls <? toolCallCount then
        throw (kernel_error tool_loop_limit_exceeded
          ("Turn " +:+ turn_id turn +:+ " exceeded its tool loop limit"))
      else
        effectiveContext ← next_context context toolResults;
        step ← generate_step effectiveContext toolResults;
        match step with
        | ps_complete itemId output reasoning usage =>
            _ ← record_usage effectiveContext usage;
            reserved ← reserve_completion;
            if (reserved : bool) then
              _ ← append_reasoning toolCallCount reasoning;
              mret (Some (mkLoop output toolCallCount itemId))
            else
              flushed ← flush_inputs;
              if (flushed : bool) then executeLoop fuel' workspace context toolCallCount toolResults
              else throw (kernel_error turn_not_active
                ("Turn " +:+ turn_id turn +:+ " could not reserve terminal settlement"))
        | ps_tool_call itemId content commentary reasoning usage =>
            _ ← record_usage effectiveContext usage;
            result ← loop_tool workspace toolCallCount itemId content commentary reasoning;
            executeLoop fuel' workspace context (toolCallCount + 1) (toolResults ++ [result])
        end
  end.

(** * Artifacts and settlement *)

Definition with_artifact (snapshot : json) (artifact : option json) : json :=
  JObj ([("snapshot", snapshot)] ++ opt_json "artifact" artifact).

Definition opt_op (o : option json) (op : json -> operation) : KO unit :=
  match o with Some v => lifecycle_op (op v) | None => mret tt end.

Definition settleArtifactsNow (interruptedSettlement preserveWorkspaceProgress : bool)
    (resumeUnavailableReason : option string) : KO TurnArtifactSettlementResult :=
  try_catch
    (settlement ← settle_artifacts run turn interruptedSettlement preserveWorkspaceProgress
                    resumeUnavailableReason;
     match ts_terminalSnapshot settlement with
     | None =>
         _ ← lifecycle_op (OpSnapshotUnavailable
               (default "snapshot_unavailable" (ts_resumeUnavailableReason settlement)));
         mret settlement
     | Some snapshot =>
         _ ← opt_op (ts_resumeWorkspaceArtifact settlement) OpTurnArtifact;
         _ ← lifecycle_op (OpSnapshot (with_artifact (json_of_snapshot snapshot)
               (ts_terminalSnapshotArtifact settlement)));
         _ ← opt_op (ts_turnDiff settlement) OpTurnDiff;
         _ ← opt_op (ts_turnDiffArtifact settlement) OpTurnArtifact;
         mret settlement
     end)
    (fun error => throw (KernelError turn_artifact_settlement_failed
       "Turn artifacts could not be settled before the terminal event" (Some error))).

(** [artifacts] says whether the turn has an artifact coordinator. *)
Definition settleArtifacts (artifacts interruptedSettlement preserveWorkspaceProgress : bool)
    (resumeUnavailableReason : option string) : KO TurnArtifactSettlementResult :=
  if artifacts then
    existing ← slots sl_emission;
    match existing with
    | settled settlement => lift settlement
    | in_flight => kp_emission
    | absent =>
        _ ← upd_slots (set_emission in_flight);
        keeping (settleArtifactsNow interruptedSettlement preserveWorkspaceProgress
                   resumeUnavailableReason)
          (fun settlement => upd_slots (set_emission (settled settlement)))
    end
  else mret no_settlement.

Definition recoverFailedTurn (error : thrown) : KO unit :=
  try_catch (lifecycle_op (OpFail (failure_of error))) (fun settlementError =>
    match settlementError with
    | Lifecycle (RuntimeLifecycleSettlementError _ _) => throw settlementError
    | Lifecycle e => throw (Lifecycle (RuntimeLifecycleSettlementError "failed" e))
    | _ => throw settlementError
    end).

Definition cancellationReason (reason : option thrown) : option string :=
  match reason with
  | Some (Value (JStr s)) => if decide (trim s = "") then None else Some s
  | Some e =>
      match message_of e with
      | Some m => if decide (trim m = "") then None else Some m
      | None => None
      end
  | None => None
  end.

(** [await worker.awaitQuiescence?.(...) === true] *)
Definition quiescence : KO bool :=
  match kp_awaitQuiescence with None => mret false | Some await_quiescence => await_quiescence end.

Definition runHooks (prepared : PreparedTurn) : KO unit :=
  match kp_hooks, pt_workspace prepared with
  | Some (runSessionStart, runUserPromptSubmit), Some _ =>
      _ ← runSessionStart (pt_sessionStart prepared);
      runUserPromptSubmit (pt_userPromptSubmit prepared)
  | _, _ => mret tt
  end.

(** The [catch] block of [executePreparedTurn]. *)
Definition settle_failed_turn (artifacts : bool) (error : thrown) : KO unit :=
  terminal ← lifecycle_isTerminal;
  if (terminal : bool) then mret tt
  else
    _ ← (if isArtifactSettlementError error then mret tt
         else
           stopped ← aborted;
           let interrupted := isTurnCancelled error || stopped in
           resumeQuiescent ← (if interrupted then quiescence else mret false);
           _ ← settleArtifacts artifacts true resumeQuiescent
                 (if interrupted && negb resumeQuiescent then Some "worker_not_quiescent" else None);
           mret tt);
    stopped ← aborted;
    if isTurnCancelled error || stopped then
      s ← slots id;
      lifecycle_op (OpInterrupt
        (match sl_pendingInterrupt s with
         | Some reason => reason
         | None => match cancellationReason (sl_aborted s) with
                   | Some reason => reason
                   | None => default "Run interrupted" (message_of error)
                   end
         end))
    else recoverFailedTurn error.

Definition clear_turn (s : TurnSlots) : TurnSlots :=
  set_registered false (set_automatic false (set_compacting false (set_compacted false
    (set_activeContext None s)))).

(** The [try] block: [Some None] is a turn that had ended before it ran. *)
Definition run_turn (fuel : nat) (prepared : PreparedTurn) : KO (option (option LoopResult)) :=
  terminal ← lifecycle_isTerminal;
  if (terminal : bool) then mret (Some None)
  else
    _ ← runHooks prepared;
    context ← assembleContext [];
    _ ← upd_slots (set_activeContext (Some context));
    result ← executeLoop fuel (pt_workspace prepared) context 0 [];
    match result with
    | None => mret None
    | Some result =>
        stopped ← aborted;
        terminal ← lifecycle_isTerminal;
        _ ← throw_if (stopped || terminal) (Lifecycle
              (LifecycleTransitionError s_turn "interrupted" "completed"
                 "turn was interrupted before successful settlement"));
        _ ← settleArtifacts (is_some (pt_workspace prepared)) false false None;
        _ ← lifecycle_op (OpComplete (lr_output result) (lr_finalItemId result));
        mret (Some (Some result))
    end.

Definition turn_result (prepared : PreparedTurn) (result : option LoopResult) : StartTurnResult :=
  match result with
  | Some r => mkStartTurnResult (lr_output r) (lr_toolCallCount r) (pt_workspace prepared)
  | None => mkStartTurnResult "" 0 (pt_workspace prepared)
  end.

Definition executePreparedTurn (fuel : nat) (prepared : PreparedTurn)
    : KO (option StartTurnResult) :=
  finally
    (result ← try_catch (run_turn fuel prepared) (fun error =>
       _ ← settle_failed_turn (is_some (pt_workspace prepared)) error; throw error);
     mret (turn_result prepared <$> result))
    clear_turn.

Definition interruptPreparedTurn (artifacts : bool) (reason : string)
    (resumeWorkspaceQuiescent : bool) : KO unit :=
  finally
    (_ ← settleArtifacts artifacts true resumeWorkspaceQuiescent
           (if resumeWorkspaceQuiescent then None else Some "worker_not_quiescent");
     lifecycle_op (OpInterrupt reason))
    (set_registered false).

(** * Starting a turn *)

Definition assertTurnIdentity : KO unit :=
  throw_if (negb (bool_decide (turn_runId turn = run_id run)) ||
            negb (bool_decide (turn_threadId turn = run_threadId run)))
    (kernel_error invalid_turn_identity
       ("Turn " +:+ turn_id turn +:+ " does not belong to run " +:+ run_id run)).

Definition assertTurnAvailable : KO unit :=
  owned ← slots sl_lifecycle;
  throw_if owned (kernel_error turn_already_owned
    ("Turn " +:+ turn_id turn +:+ " already has a lifecycle coordinator")).

Definition requireWorkspace : KO WorkspaceManifest :=
  match kp_getLatestByRunId with
  | None => throw (kernel_error workspace_not_found
      "Repository execution requires a workspace owner.")
  | Some getLatestByRunId =>
      workspace ← loadExecutableManifest getLatestByRunId (run_id run);
      _ ← throw_if (negb (bool_decide (wm_workspaceId workspace = run_workspaceId run)))
            (kernel_error invalid_turn_identity
               ("Run " +:+ run_id run +:+ " workspace does not match durable manifest truth"));
      mret workspace
  end.

Definition createArtifactSettlement : KO unit :=
  _ ← throw_if (negb kp_has_artifact_owners) (kernel_error turn_artifact_settlement_failed
        "Repository execution requires Git and artifact owners.");
  upd_slots (set_artifacts (Some (mkArtifacts None None None))).

Definition createLifecycle : KO unit :=
  _ ← assertTurnAvailable;
  _ ← modify (fun w => mkKWorld (new_coordinator options, snd (kw_lifecycle w)) (kw_slots w) (kw_env w));
  upd_slots (set_lifecycle true).

(** [prepareTurn] once its input was parsed. *)
Definition prepareTurn : KO PreparedTurn :=
  _ ← assertTurnIdentity;
  _ ← assertTurnAvailable;
  workspace ← (if decide (run_executionCapability run = Some "conversation") then mret None
               else manifest ← requireWorkspace; mret (Some manifest));
  startArtifacts ← (match workspace with
    | Some _ => _ ← createArtifactSettlement; a ← begin_artifacts turn; mret (Some a)
    | None => mret None
    end);
  _ ← createLifecycle;
  _ ← upd_slots (fun s => set_registered true (set_approvals [] s));
  _ ← (fun w => upd_slots (set_aborted (kp_signal w)) w);
  started ← lc (fun _ => startNow options);
  _ ← (match startArtifacts with
       | Some (snapshot, artifact) =>
           lifecycle_op (OpSnapshot (with_artifact snapshot (Some artifact)))
       | None => mret tt
       end);
  mret (mkPrepared workspace (eventId (fst started)) (eventId (snd started))).

Definition forget_prepared (s : TurnSlots) : TurnSlots := set_prepared false (set_aborted None s).

Definition startPreparedTurn (fuel : nat) (prepared : PreparedTurn) : KO (option StartTurnResult) :=
  _ ← upd_slots (set_prepared true);
  pendingReason ← slots (fun s => truthy (sl_pendingInterrupt s));
  match pendingReason with
  | Some reason =>
      _ ← upd_slots (set_pendingInterrupt None);
      _ ← interruptPreparedTurn (is_some (pt_workspace prepared)) reason true;
      _ ← upd_slots forget_prepared;
      mret (Some (turn_result prepared None))
  | None =>
      _ ← upd_slots (set_execution true);
      finally (executePreparedTurn fuel prepared) (fun s => forget_prepared (set_execution false s))
  end.

Definition startTurn (fuel : nat) : KO (option StartTurnResult) :=
  prepared ← prepareTurn; startPreparedTurn fuel prepared.

(** * The other entry points *)

Definition interruptTurn (reason : string) : KO unit :=
  owned ← slots sl_lifecycle;
  _ ← throw_if (negb owned) (kernel_error turn_not_active
        ("Turn " +:+ turn_id turn +:+ " is not owned by this runtime kernel"));
  terminal ← lifecycle_isTerminal;
  if (terminal : bool) then mret tt
  else
    _ ← upd_slots (fun s => set_pendingInterrupt (Some reason) (set_aborted
          (Some (default (Foreign reason None None) (sl_aborted s))) s));
    execution ← slots sl_execution;
    executionSettled ← (if (execution : bool) then
      try_catch (_ ← kp_execution; mret true) (fun error =>
        terminal ← lifecycle_isTerminal;
        if isTurnCancelled error || terminal then mret false else throw error)
      else mret true);
    terminal ← lifecycle_isTerminal;
    if (terminal : bool) then mret tt
    else
      prepared ← slots sl_prepared;
      _ ← throw_if (negb prepared) (kernel_error turn_not_active
            ("Turn " +:+ turn_id turn +:+ " has not reached runtime preparation"));
      _ ← upd_slots (set_pendingInterrupt None);
      quiescent ← (if (executionSettled : bool) then quiescence else mret false);
      artifacts ← slots sl_artifacts;
      interruptPreparedTurn (is_some artifacts) reason quiescent.

Definition requestInterruptBeforeStart (reason : string) : KO unit :=
  upd_slots (set_pendingInterrupt (Some reason)).

Definition isTurnReady (s : TurnSlots) : bool := sl_lifecycle s && sl_execution s.

Definition resolveApproval (approvalId : string) (resolution : ApprovalResolution) : KO unit :=
  registered ← slots sl_registered;
  if (registered : bool) then resolve_pending options approvalId resolution
  else throw (kernel_error turn_not_active
    ("Turn " +:+ turn_id turn +:+ " is not owned by this runtime kernel")).

Definition acceptThreadInput (inputId clientInputId transcriptMessageId : string) : KO Z :=
  owned ← slots sl_lifecycle;
  match kp_enqueueThreadInput with
  | Some enqueue =>
      _ ← throw_if (negb owned) (kernel_error turn_not_active
            ("Turn " +:+ turn_id turn +:+ " has no active model input owner"));
      accepted ← lc (fun w => sequence ← Coordinator.acceptThreadInput options inputId clientInputId
                                transcriptMessageId (fun _ => Ok tt);
                             mret (sequence, dget inputId (c_acceptedInputSequences (coordinator_of w))));
      _ ← (if is_some (snd accepted) then mret tt else modify (enqueue inputId (fst accepted)));
      mret (fst accepted)
  | None => throw (kernel_error turn_not_active
      ("Turn " +:+ turn_id turn +:+ " has no active model input owner"))
  end.

Definition compactTurn (mode : ContextCompactionMode) : KO unit :=
  s ← slots id;
  terminal ← lifecycle_isTerminal;
  match sl_activeContext s with
  | Some context =>
      _ ← throw_if (negb (sl_prepared s) || terminal) (kernel_error turn_not_active
            ("Turn " +:+ turn_id turn +:+ " is not active in the runtime kernel"));
      existing ← slots sl_compacting;
      if (existing : bool) then kp_compaction else runCompaction context mode
  | None => throw (kernel_error turn_not_active
      ("Turn " +:+ turn_id turn +:+ " is not active in the runtime kernel"))
  end.
End RuntimeKernel.

(** * The input of a turn *)

Definition str_field (k : string) (o : JsonRecord) : string := default "" (get_str k o).

Section Input.
Context `{!JsRuntime}.

(** [/^[a-z0-9][a-z0-9-]{0,63}$/] and [/^[A-Za-z0-9][A-Za-z0-9._:/+-]{0,191}$/] (ids.ts) *)
Definition slug (first rest : Ascii.ascii -> bool) (max : Z) (s : string) : bool :=
  match s with
  | String c s' => first c && str_forall rest s' && (str_length s <=? max)
  | EmptyString => false
  end.
Definition lower_alnum (c : Ascii.ascii) : bool := ascii_between 97 122 c || ascii_between 48 57 c.
Definition ProviderIdSchema : string -> bool :=
  slug lower_alnum (fun c => lower_alnum c || Ascii.eqb c "-"%char) 64.
Definition ModelIdSchema : string -> bool :=
  slug is_alnum (fun c => is_alnum c || existsb (Ascii.eqb c) ["."; "_"; ":"; "/"; "+"; "-"]%char) 192.

(** conversation.ts *)
Definition RunStatusSchema : list string :=
  ["queued"; "running"; "waiting_for_approval"; "completed"; "failed"; "cancelled"; "timed_out"].
Definition RunModeSchema : list string := ["ask"; "auto_edit"; "review"; "plan"].

Definition RunSchema : zod := z_object
  [req "id" (z_regex RunIdSchema); req "threadId" (z_regex ThreadIdSchema);
   req "userId" (z_regex UserIdSchema); req "workspaceId" (z_regex WorkspaceIdSchema);
   req "status" (z_enum RunStatusSchema); req "mode" (z_enum RunModeSchema);
   req "providerId" (z_regex ProviderIdSchema); req "modelId" (z_regex ModelIdSchema);
   req "workerId" (z_regex WorkerIdSchema);
   req "permissionProfileId" (z_regex PermissionProfileIdSchema);
   opt "executionCapability" (z_enum ["repository"; "conversation"]);
   req "startedAt" (z_nullable (z_regex is_datetime));
   req "completedAt" (z_nullable (z_regex is_datetime));
   req "createdAt" (z_regex is_datetime); req "updatedAt" (z_regex is_datetime);
   req "lastEventSequence" z_token].

Definition TurnSchema : zod := z_object
  [req "id" (z_regex TurnIdSchema); req "threadId" (z_regex ThreadIdSchema);
   req "runId" (z_regex RunIdSchema); req "parentTurnId" (z_nullable (z_regex TurnIdSchema));
   req "status" (z_enum ["queued"; "running"; "completed"; "failed"; "cancelled"]);
   req "startedAt" (z_nullable (z_regex is_datetime));
   req "completedAt" (z_nullable (z_regex is_datetime));
   req "createdAt" (z_regex is_datetime); req "updatedAt" (z_regex is_datetime);
   req "lastEventSequence" z_token].

(** [RunSchema.parse] and [TurnSchema.parse], and what the kernel reads of them *)
Definition parse_run (input : json) : res thrown Run :=
  match RunSchema input with
  | Some (JObj o) => Ok (mkRun (str_field "id" o) (str_field "threadId" o) (str_field "userId" o)
      (str_field "workspaceId" o) (get_str "executionCapability" o) (token_field "lastEventSequence" o))
  | _ => Err (Lifecycle ZodError)
  end.
Definition parse_turn (input : json) : res thrown Turn :=
  match TurnSchema input with
  | Some (JObj o) => Ok (mkTurn (str_field "id" o) (str_field "threadId" o) (str_field "runId" o)
      (get_str "parentTurnId" o) (token_field "lastEventSequence" o))
  | _ => Err (Lifecycle ZodError)
  end.

Record StartTurnInput : Type := mkStartTurnInput {
  si_run : json;
  si_turn : json;
  si_runAttemptId : string;
  si_continuationOfTurnId : option string;
  si_originalPromptId : option string;
}.

(** The options [createLifecycle] gives the coordinator. *)
Definition lifecycle_options (producerId : string) (clock : nat -> string) (run : Run) (turn : Turn)
    (input : StartTurnInput) : RuntimeLifecycleCoordinatorOptions :=
  mkOptions (run_threadId run) (run_workspaceId run) (turn_id turn) (si_runAttemptId input)
    producerId clock (Some (turn_lastEventSequence turn)) (turn_parentTurnId turn)
    (si_continuationOfTurnId input) (si_originalPromptId input) (run_executionCapability run).

(** [startTurn]: the input is parsed first. *)
Definition startTurnInput {K E : Type} `{!LifecycleSink K, !KernelPorts K E}
    (producerId : string) (clock : nat -> string) (maxToolCalls : Z) (fuel : nat)
    (input : StartTurnInput) : KM K E (option StartTurnResult) :=
  run ← lift (parse_run (si_run input));
  turn ← lift (parse_turn (si_turn input));
  _ ← throw_if (negb (RunAttemptIdSchema (si_runAttemptId input))) (Lifecycle ZodError);
  startTurn (lifecycle_options producerId clock run turn input) run turn maxToolCalls fuel.
End Input.
