(* ===== verification/KernelSteps.v ===== *)
(** What can happen to a turn while the kernel awaits one of its ports: the other
    entry points of the kernel run on the turn's coordinator and slots, one
    operation at a time ([port_step]).  [HonestPorts] is what the kernel relies on:
    a port does no more than that, it names new items, and the promises the kernel
    shares between callers settle with what the first caller got.  The assertions
    of this file ([kinv], [calm], [asking]) are kept by every such step. *)
From S2P Require Import Prelude Js Zod Protocol LifecycleEvents EventStore Coordinator Projector ProjectorFacts Sink Simulation CoordinatorProps Restore RestoreFacts Liveness RestoreProps Footprint Closable Permission Workspace KernelErrors WorkerEvents Kernel RuntimeKernel.
#[local] Open Scope Z_scope.

(** * The kernel's own items *)

Section Items.
Variable turn : Turn.

Definition compaction_item (m : ContextCompactionMode) : string :=
  kernel_item turn ("context_compaction_" +:+ mode_str m).
Definition commentary_item (n : Z) : string :=
  kernel_item turn ("commentary_" +:+ Number_toString n).
Definition reasoning_item (n : Z) : string :=
  kernel_item turn ("reasoning_" +:+ Number_toString n).

Inductive kernel_owned : string -> Prop :=
| ko_compaction m : kernel_owned (compaction_item m)
| ko_commentary n : kernel_owned (commentary_item n)
| ko_reasoning n : kernel_owned (reasoning_item n).

Lemma kernel_item_inj s s' : kernel_item turn s = kernel_item turn s' -> s = s'.
Proof. unfold kernel_item. by intros ?%append_inj_l%append_inj_l%append_inj_l. Qed.

Lemma commentary_item_inj n n' : 0 <= n -> 0 <= n' -> commentary_item n = commentary_item n' -> n = n'.
Proof. intros ?? ?%kernel_item_inj%append_inj_l. by apply Number_toString_inj. Qed.
Lemma reasoning_item_inj n n' : 0 <= n -> 0 <= n' -> reasoning_item n = reasoning_item n' -> n = n'.
Proof. intros ?? ?%kernel_item_inj%append_inj_l. by apply Number_toString_inj. Qed.
Lemma commentary_reasoning n n' : commentary_item n <> reasoning_item n'.
Proof. by intros ?%kernel_item_inj. Qed.
Lemma compaction_commentary m n : compaction_item m <> commentary_item n.
Proof. by intros ?%kernel_item_inj. Qed.
Lemma compaction_reasoning m n : compaction_item m <> reasoning_item n.
Proof. by intros ?%kernel_item_inj. Qed.
Lemma compaction_modes : compaction_item automatic <> compaction_item manual.
Proof. by intros ?%kernel_item_inj%append_inj_l. Qed.
End Items.

Section Steps.
Context `{!JsRuntime} {K E : Type} `{!LifecycleSink K, !LifecycleSinkLaws K, !SinkAvailable K, !KernelPorts K E}.
Variable options : RuntimeLifecycleCoordinatorOptions.
Variable turn : Turn.
Hypothesis Henv : env_valid options.

Notation Coord := RuntimeLifecycleCoordinator.
Notation KW := (KWorld K E).
Notation KO := (KM K E).

(** * Steps *)

(** The turn's coordinator can be reached and has started. *)
Definition started (w : KW) : Prop :=
  sl_lifecycle (kw_slots w) = true /\ c_status (coordinator_of w) <> queued.

(** The world after the coordinator ran an operation. *)
Definition perform (op : operation) (w : KW) : KW :=
  mkKWorld (snd (run_op options op (kw_lifecycle w))) (kw_slots w) (kw_env w).

Definition with_slots (s : TurnSlots) (w : KW) : KW := mkKWorld (kw_lifecycle w) s (kw_env w).

(** An operation that opens no item and settles no compaction. *)
Definition plain (op : operation) : Prop :=
  opens op = None /\ forall p, op <> OpSettleCompaction p.

Definition fresh_at (i : string) (w : KW) : Prop := fresh_item (coordinator_of w) i.

Definition emission_ok (s : TurnSlots) : Prop :=
  forall e, sl_emission s = settled (Err e) -> isArtifactSettlementError e = true.

(** Changes of the slots other than those of a pending approval. *)
Record quiet (s s' : TurnSlots) : Prop := {
  q_lifecycle : sl_lifecycle s' = sl_lifecycle s;
  q_approvals : sl_approvals s' = sl_approvals s;
  q_automatic : sl_automatic s = true -> sl_automatic s' = true;
  q_emission : emission_ok s -> emission_ok s';
}.

(** A caller's answer to an approval, and its settlement on the way. *)
Definition answers_to (p p' : PendingApproval) : Prop :=
  pa_settlement p' = pa_settlement p \/ (pa_settlement p = absent /\ pa_settlement p' = in_flight).

(** What the lifecycle coordinator said, as its callers see it. *)
Definition outcome_of (op : operation) (w : KW) : res thrown unit :=
  match fst (run_op options op (kw_lifecycle w)) with
  | Ok a => Ok a
  | Err e => Err (Lifecycle e)
  end.

Inductive port_step (w : KW) : KW -> Prop :=
| po_slots s env : quiet (kw_slots w) s -> port_step w (mkKWorld (kw_lifecycle w) s env)
| po_op op : started w -> plain op -> port_step w (perform op w)
| po_compact p s : started w ->
    (cc_itemId p = compaction_item turn manual /\ s = kw_slots w \/
     cc_itemId p = compaction_item turn automatic /\ sl_automatic (kw_slots w) = false /\
       s = set_automatic true (kw_slots w)) ->
    fresh_at (cc_itemId p) w ->
    port_step w (with_slots s (perform (OpRequestCompaction p) w))
| po_compacted p m : started w -> cc_itemId p = compaction_item turn m ->
    port_step w (perform (OpSettleCompaction p) w)
| po_answer a p p' : dget a (sl_approvals (kw_slots w)) = Some p -> answers_to p p' ->
    port_step w (with_slots (set_approvals (dset a p' (sl_approvals (kw_slots w))) (kw_slots w)) w)
| po_decide a p p' st payload : started w -> dget a (sl_approvals (kw_slots w)) = Some p ->
    st <> ap_pending ->
    pa_settlement p' = settled (outcome_of (OpDecideApproval a st payload) w) ->
    port_step w (with_slots (set_approvals (dset a p' (sl_approvals (kw_slots w))) (kw_slots w))
      (perform (OpDecideApproval a st payload) w)).

Definition steps : KW -> KW -> Prop := rtc port_step.

(** * What the ports promise *)

Definition is_denied (e : thrown) : bool :=
  match e with KernelError approval_denied _ _ => true | _ => false end.
Definition is_lifecycle (e : thrown) : bool := match e with Lifecycle _ => true | _ => false end.

(** A computation that makes the turn take such steps. *)
Definition obliges {A} (m : KO A) (Q : A -> KW -> Prop) (X : thrown -> Prop) : Prop :=
  forall w, wp m (fun a w' => steps w w' /\ Q a w') (fun e w' => steps w w' /\ X e) w.
Definition answers {A} (m : KO A) : Prop := obliges m (fun _ _ => True) (fun _ => True).

Definition new_item (w : KW) (i : string) : Prop := fresh_at i w /\ ~ kernel_owned turn i.
Definition new_request (w : KW) (r : ApprovalRequest) : Prop :=
  forall i, aq_itemId r = Some i -> new_item w i.
Definition authorized_new (r : ToolAuthorizationResult) (w : KW) : Prop :=
  match r with ta_approval_required _ q => new_request w q | _ => True end.
Definition result_new (r : WorkerToolResult) (w : KW) : Prop :=
  match r with wr_approval_required q => new_request w q | _ => True end.
Definition step_new (s : ProviderStep) (w : KW) : Prop :=
  match s with ps_complete i _ _ _ | ps_tool_call i _ _ _ _ => new_item w i end.

Class HonestPorts : Prop := {
  hp_others w : steps w (kp_others w);
  hp_now : answers kp_now;
  hp_workspace m id : kp_getLatestByRunId = Some m -> answers (m id);
  hp_assemble r : answers (kp_assemble r);
  hp_compact m mode c : kp_compact = Some m -> answers (m mode c);
  hp_compaction : answers kp_compaction;
  (** the decision another caller made: it returned, and returns again, or it
      threw the coordinator's error *)
  hp_settlement a : obliges (kp_settlement a)
    (fun _ w => forall p, dget a (sl_approvals (kw_slots w)) = Some p -> pa_settlement p = settled (Ok tt))
    (fun e => is_lifecycle e = true);
  hp_emission : obliges kp_emission (fun _ _ => True) (fun e => isArtifactSettlementError e = true);
  hp_generateNext c r : obliges (kp_generateNext c r) step_new (fun _ => True);
  hp_flush m : kp_flushThreadInputs = Some m -> answers m;
  hp_quiescence m : kp_awaitQuiescence = Some m -> obliges m (fun _ _ => True) (fun _ => False);
  hp_executeTool t a : obliges (kp_executeTool t a) result_new (fun _ => True);
  hp_authorize i t : obliges (kp_authorize i t) authorized_new (fun _ => True);
  hp_waitForDecision r : obliges (kp_waitForDecision r) (fun _ _ => True) (fun e => is_denied e = false);
  hp_hooks s u id : kp_hooks = Some (s, u) -> answers (s id) /\ answers (u id);
  hp_captureSnapshot : answers kp_captureSnapshot;
  hp_captureResume m s : kp_captureResumeSnapshot = Some m -> answers (m s);
  hp_getSnapshotDiff a b : answers (kp_getSnapshotDiff a b);
  hp_putSnapshot j : answers (kp_putSnapshot j);
  hp_putTurnDiff j : answers (kp_putTurnDiff j);
}.

(** * The invariant of a turn the kernel runs *)

(** [nc] and [nr] are the next numbers of its commentary and reasoning items. *)
Record kinv (nc nr : Z) (w : KW) : Prop := {
  ki_started : started w;
  ki_good : good (K:=K) options (kw_lifecycle w);
  ki_closable : closable (coordinator_of w);
  ki_owners : owners_in (fun i => ~ kernel_owned turn i) (coordinator_of w);
  ki_commentary n : nc <= n -> fresh_at (commentary_item turn n) w;
  ki_reasoning n : nr <= n -> fresh_at (reasoning_item turn n) w;
  ki_automatic : sl_automatic (kw_slots w) = false -> fresh_at (compaction_item turn automatic) w;
  ki_emission : emission_ok (kw_slots w);
}.

Definition weak (w : KW) : Prop := exists nc nr, kinv nc nr w.

(** The turn waits for no approval. *)
Record calm (nc nr : Z) (w : KW) : Prop := {
  ca_inv : kinv nc nr w;
  ca_idle : idle (coordinator_of w);
  ca_approvals : sl_approvals (kw_slots w) = [];
}.

(** It waits for the approval [a] at most. *)
Record asking (nc nr : Z) (a : string) (w : KW) : Prop := {
  as_inv : kinv nc nr w;
  as_waiting : waiting a (coordinator_of w);
  as_pending : exists p, sl_approvals (kw_slots w) = [(a, p)] /\
    (pa_settlement p = settled (Ok tt) -> idle (coordinator_of w)) /\
    (forall e, pa_settlement p = settled (Err e) -> is_lifecycle e = true);
}.

(** ** What an operation keeps *)

Lemma fresh_perform op i w : opens op <> Some i -> fresh_at i w -> fresh_at i (perform op w).
Proof. apply run_op_fresh. Qed.

Lemma new_perform op i w : opens op <> Some i -> new_item w i -> new_item (perform op w) i.
Proof. intros Hop [Hf Hn]. split; [by apply fresh_perform|done]. Qed.

Lemma started_perform op s w :
  sl_lifecycle s = true -> started w -> started (with_slots s (perform op w)).
Proof. intros Hs [_ Hst]. split; [done|]. by apply run_op_started. Qed.

Lemma perform_good_closable op w :
  good (K:=K) options (kw_lifecycle w) -> closable (coordinator_of w) -> op_fits (coordinator_of w) op ->
  good (K:=K) options (kw_lifecycle (perform op w)) /\ closable (coordinator_of (perform op w)).
Proof.
  intros Hg Hc Hf. pose proof (run_op_closable options Henv op (kw_lifecycle w) Hg Hc Hf) as Hwp.
  unfold wp in Hwp. unfold coordinator_of, perform; cbn.
  by destruct (run_op options op (kw_lifecycle w)) as [[] l].
Qed.

Lemma kinv_perform nc nr nc' nr' op s w :
  kinv nc nr w -> op_fits (coordinator_of w) op ->
  (forall i, gives op = Some i -> ~ kernel_owned turn i) -> nc <= nc' -> nr <= nr' ->
  (forall n, nc' <= n -> opens op <> Some (commentary_item turn n)) ->
  (forall n, nr' <= n -> opens op <> Some (reasoning_item turn n)) ->
  sl_lifecycle s = true ->
  (sl_automatic s = false ->
   sl_automatic (kw_slots w) = false /\ opens op <> Some (compaction_item turn automatic)) ->
  emission_ok s -> kinv nc' nr' (with_slots s (perform op w)).
Proof.
  intros [] Hfit Hgives Hnc Hnr Hc Hr Hs Hauto Hem.
  destruct (perform_good_closable op w) as [Hg' Hc']; [done..|].
  split; try done.
  - by apply started_perform.
  - by apply run_op_owners.
  - intros n Hn. apply fresh_perform; [by apply Hc|]. apply ki_commentary0. lia.
  - intros n Hn. apply fresh_perform; [by apply Hr|]. apply ki_reasoning0. lia.
  - intros [Ha Ho]%Hauto. by apply fresh_perform; [|apply ki_automatic0].
Qed.

Lemma kinv_slots nc nr w s env :
  kinv nc nr w -> quiet (kw_slots w) s -> kinv nc nr (mkKWorld (kw_lifecycle w) s env).
Proof.
  intros [[Hl Hst]] [Hq1 Hq2 Hq3 Hq4]. split; try done; [|intros Ha; apply ki_automatic0|by apply Hq4].
  - split; [by cbn; rewrite Hq1|done].
  - cbn in Ha. destruct (sl_automatic (kw_slots w)); [|done]. by rewrite Hq3 in Ha.
Qed.

(** The same slots but for the approvals. *)
Lemma kinv_approvals nc nr w d :
  kinv nc nr w -> kinv nc nr (with_slots (set_approvals d (kw_slots w)) w).
Proof. by intros []. Qed.

Lemma plain_fits op c : plain op -> op_fits c op.
Proof. intros [Ho Hs]. destruct op; cbn in *; try done. by destruct (Hs payload). Qed.
Lemma plain_gives op i : plain op -> gives op <> Some i.
Proof. intros [Ho _]. by destruct op. Qed.
Lemma plain_asks op : plain op -> asks op = None.
Proof. intros [Ho _]. by destruct op. Qed.

Lemma quiet_refl s : quiet s s.
Proof. by split. Qed.

Lemma plain_kinv nc nr op w : plain op -> kinv nc nr w -> kinv nc nr (perform op w).
Proof.
  intros Hop Hk. destruct (Hop) as [Ho _].
  apply (kinv_perform nc nr nc nr op (kw_slots w) w); try rewrite Ho; try done; try lia;
    try apply Hk; [by apply plain_fits|]. intros i Hi. by apply plain_gives in Hi.
Qed.

Lemma compaction_fits c p m :
  owners_in (fun i => ~ kernel_owned turn i) c -> cc_itemId p = compaction_item turn m ->
  op_fits c (OpSettleCompaction p).
Proof.
  intros [Ht Ha] Hp. cbn. rewrite Hp. split.
  - intros t Hi%Ht. apply Hi. constructor.
  - intros a _ Hi%Ha. apply Hi. constructor.
Qed.

Lemma compacted_kinv nc nr p m w :
  cc_itemId p = compaction_item turn m -> kinv nc nr w -> kinv nc nr (perform (OpSettleCompaction p) w).
Proof.
  intros Hp Hk. apply (kinv_perform nc nr nc nr _ (kw_slots w) w); try done; try lia; try apply Hk.
  eapply compaction_fits; [apply Hk|exact Hp].
Qed.

Lemma compact_kinv nc nr p m s w :
  cc_itemId p = compaction_item turn m -> fresh_at (cc_itemId p) w ->
  sl_lifecycle s = true -> (m = automatic -> sl_automatic s = true) ->
  (sl_automatic s = false -> sl_automatic (kw_slots w) = false) -> emission_ok s ->
  kinv nc nr w -> kinv nc nr (with_slots s (perform (OpRequestCompaction p) w)).
Proof.
  intros Hp Hf Hs Hm Ha He Hk. eapply kinv_perform; try done; cbn; rewrite ?Hp.
  - intros n _ Hn%(inj Some). by apply compaction_commentary in Hn.
  - intros n _ Hn%(inj Some). by apply compaction_reasoning in Hn.
  - intros Has. split; [auto|]. intros Hn%(inj Some). destruct m; [by rewrite Hm in Has|].
    symmetry in Hn. by apply compaction_modes in Hn.
Qed.

(** ** The assertions are stable *)

Definition stable (I : KW -> Prop) : Prop := forall w w', port_step w w' -> I w -> I w'.

Lemma steps_stable I w w' : stable I -> steps w w' -> I w -> I w'.
Proof. intros HI. induction 1; eauto. Qed.

Lemma stable_kinv nc nr : stable (kinv nc nr).
Proof.
  intros w w' Hstep Hk. destruct Hstep as [s env Hq|op _ Hop|p s _ Hp Hf|p m _ Hp|a p p' Ha Hp|a p p' st pl _ Ha Hst Hp].
  - by apply kinv_slots.
  - by apply plain_kinv.
  - destruct (Hk) as [[Hl _]]. destruct Hp as [[Hp ->]|(Hp & Hauto & ->)];
      by eapply compact_kinv; first exact Hp.
  - by eapply compacted_kinv.
  - by apply kinv_approvals.
  - apply (kinv_approvals _ _ (perform (OpDecideApproval a st pl) w)). by apply plain_kinv.
Qed.

Lemma stable_started : stable started.
Proof.
  intros w w' Hstep Hs.
  destruct Hstep as [s env [Hq _ _ _]|op _ Hop|p s _ Hp Hf|p m _ Hp|a p p' Ha Hp|a p p' st pl _ Ha Hst Hp];
    try (by apply (started_perform _ (kw_slots w)); [apply Hs|]).
  - destruct Hs. split; [by cbn; rewrite Hq|done].
  - destruct Hp as [[_ ->]|(_ & _ & ->)]; apply started_perform; by destruct Hs.
  - done.
Qed.

(** A step is a change of the slots around at most one operation, which asks for
    no approval and opens no item but a compaction. *)
Inductive step_shape (w w' : KW) : Prop :=
| ss_none : kw_lifecycle w' = kw_lifecycle w -> step_shape w w'
| ss_op op : asks op = None -> (forall i, opens op = Some i -> kernel_owned turn i) ->
    kw_lifecycle w' = kw_lifecycle (perform op w) -> step_shape w w'.

Lemma port_step_shape w w' : port_step w w' -> step_shape w w'.
Proof.
  intros Hstep. destruct Hstep as [s env Hq|op _ Hop|p s _ Hp Hf|p m _ Hp|a p p' Ha Hp|a p p' st pl _ Ha Hst Hp];
    try (by apply ss_none).
  - apply (ss_op _ _ op); [by apply plain_asks| |done]. destruct Hop as [-> _]. done.
  - apply (ss_op _ _ (OpRequestCompaction p)); try done. cbn. intros i [= <-].
    destruct Hp as [[-> _]|(-> & _)]; constructor.
  - by apply (ss_op _ _ (OpSettleCompaction p)).
  - by apply (ss_op _ _ (OpDecideApproval a st pl)).
Qed.

Lemma stable_idle : stable (fun w => idle (coordinator_of w)).
Proof.
  intros w w' [Hl|op Ho _ Hl]%port_step_shape; unfold coordinator_of; rewrite Hl; [done|].
  by apply run_op_idle.
Qed.

Lemma stable_waiting a : stable (fun w => waiting a (coordinator_of w)).
Proof.
  intros w w' [Hl|op Ho _ Hl]%port_step_shape; unfold coordinator_of; rewrite Hl; [done|].
  apply run_op_waiting. by rewrite Ho.
Qed.

Lemma stable_new i : stable (fun w => new_item w i).
Proof.
  intros w w' [Hl|op _ Ho Hl]%port_step_shape [Hf Hn]; (split; [|done]);
    unfold fresh_at, coordinator_of; rewrite Hl; [done|].
  apply run_op_fresh; [|done]. intros Hi. by apply Hn, Ho.
Qed.

Lemma stable_calm nc nr : stable (calm nc nr).
Proof.
  intros w w' Hstep []. split; [by eapply stable_kinv|by eapply stable_idle|].
  destruct Hstep as [s env []|op _ Hop|p s _ Hp Hf|p m _ Hp|a p p' Ha Hp|a p p' st pl _ Ha Hst Hp];
    cbn; try congruence; try (by rewrite ca_approvals0 in Ha).
  by destruct Hp as [[_ ->]|(_ & _ & ->)].
Qed.

Lemma stable_and I J : stable I -> stable J -> stable (fun w => I w /\ J w).
Proof. intros HI HJ w w' Hs []. eauto. Qed.

Lemma stable_weak : stable weak.
Proof. intros w w' Hs (nc & nr & Hk). exists nc, nr. by eapply stable_kinv. Qed.

Lemma calm_weak nc nr w : calm nc nr w -> weak w.
Proof. intros []. by exists nc, nr. Qed.
Lemma asking_weak nc nr a w : asking nc nr a w -> weak w.
Proof. intros []. by exists nc, nr. Qed.

(** The claim of the automatic compaction. *)
Definition claimed (w : KW) : Prop :=
  sl_automatic (kw_slots w) = true /\ fresh_at (compaction_item turn automatic) w.

Lemma stable_claimed : stable claimed.
Proof.
  intros w w' Hstep [Ha Hf].
  destruct Hstep as [s env []|op _ [Ho _]|p s _ Hp _|p m _ Hp|a p p' _ Hp|a p p' st pl _ _ Hst Hp]; cbn.
  - split; [by apply q_automatic0|done].
  - split; [done|]. apply fresh_perform; [congruence|done].
  - destruct Hp as [[Hp ->]|(_ & Hp & _)]; [|congruence]. split; [done|].
    apply (run_op_fresh options (OpRequestCompaction p)); [|done]. cbn. rewrite Hp. intros Hn%(inj Some). symmetry in Hn. by apply compaction_modes in Hn.
  - split; [done|]. by apply (run_op_fresh options (OpSettleCompaction p)).
  - done.
  - split; [done|]. by apply (run_op_fresh options (OpDecideApproval a st pl)).
Qed.
End Steps.
