(* ===== verification/KernelCalls.v ===== *)
(** The parts of the kernel that only take the steps of [port_step] ([calls]): what
    they await and what they write neither opens items nor waits for an approval.
    Facts that are stable under steps hold across them. *)
From S2P Require Import Prelude Js Zod Protocol LifecycleEvents EventStore Coordinator Projector ProjectorFacts Sink Simulation CoordinatorProps Restore RestoreFacts Liveness RestoreProps Footprint Closable Permission Workspace KernelErrors WorkerEvents Kernel RuntimeKernel KernelSteps.
#[local] Open Scope Z_scope.

Section Calls.
Context `{!JsRuntime} {K E : Type} `{!LifecycleSink K, !LifecycleSinkLaws K, !SinkAvailable K, !KernelPorts K E}.
Variable options : RuntimeLifecycleCoordinatorOptions.
Variable run : Run.
Variable turn : Turn.
Hypothesis Henv : env_valid options.
Context `{!HonestPorts (K:=K) (E:=E) options turn}.

Notation KW := (KWorld K E).
Notation KO := (KM K E).
#[local] Notation perform := (KernelSteps.perform options).
#[local] Notation steps := (KernelSteps.steps options turn).
#[local] Notation stable := (KernelSteps.stable options turn).
#[local] Notation lifecycle_op := (Kernel.lifecycle_op options).

(** Steps, with what is known of the result and of what is thrown. *)
Definition does {A} (m : KO A) (Q : A -> KW -> Prop) (X : thrown -> Prop) : Prop :=
  forall w, started w ->
  wp m (fun a w' => steps w w' /\ Q a w') (fun e w' => steps w w' /\ X e) w.
Definition calls {A} (m : KO A) : Prop := does m (fun _ _ => True) (fun _ => True).

Lemma obliges_does {A} (m : KO A) Q X : obliges options turn m Q X -> does m Q X.
Proof. intros Hm w _. apply Hm. Qed.

Lemma does_mono {A} (m : KO A) Q X Q' X' :
  does m Q X -> (forall a w, Q a w -> Q' a w) -> (forall e, X e -> X' e) -> does m Q' X'.
Proof.
  intros Hm HQ HX w Hw. eapply wp_mono; [by apply Hm| |]; cbn; [intros a w' []|intros e w' []]; auto.
Qed.

Lemma does_calls {A} (m : KO A) Q X : does m Q X -> calls m.
Proof. intros Hm. by eapply does_mono. Qed.

(** How a fact is carried across such a part. *)
Lemma wp_does {A} (m : KO A) Q0 X0 I (Q : A -> KW -> Prop) (X : thrown -> KW -> Prop) w :
  does m Q0 X0 -> stable I -> started w -> I w ->
  (forall a w', steps w w' -> I w' -> Q0 a w' -> Q a w') ->
  (forall e w', steps w w' -> I w' -> X0 e -> X e w') -> wp m Q X w.
Proof.
  intros Hm HI Hst Hw HQ HX. eapply wp_mono; [by apply Hm| |]; cbn.
  - intros a w' [Hs Ha]. apply HQ; [done| |done]. by eapply steps_stable.
  - intros e w' [Hs He]. apply HX; [done| |done]. by eapply steps_stable.
Qed.

Lemma wp_calls {A} (m : KO A) I (Q : A -> KW -> Prop) (X : thrown -> KW -> Prop) w :
  calls m -> stable I -> started w -> I w ->
  (forall a w', I w' -> Q a w') -> (forall e w', I w' -> X e w') -> wp m Q X w.
Proof. intros Hm HI Hst Hw HQ HX. eapply wp_does; eauto. Qed.

(** ** Rules *)

Lemma does_ret {A} (a : A) X : does (mret a) (fun a' _ => a' = a) X.
Proof. intros w _. by split; [apply rtc_refl|]. Qed.
Lemma calls_ret {A} (a : A) : calls (mret a).
Proof. by eapply does_calls, (does_ret a (fun _ => True)). Qed.
Lemma calls_throw {A} e : calls (A:=A) (throw e).
Proof. intros w _. by split; [apply rtc_refl|]. Qed.
Lemma calls_gets {A} (f : KW -> A) : calls (gets f).
Proof. intros w _. by split; [apply rtc_refl|]. Qed.
Lemma calls_lift {A} (r : res thrown A) : calls (lift r).
Proof. intros w _. unfold wp, lift. by destruct r; split; try apply rtc_refl. Qed.
Lemma calls_throw_if b e : calls (throw_if b e).
Proof. destruct b; [apply calls_throw|apply calls_ret]. Qed.

Lemma does_bind {A B} (m : KO A) (k : A -> KO B) Q0 Q X :
  does m Q0 X -> (forall a w, Q0 a w -> started w ->
    wp (k a) (fun b w' => steps w w' /\ Q b w') (fun e w' => steps w w' /\ X e) w) ->
  does (m ≫= k) Q X.
Proof.
  intros Hm Hk w Hw. apply wp_bind. eapply wp_mono; [by apply Hm| |done]. cbn.
  intros a w1 [Hs1 Ha]. eapply wp_mono; [apply Hk; [exact Ha|]| |]; cbn.
  - eapply steps_stable; [by eapply stable_started|exact Hs1|done].
  - intros b w2 [Hs2 ?]. split; [by etrans|done].
  - intros e w2 [Hs2 ?]. split; [by etrans|done].
Qed.

Lemma calls_bind {A B} (m : KO A) (k : A -> KO B) :
  calls m -> (forall a, calls (k a)) -> calls (m ≫= k).
Proof. intros Hm Hk. eapply does_bind; [exact Hm|]. intros a w _ Hw. by apply Hk. Qed.

Lemma does_try {A} (m : KO A) h Q X0 X :
  does m Q X0 -> (forall e, X0 e -> does (h e) Q X) -> does (try_catch m h) Q X.
Proof.
  intros Hm Hh w Hw. apply wp_try_catch. eapply wp_mono; [by apply Hm|done|]. cbn.
  intros e w1 [Hs1 He]. eapply wp_mono; [apply Hh; [exact He|]| |]; cbn.
  - eapply steps_stable; [by eapply stable_started|exact Hs1|done].
  - intros b w2 [Hs2 ?]. split; [by etrans|done].
  - intros e' w2 [Hs2 ?]. split; [by etrans|done].
Qed.

(** A handler that only sees what it is thrown. *)
Lemma calls_wrap {A} (m : KO A) h X :
  calls m -> (forall e, does (h e) (fun _ _ => True) X) ->
  does (try_catch m h) (fun _ _ => True) X.
Proof. intros Hm Hh. eapply does_try; [exact Hm|]. intros e _. apply Hh. Qed.

Lemma calls_try {A} (m : KO A) h : calls m -> (forall e, calls (h e)) -> calls (try_catch m h).
Proof. apply calls_wrap. Qed.

Lemma calls_for_of {A} (xs : list A) (f : A -> KO unit) :
  (forall x, calls (f x)) -> calls (for_of xs f).
Proof.
  intros Hf. induction xs as [|x xs IH]; cbn; [apply calls_ret|]. apply calls_bind; [done|]. by intros [].
Qed.

Lemma calls_upd (f : TurnSlots -> TurnSlots) : (forall s, quiet s (f s)) -> calls (upd_slots f).
Proof. intros Hf w _. split; [|done]. apply rtc_once. by apply po_slots. Qed.

Lemma calls_finally {A} (m : KO A) fin : (forall s, quiet s (fin s)) -> calls m -> calls (finally m fin).
Proof.
  intros Hf Hm w Hw. specialize (Hm w Hw). unfold wp, finally in *.
  destruct (m w) as [r w1]. cbn. assert (steps w1 (mkKWorld (kw_lifecycle w1) (fin (kw_slots w1)) (kw_env w1))).
  { apply rtc_once. by apply po_slots. }
  destruct r; destruct Hm; (split; [by etrans|done]).
Qed.

Lemma steps_others w : steps w (kp_others w).
Proof. apply (hp_others options turn). Qed.

Lemma started_others w : started w -> started (kp_others w).
Proof. intros Hw. eapply steps_stable; [by eapply stable_started|apply steps_others|done]. Qed.

(** An operation runs after what the others queued. *)
Lemma wp_op op w (Q : unit -> KW -> Prop) (X : thrown -> KW -> Prop) :
  let w1 := kp_others w in
  (forall l, run_op options op (kw_lifecycle w1) = (Ok tt, l) -> Q tt (perform op w1)) ->
  (forall e l, run_op options op (kw_lifecycle w1) = (Err e, l) -> X (Lifecycle e) (perform op w1)) ->
  wp (lifecycle_op op) Q X w.
Proof.
  intros w1 HQ HX. unfold wp, Kernel.lifecycle_op, lc, KernelSteps.perform in *. fold w1.
  destruct (run_op options op (kw_lifecycle w1)) as [[[]|e] l]; [by eapply HQ|by eapply HX].
Qed.

Lemma does_op op : (forall w : KW, started w -> port_step options turn w (perform op w)) ->
  does (lifecycle_op op) (fun _ _ => True) (fun e => is_lifecycle e = true).
Proof.
  intros Hop w Hw. apply wp_op; intros; (split; [|done]);
    (eapply rtc_r; [apply steps_others|]); by apply Hop, started_others.
Qed.

Lemma calls_op op : plain op -> calls (lifecycle_op op).
Proof. intros Hop. eapply does_calls, does_op. intros. by apply po_op. Qed.

Lemma calls_compacted p m :
  cc_itemId p = compaction_item turn m -> calls (lifecycle_op (OpSettleCompaction p)).
Proof. intros Hp. eapply does_calls, does_op. intros. by eapply po_compacted. Qed.

Lemma quiet_intro s s' :
  sl_lifecycle s' = sl_lifecycle s -> sl_approvals s' = sl_approvals s ->
  sl_automatic s' = sl_automatic s -> sl_emission s' = sl_emission s -> quiet s s'.
Proof. intros H1 H2 H3 H4. split; try done; [by rewrite H3|]. unfold emission_ok. by rewrite H4. Qed.

Lemma quiet_emission v s :
  (forall e, v = settled (Err e) -> isArtifactSettlementError e = true) -> quiet s (set_emission v s).
Proof. by intros Hv; split. Qed.
End Calls.

#[export] Hint Resolve calls_ret calls_throw calls_gets calls_lift calls_throw_if : legion.
#[export] Hint Extern 1 (calls _ _ (upd_slots _)) =>
  (apply calls_upd; intros; apply quiet_intro; reflexivity) : legion.
#[export] Hint Extern 1 (calls _ _ (slots _)) => (apply calls_gets) : legion.
#[export] Hint Extern 1 (calls _ _ (Kernel.lifecycle_op _ _)) => 
  (match goal with |- calls ?o ?t _ => apply (calls_op o t); split; [reflexivity|intros ?; discriminate] end) : legion.

(** [calls] goals: walk through the body with the hints of the library. *)
Ltac solve_calls :=
  repeat match goal with
  | |- forall _, _ => intros ?
  | |- calls _ _ _ => solve [eauto with legion nocore]
  | |- calls _ _ (_ ≫= _) => apply calls_bind; [|intros ?]
  | |- calls _ _ (try_catch _ _) => apply calls_try; [|intros ?]
  | |- calls _ _ (for_of _ _) => apply calls_for_of; intros ?
  | |- calls _ _ (finally _ _) => apply calls_finally; [intros; apply quiet_intro; reflexivity|]
  | |- calls _ _ (if decide ?P then _ else _) => destruct (decide P)
  | |- calls _ _ (if ?b then _ else _) => destruct b
  | |- calls _ _ (match ?x with _ => _ end) => destruct x
  end.

(** ** The parts of the kernel *)

Section Parts.
Context `{!JsRuntime} {K E : Type} `{!LifecycleSink K, !LifecycleSinkLaws K, !SinkAvailable K, !KernelPorts K E}.
Variable options : RuntimeLifecycleCoordinatorOptions.
Variable run : Run.
Variable turn : Turn.
Hypothesis Henv : env_valid options.
Context `{HP : !HonestPorts (K:=K) (E:=E) options turn}.

Notation KW := (KWorld K E).
Notation KO := (KM K E).
#[local] Notation calls' := (calls options turn).
#[local] Notation does' := (does options turn).

Lemma calls_answers {A} (m : KO A) : answers options turn m -> calls' m.
Proof. apply obliges_does. Qed.
Lemma calls_obliges {A} (m : KO A) Q X : obliges options turn m Q X -> calls' m.
Proof. intros Hm. by eapply does_calls, obliges_does. Qed.

#[local] Hint Extern 1 (calls _ _ _) => (apply calls_answers; apply HP) : legion.
#[local] Hint Extern 2 (calls _ _ _) => (eapply calls_obliges; apply HP) : legion.

Lemma calls_assemble r : calls' (assembleContext options turn r).
Proof. unfold assembleContext, require_lifecycle. solve_calls. Qed.

Lemma calls_active c : calls' (active_context c : KO _).
Proof. apply calls_gets. Qed.

Lemma calls_record_usage c u : calls' (record_usage options turn c u : KO _).
Proof. unfold record_usage, require_lifecycle, active_context. solve_calls. Qed.

Lemma calls_flush : calls' (flush_inputs : KO _).
Proof.
  unfold flush_inputs. destruct kp_flushThreadInputs as [m|] eqn:Hm; [|auto with legion].
  apply calls_answers. by eapply hp_flush.
Qed.

Lemma calls_reserve : calls' (reserve_completion : KO _).
Proof.
  intros w Hw. unfold reserve_completion, lc, wp. set (w1 := kp_others w).
  set (b := match kp_hasPendingThreadInputs with None => _ | Some p => _ end).
  assert (steps options turn w w1) as H1 by by eapply steps_others.
  assert (port_step options turn w1 (perform options (OpReserve b) w1)) as H2.
  { apply po_op; [by eapply started_others|by split]. }
  unfold perform in H2. cbn [run_op] in H2. unfold mbind, ST_bind in H2.
  destruct (reserveCompletion b (kw_lifecycle w1)) as [[r|e] l]; (split; [by eapply rtc_r|done]).
Qed.

Lemma does_generate c r : does' (generate_step c r : KO _) (step_new turn) (fun _ => True).
Proof.
  unfold generate_step. eapply does_bind; [apply calls_gets|]. intros ctx w0 _ Hw0.
  revert w0 Hw0. eapply (does_try _ _ _ _ (step_new turn) (fun _ => True)).
  - apply obliges_does, HP.
  - intros e _ w Hw. destruct e; (split; [apply rtc_refl|done]).
Qed.

(** ** Artifacts *)

Lemma calls_capture phase b r : calls' (capture turn phase b r : KO _).
Proof.
  unfold capture, captureResume.
  apply calls_bind; [apply calls_try; [auto with legion|auto with legion]|]. intros s.
  apply calls_bind; [|intros; apply calls_bind; auto with legion].
  destruct (_ && _); [|auto with legion]. apply calls_try; [|auto with legion].
  destruct kp_captureResumeSnapshot as [m|] eqn:Hm; [|auto with legion].
  apply calls_bind; [|auto with legion]. apply calls_answers. by eapply hp_captureResume.
Qed.

Lemma calls_or_partial {A B} b msg (p : B) (m : KO A) (k : A -> KO B) :
  calls' m -> (forall a, calls' (k a)) -> calls' (or_partial b msg p m k).
Proof.
  intros Hm Hk. unfold or_partial. apply calls_bind; [solve_calls|].
  intros [a|p']; [apply Hk|apply calls_ret].
Qed.

#[local] Hint Resolve calls_assemble calls_active calls_record_usage calls_flush calls_reserve
  calls_capture : legion.

Lemma calls_settleNow s b p r : calls' (settleNow run turn s b p r : KO _).
Proof.
  unfold settleNow. destruct (decide _); [auto with legion|].
  repeat (apply calls_or_partial; [auto with legion|intros ?]). solve_calls.
  apply calls_or_partial; auto with legion.
Qed.
#[local] Hint Resolve calls_settleNow : legion.

Lemma calls_settle_artifacts b p r : calls' (settle_artifacts run turn b p r : KO _).
Proof. unfold settle_artifacts, set_artifact_fields. solve_calls. Qed.
#[local] Hint Resolve calls_settle_artifacts : legion.

Lemma does_settleNow b p r :
  does' (settleArtifactsNow options run turn b p r) (fun _ _ => True)
    (fun e => isArtifactSettlementError e = true).
Proof.
  unfold settleArtifactsNow, opt_op. apply calls_wrap; [solve_calls|].
  intros e w _. by split; [apply rtc_refl|].
Qed.

(** The first caller runs the settlement; the others get what it got. *)
Lemma settleArtifacts_does a b p r w :
  started w -> emission_ok (kw_slots w) ->
  wp (settleArtifacts options run turn a b p r) (fun _ w' => steps options turn w w')
    (fun e w' => steps options turn w w' /\ isArtifactSettlementError e = true) w.
Proof.
  intros Hst Hem. unfold settleArtifacts. destruct a; [|apply rtc_refl]. apply wp_bind, wp_gets.
  destruct (sl_emission (kw_slots w)) as [| |o] eqn:Ho.
  - apply wp_bind. unfold wp at 1. cbn.
    set (w1 := mkKWorld (kw_lifecycle w) (set_emission in_flight (kw_slots w)) (kw_env w)).
    assert (steps options turn w w1) as H1.
    { by apply rtc_once, po_slots, quiet_emission. }
    pose proof (does_settleNow b p r w1 Hst) as Hm. unfold wp, keeping in *.
    destruct (settleArtifactsNow options run turn b p r w1) as [o w2]. cbn.
    assert (steps options turn w1 w2 /\ forall e, o = Err e -> isArtifactSettlementError e = true) as [H2 He].
    { destruct o; destruct Hm; (split; [done|congruence]). }
    assert (steps options turn w (mkKWorld (kw_lifecycle w2) (set_emission (settled o) (kw_slots w2)) (kw_env w2))).
    { etrans; [exact H1|]. eapply rtc_r; [exact H2|]. apply po_slots, quiet_emission.
      intros e [= ->]. by apply He. }
    destruct o; [done|]. split; [done|by apply He].
  - eapply wp_mono; [apply HP| |done]. by intros ? ? [].
  - unfold wp, lift. destruct o; [apply rtc_refl|]. split; [apply rtc_refl|]. by apply Hem.
Qed.

(** ** Tools, hooks and hand-overs *)

Lemma calls_events i t o es : calls' (emitWorkerResultEvents options run i t o es).
Proof. unfold emitWorkerResultEvents. solve_calls. Qed.

Lemma calls_hooks p : calls' (runHooks p : KO _).
Proof.
  unfold runHooks. destruct kp_hooks as [[s u]|] eqn:Hh; [|auto with legion].
  destruct (pt_workspace p); [|auto with legion].
  pose proof (fun id => hp_hooks options turn s u id Hh) as Hs.
  apply calls_bind; [|intros []]; apply calls_answers; apply Hs.
Qed.

Lemma does_quiescence : does' (quiescence : KO _) (fun _ _ => True) (fun _ => False).
Proof.
  unfold quiescence. destruct kp_awaitQuiescence as [m|] eqn:Hm.
  - apply obliges_does. by eapply hp_quiescence.
  - by eapply does_mono; [apply (does_ret _ _ _ (fun _ => False))| |].
Qed.
End Parts.
