(* ===== verification/KernelTurn.v ===== *)
(** A turn from its start to its end: what the kernel does beside waiting.  Each
    part keeps the turn [calm], or leaves it [weak]ly consistent when it throws. *)
From S2P Require Import Prelude Js Zod Protocol LifecycleEvents EventStore Coordinator Projector ProjectorFacts Sink Simulation CoordinatorProps Restore RestoreFacts Liveness RestoreProps Footprint Closable Permission Workspace KernelErrors WorkerEvents Kernel RuntimeKernel KernelSteps KernelCalls.
#[local] Open Scope Z_scope.

Section Turn.
Context `{!JsRuntime} {K E : Type} `{!LifecycleSink K, !LifecycleSinkLaws K, !SinkAvailable K, !KernelPorts K E}.
Variable options : RuntimeLifecycleCoordinatorOptions.
Variable run : Run.
Variable turn : Turn.
Variable maxToolCalls : Z.
Hypothesis Henv : env_valid options.
Context `{HP : !HonestPorts (K:=K) (E:=E) options turn}.

Notation KW := (KWorld K E).
Notation KO := (KM K E).
#[local] Notation calls := (KernelCalls.calls options turn).
#[local] Notation does := (KernelCalls.does options turn).
#[local] Notation perform := (KernelSteps.perform options).
#[local] Notation steps := (KernelSteps.steps options turn).
#[local] Notation stable := (KernelSteps.stable options turn).
#[local] Notation kinv := (KernelSteps.kinv options turn).
#[local] Notation calm := (KernelSteps.calm options turn).
#[local] Notation asking := (KernelSteps.asking options turn).
#[local] Notation weak := (KernelSteps.weak options turn).
#[local] Notation new_item := (KernelSteps.new_item turn).
#[local] Notation claimed := (KernelSteps.claimed turn).
#[local] Notation lifecycle_op := (Kernel.lifecycle_op options).

(** A calm turn, and the items it will still open. *)
Definition ready (nc nr : Z) (N : list string) (w : KW) : Prop :=
  calm nc nr w /\ forall i, i ∈ N -> new_item w i.

Lemma stable_ready nc nr N : stable (ready nc nr N).
Proof.
  intros w w' Hs [Hc HN]. split; [by eapply stable_calm|]. intros i Hi. eapply stable_new; eauto.
Qed.

Lemma ready_started nc nr N (w : KW) : ready nc nr N w -> started w.
Proof. intros [[[]] _]. done. Qed.
Lemma ready_weak nc nr N (w : KW) : ready nc nr N w -> weak w.
Proof. intros [? _]. by eapply calm_weak. Qed.
Lemma weak_started (w : KW) : weak w -> started w.
Proof. by intros (nc & nr & []). Qed.
Lemma ready_nil nc nr (w : KW) : calm nc nr w -> ready nc nr [] w.
Proof. intros ?. split; [done|]. intros i Hi. by apply elem_of_nil in Hi. Qed.
#[local] Hint Resolve ready_started ready_weak weak_started : legion.

(** Parts that only take steps. *)
Lemma ready_calls {A} (m : KO A) nc nr N (w : KW) :
  calls m -> ready nc nr N w -> wp m (fun _ => ready nc nr N) (fun _ => ready nc nr N) w.
Proof.
  intros Hm Hw. eapply wp_calls; [exact Hm|apply stable_ready|by eapply ready_started|exact Hw|done|done].
Qed.
Lemma weak_calls {A} (m : KO A) (w : KW) :
  calls m -> weak w -> wp m (fun _ => weak) (fun _ => weak) w.
Proof.
  intros Hm Hw. eapply wp_calls; [exact Hm|by apply stable_weak|by apply weak_started|exact Hw|done|done].
Qed.

(** [ready] through a part that may leave the turn weak. *)
Lemma ready_then {A} (m : KO A) nc nr N Q (w : KW) :
  calls m -> ready nc nr N w -> (forall a w', ready nc nr N w' -> Q a w') -> wp m Q (fun _ => weak) w.
Proof.
  intros Hm Hw HQ. eapply wp_mono; [by apply (ready_calls m nc nr N w)|exact HQ|].
  intros e w' Hw'. exact (ready_weak _ _ _ _ Hw').
Qed.

Lemma calm_perform nc nr nc' nr' op (w : KW) :
  calm nc nr w -> asks op = None -> kinv nc' nr' (perform op w) -> calm nc' nr' (perform op w).
Proof. intros [] Ho Hk. split; [done| |done]. by apply run_op_idle. Qed.

(** An operation of the kernel. *)
Lemma op_ready op nc nr nc' nr' N N' (w : KW) :
  (forall w1, ready nc nr N w1 -> kinv nc' nr' (perform op w1)) -> asks op = None ->
  (forall i, i ∈ N' -> i ∈ N /\ opens op <> Some i) -> ready nc nr N w ->
  wp (lifecycle_op op) (fun _ => ready nc' nr' N') (fun _ => ready nc' nr' N') w.
Proof.
  intros Hk Ho HN Hw.
  assert (ready nc nr N (kp_others w)) as Hw1.
  { eapply steps_stable; [apply stable_ready|by eapply steps_others|done]. }
  assert (ready nc' nr' N' (perform op (kp_others w))) as H2.
  { split; [eapply calm_perform; [apply Hw1|done|by apply Hk]|].
    intros i Hi. destruct (HN i Hi) as [Hi' Hop]. apply new_perform; [done|]. by apply Hw1. }
  by apply wp_op.
Qed.

(** Opening an item, perhaps one of the kernel's texts. *)
Lemma open_kinv op i nc nr nc' nr' N (w : KW) :
  ready nc nr N w -> op_fits (coordinator_of w) op -> opens op = Some i ->
  (forall j, gives op = Some j -> ~ kernel_owned turn j) ->
  nc <= nc' -> nr <= nr' -> i <> compaction_item turn automatic ->
  (forall n, nc' <= n -> i <> commentary_item turn n) ->
  (forall n, nr' <= n -> i <> reasoning_item turn n) -> kinv nc' nr' (perform op w).
Proof.
  intros [[Hk _ _] _] Hfit Hop Hg Hc Hr Ha Hnc Hnr.
  apply (kinv_perform options turn Henv nc nr nc' nr' op (kw_slots w) w); try rewrite Hop; try done;
    try apply Hk.
  - intros n Hn Hi%(inj Some). by eapply Hnc.
  - intros n Hn Hi%(inj Some). by eapply Hnr.
  - intros Hs. split; [done|]. by intros Hi%(inj Some).
Qed.

(** ** Texts *)

Lemma parse_item_wp i Q (X : thrown -> KW -> Prop) (w : KW) :
  (forall e, X e w) -> Q i w -> wp (parse_item_id i) Q X w.
Proof. intros HX HQ. unfold parse_item_id. destruct (ItemIdSchema i); [done|apply HX]. Qed.

Lemma require_wp (Q : unit -> KW -> Prop) (w : KW) : weak w -> Q tt w -> wp (require_lifecycle turn) Q (fun _ => weak) w.
Proof.
  intros Hw HQ. unfold require_lifecycle. apply wp_bind, wp_gets.
  destruct (weak_started w Hw) as [-> _]. done.
Qed.

Lemma not_own (N : list string) i (w : KW) : (forall j, j ∈ N -> new_item w j) -> kernel_owned turn i ->
  forall j, j ∈ N -> j ∈ N /\ Some i <> Some j.
Proof. intros HN Hi j Hj. split; [done|]. intros Hij%(inj Some). subst. by destruct (HN j Hj). Qed.

Lemma reasoning_ready nc n N r (w : KW) :
  0 <= n -> ready nc n N w ->
  wp (append_reasoning options turn n r) (fun _ => ready nc (n + 1) N) (fun _ => weak) w.
Proof.
  intros Hn Hw. pose proof (ready_weak _ _ _ _ Hw) as Hweak. unfold append_reasoning.
  destruct r as [r|].
  - apply wp_bind, require_wp; [done|]. apply wp_bind, parse_item_wp; [done|].
    fold (reasoning_item turn n). eapply wp_mono; [eapply (op_ready _ nc n nc (n+1) N N)|done|].
    + intros w1 Hw1. eapply open_kinv; [exact Hw1| |done|done|lia..| | |].
      * apply (ki_reasoning options turn nc n); [apply Hw1|lia].
      * intros He. symmetry in He. by apply compaction_reasoning in He.
      * intros n' _ He. symmetry in He. by apply commentary_reasoning in He.
      * intros n' Hn' He%reasoning_item_inj; lia.
    + done.
    + eapply not_own; [apply Hw|constructor].
    + done.
    + intros e w'. apply ready_weak.
  - destruct Hw as [[[] ? ?] HN]. split; [|done]. split; [|done..]. split; try done.
    intros n' Hn'. apply ki_reasoning. lia.
Qed.

Lemma commentary_ready n nr N c (w : KW) :
  0 <= n -> ready n nr N w ->
  wp (append_commentary options turn n c) (fun _ => ready (n + 1) nr N) (fun _ => weak) w.
Proof.
  intros Hn Hw. pose proof (ready_weak _ _ _ _ Hw) as Hweak. unfold append_commentary.
  destruct (truthy c) as [text|].
  - apply wp_bind, require_wp; [done|]. apply wp_bind, parse_item_wp; [done|].
    fold (commentary_item turn n). eapply wp_mono; [eapply (op_ready _ n nr (n+1) nr N N)|done|].
    + intros w1 Hw1. eapply open_kinv; [exact Hw1| |done|done|lia..| | |].
      * apply (ki_commentary options turn n nr); [apply Hw1|lia].
      * intros He. symmetry in He. by apply compaction_commentary in He.
      * intros n' Hn' He%commentary_item_inj; lia.
      * intros n' _ He. by apply commentary_reasoning in He.
    + done.
    + eapply not_own; [apply Hw|constructor].
    + done.
    + intros e w'. apply ready_weak.
  - destruct Hw as [[[] ? ?] HN]. split; [|done]. split; [|done..]. split; try done.
    intros n' Hn'. apply ki_commentary. lia.
Qed.

(** ** Compaction *)

Lemma wp_finally {A} (m : KO A) fin Q X (w : KW) :
  wp m (fun a w' => Q a (with_slots (fin (kw_slots w')) w'))
       (fun e w' => X e (with_slots (fin (kw_slots w')) w')) w ->
  wp (finally m fin) Q X w.
Proof. unfold wp, finally. by destruct (m w) as [[] w']. Qed.

Lemma ready_quiet nc nr N s (w : KW) :
  quiet (kw_slots w) s -> ready nc nr N w -> ready nc nr N (with_slots s w).
Proof. intros Hq Hw. apply (stable_ready nc nr N w); [|done]. by apply po_slots. Qed.

Lemma ready_compacting nc nr N c (w : KW) :
  ready nc nr N w -> claimed w ->
  wp (compactPreparedTurn options turn c automatic) (fun _ => ready nc nr N) (fun _ => ready nc nr N) w.
Proof.
  intros Hw Hcl. unfold compactPreparedTurn. destruct kp_compact as [m|] eqn:Hm; [|done].
  apply wp_bind, parse_item_wp; [done|]. fold (compaction_item turn automatic).
  set (op := OpRequestCompaction _).
  assert (ready nc nr N (kp_others w) /\ claimed (kp_others w)) as [Hw1 Hcl1].
  { apply (steps_stable options turn (fun w => ready nc nr N w /\ claimed w) w);
      [by apply stable_and; [apply stable_ready|apply stable_claimed]|by eapply steps_others|done]. }
  assert (ready nc nr N (perform op (kp_others w))) as H2.
  { split.
    - eapply calm_perform; [apply Hw1|done|].
      apply (compact_kinv options turn Henv nc nr _ automatic (kw_slots (kp_others w)) (kp_others w));
        try done; try apply Hcl1; try apply Hw1. intros _. apply Hcl1.
    - intros i Hi. apply new_perform; [|by apply Hw1]. cbn. intros He%(inj Some).
      destruct Hw1 as [_ HN]. destruct (HN i Hi) as [_ Hn]. apply Hn. rewrite <- He. constructor. }
  apply wp_bind, wp_op; [|done]. intros _ _. apply ready_calls; [|done].
  apply calls_try; [apply calls_bind|intros e; apply calls_bind; [by apply (calls_compacted options turn _ automatic)|solve_calls]].
  - apply calls_answers. by eapply hp_compact.
  - intros [[c' ref] summary]. solve_calls. by apply (calls_compacted options turn _ automatic).
Qed.

Lemma ready_automatic nc nr N c (w : KW) :
  ready nc nr N w ->
  wp (maybeAutomaticallyCompact options turn c) (fun _ => ready nc nr N) (fun _ => ready nc nr N) w.
Proof.
  intros Hw. unfold maybeAutomaticallyCompact. destruct (ctx_budgetSnapshot c); [|done].
  apply wp_bind, wp_gets. destruct (_ || sl_automatic (kw_slots w)) eqn:Hs; [done|].
  apply orb_false_iff in Hs as [_ Hs]. apply wp_bind. unfold wp at 1. cbn.
  assert (forall s : TurnSlots, sl_automatic s = true -> quiet (set_automatic true (kw_slots w)) s ->
    ready nc nr N (mkKWorld (kw_lifecycle w) s (kw_env w)) /\
    claimed (mkKWorld (kw_lifecycle w) s (kw_env w))) as Hclaim.
  { intros s Hauto Hq. split.
    - apply (ready_quiet nc nr N s w); [|done]. by destruct Hq; split.
    - split; [done|]. apply (ki_automatic options turn nc nr w); [apply Hw|done]. }
  unfold runCompaction. apply wp_bind, wp_gets. cbn. destruct (sl_compacting (kw_slots w)).
  - apply ready_calls; [apply calls_answers, HP|]. by apply Hclaim.
  - apply wp_bind. unfold wp at 1. cbn. apply wp_finally.
    destruct (Hclaim (set_compacting true (set_automatic true (kw_slots w)))) as [H1 H2]; [done..|].
    eapply wp_mono; [by apply (ready_compacting nc nr N)| |]; intros ? w'; apply ready_quiet; by split.
Qed.

(** The context of a model step. *)
Lemma next_context_ready nc nr N c r (w : KW) :
  ready nc nr N w ->
  wp (next_context options turn c r) (fun _ => ready nc nr N) (fun _ => weak) w.
Proof.
  intros Hw. unfold next_context. apply wp_bind, (ready_then _ nc nr N); [by eapply calls_active|done|].
  intros c1 w1 Hw1. apply wp_bind, wp_gets.
  apply wp_bind, (ready_then _ nc nr N); [|done|].
  { destruct (sl_compacted _); [apply calls_ret|by apply calls_assemble]. }
  intros c2 w2 Hw2. apply wp_bind, (ready_then _ nc nr N); [auto with legion|done|].
  intros [] w3 Hw3. apply wp_bind. eapply wp_mono; [by apply (ready_automatic nc nr N)|done|].
  intros e w4. apply ready_weak.
Qed.
End Turn.
