(* ===== verification/KernelApprovals.v ===== *)
(** Waiting for an approval: the request, the race for its answer and its
    settlement, whoever decides it.  When [requestAndWait] returns, or throws
    because the user refused, the turn is calm again. *)
From S2P Require Import Prelude Js Zod Protocol LifecycleEvents EventStore Coordinator Projector ProjectorFacts Sink Simulation CoordinatorProps Restore RestoreFacts Liveness RestoreProps Footprint Closable Permission Workspace KernelErrors WorkerEvents Kernel RuntimeKernel KernelSteps KernelCalls KernelTurn.
#[local] Open Scope Z_scope.

Section Approvals.
Context `{!JsRuntime} {K E : Type} `{!LifecycleSink K, !LifecycleSinkLaws K, !SinkAvailable K, !KernelPorts K E}.
Variable options : RuntimeLifecycleCoordinatorOptions.
Variable turn : Turn.
Hypothesis Henv : env_valid options.
Context `{HP : !HonestPorts (K:=K) (E:=E) options turn}.

Notation KW := (KWorld K E).
Notation KO := (KM K E).
#[local] Notation does := (KernelCalls.does options turn).
#[local] Notation perform := (KernelSteps.perform options).
#[local] Notation steps := (KernelSteps.steps options turn).
#[local] Notation stable := (KernelSteps.stable options turn).
#[local] Notation kinv := (KernelSteps.kinv options turn).
#[local] Notation calm := (KernelSteps.calm options turn).
#[local] Notation asking := (KernelSteps.asking options turn).
#[local] Notation weak := (KernelSteps.weak options turn).
#[local] Notation new_item := (KernelSteps.new_item turn).
#[local] Notation lifecycle_op := (Kernel.lifecycle_op options).

(** What the entry of the one approval says of the turn. *)
Definition entry_ok (R : KW -> Prop) (a : string) (w : KW) : Prop :=
  exists p, sl_approvals (kw_slots w) = [(a, p)] /\
    (pa_settlement p = settled (Ok tt) -> R w) /\
    (forall e, pa_settlement p = settled (Err e) -> is_lifecycle e = true).

Lemma only_entry {V} a b (p q : V) d :
  d = [(a, p)] -> dget b d = Some q -> b = a /\ q = p.
Proof. intros ->. cbn. case_decide; [|done]. by intros [= ->]. Qed.

Lemma outcome_lifecycle op (w : KW) e : outcome_of options op w = Err e -> is_lifecycle e = true.
Proof. unfold outcome_of. destruct (fst _); [done|]. by intros [= <-]. Qed.

(** The entry stays, and stays true, if a decision that returns makes [R] true. *)
Lemma entry_step (R : KW -> Prop) a w w' :
  stable R ->
  (forall st payload s, outcome_of options (OpDecideApproval a st payload) w = Ok tt ->
     st <> ap_pending -> R (with_slots s (perform (OpDecideApproval a st payload) w))) ->
  port_step options turn w w' -> entry_ok R a w -> entry_ok R a w'.
Proof.
  intros HR Hdec Hstep (p & Hd & Hok & Herr). pose proof (HR _ _ Hstep) as HRw.
  destruct (Hstep) as [s env []|op _ Hop|c s _ Hp Hf|c m _ Hp|b q q' Hq Hans|b q q' st pl Hst Hq Hne Hq'].
  - exists p. cbn. rewrite q_approvals. naive_solver.
  - exists p. split_and!; auto.
  - exists p. destruct Hp as [[_ ->]|(_ & _ & ->)]; cbn; split_and!; auto.
  - exists p. split_and!; auto.
  - destruct (only_entry _ _ _ _ _ Hd Hq) as [-> ->]. exists q'.
    split; [cbn; rewrite Hd; cbn; by rewrite decide_True|].
    destruct Hans as [->|[_ ->]]; [|done]. split; [|done]. intros. by apply HRw, Hok.
  - destruct (only_entry _ _ _ _ _ Hd Hq) as [-> ->]. exists q'.
    split; [cbn; rewrite Hd; cbn; by rewrite decide_True|]. rewrite Hq'. split.
    + intros [= Ho]. by apply Hdec.
    + intros e [= He]. by eapply outcome_lifecycle.
Qed.

(** ** Before the request is recorded *)

(** The approval has its entry, and nothing waits for it yet. *)
Record announced (nc nr : Z) (a : string) (w : KW) : Prop := {
  an_inv : kinv nc nr w;
  an_idle : idle (coordinator_of w);
  an_entry : entry_ok (fun w : KW => over (coordinator_of w)) a w;
}.

Lemma stable_over : stable (fun w : KW => over (coordinator_of w)).
Proof.
  intros w w' [Hl|op _ _ Hl]%(port_step_shape options turn); unfold coordinator_of; rewrite Hl; [done|].
  apply run_op_over.
Qed.

Lemma decide_announced a st payload (w : KW) :
  good (K:=K) options (kw_lifecycle w) -> idle (coordinator_of w) ->
  outcome_of options (OpDecideApproval a st payload) w = Ok tt -> over (coordinator_of w).
Proof.
  intros Hg [Ho|[_ Hn]] Hok; [done|]. exfalso.
  pose proof (decide_pending options a st payload (kw_lifecycle w) Hg) as Hp.
  unfold wp, outcome_of in *. destruct (run_op _ _ _) as [[] ?]; [|done]. by apply Hn in Hp.
Qed.

Lemma stable_announced nc nr a : stable (announced nc nr a).
Proof.
  intros w w' Hstep []. split; [by eapply stable_kinv|by eapply stable_idle|].
  eapply (entry_step (fun w : KW => over (coordinator_of w))); [apply stable_over| |exact Hstep|done].
  intros st pl s Hok _. apply run_op_over. destruct an_inv0. by eapply decide_announced.
Qed.

Lemma stable_asking nc nr a : stable (asking nc nr a : KW -> Prop).
Proof.
  intros w w' Hstep []. split; [by eapply stable_kinv|by eapply stable_waiting|].
  eapply (entry_step (fun w : KW => idle (coordinator_of w))); [by apply stable_idle| |exact Hstep|done].
  intros st pl s Hok Hst. unfold outcome_of in Hok.
  pose proof (decide_idle options Henv a st pl (kw_lifecycle w)) as Hd. unfold wp in Hd.
  unfold coordinator_of, with_slots, KernelSteps.perform. cbn [kw_lifecycle].
  destruct (run_op options (OpDecideApproval a st pl) (kw_lifecycle w)) as [[] l]; [|done].
  destruct as_inv. by apply Hd.
Qed.

(** ** Waiting *)

Lemma asking_started nc nr a (w : KW) : asking nc nr a w -> started w.
Proof. by intros [[]]. Qed.

Lemma asking_does {A} (m : KO A) Q0 X0 nc nr a (Q : A -> KW -> Prop) (X : thrown -> KW -> Prop) w :
  does m Q0 X0 -> asking nc nr a w ->
  (forall r w', asking nc nr a w' -> Q0 r w' -> Q r w') ->
  (forall e w', asking nc nr a w' -> X0 e -> X e w') -> wp m Q X w.
Proof.
  intros Hm Hw HQ HX. eapply wp_does; [exact Hm|apply stable_asking|by eapply asking_started|exact Hw|auto..].
Qed.

(** [pending.settlement = v] *)
Lemma set_settlement_asking nc nr a v (w : KW) Q X :
  asking nc nr a w -> (v = settled (Ok tt) -> idle (coordinator_of w)) ->
  (forall e, v = settled (Err e) -> is_lifecycle e = true) ->
  (forall w', asking nc nr a w' -> coordinator_of w' = coordinator_of w -> Q tt w') ->
  wp (set_settlement a v) Q X w.
Proof.
  intros [Hk Hw (p & Hd & _)] Hv He HQ. unfold wp, set_settlement. cbn. apply HQ; [|done].
  rewrite Hd. cbn. rewrite !decide_True by done. cbn.
  split; [by apply kinv_approvals|done|]. eexists. split; [done|]. by split.
Qed.

(** The decision the kernel itself sends. *)
Lemma decide_asking nc nr a st payload (w : KW) :
  asking nc nr a w -> st <> ap_pending ->
  wp (lifecycle_op (OpDecideApproval a st payload))
    (fun _ w' => asking nc nr a w' /\ idle (coordinator_of w'))
    (fun e w' => asking nc nr a w' /\ is_lifecycle e = true) w.
Proof.
  intros Hw Hst. assert (asking nc nr a (kp_others w)) as Hw1.
  { eapply steps_stable; [apply stable_asking|by eapply steps_others|done]. }
  assert (asking nc nr a (perform (OpDecideApproval a st payload) (kp_others w))) as H2.
  { apply (stable_asking nc nr a (kp_others w)); [|done]. apply po_op; [by eapply asking_started|by split]. }
  apply wp_op; intros; split; try done.
  destruct Hw1 as [[] Hwait _].
  pose proof (decide_idle options Henv a st payload (kw_lifecycle (kp_others w))) as Hd. unfold wp in Hd.
  unfold coordinator_of, KernelSteps.perform. cbn [kw_lifecycle]. rewrite H0 in Hd |- *. by apply Hd.
Qed.

Lemma settle_asking nc nr a r (w : KW) :
  asking nc nr a w ->
  wp (settle_approval options a r) (fun _ w' => asking nc nr a w' /\ idle (coordinator_of w'))
    (fun e w' => asking nc nr a w' /\ is_denied e = false) w.
Proof.
  intros Hw. destruct (as_pending _ _ _ _ _ _ Hw) as (p & Hd & Hok & Herr). unfold settle_approval.
  apply wp_bind, wp_gets. rewrite Hd. cbn [dget]. rewrite decide_True by done.
  apply wp_bind. unfold throw_if at 1. destruct (_ && _); [done|]. apply wp_ret, wp_bind.
  unfold throw_if at 1. destruct (_ && _); [done|]. apply wp_ret.
  destruct (pa_settlement p) as [| |o] eqn:Hp.
  - apply wp_bind. apply (set_settlement_asking nc nr); [done..|]. intros w1 Hw1 _.
    assert (Hwp := decide_asking nc nr a (if ar_timedOut r then ap_timed_out else decision_status (ar_decision r))
      (decided_payload r) w1 Hw1 ltac:(destruct (ar_timedOut r), (ar_decision r); done)).
    unfold wp, keeping in *. destruct (lifecycle_op _ w1) as [[[]|e] w2]; destruct Hwp as [Hw2 Hi].
    + apply (set_settlement_asking nc nr a (settled (Ok tt)) w2 (fun _ w' =>
        asking nc nr a w' /\ idle (coordinator_of w')) (fun _ _ => False)); try done.
      intros w3 Hw3 Hc. by rewrite Hc.
    + pose proof (set_settlement_asking nc nr a (settled (Err e)) w2 (fun _ w' =>
        asking nc nr a w' /\ is_denied e = false) (fun _ _ => False)) as Hs.
      unfold wp in Hs. cbn in Hs |- *. apply Hs; try done; [by intros e' [= <-]|].
      intros w3 Hw3 _. split; [done|]. by destruct e.
  - eapply asking_does; [apply obliges_does, HP|exact Hw|..]; cbn.
    + intros [] w' Hw' Hs. split; [done|]. destruct (as_pending _ _ _ _ _ _ Hw') as (p' & Hd' & Hok' & _).
      apply Hok', Hs. rewrite Hd'. cbn. by rewrite decide_True.
    + intros e w' Hw' He. split; [done|]. by destruct e.
  - destruct o as [[]|e]; [by split; [|apply Hok]|]. split; [done|]. specialize (Herr e eq_refl). by destruct e.
Qed.

Lemma race_asking nc nr a q (w : KW) :
  asking nc nr a w ->
  wp (race_resolution q) (fun _ => asking nc nr a) (fun e w' => asking nc nr a w' /\ is_denied e = false) w.
Proof.
  intros Hw. unfold race_resolution. apply wp_bind, wp_gets, wp_bind.
  eapply asking_does; [apply obliges_does, HP|exact Hw| |done]. cbn. intros answer w' Hw' _.
  destruct (is_some _); [done|]. destruct answer; [done|]. apply wp_bind, wp_gets.
  by destruct (_ ≫= _).
Qed.

(** ** The request *)

Lemma request_kinv nc nr parent a i payload (w : KW) :
  kinv nc nr w -> idle (coordinator_of w) -> new_item w i ->
  kinv nc nr (perform (OpRequestApproval parent a i payload) w).
Proof.
  intros Hk Hi [Hf Hn].
  apply (kinv_perform options turn Henv nc nr nc nr _ (kw_slots w) w); try done; try apply Hk.
  - split; [done|]. destruct Hi as [?|[? _]]; auto.
  - by intros j [= <-].
  - intros n _ Hj%(inj Some). apply Hn. rewrite Hj. constructor.
  - intros n _ Hj%(inj Some). apply Hn. rewrite Hj. constructor.
  - intros Hs. split; [done|]. intros Hj%(inj Some). apply Hn. rewrite Hj. constructor.
Qed.

Lemma request_asking nc nr parent a i payload (w : KW) :
  announced nc nr a w -> new_item w i ->
  wp (lifecycle_op (OpRequestApproval parent a i payload)) (fun _ => asking nc nr a)
    (fun e w' => asking nc nr a w' /\ is_denied e = false) w.
Proof.
  intros Hw Hi.
  assert (announced nc nr a (kp_others w) /\ new_item (kp_others w) i) as [[Hk Hid (p & Hd & Hok & He)] Hi1].
  { apply (steps_stable options turn (fun w => announced nc nr a w /\ new_item w i) w);
      [by apply stable_and; [apply stable_announced|apply stable_new]|by eapply steps_others|done]. }
  assert (asking nc nr a (perform (OpRequestApproval parent a i payload) (kp_others w))) as H2.
  { split; [by apply request_kinv| |].
    - apply run_op_waiting; [by intros b [= <-]|by apply idle_waiting].
    - exists p. split_and!; [done| |done]. intros Hp. left. by apply run_op_over, Hok. }
  by apply wp_op.
Qed.

(** What a failed wait leaves: a refusal leaves the turn calm. *)
Definition denied_ok (nc nr : Z) (e : thrown) (w : KW) : Prop :=
  weak w /\ (is_denied e = true -> calm nc nr w).

Lemma calm_denied nc nr e w : calm nc nr w -> denied_ok nc nr e w.
Proof. intros Hc. split; [by eapply calm_weak|done]. Qed.

(** The entry is removed at the end. *)
Lemma asking_removed nc nr a (w : KW) :
  asking nc nr a w ->
  let w' := with_slots (set_approvals (ddel a (sl_approvals (kw_slots w))) (kw_slots w)) w in
  weak w' /\ (idle (coordinator_of w) -> calm nc nr w').
Proof.
  intros [Hk _ (p & Hd & _)] w'. assert (kinv nc nr w') by by apply kinv_approvals.
  split; [by exists nc, nr|]. intros Hi. split; [done..|]. cbn. rewrite Hd. cbn. by rewrite decide_True.
Qed.

Lemma calm_announced nc nr a q (w : KW) :
  calm nc nr w ->
  announced nc nr a (with_slots (set_approvals (dset a (mkPending q None absent)
    (sl_approvals (kw_slots w))) (kw_slots w)) w).
Proof.
  intros [Hk Hi Hd]. split; [by apply kinv_approvals|done|]. eexists. cbn. rewrite Hd. by split.
Qed.

Lemma request_calm nc nr parent q (w : KW) :
  calm nc nr w -> (forall i, aq_itemId q = Some i -> i <> parent -> new_item w i) ->
  wp (requestAndWait options parent q) (fun _ => calm nc nr) (denied_ok nc nr) w.
Proof.
  intros Hw Hq. unfold requestAndWait. destruct (aq_itemId q) as [i|]; [|by apply calm_denied].
  destruct (decide (i = parent)) as [|Hne]; [by apply calm_denied|].
  apply wp_bind. unfold createPending. apply wp_bind, wp_gets. rewrite (ca_approvals _ _ _ _ _ Hw). cbn [dget is_some].
  unfold throw_if at 1. apply wp_bind, wp_ret. unfold wp at 1. cbn.
  apply (calm_announced nc nr (aq_approvalId q) q) in Hw as Ha.
  rewrite (ca_approvals _ _ _ _ _ Hw). rewrite (ca_approvals _ _ _ _ _ Hw) in Ha.
  apply wp_finally. set (a := aq_approvalId q) in *.
  apply (wp_mono _ (fun _ w' => asking nc nr a w' /\ idle (coordinator_of w')) _
    (fun e w' => asking nc nr a w' /\ (is_denied e = true -> idle (coordinator_of w')))).
  - apply wp_bind. eapply wp_mono; [apply (request_asking nc nr); [exact Ha|destruct (Hq i eq_refl Hne); by split]| |].
    2:{ intros e w' [? He]. split; [done|]. by rewrite He. }
    intros ? w1 Hw1. apply wp_bind. eapply wp_mono; [by apply (race_asking nc nr a)| |].
    2:{ intros e w' [? He]. split; [done|]. by rewrite He. }
    intros r w2 Hw2. apply wp_bind. eapply wp_mono; [by apply (settle_asking nc nr a)| |].
    2:{ intros e w' [? He]. split; [done|]. by rewrite He. }
    intros ? w3 [Hw3 Hi]. destruct (ar_timedOut r); [done|]. by destruct (ar_decision r).
  - intros r w' [Hw' Hi]. by apply asking_removed.
  - intros e w' [Hw' Hi]. split; [by apply (asking_removed nc nr)|]. intros He. by apply asking_removed, Hi.
Qed.
End Approvals.
