(* ===== verification/KernelTools.v ===== *)
(** Tool calls and the loop of model steps: each round leaves the turn calm, with the
    next numbers of the kernel's own items, or throws and leaves it weakly
    consistent. *)
From S2P Require Import Prelude Js Zod Protocol LifecycleEvents EventStore Coordinator Projector ProjectorFacts Sink Simulation CoordinatorProps Restore RestoreFacts Liveness RestoreProps Footprint Closable Permission Workspace KernelErrors WorkerEvents Kernel RuntimeKernel KernelSteps KernelCalls KernelTurn KernelApprovals.
#[local] Open Scope Z_scope.

Section Tools.
Context `{!JsRuntime} {K E : Type} `{!LifecycleSink K, !LifecycleSinkLaws K, !SinkAvailable K, !KernelPorts K E}.
Variable options : RuntimeLifecycleCoordinatorOptions.
Variable run : Run.
Variable turn : Turn.
Variable maxToolCalls : Z.
Hypothesis Henv : env_valid options.
Context `{HP : !HonestPorts (K:=K) (E:=E) options turn}.

Notation KW := (KWorld K E).
Notation KO := (KM K E).
#[local] Notation calls := (KernelCalls.calls options turn).
#[local] Notation does := (KernelCalls.does options turn).
#[local] Notation calm := (KernelSteps.calm options turn).
#[local] Notation weak := (KernelSteps.weak options turn).
#[local] Notation new_item := (KernelSteps.new_item turn).
#[local] Notation ready := (KernelTurn.ready options turn).
#[local] Notation denied_ok := (KernelApprovals.denied_ok options turn).
#[local] Notation lifecycle_op := (Kernel.lifecycle_op options).

Lemma calm_started nc nr (w : KW) : calm nc nr w -> started w.
Proof. by intros [[]]. Qed.

Lemma calm_does {A} (m : KO A) Q0 X0 nc nr (Q : A -> KW -> Prop) w :
  does m Q0 X0 -> calm nc nr w -> (forall a w', calm nc nr w' -> Q0 a w' -> Q a w') ->
  wp m Q (denied_ok nc nr) w.
Proof.
  intros Hm Hw HQ. eapply wp_does; [exact Hm|apply (stable_calm options turn Henv)|by eapply calm_started|exact Hw|auto|].
  intros. by apply calm_denied.
Qed.

Lemma calm_calls {A} (m : KO A) nc nr (Q : A -> KW -> Prop) w :
  calls m -> calm nc nr w -> (forall a w', calm nc nr w' -> Q a w') -> wp m Q (denied_ok nc nr) w.
Proof. intros Hm Hw HQ. eapply calm_does; [exact Hm|exact Hw|auto]. Qed.

(** ** The worker *)

Lemma request_new_calm nc nr parent q (w : KW) :
  calm nc nr w -> new_request turn w q ->
  wp (requestAndWait options parent q) (fun _ => calm nc nr) (denied_ok nc nr) w.
Proof. intros Hw Hq. apply (request_calm options turn Henv); auto. Qed.

Lemma retry_calm nc nr t a (w : KW) :
  calm nc nr w -> wp (resolveApprovedRetry t a) (fun _ => calm nc nr) (denied_ok nc nr) w.
Proof.
  intros Hw. unfold resolveApprovedRetry. apply wp_bind.
  eapply calm_does; [apply obliges_does, HP|exact Hw|]. cbn. intros r w1 Hw1 _.
  by destruct r; try apply calm_denied.
Qed.

Lemma completion_calm nc nr i t a (w : KW) :
  calm nc nr w -> wp (executeToCompletion options i t a) (fun _ => calm nc nr) (denied_ok nc nr) w.
Proof.
  intros Hw. unfold executeToCompletion. apply wp_bind.
  eapply calm_does; [apply obliges_does, HP|exact Hw|]. cbn. intros r w1 Hw1 Hr.
  destruct r as [| | |q]; try done; try by apply calm_denied.
  destruct a; [by apply calm_denied|]. apply wp_bind.
  eapply wp_mono; [by apply request_new_calm| |done]. intros b w2 Hw2. by apply retry_calm.
Qed.

(** The item of the approval the policy asks for. *)
Definition asked_item (parent : string) (r : ToolAuthorizationResult) : list string :=
  match r with
  | ta_approval_required _ q =>
      match aq_itemId q with Some i => if decide (i = parent) then [] else [i] | None => [] end
  | _ => []
  end.

Lemma asked_approval nc nr i r (w : KW) :
  ready nc nr (asked_item i r) w ->
  wp (match r with
      | ta_approval_required _ request => a ← requestAndWait options i request; mret (Some a)
      | _ => mret None
      end) (fun _ => calm nc nr) (denied_ok nc nr) w.
Proof.
  intros [Hw HN]. destruct r as [|t q|]; [done| |done]. apply wp_bind.
  eapply wp_mono; [apply (request_calm options turn Henv nc nr i q); [done|]|done|done].
  intros j Hj Hne. apply HN. cbn. rewrite Hj, decide_False by done. by apply list_elem_of_singleton.
Qed.

Lemma authorized_calm nc nr i r (w : KW) :
  ready nc nr (asked_item i r) w ->
  wp (executeAuthorizedTool options run i r) (fun _ => calm nc nr) (denied_ok nc nr) w.
Proof.
  intros Hw. pose proof (asked_approval nc nr i r w Hw) as Ha. unfold executeAuthorizedTool.
  destruct r as [t|t q|]; [| |by apply calm_denied; destruct Hw].
  all: apply wp_bind; eapply wp_mono; [exact Ha| |done]; intros a w1 Hw1.
  all: apply wp_bind; eapply wp_mono; [by apply (completion_calm nc nr)| |done]; intros o w2 Hw2.
  all: destruct o as [[output events]|[failure []]]; [| |by apply calm_denied].
  all: eapply calm_calls; [|exact Hw2|done].
  all: unfold aborted, lifecycle_isTerminal; solve_calls; by apply calls_events.
Qed.

Lemma execute_tool_calm nc nr i t (w : KW) :
  ready nc nr [i] w -> wp (execute_tool options run i t) (fun _ => calm nc nr) (fun _ => weak) w.
Proof.
  intros Hw. unfold execute_tool. apply wp_bind.
  eapply wp_does; [apply obliges_does, HP|by apply (stable_ready options turn Henv nc nr [i])|
    by eapply ready_started|exact Hw| |].
  2:{ intros e w' _ Hw' _. exact (ready_weak _ _ _ _ _ _ Hw'). }
  cbn. intros r w1 _ [Hw1 HN1] Hr.
  assert (ready nc nr (i :: asked_item i r) w1) as Hw1'.
  { split; [done|]. intros j [->|Hj]%elem_of_cons; [by apply HN1, list_elem_of_here|].
    destruct r as [|t' q|]; cbn in Hj; try (by apply elem_of_nil in Hj).
    destruct (aq_itemId q) as [j'|] eqn:Hq; [|by apply elem_of_nil in Hj].
    case_decide; [by apply elem_of_nil in Hj|]. apply list_elem_of_singleton in Hj as ->. by apply Hr. }
  apply wp_bind. eapply wp_mono; [eapply (op_ready options turn Henv _ nc nr nc nr _ (asked_item i r))| |].
  - intros w2 Hw2. eapply (open_kinv options turn Henv); [exact Hw2| |done| |done|done|..].
    + by apply Hw2, list_elem_of_here.
    + intros j [= <-]. by apply Hw2, list_elem_of_here.
    + intros ->. destruct Hw2 as [_ HN]. eapply HN; [apply list_elem_of_here|constructor].
    + intros n _ ->. destruct Hw2 as [_ HN]. eapply HN; [apply list_elem_of_here|constructor].
    + intros n _ ->. destruct Hw2 as [_ HN]. eapply HN; [apply list_elem_of_here|constructor].
  - done.
  - intros j Hj. split; [by apply list_elem_of_further|]. intros [= ->].
    destruct r as [|t' q|]; cbn in Hj; try (by apply elem_of_nil in Hj).
    destruct (aq_itemId q); [|by apply elem_of_nil in Hj].
    case_decide; [by apply elem_of_nil in Hj|]. by apply list_elem_of_singleton in Hj.
  - exact Hw1'.
  - intros ? w2 Hw2. apply wp_try_catch. eapply wp_mono; [exact (authorized_calm nc nr i r w2 Hw2)|done|].
    intros e w3 [Hw3 Hd].
    destruct (is_denied e) eqn:He.
    + destruct e as [[]| | |]; try done. apply wp_bind.
      eapply wp_mono; [eapply (calm_calls _ nc nr (fun _ => calm nc nr)); [|by apply Hd|done]|done|].
      * auto with legion.
      * by intros e w4 [].
    + assert (wp (_ ← lifecycle_op (OpFailTool (tc_toolCallId t) (failure_of e)); throw (A:=ToolResult) e)
        (fun _ => calm nc nr) (fun _ => weak) w3) as Hfail.
      { apply wp_bind. eapply wp_mono; [apply (weak_calls options turn Henv); [auto with legion|done]| |done].
        by intros ? w4 Hw4. }
      destruct e as [[]| | |]; try done; exact Hfail.
  - intros e w2 Hw2. exact (ready_weak _ _ _ _ _ _ Hw2).
Qed.

(** ** The loop *)

#[local] Notation weak_of Hw := (ready_weak options turn _ _ _ _ Hw).

Lemma ready_drop nc nr N (w : KW) : ready nc nr N w -> ready nc nr [] w.
Proof. intros [Hc _]. by apply ready_nil. Qed.

Lemma loop_tool_ready ws n i content commentary reasoning (w : KW) :
  0 <= n -> ready n n [i] w ->
  wp (loop_tool options run turn maxToolCalls ws n i content commentary reasoning)
    (fun _ => ready (n + 1) (n + 1) []) (fun _ => weak) w.
Proof.
  intros Hn Hw. unfold loop_tool. apply wp_bind. unfold throw_if.
  destruct (n =? maxToolCalls); [by exact (weak_of Hw)|]. apply wp_ret, wp_bind.
  eapply wp_mono; [by apply (commentary_ready options turn Henv n n [i])| |done]. intros ? w1 Hw1.
  apply wp_bind. eapply wp_mono; [by apply (reasoning_ready options turn Henv (n + 1) n [i])| |done]. intros ? w2 Hw2.
  destruct ws; [|exact (weak_of Hw2)].
  eapply wp_mono; [by apply (execute_tool_calm (n + 1) (n + 1))| |done]. intros ? w3. apply ready_nil.
Qed.

Lemma record_usage_ready c u nc nr N (w : KW) :
  ready nc nr N w -> wp (record_usage options turn c u) (fun _ => ready nc nr N) (fun _ => weak) w.
Proof. intros Hw. eapply (ready_then options turn Henv); [by apply calls_record_usage|exact Hw|done]. Qed.

(** What the loop returns: the item of the final message is still to open. *)
Definition loop_post (r : option LoopResult) (w : KW) : Prop :=
  match r with
  | Some l => exists nc nr, ready nc nr [lr_finalItemId l] w
  | None => weak w
  end.

Lemma executeLoop_ready fuel ws ctx n results (w : KW) :
  0 <= n -> ready n n [] w ->
  wp (executeLoop options run turn maxToolCalls fuel ws ctx n results) loop_post (fun _ => weak) w.
Proof.
  revert ctx n results w. induction fuel as [|fuel IH]; intros ctx n results w Hn Hw; [exact (weak_of Hw)|].
  cbn [executeLoop]. destruct (maxToolCalls <? n); [exact (weak_of Hw)|].
  apply wp_bind. eapply wp_mono; [by apply (next_context_ready options turn Henv n n [])| |done].
  intros c w1 Hw1. apply wp_bind.
  eapply wp_does; [by apply does_generate|by apply (stable_ready options turn Henv n n [])|
    exact (ready_started options turn _ _ _ _ Hw1)|exact Hw1| |intros e w2 _ Hw2 _; exact (weak_of Hw2)].
  intros step w2 _ [Hc2 _] Hstep. destruct step as [i output reasoning usage|i content commentary reasoning usage].
  all: assert (ready n n [i] w2) as Hw2 by
    (split; [done|]; intros j Hj; by apply list_elem_of_singleton in Hj as ->).
  all: apply wp_bind; eapply wp_mono; [by apply (record_usage_ready c usage n n [i])| |done];
    intros ? w3 Hw3; apply wp_bind.
  - eapply (ready_then options turn Henv); [by apply calls_reserve|exact Hw3|]. intros [] w4 Hw4.
    + apply wp_bind. eapply wp_mono; [by apply (reasoning_ready options turn Henv n n [i])| |done].
      intros ? w5 Hw5. by exists n, (n + 1).
    + apply wp_bind. eapply (ready_then options turn Henv); [by apply calls_flush|exact Hw4|].
      intros [] w5 Hw5; [|exact (weak_of Hw5)]. apply IH; [done|]. exact (ready_drop _ _ _ _ Hw5).
  - eapply wp_mono; [by apply (loop_tool_ready ws n i)| |done]. intros result w4 Hw4. apply IH; [lia|done].
Qed.
End Tools.
