(* ===== verification/KernelBound.v ===== *)
(** What the kernel's loop has the worker execute: a log of the executions
    ([ToolLog]) that every call of the loop leaves alone but the execution of a tool,
    and the executions of a tool call ([tool_round]). *)
From S2P Require Import Prelude Js Zod Protocol LifecycleEvents Coordinator Permission Workspace KernelErrors WorkerEvents Kernel RuntimeKernel.
#[local] Open Scope Z_scope.

(** A tool call handed to the worker, with the approval it comes with *)
Definition Execution : Type := ToolCallItemContent * option ApprovalResolution.

(** The executions of one tool call of the model: none when it was not authorised,
    one, or a second one of the same call with the approval the first has asked for. *)
Definition tool_round (l : list Execution) : Prop :=
  match l with
  | [] | [_] => True
  | [(c, None); (c', Some _)] => c' = c
  | _ => False
  end.

Lemma tool_round_one e : tool_round [e].
Proof. by destruct e as [c [a|]]. Qed.

Section Executions.
Context `{!JsRuntime} {K E : Type} `{!LifecycleSink K, !KernelPorts K E}.
Variable options : RuntimeLifecycleCoordinatorOptions.
Variable run : Run.
Variable turn : Turn.
Variable maxToolCalls : Z.
Variable executed : E -> list Execution.

Notation KW := (KWorld K E).
Notation KO := (KM K E).
Notation log_of w := (executed (kw_env w)).
#[local] Notation lifecycle_op := (Kernel.lifecycle_op options).

(** A call that has no tool executed *)
Definition silent {A} (m : KO A) : Prop := forall l, keeps (fun w => log_of w = l) m.

(** The ports keep a log of the executions: [executeTool] adds its own, and no other
    port of the loop, nor what the other callers do meanwhile, has a tool executed. *)
Class ToolLog : Prop := {
  tl_tool c a (w : KW) : log_of (snd (kp_executeTool c a w)) = log_of w ++ [(c, a)];
  tl_others (w : KW) : log_of (kp_others w) = log_of w;
  tl_assemble results : silent (kp_assemble results);
  tl_compact compact mode context : kp_compact = Some compact -> silent (compact mode context);
  tl_compaction : silent kp_compaction;
  tl_settlement approvalId : silent (kp_settlement approvalId);
  tl_generate context results : silent (kp_generateNext context results);
  tl_flush flush : kp_flushThreadInputs = Some flush -> silent flush;
  tl_authorize itemId c : silent (kp_authorize itemId c);
  tl_wait request : silent (kp_waitForDecision request);
}.
Context `{HL : !ToolLog}.

(** ** Calls that execute nothing *)

Lemma silent_ret {A} (a : A) : silent (mret a).
Proof. intros l. apply keeps_ret. Qed.
Lemma silent_throw {A} e : silent (throw (A:=A) e).
Proof. intros l. apply keeps_throw. Qed.
Lemma silent_gets {A} (f : KW -> A) : silent (gets f).
Proof. intros l. apply keeps_gets. Qed.
Lemma silent_lift {A} (r : res thrown A) : silent (lift r).
Proof. intros l. apply keeps_lift. Qed.
Lemma silent_throw_if b e : silent (throw_if b e).
Proof. intros l. apply keeps_throw_if. Qed.
Lemma silent_bind {A B} (m : KO A) (f : A -> KO B) : silent m -> (forall a, silent (f a)) -> silent (m ≫= f).
Proof. intros Hm Hf l. apply keeps_bind; [apply Hm|intros a; apply Hf]. Qed.
Lemma silent_catch {A} (m : KO A) (h : thrown -> KO A) : silent m -> (forall e, silent (h e)) -> silent (try_catch m h).
Proof. intros Hm Hh l. apply keeps_try_catch; [apply Hm|intros e; apply Hh]. Qed.
Lemma silent_for_of {A} (xs : list A) (f : A -> KO unit) : (forall x, silent (f x)) -> silent (for_of xs f).
Proof. intros Hf l. apply keeps_for_of. intros x. apply Hf. Qed.
Lemma silent_upd_slots f : silent (upd_slots f).
Proof. intros l w Hw. exact Hw. Qed.
Lemma silent_finally {A} (m : KO A) fin : silent m -> silent (finally m fin).
Proof. intros Hm l w Hw. specialize (Hm l w Hw). unfold finally. by destruct (m w) as [r w']. Qed.
Lemma silent_keeping {A} (m : KO A) keep : silent m -> (forall r, silent (keep r)) -> silent (keeping m keep).
Proof.
  intros Hm Hk l w Hw. specialize (Hm l w Hw). unfold keeping. destruct (m w) as [r w']. by apply (Hk r).
Qed.
Lemma silent_lc {A} (m : KW -> M (K:=K) A) : silent (lc m).
Proof.
  intros l w Hw. unfold lc. rewrite <- Hw, <- (tl_others w).
  by destruct (m (kp_others w) (kw_lifecycle (kp_others w))) as [[] l'].
Qed.
Lemma silent_op op : silent (lifecycle_op op).
Proof. apply silent_lc. Qed.

Ltac silence :=
  repeat match goal with
  | |- silent (_ ≫= _) => apply silent_bind; [|intros ?]
  | |- silent (try_catch _ _) => apply silent_catch; [|intros ?]
  | |- silent (for_of _ _) => apply silent_for_of; intros ?
  | |- silent (finally _ _) => apply silent_finally
  | |- silent (keeping _ _) => apply silent_keeping; [|intros ?]
  | |- silent (mret _) => apply silent_ret
  | |- silent (throw _) => apply silent_throw
  | |- silent (throw_if _ _) => apply silent_throw_if
  | |- silent (gets _) => apply silent_gets
  | |- silent (slots _) => apply silent_gets
  | |- silent aborted => apply silent_gets
  | |- silent lifecycle_isTerminal => apply silent_gets
  | |- silent (active_context _) => apply silent_gets
  | |- silent (lift _) => apply silent_lift
  | |- silent (upd_slots _) => apply silent_upd_slots
  | |- silent (Kernel.lifecycle_op _ _) => apply silent_op
  | |- silent (lc _) => apply silent_lc
  | |- silent (match ?x with _ => _ end) => destruct x eqn:?
  | |- silent _ => solve [eauto using tl_assemble, tl_compact, tl_compaction, tl_settlement, tl_generate, tl_flush,
                            tl_authorize, tl_wait]
  end.

Lemma silent_require : silent (require_lifecycle turn).
Proof. unfold require_lifecycle. silence. Qed.
Lemma silent_assembleContext results : silent (assembleContext options turn results).
Proof. unfold assembleContext. pose proof silent_require. silence. Qed.
Lemma silent_item s : silent (parse_item_id s).
Proof. unfold parse_item_id. silence. Qed.
Lemma silent_compact context mode : silent (compactPreparedTurn options turn context mode).
Proof. unfold compactPreparedTurn. pose proof silent_item. silence. Qed.
Lemma silent_next_context context results : silent (next_context options turn context results).
Proof.
  unfold next_context, maybeAutomaticallyCompact, runCompaction. pose proof silent_assembleContext.
  pose proof silent_compact. silence.
Qed.
Lemma silent_generate_step context results : silent (generate_step context results).
Proof. unfold generate_step. silence. Qed.
Lemma silent_record_usage context usage : silent (record_usage options turn context usage).
Proof. unfold record_usage. pose proof silent_require. silence. Qed.
Lemma silent_reasoning n r : silent (append_reasoning options turn n r).
Proof. unfold append_reasoning. pose proof silent_require. pose proof silent_item. silence. Qed.
Lemma silent_commentary n r : silent (append_commentary options turn n r).
Proof. unfold append_commentary. pose proof silent_require. pose proof silent_item. silence. Qed.
Lemma silent_flush : silent flush_inputs.
Proof. unfold flush_inputs. silence. Qed.
Lemma silent_reserve : silent reserve_completion.
Proof. apply silent_lc. Qed.
Lemma silent_settle approvalId resolution : silent (settle_approval options approvalId resolution).
Proof. unfold settle_approval, set_settlement. silence. Qed.
Lemma silent_request itemId request : silent (requestAndWait options itemId request).
Proof.
  unfold requestAndWait, createPending, set_pending, race_resolution. pose proof silent_settle. silence.
Qed.
Lemma silent_worker_events itemId c output events : silent (emitWorkerResultEvents options run itemId c output events).
Proof. unfold emitWorkerResultEvents. silence. Qed.

(** ** Calls that execute tools *)

(** [m] has executions made that are [P]. *)
Definition adds {A} (P : list Execution -> Prop) (m : KO A) : Prop :=
  forall w, exists l, log_of (snd (m w)) = log_of w ++ l /\ P l.

Lemma adds_mono {A} (P Q : list Execution -> Prop) (m : KO A) : (forall l, P l -> Q l) -> adds P m -> adds Q m.
Proof. intros HPQ Hm w. destruct (Hm w) as (l & Hl & HP). exists l. auto. Qed.
Lemma adds_none {A} (P : list Execution -> Prop) (m : KO A) : P [] -> silent m -> adds P m.
Proof. intros HP Hm w. exists []. rewrite app_nil_r. split; [by apply Hm|done]. Qed.
Lemma adds_after {A B} (P : list Execution -> Prop) (m : KO A) (f : A -> KO B) :
  P [] -> silent m -> (forall a, adds P (f a)) -> adds P (m ≫= f).
Proof.
  intros HP Hm Hf w. specialize (Hm _ w eq_refl). unfold mbind, ST_bind. destruct (m w) as [[a|e] w']; cbn in Hm.
  - rewrite <- Hm. apply Hf.
  - exists []. by rewrite app_nil_r.
Qed.
Lemma adds_tool {A} (P : list Execution -> Prop) c a (f : WorkerToolResult -> KO A) :
  P [(c, a)] -> (forall r, adds (fun l => P ((c, a) :: l)) (f r)) -> adds P (kp_executeTool c a ≫= f).
Proof.
  intros HP Hf w. pose proof (tl_tool c a w) as Hw. unfold mbind, ST_bind. destruct (kp_executeTool c a w) as [[r|e] w'].
  - destruct (Hf r w') as (l & Hl & HPl). exists ((c, a) :: l). split; [|done].
    rewrite Hl. cbn in Hw. rewrite Hw. by rewrite <- app_assoc.
  - by exists [(c, a)].
Qed.
Lemma adds_before {A B} (P : list Execution -> Prop) (m : KO A) (f : A -> KO B) :
  adds P m -> (forall a, silent (f a)) -> adds P (m ≫= f).
Proof.
  intros Hm Hf w. destruct (Hm w) as (l & Hl & HP). exists l. split; [|done].
  unfold mbind, ST_bind. destruct (m w) as [[a|e] w']; [|done]. cbn in Hl. rewrite <- Hl. by apply Hf.
Qed.
Lemma adds_catch {A} (P : list Execution -> Prop) (m : KO A) (h : thrown -> KO A) :
  adds P m -> (forall e, silent (h e)) -> adds P (try_catch m h).
Proof.
  intros Hm Hh w. destruct (Hm w) as (l & Hl & HP). exists l. split; [|done].
  unfold try_catch. destruct (m w) as [[a|e] w']; [done|]. cbn in Hl. rewrite <- Hl. by apply Hh.
Qed.

(** The approved retry executes the call again, once. *)
Lemma adds_retry (P : list Execution -> Prop) c approval :
  P [(c, Some approval)] -> adds P (resolveApprovedRetry c approval).
Proof. intros HP. unfold resolveApprovedRetry. apply adds_tool; [done|]. intros r. apply adds_none; [done|]. silence. Qed.
Lemma adds_completion itemId c approval : adds tool_round (executeToCompletion options itemId c approval).
Proof.
  unfold executeToCompletion. apply adds_tool; [apply tool_round_one|].
  intros [output events|failure recoverable|reason|request].
  1-3: apply adds_none; [apply tool_round_one|silence].
  destruct approval as [approval|]; [apply adds_none; [done|silence]|].
  apply adds_after; [done|apply silent_request|]. intros approval. by apply adds_retry.
Qed.
Lemma adds_authorized itemId authorization :
  adds tool_round (executeAuthorizedTool options run itemId authorization).
Proof.
  assert (Hrest : forall c (approval : KO (option ApprovalResolution)), silent approval ->
    adds tool_round (a ← approval; r ← executeToCompletion options itemId c a;
      match r with
      | inr (failure, true) =>
          _ ← lifecycle_op (OpFailTool (tc_toolCallId c) failure);
          mret (mkToolResult (tc_toolCallId c) (error_output failure (retryable failure)) (Some failure))
      | inr (failure, false) =>
          throw (KernelError worker_failed (message failure) (Some (Value (json_of_failure failure))))
      | inl (output, events) =>
          stopped ← aborted;
          terminal ← lifecycle_isTerminal;
          _ ← throw_if (stopped || terminal) (Lifecycle
                (LifecycleTransitionError s_tool_call "active" "interrupted"
                   "turn was interrupted before tool completion"));
          _ ← emitWorkerResultEvents options run itemId c output events;
          _ ← lifecycle_op (OpCompleteTool (tc_toolCallId c) output);
          mret (mkToolResult (tc_toolCallId c) output None)
      end)).
  { intros c approval Ha. apply adds_after; [done|exact Ha|]. intros a.
    apply adds_before; [apply adds_completion|]. intros r. pose proof silent_worker_events. silence. }
  destruct authorization as [c|c request|code reason]; cbn [executeAuthorizedTool].
  - apply Hrest. silence.
  - apply Hrest. pose proof silent_request. silence.
  - apply adds_none; [done|]. silence.
Qed.
Lemma adds_loop_tool ws n itemId content commentary reasoning :
  adds tool_round (loop_tool options run turn maxToolCalls ws n itemId content commentary reasoning).
Proof.
  unfold loop_tool. apply adds_after; [done|silence|]. intros _.
  apply adds_after; [done|apply silent_commentary|]. intros _. apply adds_after; [done|apply silent_reasoning|]. intros _.
  destruct ws; [|apply adds_none; [done|silence]].
  unfold execute_tool. apply adds_after; [done|silence|]. intros authorization.
  apply adds_after; [done|silence|]. intros _. apply adds_catch; [apply adds_authorized|]. intros e. silence.
Qed.

(** ** The loop *)

(** The rounds of executions the loop makes from the tool call [n] on *)
Definition loop_rounds (n : Z) (r : res thrown (option LoopResult)) (w w' : KW) : Prop :=
  exists rounds, log_of w' = log_of w ++ concat rounds /\ Forall tool_round rounds /\
    Z.of_nat (length rounds) <= Z.max 0 (maxToolCalls - n) /\
    forall l, r = Ok (Some l) -> lr_toolCallCount l = n + Z.of_nat (length rounds).

Lemma rounds_none n r (w w' : KW) :
  log_of w' = log_of w -> (forall l, r = Ok (Some l) -> lr_toolCallCount l = n) -> loop_rounds n r w w'.
Proof.
  intros Hw Hr. exists []. cbn. rewrite app_nil_r. split_and!; [done|constructor|lia|].
  intros l Hl. specialize (Hr l Hl). lia.
Qed.
Lemma rounds_after n r (w w1 w' : KW) : log_of w1 = log_of w -> loop_rounds n r w1 w' -> loop_rounds n r w w'.
Proof. intros Hw (rounds & Hr). exists rounds. by rewrite <- Hw. Qed.

Lemma executeLoop_rounds fuel ws ctx n results (w : KW) :
  let '(r, w') := executeLoop options run turn maxToolCalls fuel ws ctx n results w in loop_rounds n r w w'.
Proof.
  revert ctx n results w. induction fuel as [|fuel IH]; intros ctx n results w; [by apply rounds_none|].
  cbn [executeLoop]. destruct (maxToolCalls <? n) eqn:Hmax; [by apply rounds_none|].
  unfold mbind, ST_bind.
  pose proof (silent_next_context ctx results _ w eq_refl) as H1. destruct (next_context _ _ _ _ w) as [[c|] w1];
    cbn in H1; [|by apply rounds_none].
  pose proof (silent_generate_step c results _ w1 eq_refl) as H2. rewrite H1 in H2.
  destruct (generate_step c results w1) as [[step|] w2]; cbn in H2; [|by apply rounds_none].
  destruct step as [i output reasoning usage|i content commentary reasoning usage];
    pose proof (silent_record_usage c usage _ w2 eq_refl) as H3; rewrite H2 in H3;
    destruct (record_usage _ _ _ _ w2) as [[[]|] w3]; cbn in H3; try by apply rounds_none.
  - pose proof (silent_reserve _ w3 eq_refl) as H4. rewrite H3 in H4.
    destruct (reserve_completion w3) as [[[]|] w4]; cbn in H4; [| |by apply rounds_none].
    + pose proof (silent_reasoning n reasoning _ w4 eq_refl) as H5. rewrite H4 in H5.
      destruct (append_reasoning _ _ _ _ w4) as [[]  w5]; (apply rounds_none; [exact H5|]); [by intros l [= <-]|done].
    + pose proof (silent_flush _ w4 eq_refl) as H5. rewrite H4 in H5.
      destruct (flush_inputs w4) as [[[]|] w5]; cbn in H5; [|by apply rounds_none..].
      specialize (IH ctx n results w5). destruct (executeLoop _ _ _ _ _ _ _ _ _ w5) as [r w'].
      by eapply rounds_after.
  - destruct (adds_loop_tool ws n i content commentary reasoning w3) as (round & Hround & Hok). rewrite H3 in Hround.
    apply Z.ltb_ge in Hmax. destruct (Z.eq_dec n maxToolCalls) as [Heq|Hneq].
    { unfold loop_tool, mbind, ST_bind in *. rewrite (proj2 (Z.eqb_eq _ _) Heq) in *. by apply rounds_none. }
    destruct (loop_tool _ _ _ _ _ _ _ _ _ _ w3) as [[result|e] w4]; cbn in Hround.
    + specialize (IH ctx (n + 1) (results ++ [result]) w4).
      destruct (executeLoop _ _ _ _ _ _ _ _ _ w4) as [r w']. destruct IH as (rounds & Hr & Hall & Hlen & Hl).
      exists (round :: rounds). cbn [concat length]. rewrite Hr, Hround, <- app_assoc.
      split_and!; [done|by constructor|lia|]. intros l Hl'. rewrite (Hl l Hl'). lia.
    + exists [round]. cbn. rewrite app_nil_r. split_and!; [done|by repeat constructor|lia|done].
Qed.

(** No tool call is executed more than twice. *)
Lemma rounds_length rounds : Forall tool_round rounds -> (length (concat rounds) <= 2 * length rounds)%nat.
Proof.
  induction 1 as [|round rounds Hr _ IH]; [done|]. cbn [concat length]. rewrite length_app.
  destruct round as [|[c a] [|[c' a'] [|]]]; cbn in *; try lia. all: by repeat case_match.
Qed.
End Executions.
Arguments ToolLog {K E _} executed.
