(* ===== verification/KernelDemo.v ===== *)
(** Ports of a demo host: a model that calls one tool and then answers, a worker that
    asks for an approval first, a user who approves.  They keep the promises of
    [HonestPorts]; an item that is not new makes them throw. *)
From S2P Require Import Prelude Js Zod Protocol LifecycleEvents EventStore Coordinator Projector ProjectorFacts Sink Simulation CoordinatorProps Restore RestoreFacts Liveness RestoreProps Footprint Closable Permission Workspace KernelErrors WorkerEvents Kernel RuntimeKernel KernelSteps.
From Stdlib Require Import QArith_base.
#[local] Open Scope Z_scope.

(** The host keeps the tool calls it was given to execute. *)
Notation DemoLog := (list (ToolCallItemContent * option ApprovalResolution)).
Notation DemoWorld := (KWorld MemoryLifecycleEventStore DemoLog).
Notation DemoM := (KM MemoryLifecycleEventStore DemoLog).

Definition demo_run : Run :=
  mkRun "run_demo01" "thr_demo01" "usr_demo01" "wrk_demo01" (Some "repository") 0.
Definition demo_turn : Turn := mkTurn "trn_demo01" "thr_demo01" "run_demo01" None 0.

Definition demo_manifest : WorkspaceManifest :=
  mkManifest "run_demo01" "wrk_demo01" "owner" "repo" "https://example.com/owner/repo" "main" "work"
    "sha0" "sha0" "local" "worker" "/work" "artifacts" "profile" ws_ready None
    "2025-01-01T00:00:00.000Z" "2025-01-01T00:00:00.000Z".

(** The items the host names. *)
Definition demo_items : list string := ["itm_tool01"; "itm_appr01"; "itm_answer1"].

(** [a], if the item [i] is new. *)
Definition naming {A} (i : string) (a : A) : DemoM A := fun w =>
  match dget i (c_itemStatuses (coordinator_of w)) with
  | None => (Ok a, w)
  | Some _ => (Err (Foreign "the item exists" None None), w)
  end.

Definition executing {A} (call : ToolCallItemContent) (approval : option ApprovalResolution) (m : DemoM A) : DemoM A :=
  fun w => m (mkKWorld (kw_lifecycle w) (kw_slots w) (kw_env w ++ [(call, approval)])).

Definition demo_approval : ApprovalRequest :=
  mkApprovalRequest "appr_000001" (Some "itm_appr01") "Run it?" [] [].

Definition demo_resolution : ApprovalResolution := mkResolution d_approved (Some "usr_demo01") None false None.

Definition demo_call : ToolCallItemContent := mkToolCall "toolcall_01aaaa" "read_file" [] None None.

#[export] Instance demo_ports : KernelPorts MemoryLifecycleEventStore DemoLog := {
  kp_others w := w;
  kp_now := mret "2025-01-01T00:00:00.000Z";
  kp_getLatestByRunId := Some (fun _ => mret (Some demo_manifest));
  kp_assemble _ := mret (mkContext "Be brief." [] None None);
  kp_compact := None;
  kp_compaction := mret tt;
  kp_settlement a := fun w =>
    match dget a (sl_approvals (kw_slots w)) with
    | None => (Ok tt, w)
    | Some p => match pa_settlement p with
                | settled (Ok tt) => (Ok tt, w)
                | _ => (Err (Lifecycle ZodError), w)
                end
    end;
  kp_emission := throw (settlement_error "not shared");
  kp_generateNext _ results :=
    match results with
    | [] => naming "itm_tool01" (ps_tool_call "itm_tool01" demo_call (Some "I look.") None None)
    | _ => naming "itm_answer1" (ps_complete "itm_answer1" "done" (Some (mkReasoning "It is there." true)) None)
    end;
  kp_enqueueThreadInput := None;
  kp_hasPendingThreadInputs := None;
  kp_flushThreadInputs := None;
  kp_awaitQuiescence := Some (mret true);
  kp_executeTool call approval := executing call approval
    (match approval with
     | None => naming "itm_appr01" (wr_approval_required demo_approval)
     | Some _ => mret (wr_completed [("text", JStr "hello")] [])
     end);
  kp_authorize _ t := mret (ta_authorized t);
  kp_waitForDecision _ := mret (Some demo_resolution);
  kp_hooks := None;
  kp_captureSnapshot := mret ("tree", "sha0");
  kp_captureResumeSnapshot := None;
  kp_getSnapshotDiff _ _ := mret ([], "");
  kp_putSnapshot _ := mret (JObj []);
  kp_putTurnDiff _ := mret (JObj []);
  kp_signal _ := None;
  kp_has_artifact_owners := true;
  kp_execution := mret tt;
  kp_percent _ _ := NInt 0;
  kp_lifecycle_text _ := "lifecycle error";
}.

Section Honest.
Context `{!JsRuntime}.

Lemma demo_not_owned i : i ∈ demo_items -> ~ kernel_owned demo_turn i.
Proof.
  intros Hi Ho. assert (exists s, i = "itm_" +:+ "demo01" +:+ "_" +:+ s) as [s ->].
  { by destruct Ho; eexists. }
  unfold demo_items in Hi. rewrite !elem_of_cons, elem_of_nil in Hi. by destruct Hi as [|[|[|]]].
Qed.

Lemma still {A} (r : res thrown A) (Q : A -> DemoWorld -> Prop) (X : thrown -> Prop) (w : DemoWorld) :
  match r with Ok a => Q a w | Err e => X e end ->
  wp (lift r) (fun a w' => steps demo_options demo_turn w w' /\ Q a w')
    (fun e w' => steps demo_options demo_turn w w' /\ X e) w.
Proof. intros Hr. destruct r; (split; [apply rtc_refl|exact Hr]). Qed.

Lemma quiet_port {A} (r : res thrown A) : answers demo_options demo_turn (lift r : DemoM A).
Proof. intros w. apply still. by destruct r. Qed.

Lemma naming_obliges {A} i (a : A) Q X :
  i ∈ demo_items -> X (Foreign "the item exists" None None) ->
  (forall w, new_item demo_turn w i -> Q a w) -> obliges demo_options demo_turn (naming i a) Q X.
Proof.
  intros Hi HX HQ w. unfold wp, naming. destruct (dget _ _) eqn:Hd; (split; [apply rtc_refl|]); [done|].
  apply HQ. split; [done|by apply demo_not_owned].
Qed.

Lemma executing_obliges {A} call approval (m : DemoM A) Q X :
  obliges demo_options demo_turn m Q X -> obliges demo_options demo_turn (executing call approval m) Q X.
Proof.
  intros Hm w. unfold wp, executing. specialize (Hm (mkKWorld (kw_lifecycle w) (kw_slots w) (kw_env w ++ [(call, approval)]))).
  unfold wp in Hm. destruct (m _) as [[a|e] w']; destruct Hm as [Hs Hq]; (split; [|exact Hq]);
    (eapply rtc_l; [apply po_slots, quiet_refl|exact Hs]).
Qed.

Lemma demo_honest : HonestPorts demo_options demo_turn.
Proof.
  split; try (intros; apply (quiet_port (Ok _))); try done.
  - intros m id [= <-]. apply (quiet_port (Ok _)).
  - intros a w. unfold wp. cbn. destruct (dget a _) as [p|] eqn:Hp.
    + destruct (pa_settlement p) as [| |[[]|]] eqn:Hs; (split; [apply rtc_refl|]); try done.
      intros p'. rewrite Hp. by intros [= <-].
    + split; [apply rtc_refl|]. intros p'. by rewrite Hp.
  - intros c r. cbn. destruct r; apply naming_obliges; auto; unfold demo_items; set_solver.
  - intros m [= <-] w. by apply (still (Ok _)).
  - intros t [a|]; cbn; apply executing_obliges; [by intros w; apply (still (Ok _))|].
    apply naming_obliges; [unfold demo_items; set_solver|done|]. by intros w Hw i [= <-].
Qed.
End Honest.

Definition demo_kernel : DemoWorld := mkKWorld demo_world no_slots [].

(** The demo turn, prepared, and as it ends. *)
Definition demo_start : res thrown PreparedTurn * DemoWorld :=
  let _ := iso_runtime in prepareTurn demo_options demo_run demo_turn demo_kernel.
Definition demo_prepared : PreparedTurn :=
  match fst demo_start with Ok p => p | Err _ => mkPrepared None "" "" end.
Definition demo_end : res thrown (option StartTurnResult) * DemoWorld :=
  let _ := iso_runtime in
  startPreparedTurn demo_options demo_run demo_turn 5 6 demo_prepared (snd demo_start).
Definition demo_loop (fuel : nat) : res thrown (option LoopResult) * DemoWorld :=
  let _ := iso_runtime in
  executeLoop demo_options demo_run demo_turn 5 fuel (pt_workspace demo_prepared)
    (mkContext "" [] None None) 0 [] (snd demo_start).

Example demo_turn_log :
  let _ := iso_runtime in
  map type (sink_log (H0 := memory_sink) "trn_demo01" (snd (kw_lifecycle (snd demo_end)))) =
  ["turn.queued"; "turn.started"; "run_attempt.started"; "workspace.snapshot_captured";
   "item.started"; "assistant_message.delta"; "item.completed"; "item.started";
   "tool_call.started"; "tool_call.input_delta"; "item.started"; "approval.requested";
   "turn.blocking_changed"; "approval.decided"; "turn.blocking_changed"; "item.completed";
   "tool_call.completed"; "item.completed"; "item.started"; "reasoning.summary_delta";
   "item.completed"; "workspace.snapshot_captured"; "turn.diff_updated"; "artifact.created";
   "item.started"; "assistant_message.delta"; "item.completed"; "run_attempt.succeeded";
   "turn.completed"].
Proof. by vm_compute. Qed.

Lemma demo_prepares :
  let _ := iso_runtime in
  prepareTurn demo_options demo_run demo_turn demo_kernel = (Ok demo_prepared, snd demo_start).
Proof.
  intros R. change (demo_start = (Ok demo_prepared, snd demo_start)).
  assert (fst demo_start = Ok demo_prepared) as <- by by vm_compute. apply surjective_pairing.
Qed.

Lemma demo_ends :
  let _ := iso_runtime in
  startPreparedTurn demo_options demo_run demo_turn 5 6 demo_prepared (snd demo_start) =
  (Ok (Some (mkStartTurnResult "done" 1 (Some demo_manifest))), snd demo_end).
Proof.
  intros R. assert (fst demo_end = Ok (Some (mkStartTurnResult "done" 1 (Some demo_manifest)))) as <-
    by by vm_compute. apply (surjective_pairing demo_end).
Qed.
