(* ===== verification/KernelProps.v ===== *)
(** A prepared turn always ends: the kernel composed with the coordinator, its sink and
    the projector, and the bound of its loop. *)
From S2P Require Import Prelude Js Zod Protocol LifecycleEvents EventStore Coordinator Projector ProjectorFacts Sink Simulation CoordinatorProps Restore RestoreFacts Liveness RestoreProps Footprint Closable Permission Workspace KernelErrors WorkerEvents Kernel RuntimeKernel KernelSteps KernelCalls KernelTurn KernelApprovals KernelTools KernelDemo KernelBound.
#[local] Open Scope Z_scope.

Section Settlement.
Context `{!JsRuntime} {K E : Type} `{!LifecycleSink K, !LifecycleSinkLaws K, !SinkAvailable K, !KernelPorts K E}.
Variable options : RuntimeLifecycleCoordinatorOptions.
Variable run : Run.
Variable turn : Turn.
Variable maxToolCalls : Z.
Hypothesis Henv : env_valid options.
Context `{HP : !HonestPorts (K:=K) (E:=E) options turn}.

Notation KW := (KWorld K E).
Notation KO := (KM K E).
#[local] Notation calls := (KernelCalls.calls options turn).
#[local] Notation calm := (KernelSteps.calm options turn).
#[local] Notation weak := (KernelSteps.weak options turn).
#[local] Notation ready := (KernelTurn.ready options turn).
#[local] Notation perform := (KernelSteps.perform options).
#[local] Notation lifecycle_op := (Kernel.lifecycle_op options).

(** ** The ways a turn can be left *)

(** The turn has no more sequence numbers to close what is open. *)
Definition cramped (w : KW) : Prop := ~ room (closing_size (coordinator_of w)) (coordinator_of w).

(** The settlement that the protocol does not accept: a reason of an interruption
    that is empty or too long, a failure that is no [ProtocolError]. *)
Definition illegal (op : operation) : Prop :=
  match op with
  | OpInterrupt r => str_between 1 2000 r = false
  | OpFail f => is_some (ProtocolErrorSchema (json_of_failure f)) = false
  | _ => False
  end.

(** The settlement the kernel chooses for a turn that failed with [error] *)
Definition settlement_of (error : thrown) (w : KW) : operation :=
  if isTurnCancelled error || is_some (sl_aborted (kw_slots w)) then
    OpInterrupt (match sl_pendingInterrupt (kw_slots w) with
                 | Some reason => reason
                 | None => match cancellationReason (sl_aborted (kw_slots w)) with
                           | Some reason => reason
                           | None => default "Run interrupted" (message_of error)
                           end
                 end)
  else OpFail (failure_of error).

(** What the kernel throws when the coordinator throws [e] at a settlement *)
Definition reported (op : operation) (e : error) : thrown :=
  match op, e with
  | OpFail _, RuntimeLifecycleSettlementError _ _ | OpInterrupt _, _ => Lifecycle e
  | _, _ => Lifecycle (RuntimeLifecycleSettlementError "failed" e)
  end.

(** Why a turn is let go, with the exception [e], before it has ended: the kernel tried
    to settle its artifacts - it does unless [tried] - and that threw [e]; or it tried
    the settlement it owes the turn, the coordinator threw, and the settlement is
    illegal or the turn cramped. *)
Inductive unsettled (artifacts tried : bool) (settlement : KW -> operation) (e : thrown) (w' : KW) : Prop :=
  | artifacts_failed quiescent reason w1 w2 :
      tried = false -> isArtifactSettlementError e = true ->
      settleArtifacts options run turn artifacts true quiescent reason w1 = (Err e, w2) ->
      kw_lifecycle w2 = kw_lifecycle w' -> unsettled artifacts tried settlement e w'
  | settlement_refused w1 w2 e0 :
      lifecycle_op (settlement w1) w1 = (Err (Lifecycle e0), w2) -> e = reported (settlement w1) e0 ->
      illegal (settlement w1) \/ cramped w' ->
      kw_lifecycle w2 = kw_lifecycle w' -> unsettled artifacts tried settlement e w'.

Lemma unsettled_lifecycle a b f e (w w' : KW) :
  kw_lifecycle w = kw_lifecycle w' -> unsettled a b f e w -> unsettled a b f e w'.
Proof.
  intros Hw [q r w1 w2 Ht He Hrun Hl|w1 w2 e0 Hrun He Hwhy Hl].
  - eapply artifacts_failed; [exact Ht|exact He|exact Hrun|congruence].
  - eapply settlement_refused; [exact Hrun|exact He| |congruence].
    unfold cramped, coordinator_of in *. by rewrite <- Hw.
Qed.
Lemma wp_eq {A} (m : KO A) (Q : A -> KW -> Prop) (X : thrown -> KW -> Prop) w :
  wp m Q X w -> wp m (fun a w' => m w = (Ok a, w') /\ Q a w') (fun e w' => m w = (Err e, w') /\ X e w') w.
Proof. unfold wp. by destruct (m w) as [[] w']. Qed.

Lemma weak_perform op (w : KW) :
  plain op -> weak w -> weak (perform op w).
Proof. intros Hop (nc & nr & Hk). exists nc, nr. by apply (plain_kinv options turn Henv). Qed.

Lemma weak_others (w : KW) : weak w -> weak (kp_others w).
Proof.
  intros Hw. eapply steps_stable; [apply (stable_weak options turn Henv)|by eapply steps_others|done].
Qed.

(** Interrupting or failing the turn ends it, or was refused. *)
Lemma settle_op op (w : KW) :
  match op with OpInterrupt _ | OpFail _ => True | _ => False end -> weak w ->
  wp (lifecycle_op op) (fun _ w' => weak w' /\ isTerminal (coordinator_of w') = true)
    (fun e w' => weak w' /\ is_lifecycle e = true /\
       (isTerminal (coordinator_of w') = true \/ illegal op \/ cramped w')) w.
Proof.
  intros Hop Hw%weak_others. assert (Hpl : plain op) by (by destruct op).
  pose proof (weak_perform op _ Hpl Hw) as Hw'.
  apply wp_op; [intros l Hrun|intros e l Hrun]; (split; [done|]).
  - pose proof (ending_ends options op (kw_lifecycle (kp_others w)) ltac:(by destruct op)) as He.
    unfold wp in He. unfold coordinator_of, KernelSteps.perform. cbn [kw_lifecycle]. by rewrite Hrun in He |- *.
  - split; [done|]. destruct Hw as (nc & nr & []).
    destruct (isTerminal (coordinator_of (kp_others w))) eqn:Hterm.
    { left. destruct (kw_lifecycle (kp_others w)) as [c k] eqn:Hl.
      unfold coordinator_of in *. cbn [kw_lifecycle KernelSteps.perform]. rewrite Hl in Hterm |- *.
      by destruct (run_op_ended options k op (c, k) (conj Hterm eq_refl)). }
    right. destruct (decide (room (closing_size (coordinator_of (kp_others w))) (coordinator_of (kp_others w)))) as [Hroom|Hroom].
    + left. assert (Hcl := fun o => closable_closes options Henv (kw_lifecycle (kp_others w)) op o ki_good ki_closable Hterm Hroom).
      destruct op as [ | | | | | | | | | | | | | | | | | | | | | | | |f|r]; try done; cbn.
      * destruct (is_some _) eqn:Hf; [|done]. destruct (Hcl (to_failed f)) as (w2 & Hok & _); [eauto|congruence].
      * destruct (str_between 1 2000 r) eqn:Hr; [|done].
        destruct (Hcl (to_interrupted r)) as (w2 & Hok & _); [eauto|congruence].
    + right. intros Hroom'. apply Hroom. eapply room_before; [|exact Hroom'].
      destruct (kw_lifecycle (kp_others w)) as [c k]. by eapply good_sequence.
Qed.

(** ** The settlement of a failed turn *)

Lemma weak_emission (w : KW) : weak w -> emission_ok (kw_slots w).
Proof. by intros (nc & nr & []). Qed.
Lemma weak_steps (w w' : KW) : KernelSteps.steps options turn w w' -> weak w -> weak w'.
Proof. apply steps_stable, (stable_weak options turn Henv). Qed.

Lemma settleArtifacts_weak a b p r (w : KW) :
  weak w ->
  wp (settleArtifacts options run turn a b p r) (fun _ => weak)
    (fun e w' => weak w' /\ isArtifactSettlementError e = true) w.
Proof.
  intros Hw. eapply wp_mono; [apply (settleArtifacts_does options run turn); [exact (weak_started _ _ _ Hw)|by apply weak_emission]| |]; cbn.
  - intros ? w' Hs. by eapply weak_steps.
  - intros e w' [Hs He]. split; [by eapply weak_steps|done].
Qed.

Lemma recover_settles error a b (w : KW) :
  weak w -> settlement_of error w = OpFail (failure_of error) ->
  wp (recoverFailedTurn options error) (fun _ w' => weak w' /\ isTerminal (coordinator_of w') = true)
    (fun e w' => weak w' /\ (isTerminal (coordinator_of w') = true \/ unsettled a b (settlement_of error) e w')) w.
Proof.
  intros Hw Hop. unfold recoverFailedTurn. apply wp_try_catch.
  eapply wp_mono; [apply wp_eq; by apply settle_op|by intros ? ? [_ ?]|]. intros e w' (Hrun & Hw' & He & Hs).
  destruct e as [|e| |]; try done.
  assert (Hu : isTerminal (coordinator_of w') = true \/ unsettled a b (settlement_of error) (reported (settlement_of error w) e) w').
  { destruct Hs as [?|Hs]; [by left|right]. rewrite <- Hop in Hrun, Hs. by eapply settlement_refused. }
  rewrite Hop in Hu. destruct e; apply wp_throw; (split; [done|exact Hu]).
Qed.

Lemma settle_failed_settles a error (w : KW) :
  weak w ->
  wp (settle_failed_turn options run turn a error)
    (fun _ w' => weak w' /\ isTerminal (coordinator_of w') = true)
    (fun e w' => weak w' /\ (isTerminal (coordinator_of w') = true \/
       unsettled a (isArtifactSettlementError error) (settlement_of error) e w')) w.
Proof.
  intros Hw. unfold settle_failed_turn. apply wp_bind, wp_gets.
  destruct (isTerminal (coordinator_of w)) eqn:Ht; [done|].
  apply wp_bind. apply (wp_mono _ (fun _ => weak) _ (fun e w' => weak w' /\ (isTerminal (coordinator_of w') = true \/
    unsettled a (isArtifactSettlementError error) (settlement_of error) e w'))); [| |done].
  - destruct (isArtifactSettlementError error) eqn:Ea; [done|]. apply wp_bind, wp_gets, wp_bind.
    eapply (wp_mono _ (fun _ => weak) _ (fun _ _ => False)); [|intros q w1 Hw1|done].
    + destruct (_ || _); [|done]. eapply wp_does; [by apply does_quiescence|
        by apply (stable_weak options turn Henv)|exact (weak_started _ _ _ Hw)|exact Hw|done|done].
    + apply wp_bind. eapply wp_mono; [apply wp_eq; by apply settleArtifacts_weak|by intros ? ? [_ ?]|].
      intros e w2 (Hrun & Hw2 & He). split; [done|right]. by eapply artifacts_failed.
  - intros ? w1 Hw1. apply wp_bind, wp_gets. destruct (isTurnCancelled error || is_some (sl_aborted (kw_slots w1))) eqn:Hc.
    2: { apply recover_settles; [done|]. unfold settlement_of. by rewrite Hc. }
    apply wp_bind, wp_gets.
    eapply wp_mono; [apply wp_eq; by apply settle_op|by intros ? ? [_ ?]|].
    intros e w2 (Hrun & Hw2 & He & Hs). split; [done|]. destruct e as [|e| |]; try done.
    destruct Hs as [?|Hs]; [by left|right].
    assert (Hop : settlement_of error w1 = OpInterrupt (match sl_pendingInterrupt (kw_slots w1) with
      | Some reason => reason
      | None => match cancellationReason (sl_aborted (kw_slots w1)) with
                | Some reason => reason | None => default "Run interrupted" (message_of error) end end))
      by (unfold settlement_of; by rewrite Hc).
    eapply (settlement_refused _ _ _ _ _ w1 w2 e); rewrite ?Hop; [exact Hrun|done|exact Hs|done].
Qed.

(** ** The turn *)

Lemma complete_ends nc nr i output (w : KW) :
  ready nc nr [i] w ->
  wp (lifecycle_op (OpComplete output i))
    (fun _ w' => weak w' /\ isTerminal (coordinator_of w') = true) (fun _ => weak) w.
Proof.
  intros Hw. assert (ready nc nr [i] (kp_others w)) as Hw1.
  { eapply steps_stable; [apply (stable_ready options turn Henv)|by eapply steps_others|done]. }
  destruct (proj2 Hw1 i (list_elem_of_here _ _)) as [Hf Hn].
  assert (weak (perform (OpComplete output i) (kp_others w))) as H2.
  { exists nc, nr. eapply (open_kinv options turn Henv _ i); [exact Hw1|done|done|done|done|done|..].
    all: try intros ? _; intros Hi; apply Hn; rewrite Hi; constructor. }
  apply wp_op; [intros l Hrun; split; [done|]|done].
  pose proof (ending_ends options (OpComplete output i) (kw_lifecycle (kp_others w)) eq_refl) as He.
  unfold wp in He. unfold coordinator_of, KernelSteps.perform. cbn [kw_lifecycle]. by rewrite Hrun in He |- *.
Qed.

Lemma run_turn_ends fuel prepared (w : KW) :
  calm 0 0 w ->
  wp (run_turn options run turn maxToolCalls fuel prepared)
    (fun r w' => weak w' /\ (is_some r = true -> isTerminal (coordinator_of w') = true)) (fun _ => weak) w.
Proof.
  intros Hw%ready_nil. unfold run_turn. apply wp_bind, wp_gets.
  destruct (isTerminal (coordinator_of w)) eqn:Ht; [by split; [exact (ready_weak _ _ _ _ _ _ Hw)|]|].
  apply wp_bind, (ready_then options turn Henv _ 0 0 []); [by apply calls_hooks|done|]. intros [] w1 Hw1.
  apply wp_bind, (ready_then options turn Henv _ 0 0 []); [by apply calls_assemble|done|]. intros c w2 Hw2.
  apply wp_bind, (ready_then options turn Henv _ 0 0 []); [auto with legion|done|]. intros [] w3 Hw3.
  apply wp_bind. eapply wp_mono; [by apply (executeLoop_ready options run turn maxToolCalls Henv)| |done].
  intros [l|] w4; [|done]. intros (nc & nr & Hw4). apply wp_bind, wp_gets, wp_bind, wp_gets, wp_bind.
  unfold throw_if. destruct (_ || _); [exact (ready_weak _ _ _ _ _ _ Hw4)|]. apply wp_ret, wp_bind.
  eapply wp_mono; [apply (settleArtifacts_does options run turn)| |].
  - exact (ready_started _ _ _ _ _ _ Hw4).
  - apply weak_emission. exact (ready_weak _ _ _ _ _ _ Hw4).
  - cbn. intros ? w5 Hs. assert (ready nc nr [lr_finalItemId l] w5) as Hw5.
    { eapply steps_stable; [apply (stable_ready options turn Henv)|exact Hs|done]. }
    apply wp_bind. eapply wp_mono; [by apply (complete_ends nc nr)| |done]. by intros ? w6 [? ?].
  - cbn. intros e w5 [Hs _]. eapply weak_steps; [exact Hs|]. exact (ready_weak _ _ _ _ _ _ Hw4).
Qed.

(** What is left of a turn when the kernel lets it go, [unended] the excuses it has. *)
Definition let_go (unended : thrown -> KW -> Prop) (r : res thrown (option StartTurnResult)) (w : KW) : Prop :=
  good (K:=K) options (kw_lifecycle w) /\
  match r with
  | Ok None => True
  | Ok (Some _) => isTerminal (coordinator_of w) = true
  | Err e => isTerminal (coordinator_of w) = true \/ unended e w
  end.

Lemma weak_good (w : KW) : weak w -> good (K:=K) options (kw_lifecycle w).
Proof. by intros (nc & nr & []). Qed.

Lemma wp_run {A} (m : KO A) (R : res thrown A -> KW -> Prop) w :
  wp m (fun a => R (Ok a)) (fun e => R (Err e)) w -> R (fst (m w)) (snd (m w)).
Proof. unfold wp. by destruct (m w) as [[] ?]. Qed.

(** The turn ran into [error], and the settlement that is due was tried in vain. *)
Definition failed_unsettled fuel prepared (w : KW) (e : thrown) (w' : KW) : Prop :=
  exists error w1, run_turn options run turn maxToolCalls fuel prepared w = (Err error, w1) /\
    unsettled (is_some (pt_workspace prepared)) (isArtifactSettlementError error) (settlement_of error) e w'.

Lemma execute_lets_go fuel prepared (w : KW) :
  calm 0 0 w ->
  let unended := failed_unsettled fuel prepared w in
  wp (executePreparedTurn options run turn maxToolCalls fuel prepared)
    (fun a => let_go unended (Ok a)) (fun e => let_go unended (Err e)) w.
Proof.
  intros Hw. cbn zeta. unfold executePreparedTurn. apply wp_finally. apply wp_bind, wp_try_catch.
  eapply wp_mono; [apply wp_eq; by apply run_turn_ends| |].
  - intros r w1 (_ & Hw1 & Ht). split; [exact (weak_good _ Hw1)|]. destruct r; [by apply Ht|done].
  - intros e w1 [Hrun Hw1]. apply wp_bind. eapply wp_mono; [by apply settle_failed_settles| |].
    + intros ? w2 [Hw2 Ht]. split; [exact (weak_good _ Hw2)|by left].
    + intros e' w2 [Hw2 Hs]. split; [exact (weak_good _ Hw2)|]. destruct Hs as [?|Hs]; [by left|right].
      exists e, w1. split; [done|]. by eapply unsettled_lifecycle; [|exact Hs].
Qed.

Lemma interrupt_lets_go a reason b (w : KW) :
  weak w ->
  wp (interruptPreparedTurn options run turn a reason b)
    (fun _ w' => good (K:=K) options (kw_lifecycle w') /\ isTerminal (coordinator_of w') = true)
    (fun e => let_go (unsettled a false (fun _ => OpInterrupt reason)) (Err e)) w.
Proof.
  intros Hw. unfold interruptPreparedTurn. apply wp_finally, wp_bind.
  eapply wp_mono; [apply wp_eq; by apply settleArtifacts_weak| |].
  - intros ? w1 [_ Hw1]. eapply wp_mono; [apply wp_eq; by apply settle_op| |].
    + intros ? w2 (_ & Hw2 & Ht). split; [exact (weak_good _ Hw2)|exact Ht].
    + intros e w2 (Hrun & Hw2 & He & Hs). split; [exact (weak_good _ Hw2)|]. destruct Hs as [?|Hs]; [by left|right].
      destruct e as [|e| |]; try done. by eapply (settlement_refused _ _ _ _ _ w1 w2 e).
  - intros e w1 (Hrun & Hw1 & He). split; [exact (weak_good _ Hw1)|right]. by eapply artifacts_failed.
Qed.

(** The turn as [run_turn] finds it *)
Definition running (w : KW) : KW :=
  mkKWorld (kw_lifecycle w) (set_execution true (set_prepared true (kw_slots w))) (kw_env w).
(** The excuses of a turn that was started, and not ended *)
Definition start_unsettled fuel prepared (w : KW) : thrown -> KW -> Prop :=
  match truthy (sl_pendingInterrupt (kw_slots w)) with
  | Some reason => unsettled (is_some (pt_workspace prepared)) false (fun _ => OpInterrupt reason)
  | None => failed_unsettled fuel prepared (running w)
  end.

Lemma start_lets_go fuel prepared (w : KW) :
  calm 0 0 w ->
  let unended := start_unsettled fuel prepared w in
  wp (startPreparedTurn options run turn maxToolCalls fuel prepared)
    (fun a => let_go unended (Ok a)) (fun e => let_go unended (Err e)) w.
Proof.
  intros Hw. cbn zeta. unfold startPreparedTurn, start_unsettled. apply wp_bind. unfold wp at 1. cbn.
  assert (Hq : forall (w : KW) s, calm 0 0 w -> quiet (kw_slots w) s -> calm 0 0 (mkKWorld (kw_lifecycle w) s (kw_env w))).
  { intros w' s Hc Hs. apply (stable_calm options turn Henv 0 0 w'); [by apply po_slots|done]. }
  apply wp_bind, wp_gets. cbn [kw_slots sl_pendingInterrupt set_prepared]. destruct (truthy _) as [reason|].
  - apply wp_bind. unfold wp at 1. cbn. apply wp_bind.
    eapply wp_mono; [apply interrupt_lets_go, (calm_weak options turn 0 0); apply Hq; [exact Hw|by apply quiet_intro]| |done].
    by intros ? w2 Hw2.
  - apply wp_bind. unfold wp at 1. cbn. apply wp_finally.
    eapply wp_mono; [apply execute_lets_go; apply Hq; [exact Hw|by apply quiet_intro]|done|].
    intros e w' [Hg Hs]. split; [exact Hg|]. destruct Hs as [?|(error & w1 & Hrun & Hs)]; [by left|right].
    exists error, w1. split; [exact Hrun|]. by eapply unsettled_lifecycle; [|exact Hs].
Qed.

(** ** Its preparation *)

(** Before the kernel owns the turn nothing reaches a coordinator. *)
Definition unowned (l : World (K:=K)) (w : KW) : Prop :=
  sl_lifecycle (kw_slots w) = false /\ emission_ok (kw_slots w) /\ kw_lifecycle w = l.

(** The turn as [createLifecycle] leaves it. *)
Definition newborn (k : K) (w : KW) : Prop :=
  kw_lifecycle w = (new_coordinator options, k) /\ sl_lifecycle (kw_slots w) = true /\
  sl_approvals (kw_slots w) = [] /\ emission_ok (kw_slots w).

Lemma not_started_stable (I : KW -> Prop) :
  (forall w, I w -> ~ started w) ->
  (forall w s env, I w -> quiet (kw_slots w) s -> I (mkKWorld (kw_lifecycle w) s env)) ->
  (forall w d, I w -> sl_approvals (kw_slots w) <> [] -> I (with_slots (set_approvals d (kw_slots w)) w)) ->
  KernelSteps.stable options turn I.
Proof.
  intros Hn Hq Ha w w' Hstep Hw. pose proof (Hn w Hw) as Hns.
  destruct Hstep as [| | | |a p p' Hd _|]; try done; [by apply Hq|].
  apply Ha; [done|]. intros Hnil. by rewrite Hnil in Hd.
Qed.

Lemma unowned_stable l : KernelSteps.stable options turn (unowned l).
Proof.
  apply not_started_stable.
  - intros w [Hl _] [Hs _]. congruence.
  - intros w s env (Hl & He & Hw) []. split_and!; [by cbn; rewrite q_lifecycle|by apply q_emission|done].
  - intros w d (Hl & He & Hw) _. by split_and!.
Qed.

Lemma newborn_stable k : KernelSteps.stable options turn (newborn k).
Proof.
  apply not_started_stable.
  - intros w (Hl & _) [_ Hs]. unfold coordinator_of in Hs. by rewrite Hl in Hs.
  - intros w s env (Hl & Ho & Ha & He) []. split_and!; cbn; [done|congruence|congruence|by apply q_emission].
  - intros w d (_ & _ & Ha & _) Hd. done.
Qed.

Lemma keeps_answers {A} (m : KO A) l : answers options turn m -> keeps (unowned l) m.
Proof.
  intros Hm. apply wp_keeps. intros w Hw. eapply wp_mono; [apply Hm| |]; cbn; intros ? w' [Hs _];
    (eapply steps_stable; [apply unowned_stable|exact Hs|done]).
Qed.

Lemma keeps_upd_slots l f :
  (forall s, sl_lifecycle (f s) = sl_lifecycle s /\ sl_emission (f s) = sl_emission s) ->
  keeps (unowned l) (upd_slots f).
Proof.
  intros Hf w (Hl & He & Hw). destruct (Hf (kw_slots w)) as [H1 H2].
  split_and!; cbn; [congruence| |done]. unfold emission_ok. by rewrite H2.
Qed.

#[local] Hint Resolve keeps_ret keeps_throw keeps_gets keeps_lift keeps_throw_if : legion.
#[local] Hint Extern 1 (keeps _ (upd_slots _)) => (apply keeps_upd_slots; intros; by split) : legion.
#[local] Hint Extern 1 (keeps _ (slots _)) => (apply keeps_gets) : legion.
#[local] Hint Extern 1 (keeps _ _) => (apply keeps_answers; apply HP) : legion.

Lemma keeps_requireWorkspace l : keeps (unowned l) (requireWorkspace run).
Proof.
  unfold requireWorkspace, loadExecutableManifest. destruct kp_getLatestByRunId as [m|] eqn:Hm; [|auto with legion].
  assert (keeps (unowned l) (m (run_id run))) by by apply keeps_answers; eapply hp_workspace.
  solve_keeps; destruct (decide _); auto with legion.
Qed.

Lemma keeps_begin l : keeps (unowned l) (begin_artifacts turn).
Proof.
  unfold begin_artifacts, capture, captureResume, set_artifact_fields. cbn [bool_decide andb].
  solve_keeps; (apply keeps_try_catch; [|intros; auto with legion]); [auto with legion|].
  destruct kp_captureResumeSnapshot as [m|] eqn:Hm; [|auto with legion]. solve_keeps.
Qed.

(** Only a start moves the status of a new coordinator, to [in_progress]. *)
Lemma start_in_progress (l : World (K:=K)) :
  wp (startNow options) (fun _ l' => c_status (fst l') = in_progress) (fun _ _ => True) l.
Proof.
  unfold startNow. apply wp_last. intros c l1. destruct (c_accepted c); [done|].
  apply wp_bind, wp_lift; [|done]. intros next Htr. apply transition_ok in Htr as [-> _].
  do 7 (apply wp_last; intros ? ?). by unfold wp.
Qed.

Lemma newborn_calm k (w : KW) l x :
  default 0 (o_initialSequence options) = 0 -> sink_inv k -> sink_log (o_turnId options) k = [] ->
  newborn k w -> startNow options (kw_lifecycle w) = (Ok x, l) ->
  calm 0 0 (mkKWorld l (kw_slots w) (kw_env w)).
Proof.
  intros Hi Hk Hlog (Hl & Ho & Ha & He) Hrun. rewrite Hl in Hrun.
  assert (Hop : run_op options OpStart (new_coordinator options, k) = (Ok tt, l)).
  { cbn. unfold mbind, ST_bind. by rewrite Hrun. }
  pose proof (start_in_progress (new_coordinator options, k)) as Hst.
  unfold wp in Hst. rewrite Hrun in Hst.
  pose proof (run_op_closable options Henv OpStart (new_coordinator options, k)) as Hg.
  unfold wp in Hg. rewrite Hop in Hg.
  destruct Hg as [Hg Hc]; [by apply new_coordinator_good|right; left; apply new_coordinator_settleable|done|].
  assert (Hfresh : forall i, fresh_item (fst l) i).
  { intros i. pose proof (run_op_fresh options OpStart i (new_coordinator options, k)) as Hf.
    rewrite Hop in Hf. by apply Hf. }
  split; [split; try done|right; split; [done|]|done].
  - split; [done|]. unfold coordinator_of. cbn. by rewrite Hst.
  - pose proof (run_op_owners options OpStart (fun i => ~ kernel_owned turn i) (new_coordinator options, k)) as Hown.
    rewrite Hop in Hown. by apply Hown.
  - intros n _. apply Hfresh.
  - intros n _. apply Hfresh.
  - intros _. apply Hfresh.
  - intros a Hp. pose proof (run_op_pending options OpStart (fun _ => False) (new_coordinator options, k)) as Hpend.
    rewrite Hop in Hpend. by eapply Hpend.
Qed.

Lemma prepare_calm (w : KW) :
  default 0 (o_initialSequence options) = 0 -> sink_inv (snd (kw_lifecycle w)) ->
  sink_log (o_turnId options) (snd (kw_lifecycle w)) = [] ->
  emission_ok (kw_slots w) -> sl_lifecycle (kw_slots w) = false ->
  wp (prepareTurn options run turn) (fun _ => calm 0 0) (fun _ _ => True) w.
Proof.
  intros Hi Hk Hlog He Hl. set (l := kw_lifecycle w) in *.
  assert (Hw : unowned l w) by done. clearbody l. clear He Hl.
  assert (Hthen : forall A B (m : KO A) (f : A -> KO B) w, keeps (unowned l) m -> unowned l w ->
    (forall a w', unowned l w' -> wp (f a) (fun _ => calm 0 0) (fun _ _ => True) w') ->
    wp (m ≫= f) (fun _ => calm 0 0) (fun _ _ => True) w).
  { intros A B m f w0 Hm Hw0 Hf. apply wp_bind. eapply wp_mono; [by apply (proj1 (wp_keeps _ _) Hm)|done|done]. }
  unfold prepareTurn. apply Hthen; [apply keeps_throw_if|done|]. intros [] w1 Hw1.
  apply Hthen; [unfold assertTurnAvailable; solve_keeps|done|]. intros [] w2 Hw2.
  apply Hthen; [|done|].
  { destruct (decide _); [auto with legion|]. apply keeps_bind; [apply keeps_requireWorkspace|auto with legion]. }
  intros ws w3 Hw3. apply Hthen; [|done|].
  { destruct ws; [|auto with legion]. unfold createArtifactSettlement.
    solve_keeps. apply keeps_begin. }
  intros start w4 (Hl4 & He4 & Hlife). apply wp_bind. unfold createLifecycle, assertTurnAvailable.
  apply wp_bind, wp_bind, wp_gets. rewrite Hl4. unfold throw_if at 1. apply wp_ret, wp_bind.
  do 2 (unfold wp at 1; cbn). do 2 (apply wp_bind; unfold wp at 1; cbn).
  apply wp_bind. set (w5 := mkKWorld _ _ _).
  assert (Hw5 : newborn (snd l) w5) by (subst w5; split_and!; cbn; [by rewrite Hlife|done..]).
  assert (Hw6 : newborn (snd l) (kp_others w5)).
  { eapply steps_stable; [apply newborn_stable|by eapply steps_others|done]. }
  unfold wp at 1, lc. destruct (startNow options (kw_lifecycle (kp_others w5))) as [[x|e] l'] eqn:Hrun; [|done].
  pose proof (newborn_calm _ _ _ _ Hi Hk Hlog Hw6 Hrun) as Hc.
  apply wp_bind. eapply wp_mono; [|intros ? w7 Hw7; exact Hw7|done].
  destruct start as [[]|]; [|done].
  eapply wp_mono; [apply (ready_calls options turn Henv _ 0 0 []); [auto with legion|by apply ready_nil]| |done].
  by intros ? w7 [].
Qed.
End Settlement.

(** * The bound of the loop *)

Section Bound.
Context `{!JsRuntime} {K E : Type} `{!LifecycleSink K, !KernelPorts K E}.
Variable options : RuntimeLifecycleCoordinatorOptions.
Variable run : Run.
Variable turn : Turn.
Variable maxToolCalls : Z.

Notation KW := (KWorld K E).
#[local] Notation executeLoop := (executeLoop options run turn maxToolCalls).

(** What the loop is known to return from the round [n] on. *)
Definition loop_bound (fuel : nat) (n : Z) (r : option LoopResult) : Prop :=
  match r with
  | Some l => n <= lr_toolCallCount l <= maxToolCalls
  | None => kp_flushThreadInputs (K:=K) (E:=E) <> None \/ Z.of_nat fuel <= maxToolCalls - n \/ fuel = O
  end.

Lemma executeLoop_bound fuel ws ctx n results (w : KW) :
  wp (executeLoop fuel ws ctx n results) (fun r _ => loop_bound fuel n r) (fun _ _ => True) w.
Proof.
  revert ctx n results w. induction fuel as [|fuel IH]; intros ctx n results w.
  { unfold wp; cbn. by right; right. }
  cbn [RuntimeKernel.executeLoop]. destruct (maxToolCalls <? n) eqn:Hmax; [done|]. apply Z.ltb_ge in Hmax.
  do 2 (apply wp_last; intros ? ?). destruct a0 as [i output reasoning usage|i content commentary reasoning usage].
  - do 2 (apply wp_last; intros ? ?). destruct a1.
    + apply wp_last; intros ? ?. unfold wp; cbn. lia.
    + unfold flush_inputs. destruct kp_flushThreadInputs as [flush|] eqn:Hflush; [|done].
      apply wp_last; intros [] ?; [|done]. eapply wp_mono; [apply IH| |done]. intros [l|] ? Hl; [done|].
      left. by rewrite Hflush.
  - apply wp_last; intros ? ?. unfold loop_tool. destruct (n =? maxToolCalls) eqn:Hn.
    { apply wp_bind. unfold wp at 1. done. }
    apply Z.eqb_neq in Hn. apply wp_last; intros ? ?.
    eapply wp_mono; [apply IH| |done]. intros [l|] ?; cbn; [lia|].
    intros [Hf|[Hl| ->]]; [by left|right; left; lia|right; left; cbn; lia].
Qed.

(** Enough fuel: one round per tool call, and one more. *)
Definition enough_fuel (fuel : nat) : Prop :=
  kp_flushThreadInputs (K:=K) (E:=E) = None /\ maxToolCalls < Z.of_nat fuel /\ (0 < fuel)%nat.

Lemma enough_returns fuel r : enough_fuel fuel -> loop_bound fuel 0 r -> is_some r = true.
Proof.
  intros (Hf & Hm & H0). destruct r; [done|]. cbn. rewrite Hf. intros [?|[?|?]]; [done|lia|lia].
Qed.

Lemma startPreparedTurn_returns fuel prepared (w : KW) :
  enough_fuel fuel ->
  wp (startPreparedTurn options run turn maxToolCalls fuel prepared)
    (fun r _ => is_some r = true) (fun _ _ => True) w.
Proof.
  intros Hfuel. unfold startPreparedTurn. do 2 (apply wp_last; intros ? ?).
  destruct a0; [by do 3 (apply wp_last; intros ? ?)|]. apply wp_last; intros ? ?.
  do 2 apply wp_finally. apply wp_bind, wp_try_catch.
  eapply (wp_mono _ (fun r _ => is_some r = true) _ (fun _ _ => True)).
  - unfold run_turn. apply wp_last; intros [] ?; [done|]. do 3 (apply wp_last; intros ? ?).
    apply wp_bind. eapply wp_mono; [apply executeLoop_bound| |done]. cbn. intros r w1 Hr.
    apply enough_returns in Hr; [|done]. destruct r as [l|]; [|done].
    by do 5 (apply wp_last; intros ? ?).
  - intros r ? Hr. unfold wp; cbn. by destruct r.
  - intros e ? _. apply wp_last; intros ? ?. done.
Qed.

(** More fuel does not change a result. *)
Lemma executeLoop_fuel fuel fuel' ws ctx n results (w : KW) r w' :
  executeLoop fuel ws ctx n results w = (r, w') -> r <> Ok None -> (fuel <= fuel')%nat ->
  executeLoop fuel' ws ctx n results w = (r, w').
Proof.
  revert fuel' ctx n results w. induction fuel as [|fuel IH]; intros fuel' ctx n results w Hrun Hr Hle.
  { injection Hrun as <- <-. done. }
  destruct fuel' as [|fuel']; [lia|]. cbn [RuntimeKernel.executeLoop] in *.
  destruct (maxToolCalls <? n); [done|]. unfold mbind, ST_bind in *.
  destruct (next_context _ _ _ _ w) as [[c|] w1]; [|done].
  destruct (generate_step c results w1) as [[[i output reasoning usage|i content commentary reasoning usage]|] w2]; [| |done].
  - destruct (record_usage _ _ _ _ w2) as [[[]|] w3]; [|done].
    destruct (reserve_completion w3) as [[[]|] w4]; [done| |done].
    destruct (flush_inputs w4) as [[[]|] w5]; [|done|done]. apply IH; [done|done|lia].
  - destruct (record_usage _ _ _ _ w2) as [[[]|] w3]; [|done].
    destruct (loop_tool _ _ _ _ _ _ _ _ _ _ w3) as [[o|] w4]; [|done]. apply IH; [done|done|lia].
Qed.
End Bound.

(** * Properties *)

(** C2. A turn the kernel has prepared ends.  Whatever the model, the tools, the
    user and the other entry points do within the ports' promises, when
    [startPreparedTurn] is done the log of the turn projects to a state that agrees
    with the coordinator, and the turn has ended, also when it throws; but for the
    following.  The turn was interrupted before it ran, or it ran into an error, and
    then either settling its artifacts threw the very exception that is thrown - which
    is no excuse when the artifacts are what the turn had run into already - or the
    settlement due was tried on the coordinator and thrown back: [interrupt] with the
    reason chosen, when the error is a cancellation or the turn was aborted, [fail] with
    the failure made of the error otherwise.  The exception is then the one the
    coordinator threw, and the settlement is one the protocol refuses (a reason that is
    empty or too long, a failure that is no [ProtocolError]), or too few sequence numbers
    are left to close what is open.
    Without thread inputs, [maxToolCalls] and one more rounds are enough. *)
Theorem prepared_turn_ends `{!JsRuntime} {K E : Type}
    `{!LifecycleSink K, !LifecycleSinkLaws K, !SinkAvailable K, !KernelPorts K E}
    options run turn maxToolCalls fuel prepared (w0 w w' : KWorld K E) r :
  env_valid options -> HonestPorts (K:=K) (E:=E) options turn ->
  default 0 (o_initialSequence options) = 0 -> sink_inv (snd (kw_lifecycle w0)) ->
  sink_log (o_turnId options) (snd (kw_lifecycle w0)) = [] ->
  sl_lifecycle (kw_slots w0) = false -> sl_emission (kw_slots w0) = absent ->
  prepareTurn options run turn w0 = (Ok prepared, w) ->
  startPreparedTurn options run turn maxToolCalls fuel prepared w = (r, w') ->
  (exists p, project_from (createState (o_turnId options))
     (sink_log (o_turnId options) (snd (kw_lifecycle w'))) = Ok p /\ sim options (coordinator_of w') p) /\
  match r with
  | Ok None => ~ enough_fuel (K:=K) (E:=E) maxToolCalls fuel
  | Ok (Some _) => isTerminal (coordinator_of w') = true
  | Err e => isTerminal (coordinator_of w') = true \/
      start_unsettled options run turn maxToolCalls fuel prepared w e w'
  end.
Proof.
  intros Henv HP Hi Hk Hlog Hl Hem Hprep Hrun.
  pose proof (prepare_calm options run turn Henv w0 Hi Hk Hlog) as Hc. unfold wp in Hc. rewrite Hprep in Hc.
  assert (Hw : calm options turn 0 0 w) by (apply Hc; [by intros e; rewrite Hem|done]).
  pose proof (start_lets_go options run turn maxToolCalls Henv fuel prepared w Hw) as Hgo.
  unfold wp in Hgo. rewrite Hrun in Hgo.
  assert (let_go options (start_unsettled options run turn maxToolCalls fuel prepared w) r w') as [Hg Hr]
    by by destruct r.
  split.
  - destruct (kw_lifecycle w') as [c k] eqn:Hkw.
    destruct (good_project _ _ _ Hg) as (p & Hp & Hsim & _). exists p.
    unfold coordinator_of. by rewrite Hkw.
  - destruct r as [[x|]|e]; try done. intros Hf.
    pose proof (startPreparedTurn_returns options run turn maxToolCalls fuel prepared w Hf) as Hret.
    unfold wp in Hret. by rewrite Hrun in Hret.
Qed.

Lemma prepared_turn_ends_witness :
  let R := iso_runtime in
  fst demo_end = Ok (Some (mkStartTurnResult "done" 1 (Some demo_manifest))) /\
  (exists p, project_from (createState "trn_demo01")
     (sink_log (H0 := memory_sink (H := R)) "trn_demo01" (snd (kw_lifecycle (snd demo_end)))) = Ok p /\
     sim demo_options (coordinator_of (snd demo_end)) p) /\
  isTerminal (coordinator_of (snd demo_end)) = true.
Proof.
  intros R. split; [exact (f_equal fst demo_ends)|].
  exact (prepared_turn_ends demo_options demo_run demo_turn 5 6 demo_prepared demo_kernel
    (snd demo_start) (snd demo_end) _ demo_env demo_honest eq_refl empty_store_sink eq_refl eq_refl eq_refl
    demo_prepares demo_ends).
Defined.

(** C17. The loop is bounded whatever its ports do.  The tools executed while it runs
    are those of at most [maxToolCalls] rounds, one per tool call of the model, and a
    round executes nothing, its tool once, or its tool a second time with the approval
    the first execution has asked for; this is stated of any log of the executions
    that the ports keep, and so of the number of executions too.  The count a result
    reports is that of the rounds.  Without thread inputs to repeat a round for,
    [maxToolCalls] and one more rounds of the loop are enough for a result; and a
    result does not depend on the fuel. *)
Theorem executeLoop_bounded `{!JsRuntime} {K E : Type} `{!LifecycleSink K, !KernelPorts K E}
    options run turn maxToolCalls fuel ws ctx (w w' : KWorld K E) r :
  executeLoop options run turn maxToolCalls fuel ws ctx 0 [] w = (r, w') ->
  (forall executed, ToolLog (K:=K) (E:=E) executed ->
     exists rounds, executed (kw_env w') = executed (kw_env w) ++ concat rounds /\
       Forall tool_round rounds /\ Z.of_nat (length rounds) <= Z.max 0 maxToolCalls /\
       Z.of_nat (length (concat rounds)) <= 2 * Z.max 0 maxToolCalls /\
       forall l, r = Ok (Some l) -> lr_toolCallCount l = Z.of_nat (length rounds)) /\
  (forall l, r = Ok (Some l) -> 0 <= lr_toolCallCount l <= maxToolCalls) /\
  (enough_fuel (K:=K) (E:=E) maxToolCalls fuel -> r <> Ok None) /\
  (r <> Ok None -> forall fuel', (fuel <= fuel')%nat ->
     executeLoop options run turn maxToolCalls fuel' ws ctx 0 [] w = (r, w')).
Proof.
  intros Hrun. pose proof (executeLoop_bound options run turn maxToolCalls fuel ws ctx 0 [] w) as Hb.
  unfold wp in Hb. rewrite Hrun in Hb. split_and!.
  - intros executed HL. pose proof (executeLoop_rounds options run turn maxToolCalls executed fuel ws ctx 0 [] w) as Hr.
    rewrite Hrun in Hr. destruct Hr as (rounds & Hlog & Hall & Hlen & Hcount). exists rounds.
    rewrite Z.sub_0_r in Hlen. pose proof (rounds_length rounds Hall). split_and!; [done..|lia|done].
  - by intros l ->.
  - intros Hf ->. by apply enough_returns in Hb.
  - intros Hr fuel' Hle. by eapply executeLoop_fuel.
Qed.

(** In the demo turn the tool is executed, and again when the user has approved it. *)
Lemma demo_log : ToolLog (K:=MemoryLifecycleEventStore) (E:=DemoLog) id.
Proof.
  split; try done; try (intros; intros l w Hw; exact Hw).
  - intros c [a|] w; [done|]. cbn. unfold executing, naming. by destruct (dget _ _).
  - intros a l w Hw. cbn. by repeat case_match.
  - intros c [|r rs] l w Hw; cbn; unfold naming; by destruct (dget _ _).
Qed.
Lemma executeLoop_bounded_witness :
  let R := iso_runtime in
  fst (demo_loop 6) = Ok (Some (mkLoop "done" 1 "itm_answer1")) /\
  kw_env (snd (demo_loop 6)) = [(demo_call, None); (demo_call, Some demo_resolution)] /\
  (exists rounds, kw_env (snd (demo_loop 6)) = kw_env (snd demo_start) ++ concat rounds /\
     Forall tool_round rounds /\ Z.of_nat (length rounds) <= 5) /\
  (forall l, fst (demo_loop 6) = Ok (Some l) -> 0 <= lr_toolCallCount l <= 5) /\
  (enough_fuel (K:=MemoryLifecycleEventStore) (E:=DemoLog) 5 6 -> fst (demo_loop 6) <> Ok None) /\
  (fst (demo_loop 6) <> Ok None -> forall fuel, (6 <= fuel)%nat -> demo_loop fuel = demo_loop 6).
Proof.
  intros R. split; [by vm_compute|]. split; [by vm_compute|].
  destruct (executeLoop_bounded demo_options demo_run demo_turn 5 6 (pt_workspace demo_prepared)
    (mkContext "" [] None None) (snd demo_start) (snd (demo_loop 6)) (fst (demo_loop 6))
    (surjective_pairing (demo_loop 6))) as (H0 & H1 & H2 & H3).
  split_and!; [|exact H1|exact H2|].
  - destruct (H0 id demo_log) as (rounds & Hlog & Hall & Hlen & _). exists rounds. split_and!; [exact Hlog|exact Hall|exact Hlen].
  - intros Hr fuel Hf. rewrite (surjective_pairing (demo_loop 6)). by apply H3.
Defined.
