(* ===== verification/Async.v ===== *)
(** Asynchronous JavaScript operations that share a store: an [async] function
    runs without interruption from one [await] to the next, and other operations
    may run in between.  [async] is the tree of an operation's segments; [run]
    completes one alone, a [pool] interleaves many, and [holds] is the
    rely/guarantee condition under which a pool keeps an invariant. *)
From S2P Require Import Prelude.

Section Async.
Context {S E : Type}.

(** An operation that has settled, or one whose next segment changes the store by
    [effect] and leaves, at its next [await], the rest of the operation. *)
Inductive async (A : Type) : Type :=
| Settled (r : res E A)
| Segment (effect : S -> S) (rest : S -> async A).
Arguments Settled {A} r.
Arguments Segment {A} effect rest.

#[export] Instance async_ret : MRet async := fun A a => Settled (Ok a).

Fixpoint async_then {A B} (k : A -> async B) (m : async A) : async B :=
  match m with
  | Settled (Ok a) => k a
  | Settled (Err e) => Settled (Err e)
  | Segment effect rest => Segment effect (fun s => async_then k (rest s))
  end.
#[export] Instance async_bind : MBind async := @async_then.

(** One segment, and a synchronous result. *)
Definition segment {A} (m : ST S E A) : async A :=
  Segment (fun s => snd (m s)) (fun s => Settled (fst (m s))).
Definition now {A} (r : res E A) : async A := Settled r.

(** [for (const x of xs) await f(x)], collecting the results. *)
Fixpoint async_each {A B} (f : A -> async B) (xs : list A) : async (list B) :=
  match xs with
  | [] => mret []
  | x :: xs' => y ← f x; ys ← async_each f xs'; mret (y :: ys)
  end.

(** [Promise.all] of two: a segment of each in turn; a rejection rejects at
    once. *)
Fixpoint both {A B} (m : async A) (n : async B) : async (A * B) :=
  match m with
  | Settled (Ok a) => b ← n; mret (a, b)
  | Settled (Err e) => Settled (Err e)
  | Segment f rest_m =>
      match n with
      | Settled (Ok b) => a ← m; mret (a, b)
      | Settled (Err e) => Settled (Err e)
      | Segment g rest_n =>
          Segment (fun s => g (f s)) (fun s => both (rest_m s) (rest_n (f s)))
      end
  end.
Fixpoint promise_all {A} (ms : list (async A)) : async (list A) :=
  match ms with
  | [] => mret []
  | m :: ms' => '(a, l) ← both m (promise_all ms'); mret (a :: l)
  end.

(** The operation with no other running. *)
Fixpoint run {A} (m : async A) : ST S E A := fun s =>
  match m with
  | Settled r => (r, s)
  | Segment effect rest => run (rest s) (effect s)
  end.

(** * Interleaving *)

(** The operations that have been called are a list, in order of their calls. *)

(** A new call, or the next segment of one of the operations. *)
Inductive pool_step {A} (starts : async A -> Prop) : list (async A) * S -> list (async A) * S -> Prop :=
| pool_call ops s m : starts m -> pool_step starts (ops, s) (ops ++ [m], s)
| pool_run ops s i effect rest :
    ops !! i = Some (Segment effect rest) ->
    pool_step starts (ops, s) (<[i := rest s]> ops, effect s).

Definition pool_steps {A} (starts : async A -> Prop) := rtc (@pool_step A starts).

Definition settled_all {A} (ops : list (async A)) : Prop :=
  Forall (fun m => exists r, m = Settled r) ops.

(** The next segment of the [i]th operation, if it has one; a schedule runs one
    segment after another. *)
Definition run_one {A} (i : nat) (c : list (async A) * S) : list (async A) * S :=
  match c.1 !! i with
  | Some (Segment effect rest) => (<[i := rest c.2]> c.1, effect c.2)
  | _ => c
  end.
Definition schedule {A} (turns : list nat) (c : list (async A) * S) : list (async A) * S :=
  fold_left (fun c i => run_one i c) turns c.

(** * Facts *)

Lemma schedule_steps {A} (starts : async A -> Prop) turns c : pool_steps starts c (schedule turns c).
Proof.
  revert c. induction turns as [|i turns IH]; intros c; [apply rtc_refl|]. cbn. etransitivity; [|apply IH].
  unfold run_one. destruct c as [ops s]. cbn. destruct (ops !! i) as [[r|effect rest]|] eqn:Hi;
    [apply rtc_refl| |apply rtc_refl]. apply rtc_once. by apply pool_run.
Qed.

Lemma calls_steps {A} (starts : async A -> Prop) ms ops s :
  Forall starts ms -> pool_steps starts (ops, s) (ops ++ ms, s).
Proof.
  intros Hms. revert ops. induction Hms as [|m ms Hm _ IH]; intros ops; [by rewrite app_nil_r|].
  eapply rtc_l; [by apply pool_call|]. replace (ops ++ m :: ms) with ((ops ++ [m]) ++ ms); [apply IH|].
  by rewrite <- app_assoc.
Qed.

Lemma run_bind {A B} (m : async A) (k : A -> async B) s :
  run (m ≫= k) s = match run m s with (Ok a, s') => run (k a) s' | (Err e, s') => (Err e, s') end.
Proof. revert s. induction m as [[a|e]|effect rest IH]; intros s; [done|done|]. apply IH. Qed.

Lemma run_segment {A} (m : ST S E A) s : run (segment m) s = m s.
Proof. cbn. by destruct (m s). Qed.

Lemma run_now {A B} (r : res E A) (k : A -> async B) s :
  run (now r ≫= k) s = match r with Ok a => run (k a) s | Err e => (Err e, s) end.
Proof. by destruct r. Qed.

Lemma run_segment_bind {A B} (m : ST S E A) (k : A -> async B) s :
  run (segment m ≫= k) s = match m s with (Ok a, s') => run (k a) s' | (Err e, s') => (Err e, s') end.
Proof. by rewrite run_bind, run_segment. Qed.

End Async.
Arguments async : clear implicits.
Arguments Settled {S E A} r.
Arguments Segment {S E A} effect rest.

(** * One operation among others *)

(** How an operation can settle when others change the store between its segments
    as [others] allows: [ss] are the stores its segments found. *)
Section Plays.
Context {S E : Type} (others : S -> S -> Prop).

Inductive plays {A : Type} : async S E A -> S -> list S -> res E A -> Prop :=
| plays_settled r s : plays (Settled r) s [] r
| plays_step effect rest s s1 ss r :
    others s s1 -> plays (rest s1) (effect s1) ss r -> plays (Segment effect rest) s (s1 :: ss) r.

Lemma plays_settled_inv {A} (r r' : res E A) s ss : plays (Settled r) s ss r' -> r' = r /\ ss = [].
Proof. intros H. by inversion H. Qed.

Lemma plays_ret_inv {A} (a : A) r s ss : plays (mret a) s ss r -> r = Ok a /\ ss = [].
Proof. apply plays_settled_inv. Qed.

Lemma plays_segment_inv {A} (m : ST S E A) r s ss :
  plays (segment m) s ss r -> exists s1, others s s1 /\ ss = [s1] /\ r = fst (m s1).
Proof.
  intros H. inversion H as [|effect rest s' s1 ss' r' Ho Hp]; subst. apply plays_settled_inv in Hp as [-> ->].
  by exists s1.
Qed.

Lemma plays_bind_inv {A B} (m : async S E A) (k : A -> async S E B) r s ss :
  plays (m ≫= k) s ss r ->
  (exists e, r = Err e /\ plays m s ss (Err e)) \/
  (exists a s' ss1 ss2, ss = ss1 ++ ss2 /\ plays m s ss1 (Ok a) /\ plays (k a) s' ss2 r).
Proof.
  revert s ss. induction m as [[a|e]|effect rest IH]; intros s ss H; cbn in H.
  - right. exists a, s, [], ss. split; [done|]. split; [constructor|done].
  - left. apply plays_settled_inv in H as [-> ->]. exists e. split; [done|constructor].
  - inversion H as [|effect' rest' s' s1 ss' r' Ho Hp]; subst.
    destruct (IH s1 _ _ Hp) as [(e & -> & He)|(a & s2 & ss1 & ss2 & -> & H1 & H2)].
    + left. exists e. split; [done|by constructor].
    + right. exists a, s2, (s1 :: ss1), ss2. split; [done|]. split; [by constructor|done].
Qed.

(** A segment first, with the store it leaves behind *)
Lemma plays_segment_bind_inv {A B} (m : ST S E A) (k : A -> async S E B) r s ss :
  plays (segment m ≫= k) s ss r ->
  exists s1 ss', others s s1 /\ ss = s1 :: ss' /\
    match fst (m s1) with
    | Ok a => plays (k a) (snd (m s1)) ss' r
    | Err e => r = Err e
    end.
Proof.
  intros H. inversion H as [|effect rest s' s1 ss' r' Ho Hp]; subst. exists s1, ss'. split; [done|]. split; [done|].
  destruct (fst (m s1)) as [a|e]; [done|]. by apply plays_settled_inv in Hp as [-> _].
Qed.

(** One operation followed by [k], or by any of [k'] where the play of [k] can be had
    from them *)
Lemma plays_bind_cases {A B I} (P : Prop) (m : async S E A) (m' : I -> async S E A) (k : A -> async S E B)
    (k' : I -> A -> async S E B) r s ss :
  plays (m ≫= k) s ss r -> (forall i, m' i = m) ->
  (forall a s' ss1 ss2, ss = ss1 ++ ss2 -> plays m s ss1 (Ok a) -> plays (k a) s' ss2 r ->
     P \/ forall i, plays (k' i a) s' ss2 r) ->
  P \/ forall i, plays (m' i ≫= k' i) s ss r.
Proof.
  intros H Hm Hk. cut (P \/ forall i, plays (m ≫= k' i) s ss r).
  { intros [HP|Hp]; [by left|]. right. intros i. by rewrite Hm. }
  clear Hm m'. revert s ss H Hk. induction m as [[a|e]|effect rest IH]; intros s ss H Hk; cbn in H.
  - destruct (Hk a s [] ss eq_refl ltac:(constructor) H) as [Hp|Hp]; [by left|by right].
  - by right.
  - inversion H as [|effect' rest' s' s1 ss' r' Ho Hp]; subst.
    destruct (IH s1 _ _ Hp) as [HP|Hq]; [|by left|right; intros i; by constructor].
    intros a t ss1 ss2 -> Hm. apply (Hk a t (s1 :: ss1) ss2); [done|by constructor].
Qed.
End Plays.

(** An operation of a pool settles in one of these ways. *)
Lemma pool_plays {S E A} (starts : async S E A -> Prop) ops s ops' s' i m r :
  pool_steps starts (ops, s) (ops', s') -> ops !! i = Some m -> ops' !! i = Some (Settled r) ->
  exists ss, plays (fun _ _ => True) m s ss r.
Proof.
  intros Hst. remember (ops, s) as c eqn:Hc. remember (ops', s') as c' eqn:Hc'. revert ops s m Hc.
  induction Hst as [c|c [ops1 s1] c' Hxy Hyz IH]; intros ops s m -> Hm Hr; simplify_eq.
  { exists []. constructor. }
  specialize (IH eq_refl). inversion Hxy as [? ? m' Hs|? ? j effect rest Hj]; subst; clear Hxy.
  - destruct (IH _ _ m eq_refl) as [ss Hp]; [|done|]; [by apply lookup_app_l_Some|by exists ss].
  - destruct (decide (i = j)) as [->|Hne].
    + assert (m = Segment effect rest) as -> by congruence.
      destruct (IH _ _ (rest s) eq_refl) as [ss Hp]; [|done|].
      * apply list_lookup_insert_eq. by eapply lookup_lt_Some.
      * exists (s :: ss). by constructor.
    + destruct (IH _ _ m eq_refl) as [ss Hp]; [by rewrite list_lookup_insert_ne|done|].
      exists ss. clear -Hp. inversion Hp; subst; by econstructor.
Qed.

(** * Rely and guarantee *)

(** What others may do to the store between two segments of operation [i] is its
    [rely]; a segment keeps the invariant and does to the others only what they
    rely on.  The auxiliary state [G] is who owns what: it exists in proofs
    only. *)
Section Interference.
Context {S E G : Type}.
Context (Inv : S -> G -> Prop) (rely : nat -> S * G -> S * G -> Prop) (fresh : nat -> G -> Prop).
Context `{!forall i, PreOrder (rely i)}.
Context (fresh_rely : forall i s g s' g', rely i (s, g) (s', g') -> fresh i g -> fresh i g').

Section Operation.
Context (i : nat).

(** [Q] holds of the result whenever the operation settles. *)
Fixpoint holds {A} (Q : res E A -> S -> G -> Prop) (m : async S E A) (s : S) (g : G) : Prop :=
  match m with
  | Settled r => Q r s g
  | Segment effect rest =>
      forall s1 g1, rely i (s, g) (s1, g1) -> Inv s1 g1 ->
      exists g2, Inv (effect s1) g2 /\
        (forall j, j <> i -> rely j (s1, g1) (effect s1, g2)) /\
        holds Q (rest s1) (effect s1) g2
  end.

Definition stable (P : S -> G -> Prop) : Prop :=
  forall s g s' g', rely i (s, g) (s', g') -> Inv s' g' -> P s g -> P s' g'.

Lemma holds_ret {A} Q (a : A) s g : Q (Ok a) s g -> holds Q (mret a) s g.
Proof. done. Qed.

Lemma holds_mono {A} (Q Q' : res E A -> S -> G -> Prop) m s g :
  holds Q m s g -> (forall r s g, Q r s g -> Q' r s g) -> holds Q' m s g.
Proof.
  intros Hm HQ. revert s g Hm. induction m as [r|effect rest IH]; cbn; intros s g Hm; [by apply HQ|].
  intros s1 g1 Hr HI. destruct (Hm s1 g1 Hr HI) as (g2 & ? & ? & ?). exists g2. eauto.
Qed.

Lemma holds_bind {A B} (m : async S E A) (k : A -> async S E B) Q s g :
  holds (fun r s g => match r with Ok a => holds Q (k a) s g | Err e => Q (Err e) s g end) m s g ->
  holds Q (m ≫= k) s g.
Proof.
  revert s g. induction m as [[a|e]|effect rest IH]; cbn; intros s g Hm; [done|done|].
  intros s1 g1 Hr HI. destruct (Hm s1 g1 Hr HI) as (g2 & ? & ? & ?). exists g2.
  split_and!; [done|done|]. by apply IH.
Qed.

(** A segment, when what is known before it is stable. *)
Lemma holds_segment {A} (m : ST S E A) P Q s g :
  stable P -> P s g ->
  (forall s1 g1, P s1 g1 -> Inv s1 g1 -> exists g2, Inv (snd (m s1)) g2 /\
     (forall j, j <> i -> rely j (s1, g1) (snd (m s1), g2)) /\ Q (fst (m s1)) (snd (m s1)) g2) ->
  holds Q (segment m) s g.
Proof. intros HP Hs Hm s1 g1 Hr HI. apply Hm; [by eapply HP|done]. Qed.

(** A segment that only reads. *)
Lemma holds_read {A} (m : ST S E A) P Q s g :
  (forall s, snd (m s) = s) -> stable P -> P s g ->
  (forall s1 g1, P s1 g1 -> Inv s1 g1 -> Q (fst (m s1)) s1 g1) ->
  holds Q (segment m) s g.
Proof.
  intros Hm HP Hs HQ. eapply holds_segment; [exact HP|exact Hs|]. intros s1 g1 H1 HI.
  exists g1. rewrite Hm. split_and!; [done|reflexivity|by apply HQ].
Qed.

Lemma stable_holds {A} (Q : res E A -> S -> G -> Prop) m :
  (forall r, stable (Q r)) -> stable (holds Q m).
Proof.
  intros HQ s g s' g' Hr HI. destruct m as [r|effect rest]; cbn; [by apply HQ|].
  intros Hm s1 g1 Hr1. apply Hm. by etransitivity.
Qed.
End Operation.

Context {A : Type} (Q : nat -> res E A -> S -> G -> Prop) (starts : async S E A -> Prop).
Context (Q_stable : forall i r, stable i (Q i r)).
Context (start_holds : forall i m s g, starts m -> fresh i g -> holds i (Q i) m s g).

Definition pool_ok (ops : list (async S E A)) (s : S) (g : G) : Prop :=
  Inv s g /\ (forall i m, ops !! i = Some m -> holds i (Q i) m s g) /\
  (forall i, (length ops <= i)%nat -> fresh i g).

Lemma pool_step_ok ops s ops' s' g :
  pool_ok ops s g -> pool_step starts (ops, s) (ops', s') -> exists g', pool_ok ops' s' g'.
Proof.
  intros (HI & Hops & Hf) Hst. inversion Hst as [? ? m Hm|? ? i effect rest Hi]; subst; clear Hst.
  - exists g. split_and!; [done| |].
    + intros i m' [Hi|[Hl Hi]]%lookup_app_Some; [by apply Hops|].
      destruct (i - length ops)%nat; simplify_eq/=. apply start_holds; [done|]. by apply Hf.
    + intros i Hi. rewrite length_app in Hi. cbn in Hi. apply Hf. lia.
  - destruct (Hops i _ Hi s g ltac:(reflexivity) HI) as (g2 & HI2 & Hr & Hk). exists g2.
    assert (Hlt : (i < length ops)%nat) by (by eapply lookup_lt_Some).
    split_and!; [done| |].
    + intros j m [(-> & <- & _)|(Hne & Hj)]%list_lookup_insert_Some; [by apply Hk|].
      eapply stable_holds; [apply Q_stable|by apply Hr|done|by apply Hops].
    + intros j Hj. rewrite length_insert in Hj. eapply fresh_rely; [apply Hr; lia|by apply Hf].
Qed.

(** However the operations interleave, the invariant holds, and every settled
    operation has its postcondition. *)
Lemma pool_steps_ok ops s ops' s' g :
  pool_ok ops s g -> pool_steps starts (ops, s) (ops', s') -> exists g', pool_ok ops' s' g'.
Proof.
  intros Hok Hst. remember (ops, s) as c eqn:Hc. remember (ops', s') as c' eqn:Hc'.
  revert ops s g Hok Hc. induction Hst as [|x [ops1 s1] z Hxy Hyz IH]; intros ops s g Hok ->; simplify_eq.
  - by exists g.
  - destruct (pool_step_ok _ _ _ _ _ Hok Hxy) as [g1 Hok1]. by eapply IH.
Qed.
End Interference.
