(* ===== verification/Text.v ===== *)
(** Cutting texts at a character, as [split] and [indexOf] do, and numbers read
    from texts: what the parsers of JSON and of git's output share. *)
From S2P Require Import Prelude Js.
From Stdlib Require Import Ascii.
#[local] Open Scope Z_scope.

(** [s.split(c)] for a single character *)
Fixpoint split_on (c : ascii) (s : string) : list string :=
  match s with
  | EmptyString => [""]
  | String x s' =>
      if Ascii.eqb x c then "" :: split_on c s'
      else match split_on c s' with
           | first :: others => String x first :: others
           | [] => [String x ""]
           end
  end.

(** What is before the first [c] and what is after it: [indexOf] and two
    [slice]s. *)
Fixpoint cut (c : ascii) (s : string) : option (string * string) :=
  match s with
  | EmptyString => None
  | String x s' =>
      if Ascii.eqb x c then Some ("", s')
      else '(a, b) ← cut c s'; Some (String x a, b)
  end.

Definition NUL : ascii := ascii_of_nat 0.
Definition TAB : ascii := ascii_of_nat 9.
Definition LF : ascii := ascii_of_nat 10.
Definition CR : ascii := ascii_of_nat 13.

(** [s.includes(c)] for a single character *)
Fixpoint has_char (c : ascii) (s : string) : bool :=
  match s with String x s' => Ascii.eqb x c || has_char c s' | EmptyString => false end.

(** [s.split(/\r?\n/u)] *)
Definition strip_cr (s : string) : string := strip_end (String CR "") s.
Fixpoint split_lines_go (lines : list string) : list string :=
  match lines with
  | [] => []
  | [last] => [last]
  | line :: lines' => strip_cr line :: split_lines_go lines'
  end.
Definition split_lines (s : string) : list string := split_lines_go (split_on LF s).

Definition is_digit (c : ascii) : bool := ascii_between 48 57 c.

(** The longest prefix of characters of a class, and the rest *)
Fixpoint span (p : ascii -> bool) (s : string) : string * string :=
  match s with
  | String c s' => if p c then let '(a, b) := span p s' in (String c a, b) else ("", s)
  | EmptyString => ("", "")
  end.

(** [Number(text)] of a text that is not a plain decimal integer within
    [MAX_SAFE_INTEGER], nor empty; [None] is [NaN] or an infinity. *)
Class NumberTexts : Type := { other_number : string -> option jsnum }.

Section Numbers.
Context `{!NumberTexts}.

(** [Number(text)] *)
Definition Number_of (s : string) : option jsnum :=
  if String.eqb s "" then Some (NInt 0)
  else if str_forall is_digit s && (dec_value 0 s <=? MAX_SAFE_INTEGER)
       then Some (NInt (dec_value 0 s))
       else other_number s.
End Numbers.

(** [Number.parseInt(text, 10)]; beyond 2^53 the code rounds. *)
Definition parseInt (s : string) : option Z :=
  let s := trim_start s in
  let '(negative, s) :=
    match s with
    | String c s' => if Ascii.eqb c "-" then (true, s') else if Ascii.eqb c "+" then (false, s') else (false, s)
    | EmptyString => (false, s)
    end in
  let '(digits, _) := span is_digit s in
  if String.eqb digits "" then None
  else Some (if negative : bool then - dec_value 0 digits else dec_value 0 digits).

(** * Facts *)

Lemma has_char_app c a b : has_char c (a +:+ b) = has_char c a || has_char c b.
Proof. induction a as [|x a IH]; [done|]. rewrite append_cons. cbn. by rewrite IH, orb_assoc. Qed.

Lemma split_on_none c s : has_char c s = false -> split_on c s = [s].
Proof.
  induction s as [|x s IH]; [done|]. cbn. intros [Hx Hs]%orb_false_iff. rewrite Hx. by rewrite IH.
Qed.

Lemma split_on_cons c a b :
  has_char c a = false -> split_on c (a +:+ String c b) = a :: split_on c b.
Proof.
  induction a as [|x a IH]; intros Ha.
  - rewrite append_nil_l. cbn. by rewrite Ascii.eqb_refl.
  - cbn in Ha. apply orb_false_iff in Ha as [Hx Ha]. rewrite append_cons. cbn. by rewrite Hx, IH.
Qed.

(** Records ended by a character are what the text is split into, and one empty
    text after them. *)
Fixpoint terminated (c : ascii) (records : list string) : string :=
  match records with [] => "" | r :: rs => r +:+ String c (terminated c rs) end.

Lemma split_terminated c rs :
  Forall (fun r => has_char c r = false) rs -> split_on c (terminated c rs) = rs ++ [""].
Proof. induction 1 as [|r rs Hr _ IH]; [done|]. cbn [terminated]. by rewrite split_on_cons, IH. Qed.

Lemma cut_first c a b : has_char c a = false -> cut c (a +:+ String c b) = Some (a, b).
Proof.
  induction a as [|x a IH]; intros Ha.
  - rewrite append_nil_l. cbn. by rewrite Ascii.eqb_refl.
  - cbn in Ha. apply orb_false_iff in Ha as [Hx Ha]. rewrite append_cons. cbn. by rewrite Hx, IH.
Qed.

Lemma cut_Some c s a b : cut c s = Some (a, b) -> s = a +:+ String c b /\ has_char c a = false.
Proof.
  revert a b. induction s as [|x s IH]; intros a b; cbn; [done|].
  destruct (Ascii.eqb_spec x c) as [->|Hne]; [by intros [= <- <-]|].
  destruct (cut c s) as [[a' b']|]; [|done]. intros [= <- <-]. destruct (IH _ _ eq_refl) as [-> Ha].
  split; [done|]. cbn. apply Ascii.eqb_neq in Hne. by rewrite Hne.
Qed.

Lemma prefix_append p s : startsWith p (p +:+ s) = true.
Proof.
  unfold startsWith. induction p as [|c p IH]; [by destruct s|]. rewrite append_cons. cbn [String.prefix].
  by destruct (ascii_dec c c).
Qed.

Lemma slice_after_prefix p s : slice_from (String.length p) (p +:+ s) = s.
Proof.
  unfold slice_from. rewrite length_append.
  replace (String.length p + String.length s - String.length p)%nat with (String.length s) by lia.
  induction p as [|c p IH]; [rewrite append_nil_l; apply substring_all|]. by rewrite append_cons.
Qed.

Lemma span_length p s : (String.length (fst (span p s)) + String.length (snd (span p s)) = String.length s)%nat.
Proof. induction s as [|c s IH]; cbn; [done|]. destruct (p c), (span p s); cbn in *; lia. Qed.

Lemma span_all p a b :
  str_forall p a = true -> (forall c t, b = String c t -> p c = false) -> span p (a +:+ b) = (a, b).
Proof.
  intros Ha Hb. induction a as [|c a IH].
  - rewrite append_nil_l. destruct b as [|c t]; [done|]. cbn. by rewrite (Hb c t).
  - cbn in Ha. apply andb_true_iff in Ha as [Hc Ha]. rewrite append_cons. cbn. by rewrite Hc, IH.
Qed.

