(* ===== verification/Json.v ===== *)
(** [JSON.parse], [TextEncoder] and [TextDecoder], as far as the artifact store
    uses them, and that they undo [JSON.stringify] and each other.  Strings are of
    code units below 256; a text that escapes or encodes another one is
    [Unrepresentable]. *)
From S2P Require Import Prelude Js Text.
From Stdlib Require Import QArith_base Ascii.
#[local] Open Scope Z_scope.

(** * JSON.parse *)

Inductive json_error : Type := SyntaxError | Unrepresentable | OutOfFuel.
Notation PJ := (res json_error).

(** The host's reading of a number text with a fraction or an exponent, or of an
    integer beyond the safe ones. *)
Class JsonNumbers : Type := { number_of_text : string -> jsnum }.

Definition is_ws (c : ascii) : bool :=
  let n := nat_of_ascii c in ((n =? 32) || (n =? 9) || (n =? 10) || (n =? 13))%nat.
Fixpoint skip_ws (s : string) : string :=
  match s with
  | String c s' => if is_ws c then skip_ws s' else s
  | EmptyString => s
  end.

Definition hex_value (c : ascii) : option nat :=
  let n := nat_of_ascii c in
  if ascii_between 48 57 c then Some (n - 48)%nat
  else if ascii_between 97 102 c then Some (n - 87)%nat
  else if ascii_between 65 70 c then Some (n - 55)%nat
  else None.
Definition hex4 (a b c d : ascii) : option nat :=
  a ← hex_value a; b ← hex_value b; c ← hex_value c; d ← hex_value d;
  Some (((a * 16 + b) * 16 + c) * 16 + d)%nat.

Definition simple_escape (c : ascii) : option ascii :=
  match nat_of_ascii c with
  | 34 | 92 | 47 => Some c
  | 98 => Some (ascii_of_nat 8)
  | 116 => Some (ascii_of_nat 9)
  | 110 => Some (ascii_of_nat 10)
  | 102 => Some (ascii_of_nat 12)
  | 114 => Some (ascii_of_nat 13)
  | _ => None
  end%nat.

Definition push_char (c : ascii) (r : PJ (string * string)) : PJ (string * string) :=
  '(text, rest) ← r; Ok (String c text, rest).

(** The characters of a string up to its closing quote. *)
Fixpoint parse_chars (s : string) : PJ (string * string) :=
  match s with
  | EmptyString => Err SyntaxError
  | String c s1 =>
      let n := nat_of_ascii c in
      if (n =? 34)%nat then Ok ("", s1)
      else if (n =? 92)%nat then
        match s1 with
        | EmptyString => Err SyntaxError
        | String d s2 =>
            if Ascii.eqb d "u" then
              match s2 with
              | String h1 (String h2 (String h3 (String h4 s3))) =>
                  match hex4 h1 h2 h3 h4 with
                  | Some m => if (m <? 256)%nat then push_char (ascii_of_nat m) (parse_chars s3)
                              else Err Unrepresentable
                  | None => Err SyntaxError
                  end
              | _ => Err SyntaxError
              end
            else match simple_escape d with
                 | Some e => push_char e (parse_chars s2)
                 | None => Err SyntaxError
                 end
        end
      else if (n <? 32)%nat then Err SyntaxError
      else push_char c (parse_chars s1)
  end.

Definition is_e (c : ascii) : bool := Ascii.eqb c "e" || Ascii.eqb c "E".
Definition is_sign (c : ascii) : bool := Ascii.eqb c "+" || Ascii.eqb c "-".

(** The digits after [.], when there is one. *)
Definition parse_fraction (s : string) : PJ (string * string) :=
  match s with
  | String c s1 =>
      if Ascii.eqb c "." then
        let '(ds, s2) := span is_digit s1 in
        if String.eqb ds "" then Err SyntaxError else Ok (String c ds, s2)
      else Ok ("", s)
  | EmptyString => Ok ("", s)
  end.
Definition parse_exponent (s : string) : PJ (string * string) :=
  match s with
  | String e s1 =>
      if is_e e then
        let '(sign, s2) := match s1 with
                           | String c s2 => if is_sign c then (String c "", s2) else ("", s1)
                           | EmptyString => ("", s1)
                           end in
        let '(ds, s3) := span is_digit s2 in
        if String.eqb ds "" then Err SyntaxError else Ok (String e (sign +:+ ds), s3)
      else Ok ("", s)
  | EmptyString => Ok ("", s)
  end.

Section Parse.
Context `{JsonNumbers}.

Definition integer_value (negative : bool) (digits : string) : Z :=
  if negative then - dec_value 0 digits else dec_value 0 digits.

Definition leading_zero (digits : string) : bool :=
  match digits with String c (String _ _) => Ascii.eqb c "0" | _ => false end.

(** The rest of a number after its sign. *)
Definition parse_magnitude (negative : bool) (s : string) : PJ (jsnum * string) :=
  let '(ds, s2) := span is_digit s in
  if String.eqb ds "" || leading_zero ds then Err SyntaxError else
  '(fraction, s3) ← parse_fraction s2;
  '(exponent, s4) ← parse_exponent s3;
  let value := integer_value negative ds in
  Ok (if String.eqb (fraction +:+ exponent) "" && is_safe_integer value then NInt value
      else number_of_text ((if negative then "-" else "") +:+ ds +:+ fraction +:+ exponent), s4).

Definition parse_number (s : string) : PJ (jsnum * string) :=
  match s with
  | String c s1 => if Ascii.eqb c "-" then parse_magnitude true s1 else parse_magnitude false s
  | EmptyString => Err SyntaxError
  end.

(** The code of the next character that is not white space, and what follows. *)
Definition next {A} (s : string) (k : nat -> string -> PJ A) : PJ A :=
  match skip_ws s with
  | String c rest => k (nat_of_ascii c) rest
  | EmptyString => Err SyntaxError
  end.

Definition literal (text : string) (value : json) (s : string) : PJ (json * string) :=
  if startsWith text s then Ok (value, slice_from (String.length text) s) else Err SyntaxError.

Fixpoint parse_value (fuel : nat) (s : string) : PJ (json * string) :=
  match fuel with
  | O => Err OutOfFuel
  | S fuel' => next s (fun n s1 =>
      if n =? 110 then literal "ull" JNull s1
      else if n =? 116 then literal "rue" (JBool true) s1
      else if n =? 102 then literal "alse" (JBool false) s1
      else if n =? 34 then '(text, rest) ← parse_chars s1; Ok (JStr text, rest)
      else if n =? 91 then next s1 (fun m rest =>
        if m =? 93 then Ok (JArr [], rest)
        else '(l, rest) ← parse_elements fuel' s1; Ok (JArr l, rest))
      else if n =? 123 then next s1 (fun m rest =>
        if m =? 125 then Ok (JObj [], rest)
        else '(o, rest) ← parse_members fuel' [] s1; Ok (JObj o, rest))
      else '(number, rest) ← parse_number (skip_ws s); Ok (JNum number, rest))%nat
  end
with parse_elements (fuel : nat) (s : string) : PJ (list json * string) :=
  match fuel with
  | O => Err OutOfFuel
  | S fuel' =>
      '(v, s1) ← parse_value fuel' s;
      next s1 (fun n rest =>
        if n =? 93 then Ok ([v], rest)
        else if n =? 44 then '(l, rest') ← parse_elements fuel' rest; Ok (v :: l, rest')
        else Err SyntaxError)%nat
  end
with parse_members (fuel : nat) (o : JsonRecord) (s : string) : PJ (JsonRecord * string) :=
  match fuel with
  | O => Err OutOfFuel
  | S fuel' => next s (fun q s1 =>
      if negb (q =? 34) then Err SyntaxError else
      '(k, s2) ← parse_chars s1;
      next s2 (fun colon s3 =>
        if negb (colon =? 58) then Err SyntaxError else
        '(v, s4) ← parse_value fuel' s3;
        next s4 (fun n rest =>
          if n =? 125 then Ok (dset k v o, rest)
          else if n =? 44 then parse_members fuel' (dset k v o) rest
          else Err SyntaxError)))%nat
  end.

(** Every two steps of the recursion consume a character. *)
Definition parse_fuel (s : string) : nat := 2 + 2 * String.length s.

Definition JSON_parse (s : string) : PJ json :=
  '(v, rest) ← parse_value (parse_fuel s) s;
  match skip_ws rest with EmptyString => Ok v | _ => Err SyntaxError end.
End Parse.

(** * TextEncoder and TextDecoder *)

Notation bytes := (list Byte.byte).
Definition byte (n : nat) : Byte.byte :=
  match Byte.of_nat n with Some b => b | None => Byte.x00 end.

(** The UTF-8 of a code unit below 256 *)
Definition encode_char (c : ascii) : bytes :=
  let n := nat_of_ascii c in
  if (n <? 128)%nat then [byte n] else [byte (192 + n / 64); byte (128 + n mod 64)]%nat.
Fixpoint TextEncoder_encode (s : string) : bytes :=
  match s with String c s' => encode_char c ++ TextEncoder_encode s' | EmptyString => [] end.

Fixpoint TextDecoder_decode (b : bytes) : PJ string :=
  match b with
  | [] => Ok ""
  | x :: b' =>
      let n := Byte.to_nat x in
      if (n <? 128)%nat then s ← TextDecoder_decode b'; Ok (String (ascii_of_nat n) s)
      else match b' with
           | y :: b'' =>
               let m := Byte.to_nat y in
               if ((194 <=? n) && (n <=? 195) && (128 <=? m) && (m <=? 191))%nat
               then s ← TextDecoder_decode b'';
                    Ok (String (ascii_of_nat ((n - 192) * 64 + (m - 128))) s)
               else Err Unrepresentable
           | [] => Err Unrepresentable
           end
  end.

(** * Parsing ends *)

Notation len := String.length.

(** A parser of a part of [s] leaves less, and never lacks fuel. *)
Definition consumes {A} (s : string) (r : PJ (A * string)) : Prop :=
  match r with Ok (_, rest) => (len rest < len s)%nat | Err e => e <> OutOfFuel end.

Definition consumes_le {A} (s : string) (r : PJ (A * string)) : Prop :=
  match r with Ok (_, rest) => (len rest <= len s)%nat | Err e => e <> OutOfFuel end.

Lemma consumes_bind {A B} s (r : PJ (A * string)) (k : A * string -> PJ (B * string)) :
  consumes s r -> (forall a rest, (len rest < len s)%nat -> consumes s (k (a, rest))) ->
  consumes s (r ≫= k).
Proof. destruct r as [[a rest]|e]; cbn; auto. Qed.

Lemma consumes_le_bind {A B} s (r : PJ (A * string)) (k : A * string -> PJ (B * string)) :
  consumes_le s r -> (forall a rest, (len rest <= len s)%nat -> consumes_le s (k (a, rest))) ->
  consumes_le s (r ≫= k).
Proof. destruct r as [[a rest]|e]; cbn; auto. Qed.

Lemma consumes_le_lt {A} s s' (r : PJ (A * string)) :
  consumes_le s r -> (len s < len s')%nat -> consumes s' r.
Proof. destruct r as [[a rest]|e]; cbn; [lia|done]. Qed.

Lemma consumes_longer {A} s s' (r : PJ (A * string)) :
  consumes s r -> (len s <= len s')%nat -> consumes s' r.
Proof. destruct r as [[a rest]|e]; cbn; [lia|done]. Qed.

Lemma skip_ws_length s : (len (skip_ws s) <= len s)%nat.
Proof. induction s as [|c s IH]; cbn; [done|]. destruct (is_ws c); cbn; lia. Qed.

Lemma parse_chars_consumes s : consumes s (parse_chars s).
Proof.
  assert (Hpush : forall c t s', (len t <= len s')%nat -> consumes t (parse_chars t) ->
            consumes s' (push_char c (parse_chars t))).
  { intros c t s' Hl Ht. unfold push_char. apply consumes_bind; [by eapply consumes_longer|].
    intros a r Hr. cbn. lia. }
  remember (len s) as n eqn:Hn. revert s Hn.
  induction n as [n IH] using lt_wf_ind; intros [|c s1] ->; [done|].
  cbn [parse_chars]. destruct (_ =? 34)%nat; [cbn; lia|]. destruct (_ =? 92)%nat.
  - destruct s1 as [|d s2]; [done|]. destruct (Ascii.eqb d "u").
    + destruct s2 as [|h1 [|h2 [|h3 [|h4 s3]]]]; try done. destruct (hex4 h1 h2 h3 h4) as [m|]; [|done].
      destruct (m <? 256)%nat; [|done]. apply Hpush; [cbn; lia|]. eapply IH; [|done]. cbn. lia.
    + destruct (simple_escape d); [|done]. apply Hpush; [cbn; lia|]. eapply IH; [|done]. cbn. lia.
  - destruct (_ <? 32)%nat; [done|]. apply Hpush; [cbn; lia|]. eapply IH; [|done]. cbn. lia.
Qed.

Lemma parse_fraction_consumes s : consumes_le s (parse_fraction s).
Proof.
  destruct s as [|c s]; [cbn; lia|]. unfold parse_fraction.
  destruct (Ascii.eqb c "."); [|cbn; lia]. pose proof (span_length is_digit s).
  destruct (span is_digit s) as [ds s2], (String.eqb ds ""); [done|]. cbn in *. lia.
Qed.

Lemma parse_exponent_consumes s : consumes_le s (parse_exponent s).
Proof.
  destruct s as [|c s]; [cbn; lia|]. unfold parse_exponent. destruct (is_e c); [|cbn; lia].
  assert (Hs : forall sign t, (len t <= len s)%nat -> consumes_le (String c s)
     (let '(ds, s3) := span is_digit t in
      if String.eqb ds "" then Err SyntaxError else Ok (String c (sign +:+ ds), s3))).
  { intros sign t Ht. pose proof (span_length is_digit t).
    destruct (span is_digit t) as [ds s3], (String.eqb ds ""); [done|]. cbn in *. lia. }
  destruct s as [|d s]; [by apply Hs|]. destruct (is_sign d); apply Hs; cbn; lia.
Qed.

Lemma consumes_next {A} s (k : nat -> string -> PJ (A * string)) :
  (forall n rest, (len rest < len s)%nat -> consumes s (k n rest)) -> consumes s (next s k).
Proof.
  intros Hk. unfold next. pose proof (skip_ws_length s).
  destruct (skip_ws s) as [|c rest]; [done|]. apply Hk. cbn in *. lia.
Qed.

Lemma slice_from_length n s : (len (slice_from n s) <= len s - n)%nat.
Proof.
  unfold slice_from. revert s. induction n as [|n IH]; intros s.
  - replace (String.length s - 0)%nat with (String.length s) by lia. by rewrite substring_all.
  - destruct s as [|c s]; [done|]. cbn. apply IH.
Qed.

Lemma literal_consumes text v s s' : (len s < len s')%nat -> consumes s' (literal text v s).
Proof.
  intros Hs. unfold literal. destruct (startsWith text s); [|done]. cbn.
  pose proof (slice_from_length (len text) s). lia.
Qed.

Section Ends.
Context `{JsonNumbers}.

Lemma parse_magnitude_consumes negative s : consumes s (parse_magnitude negative s).
Proof.
  unfold parse_magnitude. pose proof (span_length is_digit s) as Hsp.
  destruct (span is_digit s) as [ds s2]. cbn [fst snd] in Hsp.
  destruct ds as [|d ds]; [done|]. cbn [String.eqb orb len] in *. destruct (leading_zero _); [done|].
  apply (consumes_bind s); [eapply consumes_le_lt; [apply parse_fraction_consumes|lia]|].
  intros fraction s3 H3.
  apply (consumes_bind s); [eapply consumes_le_lt; [apply parse_exponent_consumes|lia]|].
  intros exponent s4 H4. cbn. lia.
Qed.

Lemma parse_number_consumes s : consumes s (parse_number s).
Proof.
  destruct s as [|c s]; [done|]. unfold parse_number.
  destruct (Ascii.eqb c "-"); [|apply parse_magnitude_consumes].
  eapply consumes_longer; [apply parse_magnitude_consumes|cbn; lia].
Qed.

(** A parser of a smaller part whose result is wrapped. *)
Lemma consumes_wrap {A B} s s' (r : PJ (A * string)) (f : A -> B) :
  consumes s' r -> (len s' <= len s)%nat -> consumes s ('(a, rest) ← r; Ok (f a, rest)).
Proof. destruct r as [[a rest]|e]; cbn; [lia|done]. Qed.

Lemma parse_consumes fuel :
  (forall s, (2 * len s + 1 <= fuel)%nat -> consumes s (parse_value fuel s)) /\
  (forall s, (2 * len s + 2 <= fuel)%nat -> consumes s (parse_elements fuel s)) /\
  (forall s o, (2 * len s + 1 <= fuel)%nat -> consumes s (parse_members fuel o s)).
Proof.
  induction fuel as [|fuel (IHv & IHe & IHm)]; [split_and!; intros; lia|]. split_and!.
  - intros s Hf. cbn [parse_value]. apply consumes_next. intros n s1 Hl1.
    repeat (case_match; [apply literal_consumes; lia|]).
    case_match; [by eapply consumes_wrap; [apply parse_chars_consumes|lia]|].
    case_match; [apply (consumes_longer s1); [apply consumes_next|lia]; intros m rest Hr|].
    { case_match; [done|]. eapply consumes_wrap; [apply IHe|]; lia. }
    case_match; [apply (consumes_longer s1); [apply consumes_next|lia]; intros m rest Hr|].
    { case_match; [done|]. eapply consumes_wrap; [apply IHm|]; lia. }
    eapply consumes_wrap; [apply parse_number_consumes|apply skip_ws_length].
  - intros s Hf. cbn [parse_elements]. apply (consumes_bind s); [apply IHv; lia|]. intros v s1 Hl1.
    apply (consumes_longer s1); [apply consumes_next|lia]. intros n rest Hr.
    case_match; [done|]. case_match; [|done]. eapply consumes_wrap; [apply IHe|]; lia.
  - intros s o Hf. cbn [parse_members]. apply consumes_next. intros q s1 Hl1. case_match; [done|].
    apply (consumes_bind s); [eapply consumes_longer; [apply parse_chars_consumes|lia]|].
    intros k s2 Hl2. apply (consumes_longer s2); [apply consumes_next|lia]. intros colon s3 Hl3.
    case_match; [done|]. apply (consumes_bind s2); [eapply consumes_longer; [apply IHv|]; lia|].
    intros v s4 Hl4. apply (consumes_longer s4); [apply consumes_next|lia]. intros n rest Hr.
    case_match; [done|]. case_match; [|done]. eapply consumes_longer; [apply IHm|]; lia.
Qed.

(** [JSON.parse] ends with a value or a [SyntaxError], within its fuel. *)
Lemma JSON_parse_ends s : JSON_parse s <> Err OutOfFuel.
Proof.
  unfold JSON_parse. pose proof (proj1 (parse_consumes (parse_fuel s)) s) as Hp.
  unfold parse_fuel in *. specialize (Hp ltac:(lia)).
  destruct (parse_value _ s) as [[v rest]|e]; cbn in *; [by destruct (skip_ws rest)|congruence].
Qed.
End Ends.

(** * Round trips *)

(** Values whose text [JSON.parse] reads exactly: safe integers, and objects
    without repeated keys, which every object is. *)
Fixpoint exact_json (j : json) : bool :=
  match j with
  | JNum (NInt z) => is_safe_integer z
  | JNum (NFrac _) => false
  | JArr l => forallb exact_json l
  | JObj o => bool_decide (NoDup (map fst o)) && forallb (fun '(_, v) => exact_json v) o
  | _ => true
  end.

Lemma json_nested_ind (P : json -> Prop) :
  P JNull -> (forall b, P (JBool b)) -> (forall n, P (JNum n)) -> (forall s, P (JStr s)) ->
  (forall l, Forall P l -> P (JArr l)) -> (forall o, Forall (fun kv => P kv.2) o -> P (JObj o)) ->
  forall j, P j.
Proof.
  intros Hnull Hb Hn Hs Hl Ho. fix IH 1.
  intros [|b|n|s|l|o]; [exact Hnull|apply Hb|apply Hn|apply Hs|..].
  - apply Hl. induction l as [|j l IHl]; constructor; [apply IH|exact IHl].
  - apply Ho. induction o as [|[k v] o IHo]; constructor; [apply IH|exact IHo].
Qed.

Lemma parse_chars_char c s : parse_chars (escape_char c +:+ s) = push_char c (parse_chars s).
Proof. destruct c as [[][][][][][][][]]; reflexivity. Qed.

Lemma parse_chars_escape s rest : parse_chars (escape s +:+ dquote +:+ rest) = Ok (s, rest).
Proof.
  induction s as [|c s IH]; [done|]. cbn [escape].
  by rewrite append_assoc, parse_chars_char, IH.
Qed.

(** What may follow a number: nothing that continues it. *)
Definition ends_number (s : string) : Prop :=
  forall c t, s = String c t -> is_digit c = false /\ c <> "."%char /\ is_e c = false.

Lemma dec_go_first fuel n acc :
  0 < n < 10 ^ Z.of_nat fuel -> exists d s, dec_go fuel n acc = String d s /\ Ascii.eqb d "0" = false.
Proof.
  revert n acc. induction fuel as [|fuel IH]; intros n acc Hn.
  - change (10 ^ Z.of_nat 0) with 1 in Hn. lia.
  - cbn [dec_go]. destruct (Z.ltb_spec n 10).
    + do 2 eexists. split; [done|]. apply Ascii.eqb_neq. intros Hd.
      pose proof (digit_value (n mod 10) ltac:(apply Z.mod_pos_bound; lia)) as Hv. rewrite Hd in Hv.
      rewrite Z.mod_small in Hv by lia. vm_compute (Z.of_nat _) in Hv. lia.
    + apply IH. rewrite Nat2Z.inj_succ, Z.pow_succ_r in Hn by lia.
      split; [apply Z.div_str_pos; lia|apply Z.div_lt_upper_bound; lia].
Qed.

(** The decimal text of a natural number *)
Lemma digits_text n :
  0 <= n -> let s := dec_go (dec_fuel n) n "" in
  str_forall is_digit s = true /\ dec_value 0 s = n /\ leading_zero s = false /\ s <> "".
Proof.
  intros Hn s. subst s. pose proof (dec_fuel_enough n Hn). split_and!.
  - by apply dec_go_digits.
  - by rewrite dec_go_value.
  - destruct (decide (n = 0)) as [->|]; [done|].
    destruct (dec_go_first (dec_fuel n) n "") as (d & s & -> & Hd); [lia|]. by destruct s.
  - pose proof (Number_toString_nonempty n Hn) as Hne. unfold Number_toString in Hne.
    by destruct (Z.ltb_spec n 0); [lia|].
Qed.

Section RoundTrip.
Context `{JsonNumbers} `{JsRuntime}.

Lemma parse_magnitude_digits negative n rest :
  0 <= n -> is_safe_integer n = true -> ends_number rest ->
  parse_magnitude negative (dec_go (dec_fuel n) n "" +:+ rest) =
    Ok (NInt (if negative then - n else n), rest).
Proof.
  intros Hn Hsafe Hrest. destruct (digits_text n Hn) as (Hd & Hv & Hz & Hne).
  unfold parse_magnitude. rewrite span_all; [|done|intros c t Ht; by apply (Hrest c t)].
  apply String.eqb_neq in Hne. rewrite Hne, Hz. cbn [orb].
  assert (parse_fraction rest = Ok ("", rest)) as ->.
  { destruct rest as [|c t]; [done|]. cbn. destruct (Hrest c t eq_refl) as (_ & Hc & _).
    apply Ascii.eqb_neq in Hc. by rewrite Hc. }
  cbn [mbind res_bind]. assert (parse_exponent rest = Ok ("", rest)) as ->.
  { destruct rest as [|c t]; [done|]. cbn. destruct (Hrest c t eq_refl) as (_ & _ & Hc). by rewrite Hc. }
  cbn [mbind res_bind]. rewrite append_nil_l. cbn [String.eqb andb]. unfold integer_value. rewrite Hv.
  assert (is_safe_integer (if negative then - n else n) = true) as ->; [|done].
  unfold is_safe_integer in *. destruct negative; lia.
Qed.

Lemma parse_number_text z rest :
  is_safe_integer z = true -> ends_number rest ->
  parse_number (Number_toString z +:+ rest) = Ok (NInt z, rest).
Proof.
  intros Hz Hrest. unfold Number_toString. destruct (Z.ltb_spec z 0).
  - rewrite append_cons. cbn [parse_number]. rewrite Ascii.eqb_refl.
    rewrite (parse_magnitude_digits true (- z)); [by rewrite Z.opp_involutive|lia| |done].
    unfold is_safe_integer in *. lia.
  - destruct (digits_text z ltac:(lia)) as (Hd & _ & _ & Hne).
    pose proof (parse_magnitude_digits false z rest ltac:(lia) Hz Hrest) as Hp.
    destruct (dec_go (dec_fuel z) z "") as [|c s]; [done|]. rewrite append_cons in *.
    cbn [parse_number]. cbn in Hd. apply andb_true_iff in Hd as [Hd _].
    destruct (Ascii.eqb_spec c "-") as [->|]; [done|exact Hp].
Qed.

Definition round_trips (j : json) : Prop := forall fuel rest,
  exact_json j = true -> ends_number rest -> (2 * len (JSON_stringify j) + 1 <= fuel)%nat ->
  parse_value fuel (JSON_stringify j +:+ rest) = Ok (j, rest).

Lemma next_char {A} c s (k : nat -> string -> PJ A) :
  is_ws c = false -> next (String c s) k = k (nat_of_ascii c) s.
Proof. unfold next. cbn. by intros ->. Qed.

Lemma ends_comma s : ends_number ("," +:+ s). Proof. by intros c t [= <- <-]. Qed.
Lemma ends_bracket s : ends_number ("]" +:+ s). Proof. by intros c t [= <- <-]. Qed.
Lemma ends_brace s : ends_number ("}" +:+ s). Proof. by intros c t [= <- <-]. Qed.
Lemma ends_nothing : ends_number "". Proof. done. Qed.

Lemma join_cons sep x y (l : list string) : join sep (x :: y :: l) = x +:+ sep +:+ join sep (y :: l).
Proof. done. Qed.

Lemma parse_elements_text v l fuel rest :
  Forall round_trips (v :: l) -> forallb exact_json (v :: l) = true ->
  (2 * len (join "," (map JSON_stringify (v :: l))) + 2 <= fuel)%nat ->
  parse_elements fuel (join "," (map JSON_stringify (v :: l)) +:+ "]" +:+ rest) = Ok (v :: l, rest).
Proof.
  revert v fuel. induction l as [|w l IH]; intros v fuel Hrt He Hf;
    apply Forall_cons in Hrt as [Hv Hrt]; cbn [forallb] in He; apply andb_true_iff in He as [Hev He];
    (destruct fuel as [|fuel]; [lia|]).
  - cbn [map join] in *. cbn [parse_elements]. rewrite (Hv fuel); [|done|apply ends_bracket|lia]. done.
  - cbn [map] in *. rewrite join_cons in *. rewrite !append_assoc. cbn [parse_elements].
    rewrite !length_append in Hf. cbn [len] in Hf.
    rewrite (Hv fuel); [|done|apply ends_comma|lia].
    cbn [mbind res_bind]. rewrite append_cons, append_nil_l, next_char by done. cbn [Nat.eqb nat_of_ascii].
    rewrite IH; [done|done|done|]. cbn [map]. lia.
Qed.

Notation member := (fun '(k, v) => quote k +:+ ":" +:+ JSON_stringify v).

Lemma quote_text k rest :
  quote k +:+ rest = String (ascii_of_nat 34) (escape k +:+ dquote +:+ rest).
Proof. unfold quote. rewrite !append_assoc. reflexivity. Qed.

Lemma parse_members_text k v o acc fuel rest :
  Forall (fun kv => round_trips kv.2) ((k, v) :: o) ->
  forallb (fun '(_, v) => exact_json v) ((k, v) :: o) = true ->
  NoDup (dkeys (acc ++ (k, v) :: o)) ->
  (2 * len (join "," (map member ((k, v) :: o))) + 2 <= fuel)%nat ->
  parse_members fuel acc (join "," (map member ((k, v) :: o)) +:+ "}" +:+ rest) =
    Ok (acc ++ (k, v) :: o, rest).
Proof.
  revert k v acc fuel. induction o as [|[k' v'] o IH]; intros k v acc fuel Hrt He Hnd Hf;
    apply Forall_cons in Hrt as [Hv Hrt]; cbn [forallb] in He; apply andb_true_iff in He as [Hev He];
    (destruct fuel as [|fuel]; [lia|]); cbn [snd] in Hv;
    (assert (Hk : dset k v acc = acc ++ [(k, v)]) by (apply dset_fresh, dget_None;
       unfold dkeys in *; rewrite map_app in Hnd; apply NoDup_app in Hnd as (_ & Hnd & _); set_solver)).
  - cbn [map join] in *. rewrite !length_append in Hf. cbn [len] in Hf.
    rewrite !append_assoc, quote_text. cbn [parse_members].
    rewrite next_char by done. cbn [Nat.eqb negb nat_of_ascii ascii_of_nat].
    rewrite parse_chars_escape. cbn [mbind res_bind].
    rewrite append_cons, append_nil_l, next_char by done.
    rewrite (Hv fuel); [|done|apply ends_brace|lia]. cbn [mbind res_bind].
    rewrite append_cons, append_nil_l, next_char by done. by rewrite Hk.
  - cbn [map] in *. rewrite join_cons in *. rewrite !length_append in Hf. cbn [len] in Hf.
    rewrite !append_assoc, quote_text. cbn [parse_members].
    rewrite next_char by done. cbn [Nat.eqb negb nat_of_ascii ascii_of_nat].
    rewrite parse_chars_escape. cbn [mbind res_bind].
    rewrite append_cons, append_nil_l, next_char by done.
    rewrite (Hv fuel); [|done|apply ends_comma|lia]. cbn [mbind res_bind].
    rewrite append_cons, append_nil_l, next_char by done. rewrite Hk.
    cbn [Nat.eqb nat_of_ascii]. rewrite IH; [by rewrite <- app_assoc|done|done| |cbn [map]; lia].
    by rewrite <- app_assoc.
Qed.

Lemma stringify_first j :
  exact_json j = true ->
  exists c s, JSON_stringify j = String c s /\ is_ws c = false /\ nat_of_ascii c <> 93%nat.
Proof.
  destruct j as [|[]|[z|q]|s|l|o]; intros He; try done; try (do 2 eexists; split; [done|done]).
  cbn. unfold Number_toString. destruct (Z.ltb_spec z 0); [by do 2 eexists|].
  destruct (digits_text z ltac:(lia)) as (Hd & _ & _ & Hne).
  destruct (dec_go _ _ _) as [|c s]; [done|]. exists c, s. cbn in Hd. apply andb_true_iff in Hd as [Hd _].
  split; [done|]. by destruct c as [[][][][][][][][]].
Qed.

Lemma literal_text text v rest : literal text v (text +:+ rest) = Ok (v, rest).
Proof. unfold literal. by rewrite prefix_append, slice_after_prefix. Qed.

Lemma round_trip_arr l : Forall round_trips l -> round_trips (JArr l).
Proof.
  intros IH fuel rest He Hr Hf. cbn [JSON_stringify exact_json] in *.
  rewrite !length_append in Hf. cbn [len] in Hf. destruct fuel as [|fuel]; [lia|].
  cbn [parse_value]. rewrite append_assoc, append_cons, append_nil_l, next_char by done.
  cbn [Nat.eqb nat_of_ascii]. rewrite append_assoc. destruct l as [|v l].
  - cbn [map join]. rewrite append_nil_l, append_cons, append_nil_l, next_char by done. done.
  - rewrite (parse_elements_text v l); [|done|done|lia].
    destruct (stringify_first v) as (c & s & Hc & Hws & Hne).
    { cbn in He. by apply andb_true_iff in He as [? _]. }
    assert (exists s', join "," (map JSON_stringify (v :: l)) = String c s') as [s' ->].
    { destruct l; cbn [map join]; rewrite Hc; [|rewrite append_cons]; by eexists. }
    rewrite append_cons, next_char by done. by apply Nat.eqb_neq in Hne as ->.
Qed.

Lemma round_trip_obj o : Forall (fun kv => round_trips kv.2) o -> round_trips (JObj o).
Proof.
  intros IH fuel rest He Hr Hf. cbn [JSON_stringify exact_json] in *.
  apply andb_true_iff in He as [Hnd%bool_decide_eq_true He].
  rewrite !length_append in Hf. cbn [len] in Hf. destruct fuel as [|fuel]; [lia|].
  cbn [parse_value]. rewrite append_assoc, append_cons, append_nil_l, next_char by done.
  cbn [Nat.eqb nat_of_ascii]. rewrite append_assoc. destruct o as [|[k v] o].
  - cbn [map join]. rewrite append_nil_l, append_cons, append_nil_l, next_char by done. done.
  - rewrite (parse_members_text k v o []); [|done|done|done|lia].
    assert (exists s', join "," (map member ((k, v) :: o)) = String (ascii_of_nat 34) s') as [s' ->].
    { destruct o; cbn [map join]; rewrite ?append_assoc, quote_text; by eexists. }
    by rewrite append_cons, next_char.
Qed.

Lemma round_trip_num z : round_trips (JNum (NInt z)).
Proof.
  intros fuel rest He Hr Hf. destruct fuel as [|fuel]; [lia|].
  destruct (stringify_first (JNum (NInt z)) He) as (c & s & Hc & Hws & _).
  cbn [exact_json JSON_stringify num_toString] in *. cbn [parse_value].
  assert (Hskip : skip_ws (Number_toString z +:+ rest) = Number_toString z +:+ rest).
  { rewrite Hc, append_cons. cbn. by rewrite Hws. }
  rewrite Hskip, parse_number_text by done. cbn [mbind res_bind].
  assert (Hd : is_digit c = true \/ c = "-"%char).
  { unfold Number_toString in Hc. destruct (Z.ltb_spec z 0); [right; by injection Hc|left].
    destruct (digits_text z ltac:(lia)) as (Hd & _). rewrite Hc in Hd. cbn in Hd.
    by apply andb_true_iff in Hd as [? _]. }
  rewrite Hc, append_cons, next_char by done.
  destruct Hd as [Hd| ->]; [|done]. by destruct c as [[][][][][][][][]].
Qed.

Lemma round_trip j : round_trips j.
Proof.
  induction j as [|b|[z|q]|s|l IH|o IH] using json_nested_ind;
    [| |apply round_trip_num|done| |by apply round_trip_arr|by apply round_trip_obj];
    intros fuel rest He Hr Hf; (destruct fuel as [|fuel]; [lia|]); cbn [parse_value JSON_stringify].
  - rewrite (append_cons "n" "ull"), next_char by done. exact (literal_text "ull" _ _).
  - destruct b; rewrite append_cons, next_char by done; apply literal_text.
  - rewrite quote_text, next_char by done. cbn [Nat.eqb nat_of_ascii ascii_of_nat].
    by rewrite parse_chars_escape.
Qed.

(** [JSON.parse(JSON.stringify(value))] is [value]. *)
Lemma JSON_parse_stringify j : exact_json j = true -> JSON_parse (JSON_stringify j) = Ok j.
Proof.
  intros He. unfold JSON_parse. pose proof (round_trip j (parse_fuel (JSON_stringify j)) "" He
    ends_nothing ltac:(unfold parse_fuel; lia)) as Hp. rewrite append_nil_r in Hp. by rewrite Hp.
Qed.
End RoundTrip.

Lemma decode_char c rest :
  TextDecoder_decode (encode_char c ++ rest) =
    s ← TextDecoder_decode rest; Ok (String c s).
Proof. destruct c as [[][][][][][][][]]; reflexivity. Qed.

(** The decoder undoes the encoder. *)
Lemma decode_encode s : TextDecoder_decode (TextEncoder_encode s) = Ok s.
Proof. induction s as [|c s IH]; [done|]. cbn [TextEncoder_encode]. by rewrite decode_char, IH. Qed.
