(* ===== verification/ArtifactStore.v ===== *)
(** [packages/artifact-store/src]: the schemas (types.ts), the errors (errors.ts)
    and the in-memory store (InMemoryArtifactStore.ts), a metadata repository and
    a payload store behind one authorizer.  The operations are [async]: they
    yield to the others at each [await].  The clock, the authorizer and the id
    source given to the store, and the SHA-256 of Web Crypto, are parameters. *)
From S2P Require Import Prelude Js Zod Protocol WorkerEvents Json Async.
From Stdlib Require Import Ascii.
#[local] Open Scope Z_scope.

(** * errors.ts and types.ts *)

Inductive ArtifactStoreErrorCode : Type :=
| artifact_access_denied | artifact_checksum_mismatch | artifact_idempotency_conflict
| artifact_not_found | artifact_payload_not_found | invalid_artifact_input.

(** What an operation throws: an [ArtifactStoreError], the [ZodError] of a schema,
    a [SyntaxError] of [JSON.parse], or what the authorizer throws. *)
Inductive artifact_error : Type :=
| ArtifactStoreError (code : ArtifactStoreErrorCode) (message : string)
| ZodError
| JsonError (e : json_error)
| HostError (message : string).

Definition StoredArtifactKindSchema : list string :=
  ["diff"; "patch"; "command_log"; "screenshot"; "generated_file"; "context_checkpoint";
   "workspace_snapshot"; "final_report"].
Definition StoredVisibilitySchema : list string := ["private"; "run"; "thread"; "workspace"].
Definition StoredBackendSchema : list string := ["r2"; "local_blob"; "memory"].
Definition StoredSha256Schema (s : string) : bool := (str_length s =? 64) && str_forall is_lower_hex s.

Record ArtifactOwnership : Type := mkArtifactOwnership {
  ao_createdBy : string;
  ao_workspaceId : string;
  ao_threadId : string;
  ao_runId : string;
}.
#[export] Instance ArtifactOwnership_eq_dec : EqDecision ArtifactOwnership.
Proof. solve_decision. Defined.

Definition ArtifactOwnershipSchema (o : ArtifactOwnership) : bool :=
  UserIdSchema (ao_createdBy o) && WorkspaceIdSchema (ao_workspaceId o) &&
  ThreadIdSchema (ao_threadId o) && RunIdSchema (ao_runId o).

Record ArtifactPayloadReference : Type := mkPayloadReference {
  pr_backend : string;
  pr_storageKey : string;
  pr_contentType : string;
  pr_byteSize : Z;
  pr_sha256 : string;
}.

Definition ArtifactPayloadReferenceSchema (r : ArtifactPayloadReference) : bool :=
  bool_decide (pr_backend r ∈ StoredBackendSchema) && str_between 1 1024 (pr_storageKey r) &&
  str_between 1 255 (pr_contentType r) &&
  ((0 <=? pr_byteSize r) && (pr_byteSize r <=? MAX_SAFE_INTEGER)) && StoredSha256Schema (pr_sha256 r).

Record ArtifactMetadata : Type := mkArtifactMetadata {
  am_artifactId : string;
  am_kind : string;
  am_ownership : ArtifactOwnership;
  am_visibility : string;
  am_payload : ArtifactPayloadReference;
  am_properties : JsonRecord;
  am_createdAt : string;
}.

Record ArtifactAccessContext : Type := mkAccess {
  acc_userId : string;
  acc_workspaceId : string;
  acc_threadId : option string;
  acc_runId : option string;
}.

Definition nullable (valid : string -> bool) (o : option string) : bool :=
  match o with Some s => valid s | None => true end.
Definition ArtifactAccessContextSchema (a : ArtifactAccessContext) : bool :=
  UserIdSchema (acc_userId a) && WorkspaceIdSchema (acc_workspaceId a) &&
  nullable ThreadIdSchema (acc_threadId a) && nullable RunIdSchema (acc_runId a).

Inductive ArtifactAccessOperation : Type := op_create | op_read_metadata | op_read_payload | op_list | op_delete.
Definition operation_str (o : ArtifactAccessOperation) : string :=
  match o with
  | op_create => "create" | op_read_metadata => "read_metadata"
  | op_read_payload => "read_payload" | op_list => "list" | op_delete => "delete"
  end.

Record PutArtifactInput : Type := mkPut {
  pi_artifactId : option string;
  pi_idempotencyKey : string;
  pi_kind : string;
  pi_ownership : ArtifactOwnership;
  pi_visibility : string;
  pi_contentType : string;
  pi_payload : bytes;
  pi_expectedSha256 : option string;
  pi_properties : option JsonRecord;
}.

(** [crypto.subtle.digest("SHA-256", ...)] *)
Class WebCrypto : Type := {
  sha256_digest : bytes -> bytes;
  sha256_length p : length (sha256_digest p) = 32%nat;
}.

(** * InMemoryArtifactStore.ts *)

Definition DEFAULT_TIMESTAMP : string := "2026-01-01T00:00:00.000Z".

(** [s.padStart(n, c)] *)
Definition padStart (n : nat) (c : ascii) (s : string) : string :=
  Nat.iter (n - String.length s) (String c) s.

Section Store.
Context `{!JsRuntime} `{!WebCrypto} {W : Type}.

(** The options, as functions on the world [W] they read and change. *)
Record InMemoryArtifactStoreOptions : Type := mkStoreOptions {
  so_authorize : ArtifactAccessOperation -> ArtifactAccessContext -> option ArtifactMetadata ->
                 ST W artifact_error bool;
  so_now : option (W -> string * W);
  so_createArtifactId : option (W -> string * W);
}.

(** The maps of the two repositories, in insertion order, and [sequence]. *)
Record InMemoryArtifactStore : Type := mkStore {
  s_records : dict ArtifactMetadata;
  s_idempotency : dict string;
  s_payloads : dict bytes;
  s_sequence : Z;
  s_world : W;
}.
Definition new_store (w : W) : InMemoryArtifactStore := mkStore [] [] [] 0 w.

Notation SM := (ST InMemoryArtifactStore artifact_error).
Notation async := (async InMemoryArtifactStore artifact_error).

Definition with_world {A} (m : ST W artifact_error A) : SM A := fun s =>
  let '(r, w) := m (s_world s) in
  (r, mkStore (s_records s) (s_idempotency s) (s_payloads s) (s_sequence s) w).

Definition require (b : bool) : res artifact_error unit := if b then Ok tt else Err ZodError.

Definition StoredMetadataSchema (m : ArtifactMetadata) : bool :=
  ArtifactIdSchema (am_artifactId m) && bool_decide (am_kind m ∈ StoredArtifactKindSchema) &&
  ArtifactOwnershipSchema (am_ownership m) && bool_decide (am_visibility m ∈ StoredVisibilitySchema) &&
  ArtifactPayloadReferenceSchema (am_payload m) && is_datetime (am_createdAt m).

Definition cloneMetadata (m : ArtifactMetadata) : res artifact_error ArtifactMetadata :=
  _ ← require (StoredMetadataSchema m); Ok m.

(** ** InMemoryArtifactMetadataRepository *)

Definition metadataRepository_put (metadata : ArtifactMetadata) (idempotencyKey : string) : SM unit :=
  clone ← lift (cloneMetadata metadata);
  modify (fun s => mkStore (dset (am_artifactId metadata) clone (s_records s))
                           (dset idempotencyKey (am_artifactId metadata) (s_idempotency s))
                           (s_payloads s) (s_sequence s) (s_world s)).

Definition metadataRepository_get (artifactId : string) : SM (option ArtifactMetadata) :=
  metadata ← gets (fun s => dget artifactId (s_records s));
  match metadata with
  | Some metadata => clone ← lift (cloneMetadata metadata); mret (Some clone)
  | None => mret None
  end.

Definition metadataRepository_getByIdempotencyKey (idempotencyKey : string)
    : SM (option ArtifactMetadata) :=
  artifactId ← gets (fun s => truthy (dget idempotencyKey (s_idempotency s)));
  match artifactId with
  | Some artifactId => metadataRepository_get artifactId
  | None => mret None
  end.

Definition metadataRepository_list (workspaceId : string) : SM (list ArtifactMetadata) :=
  found ← gets (fun s => filter (fun m => ao_workspaceId (am_ownership m) = workspaceId)
                                (dvals (s_records s)));
  lift (res_map cloneMetadata found).

(** Every key of the artifact, then its record; whether there was one. *)
Definition metadataRepository_delete (artifactId : string) : SM bool :=
  existed ← gets (fun s => is_some (dget artifactId (s_records s)));
  _ ← modify (fun s => mkStore (ddel artifactId (s_records s))
                 (filter (fun kv : string * string => kv.2 <> artifactId)
                         (s_idempotency s : list (string * string)))
                 (s_payloads s) (s_sequence s) (s_world s));
  mret existed.

(** ** InMemoryArtifactPayloadStore *)

Definition set_payloads (f : dict bytes -> dict bytes) : SM unit :=
  modify (fun s => mkStore (s_records s) (s_idempotency s) (f (s_payloads s)) (s_sequence s) (s_world s)).

Definition payloadStore_put (reference : ArtifactPayloadReference) (payload : bytes) : SM unit :=
  set_payloads (dset (pr_storageKey reference) payload).

Definition payloadStore_get (reference : ArtifactPayloadReference) : SM (option bytes) :=
  gets (fun s => dget (pr_storageKey reference) (s_payloads s)).

Definition payloadStore_delete (reference : ArtifactPayloadReference) : SM bool :=
  existed ← gets (fun s => is_some (dget (pr_storageKey reference) (s_payloads s)));
  _ ← set_payloads (ddel (pr_storageKey reference));
  mret existed.

(** ** Helpers *)

(** [byte.toString(16).padStart(2, "0")] *)
Definition hex_byte (b : Byte.byte) : string :=
  let n := Byte.to_nat b in String (hex_digit (n / 16)) (String (hex_digit (n mod 16)) "").
Definition hex_text (digest : bytes) : string :=
  fold_right (fun b s => hex_byte b +:+ s) "" digest.

Definition sha256_text (payload : bytes) : string := hex_text (sha256_digest payload).
Definition computeSha256 (payload : bytes) : async string :=
  segment (lift (_ ← require (StoredSha256Schema (sha256_text payload)); Ok (sha256_text payload))).

Definition validateIdempotencyKey (value : string) : res artifact_error string :=
  if (str_length value <? 1) || (256 <? str_length value)
  then Err (ArtifactStoreError invalid_artifact_input
              "idempotencyKey must contain between 1 and 256 characters")
  else Ok value.

Definition requireMatchingOwnership (access : ArtifactAccessContext) (ownership : ArtifactOwnership)
    : res artifact_error unit :=
  let matches :=
    bool_decide (acc_userId access = ao_createdBy ownership) &&
    bool_decide (acc_workspaceId access = ao_workspaceId ownership) &&
    bool_decide (acc_threadId access = Some (ao_threadId ownership)) &&
    bool_decide (acc_runId access = Some (ao_runId ownership)) in
  if matches then Ok tt
  else Err (ArtifactStoreError artifact_access_denied
              "Artifact ownership must match the caller access scope").

(** ** InMemoryArtifactStore *)

Section Options.
Context (options : InMemoryArtifactStoreOptions).

Definition parse_access (access : ArtifactAccessContext) : res artifact_error ArtifactAccessContext :=
  _ ← require (ArtifactAccessContextSchema access); Ok access.
Definition parse_ownership (ownership : ArtifactOwnership) : res artifact_error ArtifactOwnership :=
  _ ← require (ArtifactOwnershipSchema ownership); Ok ownership.
Definition parse_id (artifactId : string) : res artifact_error string :=
  _ ← require (ArtifactIdSchema artifactId); Ok artifactId.

Definition authorize operation access metadata : async bool :=
  segment (with_world (so_authorize options operation access metadata)).

Definition requireAuthorized (operation : ArtifactAccessOperation) (access : ArtifactAccessContext)
    (metadata : option ArtifactMetadata) : async unit :=
  parsedAccess ← now (parse_access access);
  allowed ← authorize operation parsedAccess metadata;
  if (allowed : bool) then mret tt
  else now (Err (ArtifactStoreError artifact_access_denied
                   ("Artifact operation denied: " +:+ operation_str operation))).

Definition requireIdempotentPayload (existing : ArtifactMetadata) (payload : bytes) : async unit :=
  sha256 ← computeSha256 payload;
  if bool_decide (pr_sha256 (am_payload existing) <> sha256)
  then now (Err (ArtifactStoreError artifact_idempotency_conflict
                   "Idempotency key is already associated with a different payload"))
  else mret tt.

Definition call_option (f : option (W -> string * W)) (otherwise : res artifact_error string)
    : SM string :=
  match f with
  | Some f => with_world (fun w => let '(x, w') := f w in (Ok x, w'))
  | None => lift otherwise
  end.

Definition memory_id (sequence : Z) : string :=
  "art_memory_" +:+ padStart 6 "0" (Number_toString sequence).

Definition createArtifactId : SM string :=
  _ ← modify (fun s => mkStore (s_records s) (s_idempotency s) (s_payloads s) (s_sequence s + 1)
                               (s_world s));
  sequence ← gets s_sequence;
  call_option (so_createArtifactId options) (parse_id (memory_id sequence)).

(** [input.artifactId ?? this.createArtifactId()] *)
Definition chosen_id (input : PutArtifactInput) : SM string :=
  match pi_artifactId input with Some id => mret id | None => createArtifactId end.

(** What [buildMetadata] does once the payload is hashed. *)
Definition metadata_of (input : PutArtifactInput) (sha256 : string) : SM ArtifactMetadata :=
  artifactId ← chosen_id input;
  ownership ← lift (parse_ownership (pi_ownership input));
  _ ← lift (require (bool_decide (pi_visibility input ∈ StoredVisibilitySchema)));
  createdAt ← call_option (so_now options) (Ok DEFAULT_TIMESTAMP);
  lift (cloneMetadata (mkArtifactMetadata artifactId (pi_kind input) ownership (pi_visibility input)
    (mkPayloadReference "memory" ("artifacts/" +:+ artifactId) (pi_contentType input)
       (Z.of_nat (length (pi_payload input))) sha256)
    (default [] (pi_properties input)) createdAt)).

(** [input.expectedSha256 && input.expectedSha256 !== sha256] *)
Definition checksum_differs (input : PutArtifactInput) (sha256 : string) : bool :=
  match truthy (pi_expectedSha256 input) with
  | Some expected => negb (String.eqb expected sha256)
  | None => false
  end.

Definition buildMetadata (input : PutArtifactInput) : async ArtifactMetadata :=
  sha256 ← computeSha256 (pi_payload input);
  if checksum_differs input sha256
  then now (Err (ArtifactStoreError artifact_checksum_mismatch
                   "Artifact payload checksum does not match expectedSha256"))
  else segment (metadata_of input sha256).

Definition put (input : PutArtifactInput) (access : ArtifactAccessContext) : async ArtifactMetadata :=
  parsedAccess ← now (parse_access access);
  ownership ← now (parse_ownership (pi_ownership input));
  _ ← now (requireMatchingOwnership parsedAccess ownership);
  idempotencyKey ← now (validateIdempotencyKey (pi_idempotencyKey input));
  existing ← segment (metadataRepository_getByIdempotencyKey idempotencyKey);
  match existing with
  | Some existing =>
      _ ← requireAuthorized op_create parsedAccess (Some existing);
      _ ← requireIdempotentPayload existing (pi_payload input);
      now (cloneMetadata existing)
  | None =>
      _ ← requireAuthorized op_create parsedAccess None;
      metadata ← buildMetadata input;
      _ ← segment (payloadStore_put (am_payload metadata) (pi_payload input));
      _ ← segment (metadataRepository_put metadata (pi_idempotencyKey input));
      now (cloneMetadata metadata)
  end.

Definition getMetadata (artifactId : string) (access : ArtifactAccessContext)
    : async (option ArtifactMetadata) :=
  id ← now (parse_id artifactId);
  metadata ← segment (metadataRepository_get id);
  match metadata with
  | None => mret None
  | Some metadata =>
      _ ← requireAuthorized op_read_metadata access (Some metadata);
      now (clone ← cloneMetadata metadata; Ok (Some clone))
  end.

Definition getPayload (artifactId : string) (access : ArtifactAccessContext) : async (option bytes) :=
  id ← now (parse_id artifactId);
  metadata ← segment (metadataRepository_get id);
  match metadata with
  | None => mret None
  | Some metadata =>
      _ ← requireAuthorized op_read_payload access (Some metadata);
      payload ← segment (payloadStore_get (am_payload metadata));
      match payload with
      | None => now (Err (ArtifactStoreError artifact_payload_not_found
                            ("Artifact payload not found: " +:+ artifactId)))
      | Some payload => mret (Some payload)
      end
  end.

Definition list_artifacts (access : ArtifactAccessContext) : async (list ArtifactMetadata) :=
  parsedAccess ← now (parse_access access);
  _ ← requireAuthorized op_list parsedAccess None;
  metadata ← segment (metadataRepository_list (acc_workspaceId parsedAccess));
  authorized ← async_each (fun artifact =>
    allowed ← authorize op_read_metadata parsedAccess (Some artifact);
    if (allowed : bool) then now (x ← cloneMetadata artifact; Ok [x]) else mret []) metadata;
  mret (concat authorized).

Definition delete_artifact (artifactId : string) (access : ArtifactAccessContext) : async bool :=
  parsedId ← now (parse_id artifactId);
  metadata ← segment (metadataRepository_get parsedId);
  match metadata with
  | None => mret false
  | Some metadata =>
      _ ← requireAuthorized op_delete access (Some metadata);
      _ ← segment (payloadStore_delete (am_payload metadata));
      segment (metadataRepository_delete parsedId)
  end.

(** A call of one of the operations, and what it returns *)
Inductive store_operation : Type :=
| o_put (input : PutArtifactInput) (access : ArtifactAccessContext)
| o_getMetadata (artifactId : string) (access : ArtifactAccessContext)
| o_getPayload (artifactId : string) (access : ArtifactAccessContext)
| o_list (access : ArtifactAccessContext)
| o_delete (artifactId : string) (access : ArtifactAccessContext).
Inductive store_outcome : Type :=
| r_metadata (m : ArtifactMetadata)
| r_found (m : option ArtifactMetadata)
| r_payload (b : option bytes)
| r_list (l : list ArtifactMetadata)
| r_deleted (existed : bool).

Definition call (o : store_operation) : async store_outcome :=
  match o with
  | o_put input access => m ← put input access; mret (r_metadata m)
  | o_getMetadata id access => m ← getMetadata id access; mret (r_found m)
  | o_getPayload id access => b ← getPayload id access; mret (r_payload b)
  | o_list access => l ← list_artifacts access; mret (r_list l)
  | o_delete id access => b ← delete_artifact id access; mret (r_deleted b)
  end.
End Options.
End Store.
Arguments InMemoryArtifactStore : clear implicits.
Arguments InMemoryArtifactStoreOptions : clear implicits.
