(* ===== verification/ArtifactPool.v ===== *)
(** The in-memory artifact store under interleaving: whatever operations run at
    the same time, when the store generates the ids, a record's payload is the
    one it was put with unless a delete is under way. *)
From S2P Require Import Prelude Js Zod Protocol WorkerEvents Json Async ArtifactStore.
From stdpp Require Import gmap strings.
From Stdlib Require Import Ascii.
#[local] Open Scope Z_scope.

(** Running a synchronous segment *)
Ltac st := unfold mbind, ST_bind, mret, ST_ret, gets, modify, lift, res_bind, res_ret; cbn [fst snd].

(** * Generated ids *)

Lemma length_padStart n c s : (n <= String.length (padStart n c s))%nat.
Proof.
  unfold padStart. assert (Hk : forall k, String.length (Nat.iter k (String c) s) = (k + String.length s)%nat).
  { induction k as [|k IH]; [done|]. rewrite Nat.iter_succ. cbn [String.length]. by rewrite IH. }
  rewrite Hk. lia.
Qed.

Lemma dec_value_padStart n s : dec_value 0 (padStart n "0"%char s) = dec_value 0 s.
Proof. unfold padStart. induction (n - String.length s)%nat as [|k IH]; [done|exact IH]. Qed.

Lemma memory_id_inj i j : 0 <= i -> 0 <= j -> memory_id i = memory_id j -> i = j.
Proof.
  intros Hi Hj Heq. unfold memory_id in Heq. apply append_inj_l in Heq.
  apply (f_equal (dec_value 0)) in Heq. rewrite !dec_value_padStart in Heq.
  unfold Number_toString in Heq. destruct (Z.ltb_spec i 0), (Z.ltb_spec j 0); try lia.
  by rewrite !dec_go_value in Heq by (split; [lia|apply dec_fuel_enough; lia]).
Qed.

Definition storage_key (id : string) : string := "artifacts/" +:+ id.
Lemma storage_key_inj a b : storage_key a = storage_key b -> a = b.
Proof. apply append_inj_l. Qed.

(** * The invariant *)

(** Which operation is creating or deleting which artifact. *)
Record owners : Type := mkOwners { creating : gmap string nat; deleting : gmap string nat }.

Section Pool.
Context `{!JsRuntime} `{!WebCrypto} {W : Type} (options : InMemoryArtifactStoreOptions W).
Notation store := (InMemoryArtifactStore W).
Notation op A := (async store artifact_error A).

Definition allotted (s : store) (id : string) : Prop :=
  exists i, 1 <= i <= s_sequence s /\ id = memory_id i.

Definition payload_of (s : store) (id : string) : option bytes := dget (storage_key id) (s_payloads s).

(** The bytes a record describes *)
Definition describes (m : ArtifactMetadata) (b : bytes) : Prop :=
  sha256_text b = pr_sha256 (am_payload m) /\ Z.of_nat (length b) = pr_byteSize (am_payload m).

Definition stored (s : store) (m : ArtifactMetadata) : Prop :=
  exists b, payload_of s (am_artifactId m) = Some b /\ describes m b.

Definition proper (id : string) (m : ArtifactMetadata) : Prop :=
  StoredMetadataSchema m = true /\ am_artifactId m = id /\
  pr_storageKey (am_payload m) = storage_key id.

Record Inv (s : store) (g : owners) : Prop := mkInv {
  inv_nodup : NoDup (dkeys (s_records s)) /\ NoDup (dkeys (s_idempotency s)) /\
              NoDup (dkeys (s_payloads s));
  inv_sequence : 0 <= s_sequence s;
  inv_record id m : dget id (s_records s) = Some m ->
    proper id m /\ allotted s id /\ creating g !! id = None /\
    (stored s m \/ payload_of s id = None /\ is_Some (deleting g !! id));
  inv_creating id t : creating g !! id = Some t -> allotted s id /\ dget id (s_records s) = None;
  inv_deleting id t : deleting g !! id = Some t -> is_Some (dget id (s_records s));
  inv_payload k b : dget k (s_payloads s) = Some b ->
    exists id, k = storage_key id /\ (is_Some (dget id (s_records s)) \/ is_Some (creating g !! id));
  inv_key k id : dget k (s_idempotency s) = Some id -> is_Some (dget id (s_records s));
}.

(** What operation [t] relies on: its artifacts under creation are its own, ids
    are given once, and payloads are written only for artifacts under creation. *)
Record rely (t : nat) (x y : store * owners) : Prop := mkRely {
  rely_sequence : s_sequence x.1 <= s_sequence y.1;
  rely_creating id : creating x.2 !! id = Some t <-> creating y.2 !! id = Some t;
  rely_mine id : creating x.2 !! id = Some t -> payload_of y.1 id = payload_of x.1 id;
  rely_deleting id : deleting y.2 !! id = Some t -> deleting x.2 !! id = Some t;
  rely_given id : allotted x.1 id -> creating x.2 !! id = None -> creating y.2 !! id = None;
  rely_gone id : allotted x.1 id -> creating x.2 !! id = None -> payload_of x.1 id = None ->
    payload_of y.1 id = None;
}.

Lemma allotted_le s s' id : s_sequence s <= s_sequence s' -> allotted s id -> allotted s' id.
Proof. intros Hs (i & Hi & ->). exists i. split; [lia|done]. Qed.

#[local] Instance rely_preorder t : PreOrder (rely t).
Proof.
  split; [by intros [s g]; constructor|]. intros x y z Hxy Hyz. constructor.
  - transitivity (s_sequence y.1); [apply Hxy|apply Hyz].
  - intros id. by rewrite (rely_creating _ _ _ Hxy), (rely_creating _ _ _ Hyz).
  - intros id Hid. rewrite (rely_mine _ _ _ Hyz); [by apply Hxy|by apply (rely_creating _ _ _ Hxy)].
  - intros id Hid. by apply Hxy, Hyz.
  - intros id Ha Hc. apply Hyz; [|by apply Hxy]. eapply allotted_le; [|exact Ha]. apply Hxy.
  - intros id Ha Hc Hp. apply Hyz; [|by apply Hxy|by apply Hxy].
    eapply allotted_le; [|exact Ha]. apply Hxy.
Qed.

(** An operation that owns nothing: one not yet called, or settled. *)
Definition idle (t : nat) (g : owners) : Prop :=
  forall id, creating g !! id <> Some t /\ deleting g !! id <> Some t.

Lemma idle_rely t s g s' g' : rely t (s, g) (s', g') -> idle t g -> idle t g'.
Proof.
  intros Hr Hi id. destruct (Hi id) as [Hc Hd]. split.
  - intros Hc'. by apply (rely_creating _ _ _ Hr) in Hc'.
  - intros Hd'. by apply (rely_deleting _ _ _ Hr) in Hd'.
Qed.

(** ** Segments that leave the data alone *)

Definition same_data (s s' : store) : Prop :=
  s_records s' = s_records s /\ s_idempotency s' = s_idempotency s /\
  s_payloads s' = s_payloads s /\ s_sequence s' = s_sequence s.

Lemma same_data_refl s : same_data s s.
Proof. done. Qed.

Lemma same_data_rely t s s' g : same_data s s' -> rely t (s, g) (s', g).
Proof.
  intros (_ & _ & Hp & Hs). constructor; unfold payload_of, allotted; cbn; rewrite ?Hp, ?Hs; naive_solver lia.
Qed.

Lemma same_data_Inv s s' g : same_data s s' -> Inv s g -> Inv s' g.
Proof.
  intros (Hr & Hi & Hp & Hs) []. constructor; unfold stored, payload_of, allotted in *;
    rewrite ?Hr, ?Hi, ?Hp, ?Hs; eauto.
Qed.

(** An operation all of whose segments leave the data alone. *)
Fixpoint reads {A} (m : op A) : Prop :=
  match m with
  | Settled _ => True
  | Segment effect rest => forall s, same_data s (effect s) /\ reads (rest s)
  end.

Notation holds t := (holds Inv rely t).

Lemma holds_reads {A} t P (m : op A) s g :
  reads m -> stable Inv rely t P -> P s g -> holds t (fun _ => P) m s g.
Proof.
  intros Hm HP. revert s g. induction m as [r|effect rest IH]; intros s g Hs; [done|].
  intros s1 g1 Hr HI. destruct (Hm s1) as [Hd Hrest]. exists g1. split_and!.
  - by eapply same_data_Inv.
  - intros j _. by apply same_data_rely.
  - apply IH; [done|]. eapply HP; [by apply (same_data_rely t _ _ g1)|by eapply same_data_Inv|].
    by eapply HP.
Qed.

Lemma reads_bind {A B} (m : op A) (k : A -> op B) : reads m -> (forall a, reads (k a)) -> reads (m ≫= k).
Proof.
  intros Hm Hk. induction m as [[a|e]|effect rest IH]; [apply Hk|done|].
  intros s. destruct (Hm s) as [Hd Hr]. split; [done|]. by apply IH.
Qed.

Lemma reads_now {A} (r : res artifact_error A) : reads (now r). Proof. done. Qed.
Lemma reads_ret {A} (a : A) : reads (mret a : op A). Proof. done. Qed.

Lemma reads_segment {A} (m : ST store artifact_error A) :
  (forall s, same_data s (m s).2) -> reads (segment m).
Proof. intros Hm s. split; [apply Hm|done]. Qed.

Lemma reads_each {A B} (f : A -> op B) xs : (forall x, reads (f x)) -> reads (async_each f xs).
Proof.
  intros Hf. induction xs as [|x xs IH]; cbn; [done|]. apply reads_bind; [apply Hf|].
  intros y. by apply reads_bind.
Qed.

Lemma reads_world {A} (m : ST W artifact_error A) : reads (segment (with_world m)).
Proof. apply reads_segment. intros s. unfold with_world. by destruct (m (s_world s)). Qed.

Lemma reads_authorized o access metadata : reads (requireAuthorized options o access metadata).
Proof.
  apply reads_bind; [done|]. intros a. apply reads_bind; [apply reads_world|]. intros []; exact I.
Qed.

Lemma reads_sha256 payload : reads (computeSha256 payload).
Proof. by apply reads_segment. Qed.

Lemma metadataRepository_get_reads id s : (metadataRepository_get (W:=W) id s).2 = s.
Proof.
  unfold metadataRepository_get. st. destruct (dget id (s_records s)) as [m|]; [|done].
  unfold cloneMetadata, require. st. by destruct (StoredMetadataSchema m).
Qed.

Lemma getByIdempotencyKey_reads key s : (metadataRepository_getByIdempotencyKey (W:=W) key s).2 = s.
Proof.
  unfold metadataRepository_getByIdempotencyKey. st.
  destruct (truthy _); [apply metadataRepository_get_reads|done].
Qed.

Lemma reads_get id : reads (segment (metadataRepository_get (W:=W) id)).
Proof. apply reads_segment. intros s. by rewrite metadataRepository_get_reads. Qed.

Lemma reads_getMetadata id access : reads (getMetadata options id access).
Proof.
  apply reads_bind; [done|]. intros i. apply reads_bind; [apply reads_get|]. intros [m|]; [|done].
  by apply reads_bind; [apply reads_authorized|].
Qed.

Lemma reads_getPayload id access : reads (getPayload options id access).
Proof.
  apply reads_bind; [done|]. intros i. apply reads_bind; [apply reads_get|]. intros [m|]; [|done].
  apply reads_bind; [apply reads_authorized|]. intros _.
  apply reads_bind; [by apply reads_segment|]. intros []; exact I.
Qed.

Lemma reads_list access : reads (list_artifacts options access).
Proof.
  apply reads_bind; [done|]. intros a. apply reads_bind; [apply reads_authorized|]. intros _.
  apply reads_bind.
  - by apply reads_segment.
  - intros l. apply reads_bind; [|done]. apply reads_each. intros x.
    apply reads_bind; [apply reads_world|]. intros []; exact I.
Qed.

Lemma reads_idempotent existing payload : reads (requireIdempotentPayload (W:=W) existing payload).
Proof. apply reads_bind; [apply reads_sha256|]. intros h. unfold requireIdempotentPayload. by case_match. Qed.

(** ** Deleting *)

Lemma idle_stable t : stable Inv rely t (fun _ => idle t).
Proof. intros s g s' g' Hr _. by eapply idle_rely. Qed.

(** What a delete knows of the artifact whose record it read. *)
Definition published (id : string) (s : store) (g : owners) : Prop :=
  allotted s id /\ creating g !! id = None.

Lemma published_stable t id : stable Inv rely t (published id).
Proof.
  intros s g s' g' Hr _ [Ha Hc]. split.
  - eapply allotted_le; [apply Hr|done].
  - by apply (rely_given _ _ _ Hr).
Qed.

(** Between the two steps of a delete *)
Definition removing (t : nat) (id : string) (s : store) (g : owners) : Prop :=
  published id s g /\ payload_of s id = None /\
  forall id', creating g !! id' <> Some t /\ (deleting g !! id' = Some t -> id' = id).

Lemma removing_stable t id : stable Inv rely t (removing t id).
Proof.
  intros s g s' g' Hr HI (Hp & Hn & Ho). split_and!.
  - by eapply published_stable.
  - destruct Hp. by apply (rely_gone _ _ _ Hr).
  - intros id'. destruct (Ho id') as [Hc Hd]. split.
    + intros Hc'. by apply (rely_creating _ _ _ Hr) in Hc'.
    + intros Hd'. apply Hd. by apply (rely_deleting _ _ _ Hr).
Qed.

(** The first step of a delete *)
Definition drop_payload (id : string) (s : store) : store :=
  mkStore (s_records s) (s_idempotency s) (ddel (storage_key id) (s_payloads s)) (s_sequence s) (s_world s).
Definition start_delete (t : nat) (id : string) (s : store) (g : owners) : owners :=
  mkOwners (creating g)
    (if decide (is_Some (dget id (s_records s)) /\ deleting g !! id = None)
     then <[id := t]> (deleting g) else deleting g).

Lemma payload_of_drop id id' s :
  NoDup (dkeys (s_payloads s)) ->
  payload_of (drop_payload id s) id' = if decide (id' = id) then None else payload_of s id'.
Proof.
  intros Hnd. unfold payload_of, drop_payload. cbn. rewrite dget_ddel by done.
  destruct (decide (id' = id)) as [->|Hne]; [by rewrite decide_True|].
  rewrite decide_False; [done|]. intros Heq. by apply Hne, storage_key_inj.
Qed.

Lemma start_delete_other t id s g id' :
  id' <> id -> deleting (start_delete t id s g) !! id' = deleting g !! id'.
Proof. intros Hne. cbn. case_decide; [by rewrite lookup_insert_ne|done]. Qed.

Lemma start_delete_Some t id s g id' t' :
  deleting (start_delete t id s g) !! id' = Some t' ->
  deleting g !! id' = Some t' \/ id' = id /\ t' = t /\ is_Some (dget id (s_records s)).
Proof.
  cbn. case_decide as Hd; [|by left]. destruct (decide (id' = id)) as [->|Hne].
  - rewrite lookup_insert_eq. intros [= <-]. right. by destruct Hd.
  - rewrite lookup_insert_ne by done. by left.
Qed.

Lemma drop_payload_Inv t id s g :
  Inv s g -> published id s g -> Inv (drop_payload id s) (start_delete t id s g).
Proof.
  intros HI [Ha Hc]. pose proof (inv_nodup _ _ HI) as (Hn1 & Hn2 & Hn3). constructor.
  - split_and!; [done|done|by apply NoDup_ddel].
  - apply HI.
  - intros id' m Hm. destruct (inv_record _ _ HI _ _ Hm) as (Hp & Hall & Hcr & Hst).
    split_and!; [done|done|done|]. unfold stored. rewrite !payload_of_drop by done.
    replace (am_artifactId m) with id' by (symmetry; apply Hp).
    destruct (decide (id' = id)) as [->|Hne].
    + right. split; [done|]. cbn. case_decide as Hd; [by rewrite lookup_insert_eq|].
      destruct (deleting g !! id) eqn:Hdel; [by eexists|]. exfalso. apply Hd. by split; [eexists|].
    + destruct Hst as [Hst|Hst]; [left|right; by rewrite start_delete_other].
      unfold stored in Hst. by replace (am_artifactId m) with id' in Hst by (symmetry; apply Hp).
  - apply HI.
  - intros id' t' [Hd|(-> & -> & Hr)]%start_delete_Some; [exact (inv_deleting _ _ HI _ _ Hd)|done].
  - intros k b. cbn. rewrite dget_ddel by done. case_decide; [done|]. apply (inv_payload _ _ HI).
  - apply HI.
Qed.

Lemma drop_payload_rely t id s g j :
  Inv s g -> published id s g -> j <> t ->
  rely j (s, g) (drop_payload id s, start_delete t id s g).
Proof.
  intros HI [Ha Hc] Hj. pose proof (inv_nodup _ _ HI) as (_ & _ & Hn). constructor; cbn [fst snd].
  - done.
  - done.
  - intros id' Hid. rewrite payload_of_drop by done. case_decide; [congruence|done].
  - intros id' [Hd|(-> & -> & _)]%start_delete_Some; congruence.
  - done.
  - intros id' _ _ Hp. rewrite payload_of_drop by done. by case_decide.
Qed.

Lemma payload_delete_holds t id m s g :
  proper id m -> published id s g -> idle t g ->
  holds t (fun r s g => is_ok r = true /\ removing t id s g)
    (segment (payloadStore_delete (W:=W) (am_payload m))) s g.
Proof.
  intros Hm Hp Hi.
  apply (holds_segment _ _ _ _ (fun s g => published id s g /\ idle t g)); [|done|].
  { intros ???? Hr HI [Hp' Hi']. split; [by eapply published_stable|by eapply idle_stable]. }
  clear s g Hp Hi. intros s g [Hp Hi] HI. exists (start_delete t id s g).
  assert ((payloadStore_delete (am_payload m) s).2 = drop_payload id s) as ->.
  { unfold payloadStore_delete, set_payloads. st. by destruct Hm as (_ & _ & ->). }
  split_and!; [by apply drop_payload_Inv|intros j Hj; by apply drop_payload_rely|done|].
  split_and!; [exact Hp| |].
  - rewrite payload_of_drop by apply HI. by rewrite decide_True.
  - intros id'. split; [apply Hi|]. intros [Hd|(-> & _)]%start_delete_Some; [by destruct (Hi id')|done].
Qed.

(** The second step *)
Definition drop_record (id : string) (s : store) : store :=
  mkStore (ddel id (s_records s))
    (filter (fun kv : string * string => kv.2 <> id) (s_idempotency s : list (string * string)))
    (s_payloads s) (s_sequence s) (s_world s).
Definition finish_delete (id : string) (g : owners) : owners :=
  mkOwners (creating g) (delete id (deleting g)).

Lemma dget_filter_values {V} `{EqDecision V} (v : V) k (d : list (string * V)) :
  NoDup (dkeys d) ->
  dget k (filter (fun kv : string * V => kv.2 <> v) d) =
    match dget k d with Some v' => if decide (v' = v) then None else Some v' | None => None end.
Proof.
  induction d as [|[k0 v0] d IH]; cbn [dkeys map fst]; intros Hnd; [done|].
  apply NoDup_cons in Hnd as [Hk0 Hnd]. rewrite filter_cons. cbn [snd].
  case_decide as Hv0; cbn [dget]; rewrite IH by done.
  - destruct (decide (k = k0)) as [->|]; [|done]. by rewrite decide_False.
  - destruct (decide (k = k0)) as [->|]; [|done]. apply dget_None in Hk0. rewrite Hk0.
    by rewrite decide_True.
Qed.

Lemma NoDup_filter_keys {V} (P : string * V -> Prop) `{!forall x, Decision (P x)} (d : list (string * V)) :
  NoDup (dkeys d) -> NoDup (dkeys (filter P d)).
Proof.
  induction d as [|[k v] d IH]; cbn [dkeys map fst]; intros Hnd; [done|].
  apply NoDup_cons in Hnd as [Hk Hnd]. rewrite filter_cons. case_decide; [|by apply IH].
  cbn. apply NoDup_cons. split; [|by apply IH]. intros Hin. apply Hk.
  unfold dkeys in *. apply list_elem_of_fmap in Hin as ([k' v'] & -> & Hin).
  apply list_elem_of_filter in Hin as [_ Hin]. by apply (list_elem_of_fmap_2 fst) in Hin.
Qed.

Lemma drop_record_Inv t id s g : Inv s g -> removing t id s g -> Inv (drop_record id s) (finish_delete id g).
Proof.
  intros HI ([Ha Hc] & Hn & _). pose proof (inv_nodup _ _ HI) as (Hn1 & Hn2 & Hn3). constructor.
  - split_and!; [by apply NoDup_ddel|by apply NoDup_filter_keys|done].
  - apply HI.
  - intros id' m. cbn. rewrite dget_ddel by done. case_decide; [done|]. intros Hm.
    destruct (inv_record _ _ HI _ _ Hm) as (Hp & Hall & Hcr & Hst). split_and!; [done|done|done|].
    by rewrite lookup_delete_ne.
  - intros id' t' Hcr. cbn in *. destruct (inv_creating _ _ HI _ _ Hcr) as [? Hr]. split; [done|].
    rewrite dget_ddel by done. by case_decide.
  - intros id' t' Hd. cbn in *. apply lookup_delete_Some in Hd as [Hne Hd].
    rewrite dget_ddel by done. rewrite decide_False by done. exact (inv_deleting _ _ HI _ _ Hd).
  - intros k b Hk. cbn in *. destruct (inv_payload _ _ HI _ _ Hk) as (id' & -> & Hid). exists id'.
    split; [done|]. rewrite dget_ddel by done. case_decide; [|done]. subst.
    by unfold payload_of in Hn; rewrite Hk in Hn.
  - intros k id' Hk. cbn in *. rewrite dget_filter_values in Hk by done.
    destruct (dget k (s_idempotency s)) as [v|] eqn:Hv; [|done]. case_decide; [done|]. simplify_eq.
    rewrite dget_ddel by done. rewrite decide_False by done. exact (inv_key _ _ HI _ _ Hv).
Qed.

Lemma record_delete_holds t id s g :
  removing t id s g -> holds t (fun _ _ => idle t) (segment (metadataRepository_delete (W:=W) id)) s g.
Proof.
  intros Hr. apply (holds_segment _ _ _ _ (removing t id)); [apply removing_stable|done|].
  clear s g Hr. intros s g Hr HI. exists (finish_delete id g). split_and!.
  - by eapply (drop_record_Inv t).
  - intros j Hj. constructor; try done. intros id' Hd. cbn in *. by apply lookup_delete_Some in Hd as [_ Hd].
  - destruct Hr as (_ & _ & Ho). intros id'. destruct (Ho id') as [Hc Hd]. split; [done|]. cbn.
    intros [Hne Hd']%lookup_delete_Some. by apply Hne, eq_sym, Hd.
Qed.

Lemma holds_now {A B} t (r : res artifact_error A) (k : A -> op B) Q s g :
  (forall a, r = Ok a -> holds t Q (k a) s g) -> (forall e, Q (Err e) s g) ->
  holds t Q (now r ≫= k) s g.
Proof. intros Hk He. apply holds_bind. destruct r as [a|e]; [by apply Hk|apply He]. Qed.

Lemma parse_id_Ok id id' : parse_id id = Ok id' -> id' = id /\ ArtifactIdSchema id = true.
Proof. unfold parse_id, require. destruct (ArtifactIdSchema id); [|done]. by intros [= <-]. Qed.

Lemma cloneMetadata_Ok m m' : cloneMetadata m = Ok m' -> m' = m /\ StoredMetadataSchema m = true.
Proof. unfold cloneMetadata, require. destruct (StoredMetadataSchema m); [|done]. by intros [= <-]. Qed.

Lemma metadataRepository_get_Ok id s o :
  (metadataRepository_get (W:=W) id s).1 = Ok o -> dget id (s_records s) = o.
Proof.
  unfold metadataRepository_get. st. destruct (dget id (s_records s)) as [m|]; [|by intros [= <-]].
  destruct (cloneMetadata m) as [m'|e] eqn:Hm; [|done]. apply cloneMetadata_Ok in Hm as [-> _].
  by intros [= <-].
Qed.

Lemma delete_holds t id access s g :
  idle t g -> holds t (fun _ _ => idle t) (delete_artifact options id access) s g.
Proof.
  intros Hi. apply holds_now; [|done]. intros i [-> _]%parse_id_Ok. apply holds_bind.
  apply (holds_read _ _ _ _ (fun _ => idle t));
    [apply metadataRepository_get_reads|apply idle_stable|done|].
  clear s g Hi. intros s g Hi HI. destruct (metadataRepository_get id s).1 as [o|e] eqn:Hget; [|done].
  apply metadataRepository_get_Ok in Hget. destruct o as [m|]; [|done].
  destruct (inv_record _ _ HI _ _ Hget) as (Hm & Ha & Hc & _).
  set (P := fun s g => published id s g /\ idle t g). apply holds_bind.
  eapply holds_mono; [apply (holds_reads t P)|].
  - apply reads_authorized.
  - intros ???? Hr HI' [Hp' Hi']. split; [by eapply published_stable|by eapply idle_stable].
  - done.
  - intros [[]|e] s' g' [Hp Hi']; [|done]. apply holds_bind.
    eapply holds_mono; [by apply (payload_delete_holds t id m)|].
    intros [b|e] s2 g2 [Hok H2]; [by apply record_delete_holds|done].
Qed.

(** ** Creating *)

(** The operation is creating the artifact of [m], and nothing else. *)
Definition owns_only (t : nat) (id : string) (g : owners) : Prop :=
  creating g !! id = Some t /\
  forall id', (creating g !! id' = Some t -> id' = id) /\ deleting g !! id' <> Some t.

Lemma owns_only_stable t id : stable Inv rely t (fun _ => owns_only t id).
Proof.
  intros s g s' g' Hr _ [Hid Ho]. split; [by apply (rely_creating _ _ _ Hr)|].
  intros id'. destruct (Ho id') as [Hc Hd]. split.
  - intros Hc'. by apply Hc, (rely_creating _ _ _ Hr).
  - intros Hd'. by apply Hd, (rely_deleting _ _ _ Hr).
Qed.

(** The step that gives the id *)
Definition reserve (s : store) (w : W) : store :=
  mkStore (s_records s) (s_idempotency s) (s_payloads s) (s_sequence s + 1) w.
Definition start_create (t : nat) (id : string) (g : owners) : owners :=
  mkOwners (<[id := t]> (creating g)) (deleting g).

Lemma fresh_id s g :
  Inv s g -> ~ allotted s (memory_id (s_sequence s + 1)).
Proof.
  intros HI (i & Hi & Heq). pose proof (inv_sequence _ _ HI). apply memory_id_inj in Heq; lia.
Qed.

Lemma allotted_reserve s w : 0 <= s_sequence s -> allotted (reserve s w) (memory_id (s_sequence s + 1)).
Proof. intros Hs. exists (s_sequence s + 1). cbn. split; [lia|done]. Qed.

Lemma reserve_Inv s w g : Inv s g -> Inv (reserve s w) g.
Proof.
  intros HI. assert (Hall : forall id, allotted s id -> allotted (reserve s w) id).
  { intros id. apply allotted_le. cbn. lia. }
  destruct HI. constructor; try done; cbn in *.
  - lia.
  - intros id m Hm. destruct (inv_record0 id m Hm) as (? & ? & ? & ?). split_and!; auto.
  - intros id t Hc. destruct (inv_creating0 id t Hc). split; auto.
Qed.

Lemma reserve_rely s w g j : rely j (s, g) (reserve s w, g).
Proof. constructor; cbn; (done || lia). Qed.

Lemma start_create_Inv t id s g :
  Inv s g -> allotted s id -> dget id (s_records s) = None -> Inv s (start_create t id g).
Proof.
  intros HI Ha Hn. constructor; try apply HI.
  - intros id' m Hm. destruct (inv_record _ _ HI _ _ Hm) as (? & ? & Hc & ?). split_and!; try done.
    cbn. rewrite lookup_insert_ne; [done|]. congruence.
  - intros id' t'. cbn. rewrite lookup_insert_Some. intros [[<- _]|[_ Hc]]; [done|].
    exact (inv_creating _ _ HI _ _ Hc).
  - intros k b Hk. destruct (inv_payload _ _ HI _ _ Hk) as (id' & -> & Hid). exists id'. split; [done|].
    destruct Hid as [Hid|[t' Hid]]; [by left|right]. cbn.
    destruct (decide (id = id')) as [->|]; [by rewrite lookup_insert_eq|].
    by rewrite lookup_insert_ne by done.
Qed.

Lemma create_rely t s w g j :
  Inv s g -> j <> t ->
  rely j (s, g) (reserve s w, start_create t (memory_id (s_sequence s + 1)) g).
Proof.
  intros HI Hj. pose proof (fresh_id _ _ HI) as Hf. constructor; cbn [fst snd].
  - cbn. lia.
  - intros id. cbn. rewrite lookup_insert_Some. split; [|naive_solver].
    intros Hc. right. split; [|done]. intros <-. by apply (inv_creating _ _ HI) in Hc as [? _].
  - done.
  - done.
  - intros id Ha Hc. cbn. rewrite lookup_insert_ne; [done|]. by intros <-.
  - done.
Qed.

Context (generated : so_createArtifactId options = None).

(** The metadata of a new artifact whose id the store generates *)
Definition built (input : PutArtifactInput) (id : string) (m : ArtifactMetadata) : Prop :=
  proper id m /\ describes m (pi_payload input).

Lemma call_option_world f r s :
  exists w, (call_option (W:=W) f r s).2 = mkStore (s_records s) (s_idempotency s) (s_payloads s) (s_sequence s) w.
Proof.
  destruct f as [f|]; cbn.
  - unfold with_world. destruct (f (s_world s)) as [x w]. by exists w.
  - exists (s_world s). by destruct s.
Qed.

Lemma metadata_of_generated input s :
  pi_artifactId input = None ->
  exists w, (metadata_of options input (sha256_text (pi_payload input)) s).2 = reserve s w /\
    forall m, (metadata_of options input (sha256_text (pi_payload input)) s).1 = Ok m ->
    built input (memory_id (s_sequence s + 1)) m.
Proof.
  intros Hid. unfold metadata_of, chosen_id, createArtifactId. rewrite Hid, generated. st.
  set (s1 := mkStore _ _ _ (s_sequence s + 1) _). change (s_sequence s1) with (s_sequence s + 1).
  assert (Hnone : forall r, call_option (W:=W) None r s1 = (r, s1)) by done. rewrite !Hnone.
  destruct (parse_id _) as [id|e] eqn:Hp; [|by exists (s_world s)].
  apply parse_id_Ok in Hp as [-> _].
  destruct (parse_ownership _) as [o|e]; [|by exists (s_world s)].
  destruct (require _); [|by exists (s_world s)].
  destruct (call_option_world (so_now options) (Ok DEFAULT_TIMESTAMP) s1) as [w Hw].
  destruct (call_option _ _ s1) as [[at_|e] s2]; cbn in Hw; subst s2; exists w; (split; [done|]); [|done].
  cbn [fst]. intros m [-> Hm]%cloneMetadata_Ok. by repeat split.
Qed.

Lemma metadata_of_holds t input s g :
  pi_artifactId input = None -> idle t g ->
  holds t (fun r s g => match r with
                        | Ok m => built input (am_artifactId m) m /\ owns_only t (am_artifactId m) g
                        | Err _ => idle t g end)
    (segment (metadata_of options input (sha256_text (pi_payload input)))) s g.
Proof.
  intros Hn Hi. apply (holds_segment _ _ _ _ (fun _ => idle t)); [apply idle_stable|done|].
  clear s g Hi. intros s g Hi HI. destruct (metadata_of_generated input s Hn) as (w & -> & Hm).
  destruct (metadata_of options input _ s).1 as [m|e].
  - specialize (Hm m eq_refl). exists (start_create t (am_artifactId m) g).
    assert (am_artifactId m = memory_id (s_sequence s + 1)) as Hid by apply Hm. split_and!.
    + apply start_create_Inv; [by apply reserve_Inv| |].
      * rewrite Hid. apply allotted_reserve. apply HI.
      * rewrite Hid. cbn. destruct (dget _ (s_records s)) as [m'|] eqn:Hr; [|done].
        apply (inv_record _ _ HI) in Hr as (_ & Ha & _). by apply (fresh_id _ _ HI) in Ha.
    + intros j Hj. rewrite Hid. by apply create_rely.
    + by rewrite Hid.
    + split; [by cbn; rewrite lookup_insert_eq|]. intros id'. destruct (Hi id') as [Hc Hd].
      split; [|done]. cbn. rewrite lookup_insert_Some. naive_solver.
  - exists g. split_and!; [by apply reserve_Inv|intros j _; apply (reserve_rely s w g j)|done].
Qed.

(** The payload of the new artifact *)
Definition add_payload (id : string) (b : bytes) (s : store) : store :=
  mkStore (s_records s) (s_idempotency s) (dset (storage_key id) b (s_payloads s)) (s_sequence s) (s_world s).

Lemma payload_of_add id id' b s :
  payload_of (add_payload id b s) id' = if decide (id' = id) then Some b else payload_of s id'.
Proof.
  unfold payload_of, add_payload. cbn. rewrite dget_dset.
  destruct (decide (id' = id)) as [->|Hne]; [by rewrite decide_True|].
  rewrite decide_False; [done|]. intros Heq. by apply Hne, storage_key_inj.
Qed.

Lemma add_payload_Inv t id b s g : Inv s g -> creating g !! id = Some t -> Inv (add_payload id b s) g.
Proof.
  intros HI Hc. pose proof (inv_nodup _ _ HI) as (Hn1 & Hn2 & Hn3). constructor; try apply HI.
  - split_and!; [done|done|by apply NoDup_dset].
  - intros id' m Hm. destruct (inv_record _ _ HI _ _ Hm) as (Hp & Ha & Hc' & Hst). split_and!; try done.
    unfold stored in *. replace (am_artifactId m) with id' in * by (symmetry; apply Hp).
    rewrite payload_of_add. case_decide; [congruence|done].
  - intros k b' Hk. cbn in *. rewrite dget_dset in Hk. case_decide; [|by apply (inv_payload _ _ HI) in Hk].
    exists id. split; [done|]. right. by eexists.
Qed.

Lemma payload_put_holds t id m b s g :
  pr_storageKey (am_payload m) = storage_key id -> owns_only t id g ->
  holds t (fun r s g => is_ok r = true /\ owns_only t id g /\ payload_of s id = Some b)
    (segment (payloadStore_put (W:=W) (am_payload m) b)) s g.
Proof.
  intros Hk Ho. apply (holds_segment _ _ _ _ (fun _ => owns_only t id)); [apply owns_only_stable|done|].
  clear s g Ho. intros s g Ho HI. exists g.
  assert ((payloadStore_put (am_payload m) b s).2 = add_payload id b s) as ->.
  { unfold payloadStore_put, set_payloads. st. by rewrite Hk. }
  destruct Ho as [Hc Ho]. split_and!; [by eapply add_payload_Inv| |done|done|].
  - intros j Hj. constructor; try done; cbn [fst snd]; intros id'; rewrite payload_of_add.
    + intros Hid. case_decide; [congruence|done].
    + intros Ha Hid. case_decide; [congruence|done].
  - rewrite payload_of_add. by rewrite decide_True.
Qed.

(** Its record and its key *)
Definition add_record (id key : string) (m : ArtifactMetadata) (s : store) : store :=
  mkStore (dset id m (s_records s)) (dset key id (s_idempotency s)) (s_payloads s) (s_sequence s) (s_world s).
Definition finish_create (id : string) (g : owners) : owners :=
  mkOwners (delete id (creating g)) (deleting g).

Lemma add_record_Inv t id key m s g :
  Inv s g -> creating g !! id = Some t -> proper id m -> stored s m ->
  Inv (add_record id key m s) (finish_create id g).
Proof.
  intros HI Hc Hm Hst. pose proof (inv_nodup _ _ HI) as (Hn1 & Hn2 & Hn3).
  destruct (inv_creating _ _ HI _ _ Hc) as [Ha Hnone].
  assert (Hold : forall id', is_Some (dget id' (s_records s)) -> is_Some (dget id' (dset id m (s_records s)))).
  { intros id' Hid. rewrite dget_dset. case_decide; [by eexists|done]. }
  constructor.
  - split_and!; [by apply NoDup_dset|by apply NoDup_dset|done].
  - apply HI.
  - intros id' m'. cbn. rewrite dget_dset. case_decide as Hid.
    + intros [= <-]. subst. split_and!; [done|done|by rewrite lookup_delete_eq|by left].
    + intros Hm'. destruct (inv_record _ _ HI _ _ Hm') as (? & ? & ? & ?). split_and!; try done.
      by rewrite lookup_delete_ne.
  - cbn. intros id' t' [Hne Hc']%lookup_delete_Some. destruct (inv_creating _ _ HI _ _ Hc') as [? Hr].
    split; [done|]. cbn. by rewrite dget_dset, decide_False.
  - intros id' t' Hd. apply Hold. exact (inv_deleting _ _ HI _ _ Hd).
  - intros k b Hk. destruct (inv_payload _ _ HI _ _ Hk) as (id' & -> & Hid). exists id'.
    split; [done|]. destruct Hid as [Hid|[t' Hid]]; [left; by apply Hold|]. cbn. rewrite dget_dset.
    case_decide; [left; by eexists|]. right. exists t'. by rewrite lookup_delete_ne.
  - intros k id' Hk. cbn in *. rewrite dget_dset in Hk. case_decide.
    + simplify_eq. rewrite dget_dset_eq. by eexists.
    + apply Hold. exact (inv_key _ _ HI _ _ Hk).
Qed.

Lemma record_put_holds t m key b s g :
  proper (am_artifactId m) m -> describes m b -> owns_only t (am_artifactId m) g ->
  payload_of s (am_artifactId m) = Some b ->
  holds t (fun _ _ => idle t) (segment (metadataRepository_put (W:=W) m key)) s g.
Proof.
  intros Hm Hb Ho Hp. set (id := am_artifactId m) in *.
  apply (holds_segment _ _ _ _ (fun s g => owns_only t id g /\ payload_of s id = Some b)); [|done|].
  { intros ? ? ? ? Hr HI [Ho' Hp']. split; [by eapply owns_only_stable|].
    destruct Ho' as [Hc _]. rewrite <- Hp'. exact (rely_mine _ _ _ Hr id Hc). }
  clear s g Ho Hp. intros s g [[Hc Ho] Hp] HI. exists (finish_create id g).
  assert ((metadataRepository_put m key s).2 = add_record id key m s) as ->.
  { unfold metadataRepository_put, cloneMetadata, require. st. by destruct Hm as (-> & _). }
  split_and!.
  - eapply add_record_Inv; [done|exact Hc|done|]. by exists b.
  - intros j Hj. constructor; try done; cbn [fst snd]; intros id'; cbn [creating finish_create].
    + rewrite lookup_delete_Some. split; [|naive_solver]. intros Hc'. split; [congruence|done].
    + intros _ Hn. destruct (decide (id = id')) as [->|]; [by rewrite lookup_delete_eq|].
      by rewrite lookup_delete_ne.
  - intros id'. destruct (Ho id') as [Hc' Hd]. split; [|done]. cbn.
    intros [Hne Hc'']%lookup_delete_Some. by apply Hne, eq_sym, Hc'.
Qed.

Lemma create_holds t input s g :
  pi_artifactId input = None -> idle t g ->
  holds t (fun _ _ => idle t)
    (metadata ← buildMetadata options input;
     _ ← segment (payloadStore_put (am_payload metadata) (pi_payload input));
     _ ← segment (metadataRepository_put metadata (pi_idempotencyKey input));
     now (cloneMetadata metadata)) s g.
Proof.
  intros Hn Hi. apply holds_bind. unfold buildMetadata. apply holds_bind.
  apply (holds_read _ _ _ _ (fun _ => idle t)); [done|apply idle_stable|done|].
  clear s g Hi. intros s g Hi HI. unfold lift, require. cbn [fst].
  destruct (StoredSha256Schema _); [|done]. cbn [mbind res_bind].
  destruct (checksum_differs _ _); [done|]. eapply holds_mono; [by apply metadata_of_holds|].
  clear s g Hi HI. intros [m|e] s g; [|done]. intros [[Hm Hb] Ho]. apply holds_bind.
  eapply holds_mono; [by apply (payload_put_holds t (am_artifactId m) m (pi_payload input)); [apply Hm|]|].
  clear s g Ho. intros [[]|e] s g (Hok & Ho & Hp); [|done]. apply holds_bind.
  eapply holds_mono; [by apply (record_put_holds t m _ (pi_payload input))|]. by intros [[]|e] s' g'.
Qed.

Lemma put_holds t input access s g :
  pi_artifactId input = None -> idle t g ->
  holds t (fun _ _ => idle t) (put options input access) s g.
Proof.
  intros Hn Hi. do 4 (apply holds_now; [intros ? _|done]). apply holds_bind.
  eapply holds_mono; [apply (holds_reads t (fun _ => idle t)); [|apply idle_stable|done]|].
  { apply reads_segment. intros s'. by rewrite getByIdempotencyKey_reads. }
  clear s g Hi. intros [[existing|]|e] s g Hi; [| |done].
  - apply (holds_reads t (fun _ => idle t)); [|apply idle_stable|done].
    apply reads_bind; [apply reads_authorized|intros _]. by apply reads_bind; [apply reads_idempotent|].
  - apply holds_bind. eapply holds_mono; [apply (holds_reads t (fun _ => idle t))|];
      [apply reads_authorized|apply idle_stable|done|].
    intros [[]|e] s' g' Hi'; [by apply create_holds|done].
Qed.

(** ** Every operation, and any number of them *)

(** The calls that leave the choice of the id to the store *)
Definition generates_id (o : store_operation) : Prop :=
  match o with o_put input _ => pi_artifactId input = None | _ => True end.
Definition starts (m : op store_outcome) : Prop := exists o, generates_id o /\ m = call options o.

Lemma call_holds t o s g :
  generates_id o -> idle t g -> holds t (fun _ _ => idle t) (call options o) s g.
Proof.
  intros Hg Hi.
  assert (Hread : forall m : op store_outcome, reads m -> holds t (fun _ _ => idle t) m s g).
  { intros m Hm. apply (holds_reads t (fun _ => idle t)); [done|apply idle_stable|done]. }
  destruct o as [input access|id access|id access|access|id access]; cbn [call generates_id] in *.
  - apply holds_bind. eapply holds_mono; [by apply put_holds|]. by intros [].
  - apply Hread, reads_bind; [apply reads_getMetadata|done].
  - apply Hread, reads_bind; [apply reads_getPayload|done].
  - apply Hread, reads_bind; [apply reads_list|done].
  - apply holds_bind. eapply holds_mono; [by apply delete_holds|]. by intros [].
Qed.

Lemma new_store_Inv w : Inv (new_store w) (mkOwners ∅ ∅).
Proof. constructor; try done. split_and!; constructor. Qed.

Lemma reachable_ok w ops s :
  pool_steps starts ([], new_store w) (ops, s) ->
  exists g, pool_ok Inv rely idle (fun t _ _ => idle t) ops s g.
Proof.
  intros Hst. eapply (pool_steps_ok Inv rely idle idle_rely _ starts); [| |exact (ltac:(split_and!;
    [apply (new_store_Inv w)|done|done]) : pool_ok Inv rely idle (fun t _ _ => idle t) [] (new_store w) (mkOwners ∅ ∅))|exact Hst].
  - intros t _. apply idle_stable.
  - intros t m s' g (o & Ho & ->) Hi. by apply call_holds.
Qed.
End Pool.
