(* ===== verification/ArtifactFacts.v ===== *)
(** The operations of the in-memory artifact store run one after the other. *)
From S2P Require Import Prelude Js Zod Protocol LifecycleEvents WorkerEvents Json Async ArtifactStore ArtifactPool.
From Stdlib Require Import Ascii.
#[local] Open Scope Z_scope.

Section Facts.
Context `{!JsRuntime} `{!WebCrypto} {W : Type} (options : InMemoryArtifactStoreOptions W).
Notation store := (InMemoryArtifactStore W).
Notation op A := (async store artifact_error A).

(** ** Running *)

Definition set_world (w : W) (s : store) : store :=
  mkStore (s_records s) (s_idempotency s) (s_payloads s) (s_sequence s) w.

(** The authorizer admits the operation, leaving its world [w]. *)
Definition allows (o : ArtifactAccessOperation) (access : ArtifactAccessContext)
    (metadata : option ArtifactMetadata) (s : store) (w : W) : Prop :=
  ArtifactAccessContextSchema access = true /\
  so_authorize options o access metadata (s_world s) = (Ok true, w).

Lemma run_allowed {B} o access metadata (k : unit -> op B) s w :
  allows o access metadata s w ->
  run (requireAuthorized options o access metadata ≫= k) s = run (k tt) (set_world w s).
Proof.
  intros [Ha Hw]. rewrite run_bind. unfold requireAuthorized, parse_access, require. rewrite Ha. cbn.
  unfold with_world. by rewrite Hw.
Qed.

(** ** Consistent stores *)

Record consistent (s : store) : Prop := mkConsistent {
  con_nodup : NoDup (dkeys (s_records s)) /\ NoDup (dkeys (s_idempotency s)) /\
              NoDup (dkeys (s_payloads s));
  con_record id m : dget id (s_records s) = Some m -> proper id m /\ stored s m;
  con_payload k b : dget k (s_payloads s) = Some b ->
    exists id, k = storage_key id /\ is_Some (dget id (s_records s));
  con_key k id : dget k (s_idempotency s) = Some id -> is_Some (dget id (s_records s));
}.

(** The stored data, without the id counter and the world *)
Definition same_tables (s s' : store) : Prop :=
  s_records s' = s_records s /\ s_idempotency s' = s_idempotency s /\ s_payloads s' = s_payloads s.

Lemma same_tables_refl s : same_tables s s. Proof. done. Qed.
Lemma same_tables_trans s1 s2 s3 : same_tables s1 s2 -> same_tables s2 s3 -> same_tables s1 s3.
Proof. unfold same_tables. intuition congruence. Qed.

Lemma same_tables_consistent s s' : same_tables s s' -> consistent s -> consistent s'.
Proof.
  intros (Hr & Hi & Hp) []. constructor; unfold stored, payload_of in *; rewrite ?Hr, ?Hi, ?Hp; eauto.
Qed.

Lemma set_world_tables w s : same_tables s (set_world w s). Proof. done. Qed.

(** An operation that only reads leaves the tables alone. *)
Lemma reads_run {A} (m : op A) s : reads m -> same_tables s (run m s).2.
Proof.
  revert s. induction m as [r|effect rest IH]; intros s Hm; [done|].
  destruct (Hm s) as [(Hr & Hi & Hp & _) Hrest]. cbn. eapply same_tables_trans; [|by apply IH]. done.
Qed.

Lemma get_record id m s :
  consistent s -> dget id (s_records s) = Some m -> metadataRepository_get id s = (Ok (Some m), s).
Proof.
  intros Hc Hm. unfold metadataRepository_get. st. rewrite Hm.
  destruct (con_record _ Hc _ _ Hm) as [(Hs & _) _]. unfold cloneMetadata, require. by rewrite Hs.
Qed.

Lemma payload_put_eq m b (s : store) :
  payloadStore_put (am_payload m) b s =
    (Ok tt, mkStore (s_records s) (s_idempotency s) (dset (pr_storageKey (am_payload m)) b (s_payloads s))
                    (s_sequence s) (s_world s)).
Proof. done. Qed.

Lemma record_put_eq m key (s : store) :
  StoredMetadataSchema m = true ->
  metadataRepository_put m key s = (Ok tt, add_record (am_artifactId m) key m s).
Proof. intros Hm. unfold metadataRepository_put, cloneMetadata, require. st. by rewrite Hm. Qed.

(** ** The new artifact *)

Definition describes_input (input : PutArtifactInput) (m : ArtifactMetadata) : Prop :=
  am_kind m = pi_kind input /\ am_ownership m = pi_ownership input /\
  am_visibility m = pi_visibility input /\ am_properties m = default [] (pi_properties input) /\
  pr_contentType (am_payload m) = pi_contentType input /\ describes m (pi_payload input).

Lemma call_option_tables f r (s : store) : same_tables s (call_option (W:=W) f r s).2.
Proof. destruct (call_option_world f r s) as [w ->]. done. Qed.

Lemma metadata_of_shape input s :
  same_tables s (metadata_of options input (sha256_text (pi_payload input)) s).2 /\
  forall m, (metadata_of options input (sha256_text (pi_payload input)) s).1 = Ok m ->
  proper (am_artifactId m) m /\ describes_input input m.
Proof.
  unfold metadata_of. st.
  assert (Hs : same_tables s (chosen_id options input s).2).
  { unfold chosen_id. destruct (pi_artifactId input); [done|]. unfold createArtifactId. st.
    eapply same_tables_trans; [|apply call_option_tables]. done. }
  destruct (chosen_id options input s) as [[id|e] s1]; [|done]. cbn [snd] in Hs.
  unfold parse_ownership. destruct (require (ArtifactOwnershipSchema _)); [|done]. st.
  destruct (require _); [|done].
  pose proof (call_option_tables (so_now options) (Ok DEFAULT_TIMESTAMP) s1) as Ht.
  destruct (call_option _ _ s1) as [[at_|e] s2]; cbn in Ht |- *; (split; [by eapply same_tables_trans|]); [|done].
  intros m [-> Hm]%cloneMetadata_Ok. by repeat split.
Qed.

(** The store after a new artifact *)
Definition added (input : PutArtifactInput) (m : ArtifactMetadata) (s s' : store) : Prop :=
  s_records s' = dset (am_artifactId m) m (s_records s) /\
  s_idempotency s' = dset (pi_idempotencyKey input) (am_artifactId m) (s_idempotency s) /\
  s_payloads s' = dset (storage_key (am_artifactId m)) (pi_payload input) (s_payloads s).

Lemma run_create input s :
  let '(r, s') := run (metadata ← buildMetadata options input;
     _ ← segment (payloadStore_put (am_payload metadata) (pi_payload input));
     _ ← segment (metadataRepository_put metadata (pi_idempotencyKey input));
     now (cloneMetadata metadata)) s in
  match r with
  | Ok m => proper (am_artifactId m) m /\ describes_input input m /\ added input m s s'
  | Err _ => same_tables s s'
  end.
Proof.
  rewrite run_bind. unfold buildMetadata. rewrite run_bind. unfold computeSha256. rewrite run_segment.
  unfold require, lift. destruct (StoredSha256Schema _); [|done]. cbn [mbind res_bind].
  destruct (checksum_differs _ _); [done|]. rewrite run_segment. destruct (metadata_of_shape input s) as [Ht Hm].
  destruct (metadata_of options input _ s) as [[m|e] s1]; [|done]. destruct (Hm m eq_refl) as [Hp Hd].
  cbn [snd] in Ht. destruct Ht as (Hr & Hi & Hq). cbv beta iota.
  rewrite run_segment_bind, payload_put_eq, run_segment_bind, record_put_eq by apply Hp.
  destruct Hp as (Hs & Hid & Hk). unfold now, cloneMetadata, require. rewrite Hs.
  split; [by repeat split|]. split; [done|]. unfold added. cbn. by rewrite Hr, Hi, Hq, Hk.
Qed.

Lemma added_consistent input m s s' :
  consistent s -> proper (am_artifactId m) m -> describes_input input m -> added input m s s' ->
  consistent s'.
Proof.
  intros Hc Hm Hd (Hr & Hi & Hp). destruct (con_nodup _ Hc) as (Hn1 & Hn2 & Hn3).
  assert (Hold : forall id, is_Some (dget id (s_records s)) -> is_Some (dget id (s_records s'))).
  { intros id Hid. rewrite Hr, dget_dset. case_decide; [by eexists|done]. }
  constructor.
  - rewrite Hr, Hi, Hp. auto using NoDup_dset.
  - intros id m'. rewrite Hr, dget_dset. unfold stored, payload_of. rewrite Hp. case_decide as Hid.
    + intros [= <-]. subst. split; [done|]. exists (pi_payload input). rewrite dget_dset_eq.
      split; [done|]. apply Hd.
    + intros Hm'. destruct (con_record _ Hc _ _ Hm') as [Hp' (b & Hb & Hs)]. split; [done|].
      exists b. split; [|done]. rewrite dget_dset_ne; [done|]. intros Heq%storage_key_inj.
      apply Hid. rewrite <- Heq. symmetry. apply Hp'.
  - intros k b. rewrite Hp, dget_dset. case_decide.
    + intros _. exists (am_artifactId m). split; [done|]. rewrite Hr, dget_dset_eq. by eexists.
    + intros Hk. destruct (con_payload _ Hc _ _ Hk) as (id & -> & Hid). exists id. eauto.
  - intros k id. rewrite Hi, dget_dset. case_decide.
    + intros [= <-]. rewrite Hr, dget_dset_eq. by eexists.
    + intros Hk. apply Hold. exact (con_key _ Hc _ _ Hk).
Qed.

(** ** Deleting *)

(** Everything of the artifact is gone, and nothing else. *)
Definition removed (id : string) (s s' : store) : Prop :=
  (forall id', dget id' (s_records s') = if decide (id' = id) then None else dget id' (s_records s)) /\
  (forall id', payload_of s' id' = if decide (id' = id) then None else payload_of s id') /\
  (forall k, dget k (s_idempotency s') =
     match dget k (s_idempotency s) with
     | Some id' => if decide (id' = id) then None else Some id' | None => None end).

Lemma payload_delete_eq m (s : store) :
  payloadStore_delete (am_payload m) s =
    (Ok (is_some (dget (pr_storageKey (am_payload m)) (s_payloads s))),
     mkStore (s_records s) (s_idempotency s) (ddel (pr_storageKey (am_payload m)) (s_payloads s))
             (s_sequence s) (s_world s)).
Proof. done. Qed.

Lemma record_delete_eq id (s : store) :
  metadataRepository_delete id s = (Ok (is_some (dget id (s_records s))), drop_record id s).
Proof. done. Qed.

Lemma run_delete id access m s w :
  consistent s -> dget id (s_records s) = Some m -> ArtifactIdSchema id = true ->
  allows op_delete access (Some m) s w ->
  run (delete_artifact options id access) s =
    (Ok true, drop_record id (drop_payload id (set_world w s))).
Proof.
  intros Hc Hm Hid Hw. unfold delete_artifact, parse_id, require. rewrite Hid. cbn [mbind res_bind].
  rewrite run_now, run_segment_bind, (get_record id m) by done.
  rewrite (run_allowed _ _ _ _ _ w) by done.
  destruct (con_record _ Hc _ _ Hm) as [(_ & _ & Hk) _].
  rewrite run_segment_bind, payload_delete_eq, run_segment, record_delete_eq, Hk. cbn. by rewrite Hm.
Qed.

Lemma delete_removed id s w :
  consistent s -> removed id s (drop_record id (drop_payload id (set_world w s))).
Proof.
  intros Hc. destruct (con_nodup _ Hc) as (Hn1 & Hn2 & Hn3). split_and!.
  - intros id'. cbn. by apply dget_ddel.
  - intros id'. exact (payload_of_drop id id' (set_world w s) Hn3).
  - intros k. cbn. by rewrite dget_filter_values.
Qed.

Lemma delete_consistent id s w :
  consistent s -> consistent (drop_record id (drop_payload id (set_world w s))).
Proof.
  intros Hc. pose proof (con_nodup _ Hc) as (Hn1 & Hn2 & Hn3).
  destruct (delete_removed id s w Hc) as (Hr & Hp & Hi).
  set (s' := drop_record _ _) in *. constructor.
  - split_and!; [by apply NoDup_ddel|by apply NoDup_filter_keys|by apply NoDup_ddel].
  - intros id' m. rewrite Hr. case_decide; [done|]. intros Hm.
    destruct (con_record _ Hc _ _ Hm) as [Hpr Hst]. split; [done|]. unfold stored in *.
    rewrite Hp. replace (am_artifactId m) with id' in * by (symmetry; apply Hpr).
    by rewrite decide_False.
  - intros k b. cbn. rewrite dget_ddel by done. case_decide as Hk; [done|]. intros Hb.
    destruct (con_payload _ Hc _ _ Hb) as (id' & -> & Hid). exists id'. split; [done|].
    rewrite dget_ddel by done. rewrite decide_False; [done|]. by intros ->.
  - intros k id'. rewrite Hi. destruct (dget k (s_idempotency s)) as [v|] eqn:Hv; [|done].
    case_decide; [done|]. intros [= <-]. rewrite Hr, decide_False by done.
    exact (con_key _ Hc _ _ Hv).
Qed.

(** ** Hashes *)

Lemma hex_text_valid digest :
  str_forall is_lower_hex (hex_text digest) = true /\
  String.length (hex_text digest) = (2 * length digest)%nat.
Proof.
  induction digest as [|b digest [IHf IHl]]; [done|]. cbn [hex_text fold_right].
  fold (hex_text digest). rewrite str_forall_app, length_append, IHl, IHf. split.
  - by destruct b.
  - cbn. lia.
Qed.

Lemma sha256_text_valid payload : StoredSha256Schema (sha256_text payload) = true.
Proof.
  unfold StoredSha256Schema, sha256_text. destruct (hex_text_valid (sha256_digest payload)) as [-> Hl].
  unfold str_length. rewrite Hl, sha256_length. done.
Qed.

(** ** Putting again *)

Definition acceptable (input : PutArtifactInput) (access : ArtifactAccessContext) : Prop :=
  ArtifactAccessContextSchema access = true /\ ArtifactOwnershipSchema (pi_ownership input) = true /\
  requireMatchingOwnership access (pi_ownership input) = Ok tt /\
  validateIdempotencyKey (pi_idempotencyKey input) = Ok (pi_idempotencyKey input).

Lemma proper_id id m : proper id m -> ArtifactIdSchema id = true.
Proof.
  intros (Hs & Hid & _). unfold StoredMetadataSchema in Hs. rewrite !andb_true_iff in Hs.
  destruct Hs as (((((Hs & _) & _) & _) & _) & _). by rewrite Hid in Hs.
Qed.

Lemma get_by_key key id m s :
  consistent s -> dget key (s_idempotency s) = Some id -> dget id (s_records s) = Some m ->
  metadataRepository_getByIdempotencyKey key s = (Ok (Some m), s).
Proof.
  intros Hc Hk Hm. unfold metadataRepository_getByIdempotencyKey. st. rewrite Hk.
  destruct (con_record _ Hc _ _ Hm) as [Hs%proper_id _].
  apply prefixed_id_nonempty in Hs. cbn. destruct id; [done|]. by apply get_record.
Qed.

Lemma run_put_again input access id m s w :
  consistent s -> acceptable input access ->
  dget (pi_idempotencyKey input) (s_idempotency s) = Some id -> dget id (s_records s) = Some m ->
  allows op_create access (Some m) s w ->
  run (put options input access) s =
    (if decide (sha256_text (pi_payload input) = pr_sha256 (am_payload m)) then Ok m
     else Err (ArtifactStoreError artifact_idempotency_conflict
                 "Idempotency key is already associated with a different payload"), set_world w s).
Proof.
  intros Hc (Ha & Ho & Hm & Hk) Hkey Hrec Hw.
  unfold put, parse_access, parse_ownership, require. rewrite Ha, Ho, Hk. cbn [mbind res_bind].
  do 2 (rewrite run_now; cbv beta iota). rewrite Hm.
  do 2 (rewrite run_now; cbv beta iota). rewrite run_segment_bind, (get_by_key _ id m) by done.
  rewrite (run_allowed _ _ _ _ _ w) by done. rewrite run_bind.
  unfold requireIdempotentPayload, computeSha256. rewrite run_segment_bind.
  unfold require, lift. rewrite sha256_text_valid. cbn [mbind res_bind].
  case_decide as Hs.
  - rewrite bool_decide_false by congruence. cbn. unfold now, cloneMetadata, require.
    destruct (con_record _ Hc _ _ Hrec) as [(-> & _) _]. done.
  - by rewrite bool_decide_true by congruence.
Qed.

(** ** Putting *)

Lemma get_by_key_Ok key m (s s' : store) :
  metadataRepository_getByIdempotencyKey key s = (Ok (Some m), s') ->
  exists id, dget key (s_idempotency s) = Some id /\ dget id (s_records s) = Some m.
Proof.
  unfold metadataRepository_getByIdempotencyKey. st.
  destruct (dget key (s_idempotency s)) as [id|]; [|done]. destruct (truthy (Some id)) as [id'|] eqn:Ht; [|done].
  assert (id' = id) as -> by (destruct id; [done|by injection Ht]).
  intros Hget. exists id. split; [done|]. apply metadataRepository_get_Ok. by rewrite Hget.
Qed.

Lemma validateIdempotencyKey_Ok key key' : validateIdempotencyKey key = Ok key' -> key' = key.
Proof. unfold validateIdempotencyKey. case_match; [done|]. by intros [= <-]. Qed.

(** A put returns an artifact of the store, or adds one; when it throws the tables
    are as they were. *)
Lemma run_put_cases input access s :
  consistent s ->
  let '(r, s') := run (put options input access) s in
  match r with
  | Err _ => same_tables s s'
  | Ok m =>
      same_tables s s' /\ dget (am_artifactId m) (s_records s) = Some m /\
        dget (pi_idempotencyKey input) (s_idempotency s) = Some (am_artifactId m) \/
      proper (am_artifactId m) m /\ describes_input input m /\ added input m s s'
  end.
Proof.
  intros Hc. unfold put. rewrite run_now. destruct (parse_access access) as [parsed|]; [|done].
  rewrite run_now. destruct (parse_ownership _) as [owner|]; [|done].
  rewrite run_now. destruct (requireMatchingOwnership _ _); [|done].
  rewrite run_now. destruct (validateIdempotencyKey _) as [key|] eqn:Hkey; [|done].
  apply validateIdempotencyKey_Ok in Hkey as ->. rewrite run_segment_bind.
  set (key := pi_idempotencyKey input) in *.
  pose proof (getByIdempotencyKey_reads key s) as Hr.
  destruct (metadataRepository_getByIdempotencyKey key s) as [[[existing|]|e] s'] eqn:Hget;
    cbn in Hr; subst s'; [| |done]; rewrite run_bind.
  - destruct (get_by_key_Ok _ _ _ _ Hget) as (id & Hkey & Hid).
    pose proof (reads_run _ s (reads_authorized options op_create parsed (Some existing))) as Ht1.
    destruct (run _ s) as [[[]|e] s1]; [|done]. cbn in Ht1. rewrite run_bind.
    pose proof (reads_run _ s1 (reads_idempotent existing (pi_payload input))) as Ht2.
    destruct (run _ s1) as [[[]|e] s2]; cbn in Ht2; [|by eapply same_tables_trans].
    destruct (con_record _ Hc _ _ Hid) as [(Hs & Hi & _) _].
    unfold now, cloneMetadata, require. rewrite Hs. cbn. left. rewrite Hi.
    split; [by eapply same_tables_trans|done].
  - pose proof (reads_run _ s (reads_authorized options op_create parsed None)) as Ht1.
    destruct (run _ s) as [[[]|e] s1]; [|done]. cbn in Ht1. pose proof (run_create input s1) as Hcr.
    destruct (run _ s1) as [[m|e] s2]; [|by eapply same_tables_trans].
    right. destruct Hcr as (? & ? & Hadd). split_and!; try done.
    destruct Ht1 as (Ht1 & Ht2 & Ht3). unfold added in *. by rewrite <- Ht1, <- Ht2, <- Ht3.
Qed.

Lemma run_delete_cases id access s :
  consistent s ->
  let '(r, s') := run (delete_artifact options id access) s in
  match r with
  | Ok true => consistent s' /\ removed id s s' /\ is_Some (dget id (s_records s))
  | _ => same_tables s s'
  end.
Proof.
  intros Hc. unfold delete_artifact. rewrite run_now.
  destruct (parse_id id) as [i|] eqn:Hp; [|done]. apply parse_id_Ok in Hp as [-> _].
  rewrite run_segment_bind. pose proof (metadataRepository_get_reads id s) as Hr.
  destruct (metadataRepository_get id s) as [[[m|]|e] s'] eqn:Hget; cbn in Hr; subst s'; [|done|done].
  assert (Hm : dget id (s_records s) = Some m) by (apply metadataRepository_get_Ok; by rewrite Hget).
  rewrite run_bind. pose proof (reads_run _ s (reads_authorized options op_delete access (Some m))) as Ht1.
  destruct (run _ s) as [[[]|e] s1]; [|done]. cbn in Ht1.
  assert (Hc1 : consistent s1) by (by eapply same_tables_consistent).
  destruct (con_record _ Hc _ _ Hm) as [(_ & _ & Hk) _].
  rewrite run_segment_bind, payload_delete_eq, run_segment, record_delete_eq, Hk. cbn.
  replace (dget id (s_records s1)) with (Some m) by (by destruct Ht1 as (-> & _)). cbn.
  assert (Hs1 : s1 = set_world (s_world s1) s1) by (by destruct s1).
  pose proof (delete_consistent id s1 (s_world s1) Hc1) as Hc2.
  pose proof (delete_removed id s1 (s_world s1) Hc1) as Hrm. rewrite <- Hs1 in Hc2, Hrm.
  split; [exact Hc2|]. split; [|by eexists]. destruct Ht1 as (Ht1 & Ht2 & Ht3).
  unfold removed, payload_of in *. by rewrite <- Ht1, <- Ht2, <- Ht3.
Qed.

Lemma run_getPayload id reader m b s w :
  consistent s -> dget id (s_records s) = Some m -> payload_of s id = Some b ->
  allows op_read_payload reader (Some m) s w ->
  run (getPayload options id reader) s = (Ok (Some b), set_world w s).
Proof.
  intros Hc Hm Hb Hal. destruct (con_record _ Hc _ _ Hm) as [Hp _]. pose proof (proper_id _ _ Hp) as Hid.
  unfold getPayload, parse_id, require. rewrite Hid. cbn [mbind res_bind].
  rewrite run_now, run_segment_bind, (get_record _ m) by done.
  rewrite (run_allowed _ _ _ _ _ w) by done. rewrite run_segment_bind.
  unfold payloadStore_get, gets. destruct Hp as (_ & _ & Hkey). rewrite Hkey. cbn [s_payloads set_world].
  unfold payload_of in Hb. by rewrite Hb.
Qed.

(** The store stays consistent, and an operation that throws changes no table. *)
Lemma run_call_consistent o s :
  consistent s ->
  let '(r, s') := run (call options o) s in
  consistent s' /\ (is_ok r = false -> same_tables s s').
Proof.
  intros Hc.
  assert (Hread : forall A (m : op A), reads m -> let '(r, s') := run m s in
            consistent s' /\ (is_ok r = false -> same_tables s s')).
  { intros A m Hm. pose proof (reads_run m s Hm) as Ht. destruct (run m s) as [r s'].
    split; [by eapply same_tables_consistent|done]. }
  destruct o as [input access|id access|id access|access|id access]; cbn [call].
  - rewrite run_bind. pose proof (run_put_cases input access s Hc) as Hp.
    destruct (run (put _ _ _) s) as [[m|e] s']; cbn; (split; [|done]).
    + destruct Hp as [[Ht _]|(Hm & Hd & Ha)]; [by eapply same_tables_consistent|by eapply added_consistent].
    + by eapply same_tables_consistent.
  - apply Hread, reads_bind; [apply reads_getMetadata|done].
  - apply Hread, reads_bind; [apply reads_getPayload|done].
  - apply Hread, reads_bind; [apply reads_list|done].
  - rewrite run_bind. pose proof (run_delete_cases id access s Hc) as Hd.
    destruct (run (delete_artifact _ _ _) s) as [[[]|e] s']; cbn; (split; [|done]).
    + apply Hd.
    + by eapply same_tables_consistent.
    + by eapply same_tables_consistent.
Qed.

(** ** Putting a new artifact succeeds *)

(** The store can make the metadata of the artifact: its fields fit the schema,
    an id is available, and the clock tells a timestamp. *)
Record storable (input : PutArtifactInput) (s : store) : Prop := mkStorable {
  st_kind : pi_kind input ∈ StoredArtifactKindSchema;
  st_visibility : pi_visibility input ∈ StoredVisibilitySchema;
  st_contentType : str_between 1 255 (pi_contentType input) = true;
  st_size : Z.of_nat (length (pi_payload input)) <= MAX_SAFE_INTEGER;
  st_checksum : checksum_differs input (sha256_text (pi_payload input)) = false;
  st_id : exists id s1,
    chosen_id options input s = (Ok id, s1) /\ ArtifactIdSchema id = true;
  st_clock : forall s1 : store, exists t s2,
    call_option (so_now options) (Ok DEFAULT_TIMESTAMP) s1 = (Ok t, s2) /\ is_datetime t = true;
}.

Lemma storage_key_fits id : ArtifactIdSchema id = true -> str_between 1 1024 (storage_key id) = true.
Proof.
  intros (suffix & -> & Hs)%prefixed_id_iff. unfold ID_SUFFIX_PATTERN in Hs.
  destruct suffix as [|c s]; [done|]. apply andb_true_iff in Hs as [_ [_ Hl]%andb_true_iff].
  apply Nat.leb_le in Hl. unfold str_between, str_length, storage_key. rewrite !length_append.
  cbn [String.length]. apply andb_true_iff. rewrite !Z.leb_le. lia.
Qed.

Lemma metadata_of_ok input s :
  storable input s -> ArtifactOwnershipSchema (pi_ownership input) = true ->
  exists m s1, metadata_of options input (sha256_text (pi_payload input)) s = (Ok m, s1).
Proof.
  intros [] Ho. unfold metadata_of. st. destruct st_id0 as (id & s1 & -> & Hid).
  unfold parse_ownership, require. rewrite Ho. st. rewrite bool_decide_true by done.
  destruct (st_clock0 s1) as (t & s2 & -> & Ht). unfold cloneMetadata, require.
  assert (Hm : forall m, am_artifactId m = id -> am_kind m = pi_kind input ->
     am_ownership m = pi_ownership input -> am_visibility m = pi_visibility input ->
     am_payload m = mkPayloadReference "memory" (storage_key id) (pi_contentType input)
       (Z.of_nat (length (pi_payload input))) (sha256_text (pi_payload input)) ->
     am_createdAt m = t -> StoredMetadataSchema m = true).
  { intros m E1 E2 E3 E4 E5 E6. unfold StoredMetadataSchema, ArtifactPayloadReferenceSchema.
    rewrite E1, E2, E3, E4, E5, E6, Hid, Ho, Ht. cbn [pr_backend pr_storageKey pr_contentType pr_byteSize pr_sha256].
    rewrite storage_key_fits, st_contentType0, sha256_text_valid by done.
    rewrite !bool_decide_true by (done || set_solver). cbn [andb].
    apply Z.leb_le in st_size0. rewrite st_size0.
    by rewrite (proj2 (Z.leb_le 0 (Z.of_nat (length (pi_payload input))))) by lia. }
  rewrite Hm by done. eauto.
Qed.

Lemma run_put_new input access s w :
  consistent s -> acceptable input access -> dget (pi_idempotencyKey input) (s_idempotency s) = None ->
  allows op_create access None s w -> storable input (set_world w s) ->
  exists m s1, run (put options input access) s = (Ok m, s1) /\
    proper (am_artifactId m) m /\ describes_input input m /\ added input m s s1.
Proof.
  intros Hc (Ha & Ho & Hm & Hk) Hkey Hw Hst.
  unfold put, parse_access, parse_ownership, require. rewrite Ha, Ho, Hk. cbn [mbind res_bind].
  do 2 (rewrite run_now; cbv beta iota). rewrite Hm.
  do 2 (rewrite run_now; cbv beta iota). rewrite run_segment_bind.
  assert (metadataRepository_getByIdempotencyKey (pi_idempotencyKey input) s = (Ok None, s)) as ->.
  { unfold metadataRepository_getByIdempotencyKey. st. by rewrite Hkey. }
  rewrite (run_allowed _ _ _ _ _ w) by done. pose proof (run_create input (set_world w s)) as Hcr.
  destruct (metadata_of_ok _ _ Hst Ho) as (m & s1 & Hmd).
  destruct (metadata_of_shape input (set_world w s)) as [_ Hp]. rewrite Hmd in Hp.
  destruct (Hp m eq_refl) as [(Hs & _) _].
  destruct (run _ (set_world w s)) as [[m'|e] s2] eqn:Hrun; [by exists m', s2|]. exfalso.
  rewrite run_bind in Hrun. unfold buildMetadata in Hrun. rewrite run_bind in Hrun.
  unfold computeSha256 in Hrun. rewrite run_segment in Hrun. unfold require, lift in Hrun.
  rewrite sha256_text_valid in Hrun. cbn [mbind res_bind] in Hrun.
  rewrite (st_checksum _ _ Hst), run_segment, Hmd, run_segment_bind, payload_put_eq, run_segment_bind,
    record_put_eq in Hrun by done.
  unfold now, cloneMetadata, require in Hrun. rewrite Hs in Hrun. by cbn in Hrun.
Qed.
End Facts.
