(* ===== verification/ArtifactProps.v ===== *)
(** What the in-memory artifact store promises, and two interleavings it does not
    survive: puts under one key, and puts under one id chosen by the caller. *)
From S2P Require Import Prelude Js Zod Protocol WorkerEvents Json Async ArtifactStore ArtifactPool ArtifactFacts.
From stdpp Require Import gmap strings.
From Stdlib Require Import Ascii.
#[local] Open Scope Z_scope.

(** * A concrete host *)

(** A digest of the right size, and an authorizer that admits everything *)
Definition demo_digest (p : bytes) : bytes := take 32 (p ++ repeat Byte.x00 32).
Lemma demo_digest_length p : length (demo_digest p) = 32%nat.
Proof. unfold demo_digest. rewrite length_take, length_app, repeat_length. lia. Qed.
Definition demo_crypto : WebCrypto := {| sha256_length := demo_digest_length |}.

Definition demo_options : InMemoryArtifactStoreOptions unit :=
  mkStoreOptions (fun _ _ _ => mret true) None None.
Definition demo_ownership : ArtifactOwnership :=
  mkArtifactOwnership "usr_000001" "wrk_000001" "thr_000001" "run_000001".
Definition demo_access : ArtifactAccessContext :=
  mkAccess "usr_000001" "wrk_000001" (Some "thr_000001") (Some "run_000001").
Definition demo_put (artifactId : option string) (key : string) (payload : bytes) : PutArtifactInput :=
  mkPut artifactId key "command_log" demo_ownership "run" "text/plain" payload None None.

(** * Settled stores *)

Section Settled.
Context `{!JsRuntime} `{!WebCrypto} {W : Type} (options : InMemoryArtifactStoreOptions W).

Lemma settled_consistent (ops : list (async (InMemoryArtifactStore W) artifact_error store_outcome)) s g :
  pool_ok Inv rely idle (fun t _ _ => idle t) ops s g -> settled_all ops -> consistent s.
Proof.
  intros (HI & Hops & Hfresh) Hall.
  assert (Hidle : forall t, idle t g).
  { intros t. destruct (ops !! t) as [m|] eqn:Hm; [|by apply Hfresh, lookup_ge_None].
    destruct (Forall_lookup_1 _ _ _ _ Hall Hm) as [r ->]. exact (Hops _ _ Hm). }
  assert (Hnone : forall id, creating g !! id = None /\ deleting g !! id = None).
  { intros id. split; [destruct (creating g !! id) as [t|] eqn:Hd|destruct (deleting g !! id) as [t|] eqn:Hd];
      try done; by destruct (Hidle t id). }
  constructor.
  - apply HI.
  - intros id m Hm. destruct (inv_record _ _ HI _ _ Hm) as (Hp & _ & _ & [Hst|[_ Hd]]); [done|].
    destruct (Hnone id) as [_ Hn]. rewrite Hn in Hd. by destruct Hd.
  - intros k b Hk. destruct (inv_payload _ _ HI _ _ Hk) as (id & -> & [Hr|Hc]); [by exists id|].
    destruct (Hnone id) as [Hn _]. rewrite Hn in Hc. by destruct Hc.
  - apply HI.
Qed.

(** C9. When the store generates the ids, then however puts, reads, lists and
    deletes interleave, a record is always well formed, and its payload is the one
    its checksum and size describe, or is gone while some operation is still
    running.  Once all have settled every record has its payload, every payload
    and every idempotency key belongs to a record, and from there each further
    operation, with any id, keeps this and changes no table when it throws. *)
Theorem interleaved_store_consistent w ops s :
  so_createArtifactId options = None ->
  pool_steps (starts options) ([], new_store w) (ops, s) ->
  (forall id m, dget id (s_records s) = Some m ->
     proper id m /\
     (stored s m \/ payload_of s id = None /\ ~ settled_all ops)) /\
  (settled_all ops ->
     consistent s /\
     forall o, let '(r, s') := run (call options o) s in
       consistent s' /\ (is_ok r = false -> same_tables s s')).
Proof.
  intros Hgen Hst. destruct (reachable_ok options Hgen w ops s Hst) as [g Hok]. split.
  - intros id m Hm. pose proof Hok as (HI & _).
    destruct (inv_record _ _ HI _ _ Hm) as (Hp & _ & _ & Hs). split; [done|].
    destruct Hs as [Hs|[Hn _]]; [by left|right]. split; [done|]. intros Hall.
    destruct (con_record _ (settled_consistent _ _ _ Hok Hall) _ _ Hm) as [_ (b & Hb & _)].
    replace (am_artifactId m) with id in Hb by (symmetry; apply Hp). congruence.
  - intros Hall. pose proof (settled_consistent _ _ _ Hok Hall) as Hc. split; [done|].
    intros o. by apply run_call_consistent.
Qed.

(** A put under a new key, on an acceptable input the authorizer admits, stores
    the artifact and returns its metadata; then its payload reads back byte for
    byte, the same key returns the same metadata for a payload with the same
    hash and an idempotency conflict otherwise, storing nothing, and a delete
    removes its record, its payload and its keys, and nothing else. *)
Theorem artifact_lifecycle s input access w :
  consistent s -> acceptable input access ->
  dget (pi_idempotencyKey input) (s_idempotency s) = None ->
  allows options op_create access None s w -> storable options input (set_world w s) ->
  exists m s1, run (put options input access) s = (Ok m, s1) /\ consistent s1 /\ describes_input input m /\
    (forall reader w1, allows options op_read_payload reader (Some m) s1 w1 ->
       run (getPayload options (am_artifactId m) reader) s1 =
         (Ok (Some (pi_payload input)), set_world w1 s1)) /\
    (forall input' access' w1, acceptable input' access' ->
       pi_idempotencyKey input' = pi_idempotencyKey input ->
       allows options op_create access' (Some m) s1 w1 ->
       run (put options input' access') s1 =
         (if decide (sha256_text (pi_payload input') = sha256_text (pi_payload input)) then Ok m
          else Err (ArtifactStoreError artifact_idempotency_conflict
                      "Idempotency key is already associated with a different payload"),
          set_world w1 s1)) /\
    (forall deleter w1, allows options op_delete deleter (Some m) s1 w1 ->
       exists s2, run (delete_artifact options (am_artifactId m) deleter) s1 = (Ok true, s2) /\
         consistent s2 /\ removed (am_artifactId m) s1 s2).
Proof.
  intros Hc Ha Hk Hw Hst.
  destruct (run_put_new options _ _ _ _ Hc Ha Hk Hw Hst) as (m & s1 & Hrun & Hp & Hd & Hadd).
  assert (Hc1 : consistent s1) by (by eapply added_consistent).
  destruct Hadd as (Hr & Hi & Hq).
  assert (Hm : dget (am_artifactId m) (s_records s1) = Some m) by (by rewrite Hr, dget_dset_eq).
  assert (Hid : ArtifactIdSchema (am_artifactId m) = true) by (by eapply proper_id).
  exists m, s1. do 3 (split; [done|]). split_and!.
  - intros reader w1 Hal. apply (run_getPayload options _ reader m); [done|done| |done].
    unfold payload_of. by rewrite Hq, dget_dset_eq.
  - intros input' access' w1 Ha' Hkey Hal.
    assert (Hkey' : dget (pi_idempotencyKey input') (s_idempotency s1) = Some (am_artifactId m))
      by (by rewrite Hkey, Hi, dget_dset_eq).
    rewrite (run_put_again options input' access' _ m s1 w1 Hc1 Ha' Hkey' Hm Hal).
    by destruct Hd as (_ & _ & _ & _ & _ & <- & _).
  - intros deleter w1 Hal. eexists. split; [exact (run_delete options _ deleter m s1 w1 Hc1 Hm Hid Hal)|].
    split; [by apply delete_consistent|by apply delete_removed].
Qed.
End Settled.

(** * Witnesses *)

#[local] Existing Instance iso_runtime.
#[local] Existing Instance demo_crypto.

Notation play := (fun operations turns =>
  schedule turns (map (call demo_options) operations, new_store tt)).

Definition demo_bytes : bytes := TextEncoder_encode "log line".

(** A put and a delete of what it stores, with a list in between. *)
Definition demo_run := play
  [o_put (demo_put None "key-a" demo_bytes) demo_access; o_list demo_access;
   o_delete "art_memory_000001" demo_access; o_put (demo_put None "key-b" demo_bytes) demo_access]
  [0; 1; 0; 3; 0; 0; 1; 0; 3; 0; 1; 2; 3; 2; 1; 3; 2; 3; 3; 2; 1]%nat.

Lemma demo_run_steps :
  pool_steps (starts demo_options) ([], new_store tt) demo_run.
Proof.
  etransitivity; [|apply schedule_steps]. apply (calls_steps _ _ []).
  repeat constructor; eexists; (split; [|reflexivity]); done.
Qed.

Lemma interleaved_store_consistent_witness :
  settled_all demo_run.1 /\ consistent demo_run.2 /\
  dkeys (s_records demo_run.2) = ["art_memory_000002"].
Proof.
  assert (Hall : settled_all demo_run.1).
  { unfold settled_all. vm_compute. repeat constructor; eexists; reflexivity. }
  split; [exact Hall|]. split; [|vm_compute; reflexivity].
  pose proof demo_run_steps as Hst. rewrite (surjective_pairing demo_run) in Hst.
  exact (proj1 (proj2 (interleaved_store_consistent demo_options tt _ _ eq_refl Hst) Hall)).
Defined.

Lemma new_store_consistent : consistent (new_store tt).
Proof. constructor; try done. split_and!; constructor. Qed.

Lemma artifact_lifecycle_witness :
  exists m s1, run (put demo_options (demo_put None "key-a" demo_bytes) demo_access) (new_store tt) = (Ok m, s1) /\
    run (getPayload demo_options (am_artifactId m) demo_access) s1 = (Ok (Some demo_bytes), set_world tt s1).
Proof.
  destruct (artifact_lifecycle demo_options (new_store tt) (demo_put None "key-a" demo_bytes) demo_access tt)
    as (m & s1 & Hrun & _ & _ & Hread & _).
  - exact new_store_consistent.
  - repeat split.
  - reflexivity.
  - split; reflexivity.
  - constructor.
    + by vm_compute; right; right; left.
    + by vm_compute; right; left.
    + reflexivity.
    + by vm_compute.
    + reflexivity.
    + do 2 eexists. split; reflexivity.
    + intros s1. do 2 eexists. split; reflexivity.
  - exists m, s1. split; [exact Hrun|]. apply Hread.
    split; [reflexivity|]. cbn. by destruct (s_world s1).
Defined.

(** * Races *)

Definition other_bytes : bytes := TextEncoder_encode "other".

(** Two puts under one idempotency key, each looking the key up before the other
    has stored its artifact: both succeed, and two artifacts exist. *)
Lemma concurrent_retry_duplicates :
  let '(ops, s) := play [o_put (demo_put None "key" demo_bytes) demo_access;
                         o_put (demo_put None "key" demo_bytes) demo_access]
                        [0; 1; 0; 1; 0; 1; 0; 1; 0; 1; 0; 1]%nat in
  Forall (fun m => exists a, m = Settled (Ok (r_metadata a))) ops /\
  dkeys (s_records s) = ["art_memory_000001"; "art_memory_000002"] /\
  dkeys (s_idempotency s) = ["key"].
Proof. vm_compute. split; [|done]. repeat constructor; by eexists. Qed.

(** Two puts under one id chosen by the caller: both succeed, and the record that
    is left describes the payload of the other. *)
Lemma concurrent_ids_mismatch :
  let '(ops, s) := play [o_put (demo_put (Some "art_chosen1") "key-a" demo_bytes) demo_access;
                         o_put (demo_put (Some "art_chosen1") "key-b" other_bytes) demo_access]
                        [0; 1; 0; 1; 0; 1; 0; 1; 0; 1; 1; 0]%nat in
  Forall (fun m => exists a, m = Settled (Ok (r_metadata a))) ops /\
  payload_of s "art_chosen1" = Some other_bytes /\
  (am_payload <$> dget "art_chosen1" (s_records s)) =
    Some (mkPayloadReference "memory" "artifacts/art_chosen1" "text/plain" 8 (sha256_text demo_bytes)).
Proof. vm_compute. split; [|done]. repeat constructor; by eexists. Qed.

(** One after the other: the second put replaces the first artifact, whose key
    now answers with the second one's metadata. *)
Lemma chosen_id_replaces :
  let '(_, s) := run (put demo_options (demo_put (Some "art_chosen1") "key-a" demo_bytes) demo_access) (new_store tt) in
  let '(r, s) := run (put demo_options (demo_put (Some "art_chosen1") "key-b" other_bytes) demo_access) s in
  is_ok r = true /\
  (run (put demo_options (demo_put None "key-a" demo_bytes) demo_access) s).1 =
    Err (ArtifactStoreError artifact_idempotency_conflict
           "Idempotency key is already associated with a different payload").
Proof. vm_compute. done. Qed.
