(* ===== verification/TurnArtifacts.v ===== *)
(** The turn artifacts of [packages/artifact-store/src] (TurnArtifactStore.ts):
    snapshots and diffs of a turn, stored as JSON texts in any [ArtifactStore],
    with their schemas (artifacts.ts and task-workspaces.ts of
    [packages/platform-protocol/src]). *)
From S2P Require Import Prelude Js Zod Protocol LifecycleEvents WorkerEvents Async Json ArtifactStore ArtifactPool ArtifactFacts ArtifactProps.
From Stdlib Require Import Ascii.
#[local] Open Scope Z_scope.

(** * Schemas *)

Definition WorkspaceSnapshotIdSchema := createPrefixedIdSchema "wsnap".

(** [/^[a-f0-9]{40,64}$/] and [/^[A-Za-z0-9_-]{1,160}$/] *)
Definition GitObjectIdSchema (s : string) : bool := str_between 40 64 s && str_forall is_lower_hex s.
Definition snapshot_key (s : string) : bool := str_between 1 160 s && str_forall is_id_char s.

(** [z.literal(1)] and [z.number().int().nonnegative().max(max)] *)
Definition z_one : zod := z_test (fun j => match j with JNum (NInt z) => z =? 1 | _ => false end).
Definition z_int_max (max : Z) : zod := z_test (fun j =>
  match j with JNum (NInt z) => (0 <=? z) && (z <=? max) | _ => false end).
(** [z.string()] *)
Definition z_text : zod := z_test (fun j => match j with JStr _ => true | _ => false end).

Definition ResumeWorkspaceSnapshotRefSchema : zod := z_object
  [req "schemaVersion" z_one; req "artifactId" (z_regex ArtifactIdSchema);
   req "payloadObjectKey" (z_string 1 1024); req "userId" (z_regex UserIdSchema);
   req "workspaceId" (z_regex WorkspaceIdSchema); req "threadId" (z_regex ThreadIdSchema);
   req "sourceRunId" (z_regex RunIdSchema); req "sourceTurnId" (z_regex TurnIdSchema);
   req "sourceRunAttemptId" (z_regex RunAttemptIdSchema);
   req "baseSnapshotId" (z_regex WorkspaceSnapshotIdSchema);
   req "baseCommitSha" (z_regex GitObjectIdSchema); req "terminalTreeSha" (z_regex GitObjectIdSchema);
   req "patchSha256" (z_regex sha256_hex); req "byteLength" (z_int_max 5000000)].
Definition ResumeWorkspaceUnavailableReasonSchema : list string :=
  ["worker_not_quiescent"; "snapshot_unavailable"; "snapshot_too_large"].

Definition not_both_resumable (j : json) : bool :=
  match j with
  | JObj o => negb (is_some (dget "resumeSnapshotRef" o) && is_some (dget "resumeUnavailableReason" o))
  | _ => true
  end.

Definition text_of (key : string) (j : json) : option string :=
  match j with JObj o => get_str key o | _ => None end.
Definition field_of (key : string) (j : json) : json :=
  match j with JObj o => default JNull (dget key o) | _ => JNull end.

Definition snapshots_of_turn (j : json) : bool :=
  bool_decide (text_of "turnId" (field_of "startSnapshot" j) = text_of "turnId" j) &&
  bool_decide (text_of "turnId" (field_of "terminalSnapshot" j) = text_of "turnId" j).

(** * The interface of an artifact store *)

Class ArtifactStore (S : Type) : Type := {
  artifacts_put : PutArtifactInput -> ArtifactAccessContext -> async S artifact_error ArtifactMetadata;
  artifacts_getMetadata :
    string -> ArtifactAccessContext -> async S artifact_error (option ArtifactMetadata);
  artifacts_getPayload : string -> ArtifactAccessContext -> async S artifact_error (option bytes);
  artifacts_list : ArtifactAccessContext -> async S artifact_error (list ArtifactMetadata);
  artifacts_delete : string -> ArtifactAccessContext -> async S artifact_error bool;
}.

Section TurnArtifacts.
Context `{!JsRuntime} `{!JsonNumbers} {S : Type} `{!ArtifactStore S}.
Notation op A := (async S artifact_error A).

Definition TurnWorkspaceSnapshotSchema : zod := z_refine (z_object
  [req "turnId" (z_regex TurnIdSchema); req "snapshotKey" (z_regex snapshot_key);
   req "treeId" (z_regex GitObjectIdSchema); req "headSha" (z_regex GitObjectIdSchema);
   req "phase" (z_enum ["start"; "terminal"]); req "capturedAt" (z_regex is_datetime);
   opt "resumeSnapshotRef" ResumeWorkspaceSnapshotRefSchema;
   opt "resumeUnavailableReason" (z_enum ResumeWorkspaceUnavailableReasonSchema)]) not_both_resumable.

Definition TurnDiffPayloadSchema : zod := z_refine (z_object
  [req "turnId" (z_regex TurnIdSchema); req "startSnapshot" TurnWorkspaceSnapshotSchema;
   req "terminalSnapshot" TurnWorkspaceSnapshotSchema;
   req "files" (z_list ArtifactChangedFileSchema 2000); req "patch" z_text]) snapshots_of_turn.

(** * DefaultTurnArtifactStore *)

Record StoredTurnDiff : Type := mkStoredDiff { sd_metadata : ArtifactMetadata; sd_payload : json }.

Definition parse_with (schema : zod) (j : json) : res artifact_error json :=
  match schema j with Some j' => Ok j' | None => Err ZodError end.

Definition properties (role turnId : string) (values : JsonRecord) : JsonRecord :=
  [("role", JStr role); ("turnId", JStr turnId)] ++ values.

Definition isTurnDiff (metadata : ArtifactMetadata) (turnId : option string) : bool :=
  bool_decide (get_str "role" (am_properties metadata) = Some "turn_diff") &&
  match turnId with
  | Some id => bool_decide (get_str "turnId" (am_properties metadata) = Some id)
  | None => true
  end.

(** [encoder.encode(JSON.stringify(value))] and
    [TurnDiffPayloadSchema.parse(JSON.parse(decoder.decode(value)))] *)
Definition encode (value : json) : bytes := TextEncoder_encode (JSON_stringify value).
Definition json_result {A} (r : res json_error A) : res artifact_error A :=
  match r with Ok a => Ok a | Err e => Err (JsonError e) end.
Definition decode (value : bytes) : res artifact_error json :=
  text ← json_result (TextDecoder_decode value);
  j ← json_result (JSON_parse text);
  parse_with TurnDiffPayloadSchema j.

Definition string_field (key : string) (j : json) : string := default "" (text_of key j).

Definition snapshot_input (snapshot : json) (ownership : ArtifactOwnership) : PutArtifactInput :=
  let turnId := string_field "turnId" snapshot in
  let phase := string_field "phase" snapshot in
  mkPut None ("turn:" +:+ turnId +:+ ":snapshot:" +:+ phase) "workspace_snapshot" ownership "run"
    "application/json" (encode snapshot) None
    (Some (properties "turn_snapshot" turnId
       [("phase", JStr phase); ("treeId", JStr (string_field "treeId" snapshot))])).

Definition putSnapshot (snapshot : json) (ownership : ArtifactOwnership) (access : ArtifactAccessContext)
    : op ArtifactMetadata :=
  snapshot ← now (parse_with TurnWorkspaceSnapshotSchema snapshot);
  artifacts_put (snapshot_input snapshot ownership) access.

Definition files_of (diff : json) : list json :=
  match field_of "files" diff with JArr l => l | _ => [] end.

Definition diff_input (diff : json) (ownership : ArtifactOwnership) : PutArtifactInput :=
  let turnId := string_field "turnId" diff in
  mkPut None ("turn:" +:+ turnId +:+ ":diff") "diff" ownership "run" "application/json" (encode diff) None
    (Some (properties "turn_diff" turnId
       [("changedFileCount", JNum (NInt (Z.of_nat (length (files_of diff)))))])).

Definition putTurnDiff (diff : json) (ownership : ArtifactOwnership) (access : ArtifactAccessContext)
    : op ArtifactMetadata :=
  diff ← now (parse_with TurnDiffPayloadSchema diff);
  artifacts_put (diff_input diff ownership) access.

Definition readDiff (metadata : ArtifactMetadata) (access : ArtifactAccessContext) : op StoredTurnDiff :=
  payload ← artifacts_getPayload (am_artifactId metadata) access;
  match payload with
  | None => now (Err (ArtifactStoreError artifact_payload_not_found
                        ("Turn diff payload is missing: " +:+ am_artifactId metadata)))
  | Some payload => now (value ← decode payload; Ok (mkStoredDiff metadata value))
  end.

Definition getTurnDiff (turnId : string) (access : ArtifactAccessContext) : op (option StoredTurnDiff) :=
  parsedTurnId ← now (_ ← require (TurnIdSchema turnId); Ok turnId);
  artifacts ← artifacts_list access;
  match List.find (fun artifact => isTurnDiff artifact (Some parsedTurnId)) artifacts with
  | Some metadata => diff ← readDiff metadata access; mret (Some diff)
  | None => mret None
  end.

Definition listWorkspaceDiffs (access : ArtifactAccessContext) : op (list StoredTurnDiff) :=
  artifacts ← artifacts_list access;
  promise_all (map (fun artifact => readDiff artifact access)
                   (List.filter (fun artifact => isTurnDiff artifact None) artifacts)).
End TurnArtifacts.

(** The in-memory store is one. *)
#[export] Instance in_memory_store `{!JsRuntime} `{!WebCrypto} {W} (options : InMemoryArtifactStoreOptions W)
  : ArtifactStore (InMemoryArtifactStore W) := {|
  artifacts_put := put options;
  artifacts_getMetadata := getMetadata options;
  artifacts_getPayload := getPayload options;
  artifacts_list := list_artifacts options;
  artifacts_delete := delete_artifact options;
|}.

(** A stored turn diff reads back as it was put: through the schema, JSON, UTF-8
    and the store, for every store with the laws [ArtifactStoreLaws], which the
    in-memory store has. *)

(** * What the schemas accept, JSON carries exactly *)

Definition exact (z : zod) : Prop := forall j j', z j = Some j' -> exact_json j' = true.

Lemma exact_test p : (forall j, p j = true -> exact_json j = true) -> exact (z_test p).
Proof. intros Hp j j' [-> Hj]%z_test_Some. by apply Hp. Qed.

Lemma exact_strings p :
  (forall j, p j = true -> exists s, j = JStr s) -> exact (z_test p).
Proof. intros Hp. apply exact_test. intros j Hj. by destruct (Hp j Hj) as [s ->]. Qed.

Lemma exact_string lo hi : exact (z_string lo hi).
Proof. apply exact_strings. intros []; try done. by eexists. Qed.
Lemma exact_regex p : exact (z_regex p).
Proof. apply exact_strings. intros []; try done. by eexists. Qed.
Lemma exact_enum values : exact (z_enum values).
Proof. apply exact_strings. intros []; try done. by eexists. Qed.
Lemma exact_text : exact z_text.
Proof. apply exact_strings. intros []; try done. by eexists. Qed.

Lemma exact_token : exact z_token.
Proof.
  apply exact_test. intros [| |[z|q]| | |]; try done. cbn. unfold is_safe_integer, MAX_SAFE_INTEGER. lia.
Qed.
Lemma exact_int_max max : max <= MAX_SAFE_INTEGER -> exact (z_int_max max).
Proof.
  intros Hm. apply exact_test. intros [| |[z|q]| | |]; try done. cbn.
  unfold is_safe_integer, MAX_SAFE_INTEGER in *. lia.
Qed.
Lemma exact_one : exact z_one.
Proof. apply exact_test. intros [| |[z|q]| | |]; try done. cbn. unfold is_safe_integer, MAX_SAFE_INTEGER. lia. Qed.

Lemma exact_nullable z : exact z -> exact (z_nullable z).
Proof. intros Hz [] j' Hj; try by apply Hz in Hj. by injection Hj as <-. Qed.

Lemma exact_list z max : exact z -> exact (z_list z max).
Proof.
  intros Hz [] j'; try done. unfold z_list. destruct (_ <=? _); [|done].
  destruct (mapM z l) as [l'|] eqn:Hl; [|done]. intros [= <-]. cbn. apply mapM_Some_1 in Hl.
  induction Hl as [|x y l l' Hxy _ IH]; [done|]. cbn. rewrite (Hz _ _ Hxy). exact IH.
Qed.

Lemma exact_refine z ok : exact z -> exact (z_refine z ok).
Proof. intros Hz j j'. unfold z_refine. destruct (z j) as [x|] eqn:Hj; [|done]. case_match; [|done]. intros [= <-]. by eapply Hz. Qed.

Lemma parse_fields_exact o shape o' :
  NoDup (map f_key shape) -> Forall (fun f => exact (f_schema f)) shape ->
  parse_fields o shape = Some o' ->
  NoDup (map fst o') /\ forallb (fun '(_, v) => exact_json v) o' = true.
Proof.
  revert o'. induction shape as [|f shape IH]; intros o' Hnd Hf Hp; cbn in Hp.
  - injection Hp as <-. split; [constructor|done].
  - apply NoDup_cons in Hnd as [Hk Hnd]. apply Forall_cons in Hf as [Hf Hfs]. unfold parse_field in Hp.
    destruct (parse_fields o shape) as [r|] eqn:Hr; [|by repeat case_match].
    destruct (IH r Hnd Hfs eq_refl) as [Hn He]. destruct (dget (f_key f) o) as [v|].
    + destruct (f_schema f v) as [v'|] eqn:Hv; [|done]. injection Hp as <-. cbn.
      rewrite (Hf _ _ Hv). split; [|exact He]. apply NoDup_cons. split; [|done].
      intros Hin. by apply Hk, (parse_fields_keys _ _ _ Hr).
    + destruct (f_optional f); [|done]. injection Hp as <-. done.
Qed.

Lemma exact_object shape :
  NoDup (map f_key shape) -> Forall (fun f => exact (f_schema f)) shape -> exact (z_object shape).
Proof.
  intros Hnd Hf [] j'; try done. unfold z_object. case_match; [|done].
  destruct (parse_fields o shape) as [o'|] eqn:Hp; [|done]. intros [= <-]. cbn.
  destruct (parse_fields_exact _ _ _ Hnd Hf Hp) as [Hn He]. by rewrite bool_decide_true.
Qed.

#[export] Hint Resolve exact_string exact_regex exact_enum exact_text exact_token exact_one exact_nullable
  exact_list exact_refine : legion.

Ltac solve_exact :=
  repeat first
    [ apply exact_refine
    | apply exact_object; [by apply (bool_decide_unpack _)|]
    | apply exact_nullable
    | apply exact_list
    | by apply exact_int_max
    | solve [auto with legion]
    | repeat (constructor; simpl) ].

Lemma ResumeWorkspaceSnapshotRefSchema_exact : exact ResumeWorkspaceSnapshotRefSchema.
Proof. unfold ResumeWorkspaceSnapshotRefSchema. solve_exact. Qed.
#[export] Hint Resolve ResumeWorkspaceSnapshotRefSchema_exact : legion.

Lemma ResumeWorkspaceSnapshotRefSchema_idempotent : idempotent ResumeWorkspaceSnapshotRefSchema.
Proof. unfold ResumeWorkspaceSnapshotRefSchema. solve_idempotent. Qed.

Section RoundTrip.
Context `{!JsRuntime} `{!JsonNumbers}.

Lemma TurnWorkspaceSnapshotSchema_exact : exact TurnWorkspaceSnapshotSchema.
Proof. unfold TurnWorkspaceSnapshotSchema. solve_exact. Qed.
#[local] Hint Resolve TurnWorkspaceSnapshotSchema_exact : legion.

Lemma TurnDiffPayloadSchema_exact : exact TurnDiffPayloadSchema.
Proof. unfold TurnDiffPayloadSchema, ArtifactChangedFileSchema. solve_exact. Qed.

Lemma TurnWorkspaceSnapshotSchema_idempotent : idempotent TurnWorkspaceSnapshotSchema.
Proof. unfold TurnWorkspaceSnapshotSchema. solve_idempotent. Qed.

Lemma TurnDiffPayloadSchema_idempotent : idempotent TurnDiffPayloadSchema.
Proof. unfold TurnDiffPayloadSchema, ArtifactChangedFileSchema. solve_idempotent. Qed.

(** What [encode] writes, [decode] reads. *)
Lemma decode_encode_diff diff diff' :
  TurnDiffPayloadSchema diff = Some diff' -> decode (encode diff') = Ok diff'.
Proof.
  intros Hd. unfold decode, encode. rewrite decode_encode. cbn [json_result mbind res_bind].
  rewrite JSON_parse_stringify by (by eapply TurnDiffPayloadSchema_exact). cbn [json_result mbind res_bind].
  unfold parse_with. by rewrite (TurnDiffPayloadSchema_idempotent _ _ Hd).
Qed.
End RoundTrip.

(** * The laws of an artifact store *)

(** What the turn artifacts need of a store: the artifacts it holds with their
    payloads and the keys it has seen, for an access context that is admitted
    everywhere. *)
Class ArtifactStoreLaws (S : Type) `{!ArtifactStore S} `{!WebCrypto} : Type := {
  as_ok : S -> Prop;
  as_open : S -> ArtifactAccessContext -> Prop;
  as_holds : S -> list (ArtifactMetadata * bytes);
  as_keys : S -> list string;
  as_list_law s a : as_ok s -> as_open s a -> exists s',
    run (artifacts_list a) s =
      (Ok (filter (fun m => ao_workspaceId (am_ownership m) = acc_workspaceId a) (map fst (as_holds s))), s') /\
    as_ok s' /\ as_open s' a /\ as_holds s' = as_holds s;
  as_payload_law s a m b : as_ok s -> as_open s a -> (m, b) ∈ as_holds s -> exists s',
    run (artifacts_getPayload (am_artifactId m) a) s = (Ok (Some b), s') /\
    as_ok s' /\ as_open s' a /\ as_holds s' = as_holds s;
  as_put_law s a input m s' : as_ok s -> as_open s a -> pi_idempotencyKey input ∉ as_keys s ->
    run (artifacts_put input a) s = (Ok m, s') ->
    as_ok s' /\ as_open s' a /\ describes_input input m /\ (m, pi_payload input) ∈ as_holds s' /\
    forall x, x ∈ as_holds s' -> x = (m, pi_payload input) \/ x ∈ as_holds s;
}.

Section Client.
Context `{!JsRuntime} `{!JsonNumbers} `{!WebCrypto} {S : Type} `{!ArtifactStore S} `{!ArtifactStoreLaws S}.

Lemma find_only {A} (p : A -> bool) l x :
  x ∈ l -> p x = true -> (forall y, y ∈ l -> p y = true -> y = x) -> List.find p l = Some x.
Proof.
  intros Hx Hp Hu. destruct (List.find p l) as [y|] eqn:Hf.
  - apply find_some in Hf as [Hin Hy]. f_equal. apply Hu; [by apply list_elem_of_In|done].
  - apply list_elem_of_In in Hx. by rewrite (find_none _ _ Hf x Hx) in Hp.
Qed.

(** A diff put for a turn that has none yet is the one that is read back. *)
Lemma stored_diff_reads_back s access diff diff' ownership turnId m s1 :
  as_ok s -> as_open s access -> TurnDiffPayloadSchema diff = Some diff' ->
  text_of "turnId" diff' = Some turnId -> TurnIdSchema turnId = true ->
  ao_workspaceId ownership = acc_workspaceId access ->
  ("turn:" +:+ turnId +:+ ":diff") ∉ as_keys s ->
  (forall m b, (m, b) ∈ as_holds s -> isTurnDiff m (Some turnId) = false) ->
  run (putTurnDiff diff ownership access) s = (Ok m, s1) ->
  exists s2, run (getTurnDiff turnId access) s1 = (Ok (Some (mkStoredDiff m diff')), s2).
Proof.
  intros Hok Hopen Hd Hturn Hid Hws Hkey Hnone. unfold putTurnDiff. rewrite run_now.
  unfold parse_with. rewrite Hd. set (input := diff_input diff' ownership). intros Hput.
  assert (Hk : pi_idempotencyKey input = "turn:" +:+ turnId +:+ ":diff").
  { unfold input, diff_input, string_field. by rewrite Hturn. }
  destruct (as_put_law s access input m s1 Hok Hopen ltac:(by rewrite Hk) Hput)
    as (Hok1 & Hopen1 & (_ & Hown & _ & Hprops & _) & Hin & Honly).
  destruct (as_list_law s1 access Hok1 Hopen1) as (s2 & Hl & Hok2 & Hopen2 & Hh2).
  destruct (as_payload_law s2 access m (pi_payload input) Hok2 Hopen2) as (s3 & Hp & _);
    [by rewrite Hh2|].
  assert (Hm : isTurnDiff m (Some turnId) = true).
  { unfold isTurnDiff. rewrite Hprops. unfold input, diff_input, string_field. rewrite Hturn.
    apply andb_true_iff. by split; apply bool_decide_eq_true. }
  exists s3. unfold getTurnDiff. rewrite run_now. unfold require. rewrite Hid. cbn [mbind res_bind].
  rewrite run_bind, Hl. rewrite (find_only _ _ m); [| |exact Hm|].
  - rewrite run_bind. unfold readDiff. rewrite run_bind, Hp. cbn [pi_payload input diff_input].
    by rewrite (decode_encode_diff _ _ Hd).
  - apply list_elem_of_filter. split; [by rewrite Hown|]. by apply (list_elem_of_fmap_2 fst) in Hin.
  - intros m' [_ Hin']%list_elem_of_filter Hm'. apply list_elem_of_fmap in Hin' as ([m2 b] & -> & Hin').
    destruct (Honly _ Hin') as [[= -> _]|Hold]; [done|]. cbn in Hm'. by rewrite (Hnone _ _ Hold) in Hm'.
Qed.
End Client.

(** * The in-memory store has the laws *)

Section InMemory.
Context `{!JsRuntime} `{!WebCrypto} {W : Type} (options : InMemoryArtifactStoreOptions W).
Notation store := (InMemoryArtifactStore W).

Definition memory_open (s : store) (access : ArtifactAccessContext) : Prop :=
  ArtifactAccessContextSchema access = true /\
  forall o m w, exists w', so_authorize options o access m w = (Ok true, w').

Definition with_payload (s : store) (im : string * ArtifactMetadata) : option (ArtifactMetadata * bytes) :=
  b ← payload_of s im.1; Some (im.2, b).
Definition memory_holds (s : store) : list (ArtifactMetadata * bytes) :=
  omap (with_payload s) (s_records s : list (string * ArtifactMetadata)).

Lemma memory_open_allows s access o m : memory_open s access -> exists w, allows options o access m s w.
Proof. intros [Ha Ho]. destruct (Ho o m (s_world s)) as [w Hw]. by exists w. Qed.

Lemma elem_memory_holds s m b :
  consistent s -> (m, b) ∈ memory_holds s <-> dget (am_artifactId m) (s_records s) = Some m /\
                                              payload_of s (am_artifactId m) = Some b.
Proof.
  intros Hc. pose proof (con_nodup _ Hc) as (Hn & _ & _). unfold memory_holds.
  rewrite list_elem_of_omap. split.
  - intros ([id m'] & Hin & Hw). unfold with_payload in Hw. cbn in Hw.
    destruct (payload_of s id) as [b'|] eqn:Hp; [|done]. injection Hw as -> ->.
    apply elem_dget in Hin; [|done]. destruct (con_record _ Hc _ _ Hin) as [(_ & -> & _) _]. done.
  - intros [Hm Hp]. exists (am_artifactId m, m). split; [by apply dget_elem|].
    unfold with_payload. cbn. by rewrite Hp.
Qed.

Lemma memory_holds_records s : consistent s -> map fst (memory_holds s) = dvals (s_records s).
Proof.
  intros Hc. pose proof (con_nodup _ Hc) as (Hn & _ & _).
  assert (Hr : forall id m, (id, m) ∈ (s_records s : list (string * ArtifactMetadata)) ->
            exists b, payload_of s id = Some b).
  { intros id m Hin. apply elem_dget in Hin; [|done].
    destruct (con_record _ Hc _ _ Hin) as [(_ & <- & _) (b & Hb & _)]. by exists b. }
  unfold memory_holds, dvals. clear Hn Hc. induction (s_records s) as [|[id m] d IH]; [done|].
  cbn [omap list_omap]. unfold with_payload at 1. cbn.
  destruct (Hr id m ltac:(set_solver)) as [b ->]. cbn. f_equal. apply IH. intros. by eapply Hr, list_elem_of_further.
Qed.

Lemma clone_all l :
  Forall (fun m => StoredMetadataSchema m = true) l -> res_map cloneMetadata l = Ok l.
Proof.
  induction 1 as [|m l Hm _ IH]; [done|]. cbn. unfold cloneMetadata at 1, require. rewrite Hm.
  cbn. by rewrite IH.
Qed.

Lemma run_each_authorized access l s :
  memory_open s access -> Forall (fun m => StoredMetadataSchema m = true) l ->
  exists w, run (async_each (fun artifact =>
      allowed ← authorize options op_read_metadata access (Some artifact);
      if (allowed : bool) then now (x ← cloneMetadata artifact; Ok [x]) else mret []) l) s =
    (Ok (map (fun m => [m]) l), set_world w s).
Proof.
  intros [Ha Ho] Hl. revert s. induction Hl as [|m l Hm _ IH]; intros s.
  - exists (s_world s). by destruct s.
  - destruct (Ho op_read_metadata (Some m) (s_world s)) as [w Hw].
    destruct (IH (set_world w s)) as [w' Hw']. exists w'. cbn [async_each].
    rewrite run_bind. unfold authorize. rewrite run_segment_bind. unfold with_world. rewrite Hw.
    unfold cloneMetadata at 1, require. rewrite Hm. cbn [mbind res_bind].
    change (mkStore _ _ _ _ w) with (set_world w s). cbn [run now].
    rewrite run_bind. unfold authorize, with_world in Hw'. by rewrite Hw'.
Qed.

Lemma concat_singletons {A} (l : list A) : concat (map (fun x => [x]) l) = l.
Proof. induction l as [|x l IH]; [done|]. cbn. by rewrite IH. Qed.

Lemma run_list access s :
  consistent s -> memory_open s access ->
  exists w, run (list_artifacts options access) s =
    (Ok (filter (fun m => ao_workspaceId (am_ownership m) = acc_workspaceId access) (dvals (s_records s))),
     set_world w s).
Proof.
  intros Hc Hopen. pose proof Hopen as [Ha _]. pose proof (con_nodup _ Hc) as (Hn & _ & _).
  unfold list_artifacts, parse_access, require. rewrite Ha. cbn [mbind res_bind]. rewrite run_now.
  destruct (memory_open_allows s access op_list None Hopen) as [w Hw].
  rewrite (run_allowed options _ _ _ _ _ w Hw), run_segment_bind.
  set (l := filter _ _). assert (Hl : Forall (fun m => StoredMetadataSchema m = true) l).
  { apply Forall_forall. intros m [_ Hin]%list_elem_of_filter.
    apply list_elem_of_fmap in Hin as ([id m'] & -> & Hin). apply elem_dget in Hin; [|done].
    by destruct (con_record _ Hc _ _ Hin) as [(Hs & _) _]. }
  unfold metadataRepository_list, gets, lift. cbn [mbind ST_bind s_records set_world].
  assert (Hg : forall (f : store -> list ArtifactMetadata) (k : list ArtifactMetadata -> ST store artifact_error (list ArtifactMetadata)) s,
    ((fun s => (Ok (f s), s)) ≫= k) s = k (f s) s) by done.
  rewrite Hg. cbn [s_records set_world]. fold l. rewrite (clone_all l Hl).
  destruct (run_each_authorized access l (set_world w s) Hopen Hl) as [w' Hw'].
  exists w'. rewrite run_bind, Hw'. cbn [run mret async_ret]. by rewrite concat_singletons.
Qed.

Lemma world_consistent w (s : store) : consistent s -> consistent (set_world w s).
Proof. apply same_tables_consistent. done. Qed.

Lemma memory_list_law s a :
  consistent s -> memory_open s a -> exists s',
    run (list_artifacts options a) s =
      (Ok (filter (fun m => ao_workspaceId (am_ownership m) = acc_workspaceId a) (map fst (memory_holds s))), s') /\
    consistent s' /\ memory_open s' a /\ memory_holds s' = memory_holds s.
Proof.
  intros Hc Ho. destruct (run_list a s Hc Ho) as [w Hw]. exists (set_world w s).
  rewrite memory_holds_records by done. split; [done|]. split; [by apply world_consistent|]. by split.
Qed.

Lemma memory_payload_law s a m b :
  consistent s -> memory_open s a -> (m, b) ∈ memory_holds s -> exists s',
    run (getPayload options (am_artifactId m) a) s = (Ok (Some b), s') /\
    consistent s' /\ memory_open s' a /\ memory_holds s' = memory_holds s.
Proof.
  intros Hc Ho [Hm Hb]%elem_memory_holds; [|done].
  destruct (memory_open_allows s a op_read_payload (Some m) Ho) as [w Hw].
  exists (set_world w s). split; [by eapply run_getPayload|].
  split; [by apply world_consistent|]. by split.
Qed.

Lemma memory_put_law s a input m s' :
  consistent s -> memory_open s a -> pi_idempotencyKey input ∉ dkeys (s_idempotency s) ->
  run (put options input a) s = (Ok m, s') ->
  consistent s' /\ memory_open s' a /\ describes_input input m /\
  (m, pi_payload input) ∈ memory_holds s' /\
  forall x, x ∈ memory_holds s' -> x = (m, pi_payload input) \/ x ∈ memory_holds s.
Proof.
  intros Hc Ho Hk Hrun. pose proof (run_put_cases options input a s Hc) as Hcases. rewrite Hrun in Hcases.
  destruct Hcases as [(_ & _ & Hk')|(Hp & Hd & Hadd)]; [by apply dget_None in Hk; rewrite Hk in Hk'|].
  assert (Hc' : consistent s') by (by eapply added_consistent). destruct Hadd as (Hr & _ & Hq).
  assert (Hpay : forall id, payload_of s' id =
            if decide (id = am_artifactId m) then Some (pi_payload input) else payload_of s id).
  { intros id. unfold payload_of. rewrite Hq, dget_dset. destruct (decide (id = _)) as [->|Hne];
      [by rewrite decide_True|]. rewrite decide_False; [done|]. intros Heq. by apply Hne, storage_key_inj. }
  split; [done|]. split; [done|]. split; [done|]. split.
  - apply elem_memory_holds; [done|]. by rewrite Hr, dget_dset_eq, Hpay, decide_True.
  - intros [m' b'] [Hm' Hb']%elem_memory_holds; [|done]. rewrite Hr, dget_dset in Hm'. rewrite Hpay in Hb'.
    case_decide; [left; congruence|right]. by apply elem_memory_holds.
Qed.

#[export] Instance in_memory_laws : @ArtifactStoreLaws store (in_memory_store options) _.
Proof.
  refine {| as_ok := consistent; as_open := memory_open; as_holds := memory_holds;
            as_keys s := dkeys (s_idempotency s) |}.
  - intros s a Hc Ho. exact (memory_list_law s a Hc Ho).
  - intros s a m b Hc Ho Hin. exact (memory_payload_law s a m b Hc Ho Hin).
  - intros s a input m s' Hc Ho Hk Hr. exact (memory_put_law s a input m s' Hc Ho Hk Hr).
Defined.

Context `{!JsonNumbers}.

Lemma matching_workspace access ownership :
  requireMatchingOwnership access ownership = Ok tt -> ao_workspaceId ownership = acc_workspaceId access.
Proof.
  unfold requireMatchingOwnership. case_match eqn:Hm; [|done]. rewrite !andb_true_iff in Hm.
  destruct Hm as (((_ & Hw) & _) & _). by apply bool_decide_eq_true in Hw.
Qed.

Lemma diff_turn_id diff diff' turnId :
  TurnDiffPayloadSchema diff = Some diff' -> text_of "turnId" diff' = Some turnId ->
  TurnIdSchema turnId = true.
Proof.
  intros Hd%TurnDiffPayloadSchema_idempotent Ht. destruct diff' as [| | | | |o]; try done.
  unfold TurnDiffPayloadSchema, z_refine in Hd. destruct (z_object _ _) as [j|] eqn:Hz; [|done].
  destruct (snapshots_of_turn j); [|done]. injection Hd as ->.
  assert (Hf : dget "turnId" o = Some (JStr turnId)).
  { cbn in Ht. unfold get_str in Ht. destruct (dget "turnId" o) as [[]|]; try done. by injection Ht as ->. }
  apply (z_object_get _ _ _ (req "turnId" (z_regex TurnIdSchema)) (JStr turnId)) in Hz as (v & Hv & _);
    [|by apply (bool_decide_unpack _)|set_solver|done].
  unfold req, z_regex in Hv. cbn in Hv. by apply z_test_Some in Hv as [_ Hv].
Qed.

(** C34. A turn diff that fits its schema, put in a consistent in-memory store that
    admits the caller and has no diff of that turn, is stored, and [getTurnDiff]
    then returns exactly the parsed diff with the metadata [putTurnDiff] returned:
    nothing is lost or altered on the way through JSON, UTF-8 and the store. *)
Theorem turn_diff_roundtrip s access diff diff' ownership turnId :
  consistent s -> memory_open s access ->
  TurnDiffPayloadSchema diff = Some diff' -> text_of "turnId" diff' = Some turnId ->
  acceptable (diff_input diff' ownership) access -> (forall w, storable options (diff_input diff' ownership) (set_world w s)) ->
  ("turn:" +:+ turnId +:+ ":diff") ∉ dkeys (s_idempotency s) ->
  (forall id m, dget id (s_records s) = Some m -> isTurnDiff m (Some turnId) = false) ->
  exists m s1 s2,
    run (putTurnDiff (ArtifactStore0 := in_memory_store options) diff ownership access) s = (Ok m, s1) /\
    run (getTurnDiff (ArtifactStore0 := in_memory_store options) turnId access) s1 =
      (Ok (Some (mkStoredDiff m diff')), s2).
Proof.
  intros Hc Ho Hd Ht Hacc Hst Hkey Hnone.
  destruct (memory_open_allows s access op_create None Ho) as [w Hw].
  assert (Hk : pi_idempotencyKey (diff_input diff' ownership) = "turn:" +:+ turnId +:+ ":diff").
  { unfold diff_input, string_field. by rewrite Ht. }
  destruct (run_put_new options _ access s w Hc Hacc) as (m & s1 & Hrun & _); [|done|by apply Hst|].
  { rewrite Hk. by apply dget_None. }
  assert (Hput : run (putTurnDiff (ArtifactStore0 := in_memory_store options) diff ownership access) s = (Ok m, s1)).
  { unfold putTurnDiff. rewrite run_now. unfold parse_with. by rewrite Hd. }
  exists m, s1.
  destruct (stored_diff_reads_back (ArtifactStoreLaws0 := in_memory_laws) s access diff diff'
    ownership turnId m s1) as [s2 Hs2];
    try done.
  - by eapply diff_turn_id.
  - destruct Hacc as (_ & _ & Hm & _). by apply matching_workspace in Hm.
  - intros m' b [Hm' _]%elem_memory_holds; [|done]. by eapply Hnone.
  - by exists s2.
Qed.
End InMemory.

(** * Witness *)

Module Demo.
#[local] Existing Instance iso_runtime.
#[local] Existing Instance demo_crypto.
#[local] Instance demo_numbers : JsonNumbers := {| number_of_text _ := NInt 0 |}.

Definition hex40 : string := "0123456789abcdef0123456789abcdef01234567".
Definition demo_snapshot (phase : string) : json := JObj
  [("turnId", JStr "trn_000001"); ("snapshotKey", JStr "key_1"); ("treeId", JStr hex40);
   ("headSha", JStr hex40); ("phase", JStr phase); ("capturedAt", JStr "2026-01-01T00:00:00.000Z")].
Definition demo_diff : json := JObj
  [("turnId", JStr "trn_000001"); ("startSnapshot", demo_snapshot "start");
   ("terminalSnapshot", demo_snapshot "terminal");
   ("files", JArr [JObj [("path", JStr "src/a.ts"); ("status", JStr "modified"); ("additions", JNum (NInt 3));
                         ("deletions", JNull); ("previousPath", JNull)]]);
   ("patch", JStr ("@@ -1 +1 @@" +:+ String (ascii_of_nat 10) ("+" +:+ dquote +:+ "caf" +:+ String (ascii_of_nat 233) "")))].

Lemma turn_diff_roundtrip_witness :
  exists m s1 s2,
    run (putTurnDiff (ArtifactStore0 := in_memory_store demo_options) demo_diff demo_ownership demo_access)
        (new_store tt) = (Ok m, s1) /\
    run (getTurnDiff (ArtifactStore0 := in_memory_store demo_options) "trn_000001" demo_access) s1 =
      (Ok (Some (mkStoredDiff m demo_diff)), s2).
Proof.
  apply (turn_diff_roundtrip demo_options (new_store tt) demo_access demo_diff).
  - exact new_store_consistent.
  - split; [reflexivity|]. intros o m []. by exists tt.
  - vm_compute. reflexivity.
  - reflexivity.
  - repeat split.
  - intros []. constructor; try (vm_compute; reflexivity).
    + by vm_compute; left.
    + by vm_compute; right; left.
    + vm_compute. done.
    + do 2 eexists. split; reflexivity.
    + intros s1. do 2 eexists. split; reflexivity.
  - by intros ?%elem_of_nil.
  - done.
Defined.
End Demo.
