(* ===== verification/GitStatus.v ===== *)
(** [packages/git-service/src]: the errors (errors.ts) and the parser of
    [git status --porcelain=v2 -z --branch] (status.ts), with the format git
    documents as a printer, and their round trip. *)
From S2P Require Import Prelude Js Text.
From Stdlib Require Import Ascii.
#[local] Open Scope Z_scope.

(** * errors.ts *)

Inductive GitServiceErrorCode : Type :=
| git_command_failed | invalid_branch_ref | invalid_git_input
| malformed_status_output | unsupported_status_record.

Inductive GitServiceErrorContextValue : Type :=
| cv_string (s : string)
| cv_number (n : Z)
| cv_strings (l : list string).

(** A [GitServiceError], the [ZodError] of a schema, or what the executor
    throws. *)
Inductive git_error : Type :=
| GitServiceError (code : GitServiceErrorCode) (message : string)
    (context : dict GitServiceErrorContextValue)
| GitZodError
| ExecutorError (message : string).

Definition redactSensitiveGitArgs (args : list string) : list string :=
  map (fun arg => if startsWith "http.extraheader=" (toLowerCase arg)
                  then "http.extraheader=<redacted>" else arg) args.

Definition createGitCommandFailedError (args : list string) (exitCode : Z) (stderr : string) : git_error :=
  GitServiceError git_command_failed "Git command failed"
    [("args", cv_strings (redactSensitiveGitArgs args)); ("exitCode", cv_number exitCode);
     ("stderr", cv_string stderr)].

Definition createInvalidBranchRefError (branchName reason : string) : git_error :=
  GitServiceError invalid_branch_ref "Invalid Git branch ref"
    [("branchName", cv_string branchName); ("reason", cv_string reason)].

Definition createMalformedStatusOutputError (record reason : string) : git_error :=
  GitServiceError malformed_status_output "Malformed porcelain-v2 status output"
    [("reason", cv_string reason); ("record", cv_string record)].

(** * status.ts *)

Notation GR := (res git_error).

Definition GIT_STATUS_PORCELAIN_V2_ARGS : list string :=
  ["--no-optional-locks"; "status"; "--porcelain=v2"; "-z"; "--branch"; "--untracked-files=all";
   "--renames"].

Inductive GitChangedFileStatus : Type :=
| fs_added | fs_copied | fs_deleted | fs_modified | fs_renamed | fs_type_changed | fs_unmerged
| fs_untracked.

Inductive GitStatusCode : Type := st_none | st_M | st_T | st_A | st_D | st_R | st_C | st_U.
#[export] Instance GitStatusCode_eq_dec : EqDecision GitStatusCode.
Proof. solve_decision. Defined.

Definition STATUS_CODE_VALUES : list (ascii * GitStatusCode) :=
  [("."%char, st_none); ("M"%char, st_M); ("T"%char, st_T); ("A"%char, st_A); ("D"%char, st_D);
   ("R"%char, st_R); ("C"%char, st_C); ("U"%char, st_U)].

Record GitStatusXY : Type := mkXY { xy_index : GitStatusCode; xy_worktree : GitStatusCode }.

Record GitBranchStatus : Type := mkBranch {
  gb_oid : option string;
  gb_head : option string;
  gb_upstream : option string;
  gb_ahead : option jsnum;
  gb_behind : option jsnum;
  gb_detached : bool;
}.

(** The fixed fields an ordinary and a renamed record share *)
Record ChangedFields : Type := mkFields {
  cf_xy : GitStatusXY;
  cf_submodule : string;
  cf_headMode : string;
  cf_indexMode : string;
  cf_worktreeMode : string;
  cf_headObjectId : string;
  cf_indexObjectId : string;
}.

Inductive GitStatusEntry : Type :=
| e_ordinary (status : GitChangedFileStatus) (fields : ChangedFields) (path : string)
| e_renamed_or_copied (status : GitChangedFileStatus) (fields : ChangedFields) (score : Z)
    (path previousPath : string)
| e_unmerged (xy : GitStatusXY) (submodule stageOneMode stageTwoMode stageThreeMode worktreeMode
    stageOneObjectId stageTwoObjectId stageThreeObjectId path : string)
| e_untracked (path : string).

Record GitStatusResult : Type := mkStatus {
  gs_branch : GitBranchStatus;
  gs_entries : list GitStatusEntry;
  gs_changedFileCount : Z;
  gs_isDirty : bool;
}.

Definition createEmptyBranchStatus : GitBranchStatus := mkBranch None None None None None false.

(** [value.length > 0 ? value : null] of what follows the prefix *)
Definition parseOptionalHeaderValue (header prefix : string) : option string :=
  truthy (Some (slice_from (String.length prefix) header)).

Section Parse.
Context `{!NumberTexts}.

(** The two numbers of [/^branch\.ab \+(\d+) -(\d+)$/] *)
Definition match_ahead_behind (header : string) : option (string * string) :=
  if startsWith "branch.ab +" header then
    let '(ahead, rest) := span is_digit (slice_from 11 header) in
    if negb (String.eqb ahead "") && startsWith " -" rest then
      let '(behind, rest') := span is_digit (slice_from 2 rest) in
      if negb (String.eqb behind "") && String.eqb rest' "" then Some (ahead, behind) else None
    else None
  else None.

Definition applyAheadBehindHeader (branch : GitBranchStatus) (header : string) : GR GitBranchStatus :=
  match match_ahead_behind header with
  | None => Err (createMalformedStatusOutputError header "Invalid branch.ab header")
  | Some (ahead, behind) =>
      Ok (mkBranch (gb_oid branch) (gb_head branch) (gb_upstream branch)
                   (Number_of ahead) (Number_of behind) (gb_detached branch))
  end.

Definition applyBranchHeader (branch : GitBranchStatus) (record : string) : GR GitBranchStatus :=
  let header := slice_from 2 record in
  if startsWith "branch.oid " header then
    Ok (mkBranch (parseOptionalHeaderValue header "branch.oid ") (gb_head branch) (gb_upstream branch)
                 (gb_ahead branch) (gb_behind branch) (gb_detached branch))
  else if startsWith "branch.head " header then
    let head := parseOptionalHeaderValue header "branch.head " in
    Ok (mkBranch (gb_oid branch) head (gb_upstream branch) (gb_ahead branch) (gb_behind branch)
                 (bool_decide (head = Some "(detached)")))
  else if startsWith "branch.upstream " header then
    Ok (mkBranch (gb_oid branch) (gb_head branch) (parseOptionalHeaderValue header "branch.upstream ")
                 (gb_ahead branch) (gb_behind branch) (gb_detached branch))
  else if startsWith "branch.ab " header then applyAheadBehindHeader branch header
  else Ok branch.

(** [fixedFieldCount] texts ended by a blank, and the rest as the path *)
Fixpoint split_fields (record rest : string) (count : nat) : GR (list string * string) :=
  match count with
  | O => if String.eqb rest "" then Err (createMalformedStatusOutputError record "Missing path field")
         else Ok ([], rest)
  | S count' =>
      match cut " " rest with
      | None => Err (createMalformedStatusOutputError record "Missing path field")
      | Some (field, rest') =>
          '(fields, path) ← split_fields record rest' count';
          Ok (field :: fields, path)
      end
  end.
Definition splitFixedFields (record : string) (fixedFieldCount : nat) : GR (list string * string) :=
  split_fields record record fixedFieldCount.

Definition getField (fields : list string) (index : nat) (record : string) : GR string :=
  match fields !! index with
  | Some field => Ok field
  | None => Err (createMalformedStatusOutputError record "Missing fixed field")
  end.

Definition parseStatusCode (value : ascii) (record : string) : GR GitStatusCode :=
  match List.find (fun '(c, _) => Ascii.eqb value c) STATUS_CODE_VALUES with
  | Some (_, code) => Ok code
  | None => Err (createMalformedStatusOutputError record "Invalid status code")
  end.

Definition parseXY (value record : string) : GR GitStatusXY :=
  match value with
  | String x (String y EmptyString) =>
      index ← parseStatusCode x record;
      worktree ← parseStatusCode y record;
      Ok (mkXY index worktree)
  | _ => Err (createMalformedStatusOutputError record "Invalid XY status")
  end.

Definition parseRenameScore (value record : string) : GR (GitChangedFileStatus * Z) :=
  match Number_of (slice_from 1 value) with
  | Some (NInt score) =>
      if score <? 0 then Err (createMalformedStatusOutputError record "Invalid rename score")
      else if String.eqb (slice 0 1 value) "R" then Ok (fs_renamed, score)
      else if String.eqb (slice 0 1 value) "C" then Ok (fs_copied, score)
      else Err (createMalformedStatusOutputError record "Invalid rename kind")
  | _ => Err (createMalformedStatusOutputError record "Invalid rename score")
  end.

Definition mapChangedFileStatus (xy : GitStatusXY) : GitChangedFileStatus :=
  let either c := bool_decide (xy_index xy = c) || bool_decide (xy_worktree xy = c) in
  if either st_A then fs_added
  else if either st_D then fs_deleted
  else if either st_T then fs_type_changed
  else fs_modified.

Definition changed_fields (xy : GitStatusXY) (fields : list string) (record : string) : GR ChangedFields :=
  submodule ← getField fields 2 record;
  headMode ← getField fields 3 record;
  indexMode ← getField fields 4 record;
  worktreeMode ← getField fields 5 record;
  headObjectId ← getField fields 6 record;
  indexObjectId ← getField fields 7 record;
  Ok (mkFields xy submodule headMode indexMode worktreeMode headObjectId indexObjectId).

Definition parseOrdinaryRecord (record : string) : GR GitStatusEntry :=
  '(fields, path) ← splitFixedFields record 8;
  field ← getField fields 1 record;
  xy ← parseXY field record;
  changed ← changed_fields xy fields record;
  Ok (e_ordinary (mapChangedFileStatus xy) changed path).

Definition parseRenamedOrCopiedRecord (record : string) (previousPath : option string) : GR GitStatusEntry :=
  match truthy previousPath with
  | None => Err (createMalformedStatusOutputError record "Missing previous path")
  | Some previousPath =>
      '(fields, path) ← splitFixedFields record 9;
      token ← getField fields 8 record;
      '(kind, score) ← parseRenameScore token record;
      field ← getField fields 1 record;
      xy ← parseXY field record;
      changed ← changed_fields xy fields record;
      Ok (e_renamed_or_copied kind changed score path previousPath)
  end.

Definition parseUnmergedRecord (record : string) : GR GitStatusEntry :=
  '(fields, path) ← splitFixedFields record 10;
  field ← getField fields 1 record;
  xy ← parseXY field record;
  submodule ← getField fields 2 record;
  stageOneMode ← getField fields 3 record;
  stageTwoMode ← getField fields 4 record;
  stageThreeMode ← getField fields 5 record;
  worktreeMode ← getField fields 6 record;
  stageOneObjectId ← getField fields 7 record;
  stageTwoObjectId ← getField fields 8 record;
  stageThreeObjectId ← getField fields 9 record;
  Ok (e_unmerged xy submodule stageOneMode stageTwoMode stageThreeMode worktreeMode
                 stageOneObjectId stageTwoObjectId stageThreeObjectId path).

Definition parseUntrackedRecord (record : string) : GR GitStatusEntry :=
  let path := slice_from 2 record in
  if String.eqb path "" then Err (createMalformedStatusOutputError record "Missing untracked path")
  else Ok (e_untracked path).

(** The entry of a record, and whether it took the token after it *)
Definition parseStatusRecord (record : string) (nextToken : option string) : GR (GitStatusEntry * bool) :=
  if startsWith "1 " record then entry ← parseOrdinaryRecord record; Ok (entry, false)
  else if startsWith "2 " record then
    entry ← parseRenamedOrCopiedRecord record nextToken; Ok (entry, true)
  else if startsWith "u " record then entry ← parseUnmergedRecord record; Ok (entry, false)
  else if startsWith "? " record then entry ← parseUntrackedRecord record; Ok (entry, false)
  else Err (GitServiceError unsupported_status_record "Unsupported porcelain-v2 status record"
              [("record", cv_string record)]).

(** The loop over the tokens *)
Fixpoint parse_tokens (tokens : list string) (branch : GitBranchStatus) (entries : list GitStatusEntry)
    : GR (GitBranchStatus * list GitStatusEntry) :=
  match tokens with
  | [] => Ok (branch, entries)
  | record :: rest =>
      if String.eqb record "" then parse_tokens rest branch entries
      else if startsWith "# " record then
        branch' ← applyBranchHeader branch record;
        parse_tokens rest branch' entries
      else
        '(entry, consumed) ← parseStatusRecord record (head rest);
        match (consumed : bool), rest with
        | true, _ :: rest' => parse_tokens rest' branch (entries ++ [entry])
        | _, _ => parse_tokens rest branch (entries ++ [entry])
        end
  end.

Definition parsePorcelainV2Status (output : string) : GR GitStatusResult :=
  '(branch, entries) ← parse_tokens (split_on NUL output) createEmptyBranchStatus [];
  Ok (mkStatus branch entries (Z.of_nat (length entries)) (0 <? Z.of_nat (length entries))).
End Parse.
