(* ===== verification/GitStatusProps.v ===== *)
(** Reading back what [git status --porcelain=v2 -z --branch] prints. *)
From S2P Require Import Prelude Js Text GitStatus.
From Stdlib Require Import Ascii.
#[local] Open Scope Z_scope.

(** * The documented format *)

Definition code_char (c : GitStatusCode) : ascii :=
  match c with
  | st_none => "." | st_M => "M" | st_T => "T" | st_A => "A"
  | st_D => "D" | st_R => "R" | st_C => "C" | st_U => "U"
  end.
Definition xy_text (xy : GitStatusXY) : string :=
  String (code_char (xy_index xy)) (String (code_char (xy_worktree xy)) "").

(** Fields ended by blanks, and a path *)
Definition record_text (fields : list string) (path : string) : string := terminated " " fields +:+ path.

Definition changed_texts (f : ChangedFields) : list string :=
  [xy_text (cf_xy f); cf_submodule f; cf_headMode f; cf_indexMode f; cf_worktreeMode f;
   cf_headObjectId f; cf_indexObjectId f].

Definition print_entry (e : GitStatusEntry) : list string :=
  match e with
  | e_ordinary _ f path => [record_text ("1" :: changed_texts f) path]
  | e_renamed_or_copied status f score path previousPath =>
      let kind := match status with fs_copied => "C" | _ => "R" end in
      [record_text ("2" :: changed_texts f ++ [kind +:+ Number_toString score]) path; previousPath]
  | e_unmerged xy sub m1 m2 m3 mw h1 h2 h3 path =>
      [record_text ["u"; xy_text xy; sub; m1; m2; m3; mw; h1; h2; h3] path]
  | e_untracked path => ["? " +:+ path]
  end.

Definition header (name : string) (value : option string) : list string :=
  match value with Some v => ["# " +:+ name +:+ v] | None => [] end.
Definition print_branch (b : GitBranchStatus) : list string :=
  header "branch.oid " (gb_oid b) ++ header "branch.head " (gb_head b) ++
  header "branch.upstream " (gb_upstream b) ++
  match gb_ahead b, gb_behind b with
  | Some (NInt ahead), Some (NInt behind) =>
      ["# " +:+ "branch.ab +" +:+ Number_toString ahead +:+ " -" +:+ Number_toString behind]
  | _, _ => []
  end.

Definition print_status (b : GitBranchStatus) (entries : list GitStatusEntry) : string :=
  terminated NUL (print_branch b ++ concat (map print_entry entries)).

(** * Well-formed statuses *)

Definition token_ok (s : string) : bool := negb (String.eqb s "") && negb (has_char NUL s).
Definition field_ok (s : string) : bool := negb (has_char " " s) && negb (has_char NUL s).
Definition count_ok (n : Z) : bool := (0 <=? n) && (n <=? MAX_SAFE_INTEGER).

Definition fields_ok (f : ChangedFields) : bool := forallb field_ok (changed_texts f).

(** Texts that git can print in their places, and the status it means *)
Definition entry_ok (e : GitStatusEntry) : Prop :=
  match e with
  | e_ordinary status f path =>
      status = mapChangedFileStatus (cf_xy f) /\ fields_ok f = true /\ token_ok path = true
  | e_renamed_or_copied status f score path previousPath =>
      (status = fs_renamed \/ status = fs_copied) /\ fields_ok f = true /\ count_ok score = true /\
      token_ok path = true /\ token_ok previousPath = true
  | e_unmerged xy sub m1 m2 m3 mw h1 h2 h3 path =>
      forallb field_ok [sub; m1; m2; m3; mw; h1; h2; h3] = true /\ token_ok path = true
  | e_untracked path => token_ok path = true
  end.

Definition counts_ok (ahead behind : option jsnum) : Prop :=
  ahead = None /\ behind = None \/
  exists a b, ahead = Some (NInt a) /\ behind = Some (NInt b) /\ count_ok a = true /\ count_ok b = true.
Definition header_ok (value : option string) : Prop :=
  match value with Some v => token_ok v = true | None => True end.
Definition branch_ok (b : GitBranchStatus) : Prop :=
  header_ok (gb_oid b) /\ header_ok (gb_head b) /\ header_ok (gb_upstream b) /\
  counts_ok (gb_ahead b) (gb_behind b) /\
  gb_detached b = bool_decide (gb_head b = Some "(detached)").

(** * Facts *)

Section Facts.
Context `{!NumberTexts}.

Lemma token_ok_spec s : token_ok s = true -> s <> "" /\ has_char NUL s = false.
Proof.
  unfold token_ok. rewrite andb_true_iff, !negb_true_iff. intros [He Hn].
  split; [by apply String.eqb_neq|done].
Qed.

Lemma decimal_text n :
  0 <= n -> str_forall is_digit (Number_toString n) = true /\ dec_value 0 (Number_toString n) = n /\
            Number_toString n <> "".
Proof.
  intros Hn. pose proof (Number_toString_nonempty n Hn) as Hne. unfold Number_toString in *.
  destruct (Z.ltb_spec n 0); [lia|]. split_and!; [by apply dec_go_digits| |done].
  rewrite dec_go_value; [done|]. split; [lia|by apply dec_fuel_enough].
Qed.

Lemma Number_of_text n : count_ok n = true -> Number_of (Number_toString n) = Some (NInt n).
Proof.
  unfold count_ok. intros [Hn Hm]%andb_true_iff. apply Z.leb_le in Hn.
  destruct (decimal_text n Hn) as (Hd & Hv & Hne). unfold Number_of.
  apply String.eqb_neq in Hne. by rewrite Hne, Hd, Hv, Hm.
Qed.

Lemma digits_no_char c s : is_digit c = false -> str_forall is_digit s = true -> has_char c s = false.
Proof.
  intros Hc. induction s as [|x s IH]; [done|]. cbn. intros [Hx Hs]%andb_true_iff.
  rewrite (IH Hs), orb_false_r. apply Ascii.eqb_neq. intros ->. congruence.
Qed.

Lemma span_digits_text a b :
  str_forall is_digit a = true -> (forall c t, b = String c t -> is_digit c = false) ->
  span is_digit (a +:+ b) = (a, b).
Proof. apply span_all. Qed.

Lemma split_fields_text record fields path :
  Forall (fun f => has_char " " f = false) fields -> path <> "" ->
  split_fields record (record_text fields path) (length fields) = Ok (fields, path).
Proof.
  intros Hf Hp. unfold record_text. induction Hf as [|f fields Hf _ IH]; cbn [length split_fields terminated].
  - rewrite append_nil_l. apply String.eqb_neq in Hp. by rewrite Hp.
  - rewrite append_assoc, append_cons, cut_first by done. by rewrite IH.
Qed.

Lemma parseXY_text xy record : parseXY (xy_text xy) record = Ok xy.
Proof. by destruct xy as [[] []]. Qed.

Lemma xy_field xy : field_ok (xy_text xy) = true.
Proof. by destruct xy as [[] []]. Qed.

Lemma forallb_blank l : forallb field_ok l = true -> Forall (fun f => has_char " " f = false) l.
Proof.
  intros Hl. rewrite forallb_forall in Hl. apply Forall_forall. intros f Hf.
  apply list_elem_of_In, Hl in Hf. unfold field_ok in Hf.
  rewrite andb_true_iff, !negb_true_iff in Hf. by destruct Hf.
Qed.

(** ** Headers *)

Lemma parse_header h rest b es :
  parse_tokens (("# " +:+ h) :: rest) b es =
    b' ← applyBranchHeader b ("# " +:+ h); parse_tokens rest b' es.
Proof. cbn [parse_tokens]. by rewrite prefix_append. Qed.

Lemma header_text h : slice_from 2 ("# " +:+ h) = h.
Proof. exact (slice_after_prefix "# " h). Qed.

Lemma header_value prefix v :
  token_ok v = true -> parseOptionalHeaderValue (prefix +:+ v) prefix = Some v.
Proof.
  intros [Hv _]%token_ok_spec. unfold parseOptionalHeaderValue. rewrite slice_after_prefix. by destruct v.
Qed.

Lemma apply_oid b v : token_ok v = true ->
  applyBranchHeader b ("# " +:+ "branch.oid " +:+ v) =
    Ok (mkBranch (Some v) (gb_head b) (gb_upstream b) (gb_ahead b) (gb_behind b) (gb_detached b)).
Proof.
  intros Hv. unfold applyBranchHeader. by rewrite header_text, prefix_append, header_value.
Qed.

Lemma apply_head b v : token_ok v = true ->
  applyBranchHeader b ("# " +:+ "branch.head " +:+ v) =
    Ok (mkBranch (gb_oid b) (Some v) (gb_upstream b) (gb_ahead b) (gb_behind b)
          (bool_decide (Some v = Some "(detached)"))).
Proof.
  intros Hv. unfold applyBranchHeader. rewrite header_text, prefix_append, header_value by done. reflexivity.
Qed.

Lemma apply_upstream b v : token_ok v = true ->
  applyBranchHeader b ("# " +:+ "branch.upstream " +:+ v) =
    Ok (mkBranch (gb_oid b) (gb_head b) (Some v) (gb_ahead b) (gb_behind b) (gb_detached b)).
Proof.
  intros Hv. unfold applyBranchHeader. rewrite header_text, prefix_append, header_value by done. reflexivity.
Qed.

Lemma match_ahead_behind_text a c :
  0 <= a -> 0 <= c ->
  match_ahead_behind ("branch.ab +" +:+ Number_toString a +:+ " -" +:+ Number_toString c) =
    Some (Number_toString a, Number_toString c).
Proof.
  intros Ha Hc. destruct (decimal_text a Ha) as (Hda & _ & Hna), (decimal_text c Hc) as (Hdc & _ & Hnc).
  unfold match_ahead_behind. rewrite prefix_append.
  rewrite (slice_after_prefix "branch.ab +" _ : slice_from 11 _ = _).
  rewrite span_digits_text; [|done|by intros x t [= <- _]].
  apply String.eqb_neq in Hna, Hnc. rewrite Hna, prefix_append. cbn [negb andb].
  rewrite (slice_after_prefix " -" _ : slice_from 2 _ = _).
  rewrite <- (append_nil_r (Number_toString c)) at 1. rewrite span_digits_text by done.
  by rewrite Hnc.
Qed.

Lemma apply_ab b a c : count_ok a = true -> count_ok c = true ->
  applyBranchHeader b ("# " +:+ "branch.ab +" +:+ Number_toString a +:+ " -" +:+ Number_toString c) =
    Ok (mkBranch (gb_oid b) (gb_head b) (gb_upstream b) (Some (NInt a)) (Some (NInt c)) (gb_detached b)).
Proof.
  intros Ha Hc. unfold applyBranchHeader. rewrite header_text. cbn [startsWith].
  change (applyAheadBehindHeader b ("branch.ab +" +:+ Number_toString a +:+ " -" +:+ Number_toString c) =
    Ok (mkBranch (gb_oid b) (gb_head b) (gb_upstream b) (Some (NInt a)) (Some (NInt c)) (gb_detached b))).
  unfold applyAheadBehindHeader. pose proof Ha as [Ha' _]%andb_true_iff. pose proof Hc as [Hc' _]%andb_true_iff.
  rewrite match_ahead_behind_text by lia. by rewrite !Number_of_text.
Qed.

(** The headers set the fields of the branch. *)
Lemma parse_branch b rest es :
  branch_ok b ->
  parse_tokens (print_branch b ++ rest) createEmptyBranchStatus es = parse_tokens rest b es.
Proof.
  intros (Ho & Hh & Hu & Hc & Hd). destruct b as [oid hd up ahead behind detached]. cbn in *.
  unfold print_branch. cbn [gb_oid gb_head gb_upstream gb_ahead gb_behind]. rewrite <- !app_assoc.
  assert (E1 : forall rest, parse_tokens (header "branch.oid " oid ++ rest) createEmptyBranchStatus es =
            parse_tokens rest (mkBranch oid None None None None false) es).
  { intros r. destruct oid as [v|]; [|done]. cbn [header app]. by rewrite parse_header, apply_oid. }
  assert (E2 : forall rest, parse_tokens (header "branch.head " hd ++ rest) (mkBranch oid None None None None false) es =
            parse_tokens rest (mkBranch oid hd None None None detached) es).
  { intros r. subst detached. destruct hd as [v|]; [|done]. cbn [header app]. by rewrite parse_header, apply_head. }
  assert (E3 : forall rest, parse_tokens (header "branch.upstream " up ++ rest) (mkBranch oid hd None None None detached) es =
            parse_tokens rest (mkBranch oid hd up None None detached) es).
  { intros r. destruct up as [v|]; [|done]. cbn [header app]. by rewrite parse_header, apply_upstream. }
  rewrite E1, E2, E3. destruct Hc as [[-> ->]|(a & c & -> & -> & Ha & Hb)]; [done|].
  cbn [app]. by rewrite parse_header, apply_ab.
Qed.

(** ** Entries *)

Lemma fields_blank f : fields_ok f = true -> Forall (fun x => has_char " " x = false) (changed_texts f).
Proof. apply forallb_blank. Qed.

Lemma path_nonempty path : token_ok path = true -> path <> "".
Proof. by intros [? _]%token_ok_spec. Qed.

Lemma parse_ordinary f path :
  fields_ok f = true -> token_ok path = true ->
  parseOrdinaryRecord (record_text ("1" :: changed_texts f) path) =
    Ok (e_ordinary (mapChangedFileStatus (cf_xy f)) f path).
Proof.
  intros Hf Hp. unfold parseOrdinaryRecord, splitFixedFields.
  set (record := record_text _ _).
  assert (E : split_fields record record 8 = Ok ("1" :: changed_texts f, path)).
  { apply (split_fields_text record ("1" :: changed_texts f)); [|by apply path_nonempty].
    constructor; [done|by apply fields_blank]. }
  rewrite E. destruct f. cbn -[parseXY]. by rewrite parseXY_text.
Qed.

Lemma rename_score_text status score record :
  status = fs_renamed \/ status = fs_copied -> count_ok score = true ->
  parseRenameScore (match status with fs_copied => "C" | _ => "R" end +:+ Number_toString score) record =
    Ok (status, score).
Proof.
  intros Hs Hc. unfold parseRenameScore. pose proof Hc as [Hn _]%andb_true_iff. apply Z.leb_le in Hn.
  assert (Hhead : forall c s, slice 0 1 (String c "" +:+ s) = String c "") by (by intros c []).
  destruct Hs as [-> | ->].
  - rewrite Hhead, (slice_after_prefix "R" _ : slice_from 1 _ = _), Number_of_text by done.
    by destruct (Z.ltb_spec score 0); [lia|].
  - rewrite Hhead, (slice_after_prefix "C" _ : slice_from 1 _ = _), Number_of_text by done.
    by destruct (Z.ltb_spec score 0); [lia|].
Qed.

Lemma score_blank status score :
  count_ok score = true ->
  has_char " " (match status with fs_copied => "C" | _ => "R" end +:+ Number_toString score) = false.
Proof.
  intros Hc. pose proof Hc as [Hn _]%andb_true_iff. apply Z.leb_le in Hn.
  rewrite has_char_app. destruct (decimal_text score Hn) as (Hd & _).
  rewrite (digits_no_char " " _ eq_refl Hd). by destruct status.
Qed.

Lemma parse_renamed status f score path previousPath :
  status = fs_renamed \/ status = fs_copied -> fields_ok f = true -> count_ok score = true ->
  token_ok path = true -> token_ok previousPath = true ->
  parseRenamedOrCopiedRecord
    (record_text ("2" :: changed_texts f ++
       [match status with fs_copied => "C" | _ => "R" end +:+ Number_toString score]) path)
    (Some previousPath) = Ok (e_renamed_or_copied status f score path previousPath).
Proof.
  intros Hs Hf Hc Hp Hq. unfold parseRenamedOrCopiedRecord, splitFixedFields.
  set (score_text := match status with fs_copied => "C" | _ => "R" end +:+ Number_toString score).
  set (record := record_text _ _).
  assert (E : split_fields record record 9 = Ok ("2" :: changed_texts f ++ [score_text], path)).
  { apply (split_fields_text record ("2" :: changed_texts f ++ [score_text])); [|by apply path_nonempty].
    constructor; [done|]. apply Forall_app. split; [by apply fields_blank|].
    constructor; [by apply score_blank|constructor]. }
  apply path_nonempty in Hq. destruct previousPath as [|c q]; [done|]. cbn [truthy].
  rewrite E. destruct f. cbn -[parseXY parseRenameScore]. unfold score_text.
  rewrite rename_score_text by done. cbn -[parseXY]. by rewrite parseXY_text.
Qed.

Lemma parse_unmerged xy sub m1 m2 m3 mw h1 h2 h3 path :
  forallb field_ok [sub; m1; m2; m3; mw; h1; h2; h3] = true -> token_ok path = true ->
  parseUnmergedRecord (record_text ["u"; xy_text xy; sub; m1; m2; m3; mw; h1; h2; h3] path) =
    Ok (e_unmerged xy sub m1 m2 m3 mw h1 h2 h3 path).
Proof.
  intros Hf Hp. unfold parseUnmergedRecord, splitFixedFields. set (record := record_text _ _).
  assert (E : split_fields record record 10 =
            Ok (["u"; xy_text xy; sub; m1; m2; m3; mw; h1; h2; h3], path)).
  { apply (split_fields_text record ["u"; xy_text xy; sub; m1; m2; m3; mw; h1; h2; h3]); [|by apply path_nonempty].
    constructor; [done|]. constructor; [by destruct xy as [[] []]|]. by apply forallb_blank. }
  rewrite E. cbn -[parseXY]. by rewrite parseXY_text.
Qed.

Lemma record_start c fs path :
  record_text (String c "" :: fs) path = String c " " +:+ record_text fs path.
Proof. unfold record_text. cbn [terminated]. rewrite !append_assoc. reflexivity. Qed.

Lemma parse_record r rest b es :
  String.eqb r "" = false -> startsWith "# " r = false ->
  parse_tokens (r :: rest) b es =
    '(entry, consumed) ← parseStatusRecord r (head rest);
    match (consumed : bool), rest with
    | true, _ :: rest' => parse_tokens rest' b (es ++ [entry])
    | _, _ => parse_tokens rest b (es ++ [entry])
    end.
Proof. intros He Hh. cbn [parse_tokens]. by rewrite He, Hh. Qed.

Lemma status_record x next :
  parseStatusRecord ("1 " +:+ x) next = (entry ← parseOrdinaryRecord ("1 " +:+ x); Ok (entry, false)) /\
  parseStatusRecord ("2 " +:+ x) next = (entry ← parseRenamedOrCopiedRecord ("2 " +:+ x) next; Ok (entry, true)) /\
  parseStatusRecord ("u " +:+ x) next = (entry ← parseUnmergedRecord ("u " +:+ x); Ok (entry, false)) /\
  parseStatusRecord ("? " +:+ x) next = (entry ← parseUntrackedRecord ("? " +:+ x); Ok (entry, false)).
Proof.
  unfold parseStatusRecord. split_and!; by rewrite prefix_append.
Qed.

(** Each entry is read from its tokens, whatever follows. *)
Lemma parse_entry e rest b es :
  entry_ok e -> parse_tokens (print_entry e ++ rest) b es = parse_tokens rest b (es ++ [e]).
Proof.
  destruct e as [status f path|status f score path previousPath|xy sub m1 m2 m3 mw h1 h2 h3 path|path];
    cbn [entry_ok print_entry app].
  - intros (-> & Hf & Hp). pose proof (parse_ordinary f path Hf Hp) as E. rewrite record_start in *.
    rewrite parse_record by done. rewrite (proj1 (status_record _ _)), E. by destruct rest.
  - intros (Hs & Hf & Hc & Hp & Hq). pose proof (parse_renamed _ f _ _ _ Hs Hf Hc Hp Hq) as E.
    rewrite record_start in *. rewrite parse_record by done.
    rewrite (proj1 (proj2 (status_record _ _))). cbn [head]. by rewrite E.
  - intros (Hf & Hp). pose proof (parse_unmerged xy _ _ _ _ _ _ _ _ _ Hf Hp) as E.
    rewrite record_start in *. rewrite parse_record by done.
    rewrite (proj1 (proj2 (proj2 (status_record _ _)))), E. by destruct rest.
  - intros Hp. rewrite parse_record by done. rewrite (proj2 (proj2 (proj2 (status_record _ _)))).
    unfold parseUntrackedRecord. rewrite (slice_after_prefix "? " path : slice_from 2 _ = _).
    apply path_nonempty, String.eqb_neq in Hp. rewrite Hp. by destruct rest.
Qed.

Lemma parse_entries entries rest b es :
  Forall entry_ok entries ->
  parse_tokens (concat (map print_entry entries) ++ rest) b es = parse_tokens rest b (es ++ entries).
Proof.
  intros He. revert es. induction He as [|e entries He _ IH]; intros es; cbn [map concat app].
  - by rewrite app_nil_r.
  - rewrite <- app_assoc, parse_entry by done. rewrite IH. by rewrite <- app_assoc.
Qed.

(** ** Tokens hold no NUL *)

Lemma no_nul_field s : field_ok s = true -> has_char NUL s = false.
Proof. unfold field_ok. rewrite andb_true_iff, !negb_true_iff. by intros [_ ?]. Qed.

Lemma no_nul_record fields path :
  Forall (fun f => has_char NUL f = false) fields -> has_char NUL path = false ->
  has_char NUL (record_text fields path) = false.
Proof.
  intros Hf Hp. unfold record_text. rewrite has_char_app, Hp, orb_false_r.
  induction Hf as [|f fs Hf _ IH]; [done|]. cbn [terminated]. rewrite has_char_app, Hf. exact IH.
Qed.

Lemma no_nul_fields l : forallb field_ok l = true -> Forall (fun f => has_char NUL f = false) l.
Proof.
  intros Hl. rewrite forallb_forall in Hl. apply Forall_forall. intros f Hf.
  by apply no_nul_field, Hl, list_elem_of_In.
Qed.

Lemma no_nul_digits n : 0 <= n -> has_char NUL (Number_toString n) = false.
Proof. intros Hn. destruct (decimal_text n Hn) as (Hd & _). by eapply digits_no_char. Qed.

Lemma count_nonneg n : count_ok n = true -> 0 <= n.
Proof. intros [Hn _]%andb_true_iff. by apply Z.leb_le. Qed.

Lemma entry_tokens e : entry_ok e -> Forall (fun t => has_char NUL t = false) (print_entry e).
Proof.
  destruct e as [status f path|status f score path previousPath|xy sub m1 m2 m3 mw h1 h2 h3 path|path];
    cbn [entry_ok print_entry].
  - intros (_ & Hf & [_ Hp]%token_ok_spec). repeat constructor. apply no_nul_record; [|done].
    constructor; [done|]. by apply no_nul_fields.
  - intros (Hs & Hf & Hc%count_nonneg & [_ Hp]%token_ok_spec & [_ Hq]%token_ok_spec).
    repeat constructor; [|done]. apply no_nul_record; [|done]. constructor; [done|].
    apply Forall_app. split; [by apply no_nul_fields|]. repeat constructor.
    rewrite has_char_app, (no_nul_digits _ Hc). by destruct status.
  - intros (Hf & [_ Hp]%token_ok_spec). repeat constructor. apply no_nul_record; [|done].
    constructor; [done|]. constructor; [by destruct xy as [[] []]|]. by apply no_nul_fields.
  - intros [_ Hp]%token_ok_spec. repeat constructor. by rewrite has_char_app, Hp.
Qed.

Lemma header_tokens name v :
  header_ok v -> has_char NUL name = false -> Forall (fun t => has_char NUL t = false) (header name v).
Proof.
  intros Hv Hn. destruct v as [v|]; [|constructor]. apply token_ok_spec in Hv as [_ Hv].
  repeat constructor. by rewrite !has_char_app, Hv, Hn.
Qed.

Lemma branch_tokens b : branch_ok b -> Forall (fun t => has_char NUL t = false) (print_branch b).
Proof.
  intros (Ho & Hh & Hu & Hc & _). unfold print_branch. repeat apply Forall_app_2; try by apply header_tokens.
  destruct Hc as [[Ea Eb]|(a & c & Ea & Eb & Ha%count_nonneg & Hb%count_nonneg)]; rewrite Ea; [constructor|].
  rewrite Eb.
  repeat constructor. rewrite !has_char_app, !no_nul_digits by done. done.
Qed.

(** C33. Whatever branch headers and entries git prints in the documented format,
    with any file names it can hold, [parsePorcelainV2Status] returns exactly that
    branch and those entries, in order, and counts them. *)
Theorem status_roundtrip branch entries :
  branch_ok branch -> Forall entry_ok entries ->
  parsePorcelainV2Status (print_status branch entries) =
    Ok (mkStatus branch entries (Z.of_nat (length entries)) (negb (bool_decide (entries = [])))).
Proof.
  intros Hb He. unfold parsePorcelainV2Status, print_status. rewrite split_terminated.
  - rewrite <- app_assoc, parse_branch, parse_entries by done. cbn.
    do 2 f_equal. by destruct entries.
  - apply Forall_app. split; [by apply branch_tokens|].
    induction He as [|e es He _ IH]; [constructor|]. cbn. apply Forall_app. split; [by apply entry_tokens|done].
Qed.
End Facts.

(** * Witness *)

Definition demo_number_texts : NumberTexts := {| other_number _ := None |}.
Definition demo_fields : ChangedFields :=
  mkFields (mkXY st_M st_none) "N..." "100644" "100644" "100644" "0a1b" "2c3d".
Definition demo_branch : GitBranchStatus :=
  mkBranch (Some "0a1b2c") (Some "main") (Some "origin/main") (Some (NInt 12)) (Some (NInt 0)) false.
Definition demo_entries : list GitStatusEntry :=
  [e_ordinary fs_modified demo_fields "src/a file.ts";
   e_renamed_or_copied fs_renamed demo_fields 87 "new name" "old name";
   e_unmerged (mkXY st_U st_U) "N..." "1" "2" "3" "4" "h1" "h2" "h3" "both.txt"; e_untracked "? odd"].

Lemma status_roundtrip_witness :
  parsePorcelainV2Status (H := demo_number_texts) (print_status demo_branch demo_entries) =
    Ok (mkStatus demo_branch demo_entries 4 true).
Proof.
  apply (status_roundtrip (H := demo_number_texts) demo_branch demo_entries).
  - repeat split; try reflexivity. right. by exists 12, 0.
  - repeat constructor.
Defined.
