(* ===== verification/GitRefs.v ===== *)
(** [packages/git-service/src]: the executor (executor.ts) as a log of
    commands, the validation of roots and paths (validation.ts) and of branch
    and remote names (refs.ts). *)
From S2P Require Import Prelude Js Text Protocol GitStatus.
From Stdlib Require Import Ascii.
#[local] Open Scope Z_scope.

(** * executor.ts *)

Definition DEFAULT_GIT_COMMAND_TIMEOUT_MS : Z := 30000.

Record GitCommandExecutionInput : Type := mkCommand {
  ci_runId : string;
  ci_cwd : string;
  ci_args : list string;
  ci_stdin : option string;
  ci_environment : option (dict string);
  ci_timeoutMs : option Z;
}.

Record GitCommandExecutionResult : Type := mkResult { exitCode : Z; stdout : string; stderr : string }.

(** Git in its repository: what a command answers, or the message it throws,
    after the commands executed before it. *)
Class GitCommandExecutor : Type := {
  respond : list GitCommandExecutionInput -> GitCommandExecutionInput ->
    res string GitCommandExecutionResult;
}.

Notation git := (ST (list GitCommandExecutionInput) git_error).

Definition executor_execute `{GitCommandExecutor} (command : GitCommandExecutionInput)
    : git GitCommandExecutionResult := fun history =>
  (match respond history command with Ok result => Ok result | Err e => Err (ExecutorError e) end,
   history ++ [command]).

(** [RunIdSchema.parse] *)
Definition RunId_parse (runId : string) : GR string :=
  if RunIdSchema runId then Ok runId else Err GitZodError.

(** * validation.ts *)

Definition invalid_input {A} (message : string) (context : dict GitServiceErrorContextValue) : GR A :=
  Err (GitServiceError invalid_git_input message context).

Definition validateWorkspaceRoot (workspaceRoot : string) : GR string :=
  let normalized := trim workspaceRoot in
  let context := [("workspaceRoot", cv_string workspaceRoot)] in
  if negb (String.eqb normalized workspaceRoot) || String.eqb normalized "" then
    invalid_input "Workspace root must be a non-empty absolute path" context
  else if negb (startsWith "/" workspaceRoot) then
    invalid_input "Workspace root must be absolute" context
  else Ok workspaceRoot.

(** [/^[A-Za-z]:[\\/]/u] *)
Definition WINDOWS_ABSOLUTE_PATH_PATTERN (path : string) : bool :=
  match path with
  | String drive (String colon (String separator _)) =>
      (ascii_between 65 90 drive || ascii_between 97 122 drive) && Ascii.eqb colon ":" &&
      (String.eqb (String separator "") backslash || Ascii.eqb separator "/")
  | _ => false
  end.

Definition isUnsafePathSegment (segment : string) : bool :=
  String.eqb segment "" || String.eqb segment "." || String.eqb segment "..".

Definition validateRepoRelativePath (path : string) : GR string :=
  let normalized := trim path in
  let context := [("path", cv_string path)] in
  if negb (String.eqb normalized path) || String.eqb normalized "" then
    invalid_input "Git path must be a non-empty repo-relative path" context
  else if startsWith "/" path || WINDOWS_ABSOLUTE_PATH_PATTERN path || includes backslash path then
    invalid_input "Git path must be relative to the repository" context
  else if existsb isUnsafePathSegment (split_on "/" path) then
    invalid_input "Git path cannot escape the repository" context
  else Ok path.

Definition validateExplicitRepoPaths (paths : list string) : GR (list string) :=
  if (length paths =? 0)%nat then
    invalid_input "At least one explicit repo-relative path is required" []
  else res_map validateRepoRelativePath paths.

(** * refs.ts *)

Definition BRANCH_CHECK_ARGS : list string := ["check-ref-format"; "--branch"].
Definition MAX_REMOTE_NAME_LENGTH : Z := 128.

(** [/\s/u.test(value)] *)
Definition WHITESPACE_PATTERN (value : string) : bool := negb (str_forall (fun c => negb (is_space c)) value).

(** [/^[A-Za-z0-9][A-Za-z0-9._-]{0,127}$/u] *)
Definition REMOTE_NAME_PATTERN (name : string) : bool :=
  match name with
  | String c rest =>
      is_alnum c && str_forall (fun d => is_alnum d || Ascii.eqb d "." || Ascii.eqb d "_" || Ascii.eqb d "-") rest &&
      (str_length rest <=? 127)
  | EmptyString => false
  end.

Definition hasControlCharacter (value : string) : bool :=
  negb (str_forall (fun c => negb (ascii_between 0 31 c || ascii_between 127 127 c)) value).

Definition isForbiddenBranchPathSegment (segment : string) : bool :=
  String.eqb segment "" || startsWith "." segment || endsWith ".lock" segment.

Definition hasForbiddenBranchPattern (branchName : string) : bool :=
  hasControlCharacter branchName || WHITESPACE_PATTERN branchName ||
  existsb (fun part => includes part branchName)
    [".."; "//"; "@{"; backslash; "~"; "^"; ":"; "?"; "*"; "["] ||
  endsWith "/" branchName || endsWith "." branchName ||
  existsb isForbiddenBranchPathSegment (split_on "/" branchName).

Definition validateBranchNamePolicy (branchName : string) : GR string :=
  let normalized := trim branchName in
  if negb (String.eqb normalized branchName) || String.eqb normalized "" then
    Err (createInvalidBranchRefError branchName "Branch name is empty")
  else if startsWith "-" branchName then
    Err (createInvalidBranchRefError branchName "Branch starts with dash")
  else if String.eqb branchName "@" || startsWith "@{" branchName then
    Err (createInvalidBranchRefError branchName "Branch uses reflog syntax")
  else if hasForbiddenBranchPattern branchName then
    Err (createInvalidBranchRefError branchName "Branch has unsafe syntax")
  else Ok branchName.

Definition validateRemoteName (remoteName : string) : GR string :=
  let normalized := trim remoteName in
  if negb (String.eqb normalized remoteName) || String.eqb remoteName "" ||
     (MAX_REMOTE_NAME_LENGTH <? str_length remoteName) then
    Err (createInvalidBranchRefError remoteName "Remote name is invalid")
  else if negb (REMOTE_NAME_PATTERN remoteName) then
    Err (createInvalidBranchRefError remoteName "Remote name is unsafe")
  else Ok remoteName.

Record GitBranchValidationInput : Type := mkBranchValidation {
  bv_runId : string;
  bv_workspaceRoot : string;
  bv_branchName : string;
}.
Record GitBranchValidationResult : Type := mkBranchValidated { bvr_branchName : string; bvr_checkedRef : string }.

(** [a || b] of texts *)
Definition or_text (a b : string) : string := if String.eqb a "" then b else a.

Definition validateBranchWithGit `{GitCommandExecutor} (input : GitBranchValidationInput)
    : git GitBranchValidationResult :=
  branchName ← lift (validateBranchNamePolicy (bv_branchName input));
  runId ← lift (RunId_parse (bv_runId input));
  workspaceRoot ← lift (validateWorkspaceRoot (bv_workspaceRoot input));
  result ← executor_execute (mkCommand runId workspaceRoot (BRANCH_CHECK_ARGS ++ [branchName]) None None
                               (Some DEFAULT_GIT_COMMAND_TIMEOUT_MS));
  if negb (exitCode result =? 0) then
    throw (createInvalidBranchRefError branchName
             (or_text (stderr result) "git check-ref-format rejected branch"))
  else mret (mkBranchValidated branchName (or_text (trim (stdout result)) branchName)).
