(* ===== verification/GitSnapshot.v ===== *)
(** [packages/git-service/src/snapshot.ts]: capturing the working tree through
    an index of its own, and the difference of two captured trees. *)
From S2P Require Import Prelude Js Text Protocol TurnArtifacts GitStatus GitRefs.
From Stdlib Require Import Ascii.
#[local] Open Scope Z_scope.

(** * types.ts *)

Record GitFilesystemContext : Type := mkFilesystem { fs_runId : string; fs_filesystemRoot : string }.
Record GitDiffFile : Type := mkDiffFile {
  df_path : string;
  df_previousPath : option string;
  df_status : GitChangedFileStatus;
  df_additions : Z;
  df_deletions : Z;
}.
Record GitDiffResult : Type := mkDiff { dr_files : list GitDiffFile; dr_patch : string }.
Record GitSnapshotInput : Type := mkSnapshotInput { sn_workspace : GitFilesystemContext; sn_snapshotKey : string }.
Record GitSnapshotPatchInput : Type := mkPatchInput {
  pi_workspace : GitFilesystemContext;
  pi_baseCommitSha : string;
  pi_terminalTreeSha : string;
}.
Record GitSnapshotPatchResult : Type := mkPatch {
  pr_baseCommitSha : string;
  pr_terminalTreeSha : string;
  pr_patch : string;
}.
Record GitWorkspaceSnapshot : Type := mkSnapshot {
  ws_runId : string;
  ws_filesystemRoot : string;
  ws_headSha : string;
  ws_treeId : string;
}.
Record GitSnapshotDiffInput : Type := mkDiffInput {
  di_workspace : GitFilesystemContext;
  di_start : GitWorkspaceSnapshot;
  di_terminal : GitWorkspaceSnapshot;
}.

(** * Validation *)

(** [/^[a-f0-9]{40,64}$/u] and [/^[A-Za-z0-9_-]{1,160}$/u] *)
Definition OBJECT_ID_PATTERN : string -> bool := GitObjectIdSchema.
Definition SNAPSHOT_KEY_PATTERN : string -> bool := snapshot_key.

Definition validateSnapshotKey (value : string) : GR string :=
  if SNAPSHOT_KEY_PATTERN value then Ok value else invalid_input "Invalid snapshot key" [].

Definition validateObjectId (value : string) : GR string :=
  if OBJECT_ID_PATTERN value then Ok value
  else Err (GitServiceError git_command_failed "Git returned an invalid object ID" []).

Definition assertSnapshotIdentity (snapshot : GitWorkspaceSnapshot) (runId filesystemRoot : string) : GR unit :=
  if negb (String.eqb (ws_runId snapshot) runId) || negb (String.eqb (ws_filesystemRoot snapshot) filesystemRoot)
  then invalid_input "Snapshot belongs to another workspace" []
  else _ ← validateObjectId (ws_treeId snapshot); Ok tt.

(** * Reading a diff *)

Definition splitGitRecords (output : string) : list string :=
  List.filter (fun record => negb (String.eqb record ""))
    (List.concat (map (split_on LF) (split_on NUL output))).

Definition diff_statuses : list (ascii * GitChangedFileStatus) :=
  [("A"%char, fs_added); ("C"%char, fs_copied); ("D"%char, fs_deleted); ("M"%char, fs_modified);
   ("R"%char, fs_renamed); ("T"%char, fs_type_changed); ("U"%char, fs_unmerged)].

(** [/^[ACDMRTU]\d*$/u] *)
Definition isStandaloneStatusToken (value : string) : bool :=
  match value with
  | String c digits => existsb (fun '(code, _) => Ascii.eqb c code) diff_statuses && str_forall is_digit digits
  | EmptyString => false
  end.

Definition malformed {A} (message : string) : GR A := Err (GitServiceError malformed_status_output message []).

Definition mapStatus (token : string) : GR GitChangedFileStatus :=
  match first_char token with
  | Some c => match List.find (fun '(code, _) => Ascii.eqb c code) diff_statuses with
              | Some (_, status) => Ok status
              | None => malformed "Invalid diff status"
              end
  | None => malformed "Invalid diff status"
  end.

Definition is_move (status : GitChangedFileStatus) : bool :=
  match status with fs_renamed | fs_copied => true | _ => false end.

(** A file of [parseNameStatus], before its statistics *)
Record NamedFile : Type := mkNamed {
  nf_path : string;
  nf_previousPath : option string;
  nf_status : GitChangedFileStatus;
}.

Definition changed_file (statusToken path : string) (nextPath : option string) : GR NamedFile :=
  status ← mapStatus statusToken;
  if String.eqb path "" || (is_move status && negb (is_some (truthy nextPath))) then
    malformed "Git diff omitted a changed file path"
  else if is_move status then Ok (mkNamed (default "" nextPath) (Some path) status)
  else Ok (mkNamed path None status).

(** The loop over the records, which takes one or two more of them after a
    status that stands alone. *)
Fixpoint parse_name_records (records : list string) (files : list NamedFile) : GR (list NamedFile) :=
  match records with
  | [] => Ok files
  | record :: rest =>
      let fields := split_on TAB record in
      let statusToken := default "" (fields !! 0%nat) in
      let parsedPath := default "" (fields !! 1%nat) in
      let parsedNextPath := fields !! 2%nat in
      if String.eqb parsedPath "" && isStandaloneStatusToken statusToken then
        status ← mapStatus statusToken;
        match is_move status, rest with
        | true, path :: nextPath :: rest' =>
            file ← changed_file statusToken path (Some nextPath); parse_name_records rest' (files ++ [file])
        | false, path :: rest' =>
            file ← changed_file statusToken path parsedNextPath; parse_name_records rest' (files ++ [file])
        | _, _ =>
            file ← changed_file statusToken (default "" (head rest)) (Some ""); Ok (files ++ [file])
        end
      else
        file ← changed_file statusToken parsedPath parsedNextPath;
        parse_name_records rest (files ++ [file])
  end.
Definition parseNameStatus (output : string) : GR (list NamedFile) :=
  parse_name_records (splitGitRecords output) [].

Section Snapshot.
Context `{!NumberTexts} `{!GitCommandExecutor}.

Definition parseCount (value : option string) : GR Z :=
  match value with
  | None => malformed "Invalid diff statistic"
  | Some value =>
      if String.eqb value "-" then Ok 0
      else match Number_of value with
           | Some (NInt count) =>
               if is_safe_integer count && (0 <=? count) then Ok count
               else malformed "Invalid diff statistic"
           | _ => malformed "Invalid diff statistic"
           end
  end.

Definition numstat_line (line : string) : GR (Z * Z) :=
  let fields := split_on TAB line in
  additions ← parseCount (fields !! 0%nat);
  deletions ← parseCount (fields !! 1%nat);
  Ok (additions, deletions).
Definition parseNumstat (output : string) : GR (list (Z * Z)) :=
  res_map numstat_line (splitGitRecords output).

Definition mergeDiffFiles (nameOutput statOutput : string) : GR (list GitDiffFile) :=
  files ← parseNameStatus nameOutput;
  stats ← parseNumstat statOutput;
  Ok (imap (fun index file =>
              let '(additions, deletions) := default (0, 0) (stats !! index) in
              mkDiffFile (nf_path file) (nf_previousPath file) (nf_status file) additions deletions) files).

(** * Commands *)

Definition snapshot_executeGit (runId cwd : string) (args : list string) (environment : option (dict string))
    : git string :=
  result ← executor_execute (mkCommand runId cwd args None environment (Some DEFAULT_GIT_COMMAND_TIMEOUT_MS));
  if negb (exitCode result =? 0) then
    throw (createGitCommandFailedError args (exitCode result) (trim (stderr result)))
  else mret (stdout result).

Definition readGitValue (runId cwd : string) (args : list string) (environment : option (dict string))
    (trimmed : bool) : git string :=
  output ← snapshot_executeGit runId cwd args environment;
  mret (if trimmed then trim output else output).

Definition captureGitWorkspaceSnapshot (input : GitSnapshotInput) : git GitWorkspaceSnapshot :=
  runId ← lift (RunId_parse (fs_runId (sn_workspace input)));
  filesystemRoot ← lift (validateWorkspaceRoot (fs_filesystemRoot (sn_workspace input)));
  snapshotKey ← lift (validateSnapshotKey (sn_snapshotKey input));
  indexPath ← readGitValue runId filesystemRoot
                ["rev-parse"; "--git-path"; "index.legioncode-" +:+ snapshotKey] None true;
  let environment := Some [("GIT_INDEX_FILE", indexPath)] in
  _ ← snapshot_executeGit runId filesystemRoot ["read-tree"; "HEAD"] environment;
  _ ← snapshot_executeGit runId filesystemRoot ["add"; "-A"] environment;
  tree ← readGitValue runId filesystemRoot ["write-tree"] environment true;
  treeId ← lift (validateObjectId tree);
  head ← readGitValue runId filesystemRoot ["rev-parse"; "HEAD"] None true;
  headSha ← lift (validateObjectId head);
  mret (mkSnapshot runId filesystemRoot headSha treeId).

Definition diffGitWorkspaceSnapshots (input : GitSnapshotDiffInput) : git GitDiffResult :=
  runId ← lift (RunId_parse (fs_runId (di_workspace input)));
  filesystemRoot ← lift (validateWorkspaceRoot (fs_filesystemRoot (di_workspace input)));
  _ ← lift (assertSnapshotIdentity (di_start input) runId filesystemRoot);
  _ ← lift (assertSnapshotIdentity (di_terminal input) runId filesystemRoot);
  let range := [ws_treeId (di_start input); ws_treeId (di_terminal input)] in
  names ← readGitValue runId filesystemRoot (["diff"; "--name-status"; "--find-renames"] ++ range) None false;
  stats ← readGitValue runId filesystemRoot (["diff"; "--numstat"; "--find-renames"] ++ range) None false;
  patch ← readGitValue runId filesystemRoot
            (["diff"; "--no-ext-diff"; "--find-renames"; "--binary"] ++ range) None false;
  files ← lift (mergeDiffFiles names stats);
  mret (mkDiff files patch).

Definition exportGitWorkspaceSnapshotPatch (input : GitSnapshotPatchInput) : git GitSnapshotPatchResult :=
  runId ← lift (RunId_parse (fs_runId (pi_workspace input)));
  filesystemRoot ← lift (validateWorkspaceRoot (fs_filesystemRoot (pi_workspace input)));
  baseCommitSha ← lift (validateObjectId (pi_baseCommitSha input));
  terminalTreeSha ← lift (validateObjectId (pi_terminalTreeSha input));
  patch ← readGitValue runId filesystemRoot
            ["diff"; "--no-ext-diff"; "--binary"; "--full-index"; "--no-renames"; baseCommitSha; terminalTreeSha]
            None false;
  mret (mkPatch baseCommitSha terminalTreeSha patch).
End Snapshot.
