(* ===== verification/GitService.v ===== *)
(** [packages/git-service/src/GitService.ts]: [DefaultGitService], one
    definition per method, over the executor's log of commands. *)
From S2P Require Import Prelude Js Text Protocol GitStatus GitRefs GitSnapshot.
From Stdlib Require Import Ascii.
From stdpp Require Import sorting.
#[local] Open Scope Z_scope.

(** * types.ts *)

Record GitWorkspaceContext : Type := mkWorkspace {
  wc_runId : string;
  wc_filesystemRoot : string;
  wc_workingBranch : string;
}.
(** A [GitWorkspaceContext] where a [GitFilesystemContext] is asked for *)
Definition filesystem_of (w : GitWorkspaceContext) : GitFilesystemContext :=
  mkFilesystem (wc_runId w) (wc_filesystemRoot w).

Record GitDiffInput : Type := mkDiffRequest {
  gd_workspace : GitFilesystemContext;
  gd_paths : list string;
  gd_staged : bool;
}.
Record GitFileLineCount : Type := mkLineCount { lc_path : string; lc_additions : Z; lc_deletions : Z }.
Record GitUntrackedFileDiffResult : Type := mkUntracked { ut_path : string; ut_patch : string }.
Inductive git_config_key : Type := k_user_name | k_user_email | k_remote_origin_url.
Definition config_key_text (k : git_config_key) : string :=
  match k with k_user_name => "user.name" | k_user_email => "user.email" | k_remote_origin_url => "remote.origin.url" end.
Record GitCapturePatchInput : Type := mkCapture {
  cp_workspace : GitFilesystemContext;
  cp_internalPathPrefix : option string;
  cp_baselineTree : option string;
  cp_paths : option (list string);
}.
Record GitPatchCaptureResult : Type := mkCaptured {
  pc_patch : string;
  pc_baseCommitSha : option string;
  pc_branch : option string;
}.
Record GitCommitIdentity : Type := mkIdentity { id_name : string; id_email : string }.
Record GitCommitInput : Type := mkCommit {
  ci_workspace : GitFilesystemContext;
  ci_paths : list string;
  ci_message : string;
  ci_author : GitCommitIdentity;
}.
Record GitCommitResult : Type := mkCommitted {
  cr_commitSha : string;
  cr_branchName : string;
  cr_committedPaths : list string;
}.
Record GitPushInput : Type := mkPush {
  ps_workspace : GitWorkspaceContext;
  ps_remoteName : string;
  ps_authEnvironment : option (dict string);
}.
Record GitPushResult : Type := mkPushed { pu_remoteName : string; pu_branchName : string; pu_headSha : string }.
Record GitPullInput : Type := mkPull {
  pl_workspace : GitFilesystemContext;
  pl_remoteName : string;
  pl_branchName : option string;
  pl_authEnvironment : option (dict string);
}.
Record GitBranchInput : Type := mkBranchInput {
  bi_workspace : GitFilesystemContext;
  bi_branchName : string;
  bi_startPoint : option string;
}.
Record GitBranchResult : Type := mkBranchResult { br_branchName : string; br_message : string }.

(** * Constants and functions of the module *)

Definition GIT_DIFF_ARGS : list string := ["diff"; "--no-ext-diff"; "--find-renames"; "--unified=999999"].

(** [/[\0\r\n]/u] *)
Definition GIT_COMMIT_MESSAGE_PATTERN (message : string) : bool :=
  has_char NUL message || has_char CR message || has_char LF message.

(** [/pathspec .* did not match any file(?:\(s\))? known to git/i] *)
Fixpoint missing_after (s : string) : bool :=
  startsWith " did not match any file known to git" s || startsWith " did not match any file(s) known to git" s ||
  match s with
  | String c s' => negb (Ascii.eqb c LF || Ascii.eqb c CR) && missing_after s'
  | EmptyString => false
  end.
Fixpoint missing_from (s : string) : bool :=
  (startsWith "pathspec " s && missing_after (slice_from 9 s)) ||
  match s with String _ s' => missing_from s' | EmptyString => false end.
Definition BRANCH_PATHSPEC_MISSING_PATTERN (stderr : string) : bool := missing_from (toLowerCase stderr).

Definition parseNullDelimitedConfig (stdout : string) : dict string :=
  fold_left (fun values entry =>
    if String.eqb entry "" then values
    else match cut LF entry with
         | None => values
         | Some (key, value) => dset key value values
         end) (split_on NUL stdout) [].

Definition getCommandErrorText (result : GitCommandExecutionResult) : string :=
  if 0 <? str_length (trim (stderr result)) then stderr result else stdout result.

Definition validateCommitMessage (message : string) : GR string :=
  let normalized := trim message in
  if String.eqb normalized "" || GIT_COMMIT_MESSAGE_PATTERN message then
    invalid_input "Commit message is required and cannot contain newlines" []
  else Ok normalized.

Definition parseNumstatLine (line : string) : option (string * (Z * Z)) :=
  let fields := split_on TAB (trim line) in
  let path := Js.join (String TAB "") (drop 2 fields) in
  let additions := parseInt (default "" (fields !! 0%nat)) in
  let deletions := parseInt (default "" (fields !! 1%nat)) in
  if String.eqb path "" then None
  else match additions, deletions with
       | Some additions, Some deletions => Some (path, (additions, deletions))
       | _, _ => None
       end.

Definition mergeNumstatIntoMap (stdout : string) (counts : dict (Z * Z)) : dict (Z * Z) :=
  fold_left (fun counts line =>
    match parseNumstatLine line with
    | None => counts
    | Some (path, (additions, deletions)) =>
        let '(a, d) := default (0, 0) (dget path counts) in
        dset path (a + additions, d + deletions) counts
    end) (split_on LF stdout) counts.

Definition readFirstNumstatAddition (stdout : string) : option Z :=
  '(_, (additions, _)) ← head (omap parseNumstatLine (split_on LF stdout));
  Some additions.

Definition hasExactPath (stdout path : string) : bool :=
  existsb (fun candidate => String.eqb (trim candidate) path) (split_on LF stdout).

Definition shouldKeepPatchPath (path : string) (internalPathPrefix : option string) : bool :=
  if String.eqb path "" then false
  else match truthy internalPathPrefix with
       | None => true
       | Some prefix => negb (String.eqb path prefix) && negb (startsWith (prefix +:+ "/") path)
       end.

Definition toPathspecArgs (paths : option (list string)) : GR (list string) :=
  match paths with
  | None | Some [] => Ok []
  | Some paths => valid ← validateExplicitRepoPaths paths; Ok ("--" :: valid)
  end.

Definition validateGitObjectId (value : string) : GR string :=
  if OBJECT_ID_PATTERN value then Ok value else invalid_input "Invalid Git object id" [].

(** [/\S/u.test(patch)] *)
Definition hasPatchContent (patch : string) : bool := negb (str_forall is_space patch).

(** [new URL(text)]: its host and path name, or [None] when it throws *)
Class RepoUrls : Type := { parse_repo_url : string -> option (string * string) }.

Fixpoint strip_slashes (s : string) : string :=
  match s with String c s' => if Ascii.eqb c "/" then strip_slashes s' else s | EmptyString => "" end.
Fixpoint strip_end_slashes (s : string) : string :=
  match s with
  | String c s' =>
      let r := strip_end_slashes s' in
      if Ascii.eqb c "/" && String.eqb r "" then "" else String c r
  | EmptyString => ""
  end.
(** [s.replace(/\.git$/iu, "")] *)
Definition strip_git (s : string) : string :=
  if endsWith ".git" (toLowerCase s) then slice 0 (String.length s - 4) s else s.

Definition normalizeRepoIdentityPath (pathname : string) : option string :=
  let normalized := toLowerCase (strip_end_slashes (strip_git (strip_slashes pathname))) in
  if String.eqb normalized "" then None else Some normalized.

(** The groups of [/^git@([^:]+):(.+)$/] *)
Definition match_ssh (url : string) : option (string * string) :=
  if startsWith "git@" url then
    '(host, path) ← cut ":" (slice_from 4 url);
    if String.eqb host "" || String.eqb path "" || has_char LF path || has_char CR path then None
    else Some (host, path)
  else None.

Section Urls.
Context `{!RepoUrls}.
Definition normalizeRepoIdentity (remoteUrl : string) : option string :=
  let trimmed := trim remoteUrl in
  if String.eqb trimmed "" then None
  else match match_ssh trimmed with
       | Some (host, path) =>
           normalizedPath ← normalizeRepoIdentityPath path;
           Some (toLowerCase host +:+ "/" +:+ normalizedPath)
       | None =>
           '(host, pathname) ← parse_repo_url trimmed;
           normalizedPath ← normalizeRepoIdentityPath pathname;
           Some (toLowerCase host +:+ "/" +:+ normalizedPath)
       end.
End Urls.

Definition text_le (x y : string) : Prop := String.leb x y = true.
#[export] Instance text_le_dec : RelDecision text_le.
Proof. intros x y. unfold text_le. apply _. Defined.

(** The environment itself, or [undefined] for an empty one *)
Definition validateGitAuthEnvironment (environment : option (dict string)) : GR (option (dict string)) :=
  match environment with
  | None | Some [] => Ok None
  | Some environment =>
      let keys := merge_sort text_le (dkeys environment) in
      let lower k := toLowerCase <$> dget k environment in
      if negb (String.eqb (Js.join "," keys) "GIT_CONFIG_COUNT,GIT_CONFIG_KEY_0,GIT_CONFIG_VALUE_0") ||
         negb (bool_decide (dget "GIT_CONFIG_COUNT" environment = Some "1")) ||
         negb (bool_decide (lower "GIT_CONFIG_KEY_0" = Some "http.extraheader")) ||
         negb (match lower "GIT_CONFIG_VALUE_0" with
               | Some value => startsWith "authorization: basic " value
               | None => false
               end)
      then invalid_input "Git auth environment must be the canonical HTTP extraheader config" []
      else Ok (Some environment)
  end.

(** * DefaultGitService *)

(** [crypto.randomUUID()], after the commands executed before it *)
Class RandomUuids : Type := { randomUUID : list GitCommandExecutionInput -> string }.

Section Service.
Context `{!NumberTexts} `{!GitCommandExecutor} `{!RandomUuids} `{!RepoUrls}.

Definition executeGit (workspace : GitFilesystemContext) (args : list string) (environment : option (dict string))
    : git GitCommandExecutionResult :=
  runId ← lift (RunId_parse (fs_runId workspace));
  cwd ← lift (validateWorkspaceRoot (fs_filesystemRoot workspace));
  executor_execute (mkCommand runId cwd args None environment (Some DEFAULT_GIT_COMMAND_TIMEOUT_MS)).

Definition command_failed (args : list string) (result : GitCommandExecutionResult) : git_error :=
  createGitCommandFailedError args (exitCode result) (getCommandErrorText result).

Definition executeRequired (workspace : GitFilesystemContext) (args : list string)
    (environment : option (dict string)) : git GitCommandExecutionResult :=
  result ← executeGit workspace args environment;
  if negb (exitCode result =? 0) then throw (command_failed args result) else mret result.

(** The command and its check that most methods share *)
Definition execute_checked (runId cwd : string) (args : list string) (environment : option (dict string))
    : git GitCommandExecutionResult :=
  result ← executor_execute (mkCommand runId cwd args None environment (Some DEFAULT_GIT_COMMAND_TIMEOUT_MS));
  if negb (exitCode result =? 0) then throw (command_failed args result) else mret result.

Definition getStatus (inputRunId inputRoot : string) : git GitStatusResult :=
  runId ← lift (RunId_parse inputRunId);
  workspaceRoot ← lift (validateWorkspaceRoot inputRoot);
  result ← execute_checked runId workspaceRoot GIT_STATUS_PORCELAIN_V2_ARGS None;
  lift (parsePorcelainV2Status (stdout result)).

Definition getDiff (input : GitDiffInput) : git GitDiffResult :=
  runId ← lift (RunId_parse (fs_runId (gd_workspace input)));
  workspaceRoot ← lift (validateWorkspaceRoot (fs_filesystemRoot (gd_workspace input)));
  paths ← lift (if (0 <? length (gd_paths input))%nat then validateExplicitRepoPaths (gd_paths input) else Ok []);
  let args := GIT_DIFF_ARGS ++ (if gd_staged input then ["--cached"] else []) ++
              (if (0 <? length paths)%nat then "--" :: paths else []) in
  result ← execute_checked runId workspaceRoot args None;
  mret (mkDiff [] (stdout result)).

Definition mergeNumstat (workspaceRoot runId : string) (counts : dict (Z * Z)) (args : list string)
    : git (dict (Z * Z)) :=
  runId ← lift (RunId_parse runId);
  result ← executor_execute (mkCommand runId workspaceRoot args None None (Some DEFAULT_GIT_COMMAND_TIMEOUT_MS));
  mret (if exitCode result =? 0 then mergeNumstatIntoMap (stdout result) counts else counts).

(** [git diff --no-index] exits with 1 when the files differ. *)
Definition diff_exit (result : GitCommandExecutionResult) : bool :=
  (exitCode result =? 0) || (exitCode result =? 1).

Definition list_untracked_args (path : string) : list string :=
  ["ls-files"; "--others"; "--exclude-standard"; "--"; path].

Definition countUntrackedLines (workspace : GitFilesystemContext) (path : string) : git (option Z) :=
  result ← executeGit workspace (list_untracked_args path) None;
  if negb (exitCode result =? 0) || negb (hasExactPath (stdout result) path) then mret None
  else
    countResult ← executeGit workspace ["diff"; "--no-index"; "--numstat"; "--"; "/dev/null"; path] None;
    if negb (diff_exit countResult) then mret None
    else mret (readFirstNumstatAddition (stdout countResult)).

(** The loop over the paths that have no counts yet *)
Fixpoint count_untracked (workspace : GitFilesystemContext) (paths : list string) (counts : dict (Z * Z))
    : git (dict (Z * Z)) :=
  match paths with
  | [] => mret counts
  | path :: rest =>
      if is_some (dget path counts) then count_untracked workspace rest counts
      else
        lineCount ← countUntrackedLines workspace path;
        count_untracked workspace rest
          (match lineCount with Some n => dset path (n, 0) counts | None => counts end)
  end.

Definition getFileLineCounts (workspace : GitFilesystemContext) (inputPaths : list string)
    : git (list GitFileLineCount) :=
  runId ← lift (RunId_parse (fs_runId workspace));
  workspaceRoot ← lift (validateWorkspaceRoot (fs_filesystemRoot workspace));
  paths ← lift (validateExplicitRepoPaths inputPaths);
  counts ← mergeNumstat workspaceRoot runId [] ["diff"; "--numstat"];
  counts ← mergeNumstat workspaceRoot runId counts ["diff"; "--cached"; "--numstat"];
  counts ← count_untracked workspace paths counts;
  mret (omap (fun path => '(additions, deletions) ← dget path counts;
                          Some (mkLineCount path additions deletions)) paths).

Definition untracked_diff_args (path : string) : list string :=
  ["diff"; "--binary"; "--no-index"; "--"; "/dev/null"; path].

Definition getUntrackedFileDiff (workspace : GitFilesystemContext) (inputPath : string)
    : git (option GitUntrackedFileDiffResult) :=
  path ← lift (validateRepoRelativePath inputPath);
  result ← executeGit workspace (list_untracked_args path) None;
  if negb (exitCode result =? 0) || negb (hasExactPath (stdout result) path) then mret None
  else
    diffResult ← executeGit workspace (untracked_diff_args path) None;
    if negb (diff_exit diffResult) then throw (command_failed (untracked_diff_args path) diffResult)
    else mret (Some (mkUntracked path (stdout diffResult))).

Definition readConfigValues (workspace : GitFilesystemContext) : git (dict string) :=
  result ← executeGit workspace ["config"; "--null"; "--list"] None;
  mret (if negb (exitCode result =? 0) then [] else parseNullDelimitedConfig (stdout result)).

Definition readConfigValue (workspace : GitFilesystemContext) (key : git_config_key) : git (option string) :=
  values ← readConfigValues workspace;
  mret (truthy (dget (config_key_text key) values)).

Definition getRepoIdentity (workspace : GitFilesystemContext) : git (option string) :=
  remoteUrl ← readConfigValue workspace k_remote_origin_url;
  mret (url ← truthy remoteUrl; normalizeRepoIdentity url).

Definition readOptionalGitValue (workspace : GitFilesystemContext) (args : list string) : git (option string) :=
  result ← executeGit workspace args None;
  mret (if negb (exitCode result =? 0) then None else truthy (Some (trim (stdout result)))).

Definition readRequiredGitValue (workspace : GitFilesystemContext) (args : list string) : git string :=
  runId ← lift (RunId_parse (fs_runId workspace));
  workspaceRoot ← lift (validateWorkspaceRoot (fs_filesystemRoot workspace));
  result ← execute_checked runId workspaceRoot args None;
  mret (trim (stdout result)).

(** ** capturePatch *)

Definition createBaselineIndex (input : GitCapturePatchInput) : git (dict string) :=
  baselineTree ← lift (validateGitObjectId (default "" (cp_baselineTree input)));
  uuid ← gets randomUUID;
  let environment := [("GIT_INDEX_FILE", "/tmp/legioncode-baseline-" +:+ uuid +:+ ".index")] in
  _ ← executeRequired (cp_workspace input) ["read-tree"; baselineTree] (Some environment);
  mret environment.

Definition captureTrackedPatch (input : GitCapturePatchInput) : git string :=
  baseline ← (if is_some (truthy (cp_baselineTree input))
              then environment ← createBaselineIndex input; mret (Some environment)
              else mret None);
  pathspec ← lift (toPathspecArgs (cp_paths input));
  result ← executeRequired (cp_workspace input)
             (["diff"; "--binary"; "--no-ext-diff"; "--find-renames"; "--unified=999999"] ++
              (if is_some baseline then [] else ["HEAD"]) ++ pathspec) baseline;
  mret (stdout result).

Definition listBaselinePaths (input : GitCapturePatchInput) : git (list string) :=
  baselineTree ← lift (validateGitObjectId (default "" (cp_baselineTree input)));
  pathspec ← lift (toPathspecArgs (cp_paths input));
  result ← executeRequired (cp_workspace input) (["ls-tree"; "-r"; "--name-only"; baselineTree] ++ pathspec) None;
  mret (List.filter (fun path => negb (String.eqb path "")) (split_lines (stdout result))).

Definition listUntrackedPaths (input : GitCapturePatchInput) : git (list string) :=
  result ← executeRequired (cp_workspace input) ["ls-files"; "-z"; "--others"; "--exclude-standard"] None;
  mret (List.filter (fun path => shouldKeepPatchPath path (cp_internalPathPrefix input))
          (split_on NUL (stdout result))).

Definition patch_of_path (input : GitCapturePatchInput) (path : string) : git string :=
  result ← executeGit (cp_workspace input) (untracked_diff_args path) None;
  if negb (diff_exit result) then throw (command_failed (untracked_diff_args path) result)
  else mret (stdout result).

Definition captureUntrackedPatch (input : GitCapturePatchInput) : git string :=
  baselinePaths ← (if is_some (truthy (cp_baselineTree input)) then listBaselinePaths input else mret []);
  includedPaths ← lift (match cp_paths input with
                        | None | Some [] => Ok None
                        | Some paths => valid ← validateExplicitRepoPaths paths; Ok (Some valid)
                        end);
  untracked ← listUntrackedPaths input;
  let paths := List.filter (fun path =>
    match includedPaths with Some included => bool_decide (path ∈ included) | None => true end &&
    negb (bool_decide (path ∈ baselinePaths))) untracked in
  patches ← map_of paths (patch_of_path input);
  mret (Js.join (String LF "") (List.filter hasPatchContent patches)).

Definition capturePatch (input : GitCapturePatchInput) : git GitPatchCaptureResult :=
  trackedPatch ← captureTrackedPatch input;
  untrackedPatch ← captureUntrackedPatch input;
  baseCommitSha ← readOptionalGitValue (cp_workspace input) ["rev-parse"; "HEAD"];
  branch ← readOptionalGitValue (cp_workspace input) ["branch"; "--show-current"];
  mret (mkCaptured (Js.join (String LF "") (List.filter hasPatchContent [trackedPatch; untrackedPatch]))
          baseCommitSha branch).

(** ** Changing the repository *)

Definition mutateExplicitPaths (workspace : GitFilesystemContext) (inputPaths : list string)
    (command : string) (revision : option string) : git GitStatusResult :=
  runId ← lift (RunId_parse (fs_runId workspace));
  workspaceRoot ← lift (validateWorkspaceRoot (fs_filesystemRoot workspace));
  paths ← lift (validateExplicitRepoPaths inputPaths);
  let args := match revision with
              | Some revision => [command; revision; "--"] ++ paths
              | None => [command; "--"] ++ paths
              end in
  _ ← execute_checked runId workspaceRoot args None;
  getStatus runId workspaceRoot.

Definition stageFiles (workspace : GitFilesystemContext) (paths : list string) : git GitStatusResult :=
  mutateExplicitPaths workspace paths "add" None.
Definition unstageFiles (workspace : GitFilesystemContext) (paths : list string) : git GitStatusResult :=
  mutateExplicitPaths workspace paths "reset" (Some "HEAD").

Definition writeGitConfigValue (workspace : GitFilesystemContext) (key : git_config_key) (value : string)
    : git unit :=
  runId ← lift (RunId_parse (fs_runId workspace));
  workspaceRoot ← lift (validateWorkspaceRoot (fs_filesystemRoot workspace));
  _ ← execute_checked runId workspaceRoot ["config"; config_key_text key; value] None;
  mret tt.

Definition writeCommitAuthor (input : GitCommitInput) : git unit :=
  _ ← writeGitConfigValue (ci_workspace input) k_user_name (id_name (ci_author input));
  writeGitConfigValue (ci_workspace input) k_user_email (id_email (ci_author input)).

Definition commit (input : GitCommitInput) : git GitCommitResult :=
  let workspace := ci_workspace input in
  runId ← lift (RunId_parse (fs_runId workspace));
  workspaceRoot ← lift (validateWorkspaceRoot (fs_filesystemRoot workspace));
  paths ← lift (validateExplicitRepoPaths (ci_paths input));
  message ← lift (validateCommitMessage (ci_message input));
  _ ← stageFiles workspace paths;
  _ ← writeCommitAuthor input;
  _ ← execute_checked runId workspaceRoot ["commit"; "-m"; message] None;
  commitSha ← readRequiredGitValue workspace ["rev-parse"; "HEAD"];
  branchName ← readRequiredGitValue workspace ["branch"; "--show-current"];
  mret (mkCommitted commitSha branchName paths).

Definition push (input : GitPushInput) : git GitPushResult :=
  let workspace := filesystem_of (ps_workspace input) in
  runId ← lift (RunId_parse (fs_runId workspace));
  workspaceRoot ← lift (validateWorkspaceRoot (fs_filesystemRoot workspace));
  branchName ← lift (validateBranchNamePolicy (wc_workingBranch (ps_workspace input)));
  remoteName ← lift (validateRemoteName (ps_remoteName input));
  let args := ["push"; "-u"; remoteName; "HEAD:" +:+ branchName] in
  environment ← lift (validateGitAuthEnvironment (ps_authEnvironment input));
  _ ← execute_checked runId workspaceRoot args environment;
  headSha ← readRequiredGitValue workspace ["rev-parse"; "HEAD"];
  mret (mkPushed remoteName branchName headSha).

Definition pull (input : GitPullInput) : git unit :=
  remoteName ← lift (validateRemoteName (pl_remoteName input));
  branch ← lift (match truthy (pl_branchName input) with
                 | Some branchName =>
                     if 0 <? str_length (trim branchName)
                     then name ← validateBranchNamePolicy branchName; Ok [name]
                     else Ok []
                 | None => Ok []
                 end);
  environment ← lift (validateGitAuthEnvironment (pl_authEnvironment input));
  _ ← executeRequired (pl_workspace input) (["pull"; "--ff-only"; remoteName] ++ branch) environment;
  mret tt.

Definition fetch (workspace : GitFilesystemContext) (inputRemote : string) (auth : option (dict string))
    : git unit :=
  remoteName ← lift (validateRemoteName inputRemote);
  environment ← lift (validateGitAuthEnvironment auth);
  _ ← executeRequired workspace ["fetch"; remoteName] environment;
  mret tt.

Definition createBranch (input : GitBranchInput) : git GitBranchResult :=
  branchName ← lift (validateBranchNamePolicy (bi_branchName input));
  start ← lift (match truthy (bi_startPoint input) with
                | Some startPoint =>
                    if OBJECT_ID_PATTERN startPoint then Ok [startPoint]
                    else invalid_input "Git branch start point must be an immutable object id" []
                | None => Ok []
                end);
  _ ← executeRequired (bi_workspace input) (["checkout"; "-b"; branchName] ++ start) None;
  mret (mkBranchResult branchName ("Created and switched to branch: " +:+ branchName)).

Definition switchBranch (input : GitBranchInput) : git GitBranchResult :=
  branchName ← lift (validateBranchNamePolicy (bi_branchName input));
  result ← executeGit (bi_workspace input) ["checkout"; branchName] None;
  if exitCode result =? 0 then mret (mkBranchResult branchName ("Switched to branch: " +:+ branchName))
  else if BRANCH_PATHSPEC_MISSING_PATTERN (stderr result) then
    _ ← executeRequired (bi_workspace input) ["checkout"; "--track"; "origin/" +:+ branchName] None;
    mret (mkBranchResult branchName ("Switched to tracking branch: " +:+ branchName))
  else throw (command_failed ["checkout"; branchName] result).

Definition listBranches (workspace : GitFilesystemContext) : git string :=
  result ← executeRequired workspace ["branch"; "-a"] None;
  mret (or_text (stdout result) "No branches found").

Definition validateBranch (input : GitBranchValidationInput) : git GitBranchValidationResult :=
  runId ← lift (RunId_parse (bv_runId input));
  workspaceRoot ← lift (validateWorkspaceRoot (bv_workspaceRoot input));
  validateBranchWithGit (mkBranchValidation runId workspaceRoot (bv_branchName input)).

(** ** The interface [GitService] *)

Inductive git_call : Type :=
| g_getStatus (runId workspaceRoot : string)
| g_getDiff (input : GitDiffInput)
| g_getFileLineCounts (workspace : GitFilesystemContext) (paths : list string)
| g_getUntrackedFileDiff (workspace : GitFilesystemContext) (path : string)
| g_getRepoIdentity (workspace : GitFilesystemContext)
| g_readConfigValue (workspace : GitFilesystemContext) (key : git_config_key)
| g_capturePatch (input : GitCapturePatchInput)
| g_captureSnapshot (input : GitSnapshotInput)
| g_exportSnapshotPatch (input : GitSnapshotPatchInput)
| g_getSnapshotDiff (input : GitSnapshotDiffInput)
| g_stageFiles (workspace : GitFilesystemContext) (paths : list string)
| g_unstageFiles (workspace : GitFilesystemContext) (paths : list string)
| g_commit (input : GitCommitInput)
| g_push (input : GitPushInput)
| g_pull (input : GitPullInput)
| g_fetch (workspace : GitFilesystemContext) (remoteName : string) (auth : option (dict string))
| g_createBranch (input : GitBranchInput)
| g_switchBranch (input : GitBranchInput)
| g_listBranches (workspace : GitFilesystemContext)
| g_validateBranch (input : GitBranchValidationInput).

(** A call, without what it returns *)
Definition void {A} (m : git A) : git unit := _ ← m; mret tt.
Definition run_call (c : git_call) : git unit :=
  match c with
  | g_getStatus runId root => void (getStatus runId root)
  | g_getDiff input => void (getDiff input)
  | g_getFileLineCounts workspace paths => void (getFileLineCounts workspace paths)
  | g_getUntrackedFileDiff workspace path => void (getUntrackedFileDiff workspace path)
  | g_getRepoIdentity workspace => void (getRepoIdentity workspace)
  | g_readConfigValue workspace key => void (readConfigValue workspace key)
  | g_capturePatch input => void (capturePatch input)
  | g_captureSnapshot input => void (captureGitWorkspaceSnapshot input)
  | g_exportSnapshotPatch input => void (exportGitWorkspaceSnapshotPatch input)
  | g_getSnapshotDiff input => void (diffGitWorkspaceSnapshots input)
  | g_stageFiles workspace paths => void (stageFiles workspace paths)
  | g_unstageFiles workspace paths => void (unstageFiles workspace paths)
  | g_commit input => void (commit input)
  | g_push input => void (push input)
  | g_pull input => pull input
  | g_fetch workspace remoteName auth => fetch workspace remoteName auth
  | g_createBranch input => void (createBranch input)
  | g_switchBranch input => void (switchBranch input)
  | g_listBranches workspace => void (listBranches workspace)
  | g_validateBranch input => void (validateBranch input)
  end.
End Service.
