(* ===== verification/GitServiceProps.v ===== *)
(** What [DefaultGitService] lets into a git command, whatever the caller and the
    repository hold: fixed words, checked values, contained paths and indexes of
    its own; and the texts of a commit, which are not checked. *)
From S2P Require Import Prelude Js Text Protocol TurnArtifacts GitStatus GitRefs GitSnapshot GitService.
From Stdlib Require Import Ascii.
From stdpp Require Import sorting.
#[local] Open Scope Z_scope.

(** * The commands the service may send *)

(** The fixed words a command starts with; options occur nowhere else. *)
Definition COMMAND_WORDS : list (list string) :=
  [GIT_STATUS_PORCELAIN_V2_ARGS; GIT_DIFF_ARGS; GIT_DIFF_ARGS ++ ["--cached"];
   ["diff"; "--numstat"]; ["diff"; "--cached"; "--numstat"];
   ["diff"; "--no-index"; "--numstat"]; ["diff"; "--binary"; "--no-index"];
   ["diff"; "--binary"; "--no-ext-diff"; "--find-renames"; "--unified=999999"];
   ["diff"; "--name-status"; "--find-renames"]; ["diff"; "--numstat"; "--find-renames"];
   ["diff"; "--no-ext-diff"; "--find-renames"; "--binary"];
   ["diff"; "--no-ext-diff"; "--binary"; "--full-index"; "--no-renames"];
   ["ls-files"; "--others"; "--exclude-standard"]; ["ls-files"; "-z"; "--others"; "--exclude-standard"];
   ["ls-tree"; "-r"; "--name-only"]; ["config"; "--null"; "--list"];
   ["rev-parse"]; ["rev-parse"; "--git-path"]; ["branch"; "--show-current"]; ["branch"; "-a"];
   BRANCH_CHECK_ARGS; ["read-tree"]; ["write-tree"]; ["add"; "-A"]; ["add"]; ["reset"];
   ["push"; "-u"]; ["pull"; "--ff-only"]; ["fetch"]; ["checkout"]; ["checkout"; "-b"]; ["checkout"; "--track"]].

(** A value git does not read as an option *)
Definition is_value (v : string) : bool := negb (String.eqb v "") && negb (startsWith "-" v).

(** A path that stays below the root of the repository *)
Definition repo_path (path : string) : Prop :=
  Forall (fun segment => segment <> "" /\ segment <> "." /\ segment <> "..") (split_on "/" path) /\
  trim path = path /\ includes backslash path = false.

(** An environment that only adds one [http.extraheader] with credentials *)
Definition auth_environment (environment : option (dict string)) : Prop :=
  exists env key value, environment = Some env /\
    Permutation (dkeys env) ["GIT_CONFIG_COUNT"; "GIT_CONFIG_KEY_0"; "GIT_CONFIG_VALUE_0"] /\
    dget "GIT_CONFIG_COUNT" env = Some "1" /\
    dget "GIT_CONFIG_KEY_0" env = Some key /\ toLowerCase key = "http.extraheader" /\
    dget "GIT_CONFIG_VALUE_0" env = Some value /\ startsWith "authorization: basic " (toLowerCase value) = true.

(** The calls that promise to leave the repository as it is *)
Definition reads_only (c : git_call) : bool :=
  match c with
  | g_stageFiles _ _ | g_unstageFiles _ _ | g_commit _ | g_push _ | g_pull _ | g_fetch _ _ _
  | g_createBranch _ | g_switchBranch _ => false
  | _ => true
  end.

Section Allowed.
Context `{!GitCommandExecutor} `{!RandomUuids}.
Implicit Types history : list GitCommandExecutionInput.

(** A path git itself listed as untracked *)
Definition listed history (path : string) : Prop :=
  exists earlier command later result, history = earlier ++ command :: later /\
    ci_args command = ["ls-files"; "-z"; "--others"; "--exclude-standard"] /\
    respond earlier command = Ok result /\ path ∈ split_on NUL (stdout result).

(** The path of an index the service made up: the one git named for
    [index.legioncode-<key>], or a temporary file with a uuid drawn before *)
Definition git_index history (path : string) : Prop :=
  exists earlier command later result key, history = earlier ++ command :: later /\
    SNAPSHOT_KEY_PATTERN key = true /\
    ci_args command = ["rev-parse"; "--git-path"; "index.legioncode-" +:+ key] /\
    respond earlier command = Ok result /\ path = trim (stdout result).
Definition temporary_index history (path : string) : Prop :=
  exists earlier later, history = earlier ++ later /\
    path = "/tmp/legioncode-baseline-" +:+ randomUUID earlier +:+ ".index".

(** An environment that only names such an index *)
Definition own_index history (environment : option (dict string)) : Prop :=
  exists path, environment = Some [("GIT_INDEX_FILE", path)] /\
    (git_index history path \/ temporary_index history path).

(** The commands that write an index are given one of these, and none of the
    commands that change branches, the work tree or a remote is sent. *)
Definition only_reads history (words : list string) (environment : option (dict string)) : Prop :=
  match head words with
  | Some word =>
      if bool_decide (word ∈ ["add"; "read-tree"; "write-tree"]) then own_index history environment
      else bool_decide (word ∈ ["diff"; "ls-files"; "ls-tree"; "config"; "rev-parse"; "branch"; "--no-optional-locks";
                                "check-ref-format"]) = true
  | None => False
  end.

Definition path_ok history (path : string) : Prop :=
  path = "/dev/null" \/ repo_path path \/ listed history path.

(** Fixed words, values, and paths behind [--] *)
Definition words_ok (reads : bool) history (args : list string) (environment : option (dict string)) : Prop :=
  exists words values paths,
    args = words ++ values ++ paths /\ words ∈ COMMAND_WORDS /\ Forall (fun v => is_value v = true) values /\
    (paths = [] \/ exists ps, paths = "--" :: ps /\ Forall (path_ok history) ps) /\
    (reads = true -> only_reads history words environment).

(** The two commands that carry a text of the caller *)
Definition text_ok (reads : bool) (args : list string) : Prop :=
  reads = false /\
  ((exists message, args = ["commit"; "-m"; message] /\ message <> "" /\ GIT_COMMIT_MESSAGE_PATTERN message = false) \/
   exists key value, args = ["config"; config_key_text key; value] /\ key <> k_remote_origin_url).

Definition allowed (reads : bool) history (command : GitCommandExecutionInput) : Prop :=
  RunIdSchema (ci_runId command) = true /\
  (exists rest, ci_cwd command = String "/" rest) /\ trim (ci_cwd command) = ci_cwd command /\
  ci_stdin command = None /\ ci_timeoutMs command = Some 30000 /\
  (ci_environment command = None \/ own_index history (ci_environment command) \/
   auth_environment (ci_environment command)) /\
  (words_ok reads history (ci_args command) (ci_environment command) \/ text_ok reads (ci_args command)).
End Allowed.

(** * What the checks let through *)

Lemma RunId_parse_Ok s a : RunId_parse s = Ok a -> a = s /\ RunIdSchema s = true.
Proof. unfold RunId_parse. destruct (RunIdSchema s) eqn:E; [by intros [= <-]|done]. Qed.

Lemma root_Ok s a :
  validateWorkspaceRoot s = Ok a -> a = s /\ (exists rest, s = String "/" rest) /\ trim s = s.
Proof.
  unfold validateWorkspaceRoot. destruct (negb _ || _) eqn:E; [done|].
  destruct (negb (startsWith _ _)) eqn:Es; [done|]. intros [= <-]. split; [done|].
  apply orb_false_iff in E as [E _]. apply negb_false_iff, String.eqb_eq in E.
  apply negb_false_iff in Es. split; [|done]. destruct s as [|c s]; [done|].
  unfold startsWith in Es. cbn [String.prefix] in Es. destruct (ascii_dec "/" c) as [<-|]; [by eexists|done].
Qed.

Lemma path_Ok p a : validateRepoRelativePath p = Ok a -> a = p /\ repo_path p.
Proof.
  unfold validateRepoRelativePath, invalid_input. destruct (negb _ || _) eqn:E; [done|].
  destruct (startsWith _ _ || _ || _) eqn:Er; [done|]. destruct (existsb _ _) eqn:Ex; [done|].
  intros [= <-]. split; [done|]. apply orb_false_iff in E as [E _]. apply negb_false_iff, String.eqb_eq in E.
  apply orb_false_iff in Er as [_ Er]. split; [|done]. apply Forall_forall. intros seg Hs.
  destruct (isUnsafePathSegment seg) eqn:Eu.
  - assert (existsb isUnsafePathSegment (split_on "/" p) = true) as Hc; [|by rewrite Hc in Ex].
    apply existsb_exists. exists seg. by rewrite <- list_elem_of_In.
  - unfold isUnsafePathSegment in Eu. rewrite !orb_false_iff, !String.eqb_neq in Eu. tauto.
Qed.

Lemma paths_Ok ps a : validateExplicitRepoPaths ps = Ok a -> a = ps /\ Forall repo_path ps.
Proof.
  unfold validateExplicitRepoPaths, invalid_input. destruct (_ =? _)%nat; [done|].
  rewrite res_map_Ok. induction 1 as [|p b ps a Hp _ [-> IH]]; [done|].
  apply path_Ok in Hp as [-> Hp]. split; [done|by constructor].
Qed.

Lemma branch_Ok b a : validateBranchNamePolicy b = Ok a -> a = b /\ is_value b = true.
Proof.
  unfold validateBranchNamePolicy. destruct (negb _ || _) eqn:E; [done|].
  destruct (startsWith "-" b) eqn:Ed; [done|]. destruct (String.eqb b "@" || _); [done|].
  destruct (hasForbiddenBranchPattern b); [done|]. intros [= <-]. split; [done|].
  apply orb_false_iff in E as [E1 E2]. apply negb_false_iff, String.eqb_eq in E1. rewrite E1 in E2.
  unfold is_value. by rewrite E2, Ed.
Qed.

Lemma value_start p c v : p c = true -> p "-"%char = false -> is_value (String c v) = true.
Proof.
  intros Hc Hp. unfold is_value, startsWith. cbn [String.prefix].
  destruct (ascii_dec "-" c) as [<-|]; [congruence|done].
Qed.

Lemma remote_Ok r a : validateRemoteName r = Ok a -> a = r /\ is_value r = true.
Proof.
  unfold validateRemoteName. destruct (negb _ || _ || _); [done|].
  destruct (REMOTE_NAME_PATTERN r) eqn:E; [|done]. cbn. intros [= <-]. split; [done|].
  destruct r as [|c r]; [done|]. cbn in E. rewrite !andb_true_iff in E. destruct E as [[E _] _].
  by apply (value_start is_alnum).
Qed.

Lemma object_value id : OBJECT_ID_PATTERN id = true -> is_value id = true.
Proof.
  unfold OBJECT_ID_PATTERN, GitObjectIdSchema. rewrite andb_true_iff. intros [Hl Hh].
  destruct id as [|c id]; [done|]. cbn in Hh. apply andb_true_iff in Hh as [Hc _].
  by apply (value_start WorkerEvents.is_lower_hex).
Qed.

Lemma object_Ok id a : validateObjectId id = Ok a -> a = id /\ is_value id = true.
Proof.
  unfold validateObjectId. destruct (OBJECT_ID_PATTERN id) eqn:E; [|done]. intros [= <-].
  split; [done|by apply object_value].
Qed.

Lemma git_object_Ok id a : validateGitObjectId id = Ok a -> a = id /\ is_value id = true.
Proof.
  unfold validateGitObjectId. destruct (OBJECT_ID_PATTERN id) eqn:E; [|done]. intros [= <-].
  split; [done|by apply object_value].
Qed.

Lemma snapshot_Ok s r f u : assertSnapshotIdentity s r f = Ok u -> is_value (ws_treeId s) = true.
Proof.
  unfold assertSnapshotIdentity. destruct (_ || _); [done|]. intros E.
  apply res_bind_Ok in E as (t & E & _). by apply object_Ok in E as [_ ?].
Qed.

(** ** The credentials *)

Lemma join_length l :
  String.length (Js.join "," l) = (sum_list_with String.length l + Nat.pred (length l))%nat.
Proof.
  induction l as [|x l IH]; [done|]. destruct l as [|y l]; [simpl; lia|].
  change (Js.join "," (x :: y :: l)) with (x +:+ "," +:+ Js.join "," (y :: l)).
  rewrite !length_append, IH. change (String.length ",") with 1%nat. simpl. lia.
Qed.

Lemma sum_lengths_perm (l l' : list string) :
  Permutation l l' -> sum_list_with String.length l = sum_list_with String.length l'.
Proof. induction 1; simpl in *; lia. Qed.

(** Keys that hold the three names and are joined to a text as long as theirs are
    just these. *)
Lemma three_keys keys :
  ["GIT_CONFIG_COUNT"; "GIT_CONFIG_KEY_0"; "GIT_CONFIG_VALUE_0"] ⊆ keys ->
  Js.join "," (merge_sort text_le keys) = "GIT_CONFIG_COUNT,GIT_CONFIG_KEY_0,GIT_CONFIG_VALUE_0" ->
  Permutation keys ["GIT_CONFIG_COUNT"; "GIT_CONFIG_KEY_0"; "GIT_CONFIG_VALUE_0"].
Proof.
  intros Hin Hj. apply NoDup_submseteq in Hin; [|by apply (bool_decide_unpack _)].
  apply submseteq_Permutation in Hin as [rest Hp]. pose proof (join_length (merge_sort text_le keys)) as Hl.
  rewrite Hj in Hl. rewrite (Permutation_length (merge_sort_Permutation text_le keys)) in Hl.
  rewrite (sum_lengths_perm _ _ (merge_sort_Permutation text_le keys)) in Hl.
  rewrite (sum_lengths_perm _ _ Hp), Hp in Hl. cbn in Hl.
  destruct rest as [|x rest]; [by rewrite app_nil_r in Hp|]. cbn in Hl. lia.
Qed.

Lemma auth_Ok env a :
  validateGitAuthEnvironment env = Ok a -> a = None \/ auth_environment a.
Proof.
  unfold validateGitAuthEnvironment, invalid_input. destruct env as [[|kv env]|]; try (intros [= <-]; by left).
  remember (kv :: env) as e eqn:He. clear He. destruct (_ || _) eqn:E; [done|]. intros [= <-]. right.
  rewrite !orb_false_iff, !negb_false_iff in E. destruct E as [[[Ej Ec] Ek] Ev].
  apply bool_decide_eq_true in Ec, Ek. apply String.eqb_eq in Ej.
  destruct (dget "GIT_CONFIG_KEY_0" e) as [key|] eqn:Gk; [|done]. cbn in Ek. injection Ek as Ek.
  destruct (dget "GIT_CONFIG_VALUE_0" e) as [value|] eqn:Gv; [|done]. cbn in Ev.
  exists e, key, value. split_and!; try done. apply three_keys; [|done].
  intros k Hk. apply list_elem_of_In in Hk as [<-|[<-|[<-|[]]]]; apply elem_dkeys; by eexists.
Qed.

(** * What the methods send *)

Section Sent.
Context `{!NumberTexts} `{!GitCommandExecutor} `{!RandomUuids} `{!RepoUrls}.
Context (reads : bool) (before : list GitCommandExecutionInput).
Notation history := (list GitCommandExecutionInput).
Implicit Types J : history -> Prop.

(** Every command sent after [before] is allowed where it was sent. *)
Definition issued (h : history) : Prop :=
  exists new, h = before ++ new /\
    forall i command, new !! i = Some command -> allowed reads (before ++ take i new) command.

(** The invariant of the proofs: also what a method knows of git's answers *)
Definition inv J (h : history) : Prop := issued h /\ J h.
Definition lasting J : Prop := forall h c, J h -> J (h ++ [c]).

Lemma issued_before : issued before.
Proof. exists []. by rewrite app_nil_r. Qed.

Lemma issued_snoc h c : issued h -> allowed reads h c -> issued (h ++ [c]).
Proof.
  intros (new & -> & Hnew) Hc. exists (new ++ [c]). rewrite <- app_assoc. split; [done|].
  intros i command Hi. destruct (decide (i < length new)%nat) as [Hlt|Hge].
  - rewrite lookup_app_l in Hi by done. rewrite take_app_le by lia. by apply Hnew.
  - rewrite lookup_app_r in Hi by lia. apply list_lookup_singleton_Some in Hi as [Hz <-].
    rewrite (take_app_length' new) by lia. done.
Qed.

Lemma keeps_execute J command :
  lasting J -> (forall h, J h -> allowed reads h command) -> keeps (inv J) (executor_execute command).
Proof. intros HJ Hc h [Hi Hj]. split; [by apply issued_snoc; auto|by apply HJ]. Qed.

Lemma keeps_bind_lift J {A B} (r : GR A) (k : A -> git B) :
  (forall a, r = Ok a -> keeps (inv J) (k a)) -> keeps (inv J) (a ← lift r; k a).
Proof.
  intros Hk h Hh. unfold mbind, ST_bind, lift. destruct r as [a|e]; [by apply Hk|done].
Qed.

(** A binding whose result is known to satisfy something of the history *)
Lemma keeps_bind_wp J {A B} (m : git A) (k : A -> git B) (P : A -> history -> Prop) :
  (forall h, inv J h -> wp m (fun a h' => inv J h' /\ P a h') (fun _ => inv J) h) ->
  (forall a, keeps (inv (fun h => J h /\ P a h)) (k a)) -> keeps (inv J) (m ≫= k).
Proof.
  intros Hm Hk h Hh. specialize (Hm h Hh). unfold wp in Hm. unfold mbind, ST_bind.
  destruct (m h) as [[a|e] h']; [|done]. destruct Hm as [[Hi Hj] Hp].
  by destruct (Hk a h' (conj Hi (conj Hj Hp))) as [? [? _]].
Qed.

(** A binding whose result is known whatever the history *)
Lemma keeps_bind_post J {A B} (m : git A) (k : A -> git B) (P : A -> Prop) :
  keeps (inv J) m -> (forall h, wp m (fun a _ => P a) (fun _ _ => True) h) ->
  (forall a, P a -> keeps (inv J) (k a)) -> keeps (inv J) (m ≫= k).
Proof.
  intros Hm Hp Hk h Hh. specialize (Hm h Hh). specialize (Hp h). unfold wp in Hp. unfold mbind, ST_bind.
  destruct (m h) as [[a|e] h']; [by apply Hk|done].
Qed.

Lemma keeps_void J {A} (m : git A) : keeps (inv J) m -> keeps (inv J) (void m).
Proof. intros Hm. apply keeps_bind; [done|]. intros _. apply keeps_ret. Qed.

(** ** One command *)

Definition environment_ok h (environment : option (dict string)) : Prop :=
  environment = None \/ own_index h environment \/ auth_environment environment.

Lemma keeps_command J runId inputRun root inputRoot args environment :
  lasting J -> RunId_parse inputRun = Ok runId -> validateWorkspaceRoot inputRoot = Ok root ->
  (forall h, J h -> environment_ok h environment) ->
  (forall h, J h -> words_ok reads h args environment \/ text_ok reads args) ->
  keeps (inv J) (executor_execute (mkCommand runId root args None environment (Some DEFAULT_GIT_COMMAND_TIMEOUT_MS))).
Proof.
  intros HJ [-> Hr]%RunId_parse_Ok (-> & Hroot & Htrim)%root_Ok He Ha. apply keeps_execute; [done|].
  intros h Hh. split_and!; try done; [by apply He|by apply Ha].
Qed.

Lemma keeps_checked J runId inputRun root inputRoot args environment :
  lasting J -> RunId_parse inputRun = Ok runId -> validateWorkspaceRoot inputRoot = Ok root ->
  (forall h, J h -> environment_ok h environment) ->
  (forall h, J h -> words_ok reads h args environment \/ text_ok reads args) ->
  keeps (inv J) (execute_checked runId root args environment).
Proof.
  intros. unfold execute_checked. apply keeps_bind; [by eapply keeps_command|].
  intros result. destruct (negb _); auto with legion.
Qed.

Lemma keeps_executeGit J workspace args environment :
  lasting J -> (forall h, J h -> environment_ok h environment) ->
  (forall h, J h -> words_ok reads h args environment \/ text_ok reads args) ->
  keeps (inv J) (executeGit workspace args environment).
Proof.
  intros. unfold executeGit. apply keeps_bind_lift. intros runId Hr. apply keeps_bind_lift. intros cwd Hc.
  by eapply keeps_command.
Qed.

Lemma keeps_required J workspace args environment :
  lasting J -> (forall h, J h -> environment_ok h environment) ->
  (forall h, J h -> words_ok reads h args environment \/ text_ok reads args) ->
  keeps (inv J) (executeRequired workspace args environment).
Proof.
  intros. unfold executeRequired. apply keeps_bind; [by apply keeps_executeGit|].
  intros result. destruct (negb _); auto with legion.
Qed.

(** ** The arguments *)

Definition any : history -> Prop := fun _ => True.
Lemma lasting_any : lasting any. Proof. done. Qed.

Lemma words_plain h words environment :
  words ∈ COMMAND_WORDS -> (reads = true -> only_reads h words environment) ->
  words_ok reads h words environment.
Proof. intros. exists words, [], []. rewrite !app_nil_r. by repeat split; auto. Qed.

Lemma words_values h words values environment :
  words ∈ COMMAND_WORDS -> Forall (fun v => is_value v = true) values ->
  (reads = true -> only_reads h words environment) ->
  words_ok reads h (words ++ values) environment.
Proof. intros. exists words, values, []. rewrite app_nil_r. by repeat split; auto. Qed.

Lemma words_paths h words values paths environment :
  words ∈ COMMAND_WORDS -> Forall (fun v => is_value v = true) values -> Forall (path_ok h) paths ->
  (reads = true -> only_reads h words environment) ->
  words_ok reads h (words ++ values ++ "--" :: paths) environment.
Proof. intros. exists words, values, ("--" :: paths). repeat split; auto. right. by eexists. Qed.

Lemma repo_paths_ok h paths : Forall repo_path paths -> Forall (path_ok h) paths.
Proof. intros Hp. apply (Forall_impl _ _ _ Hp). intros p. right. by left. Qed.

Lemma dev_null_path h path : repo_path path -> Forall (path_ok h) ["/dev/null"; path].
Proof. intros Hp. constructor; [by left|]. apply repo_paths_ok. by constructor. Qed.

Lemma pathspec_Ok paths a :
  toPathspecArgs paths = Ok a -> a = [] \/ exists ps, a = "--" :: ps /\ Forall repo_path ps.
Proof.
  unfold toPathspecArgs. destruct paths as [[|p ps]|]; [intros [= <-]; by left| |intros [= <-]; by left].
  intros (valid & E & [= <-])%res_bind_Ok. apply paths_Ok in E as [-> Hp]. right. by eexists.
Qed.

Lemma words_pathspec h words values paths a environment :
  toPathspecArgs paths = Ok a -> words ∈ COMMAND_WORDS -> Forall (fun v => is_value v = true) values ->
  (reads = true -> only_reads h words environment) ->
  words_ok reads h (words ++ values ++ a) environment.
Proof.
  intros [->|(ps & -> & Hp)]%pathspec_Ok Hw Hv Hr.
  - rewrite app_nil_r. by apply words_values.
  - apply words_paths; try done. by apply repo_paths_ok.
Qed.

(** What a command that succeeds answered is in the log. *)
Lemma executeRequired_logged workspace args environment h :
  wp (executeRequired workspace args environment)
    (fun result h' => exists earlier command, h' = earlier ++ [command] /\ ci_args command = args /\
       respond earlier command = Ok result) (fun _ _ => True) h.
Proof.
  unfold executeRequired, executeGit. rewrite !wp_bind. apply wp_lift; [|done]. intros runId _.
  rewrite wp_bind. apply wp_lift; [|done]. intros cwd _. unfold wp, executor_execute.
  set (command := mkCommand _ _ _ _ _ _). destruct (respond h command) as [result|e] eqn:E; [|done].
  destruct (negb _); [done|]. by exists h, command.
Qed.

Lemma listed_lasting (paths : list string) : lasting (fun h => Forall (listed h) paths).
Proof.
  intros h c Hl. apply (Forall_impl _ _ _ Hl). intros p (earlier & command & later & result & -> & Hp).
  exists earlier, command, (later ++ [c]), result. by rewrite <- app_assoc.
Qed.

Lemma listUntrackedPaths_listed input h :
  wp (listUntrackedPaths input) (fun paths h' => Forall (listed h') paths) (fun _ _ => True) h.
Proof.
  unfold listUntrackedPaths. apply wp_bind. eapply wp_mono; [apply executeRequired_logged| |done].
  intros result h' (earlier & command & -> & Ha & Hr). apply wp_ret, Forall_forall. intros p Hp.
  apply list_elem_of_In, filter_In in Hp as [Hp _]. exists earlier, command, [], result.
  split_and!; try done. by apply list_elem_of_In.
Qed.

(** The answer to [rev-parse --git-path] names an index of the service's own. *)
Lemma index_path_own runId root key h :
  SNAPSHOT_KEY_PATTERN key = true ->
  wp (readGitValue runId root ["rev-parse"; "--git-path"; "index.legioncode-" +:+ key] None true)
    (fun path h' => own_index h' (Some [("GIT_INDEX_FILE", path)])) (fun _ _ => True) h.
Proof.
  intros Hk. unfold readGitValue, snapshot_executeGit. rewrite !wp_bind. unfold wp at 1, executor_execute.
  set (command := mkCommand _ _ _ _ _ _). destruct (respond h command) as [result|e] eqn:E; [|done].
  destruct (negb _); [by apply wp_throw|]. apply wp_ret, wp_ret. eexists. split; [done|]. left.
  by exists h, command, [], result, key.
Qed.

(** ** The methods that read *)

#[local] Opaque execute_checked executeGit executeRequired executor_execute mbind.

Local Ltac known := by apply (bool_decide_unpack _).
Local Ltac step :=
  match goal with
  | |- keeps _ (mret _) => apply keeps_ret
  | |- keeps _ (throw _) => apply keeps_throw
  | |- keeps _ (lift _) => apply keeps_lift
  | |- keeps _ (lift _ ≫= _) => apply keeps_bind_lift; intros ? ?
  | |- keeps _ (_ ≫= _) => apply keeps_bind; [|intros ?]
  | |- keeps _ (if ?b then _ else _) => destruct b
  end.
Local Ltac send :=
  first [eapply keeps_checked | eapply keeps_command | eapply keeps_executeGit | eapply keeps_required];
  [by intros ? ? | eassumption.. | try first [by left | by auto] |].
(** A command that reads, whatever it is for *)
Local Ltac reading := let Hr := fresh in intros Hr; clear Hr; reflexivity.
(** One command with fixed words *)
Local Ltac plain := send; intros; left; apply words_plain; [known|reading].

Lemma keeps_getStatus runId root : keeps (inv any) (getStatus runId root).
Proof. unfold getStatus. repeat step. plain. Qed.

Lemma keeps_getDiff input : keeps (inv any) (getDiff input).
Proof.
  unfold getDiff. do 2 step. apply keeps_bind_lift. intros paths Ep. repeat step.
  assert (Hp : Forall repo_path paths).
  { destruct (0 <? _)%nat; [|by injection Ep as <-]. by apply paths_Ok in Ep as [-> ?]. }
  send. intros h _. left. rewrite app_assoc. destruct (0 <? length paths)%nat.
  - apply (words_paths h _ [] paths); [by destruct (gd_staged input); known|done|by apply repo_paths_ok|].
    by destruct (gd_staged input).
  - rewrite app_nil_r. apply words_plain; [by destruct (gd_staged input); known|by destruct (gd_staged input)].
Qed.

(** A command about one path behind [--] *)
Lemma list_untracked_ok h path environment :
  repo_path path -> words_ok reads h (list_untracked_args path) environment.
Proof.
  intros Hp. apply (words_paths h ["ls-files"; "--others"; "--exclude-standard"] [] [path]);
    [known|done| |done]. apply repo_paths_ok. by constructor.
Qed.

Lemma untracked_diff_ok h path environment :
  path_ok h path -> words_ok reads h (untracked_diff_args path) environment.
Proof.
  intros Hp. apply (words_paths h ["diff"; "--binary"; "--no-index"] [] ["/dev/null"; path]); [known|done| |done].
  constructor; [by left|]. by constructor.
Qed.

Lemma keeps_countUntrackedLines workspace path :
  repo_path path -> keeps (inv any) (countUntrackedLines workspace path).
Proof.
  intros Hp. unfold countUntrackedLines. repeat step; send; intros h _; left; [by apply list_untracked_ok|].
  apply (words_paths h ["diff"; "--no-index"; "--numstat"] [] ["/dev/null"; path]); [known|done| |done].
  by apply dev_null_path.
Qed.

Lemma keeps_count_untracked workspace paths counts :
  Forall repo_path paths -> keeps (inv any) (count_untracked workspace paths counts).
Proof.
  intros Hp. revert counts. induction Hp as [|path paths Hpath _ IH]; intros counts; simpl; repeat step.
  - done.
  - by apply keeps_countUntrackedLines.
  - done.
Qed.

Lemma keeps_getFileLineCounts workspace paths : keeps (inv any) (getFileLineCounts workspace paths).
Proof.
  unfold getFileLineCounts, mergeNumstat. do 2 step. apply keeps_bind_lift. intros valid [-> Hp]%paths_Ok.
  repeat step; try (by apply keeps_count_untracked).
  - plain.
  - plain.
Qed.

Lemma keeps_getUntrackedFileDiff workspace path : keeps (inv any) (getUntrackedFileDiff workspace path).
Proof.
  unfold getUntrackedFileDiff. apply keeps_bind_lift. intros valid [-> Hp]%path_Ok.
  repeat step; send; intros h _; left; [by apply list_untracked_ok|].
  apply untracked_diff_ok. right. by left.
Qed.

Lemma keeps_readConfigValue workspace key : keeps (inv any) (readConfigValue workspace key).
Proof. unfold readConfigValue, readConfigValues. repeat step. plain. Qed.

Lemma keeps_getRepoIdentity workspace : keeps (inv any) (getRepoIdentity workspace).
Proof. unfold getRepoIdentity. repeat step. apply keeps_readConfigValue. Qed.

Lemma rev_parse_ok h environment : words_ok reads h ["rev-parse"; "HEAD"] environment.
Proof. apply (words_values h ["rev-parse"] ["HEAD"]); [known|by repeat constructor|done]. Qed.

Lemma show_current_ok h environment : words_ok reads h ["branch"; "--show-current"] environment.
Proof. apply words_plain; [known|done]. Qed.

Lemma keeps_readOptional workspace args :
  (forall h, words_ok reads h args None) -> keeps (inv any) (readOptionalGitValue workspace args).
Proof. intros Ha. unfold readOptionalGitValue. repeat step. send. intros h _. by left. Qed.

Lemma keeps_readRequired workspace args :
  (forall h, words_ok reads h args None) -> keeps (inv any) (readRequiredGitValue workspace args).
Proof. intros Ha. unfold readRequiredGitValue. repeat step. send. intros h _. by left. Qed.

Lemma keeps_listBranches workspace : keeps (inv any) (listBranches workspace).
Proof. unfold listBranches. repeat step. plain. Qed.

Lemma keeps_validateBranch input : keeps (inv any) (validateBranch input).
Proof.
  unfold validateBranch, validateBranchWithGit. do 2 step. apply keeps_bind_lift. cbn [bv_branchName].
  intros name [-> Hb]%branch_Ok. repeat step. send. intros h _. left.
  apply (words_values h BRANCH_CHECK_ARGS [bv_branchName input]); [known|by constructor|done].
Qed.

(** ** capturePatch *)

Lemma own_lasting environment : lasting (fun h => own_index h environment).
Proof.
  intros h c (path & -> & [(earlier & command & later & result & key & -> & Hp)|(earlier & later & -> & ->)]);
    eexists; (split; [done|]).
  - left. exists earlier, command, (later ++ [c]), result, key. by rewrite <- app_assoc.
  - right. exists earlier, (later ++ [c]). by rewrite <- app_assoc.
Qed.

Lemma keeps_baseline input h :
  inv any h -> wp (createBaselineIndex input) (fun env h' => inv any h' /\ own_index h' (Some env)) (fun _ => inv any) h.
Proof.
  intros Hh. unfold createBaselineIndex. apply wp_bind, wp_lift; [|done]. intros tree [-> Ht]%git_object_Ok.
  apply wp_bind, wp_gets. set (env := [_]). assert (Ho : own_index h (Some env)).
  { eexists. split; [done|]. right. exists h, []. by rewrite app_nil_r. }
  assert (Hk : keeps (inv (fun h => own_index h (Some env)))
    (executeRequired (cp_workspace input) ["read-tree"; default "" (cp_baselineTree input)] (Some env))).
  { apply keeps_required; [apply own_lasting|intros h' Ho'; by right; left|]. intros h' Ho'. left.
    apply (words_values h' ["read-tree"] [default "" (cp_baselineTree input)]); [known|by constructor|done]. }
  apply wp_bind. eapply wp_mono; [apply (proj1 (wp_keeps _ _) Hk h); by destruct Hh| |].
  - intros _ h' [Hi Ho']. apply wp_ret. by repeat split.
  - intros _ h' [Hi _]. by split.
Qed.

(** The environment of a patch: the index of the work tree, or the baseline's *)
Definition patch_index (baseline : option (dict string)) h : Prop := baseline = None \/ own_index h baseline.

Lemma keeps_captureTrackedPatch input : keeps (inv any) (captureTrackedPatch input).
Proof.
  unfold captureTrackedPatch. apply (keeps_bind_wp any _ _ patch_index).
  - intros h Hh. destruct (is_some _); [|by apply wp_ret; split; [|left]]. apply wp_bind.
    eapply wp_mono; [by apply keeps_baseline| |done]. intros env h' [Hi Ho]. apply wp_ret. by split; [|right].
  - intros baseline. apply keeps_bind_lift. intros pathspec Hp. step; [|step].
    apply keeps_required.
    + intros h c [_ [->|Ho]]; (split; [done|]); [by left|right; by apply own_lasting].
    + intros h [_ [->|Ho]]; [by left|by right; left].
    + intros h _. left.
      apply (words_pathspec h ["diff"; "--binary"; "--no-ext-diff"; "--find-renames"; "--unified=999999"] _ (cp_paths input));
        [done|known|by destruct (is_some baseline); repeat constructor|done].
Qed.

Lemma keeps_listBaselinePaths input : keeps (inv any) (listBaselinePaths input).
Proof.
  unfold listBaselinePaths. apply keeps_bind_lift. intros tree [-> Ht]%git_object_Ok.
  apply keeps_bind_lift. intros pathspec Hp. repeat step. send. intros h _. left.
  apply (words_pathspec h ["ls-tree"; "-r"; "--name-only"] [default "" (cp_baselineTree input)] (cp_paths input));
    [done|known|by constructor|done].
Qed.

Lemma keeps_patches input (paths untracked : list string) :
  paths ⊆ untracked -> keeps (inv (fun h => any h /\ Forall (listed h) untracked)) (map_of paths (patch_of_path input)).
Proof.
  intros Hsub. apply keeps_map_of. intros path Hpath. unfold patch_of_path. repeat step.
  apply keeps_executeGit; [intros h c [_ Hl]; split; [done|by apply listed_lasting]|by left|]. intros h [_ Hl]. left.
  apply untracked_diff_ok. right. right. rewrite Forall_forall in Hl. by apply Hl, Hsub.
Qed.

Lemma keeps_captureUntrackedPatch input : keeps (inv any) (captureUntrackedPatch input).
Proof.
  unfold captureUntrackedPatch. apply keeps_bind.
  { destruct (is_some _); [apply keeps_listBaselinePaths|apply keeps_ret]. }
  intros baselinePaths. apply keeps_bind_lift. intros includedPaths _.
  eapply (keeps_bind_wp any _ _ (fun paths h => Forall (listed h) paths)).
  - intros h Hh. eapply wp_mono; [apply wp_and; [|apply listUntrackedPaths_listed]| |].
    + apply wp_keeps; [|exact Hh]. unfold listUntrackedPaths. repeat step. plain.
    + done.
    + by intros ? ? [].
  - intros untracked. step; [|step]. apply keeps_patches. intros path Hp.
    apply list_elem_of_In, filter_In in Hp as [Hp _]. by apply list_elem_of_In.
Qed.

Lemma keeps_capturePatch input : keeps (inv any) (capturePatch input).
Proof.
  unfold capturePatch. repeat step.
  - apply keeps_captureTrackedPatch.
  - apply keeps_captureUntrackedPatch.
  - apply keeps_readOptional. intros h. apply rev_parse_ok.
  - apply keeps_readOptional. intros h. apply show_current_ok.
Qed.

(** ** Snapshots *)

Lemma keeps_snapshot_command J runId inputRun root inputRoot args environment :
  lasting J -> RunId_parse inputRun = Ok runId -> validateWorkspaceRoot inputRoot = Ok root ->
  (forall h, J h -> environment_ok h environment) -> (forall h, J h -> words_ok reads h args environment) ->
  keeps (inv J) (snapshot_executeGit runId root args environment).
Proof. intros HJ Hr Hw He Ha. unfold snapshot_executeGit. repeat step. eapply keeps_command; try done. intros h Hj. left. by apply Ha. Qed.

Lemma keeps_readGitValue J runId inputRun root inputRoot args environment trimmed :
  lasting J -> RunId_parse inputRun = Ok runId -> validateWorkspaceRoot inputRoot = Ok root ->
  (forall h, J h -> environment_ok h environment) -> (forall h, J h -> words_ok reads h args environment) ->
  keeps (inv J) (readGitValue runId root args environment trimmed).
Proof. intros. unfold readGitValue. repeat step. by eapply keeps_snapshot_command. Qed.

Lemma index_name_value key : is_value ("index.legioncode-" +:+ key) = true.
Proof. by apply (value_start is_alnum). Qed.

Lemma keeps_captureSnapshot input : keeps (inv any) (captureGitWorkspaceSnapshot input).
Proof.
  unfold captureGitWorkspaceSnapshot. do 2 step. apply keeps_bind_lift. intros key Hkey.
  assert (Hk : SNAPSHOT_KEY_PATTERN key = true).
  { unfold validateSnapshotKey in Hkey. destruct (SNAPSHOT_KEY_PATTERN _) eqn:Ek; [by injection Hkey as <-|done]. }
  apply (keeps_bind_wp any _ _ (fun path h => own_index h (Some [("GIT_INDEX_FILE", path)]))).
  - intros h Hh. eapply wp_mono; [apply wp_and; [|by apply index_path_own]| |].
    + apply wp_keeps; [|exact Hh]. eapply keeps_readGitValue; [done|eassumption|eassumption|by left|].
      intros h' _. apply (words_values h' ["rev-parse"; "--git-path"] [_]); [known| |reading].
      constructor; [apply index_name_value|constructor].
    + done.
    + by intros ? ? [].
  - intros path. repeat step;
      (first [eapply keeps_readGitValue | eapply keeps_snapshot_command];
       [intros h c [_ Ho]; split; [done|by apply own_lasting]|eassumption|eassumption
       |intros h [_ Ho]; first [by left | by right; left]|]); intros h [_ Ho].
    + apply (words_values h ["read-tree"] ["HEAD"]); [known|by repeat constructor|intros _; exact Ho].
    + apply words_plain; [known|intros _; exact Ho].
    + apply words_plain; [known|intros _; exact Ho].
    + apply rev_parse_ok.
Qed.

Lemma keeps_getSnapshotDiff input : keeps (inv any) (diffGitWorkspaceSnapshots input).
Proof.
  unfold diffGitWorkspaceSnapshots. do 2 step.
  apply keeps_bind_lift. intros _ Hs%snapshot_Ok. apply keeps_bind_lift. intros _ Ht%snapshot_Ok.
  assert (Hv : Forall (fun v => is_value v = true) [ws_treeId (di_start input); ws_treeId (di_terminal input)])
    by by repeat constructor.
  repeat step; (eapply keeps_readGitValue; [done|eassumption|eassumption|by left|]); intros h _;
    (apply words_values; [known|exact Hv|reading]).
Qed.

Lemma keeps_exportSnapshotPatch input : keeps (inv any) (exportGitWorkspaceSnapshotPatch input).
Proof.
  unfold exportGitWorkspaceSnapshotPatch. do 2 step.
  apply keeps_bind_lift. intros base [-> Hb]%object_Ok. apply keeps_bind_lift. intros tree [-> Ht]%object_Ok.
  repeat step. eapply keeps_readGitValue; [done|eassumption|eassumption|by left|]. intros h _.
  apply (words_values h ["diff"; "--no-ext-diff"; "--binary"; "--full-index"; "--no-renames"] [_; _]);
    [known|by repeat constructor|reading].
Qed.

(** ** The methods that write *)

Context (writes : reads = false).

Lemma words_write h words values paths environment :
  words ∈ COMMAND_WORDS -> Forall (fun v => is_value v = true) values -> Forall repo_path paths ->
  words_ok reads h (words ++ values ++ "--" :: paths) environment.
Proof. intros. apply words_paths; [done|done|by apply repo_paths_ok|congruence]. Qed.

Lemma values_write h words values environment :
  words ∈ COMMAND_WORDS -> Forall (fun v => is_value v = true) values ->
  words_ok reads h (words ++ values) environment.
Proof. intros. apply words_values; [done|done|congruence]. Qed.

Lemma keeps_stageFiles workspace paths : keeps (inv any) (stageFiles workspace paths).
Proof.
  unfold stageFiles, mutateExplicitPaths. do 2 step. apply keeps_bind_lift. intros valid [-> Hp]%paths_Ok.
  step; [|apply keeps_getStatus]. send. intros h _. left. by apply (words_write h ["add"] []); [known|..].
Qed.

Lemma keeps_unstageFiles workspace paths : keeps (inv any) (unstageFiles workspace paths).
Proof.
  unfold unstageFiles, mutateExplicitPaths. do 2 step. apply keeps_bind_lift. intros valid [-> Hp]%paths_Ok.
  step; [|apply keeps_getStatus]. send. intros h _. left.
  apply (words_write h ["reset"] ["HEAD"]); [known|by repeat constructor|done].
Qed.

Lemma keeps_writeGitConfigValue workspace key value :
  key <> k_remote_origin_url -> keeps (inv any) (writeGitConfigValue workspace key value).
Proof. intros Hk. unfold writeGitConfigValue. repeat step. send. intros h _. right. split; [done|]. right. eauto. Qed.

Lemma no_char_trim c m : has_char c m = false -> has_char c (trim m) = false.
Proof.
  assert (Hs : has_char c m = false -> has_char c (trim_start m) = false).
  { induction m as [|x m IH]; [done|]. cbn. intros Hm. destruct (is_space x); [|done].
    apply IH. by apply orb_false_iff in Hm as [_ ?]. }
  assert (He : forall s, has_char c s = false -> has_char c (trim_end s) = false).
  { induction s as [|x s IH]; [done|]. cbn. intros [Hx Hm]%orb_false_iff.
    destruct (is_space x && _); [done|]. cbn. by rewrite Hx, IH. }
  intros Hm. by apply He, Hs.
Qed.

Lemma message_Ok m a :
  validateCommitMessage m = Ok a -> a <> "" /\ GIT_COMMIT_MESSAGE_PATTERN a = false.
Proof.
  unfold validateCommitMessage, invalid_input. destruct (_ || _) eqn:E; [done|]. intros [= <-].
  apply orb_false_iff in E as [E Hm]. split; [by apply String.eqb_neq in E|].
  unfold GIT_COMMIT_MESSAGE_PATTERN in *. rewrite !orb_false_iff in *.
  destruct Hm as [[? ?] ?]. by rewrite !no_char_trim.
Qed.

Lemma keeps_commit input : keeps (inv any) (commit input).
Proof.
  unfold commit, writeCommitAuthor. do 2 step. apply keeps_bind_lift. intros paths [-> Hp]%paths_Ok.
  apply keeps_bind_lift. intros message [Hm Hl]%message_Ok. repeat step.
  - apply keeps_stageFiles.
  - by apply keeps_writeGitConfigValue.
  - by apply keeps_writeGitConfigValue.
  - send. intros h _. right. split; [done|]. left. by exists message.
  - apply keeps_readRequired. intros h. apply rev_parse_ok.
  - apply keeps_readRequired. intros h. apply show_current_ok.
Qed.

Lemma environment_Ok env a : validateGitAuthEnvironment env = Ok a -> forall h, environment_ok h a.
Proof. intros [->|Ha]%auth_Ok h; [by left|by right; right]. Qed.

Lemma keeps_push input : keeps (inv any) (push input).
Proof.
  unfold push. do 2 step. apply keeps_bind_lift. intros branch [-> Hb]%branch_Ok.
  apply keeps_bind_lift. intros remote [-> Hr]%remote_Ok. apply keeps_bind_lift. intros env Henv. pose proof (environment_Ok _ _ Henv) as He.
  repeat step.
  - send. intros h _. left. apply (values_write h ["push"; "-u"] [_; _]); [known|].
    constructor; [done|]. constructor; [by apply (value_start is_alnum)|constructor].
  - apply keeps_readRequired. intros h. apply rev_parse_ok.
Qed.

Lemma keeps_pull input : keeps (inv any) (pull input).
Proof.
  unfold pull. apply keeps_bind_lift. intros remote [-> Hr]%remote_Ok.
  apply keeps_bind_lift. intros branch Hb.
  assert (Hv : Forall (fun v => is_value v = true) branch).
  { destruct (truthy _) as [name|]; [|by injection Hb as <-]. destruct (0 <? _); [|by injection Hb as <-].
    apply res_bind_Ok in Hb as (n & [-> Hn]%branch_Ok & [= <-]). by constructor. }
  apply keeps_bind_lift. intros env Henv. pose proof (environment_Ok _ _ Henv) as He. repeat step. send. intros h _. left.
  apply (values_write h ["pull"; "--ff-only"] (pl_remoteName input :: branch)); [known|by constructor].
Qed.

Lemma keeps_fetch workspace remote auth : keeps (inv any) (fetch workspace remote auth).
Proof.
  unfold fetch. apply keeps_bind_lift. intros name [-> Hr]%remote_Ok.
  apply keeps_bind_lift. intros env Henv. pose proof (environment_Ok _ _ Henv) as He. repeat step. send. intros h _. left.
  apply (values_write h ["fetch"] [remote]); [known|by constructor].
Qed.

Lemma keeps_createBranch input : keeps (inv any) (createBranch input).
Proof.
  unfold createBranch. apply keeps_bind_lift. intros branch [-> Hb]%branch_Ok.
  apply keeps_bind_lift. intros start Hs.
  assert (Hv : Forall (fun v => is_value v = true) start).
  { destruct (truthy _) as [id|]; [|by injection Hs as <-]. destruct (OBJECT_ID_PATTERN id) eqn:Hid; [|done].
    injection Hs as <-. constructor; [by apply object_value|constructor]. }
  repeat step. send. intros h _. left.
  apply (values_write h ["checkout"; "-b"] (bi_branchName input :: start)); [known|by constructor].
Qed.

Lemma keeps_switchBranch input : keeps (inv any) (switchBranch input).
Proof.
  unfold switchBranch. apply keeps_bind_lift. intros branch [-> Hb]%branch_Ok. repeat step; send; intros h _; left.
  - apply (values_write h ["checkout"] [_]); [known|by constructor].
  - apply (values_write h ["checkout"; "--track"] [_]); [known|].
    constructor; [by apply (value_start is_alnum)|constructor].
Qed.
End Sent.

Section Calls.
Context `{!NumberTexts} `{!GitCommandExecutor} `{!RandomUuids} `{!RepoUrls}.

Lemma keeps_call c before : keeps (inv (reads_only c) before any) (run_call c).
Proof.
  destruct c; cbn [reads_only run_call]; try apply keeps_void.
  - apply keeps_getStatus.
  - apply keeps_getDiff.
  - apply keeps_getFileLineCounts.
  - apply keeps_getUntrackedFileDiff.
  - apply keeps_getRepoIdentity.
  - apply keeps_readConfigValue.
  - apply keeps_capturePatch.
  - apply keeps_captureSnapshot.
  - apply keeps_exportSnapshotPatch.
  - apply keeps_getSnapshotDiff.
  - by apply keeps_stageFiles.
  - by apply keeps_unstageFiles.
  - by apply keeps_commit.
  - by apply keeps_push.
  - by apply keeps_pull.
  - by apply keeps_fetch.
  - by apply keeps_createBranch.
  - by apply keeps_switchBranch.
  - apply keeps_listBranches.
  - apply keeps_validateBranch.
Qed.

(** C32. Whatever the caller passes and git answers, a call of [DefaultGitService]
    only adds commands that run under a valid run id in an absolute directory.
    Apart from a commit's message and its author's name and email, their arguments
    are fixed words, values git does not take for options, and paths behind [--]
    that stay below the root or were listed by git.  Those three are the caller's
    texts, a name and an email as they are: git may take them for options (see
    [author_as_option]).  The environment of a command is empty, one HTTP header
    with credentials, or the path of an index that git named for
    [index.legioncode-<key>] or that was made up with a uuid drawn before.  The
    calls that read send no command that changes branches, the work tree or a
    remote, and the commands that write an index only with one of these paths. *)
Theorem git_commands_confined c before :
  exists new, snd (run_call c before) = before ++ new /\
    forall i command, new !! i = Some command -> allowed (reads_only c) (before ++ take i new) command.
Proof. exact (proj1 (keeps_call c before before (conj (issued_before _ _) I))). Qed.
End Calls.

(** * A commit, command by command *)

Module Demo.
#[local] Instance demo_numbers : NumberTexts := {| other_number _ := None |}.
#[local] Instance demo_uuids : RandomUuids := {| randomUUID _ := "0" |}.
#[local] Instance demo_urls : RepoUrls := {| parse_repo_url _ := None |}.
#[local] Instance demo_git : GitCommandExecutor := {| respond _ _ := Ok (mkResult 0 "" "") |}.
Definition demo_commit (author : string) : list (list string) :=
  map ci_args (snd (run_call (g_commit (mkCommit (mkFilesystem "run_000001" "/w") ["src/a.ts"] " fix "
                                          (mkIdentity author "a@b"))) [])).

(** The index is committed whole, whatever paths were given. *)
Example commit_takes_the_index :
  demo_commit "A" =
    [["add"; "--"; "src/a.ts"]; GIT_STATUS_PORCELAIN_V2_ARGS; ["config"; "user.name"; "A"];
     ["config"; "user.email"; "a@b"]; ["commit"; "-m"; "fix"]; ["rev-parse"; "HEAD"];
     ["branch"; "--show-current"]].
Proof. vm_compute. reflexivity. Qed.

(** An author's name that git reads as an option of [config] *)
Example author_as_option : ["config"; "user.name"; "--unset"] ∈ demo_commit "--unset".
Proof. by apply (bool_decide_unpack _). Qed.
End Demo.
