(* ===== verification/Approvals.v ===== *)
(** The permission approvals of a run: approval-policy.ts of
    [packages/shared-types/src] and engine/PermissionApprovalStore.ts of
    [packages/execution-engine/src/runtime].  Every operation runs inside
    [blockConcurrencyWhile], so it is one step on the stored state. *)
From S2P Require Import Prelude Js Regex EventStore.
From Stdlib Require Import Ascii.
#[local] Open Scope Z_scope.

(** * approval-policy.ts *)

Inductive RiskyActionCategory : Type :=
| FILESYSTEM_WRITE | GIT_MUTATION | SHELL_COMMAND | NETWORK_EXTERNAL | OUTSIDE_WORKSPACE
| SUBAGENT_SPAWN | PROVIDER_CONNECT | DEPLOY_OR_INFRA_MUTATION | DANGEROUS_RETRY.
#[export] Instance RiskyActionCategory_eq_dec : EqDecision RiskyActionCategory.
Proof. solve_decision. Defined.
Definition category_str (c : RiskyActionCategory) : string :=
  match c with
  | FILESYSTEM_WRITE => "filesystem_write" | GIT_MUTATION => "git_mutation"
  | SHELL_COMMAND => "shell_command" | NETWORK_EXTERNAL => "network_external"
  | OUTSIDE_WORKSPACE => "outside_workspace" | SUBAGENT_SPAWN => "subagent_spawn"
  | PROVIDER_CONNECT => "provider_connect" | DEPLOY_OR_INFRA_MUTATION => "deploy_or_infra_mutation"
  | DANGEROUS_RETRY => "dangerous_retry"
  end.

Inductive ApprovalDecisionKind : Type :=
| ALLOW_ONCE | ALLOW_FOR_RUN | ALLOW_PERSISTENT_RULE | DENY | ABORT.
#[export] Instance ApprovalDecisionKind_eq_dec : EqDecision ApprovalDecisionKind.
Proof. solve_decision. Defined.
Definition kind_str (k : ApprovalDecisionKind) : string :=
  match k with
  | ALLOW_ONCE => "allow_once" | ALLOW_FOR_RUN => "allow_for_run"
  | ALLOW_PERSISTENT_RULE => "allow_persistent_rule" | DENY => "deny" | ABORT => "abort"
  end.

Inductive ResolutionStatus : Type := rs_approved | rs_denied | rs_aborted.
#[export] Instance ResolutionStatus_eq_dec : EqDecision ResolutionStatus.
Proof. solve_decision. Defined.
Definition resolution_str (s : ResolutionStatus) : string :=
  match s with rs_approved => "approved" | rs_denied => "denied" | rs_aborted => "aborted" end.

Inductive ProposedPersistentRule : Type :=
| shell_rule (prefixTokens : list string) (cwdScope networkAccess : string)
| git_rule (allowedActions : list string) (repoScope : string)
| provider_rule (providerId : string) (allowedOperations : list string).
Definition rule_category (r : ProposedPersistentRule) : RiskyActionCategory :=
  match r with
  | shell_rule _ _ _ => SHELL_COMMAND
  | git_rule _ _ => GIT_MUTATION
  | provider_rule _ _ => PROVIDER_CONNECT
  end.

Record ApprovalRequest : Type := mkRequest {
  ar_requestId : string;
  ar_runId : string;
  ar_threadId : option string;
  ar_sessionId : option string;
  ar_turnId : option string;
  ar_itemId : option string;
  ar_origin : string;
  ar_category : RiskyActionCategory;
  ar_title : string;
  ar_reason : string;
  ar_command : option string;
  ar_cwd : option string;
  ar_affectedPaths : option (list string);
  ar_remoteTarget : option string;
  ar_actionFingerprint : string;
  ar_availableDecisions : list ApprovalDecisionKind;
  ar_proposedPersistentRule : option ProposedPersistentRule;
  ar_createdAt : string;
  ar_expiresAt : option string;
}.

Record ApprovalDecision : Type := mkDecision { ad_kind : ApprovalDecisionKind; ad_requestId : string }.

(** * Dates *)

(** The time values of a [Date] *)
Definition valid_time (t : Z) : bool := Z.abs t <=? 8640000000000000.

(** [new Date(t).toISOString()] of a valid time, and [Date.parse], where [None]
    is [NaN] *)
Class IsoDates : Type := {
  toISOString : Z -> string;
  Date_parse : string -> option Z;
  parse_iso t : 0 <= t -> valid_time t = true -> Date_parse (toISOString t) = Some t;
  iso_nonempty t : toISOString t <> "";
}.

Inductive approval_error : Type :=
| ApprovalError (message : string)
| RangeError.

(** * The stored state *)

Record ResolvedDecision : Type := mkResolved {
  rd_request : ApprovalRequest;
  rd_decision : ApprovalDecisionKind;
  rd_status : ResolutionStatus;
  rd_persistentRuleId : option string;
  rd_resolvedAt : string;
}.
Inductive GrantScope : Type := scope_once | scope_run.
#[export] Instance GrantScope_eq_dec : EqDecision GrantScope.
Proof. solve_decision. Defined.
Record RunAllowance : Type := mkAllowance {
  ra_scope : GrantScope;
  ra_createdAt : string;
  ra_consumedAt : option string;
}.
Record StoredPersistentPermissionRule : Type := mkRule {
  sr_ruleId : string;
  sr_createdAt : string;
  sr_createdByUserId : string;
  sr_category : RiskyActionCategory;
  sr_payload : ProposedPersistentRule;
}.
Record RiskyAttempt : Type := mkAttempt { at_count : Z; at_reason : string; at_updatedAt : string }.

Record ApprovalState : Type := mkApprovals {
  crossRepo : dict string;
  destructiveExpiresAt : option string;
  pendingRequest : option ApprovalRequest;
  pendingRequestOwnerUserId : option string;
  resolvedDecisions : dict ResolvedDecision;
  runAllowances : dict RunAllowance;
  persistentRules : list StoredPersistentPermissionRule;
  riskyAttempts : dict RiskyAttempt;
  updatedAt : string;
}.

(** Assignments to the fields *)
Definition set_crossRepo v (s : ApprovalState) := mkApprovals v (destructiveExpiresAt s) (pendingRequest s) (pendingRequestOwnerUserId s) (resolvedDecisions s) (runAllowances s) (persistentRules s) (riskyAttempts s) (updatedAt s).
Definition set_destructive v (s : ApprovalState) := mkApprovals (crossRepo s) v (pendingRequest s) (pendingRequestOwnerUserId s) (resolvedDecisions s) (runAllowances s) (persistentRules s) (riskyAttempts s) (updatedAt s).
Definition set_pending v (s : ApprovalState) := mkApprovals (crossRepo s) (destructiveExpiresAt s) v (pendingRequestOwnerUserId s) (resolvedDecisions s) (runAllowances s) (persistentRules s) (riskyAttempts s) (updatedAt s).
Definition set_owner v (s : ApprovalState) := mkApprovals (crossRepo s) (destructiveExpiresAt s) (pendingRequest s) v (resolvedDecisions s) (runAllowances s) (persistentRules s) (riskyAttempts s) (updatedAt s).
Definition set_resolved v (s : ApprovalState) := mkApprovals (crossRepo s) (destructiveExpiresAt s) (pendingRequest s) (pendingRequestOwnerUserId s) v (runAllowances s) (persistentRules s) (riskyAttempts s) (updatedAt s).
Definition set_allowances v (s : ApprovalState) := mkApprovals (crossRepo s) (destructiveExpiresAt s) (pendingRequest s) (pendingRequestOwnerUserId s) (resolvedDecisions s) v (persistentRules s) (riskyAttempts s) (updatedAt s).
Definition set_rules v (s : ApprovalState) := mkApprovals (crossRepo s) (destructiveExpiresAt s) (pendingRequest s) (pendingRequestOwnerUserId s) (resolvedDecisions s) (runAllowances s) v (riskyAttempts s) (updatedAt s).
Definition set_attempts v (s : ApprovalState) := mkApprovals (crossRepo s) (destructiveExpiresAt s) (pendingRequest s) (pendingRequestOwnerUserId s) (resolvedDecisions s) (runAllowances s) (persistentRules s) v (updatedAt s).
Definition set_updatedAt v (s : ApprovalState) := mkApprovals (crossRepo s) (destructiveExpiresAt s) (pendingRequest s) (pendingRequestOwnerUserId s) (resolvedDecisions s) (runAllowances s) (persistentRules s) (riskyAttempts s) v.

Definition RISKY_ATTEMPT_WINDOW_MS : Z := 5 * 60 * 1000.
Definition RESOLVED_DECISION_WINDOW_MS : Z := 10 * 60 * 1000.

Record PermissionDecisionResult : Type := mkResult {
  pd_request : ApprovalRequest;
  pd_decision : ApprovalDecisionKind;
  pd_status : ResolutionStatus;
  pd_persistentRuleId : option string;
}.

Definition UNSAFE_SHELL_PREFIXES : list string :=
  ["bash"; "sh"; "zsh"; "python"; "python3"; "node"; "deno"; "perl"; "ruby"; "env"; "sudo"].
Definition BROAD_SHELL_EXECUTABLES : list string := ["git"; "npm"; "pnpm"; "yarn"].

(** * The JSON text two parts of a state are compared by *)

Section Stable.
Context `{!JsRuntime}.

Definition stableStringify (value : json) : string := JSON_stringify (sortJsonValue value).
(** [undefined] has a text of its own. *)
Definition areJsonEqual (left right : option json) : bool :=
  bool_decide (stableStringify <$> left = stableStringify <$> right).
End Stable.

Definition opt_strs (k : string) (o : option (list string)) : list (string * json) :=
  match o with Some l => [(k, JArr (map JStr l))] | None => [] end.
Definition rule_json (r : ProposedPersistentRule) : json :=
  JObj (("category", JStr (category_str (rule_category r))) ::
    match r with
    | shell_rule tokens cwd net =>
        [("prefixTokens", JArr (map JStr tokens)); ("cwdScope", JStr cwd); ("networkAccess", JStr net)]
    | git_rule actions scope => [("allowedActions", JArr (map JStr actions)); ("repoScope", JStr scope)]
    | provider_rule id ops => [("providerId", JStr id); ("allowedOperations", JArr (map JStr ops))]
    end).
Definition request_json (r : ApprovalRequest) : json :=
  JObj ([("requestId", JStr (ar_requestId r)); ("runId", JStr (ar_runId r))] ++
    opt_entry "threadId" (ar_threadId r) ++ opt_entry "sessionId" (ar_sessionId r) ++
    opt_entry "turnId" (ar_turnId r) ++ opt_entry "itemId" (ar_itemId r) ++
    [("origin", JStr (ar_origin r)); ("category", JStr (category_str (ar_category r)));
     ("title", JStr (ar_title r)); ("reason", JStr (ar_reason r))] ++
    opt_entry "command" (ar_command r) ++ opt_entry "cwd" (ar_cwd r) ++
    opt_strs "affectedPaths" (ar_affectedPaths r) ++ opt_entry "remoteTarget" (ar_remoteTarget r) ++
    [("actionFingerprint", JStr (ar_actionFingerprint r));
     ("availableDecisions", JArr (map (fun k => JStr (kind_str k)) (ar_availableDecisions r)))] ++
    match ar_proposedPersistentRule r with Some p => [("proposedPersistentRule", rule_json p)] | None => [] end ++
    [("createdAt", JStr (ar_createdAt r))] ++ opt_entry "expiresAt" (ar_expiresAt r)).
Definition resolved_json (d : ResolvedDecision) : json :=
  JObj ([("request", request_json (rd_request d)); ("decision", JStr (kind_str (rd_decision d)));
         ("status", JStr (resolution_str (rd_status d)))] ++
        opt_entry "persistentRuleId" (rd_persistentRuleId d) ++ [("resolvedAt", JStr (rd_resolvedAt d))]).
Definition allowance_json (g : RunAllowance) : json :=
  JObj ([("scope", JStr (match ra_scope g with scope_once => "once" | scope_run => "run" end));
         ("createdAt", JStr (ra_createdAt g))] ++ opt_entry "consumedAt" (ra_consumedAt g)).
Definition stored_rule_json (r : StoredPersistentPermissionRule) : json :=
  JObj [("ruleId", JStr (sr_ruleId r)); ("category", JStr (category_str (sr_category r)));
        ("payload", rule_json (sr_payload r)); ("createdAt", JStr (sr_createdAt r));
        ("createdByUserId", JStr (sr_createdByUserId r)); ("source", JStr "approval")].
Definition attempt_json (a : RiskyAttempt) : json :=
  JObj [("count", JNum (NInt (at_count a))); ("reason", JStr (at_reason a));
        ("updatedAt", JStr (at_updatedAt a))].

(** * PermissionApprovalStore.ts *)

Notation approvals := (ST (option ApprovalState) approval_error).

Section Store.
Context `{!JsRuntime} `{!IsoDates}.

(** [Date.now()], which stands still during an operation, and the next
    [crypto.randomUUID()] *)
Variables (now : Z) (uuid : string).

Definition isExpired (request : ApprovalRequest) (nowMs : Z) : bool :=
  match truthy (ar_expiresAt request) with
  | None => false
  | Some expiresAt => match Date_parse expiresAt with Some t => t <=? nowMs | None => false end
  end.

Definition empty_approvals : ApprovalState :=
  mkApprovals [] None None None [] [] [] [] (toISOString now).

Definition loadState : approvals ApprovalState :=
  stored ← gets id;
  mret (match stored with
        | Some s => if String.eqb (updatedAt s) "" then set_updatedAt (toISOString now) s else s
        | None => empty_approvals
        end).

Definition put (s : ApprovalState) : approvals unit := modify (fun _ => Some s).

Definition within (window : Z) (t : string) (nowMs : Z) : bool :=
  match Date_parse t with Some ms => nowMs - ms <=? window | None => false end.
Definition later (t : string) (nowMs : Z) : bool :=
  match Date_parse t with Some ms => nowMs <? ms | None => false end.
Definition keep_entries {V} (p : V -> bool) (d : dict V) : dict V := List.filter (fun '(_, v) => p v) d.

Definition withPrunedApprovals (state : ApprovalState) (nowMs : Z) : ApprovalState :=
  mkApprovals
    (keep_entries (fun expiresAt => later expiresAt nowMs) (crossRepo state))
    (match truthy (destructiveExpiresAt state) with
     | Some expiresAt =>
         match Date_parse expiresAt with
         | Some ms => if ms <=? nowMs then None else destructiveExpiresAt state
         | None => destructiveExpiresAt state
         end
     | None => destructiveExpiresAt state
     end)
    (match pendingRequest state with
     | Some request => if isExpired request nowMs then None else Some request
     | None => None
     end)
    (pendingRequestOwnerUserId state)
    (keep_entries (fun d => within RESOLVED_DECISION_WINDOW_MS (rd_resolvedAt d) nowMs) (resolvedDecisions state))
    (runAllowances state)
    (persistentRules state)
    (keep_entries (fun a => within RISKY_ATTEMPT_WINDOW_MS (at_updatedAt a) nowMs) (riskyAttempts state))
    (updatedAt state).

(** [Object.entries(d).sort(([a], [b]) => a.localeCompare(b))] *)
Fixpoint insert_text (e : string * string) (l : list (string * string)) : list (string * string) :=
  match l with
  | [] => [e]
  | e' :: l' => if locale_le (fst e) (fst e') then e :: l else e' :: insert_text e l'
  end.
Definition sorted_texts (d : dict string) : list (string * string) := foldr insert_text [] d.

Definition isSameState (a b : ApprovalState) : bool :=
  bool_decide (destructiveExpiresAt a = destructiveExpiresAt b) &&
  bool_decide (ar_requestId <$> pendingRequest a = ar_requestId <$> pendingRequest b) &&
  areJsonEqual (request_json <$> pendingRequest a) (request_json <$> pendingRequest b) &&
  areJsonEqual (Some (JObj (dmap resolved_json (resolvedDecisions a))))
               (Some (JObj (dmap resolved_json (resolvedDecisions b)))) &&
  areJsonEqual (Some (JObj (dmap allowance_json (runAllowances a))))
               (Some (JObj (dmap allowance_json (runAllowances b)))) &&
  areJsonEqual (Some (JArr (map stored_rule_json (persistentRules a))))
               (Some (JArr (map stored_rule_json (persistentRules b)))) &&
  areJsonEqual (Some (JObj (dmap attempt_json (riskyAttempts a))))
               (Some (JObj (dmap attempt_json (riskyAttempts b)))) &&
  bool_decide (sorted_texts (crossRepo a) = sorted_texts (crossRepo b)).

Definition persistIfChanged (previousState nextState : ApprovalState) : approvals unit :=
  if isSameState previousState nextState then mret tt
  else put (set_updatedAt (toISOString now) nextState).

(** [await this.ctx.storage.put(this.key(), nextState)] after a change *)
Definition put_now (nextState : ApprovalState) : approvals unit :=
  put (set_updatedAt (toISOString now) nextState).

(** [new Date(t).toISOString()] *)
Definition iso (t : Z) : approvals string :=
  if valid_time t then mret (toISOString t) else throw RangeError.

Definition grantCrossRepo (repoRef : string) (ttlMs : Z) : approvals unit :=
  state ← loadState;
  let nextState := withPrunedApprovals state now in
  expiresAt ← iso (now + ttlMs);
  put_now (set_crossRepo (dset repoRef expiresAt (crossRepo nextState)) nextState).

(** [Boolean(expiresAt && Date.parse(expiresAt) > now)] *)
Definition still_allowed (expiresAt : option string) : bool :=
  match truthy expiresAt with Some t => later t now | None => false end.

Definition hasCrossRepo (repoRef : string) : approvals bool :=
  state ← loadState;
  let nextState := withPrunedApprovals state now in
  let allowed := still_allowed (dget repoRef (crossRepo nextState)) in
  _ ← persistIfChanged state nextState;
  mret allowed.

Definition grantDestructive (ttlMs : Z) : approvals unit :=
  state ← loadState;
  let nextState := withPrunedApprovals state now in
  expiresAt ← iso (now + ttlMs);
  put_now (set_destructive (Some expiresAt) nextState).

Definition hasDestructive : approvals bool :=
  state ← loadState;
  let nextState := withPrunedApprovals state now in
  let allowed := still_allowed (destructiveExpiresAt nextState) in
  _ ← persistIfChanged state nextState;
  mret allowed.

Definition getPendingRequest : approvals (option ApprovalRequest) :=
  state ← loadState;
  match pendingRequest state with
  | None => mret None
  | Some pending =>
      if match truthy (ar_expiresAt pending) with
         | Some expiresAt => match Date_parse expiresAt with Some t => t <=? now | None => false end
         | None => false
         end
      then
        let next := set_pending None (withPrunedApprovals state now) in
        _ ← persistIfChanged state next;
        mret None
      else mret (Some pending)
  end.

Definition setPendingRequest (request : ApprovalRequest) (ownerUserId : option string)
    : approvals ApprovalRequest :=
  state ← loadState;
  let next := withPrunedApprovals state now in
  let replaced := set_owner ownerUserId (set_pending (Some request) next) in
  match pendingRequest next with
  | Some current =>
      if negb (isExpired current now) then
        if String.eqb (ar_actionFingerprint current) (ar_actionFingerprint request) &&
           bool_decide (ar_category request = DANGEROUS_RETRY) &&
           bool_decide (ar_category current <> DANGEROUS_RETRY)
        then _ ← put_now replaced; mret request
        else mret current
      else _ ← put_now replaced; mret request
  | None => _ ← put_now replaced; mret request
  end.

Definition clearPendingRequest (requestId : option string) : approvals bool :=
  state ← loadState;
  match pendingRequest state with
  | None => mret false
  | Some pending =>
      if match truthy requestId with
         | Some id => negb (String.eqb (ar_requestId pending) id)
         | None => false
         end
      then mret false
      else
        let next := set_owner None (set_pending None (withPrunedApprovals state now)) in
        _ ← persistIfChanged state next;
        mret true
  end.

(** ** Decisions *)

Definition createPermissionDecisionResult (request : ApprovalRequest) (decision : ApprovalDecisionKind)
    : PermissionDecisionResult :=
  mkResult request decision
    (match decision with ABORT => rs_aborted | DENY => rs_denied | _ => rs_approved end) None.

Definition validatePendingDecision (state : ApprovalState) (decision : ApprovalDecision)
    (createdByUserId : option string) : res approval_error ApprovalRequest :=
  match pendingRequest state with
  | None => Err (ApprovalError "No pending approval request found.")
  | Some pending =>
      if negb (String.eqb (ar_requestId pending) (ad_requestId decision)) then
        Err (ApprovalError "Approval request id does not match pending request.")
      else if negb (bool_decide (ad_kind decision ∈ ar_availableDecisions pending)) then
        Err (ApprovalError "Decision kind is not allowed for this request.")
      else match truthy (pendingRequestOwnerUserId state), truthy createdByUserId with
           | Some _, None => Err (ApprovalError "Authentication required to resolve this approval.")
           | Some owner, Some user =>
               if negb (String.eqb owner user) then
                 Err (ApprovalError "Approval request owner does not match the resolving user.")
               else Ok pending
           | None, _ => Ok pending
           end
  end.

(** [/^[a-z0-9._:-]+$/] *)
Definition is_token_char (c : ascii) : bool :=
  ascii_between 97 122 c || ascii_between 48 57 c || Ascii.eqb c "." || Ascii.eqb c "_" ||
  Ascii.eqb c ":" || Ascii.eqb c "-".
Definition is_plain_token (token : string) : bool := negb (String.eqb token "") && str_forall is_token_char token.

Definition isValidProposedPersistentRule (rule : ProposedPersistentRule) : bool :=
  match rule with
  | shell_rule prefixTokens cwdScope _ =>
      if negb (String.eqb cwdScope "current_repo") then false
      else if (length prefixTokens =? 0)%nat || (4 <? length prefixTokens)%nat then false
      else
        let normalized := map (fun token => toLowerCase (trim token)) prefixTokens in
        if existsb (fun token => String.eqb token "") normalized then false
        else match normalized with
             | first :: rest =>
                 if String.eqb first "" || bool_decide (first ∈ UNSAFE_SHELL_PREFIXES) then false
                 else if (length normalized =? 1)%nat && bool_decide (first ∈ BROAD_SHELL_EXECUTABLES) then false
                 else forallb is_plain_token normalized
             | [] => false
             end
  | git_rule allowedActions repoScope =>
      if negb (String.eqb repoScope "current_repo") then false
      else if (length allowedActions =? 0)%nat then false
      else forallb (fun action => String.eqb action "stage" || String.eqb action "commit") allowedActions
  | provider_rule providerId allowedOperations =>
      if String.eqb (trim providerId) "" then false
      else if (length allowedOperations =? 0)%nat then false
      else forallb (fun op => String.eqb op "validate" || String.eqb op "connect") allowedOperations
  end.

Definition grantRunAllowance (state : ApprovalState) (actionFingerprint : string) (scope : GrantScope)
    : ApprovalState :=
  set_allowances (dset actionFingerprint (mkAllowance scope (toISOString now) None) (runAllowances state)) state.

Definition persistValidatedRule (state : ApprovalState) (pending : ApprovalRequest)
    (createdByUserId : option string) : res approval_error (ApprovalState * string) :=
  match ar_proposedPersistentRule pending with
  | None => Err (ApprovalError "No persistent rule is available for this request.")
  | Some proposedRule =>
      if negb (isValidProposedPersistentRule proposedRule) then
        Err (ApprovalError "Persistent rule was rejected because it is too broad or unsafe.")
      else match truthy (trim <$> createdByUserId) with
           | None => Err (ApprovalError "Persistent approval requires an authenticated user id.")
           | Some trimmedUserId =>
               Ok (set_rules (persistentRules state ++
                     [mkRule uuid (toISOString now) trimmedUserId (rule_category proposedRule) proposedRule]) state,
                   uuid)
           end
  end.

(** The state and the resolution after the decision took effect *)
Definition applyDecisionOutcome (state : ApprovalState) (pending : ApprovalRequest)
    (resolution : PermissionDecisionResult) (createdByUserId : option string)
    : res approval_error (ApprovalState * PermissionDecisionResult) :=
  match pd_decision resolution with
  | ALLOW_ONCE => Ok (grantRunAllowance state (ar_actionFingerprint pending) scope_once, resolution)
  | ALLOW_FOR_RUN => Ok (grantRunAllowance state (ar_actionFingerprint pending) scope_run, resolution)
  | ALLOW_PERSISTENT_RULE =>
      '(state', ruleId) ← persistValidatedRule state pending createdByUserId;
      Ok (state', mkResult (pd_request resolution) (pd_decision resolution) (pd_status resolution) (Some ruleId))
  | _ => Ok (state, resolution)
  end.

Definition resetRiskyAttempt (state : ApprovalState) (actionFingerprint : string) : ApprovalState :=
  set_attempts (ddel actionFingerprint (riskyAttempts state)) state.

Definition finalizeResolvedDecision (state : ApprovalState) (pending : ApprovalRequest)
    (resolution : PermissionDecisionResult) : ApprovalState :=
  let state := if bool_decide (pd_status resolution = rs_approved)
               then resetRiskyAttempt state (ar_actionFingerprint pending) else state in
  set_pending None
    (set_resolved (dset (ar_requestId pending)
       (mkResolved pending (pd_decision resolution) (pd_status resolution) (pd_persistentRuleId resolution)
          (toISOString now)) (resolvedDecisions state)) state).

Definition resolveDecision (decision : ApprovalDecision) (createdByUserId : option string)
    : approvals PermissionDecisionResult :=
  state ← loadState;
  let next := withPrunedApprovals state now in
  match dget (ad_requestId decision) (resolvedDecisions next) with
  | Some resolved =>
      if negb (bool_decide (rd_decision resolved = ad_kind decision)) then
        throw (ApprovalError "Approval request was already resolved differently.")
      else mret (mkResult (rd_request resolved) (rd_decision resolved) (rd_status resolved)
                          (rd_persistentRuleId resolved))
  | None =>
      pending ← lift (validatePendingDecision next decision createdByUserId);
      '(next, resolution) ← lift (applyDecisionOutcome next pending
                                    (createPermissionDecisionResult pending (ad_kind decision)) createdByUserId);
      _ ← put_now (finalizeResolvedDecision next pending resolution);
      mret resolution
  end.

(** ** Asking the approvals *)

Definition isActionAllowed (actionFingerprint : string) : approvals bool :=
  state ← loadState;
  let next := withPrunedApprovals state now in
  match dget actionFingerprint (runAllowances next) with
  | None => _ ← persistIfChanged state next; mret false
  | Some grant =>
      match ra_scope grant with
      | scope_once =>
          match truthy (ra_consumedAt grant) with
          | Some _ =>
              _ ← persistIfChanged state (set_allowances (ddel actionFingerprint (runAllowances next)) next);
              mret false
          | None =>
              let used := mkAllowance scope_once (ra_createdAt grant) (Some (toISOString now)) in
              _ ← persistIfChanged state
                    (set_allowances (dset actionFingerprint used (runAllowances next)) next);
              mret true
          end
      | scope_run => _ ← persistIfChanged state next; mret true
      end
  end.

Record RuleQuery : Type := mkQuery {
  rq_category : RiskyActionCategory;
  rq_command : option string;
  rq_gitAction : option string;
  rq_providerId : option string;
  rq_providerOperation : option string;
}.

Definition matchesPersistentRule (rule : StoredPersistentPermissionRule) (input : RuleQuery) : bool :=
  if bool_decide (sr_category rule <> rq_category input) then false
  else match sr_category rule with
       | SHELL_COMMAND =>
           match truthy (rq_command input) with
           | None => false
           | Some command =>
               let command := trim command in
               if String.eqb command "" then false
               else
                 let commandTokens := map toLowerCase (split_spaces command) in
                 match sr_payload rule with
                 | shell_rule prefixTokens _ _ =>
                     if (length commandTokens <? length prefixTokens)%nat then false
                     else bool_decide (take (length prefixTokens) commandTokens = prefixTokens)
                 | _ => false
                 end
           end
       | GIT_MUTATION =>
           match sr_payload rule, truthy (rq_gitAction input) with
           | git_rule allowedActions _, Some action => bool_decide (action ∈ allowedActions)
           | _, _ => false
           end
       | PROVIDER_CONNECT =>
           match sr_payload rule, truthy (rq_providerId input), truthy (rq_providerOperation input) with
           | provider_rule providerId allowedOperations, Some id, Some operation =>
               String.eqb providerId id && bool_decide (operation ∈ allowedOperations)
           | _, _, _ => false
           end
       | _ => false
       end.

Definition matchPersistentRule (input : RuleQuery) : approvals bool :=
  state ← loadState;
  let next := withPrunedApprovals state now in
  let matched := existsb (fun rule => matchesPersistentRule rule input) (persistentRules next) in
  _ ← persistIfChanged state next;
  mret matched.

(** ** Attempts and decisions *)

Definition registerRiskyAttempt (actionFingerprint reason : string) : approvals Z :=
  state ← loadState;
  let next := withPrunedApprovals state now in
  let count := match dget actionFingerprint (riskyAttempts next) with
               | None => 1
               | Some existing =>
                   if within RISKY_ATTEMPT_WINDOW_MS (at_updatedAt existing) now then at_count existing + 1 else 1
               end in
  _ ← persistIfChanged state
        (set_attempts (dset actionFingerprint (mkAttempt count reason (toISOString now)) (riskyAttempts next)) next);
  mret count.

Definition clearRiskyAttempt (actionFingerprint : string) : approvals unit :=
  state ← loadState;
  persistIfChanged state (resetRiskyAttempt (withPrunedApprovals state now) actionFingerprint).

Definition getResolvedDecision (requestId : string) : approvals (option ResolvedDecision) :=
  state ← loadState;
  let next := withPrunedApprovals state now in
  _ ← persistIfChanged state next;
  mret (dget requestId (resolvedDecisions next)).

Definition discardResolvedDecision (requestId : string) : approvals bool :=
  state ← loadState;
  let next := withPrunedApprovals state now in
  match dget requestId (resolvedDecisions next) with
  | None => mret false
  | Some resolved =>
      let next := match rd_decision resolved with
                  | ALLOW_ONCE | ALLOW_FOR_RUN =>
                      set_allowances (ddel (ar_actionFingerprint (rd_request resolved)) (runAllowances next)) next
                  | _ => next
                  end in
      let next := match truthy (rd_persistentRuleId resolved) with
                  | Some ruleId => set_rules (List.filter (fun rule => negb (String.eqb (sr_ruleId rule) ruleId))
                                                (persistentRules next)) next
                  | None => next
                  end in
      _ ← put_now (set_resolved (ddel requestId (resolvedDecisions next)) next);
      mret true
  end.
End Store.

(** * Calls *)

Inductive approval_call : Type :=
| a_grantCrossRepo (repoRef : string) (ttlMs : Z)
| a_hasCrossRepo (repoRef : string)
| a_grantDestructive (ttlMs : Z)
| a_hasDestructive
| a_getPendingRequest
| a_setPendingRequest (request : ApprovalRequest) (ownerUserId : option string)
| a_clearPendingRequest (requestId : option string)
| a_resolveDecision (decision : ApprovalDecision) (createdByUserId : option string)
| a_isActionAllowed (actionFingerprint : string)
| a_matchPersistentRule (input : RuleQuery)
| a_registerRiskyAttempt (actionFingerprint reason : string)
| a_clearRiskyAttempt (actionFingerprint : string)
| a_getResolvedDecision (requestId : string)
| a_discardResolvedDecision (requestId : string).

Inductive approval_answer : Type :=
| an_unit
| an_bool (b : bool)
| an_count (n : Z)
| an_request (r : option ApprovalRequest)
| an_resolution (r : PermissionDecisionResult)
| an_resolved (r : option ResolvedDecision).

Section Calls.
Context `{!JsRuntime} `{!IsoDates}.

Definition answer {A} (f : A -> approval_answer) (m : approvals A) : approvals approval_answer :=
  a ← m; mret (f a).

Definition approval_step (now : Z) (uuid : string) (c : approval_call) : approvals approval_answer :=
  match c with
  | a_grantCrossRepo repoRef ttl => answer (fun _ => an_unit) (grantCrossRepo now repoRef ttl)
  | a_hasCrossRepo repoRef => answer an_bool (hasCrossRepo now repoRef)
  | a_grantDestructive ttl => answer (fun _ => an_unit) (grantDestructive now ttl)
  | a_hasDestructive => answer an_bool (hasDestructive now)
  | a_getPendingRequest => answer an_request (getPendingRequest now)
  | a_setPendingRequest r owner => answer (fun r => an_request (Some r)) (setPendingRequest now r owner)
  | a_clearPendingRequest id => answer an_bool (clearPendingRequest now id)
  | a_resolveDecision d user => answer an_resolution (resolveDecision now uuid d user)
  | a_isActionAllowed f => answer an_bool (isActionAllowed now f)
  | a_matchPersistentRule q => answer an_bool (matchPersistentRule now q)
  | a_registerRiskyAttempt f reason => answer an_count (registerRiskyAttempt now f reason)
  | a_clearRiskyAttempt f => answer (fun _ => an_unit) (clearRiskyAttempt now f)
  | a_getResolvedDecision id => answer an_resolved (getResolvedDecision now id)
  | a_discardResolvedDecision id => answer an_bool (discardResolvedDecision now id)
  end.
End Calls.
