(* ===== verification/StableJson.v ===== *)
(** Texts that sort the keys of objects: equal texts come from values that are
    equal up to the order of keys. *)
From S2P Require Import Prelude Js EventStore Text Json Approvals.
#[local] Open Scope Z_scope.

Section Stable.
Context `{!JsRuntime}.

Lemma insert_entry_perm e l : Permutation (insert_entry e l) (e :: l).
Proof.
  induction l as [|e' l IH]; [done|]. cbn. destruct (locale_le _ _); [done|].
  rewrite IH. apply Permutation_swap.
Qed.

Lemma sort_entries_perm l : Permutation (sort_entries l) l.
Proof.
  induction l as [|e l IH]; [done|]. change (sort_entries (e :: l)) with (insert_entry e (sort_entries l)).
  by rewrite insert_entry_perm, IH.
Qed.

Lemma sort_object o :
  Permutation (map (fun '(k, v) => (k, sortJsonValue v)) o)
    (sort_entries (map (fun '(k, v) => (k, sortJsonValue v)) o)).
Proof. by rewrite sort_entries_perm. Qed.

Lemma map_sorted_keys (o : dict json) :
  map fst (map (fun '(k, v) => (k, sortJsonValue v)) o) = map fst o.
Proof. rewrite map_map. apply map_ext. by intros []. Qed.

Lemma exact_sorted j : exact_json j = true -> exact_json (sortJsonValue j) = true.
Proof.
  induction j as [| | | |l IH|o IH] using json_nested_ind; try done; cbn [exact_json sortJsonValue].
  - rewrite !forallb_forall. intros Hl x (y & <- & Hy)%in_map_iff.
    rewrite List.Forall_forall in IH. apply IH; [done|by apply Hl].
  - rewrite !andb_true_iff, !forallb_forall. intros [Hn Hv]. apply bool_decide_eq_true in Hn. split.
    + apply bool_decide_eq_true. rewrite (Permutation_map fst (sort_entries_perm _)). by rewrite map_sorted_keys.
    + intros [k v] Hin. apply (Permutation_in _ (sort_entries_perm _)) in Hin.
      apply in_map_iff in Hin as ([k' v'] & [= <- <-] & Hin).
      rewrite List.Forall_forall in IH. apply (IH (k', v') Hin). apply (Hv _ Hin).
Qed.

Definition plain_numbers : JsonNumbers := {| number_of_text _ := NInt 0 |}.

Lemma stringify_inj a b :
  exact_json a = true -> exact_json b = true -> JSON_stringify a = JSON_stringify b -> a = b.
Proof.
  intros Ha Hb Hs. pose proof (JSON_parse_stringify (H := plain_numbers) a Ha) as Pa.
  pose proof (JSON_parse_stringify (H := plain_numbers) b Hb) as Pb. rewrite Hs in Pa. congruence.
Qed.

Lemma stable_inj a b :
  exact_json a = true -> exact_json b = true -> stableStringify a = stableStringify b ->
  sortJsonValue a = sortJsonValue b.
Proof. intros. apply stringify_inj; [by apply exact_sorted..|done]. Qed.

Lemma dget_sorted o k :
  NoDup (dkeys o) ->
  dget k (sort_entries (map (fun '(k, v) => (k, sortJsonValue v)) o)) = sortJsonValue <$> dget k o.
Proof.
  intros Hn. assert (E : map (fun '(k, v) => (k, sortJsonValue v)) o = dmap sortJsonValue o).
  { unfold dmap. apply map_ext. by intros []. }
  rewrite E, <- dget_dmap. pose proof (sort_entries_perm (dmap sortJsonValue o)) as Hp.
  assert (Hs : NoDup (dkeys (dmap sortJsonValue o))) by by rewrite dkeys_dmap.
  assert (Hs' : NoDup (dkeys (sort_entries (dmap sortJsonValue o)))).
  { unfold dkeys. by rewrite (Permutation_map fst Hp). }
  destruct (dget k (dmap sortJsonValue o)) as [v|] eqn:Ev.
  - apply elem_dget; [done|]. rewrite Hp. by apply dget_elem.
  - apply dget_None. apply dget_None in Ev. unfold dkeys. by rewrite (Permutation_map fst Hp).
Qed.

(** Equal texts of two objects: their fields have equal sorted values. *)
Lemma equal_objects o1 o2 k :
  exact_json (JObj o1) = true -> exact_json (JObj o2) = true ->
  areJsonEqual (Some (JObj o1)) (Some (JObj o2)) = true ->
  sortJsonValue <$> dget k o1 = sortJsonValue <$> dget k o2.
Proof.
  intros H1 H2 He. apply bool_decide_eq_true in He.
  assert (Hs : stableStringify (JObj o1) = stableStringify (JObj o2)) by by exact (inj Some _ _ He).
  clear He. apply stable_inj in Hs as He; [|done|done]. cbn [sortJsonValue] in He. injection He as He.
  apply andb_true_iff in H1 as [H1%bool_decide_eq_true _], H2 as [H2%bool_decide_eq_true _].
  by rewrite <- (dget_sorted o1), <- (dget_sorted o2), He.
Qed.
End Stable.
