(* ===== verification/ApprovalsProps.v ===== *)
(** What the approvals of a run allow: every action that is allowed without
    being asked for again is accounted for by a decision of the user. *)
From S2P Require Import Prelude Js Regex EventStore Text Json Approvals StableJson.
From Stdlib Require Import Ascii Decimal DecimalString DecimalZ.
#[local] Open Scope Z_scope.

(** * Runs of calls *)

(** A call, when it is made, and the identifier it may draw *)
Record timed_call : Type := mkCall { tc_now : Z; tc_uuid : string; tc_call : approval_call }.

Section Runs.
Context `{!JsRuntime} `{!IsoDates}.

Definition do_call (c : timed_call) : approvals approval_answer :=
  approval_step (tc_now c) (tc_uuid c) (tc_call c).

Fixpoint run_approvals (calls : list timed_call) (s : option ApprovalState)
    : list (res approval_error approval_answer) * option ApprovalState :=
  match calls with
  | [] => ([], s)
  | c :: calls =>
      let '(r, s1) := do_call c s in
      let '(rs, s2) := run_approvals calls s1 in (r :: rs, s2)
  end.

(** The state as an operation sees it *)
Definition loaded (now : Z) (s : option ApprovalState) : ApprovalState :=
  match s with
  | Some st => if String.eqb (updatedAt st) "" then set_updatedAt (toISOString now) st else st
  | None => empty_approvals now
  end.
Definition seen (now : Z) (s : option ApprovalState) : ApprovalState := withPrunedApprovals (loaded now s) now.

(** ** What is counted *)

(** The call takes a decision that grants the action, which had not been taken
    before. *)
Definition grants (scope : ApprovalDecisionKind) (f : string) (c : timed_call) (s : option ApprovalState) : bool :=
  match tc_call c, fst (do_call c s) with
  | a_resolveDecision decision _, Ok (an_resolution r) =>
      bool_decide (pd_decision r = scope) && String.eqb (ar_actionFingerprint (pd_request r)) f &&
      negb (is_some (dget (ad_requestId decision) (resolvedDecisions (seen (tc_now c) s))))
  | _, _ => false
  end.

(** The call allows the action. *)
Definition allows (f : string) (c : timed_call) (s : option ApprovalState) : bool :=
  match tc_call c, fst (do_call c s) with
  | a_isActionAllowed f', Ok (an_bool true) => String.eqb f' f
  | _, _ => false
  end.

(** How many calls of a run satisfy a condition *)
Fixpoint count_calls (p : timed_call -> option ApprovalState -> bool) (calls : list timed_call)
    (s : option ApprovalState) : Z :=
  match calls with
  | [] => 0
  | c :: calls => (if p c s then 1 else 0) + count_calls p calls (snd (do_call c s))
  end.

(** ** Allowances *)

Definition allowances (s : option ApprovalState) : dict RunAllowance :=
  match s with Some st => runAllowances st | None => [] end.

(** The scope of an allowance that has not been used up *)
Definition usable (d : dict RunAllowance) (f : string) : option GrantScope :=
  g ← dget f d;
  match ra_scope g, truthy (ra_consumedAt g) with
  | scope_once, Some _ => None
  | scope, _ => Some scope
  end.

Lemma loadState_eq now {A} (k : ApprovalState -> approvals A) s :
  (st ← loadState now; k st) s = k (loaded now s) s.
Proof.
  unfold loadState, loaded, mbind, ST_bind, gets, mret, ST_ret. cbn. by destruct s as [st|].
Qed.

Lemma loaded_allowances now s : runAllowances (loaded now s) = allowances s.
Proof. unfold loaded. destruct s as [st|]; [by destruct (String.eqb _ _)|done]. Qed.

(** Two allowances with one JSON text are the same. *)
Lemma allowance_json_inj g g' :
  sortJsonValue (allowance_json g) = sortJsonValue (allowance_json g') ->
  exact_json (allowance_json g) = true -> exact_json (allowance_json g') = true -> g = g'.
Proof.
  intros Hs He He'. unfold allowance_json in *. set (o := [_; _] ++ _) in *. set (o' := [_; _] ++ _) in Hs, He'.
  change (JObj (sort_entries (map (fun '(k, v) => (k, sortJsonValue v)) o)) =
          JObj (sort_entries (map (fun '(k, v) => (k, sortJsonValue v)) o'))) in Hs.
  assert (Hs' : sort_entries (map (fun '(k, v) => (k, sortJsonValue v)) o) =
                sort_entries (map (fun '(k, v) => (k, sortJsonValue v)) o')) by congruence.
  apply andb_true_iff in He as [He%bool_decide_eq_true _], He' as [He'%bool_decide_eq_true _].
  assert (Hk : forall k, sortJsonValue <$> dget k o = sortJsonValue <$> dget k o').
  { intros k. by rewrite <- !dget_sorted, Hs'. }
  pose proof (Hk "scope") as Hscope. pose proof (Hk "createdAt") as Hcreated. pose proof (Hk "consumedAt") as Hused.
  subst o o'. clear Hs Hs' He He' Hk.
  destruct g as [[] created [used|]], g' as [[] created' [used'|]]; vm_compute in Hscope, Hcreated, Hused; congruence.
Qed.

Lemma allowance_exact g : exact_json (allowance_json g) = true.
Proof. destruct g as [[] ? []]; reflexivity. Qed.

Lemma allowances_exact d : NoDup (dkeys d) -> exact_json (JObj (dmap allowance_json d)) = true.
Proof.
  intros Hn. cbn [exact_json]. apply andb_true_iff. split.
  - apply bool_decide_eq_true. change (NoDup (dkeys (dmap allowance_json d))). by rewrite dkeys_dmap.
  - apply forallb_forall. intros [k v] Hin. apply in_map_iff in Hin as ([k' g] & [= <- <-] & _).
    apply allowance_exact.
Qed.

(** States that are the same for the store allow the same. *)
Lemma same_allowances a b f :
  NoDup (dkeys (runAllowances a)) -> NoDup (dkeys (runAllowances b)) -> isSameState a b = true ->
  dget f (runAllowances a) = dget f (runAllowances b).
Proof.
  intros Ha Hb Hs. unfold isSameState in Hs. rewrite !andb_true_iff in Hs.
  destruct Hs as [[[[_ He] _] _] _].
  pose proof (equal_objects _ _ f (allowances_exact _ Ha) (allowances_exact _ Hb) He) as Hf.
  rewrite !dget_dmap in Hf.
  destruct (dget f (runAllowances a)) as [g|], (dget f (runAllowances b)) as [g'|]; try done.
  f_equal. apply allowance_json_inj; [exact (inj Some _ _ Hf)|apply allowance_exact..].
Qed.

(** ** Writing a state *)

Definition sane (s : option ApprovalState) : Prop := NoDup (dkeys (allowances s)).

(** What a state that is written, or is the same as the stored one, leaves *)
Lemma approval_persist_spec now st next s :
  st = loaded now s -> sane s -> NoDup (dkeys (runAllowances next)) ->
  exists s', persistIfChanged now st next s = (Ok tt, s') /\ sane s' /\
    forall f, dget f (allowances s') = dget f (runAllowances next).
Proof.
  intros -> Hs Hn. unfold persistIfChanged. destruct (isSameState _ _) eqn:E.
  - exists s. split; [done|]. split; [done|]. intros f. rewrite <- (same_allowances (loaded now s) next f); [|..|exact E].
    + by rewrite loaded_allowances.
    + by rewrite loaded_allowances.
    + done.
  - exists (Some (set_updatedAt (toISOString now) next)). by repeat split.
Qed.

(** A call that ends by writing [next], whatever it answers *)
Definition leaves (d : dict RunAllowance) (s' : option ApprovalState) : Prop :=
  sane s' /\ forall f, dget f (allowances s') = dget f d.

Lemma leaves_self s : sane s -> leaves (allowances s) s.
Proof. by split. Qed.

Lemma leaves_usable d s' f : leaves d s' -> usable (allowances s') f = usable d f.
Proof. intros [_ Hd]. unfold usable. by rewrite Hd. Qed.

Lemma persist_answer now st next s {A} (a : A) :
  st = loaded now s -> sane s -> NoDup (dkeys (runAllowances next)) ->
  let '(r, s') := (_ ← persistIfChanged now st next; mret a) s in
  r = Ok a /\ leaves (runAllowances next) s'.
Proof.
  intros Hst Hs Hn. destruct (approval_persist_spec now st next s Hst Hs Hn) as (s' & E & Hs' & Hd).
  unfold mbind, ST_bind. rewrite E. done.
Qed.

Lemma put_answer now next s {A} (a : A) :
  NoDup (dkeys (runAllowances next)) ->
  let '(r, s') := (_ ← put_now now next; mret a) s in r = Ok a /\ leaves (runAllowances next) s'.
Proof. done. Qed.

(** ** One call *)

(** How a call may change what is allowed of an action: not at all; it takes the
    allowance away; or a decision grants it. *)
Definition step_ok (f : string) (c : timed_call) (s : option ApprovalState) : Prop :=
  let s' := snd (do_call c s) in
  let before := usable (allowances s) f in
  let after := usable (allowances s') f in
  sane s' /\
  (after = before \/ after = None \/
   grants ALLOW_ONCE f c s = true /\ after = Some scope_once \/
   grants ALLOW_FOR_RUN f c s = true /\ after = Some scope_run) /\
  (allows f c s = true -> before = Some scope_run \/ before = Some scope_once /\ after = None).

(** A call that leaves the allowances alone *)
Lemma step_same f c s d :
  leaves d (snd (do_call c s)) -> usable d f = usable (allowances s) f -> allows f c s = false -> step_ok f c s.
Proof.
  intros Hl Hd Ha. split; [apply Hl|]. rewrite (leaves_usable _ _ f Hl), Ha. split; [by left|done].
Qed.

Lemma pruned_allowances now s : runAllowances (seen now s) = allowances s.
Proof. apply loaded_allowances. Qed.

Lemma quiet_ok f c s :
  (forall f', tc_call c <> a_isActionAllowed f') -> leaves (allowances s) (snd (do_call c s)) -> step_ok f c s.
Proof.
  intros Hc Hl. apply (step_same f c s (allowances s)); [done|done|].
  unfold allows. destruct (tc_call c) eqn:E; try done. by destruct (Hc actionFingerprint).
Qed.

(** The calls that only prune, and those that write other fields *)
Lemma answer_state {A} (g : A -> approval_answer) (m : approvals A) s : snd (answer g m s) = snd (m s).
Proof. unfold answer, mbind, ST_bind. by destruct (m s) as [[] s']. Qed.

Lemma persist_quiet now s next {A} (a : A) :
  sane s -> runAllowances next = allowances s ->
  leaves (allowances s) (snd ((_ ← persistIfChanged now (loaded now s) next; mret a) s)).
Proof.
  intros Hs Hn. pose proof (persist_answer now (loaded now s) next s a eq_refl Hs) as Hp.
  rewrite Hn in Hp. specialize (Hp Hs). destruct ((_ ← persistIfChanged _ _ _; mret a) s) as [r s']. apply Hp.
Qed.

Lemma put_quiet now s next {A} (a : A) :
  sane s -> runAllowances next = allowances s ->
  leaves (allowances s) (snd ((_ ← put_now now next; mret a) s)).
Proof.
  intros Hs Hn. change (leaves (allowances s) (Some (set_updatedAt (toISOString now) next))).
  unfold leaves, sane. cbn [allowances set_updatedAt runAllowances]. rewrite Hn. by split.
Qed.

Lemma quiet_calls c s :
  sane s ->
  match c.(tc_call) with
  | a_resolveDecision _ _ | a_isActionAllowed _ | a_discardResolvedDecision _ => True
  | _ => leaves (allowances s) (snd (do_call c s))
  end.
Proof.
  intros Hs. pose proof (leaves_self s Hs) as Hself. destruct c as [now uuid [] ]; try exact I;
    unfold do_call; cbn [tc_call tc_now tc_uuid approval_step]; rewrite answer_state.
  - unfold grantCrossRepo. rewrite loadState_eq. unfold iso. destruct (valid_time _); [|done].
    apply (put_quiet now s _ tt Hs). apply pruned_allowances.
  - unfold hasCrossRepo. rewrite loadState_eq. by apply persist_quiet; [|apply pruned_allowances].
  - unfold grantDestructive. rewrite loadState_eq. unfold iso. destruct (valid_time _); [|done].
    apply (put_quiet now s _ tt Hs). apply pruned_allowances.
  - unfold hasDestructive. rewrite loadState_eq. by apply persist_quiet; [|apply pruned_allowances].
  - unfold getPendingRequest. rewrite loadState_eq. destruct (pendingRequest _); [|done].
    destruct (match truthy _ with Some _ => _ | None => _ end); [|done].
    by apply persist_quiet; [|apply pruned_allowances].
  - unfold setPendingRequest. rewrite loadState_eq.
    destruct (pendingRequest _) as [current|]; [destruct (negb _); [destruct (_ && _ && _)|]|]; try done;
      (apply put_quiet; [done|apply pruned_allowances]).
  - unfold clearPendingRequest. rewrite loadState_eq. destruct (pendingRequest _); [|done].
    destruct (match truthy _ with Some _ => _ | None => _ end); [done|].
    by apply persist_quiet; [|apply pruned_allowances].
  - unfold matchPersistentRule. rewrite loadState_eq. by apply persist_quiet; [|apply pruned_allowances].
  - unfold registerRiskyAttempt. rewrite loadState_eq. by apply persist_quiet; [|apply pruned_allowances].
  - unfold clearRiskyAttempt. rewrite loadState_eq.
    pose proof (persist_quiet now s (resetRiskyAttempt (seen now s) actionFingerprint) tt Hs
                  (pruned_allowances now s)) as Hq.
    unfold mbind, ST_bind in Hq. unfold seen in Hq. by destruct (persistIfChanged _ _ _ s) as [[[]|] s'].
  - unfold getResolvedDecision. rewrite loadState_eq. by apply persist_quiet; [|apply pruned_allowances].
Qed.

(** ** The calls that give and take allowances *)

Lemma usable_del d f f' :
  NoDup (dkeys d) -> usable (ddel f' d) f = None \/ usable (ddel f' d) f = usable d f.
Proof. intros Hn. unfold usable. rewrite dget_ddel by done. case_decide; [by left|by right]. Qed.

Lemma truthy_iso t : truthy (Some (toISOString t)) = Some (toISOString t).
Proof. pose proof (iso_nonempty t). by destruct (toISOString t). Qed.

Definition scope_of (g : RunAllowance) : option GrantScope :=
  match ra_scope g, truthy (ra_consumedAt g) with
  | scope_once, Some _ => None
  | scope, _ => Some scope
  end.
Lemma usable_dget d f g : dget f d = Some g -> usable d f = scope_of g.
Proof. intros Hg. unfold usable. by rewrite Hg. Qed.
Lemma usable_dset d f f' g : usable (dset f' g d) f = if decide (f = f') then scope_of g else usable d f.
Proof. unfold usable. rewrite dget_dset. by case_decide. Qed.
Lemma scope_used t created : scope_of (mkAllowance scope_once created (Some (toISOString t))) = None.
Proof. unfold scope_of. cbn [ra_scope ra_consumedAt]. by rewrite truthy_iso. Qed.

Lemma allowed_ok f now uuid f' s :
  sane s -> step_ok f (mkCall now uuid (a_isActionAllowed f')) s.
Proof.
  intros Hs. set (c := mkCall _ _ _).
  assert (Hdo : do_call c s = answer an_bool (isActionAllowed now f') s) by done.
  unfold step_ok. rewrite Hdo, answer_state.
  assert (Hal : allows f c s = true -> fst (isActionAllowed now f' s) = Ok true /\ f' = f).
  { unfold allows. cbn [tc_call c]. rewrite Hdo. unfold answer, mbind, ST_bind.
    destruct (isActionAllowed now f' s) as [[[]|] s']; cbn; try done. intros ->%String.eqb_eq. done. }
  unfold isActionAllowed in *. rewrite loadState_eq in *. fold (seen now s) in *.
  pose proof (pruned_allowances now s) as Hpr. destruct (dget f' (runAllowances (seen now s))) as [grant|] eqn:Eg.
  2:{ pose proof (persist_answer now _ (seen now s) s false eq_refl Hs ltac:(by rewrite Hpr)) as Hp.
      destruct ((_ ← persistIfChanged _ _ _; mret false) s) as [r s']. cbn [fst snd] in *. destruct Hp as [-> Hl]. rewrite Hpr in Hl.
      split; [apply Hl|]. rewrite (leaves_usable _ _ f Hl). split; [by left|]. by intros [? _]%Hal. }
  destruct grant as [[] created consumed]; cbn [ra_scope ra_consumedAt ra_createdAt] in *.
  - destruct (truthy consumed) as [t|] eqn:Et.
    + set (next := set_allowances _ _) in *.
      pose proof (persist_answer now _ next s false eq_refl Hs ltac:(subst next; cbn [set_allowances runAllowances]; rewrite Hpr; by apply NoDup_ddel)) as Hp.
      destruct ((_ ← persistIfChanged _ _ _; mret false) s) as [r s']. cbn [fst snd] in *. destruct Hp as [-> Hl].
      split; [apply Hl|]. rewrite (leaves_usable _ _ f Hl). subst next. cbn [set_allowances runAllowances]. rewrite Hpr.
      split; [|by intros [? _]%Hal]. destruct (usable_del (allowances s) f f' Hs) as [->| ->]; [by right; left|by left].
    + set (next := set_allowances _ _) in *.
      pose proof (persist_answer now _ next s true eq_refl Hs ltac:(subst next; cbn [set_allowances runAllowances]; rewrite Hpr; by apply NoDup_dset)) as Hp.
      destruct ((_ ← persistIfChanged _ _ _; mret true) s) as [r s']. cbn [fst snd] in *. destruct Hp as [-> Hl].
      split; [apply Hl|]. rewrite (leaves_usable _ _ f Hl). subst next. cbn [set_allowances runAllowances]. rewrite Hpr in *.
      rewrite usable_dset, scope_used. case_decide as Hf; [subst f|].
      * split; [by right; left|]. intros _. right. rewrite (usable_dget _ _ _ Eg). unfold scope_of.
        cbn [ra_scope ra_consumedAt]. by rewrite Et.
      * split; [by left|]. intros [_ ->]%Hal. done.
  - pose proof (persist_answer now _ (seen now s) s true eq_refl Hs ltac:(by rewrite Hpr)) as Hp.
    destruct ((_ ← persistIfChanged _ _ _; mret true) s) as [r s']. cbn [fst snd] in *. destruct Hp as [-> Hl]. rewrite Hpr in *.
    split; [apply Hl|]. rewrite (leaves_usable _ _ f Hl). split; [by left|]. intros [_ ->]%Hal. left.
    by rewrite (usable_dget _ _ _ Eg).
Qed.

Lemma discard_ok f now uuid id s :
  sane s -> step_ok f (mkCall now uuid (a_discardResolvedDecision id)) s.
Proof.
  intros Hs. set (c := mkCall _ _ _).
  assert (Hdo : do_call c s = answer an_bool (discardResolvedDecision now id) s) by done.
  assert (Hal : allows f c s = false) by done.
  unfold step_ok. rewrite Hdo, answer_state, Hal. unfold discardResolvedDecision. rewrite loadState_eq.
  fold (seen now s). pose proof (pruned_allowances now s) as Hpr.
  destruct (dget id (resolvedDecisions (seen now s))) as [resolved|]; [|by split; [|split; [by left|]]].
  set (next := match rd_decision resolved with ALLOW_ONCE | ALLOW_FOR_RUN => _ | _ => _ end).
  assert (Hn : NoDup (dkeys (runAllowances next)) /\
               (usable (runAllowances next) f = None \/ usable (runAllowances next) f = usable (allowances s) f)).
  { subst next. destruct (rd_decision resolved); cbn [set_allowances runAllowances]; rewrite Hpr;
      try (split; [by apply NoDup_ddel|by apply usable_del]); (split; [done|by right]). }
  set (next2 := match truthy _ with Some _ => _ | None => _ end).
  assert (He : runAllowances next2 = runAllowances next) by (subst next2; by destruct (truthy _)).
  clearbody next2 next. destruct Hn as [Hn Hu].
  pose proof (put_answer now (set_resolved (ddel id (resolvedDecisions next2)) next2) s true) as Hp.
  destruct ((_ ← put_now _ _; mret true) s) as [r s']. cbn [fst snd set_resolved runAllowances] in *. rewrite He in Hp.
  specialize (Hp Hn) as [_ Hl]. split; [apply Hl|]. rewrite (leaves_usable _ _ f Hl).
  split; [|done]. destruct Hu as [->| ->]; [by right; left|by left].
Qed.

(** What [resolveDecision] does on every branch *)
Lemma resolve_eq now uuid d user s :
  let next := seen now s in
  resolveDecision now uuid d user s =
  match dget (ad_requestId d) (resolvedDecisions next) with
  | Some r =>
      (if bool_decide (rd_decision r = ad_kind d)
       then Ok (mkResult (rd_request r) (rd_decision r) (rd_status r) (rd_persistentRuleId r))
       else Err (ApprovalError "Approval request was already resolved differently."), s)
  | None =>
      match validatePendingDecision next d user with
      | Err e => (Err e, s)
      | Ok p =>
          match applyDecisionOutcome now uuid next p (createPermissionDecisionResult p (ad_kind d)) user with
          | Err e => (Err e, s)
          | Ok (st, r) => (Ok r, Some (set_updatedAt (toISOString now) (finalizeResolvedDecision now st p r)))
          end
      end
  end.
Proof.
  cbn zeta. unfold resolveDecision. rewrite loadState_eq. fold (seen now s).
  destruct (dget _ _) as [r|]; [by destruct (bool_decide _)|].
  unfold mbind, ST_bind, lift. destruct (validatePendingDecision _ _ _) as [p|e]; [|done].
  by destruct (applyDecisionOutcome _ _ _ _ _ _) as [[st r]|e].
Qed.

(** An action is allowed exactly when it has an allowance that is not used up. *)
Lemma allowed_answer now f s : fst (isActionAllowed now f s) = Ok (is_some (usable (allowances s) f)).
Proof.
  unfold isActionAllowed, usable. rewrite loadState_eq. fold (seen now s). rewrite (pruned_allowances now s).
  assert (Hp : forall st next (b : bool), fst ((_ ← persistIfChanged now st next; mret b) s) = Ok b).
  { intros st next b. unfold persistIfChanged. by destruct (isSameState _ _). }
  destruct (dget f (allowances s)) as [[[] created used]|]; cbn; [destruct (truthy used)| |]; by rewrite Hp.
Qed.

(** What a decision that is applied makes of the state *)
Lemma apply_spec now uuid st p k user st' r :
  applyDecisionOutcome now uuid st p (createPermissionDecisionResult p k) user = Ok (st', r) ->
  pd_request r = p /\ pd_decision r = k /\
  pd_status r = pd_status (createPermissionDecisionResult p k) /\
  resolvedDecisions st' = resolvedDecisions st /\
  runAllowances st' =
    match k with
    | ALLOW_ONCE => dset (ar_actionFingerprint p) (mkAllowance scope_once (toISOString now) None) (runAllowances st)
    | ALLOW_FOR_RUN => dset (ar_actionFingerprint p) (mkAllowance scope_run (toISOString now) None) (runAllowances st)
    | _ => runAllowances st
    end.
Proof.
  destruct k; cbn; try by intros [= <- <-].
  unfold mbind, res_bind, persistValidatedRule.
  destruct (ar_proposedPersistentRule p) as [rule|]; [|done]. destruct (negb _); [done|].
  destruct (truthy _); [|done]. by intros [= <- <-].
Qed.

Lemma resolve_ok f now uuid d user s :
  sane s -> step_ok f (mkCall now uuid (a_resolveDecision d user)) s.
Proof.
  intros Hs. set (c := mkCall _ _ _).
  assert (Hdo : do_call c s = answer an_resolution (resolveDecision now uuid d user) s) by done.
  unfold step_ok, grants. cbn [tc_call tc_now c]. rewrite Hdo, answer_state.
  assert (Hal : allows f c s = false) by done. rewrite Hal.
  unfold answer, mbind, ST_bind. rewrite resolve_eq. pose proof (pruned_allowances now s) as Hpr.
  destruct (dget _ _) as [r|]; [destruct (bool_decide (rd_decision r = _)); by split; [|split; [by left|]]|].
  destruct (validatePendingDecision _ _ _) as [p|e]; [|by split; [|split; [by left|]]].
  destruct (applyDecisionOutcome _ _ _ _ _ _) as [[st r]|e] eqn:Ea; [|by split; [|split; [by left|]]].
  apply apply_spec in Ea as (Hp & Hk & _ & _ & Hd). rewrite Hpr in Hd. cbn [fst snd mret ST_ret] in *.
  set (s' := Some _). assert (Hs' : allowances s' = runAllowances st).
  { subst s'. unfold finalizeResolvedDecision. by destruct (bool_decide (pd_status r = _)). }
  unfold sane. rewrite Hs', Hd, Hp, Hk. cbn [is_some negb]. rewrite andb_true_r.
  destruct (ad_kind d); try (by split; [|split; [by left|]]).
  all: split; [by apply NoDup_dset|]; split; [|done]; rewrite usable_dset; case_decide as Hf; [subst f|by left];
    right; right; rewrite !(bool_decide_true _ eq_refl), String.eqb_refl; cbn; first [by left|by right].
Qed.

Lemma step_all f c s : sane s -> step_ok f c s.
Proof.
  intros Hs. destruct c as [now uuid c]. pose proof (quiet_calls (mkCall now uuid c) s Hs) as Hq.
  destruct c; try (by apply quiet_ok); [by apply resolve_ok|by apply allowed_ok|by apply discard_ok].
Qed.

(** ** Runs *)

(** The uses of [f] still paid for *)
Definition credit (f : string) (s : option ApprovalState) : Z :=
  match usable (allowances s) f with Some scope_once => 1 | _ => 0 end.

Lemma accounted f calls s :
  sane s -> usable (allowances s) f <> Some scope_run ->
  count_calls (grants ALLOW_FOR_RUN f) calls s = 0 ->
  count_calls (allows f) calls s <= count_calls (grants ALLOW_ONCE f) calls s + credit f s.
Proof.
  revert s. induction calls as [|c calls IH]; intros s Hs Hu Hr; cbn [count_calls] in *.
  { unfold credit. by repeat case_match. }
  assert (Hpos : 0 <= count_calls (grants ALLOW_FOR_RUN f) calls (snd (do_call c s))).
  { generalize (snd (do_call c s)). clear. induction calls as [|c calls IH]; intros s; cbn; [done|].
    specialize (IH (snd (do_call c s))). destruct (grants _ _ _ _); lia. }
  destruct (grants ALLOW_FOR_RUN f c s) eqn:Eg; [lia|].
  destruct (step_all f c s Hs) as (Hs' & Hafter & Hallow).
  assert (Hu' : usable (allowances (snd (do_call c s))) f <> Some scope_run)
    by (destruct Hafter as [->|[->|[[_ ->]|[E _]]]]; congruence).
  specialize (IH _ Hs' Hu' Hr). unfold credit in *.
  destruct (allows f c s).
  - destruct (Hallow eq_refl) as [E|[E1 E2]]; [done|]. rewrite E2 in IH. rewrite E1.
    destruct (grants ALLOW_ONCE f c s); lia.
  - destruct Hafter as [E|[E|[[Eo E]|[E _]]]]; [rewrite E in IH..|congruence].
    + destruct (grants ALLOW_ONCE f c s); lia.
    + destruct (usable (allowances s) f) as [[]|], (grants ALLOW_ONCE f c s); lia.
    + rewrite Eo. destruct (usable (allowances s) f) as [[]|]; lia.
Qed.

(** ** One decision *)

Lemma dget_keep {V} (q : V -> bool) k v (d : dict V) :
  dget k d = Some v -> q v = true -> dget k (keep_entries q d) = Some v.
Proof.
  induction d as [|[k' v'] d IH]; [done|]. cbn. case_decide as Hk.
  - intros [= ->] Hq. unfold keep_entries. cbn. rewrite Hq. cbn. by rewrite decide_True.
  - intros Hd Hq. specialize (IH Hd Hq). unfold keep_entries in *. cbn. destruct (q v'); [|done].
    cbn. by rewrite decide_False.
Qed.

(** A decision is still known until its window ends. *)
Lemma still_resolved now now' st k d :
  0 <= now -> valid_time now = true -> now' - now <= RESOLVED_DECISION_WINDOW_MS ->
  dget k (resolvedDecisions st) = Some d -> rd_resolvedAt d = toISOString now ->
  dget k (resolvedDecisions (seen now' (Some (set_updatedAt (toISOString now) st)))) = Some d.
Proof.
  intros Hn Hv Hw Hd Hr. unfold seen, loaded. cbn [set_updatedAt updatedAt].
  destruct (String.eqb_spec (toISOString now) "") as [E|_]; [by apply iso_nonempty in E|].
  cbn. apply dget_keep; [done|]. unfold within. rewrite Hr, parse_iso by done. by apply Z.leb_le.
Qed.

Lemma seen_pending now s p : pendingRequest (seen now s) = Some p -> isExpired p now = false.
Proof.
  unfold seen. cbn. destruct (pendingRequest (loaded now s)) as [q|]; [|done].
  destruct (isExpired q now) eqn:E; [done|]. by intros [= <-].
Qed.

Lemma validate_ok st d user p :
  validatePendingDecision st d user = Ok p ->
  pendingRequest st = Some p /\ ar_requestId p = ad_requestId d /\ ad_kind d ∈ ar_availableDecisions p /\
  (forall owner, truthy (pendingRequestOwnerUserId st) = Some owner -> user = Some owner).
Proof.
  unfold validatePendingDecision. destruct (pendingRequest st) as [q|]; [|done].
  destruct (String.eqb_spec (ar_requestId q) (ad_requestId d)); [|done]. cbn [negb].
  destruct (bool_decide_reflect (ad_kind d ∈ ar_availableDecisions q)); [|done]. cbn [negb].
  destruct (truthy (pendingRequestOwnerUserId st)) as [o|]; [|by intros [= <-]].
  destruct (truthy user) as [u|] eqn:Eu; [|done]. destruct (String.eqb_spec o u) as [<-|]; [|done].
  intros [= <-]. repeat split; try done. intros owner [= <-].
  destruct user as [[|a u]|]; cbn in Eu; by inversion Eu.
Qed.

(** What the decision [k] on [p] leaves of the rules *)
Definition rules_after (now : Z) (p : ApprovalRequest) (k : ApprovalDecisionKind) (user : option string)
    (id : option string) (rules : list StoredPersistentPermissionRule) : list StoredPersistentPermissionRule :=
  match k, ar_proposedPersistentRule p, id, truthy (trim <$> user) with
  | ALLOW_PERSISTENT_RULE, Some rule, Some id, Some user =>
      rules ++ [mkRule id (toISOString now) user (rule_category rule) rule]
  | _, _, _, _ => rules
  end.

Lemma apply_rules now uuid st p k user st' r :
  applyDecisionOutcome now uuid st p (createPermissionDecisionResult p k) user = Ok (st', r) ->
  persistentRules st' = rules_after now p k user (pd_persistentRuleId r) (persistentRules st) /\
  (k = ALLOW_PERSISTENT_RULE ->
   exists rule, ar_proposedPersistentRule p = Some rule /\ isValidProposedPersistentRule rule = true) /\
  (k <> ALLOW_PERSISTENT_RULE -> pd_persistentRuleId r = None).
Proof.
  destruct k; cbn; try (by intros [= <- <-]).
  unfold mbind, res_bind, persistValidatedRule, rules_after.
  destruct (ar_proposedPersistentRule p) as [rule|]; [|done].
  destruct (isValidProposedPersistentRule rule) eqn:Er; [|done]. cbn [negb].
  destruct (truthy _); [|done]. intros [= <- <-]. cbn. by repeat split; eauto.
Qed.

(** The allowances after the decision [k] on an action *)
Definition allowances_after (now : Z) (f : string) (k : ApprovalDecisionKind) (d : dict RunAllowance)
    : dict RunAllowance :=
  match k with
  | ALLOW_ONCE => dset f (mkAllowance scope_once (toISOString now) None) d
  | ALLOW_FOR_RUN => dset f (mkAllowance scope_run (toISOString now) None) d
  | _ => d
  end.
Definition resolution_of (r : ResolvedDecision) : PermissionDecisionResult :=
  mkResult (rd_request r) (rd_decision r) (rd_status r) (rd_persistentRuleId r).

(** The pending request a decision may settle *)
Definition settles (st : ApprovalState) (now : Z) (d : ApprovalDecision) (user : option string)
    (p : ApprovalRequest) : Prop :=
  pendingRequest st = Some p /\ isExpired p now = false /\ ar_requestId p = ad_requestId d /\
  ad_kind d ∈ ar_availableDecisions p /\
  (forall owner, truthy (pendingRequestOwnerUserId st) = Some owner -> user = Some owner).
End Runs.

Section Settled.
Context `{!JsRuntime} `{!IsoDates}.

(** C21. A decision settles a request once: [resolveDecision] leaves the state as it
    is when it throws and when it repeats an answer; otherwise the request was
    pending, not expired, offered that kind, and belonged to nobody else than the
    resolving user; it is pending no more, the allowances and rules are exactly what
    the decision makes of them, an action it allows is answered yes to, and within
    the window the same decision is answered the same and another is refused. *)
Theorem decision_settles (now : Z) (uuid : string) (d : ApprovalDecision) (user : option string)
    (s : option ApprovalState) (Hnow : 0 <= now) (Hvalid : valid_time now = true) :
  let st := seen now s in
  match resolveDecision now uuid d user s with
  | (Err _, s') => s' = s
  | (Ok r, s') =>
      pd_decision r = ad_kind d /\
      match dget (ad_requestId d) (resolvedDecisions st) with
      | Some old => r = resolution_of old /\ s' = s
      | None =>
          exists p after, settles st now d user p /\ pd_request r = p /\ s' = Some after /\
          pendingRequest after = None /\
          runAllowances after = allowances_after now (ar_actionFingerprint p) (ad_kind d) (runAllowances st) /\
          persistentRules after = rules_after now p (ad_kind d) user (pd_persistentRuleId r) (persistentRules st) /\
          (forall now', ad_kind d = ALLOW_ONCE \/ ad_kind d = ALLOW_FOR_RUN ->
             fst (isActionAllowed now' (ar_actionFingerprint p) s') = Ok true) /\
          forall now' uuid' k user', now' - now <= RESOLVED_DECISION_WINDOW_MS ->
            resolveDecision now' uuid' (mkDecision k (ad_requestId d)) user' s' =
            (if decide (k = ad_kind d) then Ok r
             else Err (ApprovalError "Approval request was already resolved differently."), s')
      end
  end.
Proof.
  cbn zeta. rewrite resolve_eq. cbn zeta. destruct (dget _ _) as [old|].
  { destruct (bool_decide_reflect (rd_decision old = ad_kind d)) as [E|]; [by split|done]. }
  destruct (validatePendingDecision _ _ _) as [p|e] eqn:Ep; [|done].
  apply validate_ok in Ep as (Hp & Hid & Hk & Ho).
  destruct (applyDecisionOutcome _ _ _ _ _ _) as [[st' r]|e] eqn:Ea; [|done].
  destruct (apply_rules _ _ _ _ _ _ _ _ Ea) as (Hrules & _ & _).
  apply apply_spec in Ea as (Hr & Hkind & _ & _ & Hal). split; [done|].
  set (fin := finalizeResolvedDecision now st' p r).
  assert (Hf : pendingRequest fin = None /\ runAllowances fin = runAllowances st' /\
               persistentRules fin = persistentRules st' /\
               dget (ad_requestId d) (resolvedDecisions fin) =
                 Some (mkResolved p (pd_decision r) (pd_status r) (pd_persistentRuleId r) (toISOString now))).
  { subst fin. unfold finalizeResolvedDecision. rewrite <- Hid.
    destruct (bool_decide _); cbn; by rewrite dget_dset, decide_True. }
  destruct Hf as (Hf1 & Hf2 & Hf3 & Hf4). clearbody fin.
  exists p, (set_updatedAt (toISOString now) fin).
  split; [by repeat split; try done; apply (seen_pending now s)|]. split; [done|]. split; [done|]. split; [done|].
  split; [by cbn; rewrite Hf2, Hal; destruct (ad_kind d)|]. split; [by cbn; rewrite Hf3|].
  split.
  { intros now' Hd. rewrite allowed_answer. cbn [allowances set_updatedAt runAllowances]. rewrite Hf2, Hal.
    destruct Hd as [-> | ->]; cbv iota; by rewrite usable_dset, decide_True. }
  intros now' uuid' k user' Hw. rewrite resolve_eq. cbn zeta. cbn [ad_requestId ad_kind].
  rewrite (still_resolved now now' fin _ _ Hnow Hvalid Hw Hf4 eq_refl). cbn [rd_decision rd_request rd_status rd_persistentRuleId].
  rewrite <- Hkind. destruct r as [? ? ? ?]; cbn in *. subst.
  case_bool_decide; case_decide; congruence || done.
Qed.

(** C11. Nothing is allowed more often than the user said: from an empty store,
    whatever calls are made at whatever times, an action that is never allowed for
    the whole run is answered yes to at most once per decision to allow it once. *)
Theorem approvals_accounted (f : string) (calls : list timed_call)
    (Hrun : count_calls (grants ALLOW_FOR_RUN f) calls None = 0) :
  count_calls (allows f) calls None <= count_calls (grants ALLOW_ONCE f) calls None.
Proof.
  pose proof (accounted f calls None) as Ha. unfold credit, usable, sane in Ha. cbn in Ha.
  rewrite Z.add_0_r in Ha. apply Ha; [constructor|done|done].
Qed.
End Settled.

(** * A run *)

Module Demo.
#[local] Existing Instance iso_runtime.

(** Times written in decimal *)
Definition clock_text (t : Z) : string := DecimalString.NilZero.string_of_int (Z.to_int t).
Definition clock_value (s : string) : option Z := Z.of_int <$> DecimalString.NilZero.int_of_string s.

Lemma clock_text_nil t : Z.to_int t <> Decimal.Pos Decimal.Nil /\ Z.to_int t <> Decimal.Neg Decimal.Nil.
Proof.
  pose proof (DecimalZ.to_of (Z.to_int t)) as H. rewrite DecimalZ.of_to in H.
  split; intros E; rewrite E in H; discriminate H.
Qed.

#[local] Program Instance clock_dates : IsoDates := {| toISOString := clock_text; Date_parse := clock_value |}.
Next Obligation.
  intros t _ _. destruct (clock_text_nil t) as [H1 H2]. unfold clock_value, clock_text.
  rewrite (DecimalString.NilZero.isi _ H1 H2). cbn. by rewrite DecimalZ.of_to.
Qed.
Next Obligation.
  intros t H. destruct (clock_text_nil t) as [H1 H2]. unfold clock_text in H.
  pose proof (DecimalString.NilZero.isi _ H1 H2) as Hi. rewrite H in Hi. discriminate Hi.
Qed.

Definition tidy_rule : ProposedPersistentRule := shell_rule ["git"; "status"] "current_repo" "inherit".
Definition ask (id : string) : ApprovalRequest :=
  mkRequest id "r1" None None None None "agent" SHELL_COMMAND "run" "why" (Some "git status") (Some ".")
    None None "fp" [ALLOW_ONCE; ALLOW_FOR_RUN; ALLOW_PERSISTENT_RULE; DENY; ABORT] (Some tidy_rule)
    (toISOString 1000) (Some (toISOString 1801000)).

(** An allowance for one use is used once. *)
Definition once_calls : list timed_call :=
  [mkCall 1000 "" (a_setPendingRequest (ask "q1") (Some "u1"));
   mkCall 2000 "" (a_resolveDecision (mkDecision ALLOW_ONCE "q1") (Some "u1"));
   mkCall 3000 "" (a_isActionAllowed "fp"); mkCall 4000 "" (a_isActionAllowed "fp");
   mkCall 5000 "" (a_isActionAllowed "fp")].

Example once_used_once :
  fst (run_approvals once_calls None) =
  [Ok (an_request (Some (ask "q1"))); Ok (an_resolution (mkResult (ask "q1") ALLOW_ONCE rs_approved None));
   Ok (an_bool true); Ok (an_bool false); Ok (an_bool false)].
Proof. by vm_compute. Qed.

(** A rule for [git status] also allows what is chained to it. *)
Definition chained : RuleQuery := mkQuery SHELL_COMMAND (Some "git status && rm -rf ~") None None None.
Definition rule_calls : list timed_call :=
  [mkCall 1000 "" (a_setPendingRequest (ask "q1") (Some "u1"));
   mkCall 2000 "rule-1" (a_resolveDecision (mkDecision ALLOW_PERSISTENT_RULE "q1") (Some "u1"));
   mkCall 3000 "" (a_matchPersistentRule chained)].

Example chained_command_allowed :
  drop 2 (fst (run_approvals rule_calls None)) = [Ok (an_bool true)].
Proof. by vm_compute. Qed.

Definition asked : option ApprovalState := snd (run_approvals (take 1 once_calls) None).

Lemma decision_settles_witness :
  0 <= 2000 /\ valid_time 2000 = true /\
  match resolveDecision 2000 "" (mkDecision ALLOW_ONCE "q1") (Some "u1") asked with
  | (Ok r, s') => pd_decision r = ALLOW_ONCE /\ fst (isActionAllowed 2500 "fp" s') = Ok true
  | _ => False
  end.
Proof.
  split; [lia|]. split; [reflexivity|].
  pose proof (decision_settles 2000 "" (mkDecision ALLOW_ONCE "q1") (Some "u1") asked ltac:(lia) eq_refl) as H.
  cbn zeta in H. assert (E : dget "q1" (resolvedDecisions (seen 2000 asked)) = None) by reflexivity.
  cbn [ad_requestId ad_kind] in H. rewrite E in H.
  destruct (resolveDecision _ _ _ _ _) as [[r|e] s'] eqn:Er; [|vm_compute in Er; discriminate Er].
  destruct H as (Hk & p & after & (Hp & _) & _ & _ & _ & _ & _ & Hal & _). split; [exact Hk|].
  assert (Ef : ar_actionFingerprint p = "fp").
  { vm_compute in Hp. inversion Hp. reflexivity. }
  rewrite <- Ef. apply Hal. left. reflexivity.
Defined.

Lemma approvals_accounted_witness :
  count_calls (grants ALLOW_FOR_RUN "fp") once_calls None = 0 /\
  count_calls (allows "fp") once_calls None = 1 /\
  count_calls (allows "fp") once_calls None <= count_calls (grants ALLOW_ONCE "fp") once_calls None.
Proof.
  split; [by vm_compute|]. split; [by vm_compute|]. apply approvals_accounted. by vm_compute.
Defined.
End Demo.
