(* ===== verification/RiskyAction.v ===== *)
(** Which tool calls need the user's approval: permission-policy.ts of
    [packages/shared-types/src] and RunPermissionContextPolicy.ts and
    RunRiskyActionPolicy.ts of [packages/execution-engine/src/runtime/engine]. *)
From S2P Require Import Prelude Js Text Regex Approvals.
From Stdlib Require Import Ascii QArith.
#[local] Open Scope Z_scope.

(** * permission-policy.ts *)

Inductive ProductMode : Type := ASK_ALWAYS | AUTO_FOR_SAFE | AUTO_FOR_SAME_REPO | FULL_AGENT.
#[export] Instance ProductMode_eq_dec : EqDecision ProductMode.
Proof. solve_decision. Defined.
Definition ProductModeSchema (value : json) : option ProductMode :=
  match value with
  | JStr "ask_always" => Some ASK_ALWAYS
  | JStr "auto_for_safe" => Some AUTO_FOR_SAFE
  | JStr "auto_for_same_repo" => Some AUTO_FOR_SAME_REPO
  | JStr "full_agent" => Some FULL_AGENT
  | _ => None
  end.

Inductive ApprovalPolicy : Type := ASK_ON_REQUEST | HIGH_TRUST | RESTRICTED | ap_CUSTOM.
#[export] Instance ApprovalPolicy_eq_dec : EqDecision ApprovalPolicy.
Proof. solve_decision. Defined.
Inductive ExecutionScope : Type := WORKSPACE_SAFE | WORKSPACE_MUTATION | WORKSPACE_HIGH_TRUST | es_CUSTOM.
#[export] Instance ExecutionScope_eq_dec : EqDecision ExecutionScope.
Proof. solve_decision. Defined.
Inductive WorkflowIntent : Type := wi_EXPLORE | wi_BUILD | wi_REVIEW | wi_SHIP.
#[export] Instance WorkflowIntent_eq_dec : EqDecision WorkflowIntent.
Proof. solve_decision. Defined.
Definition WorkflowIntentSchema (value : json) : option WorkflowIntent :=
  match value with
  | JStr "explore" => Some wi_EXPLORE
  | JStr "build" => Some wi_BUILD
  | JStr "review" => Some wi_REVIEW
  | JStr "ship" => Some wi_SHIP
  | _ => None
  end.
Inductive WorkflowEntrypoint : Type :=
| COMPOSER_SUBMIT | REVIEW_ACTION | COMMIT_ACTION | DEPLOY_ACTION | we_PROVIDER_CONNECT | we_OTHER.
Definition WorkflowEntrypointSchema (value : json) : option WorkflowEntrypoint :=
  match value with
  | JStr "composer_submit" => Some COMPOSER_SUBMIT
  | JStr "review_action" => Some REVIEW_ACTION
  | JStr "commit_action" => Some COMMIT_ACTION
  | JStr "deploy_action" => Some DEPLOY_ACTION
  | JStr "provider_connect" => Some we_PROVIDER_CONNECT
  | JStr "other" => Some we_OTHER
  | _ => None
  end.
Inductive BuildMode : Type := bm_build | bm_plan.

Record WorkflowIntentResolverInput : Type := mkResolver {
  wr_runMode : BuildMode;
  wr_entrypoint : option WorkflowEntrypoint;
  wr_explicitIntent : option WorkflowIntent;
}.
Record EffectivePermissionState : Type := mkEffective {
  ep_productMode : ProductMode;
  ep_workflowIntent : WorkflowIntent;
  ep_approvalPolicy : ApprovalPolicy;
  ep_executionScope : ExecutionScope;
}.
Inductive PermissionRuntimeLabel : Type := pl_DEFAULT | pl_FULL_ACCESS | pl_CUSTOM.

Definition DEFAULT_PRODUCT_MODE : ProductMode := AUTO_FOR_SAFE.
Definition DEFAULT_PERMISSION_TUPLE : ApprovalPolicy * ExecutionScope := (ASK_ON_REQUEST, WORKSPACE_SAFE).
Definition FULL_ACCESS_PERMISSION_TUPLE : ApprovalPolicy * ExecutionScope := (HIGH_TRUST, WORKSPACE_HIGH_TRUST).
Definition mapProductModeToPermissionTuple (m : ProductMode) : ApprovalPolicy * ExecutionScope :=
  match m with
  | ASK_ALWAYS => (RESTRICTED, WORKSPACE_SAFE)
  | AUTO_FOR_SAFE => DEFAULT_PERMISSION_TUPLE
  | AUTO_FOR_SAME_REPO => (ASK_ON_REQUEST, WORKSPACE_MUTATION)
  | FULL_AGENT => FULL_ACCESS_PERMISSION_TUPLE
  end.
Definition ENTRYPOINT_INTENT_MAP (e : WorkflowEntrypoint) : WorkflowIntent :=
  match e with
  | COMPOSER_SUBMIT => wi_BUILD
  | REVIEW_ACTION => wi_REVIEW
  | COMMIT_ACTION => wi_SHIP
  | DEPLOY_ACTION => wi_SHIP
  | we_PROVIDER_CONNECT => wi_BUILD
  | we_OTHER => wi_BUILD
  end.
Definition resolveWorkflowIntent (input : WorkflowIntentResolverInput) : WorkflowIntent :=
  match wr_explicitIntent input, wr_entrypoint input, wr_runMode input with
  | Some intent, _, _ => intent
  | None, Some entrypoint, _ => ENTRYPOINT_INTENT_MAP entrypoint
  | None, None, bm_plan => wi_REVIEW
  | None, None, bm_build => wi_BUILD
  end.
Definition createEffectivePermissionState (m : ProductMode) (i : WorkflowIntent) : EffectivePermissionState :=
  let '(policy, scope) := mapProductModeToPermissionTuple m in mkEffective m i policy scope.
Definition derivePermissionLabel (s : EffectivePermissionState) : PermissionRuntimeLabel :=
  let tuple := (ep_approvalPolicy s, ep_executionScope s) in
  if bool_decide (tuple = DEFAULT_PERMISSION_TUPLE) then pl_DEFAULT
  else if bool_decide (tuple = FULL_ACCESS_PERMISSION_TUPLE) then pl_FULL_ACCESS
  else pl_CUSTOM.

(** * RunPermissionContextPolicy.ts *)

(** [record?.[key]] of a value that need not be a record *)
Definition field (key : string) (value : option json) : option json :=
  match value with Some (JObj o) => dget key o | _ => None end.
Definition parsed_field {A} (schema : json -> option A) (key : string) (value : option json) : option A :=
  field key value ≫= schema.
(** [a ?? b] *)
Definition or_else {A} (a b : option A) : option A := match a with Some _ => a | None => b end.

(** The permission context of a run, but for the time it was resolved at *)
Definition resolveRunPermissionContext (mode : option BuildMode) (metadata : option JsonRecord)
    : EffectivePermissionState * PermissionRuntimeLabel * WorkflowIntentResolverInput :=
  let record := JObj <$> metadata in
  let policy := field "permissionPolicy" record in
  let workflow := field "workflow" record in
  let productMode :=
    default DEFAULT_PRODUCT_MODE
      (or_else (parsed_field ProductModeSchema "productMode" policy)
        (or_else (parsed_field ProductModeSchema "productMode" workflow)
                 (parsed_field ProductModeSchema "productMode" record))) in
  let input := mkResolver (default bm_build mode)
    (or_else (parsed_field WorkflowEntrypointSchema "entrypoint" policy)
      (or_else (parsed_field WorkflowEntrypointSchema "entrypoint" workflow)
               (parsed_field WorkflowEntrypointSchema "workflowEntrypoint" record)))
    (or_else (parsed_field WorkflowIntentSchema "intent" policy)
      (or_else (parsed_field WorkflowIntentSchema "intent" workflow)
               (parsed_field WorkflowIntentSchema "workflowIntent" record))) in
  let state := createEffectivePermissionState productMode (resolveWorkflowIntent input) in
  (state, derivePermissionLabel state, input).

(** * CodingToolRegistry.ts: the tools *)

Inductive CodingToolId : Type :=
| t_read_file | t_list_files | t_write_file | t_edit_file | t_multi_edit | t_apply_patch | t_format_file
| t_bash | t_git_stage | t_git_commit | t_git_push | t_git_pull | t_git_create_pull_request
| t_git_branch_create | t_git_branch_switch | t_git_status | t_git_diff | t_github_pr_list | t_github_pr_get
| t_github_pr_files_get | t_github_pr_checks_get | t_github_review_threads_get | t_github_issue_get
| t_github_actions_run_get | t_github_actions_job_logs_get | t_github_cli_pr_checks_get
| t_github_cli_actions_run_get | t_github_cli_actions_job_logs_get | t_github_cli_pr_comment | t_glob | t_grep.
#[export] Instance CodingToolId_eq_dec : EqDecision CodingToolId.
Proof. solve_decision. Defined.
Definition CODING_TOOL_IDS : list (CodingToolId * string) :=
  [(t_read_file, "read_file"); (t_list_files, "list_files"); (t_write_file, "write_file");
   (t_edit_file, "edit_file"); (t_multi_edit, "multi_edit"); (t_apply_patch, "apply_patch");
   (t_format_file, "format_file"); (t_bash, "bash"); (t_git_stage, "git_stage"); (t_git_commit, "git_commit");
   (t_git_push, "git_push"); (t_git_pull, "git_pull");
   (t_git_create_pull_request, "git_create_pull_request"); (t_git_branch_create, "git_branch_create");
   (t_git_branch_switch, "git_branch_switch"); (t_git_status, "git_status"); (t_git_diff, "git_diff");
   (t_github_pr_list, "github_pr_list"); (t_github_pr_get, "github_pr_get");
   (t_github_pr_files_get, "github_pr_files_get"); (t_github_pr_checks_get, "github_pr_checks_get");
   (t_github_review_threads_get, "github_review_threads_get"); (t_github_issue_get, "github_issue_get");
   (t_github_actions_run_get, "github_actions_run_get");
   (t_github_actions_job_logs_get, "github_actions_job_logs_get");
   (t_github_cli_pr_checks_get, "github_cli_pr_checks_get");
   (t_github_cli_actions_run_get, "github_cli_actions_run_get");
   (t_github_cli_actions_job_logs_get, "github_cli_actions_job_logs_get");
   (t_github_cli_pr_comment, "github_cli_pr_comment"); (t_glob, "glob"); (t_grep, "grep")].
Definition tool_str (t : CodingToolId) : string :=
  match List.find (fun '(t', _) => bool_decide (t' = t)) CODING_TOOL_IDS with Some (_, s) => s | None => "" end.
(** [isCodingToolId], and the tool *)
Definition tool_of (s : string) : option CodingToolId :=
  fst <$> List.find (fun '(_, s') => String.eqb s' s) CODING_TOOL_IDS.

(** * RunRiskyActionPolicy.ts: patterns *)

(** [i] patterns are tried on the text in lower case. *)
Definition command_of (words : list string) : list rx :=
  Bnd :: (fix go (ws : list string) : list rx :=
            match ws with [] => [] | [w] => lit w | w :: ws => lit w ++ spaces ++ go ws end) words ++ [Bnd].
Definition SHELL_NETWORK_PATTERN (s : string) : bool :=
  rx_test (map command_of [["curl"]; ["wget"]; ["npm"; "install"]; ["pnpm"; "add"]; ["yarn"; "add"]; ["pip"; "install"]])
    (toLowerCase s).
Definition SHELL_DEPLOY_PATTERN (s : string) : bool :=
  rx_test (map command_of [["wrangler"; "deploy"]; ["terraform"; "apply"]; ["pulumi"; "up"]; ["kubectl"; "apply"];
                           ["serverless"; "deploy"]]) (toLowerCase s).
Definition SHELL_DESTRUCTIVE_PATTERN (s : string) : bool :=
  rx_test (map command_of [["rm"; "-rf"]; ["git"; "reset"; "--hard"]; ["git"; "clean"; "-fd"];
                           ["git"; "push"; "--force"]]) (toLowerCase s).
Definition GIT_COMMIT_IDENTITY_CONFIG_SEGMENT_PATTERN (s : string) : bool :=
  rx_test
    (in_dir ← [[]; spaces ++ lit "-c" ++ spaces ++ nonspaces];
     key ← ["name"; "email"];
     [Bnd :: lit "git" ++ in_dir ++ spaces ++ lit "config" ++ [Bnd] ++ anything ++ [Bnd] ++ lit "user." ++ lit key ++ [Bnd]])
    (toLowerCase s).

Definition SAFE_PERSISTENT_SHELL_PREFIXES : list string :=
  ["git"; "pnpm"; "npm"; "yarn"; "ls"; "pwd"; "cat"; "rg"; "echo"; "vitest"].
Definition UNSAFE_INTERPRETER_PREFIXES : list string :=
  ["bash"; "sh"; "zsh"; "python"; "python3"; "node"; "deno"; "perl"; "ruby"].
Definition BROAD_PERSISTENT_SHELL_PREFIXES : list string := ["git"; "npm"; "pnpm"; "yarn"].
Definition SHELL_PREFIX_VERB_TOKENS : list string := ["run"; "exec"; "dlx"].
Definition APPROVAL_TTL_MS : Z := 30 * 60 * 1000.
Definition DANGEROUS_RETRY_THRESHOLD : Z := 3.

(** * Reading the arguments of a tool *)

(** [typeof args[key] === "string" ? args[key].trim() : ""] *)
Definition text_arg (key : string) (args : JsonRecord) : string :=
  match dget key args with Some (JStr s) => trim s | _ => "" end.
Definition nonempty_text (value : option json) : list string :=
  match value with Some (JStr s) => if String.eqb (trim s) "" then [] else [trim s] | _ => [] end.

(** [line.match(/^\+\+\+ b\/(.+)$/)?.[1]] *)
Definition patched_path (line : string) : option string :=
  let path := slice_from 6 line in
  if startsWith "+++ b/" line && negb (String.eqb path "") && str_forall any_char path then Some path else None.
Definition extractPatchPaths (patch : string) : list string :=
  fold_left (fun paths line =>
    match patched_path line with
    | Some path =>
        if String.eqb path "/dev/null" then paths
        else if bool_decide (path ∈ paths) then paths else paths ++ [path]
    | None => paths
    end) (split_on LF patch) [].

Definition extractCandidatePaths (args : JsonRecord) : list string :=
  nonempty_text (dget "path" args) ++ nonempty_text (dget "cwd" args) ++
  (match dget "files" args with
   | Some (JArr files) => flat_map (fun file => nonempty_text (Some file)) files
   | _ => []
   end) ++
  (match dget "edits" args with
   | Some (JArr edits) => flat_map (fun edit => nonempty_text (field "path" (Some edit))) edits
   | _ => []
   end) ++
  (match dget "patch" args with Some (JStr patch) => extractPatchPaths patch | _ => [] end).

Definition isOutsideWorkspacePath (path : string) : bool :=
  startsWith "/" path || startsWith ".." path || includes "/../" path ||
  includes (backslash +:+ ".." +:+ backslash) path.

Definition toGitAction (t : CodingToolId) : option string :=
  match t with
  | t_git_stage => Some "stage" | t_git_commit => Some "commit"
  | t_git_push => Some "push" | t_git_pull => Some "pull" | _ => None
  end.
Definition describeGitMutationTitle (t : CodingToolId) : string :=
  match t with
  | t_git_stage => "LegionCode wants to stage repository changes"
  | t_git_commit => "LegionCode wants to commit repository changes"
  | t_git_push => "LegionCode wants to push repository changes"
  | t_git_pull => "LegionCode wants to pull from remote"
  | t_git_create_pull_request => "LegionCode wants to create a pull request"
  | t_git_branch_create => "LegionCode wants to create a branch"
  | t_git_branch_switch => "LegionCode wants to switch branches"
  | t_github_cli_pr_comment => "LegionCode wants to comment on a pull request"
  | _ => "LegionCode wants to mutate git state"
  end.
Definition extractRemoteTarget (args : JsonRecord) : option string :=
  let owner := text_arg "owner" args in
  let repo := text_arg "repo" args in
  if negb (String.eqb owner "") && negb (String.eqb repo "") then Some (owner +:+ "/" +:+ repo)
  else let remote := text_arg "remote" args in if String.eqb remote "" then None else Some remote.

(** [value.replace(/\s+/g, " ")]: [after] tells that a space has just been
    written. *)
Fixpoint squeeze (after : bool) (s : string) : string :=
  match s with
  | EmptyString => ""
  | String c s' => if is_space c then (if after then squeeze true s' else String " " (squeeze true s'))
                   else String c (squeeze false s')
  end.
Definition normalizePullRequestCommentBody (value : string) : string := trim (squeeze false value).

(** The hash is of 32 bits: [^] takes its operands modulo 2^32 and [>>> 0] makes
    the result unsigned. *)
Fixpoint hash_go (hash : Z) (value : string) : Z :=
  match value with
  | EmptyString => hash
  | String c value' => hash_go (Z.lxor ((hash * 33) mod 2 ^ 32) (Z.of_nat (nat_of_ascii c))) value'
  end.
(** [hash.toString(16).padStart(8, "0")] *)
Fixpoint hex_go (digits : nat) (n : Z) (acc : string) : string :=
  match digits with
  | O => acc
  | S digits => hex_go digits (n / 16) (String (hex_digit (Z.to_nat (n mod 16))) acc)
  end.
Definition hashPullRequestCommentBody (value : string) : string := hex_go 8 (hash_go 5381 value) "".

Definition buildGitHubPullRequestMutationFingerprint (args : JsonRecord) : string :=
  let owner := text_arg "owner" args in
  let repo := text_arg "repo" args in
  let number := match dget "number" args with
                | Some (JNum (NInt z)) => z
                | Some (JNum (NFrac q)) => Z.quot (Qnum q) (Zpos (Qden q))
                | _ => 0
                end in
  let body := match dget "body" args with
              | Some (JStr body) => normalizePullRequestCommentBody body
              | _ => ""
              end in
  let target := if negb (String.eqb owner "") && negb (String.eqb repo "") then owner +:+ "/" +:+ repo else "unknown" in
  let prTarget := if 0 <? number then "pr:" +:+ Number_toString number else "pr:unknown" in
  category_str GIT_MUTATION +:+ ":github_cli_pr_comment:" +:+ target +:+ ":" +:+ prTarget +:+ ":" +:+
  "body:" +:+ hashPullRequestCommentBody body.

(** * Classification *)

Record ClassifiedRiskAction : Type := mkClassified {
  cl_category : RiskyActionCategory;
  cl_title : string;
  cl_reason : string;
  cl_actionFingerprint : string;
  cl_safeByDefault : bool;
  cl_command : option string;
  cl_cwd : option string;
  cl_affectedPaths : option (list string);
  cl_remoteTarget : option string;
  cl_gitAction : option string;
  cl_providerOperation : option string;
  cl_destructive : bool;
}.

Definition is_exploration (t : CodingToolId) : bool :=
  bool_decide (t ∈ [t_read_file; t_list_files; t_glob; t_grep; t_git_status; t_git_diff; t_github_pr_list; t_github_pr_get;
    t_github_pr_checks_get; t_github_review_threads_get; t_github_issue_get; t_github_actions_run_get;
    t_github_actions_job_logs_get; t_github_cli_pr_checks_get; t_github_cli_actions_run_get;
    t_github_cli_actions_job_logs_get]).
Definition is_edit (t : CodingToolId) : bool :=
  bool_decide (t ∈ [t_write_file; t_edit_file; t_multi_edit; t_apply_patch; t_format_file]).
Definition is_git_mutation (t : CodingToolId) : bool :=
  bool_decide (t ∈ [t_git_stage; t_git_commit; t_git_push; t_git_pull; t_git_create_pull_request; t_git_branch_create;
    t_git_branch_switch; t_github_cli_pr_comment]).

Section Classify.
Context `{!JsRuntime}.

Definition buildActionFingerprint (category : RiskyActionCategory) (t : CodingToolId) (args : JsonRecord) : string :=
  category_str category +:+ ":" +:+ tool_str t +:+ ":" +:+ stableStringify (JObj args).

Definition classify_shell (args : JsonRecord) : ClassifiedRiskAction :=
  let command := text_arg "command" args in
  let cwd := match dget "cwd" args with Some (JStr s) => trim s | _ => "." end in
  let destructive := SHELL_DESTRUCTIVE_PATTERN command in
  let deployLike := SHELL_DEPLOY_PATTERN command in
  let networkLike := SHELL_NETWORK_PATTERN command in
  let category := if deployLike then DEPLOY_OR_INFRA_MUTATION
                  else if networkLike then NETWORK_EXTERNAL else SHELL_COMMAND in
  mkClassified category
    (if deployLike then "LegionCode wants to run deployment or infrastructure changes"
     else if networkLike then "LegionCode wants to run a networked shell command"
     else "LegionCode wants to run a shell command")
    (if destructive then "This command appears destructive and needs explicit approval."
     else if deployLike then "This command can mutate remote infrastructure and should be confirmed."
     else if networkLike then "This command may mutate external state or install dependencies."
     else "Shell commands can change repository or environment state and should be confirmed.")
    (buildActionFingerprint category t_bash [("command", JStr command); ("cwd", JStr cwd)])
    false (Some command) (Some cwd) None None None None destructive.

Definition classifyRiskAction (t : CodingToolId) (args : JsonRecord) : ClassifiedRiskAction :=
  let affectedPaths := extractCandidatePaths args in
  if existsb isOutsideWorkspacePath affectedPaths then
    mkClassified OUTSIDE_WORKSPACE "LegionCode wants to operate outside the workspace"
      "This action targets a path outside the current workspace and requires explicit confirmation."
      (buildActionFingerprint OUTSIDE_WORKSPACE t args) false None None (Some affectedPaths) None None None false
  else if is_exploration t then
    let github := startsWith "github_" (tool_str t) in
    mkClassified FILESYSTEM_WRITE
      (if github then "LegionCode wants to inspect GitHub metadata" else "LegionCode wants to inspect repository state")
      (if github then "This is a read-only connector metadata action and is allowed under the current policy."
       else "This is a read-only exploration action and is allowed under the current policy.")
      (buildActionFingerprint FILESYSTEM_WRITE t args) true None None (Some affectedPaths) None None None false
  else if is_edit t then
    mkClassified FILESYSTEM_WRITE "LegionCode wants to edit files"
      "This action mutates workspace files and should be confirmed based on your permission mode."
      (buildActionFingerprint FILESYSTEM_WRITE t args) false None None (Some affectedPaths) None None None false
  else if bool_decide (t = t_bash) then classify_shell args
  else if is_git_mutation t then
    let comment := bool_decide (t = t_github_cli_pr_comment) in
    mkClassified GIT_MUTATION (describeGitMutationTitle t)
      (if comment then "Posting a pull request comment mutates remote GitHub state and requires explicit confirmation."
       else "Git mutation actions can change repository history and should be explicitly confirmed.")
      (if comment then buildGitHubPullRequestMutationFingerprint args else buildActionFingerprint GIT_MUTATION t args)
      false None None (Some affectedPaths) (extractRemoteTarget args) (toGitAction t) None
      (bool_decide (t = t_git_push))
  else
    mkClassified FILESYSTEM_WRITE "LegionCode wants to run a mutating action"
      "This action mutates workspace state and requires confirmation."
      (buildActionFingerprint FILESYSTEM_WRITE t args) false None None None None None None false.
End Classify.

(** * The policy *)

Inductive PolicyDecisionResult : Type := pol_allow | pol_ask | pol_deny (reason : string).

Definition requiresMutationEvidence (c : ClassifiedRiskAction) (t : CodingToolId) : bool :=
  bool_decide (cl_category c = GIT_MUTATION) && bool_decide (t = t_git_push).
Definition getMutationEvidenceDenial (c : ClassifiedRiskAction) (t : CodingToolId)
    (hasMutationEvidence allowResumeGitPush : bool) : option string :=
  if bool_decide (t = t_git_push) && allowResumeGitPush then None
  else if requiresMutationEvidence c t && negb hasMutationEvidence then
    Some "LegionCode cannot continue with git push yet because no successful file mutation or committed-change evidence exists in this run."
  else None.

Definition getGuaranteedDecision (c : ClassifiedRiskAction) : option PolicyDecisionResult :=
  if cl_safeByDefault c then Some pol_allow
  else if bool_decide (cl_category c = DANGEROUS_RETRY) then Some pol_ask
  else if bool_decide (cl_category c = OUTSIDE_WORKSPACE) then Some pol_ask
  else if cl_destructive c then Some pol_ask
  else None.
Definition getWorkflowDecision (w : WorkflowIntent) : option PolicyDecisionResult :=
  match w with wi_REVIEW | wi_EXPLORE => Some pol_ask | _ => None end.
Definition isSameRepoApprovalCategory (c : RiskyActionCategory) : bool :=
  match c with GIT_MUTATION | SHELL_COMMAND | NETWORK_EXTERNAL | DEPLOY_OR_INFRA_MUTATION => true | _ => false end.
Definition isAutoForSafeCategory (c : RiskyActionCategory) : bool := isSameRepoApprovalCategory c.
Definition isFullAgentApprovalCategory (c : RiskyActionCategory) : bool :=
  match c with GIT_MUTATION | NETWORK_EXTERNAL | DEPLOY_OR_INFRA_MUTATION => true | _ => false end.
Definition getProductModeDecision (m : ProductMode) (c : ClassifiedRiskAction) : PolicyDecisionResult :=
  let asks (b : bool) := if b then pol_ask else pol_allow in
  match m with
  | ASK_ALWAYS => pol_ask
  | AUTO_FOR_SAFE => asks (isAutoForSafeCategory (cl_category c))
  | AUTO_FOR_SAME_REPO => asks (isSameRepoApprovalCategory (cl_category c))
  | FULL_AGENT => asks (isFullAgentApprovalCategory (cl_category c))
  end.

(** [command.split(/&&|\|\||;|\|/)] *)
Fixpoint split_segments (s : string) : list string :=
  match s with
  | EmptyString => [""]
  | String "&" (String "&" s') => "" :: split_segments s'
  | String "|" (String "|" s') => "" :: split_segments s'
  | String "|" s' => "" :: split_segments s'
  | String ";" s' => "" :: split_segments s'
  | String c s' => match split_segments s' with first :: rest => String c first :: rest | [] => [String c ""] end
  end.
Definition getDisallowedShellReason (origin : string) (c : ClassifiedRiskAction) : option string :=
  if negb (String.eqb origin "agent") then None
  else if bool_decide (cl_category c <> SHELL_COMMAND) then None
  else match truthy (cl_command c) with
       | None => None
       | Some command =>
           let segments := List.filter (fun s => negb (String.eqb s "")) (map trim (split_segments command)) in
           if existsb GIT_COMMIT_IDENTITY_CONFIG_SEGMENT_PATTERN segments then
             Some "Do not run git config user.name/user.email through shell. Use git_commit with authorName and authorEmail, or retry commit from the Git commit dialog so OAuth-backed identity is applied."
           else None
       end.
Definition decidePolicyOutcome (origin : string) (m : ProductMode) (w : WorkflowIntent) (c : ClassifiedRiskAction)
    : PolicyDecisionResult :=
  match getDisallowedShellReason origin c with
  | Some reason => pol_deny reason
  | None =>
      match getGuaranteedDecision c with
      | Some d => d
      | None => match getWorkflowDecision w with Some d => d | None => getProductModeDecision m c end
      end
  end.

(** * Asking *)

Definition getApprovalTitle (category : RiskyActionCategory) (c : ClassifiedRiskAction) : string :=
  if bool_decide (category = DANGEROUS_RETRY) then "LegionCode paused repeated risky retries" else cl_title c.
Definition getApprovalReason (category : RiskyActionCategory) (c : ClassifiedRiskAction) : string :=
  if bool_decide (category = DANGEROUS_RETRY)
  then "The same risky action was attempted repeatedly without progress. Confirm how to proceed."
  else cl_reason c.
Definition buildAvailableDecisions (category : RiskyActionCategory) (hasPersistentRule : bool)
    : list ApprovalDecisionKind :=
  [ALLOW_ONCE; ALLOW_FOR_RUN] ++ (if hasPersistentRule then [ALLOW_PERSISTENT_RULE] else []) ++ [DENY] ++
  match category with DANGEROUS_RETRY | DEPLOY_OR_INFRA_MUTATION => [ABORT] | _ => [] end.

Definition isSafeShellPrefixToken (token : option string) : bool :=
  match token with Some token => is_plain_token token | None => false end.
Definition buildShellPersistentPrefixTokens (command : string) : option (list string) :=
  let tokens := List.filter (fun token => negb (String.eqb token ""))
                  (map (fun token => toLowerCase (trim token)) (split_spaces command)) in
  match tokens with
  | [] => None
  | first :: rest =>
      if bool_decide (first ∈ UNSAFE_INTERPRETER_PREFIXES) then None
      else if negb (bool_decide (first ∈ SAFE_PERSISTENT_SHELL_PREFIXES)) then None
      else if negb (bool_decide (first ∈ BROAD_PERSISTENT_SHELL_PREFIXES)) then Some [first]
      else match rest with
           | second :: rest =>
               if negb (is_plain_token second) then None
               else if bool_decide (second ∈ SHELL_PREFIX_VERB_TOKENS) then
                 match rest with
                 | third :: _ => if is_plain_token third then Some [first; second; third] else None
                 | [] => None
                 end
               else Some [first; second]
           | [] => None
           end
  end.
Definition buildProposedPersistentRule (c : ClassifiedRiskAction) (t : CodingToolId) : option ProposedPersistentRule :=
  match cl_category c with
  | SHELL_COMMAND =>
      command ← truthy (cl_command c);
      prefixTokens ← buildShellPersistentPrefixTokens command;
      Some (shell_rule prefixTokens "current_repo" "none")
  | GIT_MUTATION =>
      match t with
      | t_git_stage => Some (git_rule ["stage"] "current_repo")
      | t_git_commit => Some (git_rule ["commit"] "current_repo")
      | _ => None
      end
  | _ => None
  end.

(** What [hasPreapprovedAction] looks for among the persistent rules *)
Definition rule_query (c : ClassifiedRiskAction) : RuleQuery :=
  mkQuery (cl_category c) (cl_command c)
    (match cl_gitAction c with Some "stage" => Some "stage" | Some "commit" => Some "commit" | _ => None end)
    None (cl_providerOperation c).
