(* ===== verification/RuleProps.v ===== *)
(** The persistent rules the gate offers: each is one the store accepts, and each
    covers the action it was offered for. *)
From S2P Require Import Prelude Js Text Zod Regex Approvals RiskyAction.
From Stdlib Require Import Ascii.
#[local] Open Scope Z_scope.

(** * Words *)

Definition not_space (c : ascii) : bool := negb (is_space c).

Lemma trim_words s : str_forall not_space s = true -> trim s = s.
Proof.
  intros Hs. assert (He : trim_end s = s).
  { induction s as [|c s IH]; [done|]. cbn in Hs |- *. apply andb_true_iff in Hs as [Hc Hs].
    unfold not_space in Hc. apply negb_true_iff in Hc. by rewrite Hc, (IH Hs). }
  unfold trim. destruct s as [|c s]; [done|]. cbn in Hs. apply andb_true_iff in Hs as [Hc _].
  unfold not_space in Hc. apply negb_true_iff in Hc.
  assert (Ht : trim_start (String c s) = String c s) by (cbn; by rewrite Hc). by rewrite Ht.
Qed.

Lemma cut_spaces_words s : Forall (fun piece => str_forall not_space piece = true) (cut_spaces s).
Proof.
  induction s as [|c s IH]; cbn; [by repeat constructor|].
  destruct (is_space c) eqn:Ec; [by constructor|].
  assert (Hc : not_space c = true) by (unfold not_space; by rewrite Ec).
  destruct (cut_spaces s) as [|first others]; [by repeat constructor; cbn; rewrite Hc|].
  inversion IH as [|? ? Hf Ho]; subst. constructor; [|done]. cbn. by rewrite Hc, Hf.
Qed.

Lemma drop_inner_sub pieces : incl (drop_inner pieces) pieces.
Proof.
  induction pieces as [|piece rest IH]; [apply incl_refl|]. destruct rest as [|next rest]; [apply incl_refl|].
  intros x. cbn [drop_inner]. destruct (String.eqb piece ""); [intros Hx; right; by apply IH|].
  intros [->|Hx]; [by left|right; by apply IH].
Qed.

Lemma split_words s : Forall (fun piece => str_forall not_space piece = true) (split_spaces s).
Proof.
  pose proof (cut_spaces_words s) as Hc. unfold split_spaces. destruct (cut_spaces s) as [|first rest]; [done|].
  inversion Hc as [|? ? Hf Hr]; subst. constructor; [done|]. rewrite List.Forall_forall in *.
  intros x Hx%drop_inner_sub. by apply Hr.
Qed.

Definition nonempty (s : string) : bool := negb (String.eqb s "").

(** Only the last of the pieces between white space can be empty. *)
Lemma drop_inner_nonempty pieces :
  exists rest, drop_inner pieces = List.filter nonempty pieces ++ rest.
Proof.
  induction pieces as [|piece pieces IH]; [by exists []|]. destruct pieces as [|next pieces].
  - cbn. unfold nonempty. destruct (String.eqb_spec piece "") as [->|Hne]; [by exists [""]|by exists []].
  - destruct IH as [rest IH]. exists rest.
    change (drop_inner (piece :: next :: pieces)) with
      (if String.eqb piece "" then drop_inner (next :: pieces) else piece :: drop_inner (next :: pieces)).
    rewrite IH. change (List.filter nonempty (piece :: next :: pieces)) with
      (if nonempty piece then piece :: List.filter nonempty (next :: pieces) else List.filter nonempty (next :: pieces)).
    assert (Hne : nonempty piece = negb (String.eqb piece "")) by done. rewrite Hne.
    by destruct (String.eqb piece "").
Qed.

Lemma filter_cons_true {A} (p : A -> bool) x l : p x = true -> List.filter p (x :: l) = x :: List.filter p l.
Proof. cbn. by intros ->. Qed.

Lemma filter_drop_inner pieces : List.filter nonempty (drop_inner pieces) = List.filter nonempty pieces.
Proof.
  induction pieces as [|piece pieces IH]; [done|]. destruct pieces as [|next pieces]; [done|].
  change (drop_inner (piece :: next :: pieces)) with
    (if String.eqb piece "" then drop_inner (next :: pieces) else piece :: drop_inner (next :: pieces)).
  change (List.filter nonempty (piece :: next :: pieces)) with
    (if nonempty piece then piece :: List.filter nonempty (next :: pieces) else List.filter nonempty (next :: pieces)).
  assert (Hne : nonempty piece = negb (String.eqb piece "")) by done. rewrite Hne.
  destruct (String.eqb piece "") eqn:E; cbn [negb] in *; [exact IH|].
  rewrite filter_cons_true by done. by rewrite IH.
Qed.

Definition starts_plain (s : string) : bool :=
  match s with String c _ => not_space c | EmptyString => false end.

Lemma split_prefix s :
  starts_plain s = true -> exists rest, split_spaces s = List.filter nonempty (split_spaces s) ++ rest.
Proof.
  intros Hs. unfold split_spaces. destruct s as [|c s]; [done|]. cbn in Hs |- *. unfold not_space in Hs.
  apply negb_true_iff in Hs. rewrite Hs.
  assert (Hc : exists first others, (match cut_spaces s with
             | first :: others => String c first :: others | [] => [String c ""] end) = String c first :: others)
    by (destruct (cut_spaces s); eauto).
  destruct Hc as (first & others & ->). cbn. rewrite filter_drop_inner.
  destruct (drop_inner_nonempty others) as [rest ->]. by exists rest.
Qed.

Lemma trimmed_starts_plain s : trim s = s -> s <> "" -> starts_plain s = true.
Proof.
  intros Ht Hne. destruct s as [|c s]; [done|]. cbn. unfold not_space. apply negb_true_iff.
  destruct (is_space c) eqn:Ec; [|done]. exfalso.
  assert (Hl : forall t, (String.length (trim_end t) <= String.length t)%nat).
  { induction t as [|a t IH]; [done|]. cbn. destruct (_ && _); cbn; lia. }
  assert (Hl' : forall t, (String.length (trim_start t) <= String.length t)%nat).
  { induction t as [|a t IH]; [done|]. cbn. destruct (is_space a); cbn; lia. }
  apply (f_equal String.length) in Ht. unfold trim in Ht. cbn [trim_start] in Ht. rewrite Ec in Ht. cbn in Ht.
  specialize (Hl (trim_start s)). specialize (Hl' s). lia.
Qed.

(** The words of a command are those it is matched by, up to a last empty one. *)
Lemma command_words s :
  trim s = s -> s <> "" ->
  exists rest, map toLowerCase (split_spaces s) =
    List.filter nonempty (map (fun token => toLowerCase (trim token)) (split_spaces s)) ++ rest.
Proof.
  intros Ht Hne. assert (Hm : map (fun token => toLowerCase (trim token)) (split_spaces s) = map toLowerCase (split_spaces s)).
  { apply List.map_ext_in. intros x Hx. pose proof (split_words s) as Hw. rewrite List.Forall_forall in Hw.
    by rewrite (trim_words x (Hw x Hx)). }
  rewrite Hm. destruct (split_prefix s (trimmed_starts_plain s Ht Hne)) as [rest Hr].
  exists (map toLowerCase rest). rewrite Hr at 1. rewrite map_app. f_equal.
  clear. induction (split_spaces s) as [|x l IH]; [done|]. cbn. destruct x as [|c x]; cbn; [done|by rewrite IH].
Qed.

(** * The tokens of a rule *)

Lemma lower_token c : is_token_char c = true -> lower_char c = c /\ is_space c = false.
Proof. destruct c as [[] [] [] [] [] [] [] []]; vm_compute; intros H; first [discriminate H|by split]. Qed.

Lemma plain_token_fixed s : is_plain_token s = true -> toLowerCase (trim s) = s.
Proof.
  intros [_ Hs]%andb_true_iff. assert (Hw : str_forall not_space s = true).
  { eapply str_forall_mono; [|exact Hs]. intros c Hc. unfold not_space. by destruct (lower_token c Hc) as [_ ->]. }
  rewrite trim_words by done. clear Hw. induction s as [|c s IH]; [done|]. cbn in Hs |- *.
  apply andb_true_iff in Hs as [Hc Hs]. by rewrite (proj1 (lower_token c Hc)), IH.
Qed.

Lemma safe_prefix first :
  first ∈ SAFE_PERSISTENT_SHELL_PREFIXES ->
  is_plain_token first = true /\ bool_decide (first ∈ UNSAFE_SHELL_PREFIXES) = false.
Proof.
  intros Hf%list_elem_of_In. repeat (destruct Hf as [<-|Hf]; [by vm_compute|]). destruct Hf.
Qed.

(** A shell rule the gate builds is a prefix of the command's words and keeps to
    what the store accepts. *)
Lemma built_tokens command tokens :
  buildShellPersistentPrefixTokens command = Some tokens ->
  isValidProposedPersistentRule (shell_rule tokens "current_repo" "none") = true /\
  exists rest, List.filter nonempty (map (fun token => toLowerCase (trim token)) (split_spaces command)) = tokens ++ rest.
Proof.
  unfold buildShellPersistentPrefixTokens. fold nonempty.
  destruct (List.filter _ _) as [|first rest]; [done|].
  destruct (bool_decide (first ∈ UNSAFE_INTERPRETER_PREFIXES)); [done|].
  destruct (bool_decide_reflect (first ∈ SAFE_PERSISTENT_SHELL_PREFIXES)) as [Hs|]; [|done]. cbn [negb].
  apply safe_prefix in Hs as [Hp Hu].
  pose proof (plain_token_fixed first Hp) as Hf.
  assert (Hne : String.eqb first "" = false) by (by destruct first).
  change BROAD_PERSISTENT_SHELL_PREFIXES with BROAD_SHELL_EXECUTABLES.
  destruct (bool_decide (first ∈ BROAD_SHELL_EXECUTABLES)) eqn:Eb; cbn [negb].
  2:{ intros [= <-]. split; [|by exists rest]. cbn. by rewrite Hf, Hne, Hu, Eb, Hp. }
  destruct rest as [|second rest]; [done|]. destruct (is_plain_token second) eqn:Hp2; [|done]. cbn [negb].
  pose proof (plain_token_fixed second Hp2) as Hf2.
  assert (Hne2 : String.eqb second "" = false) by (by destruct second).
  destruct (bool_decide (second ∈ _)).
  2:{ intros [= <-]. split; [|by exists rest]. cbn. by rewrite Hf, Hf2, Hne, Hne2, Hu, Hp, Hp2. }
  destruct rest as [|third rest]; [done|]. destruct (is_plain_token third) eqn:Hp3; [|done]. intros [= <-].
  pose proof (plain_token_fixed third Hp3) as Hf3.
  assert (Hne3 : String.eqb third "" = false) by (by destruct third).
  split; [|by exists rest]. cbn. by rewrite Hf, Hf2, Hf3, Hne, Hne2, Hne3, Hu, Hp, Hp2, Hp3.
Qed.

(** * The offer *)

Section Offer.
Context `{!JsRuntime}.

Lemma trimmed_text_arg key args : trim (text_arg key args) = text_arg key args.
Proof. unfold text_arg. destruct (dget key args) as [[]|]; try done. apply trim_idem. Qed.

(** The action a rule was offered for *)
Lemma classified_shell t args :
  cl_category (classifyRiskAction t args) = SHELL_COMMAND ->
  t = t_bash /\ cl_command (classifyRiskAction t args) = Some (text_arg "command" args).
Proof.
  unfold classifyRiskAction. destruct (existsb _ _); [done|].
  destruct t; done.
Qed.
Lemma classified_git t args :
  cl_category (classifyRiskAction t args) = GIT_MUTATION -> cl_gitAction (classifyRiskAction t args) = toGitAction t.
Proof. unfold classifyRiskAction. destruct (existsb _ _); [done|]. by destruct t. Qed.

(** A persistent rule that is offered works: the approval store accepts it as
    narrow enough, and stored it covers the action it was offered for. *)
Theorem offered_rule_works (t : CodingToolId) (args : JsonRecord) (rule : ProposedPersistentRule)
    (Hrule : buildProposedPersistentRule (classifyRiskAction t args) t = Some rule) :
  isValidProposedPersistentRule rule = true /\
  forall id createdAt user,
    matchesPersistentRule (mkRule id createdAt user (rule_category rule) rule)
      (rule_query (classifyRiskAction t args)) = true.
Proof.
  unfold buildProposedPersistentRule in Hrule. destruct (cl_category _) eqn:Ec; try done.
  - destruct t; try done; injection Hrule as <-; (split; [done|]); intros id createdAt user;
      unfold matchesPersistentRule, rule_query; cbn [sr_category rule_category rq_category sr_payload rq_gitAction];
      by rewrite Ec, (classified_git _ _ Ec).
  - destruct (classified_shell t args Ec) as [-> Hc]. rewrite Hc in Hrule.
    pose proof (trimmed_text_arg "command" args) as Ht. unfold rule_query, matchesPersistentRule. rewrite Hc, Ec. clear Hc Ec.
    set (command := text_arg "command" args) in *. clearbody command.
    destruct (String.eqb_spec command "") as [->|Hne]; [done|].
    assert (Htr : truthy (Some command) = Some command) by (by destruct command). rewrite Htr in Hrule.
    cbn [mbind option_bind] in Hrule. destruct (buildShellPersistentPrefixTokens command) as [tokens|] eqn:Eb; [|done].
    injection Hrule as <-. destruct (built_tokens command tokens Eb) as [Hv [rest Hr]]. split; [done|].
    intros id createdAt user. cbn [sr_category rule_category rq_category sr_payload rq_command].
    rewrite bool_decide_false by (intros []; done). rewrite Htr, Ht.
    destruct (String.eqb_spec command "") as [?|_]; [done|].
    destruct (command_words command Ht Hne) as [more Hm]. rewrite Hr in Hm. rewrite Hm, <- app_assoc.
    rewrite length_app. destruct (Nat.ltb_spec (length tokens + length (rest ++ more)) (length tokens)); [lia|].
    rewrite take_app_length. by apply bool_decide_eq_true.
Qed.
End Offer.

#[local] Existing Instance iso_runtime.

Lemma offered_rule_works_witness :
  let args := [("command", JStr " pnpm run  Test:unit --watch")] in
  let rule := shell_rule ["pnpm"; "run"; "test:unit"] "current_repo" "none" in
  buildProposedPersistentRule (classifyRiskAction t_bash args) t_bash = Some rule /\
  matchesPersistentRule (mkRule "id" "now" "user" SHELL_COMMAND rule) (rule_query (classifyRiskAction t_bash args)) = true.
Proof.
  cbv zeta. split; [by vm_compute|].
  apply (offered_rule_works t_bash [("command", JStr " pnpm run  Test:unit --watch")]
           (shell_rule ["pnpm"; "run"; "test:unit"] "current_repo" "none")). by vm_compute.
Defined.
