(* ===== verification/ToolGate.v ===== *)
(** The gate in front of the tools of a run: [evaluateToolPermission] of
    RunRiskyActionPolicy.ts, RunApprovalWaitPolicy.ts, RunApprovalDecisionPolicy.ts
    and [executeDirectToolCall] of RunAgenticLoopCallbacksPolicy.ts in
    [packages/execution-engine/src/runtime/engine].  The gate is an asynchronous
    operation: between two accesses to the approvals others may change them. *)
From S2P Require Import Prelude Async Js Text Regex Json Approvals RiskyAction.
From Stdlib Require Import Ascii QArith.
#[local] Open Scope Z_scope.

(** What the gate reads and writes: the approvals of the run, the clock, the
    identifiers yet to be drawn, the status of the run, the flags that the
    callbacks of the run share, and the lifecycle steps of the run. *)
Record gate_world : Type := mkGate {
  gw_store : option ApprovalState;
  gw_now : Z;
  gw_uuids : list string;
  gw_status : option string;
  gw_hasMutationEvidence : bool;
  gw_scopeDecisionRequested : bool;
  gw_steps : list (string * string);
}.
Definition with_store v (w : gate_world) := mkGate v (gw_now w) (gw_uuids w) (gw_status w) (gw_hasMutationEvidence w) (gw_scopeDecisionRequested w) (gw_steps w).
Definition with_now v (w : gate_world) := mkGate (gw_store w) v (gw_uuids w) (gw_status w) (gw_hasMutationEvidence w) (gw_scopeDecisionRequested w) (gw_steps w).
Definition with_uuids v (w : gate_world) := mkGate (gw_store w) (gw_now w) v (gw_status w) (gw_hasMutationEvidence w) (gw_scopeDecisionRequested w) (gw_steps w).
Definition with_evidence v (w : gate_world) := mkGate (gw_store w) (gw_now w) (gw_uuids w) (gw_status w) v (gw_scopeDecisionRequested w) (gw_steps w).
Definition with_scope v (w : gate_world) := mkGate (gw_store w) (gw_now w) (gw_uuids w) (gw_status w) (gw_hasMutationEvidence w) v (gw_steps w).
Definition with_steps v (w : gate_world) := mkGate (gw_store w) (gw_now w) (gw_uuids w) (gw_status w) (gw_hasMutationEvidence w) (gw_scopeDecisionRequested w) v.

Inductive ToolPermissionGateResult : Type :=
| gate_allow
| gate_ask (request : ApprovalRequest)
| gate_deny (reason : string).

Inductive gate_error : Type :=
| StoreError (e : approval_error)
| PermissionGateError (result : ToolPermissionGateResult) (message : string)
| AgenticLoopCancelledError (message : string)
| PlainError (message : string)
| StillPolling.
Notation gate := (async gate_world gate_error).

Record RiskyActionEvaluationInput : Type := mkEvaluation {
  ev_runId : string;
  ev_sessionId : string;
  ev_origin : string;
  ev_productMode : ProductMode;
  ev_workflowIntent : WorkflowIntent;
  ev_toolName : CodingToolId;
  ev_toolArgs : JsonRecord;
  ev_hasMutationEvidence : bool;
  ev_allowResumeGitPush : bool;
  ev_ownerUserId : option string;
}.

(** * PermissionGateError.ts *)

Definition fromAsk (request : ApprovalRequest) : gate_error :=
  PermissionGateError (gate_ask request)
    (ar_title request +:+ String LF "" +:+ ar_reason request +:+ String LF "" +:+
     "Choose an approval action to continue.").
Definition fromDeny (reason : string) : gate_error := PermissionGateError (gate_deny reason) reason.

Section Gate.
Context `{!JsRuntime} `{!IsoDates} `{!NumberTexts} `{!JsonNumbers}.

(** * RunRiskyActionPolicy.ts *)

(** A call of the approval store *)
Definition store_call {A} (m : Z -> approvals A) : gate A :=
  segment (fun w =>
    let '(r, s) := m (gw_now w) (gw_store w) in
    (match r with Ok a => Ok a | Err e => Err (StoreError e) end, with_store s w)).
(** [crypto.randomUUID()] and a call of the approval store *)
Definition draw_and_call {A} (m : Z -> string -> approvals A) : gate A :=
  segment (fun w =>
    let '(r, s) := m (gw_now w) (hd "" (gw_uuids w)) (gw_store w) in
    (match r with Ok a => Ok a | Err e => Err (StoreError e) end, with_uuids (tl (gw_uuids w)) (with_store s w))).

Definition hasPreapprovedAction (c : ClassifiedRiskAction) : gate bool :=
  runApproved ← store_call (fun now => isActionAllowed now (cl_actionFingerprint c));
  if (runApproved : bool) then
    _ ← store_call (fun now => clearRiskyAttempt now (cl_actionFingerprint c)); mret true
  else
    persistentApproved ← store_call (fun now => matchPersistentRule now (rule_query c));
    if (persistentApproved : bool) then
      _ ← store_call (fun now => clearRiskyAttempt now (cl_actionFingerprint c)); mret true
    else mret false.

Definition build_request (input : RiskyActionEvaluationInput) (c : ClassifiedRiskAction) (attemptCount : Z)
    (now : Z) (uuid expiresAt : string) : ApprovalRequest :=
  let category := if DANGEROUS_RETRY_THRESHOLD <=? attemptCount then DANGEROUS_RETRY else cl_category c in
  let proposedPersistentRule := buildProposedPersistentRule c (ev_toolName input) in
  {| ar_requestId := uuid; ar_runId := ev_runId input; ar_threadId := None;
     ar_sessionId := Some (ev_sessionId input); ar_turnId := None; ar_itemId := None;
     ar_origin := ev_origin input; ar_category := category;
     ar_title := getApprovalTitle category c; ar_reason := getApprovalReason category c;
     ar_command := cl_command c; ar_cwd := cl_cwd c; ar_affectedPaths := cl_affectedPaths c;
     ar_remoteTarget := cl_remoteTarget c; ar_actionFingerprint := cl_actionFingerprint c;
     ar_availableDecisions := buildAvailableDecisions category (is_some proposedPersistentRule);
     ar_proposedPersistentRule := proposedPersistentRule;
     ar_createdAt := toISOString now; ar_expiresAt := Some expiresAt |}.

Definition createApprovalAskResult (input : RiskyActionEvaluationInput) (c : ClassifiedRiskAction)
    : gate ToolPermissionGateResult :=
  attemptCount ← store_call (fun now => registerRiskyAttempt now (cl_actionFingerprint c) (cl_reason c));
  request ← draw_and_call (fun now uuid =>
    expiresAt ← iso (now + APPROVAL_TTL_MS);
    setPendingRequest now (build_request input c attemptCount now uuid expiresAt) (ev_ownerUserId input));
  mret (gate_ask request).

Definition evaluateToolPermission (input : RiskyActionEvaluationInput) : gate ToolPermissionGateResult :=
  let c := classifyRiskAction (ev_toolName input) (ev_toolArgs input) in
  match getMutationEvidenceDenial c (ev_toolName input) (ev_hasMutationEvidence input) (ev_allowResumeGitPush input) with
  | Some reason => mret (gate_deny reason)
  | None =>
      match decidePolicyOutcome (ev_origin input) (ev_productMode input) (ev_workflowIntent input) c with
      | pol_allow => mret gate_allow
      | pol_deny reason => mret (gate_deny reason)
      | pol_ask =>
          preapproved ← (if bool_decide (ev_productMode input <> ASK_ALWAYS) then hasPreapprovedAction c else mret false);
          if (preapproved : bool) then mret gate_allow else createApprovalAskResult input c
      end
  end.

(** * RunApprovalWaitPolicy.ts *)

Inductive WaitOutcome : Type := wo_approved | wo_denied | wo_aborted | wo_timed_out | wo_cancelled.
Definition ApprovalWaitOutcome : Type := WaitOutcome * option ApprovalDecisionKind.

Record RunEngineEnv : Type := mkEnv { env_APPROVAL_WAIT_TIMEOUT_MS : option string; env_NODE_ENV : option string }.
Definition TEST_APPROVAL_WAIT_TIMEOUT_MS : Z := 50.
Definition DEFAULT_APPROVAL_WAIT_TIMEOUT_MS : Z := 5 * 60 * 1000.
Definition APPROVAL_WAIT_POLL_INTERVAL_MS : Z := 250.

Definition parseOptionalNumber (value : option string) : option jsnum :=
  value ← truthy value; if String.eqb (trim value) "" then None else Number_of value.
Definition resolveApprovalWaitTimeoutMs (env : RunEngineEnv) : Q :=
  let unconfigured := inject_Z (if bool_decide (env_NODE_ENV env = Some "test") then TEST_APPROVAL_WAIT_TIMEOUT_MS
                                else DEFAULT_APPROVAL_WAIT_TIMEOUT_MS) in
  match parseOptionalNumber (env_APPROVAL_WAIT_TIMEOUT_MS env) with
  | Some n => if Qle_bool (num_value n) 0 then unconfigured else num_value n
  | None => unconfigured
  end.
(** [Math.min(APPROVAL_WAIT_POLL_INTERVAL_MS, timeoutMs)] *)
Definition poll_interval (timeoutMs : Q) : Q :=
  if Qle_bool timeoutMs (inject_Z APPROVAL_WAIT_POLL_INTERVAL_MS) then timeoutMs
  else inject_Z APPROVAL_WAIT_POLL_INTERVAL_MS.
(** How long [setTimeout] waits: a delay is cut to an integer and is 1 at least. *)
Definition timer_delay (delayMs : Q) : Z := Z.max 1 (Z.quot (Qnum delayMs) (Zpos (Qden delayMs))).

(** [Date.now()]: a segment of its own, so that the clock may be read late *)
Definition Date_now : gate Z := segment (gets gw_now).
Definition waitForApprovalPollCycle (delayMs : Q) : gate unit :=
  segment (modify (fun w => with_now (gw_now w + timer_delay delayMs) w)).

(** [while (Date.now() - startedAt < timeoutMs)], at most [polls] times *)
Fixpoint poll_decision (polls : nat) (timeoutMs : Q) (startedAt : Z) (request : ApprovalRequest)
    : gate ApprovalWaitOutcome :=
  t ← Date_now;
  if Qle_bool timeoutMs (inject_Z (t - startedAt)) then mret (wo_timed_out, None)
  else
    match polls with
    | O => now (Err StillPolling)
    | S polls =>
        status ← segment (gets gw_status);
        if bool_decide (status = Some "CANCELLED") then mret (wo_cancelled, None)
        else
          resolvedDecision ← store_call (fun now => getResolvedDecision now (ar_requestId request));
          match resolvedDecision with
          | Some d =>
              match rd_status d with
              | rs_approved =>
                  _ ← (if bool_decide (rd_decision d = ALLOW_ONCE)
                       then _ ← store_call (fun now => isActionAllowed now (ar_actionFingerprint request)); mret tt
                       else mret tt);
                  mret (wo_approved, Some (rd_decision d))
              | rs_aborted => mret (wo_aborted, Some (rd_decision d))
              | rs_denied => mret (wo_denied, Some (rd_decision d))
              end
          | None =>
              isApproved ← store_call (fun now => isActionAllowed now (ar_actionFingerprint request));
              if (isApproved : bool) then mret (wo_approved, Some ALLOW_ONCE)
              else
                pending ← store_call getPendingRequest;
                if match pending with
                   | Some pending => negb (String.eqb (ar_requestId pending) (ar_requestId request))
                   | None => true
                   end
                then mret (wo_timed_out, None)
                else
                  _ ← waitForApprovalPollCycle (poll_interval timeoutMs);
                  poll_decision polls timeoutMs startedAt request
          end
    end.

(** The polls that fit in the timeout *)
Definition max_polls (timeoutMs : Q) : nat :=
  Z.to_nat (Z.div (Qnum timeoutMs) (Zpos (Qden timeoutMs) * timer_delay (poll_interval timeoutMs))) + 1.
Definition waitForApprovalDecision (request : ApprovalRequest) (env : RunEngineEnv) : gate ApprovalWaitOutcome :=
  let timeoutMs := resolveApprovalWaitTimeoutMs env in
  startedAt ← Date_now;
  poll_decision (max_polls timeoutMs) timeoutMs startedAt request.
End Gate.

(** * RunAgenticLoopCallbacksPolicy.ts *)

(** [typeof value === "object" && value !== null] *)
Definition toRecord (value : option json) : option json :=
  match value with Some (JObj o) => Some (JObj o) | Some (JArr l) => Some (JArr l) | _ => None end.

Definition isWorkspaceContentMutation (t : CodingToolId) : bool := is_edit t.
Definition needsGitMutationEvidenceProbe (t : CodingToolId) : bool :=
  match t with t_git_stage | t_git_commit | t_git_push => true | _ => false end.

Record MutationProbe : Type := mkProbe {
  mp_hasMutationEvidence : bool;
  mp_changedFiles : list string;
  mp_probeFailed : bool;
  mp_probeError : option string;
}.
Definition no_probe : MutationProbe := mkProbe false [] false None.

(** [try { await m } catch (e) { ... }]: the result of [m] as a value *)
Fixpoint caught {A} (m : gate A) : gate (res gate_error A) :=
  match m with
  | Settled r => Settled (Ok r)
  | Segment effect rest => Segment effect (fun w => caught (rest w))
  end.
Definition error_message (e : gate_error) : string :=
  match e with
  | StoreError (ApprovalError m) => m
  | StoreError RangeError => "Invalid time value"
  | PermissionGateError _ m => m
  | AgenticLoopCancelledError m => m
  | PlainError m => m
  | StillPolling => ""
  end.

(** [path.trim().replace(/\\+/g, "/")] *)
Fixpoint slashed (after : bool) (s : string) : string :=
  match s with
  | EmptyString => ""
  | String c s' => if Ascii.eqb c (ascii_of_nat 92) then (if after then slashed true s' else String "/" (slashed true s'))
                   else String c (slashed false s')
  end.
Definition normalizePath (path : string) : string := slashed false (trim path).
Definition requestedFilesCoverChangedFiles (requestedFiles changedFiles : list string) : bool :=
  let requestedFiles := map normalizePath requestedFiles in
  let changedFiles := map normalizePath changedFiles in
  forallb (fun changedPath =>
    existsb (fun requestedPath =>
      String.eqb changedPath requestedPath || endsWith ("/" +:+ requestedPath) changedPath ||
      endsWith ("/" +:+ changedPath) requestedPath) requestedFiles) changedFiles.
Definition extractRequestedFilesFromGitArgs (t : CodingToolId) (args : JsonRecord) : list string :=
  match t, dget "files" args with
  | t_git_stage, Some (JArr files) => flat_map (fun file => nonempty_text (Some file)) files
  | _, _ => []
  end.
Definition buildLocalDiffScopePrompt (changedFiles : list string) : string :=
  let changedPreview := match changedFiles with [] => "none detected" | _ => Js.join ", " (take 6 changedFiles) end in
  Js.join " "
    ["Before staging/committing/pushing, I need one scope decision because the current local diff scope is not explicit.";
     "Detected changed files: " +:+ changedPreview +:+ ".";
     "Tell me exactly which files or target scope to use, then I will continue."].
Definition resolveLocalDiffScopeDenial (t : CodingToolId) (args : JsonRecord) (scopeDecisionRequested : bool)
    (changedFiles : list string) : option string :=
  if scopeDecisionRequested then None
  else if negb (needsGitMutationEvidenceProbe t) then None
  else if (length changedFiles =? 0)%nat then None
  else
    let requestedFiles := extractRequestedFilesFromGitArgs t args in
    if (0 <? length requestedFiles)%nat && requestedFilesCoverChangedFiles requestedFiles changedFiles then None
    else if (length requestedFiles =? 0)%nat && (length changedFiles =? 1)%nat then None
    else Some (buildLocalDiffScopePrompt changedFiles).
Definition buildMutationProbeFailureMessage (probeError : option string) : string :=
  let detail := match truthy probeError with
                | Some e => " git_status failed with: " +:+ e +:+ "."
                | None => ""
                end in
  trim (Js.join " "
    ["I couldn't verify local workspace changes before staging/committing/pushing."; detail;
     "Retry the request so I can re-check git status, or provide explicit file scope."]).

Definition read_bool (value : option json) : option bool :=
  match value with Some (JBool b) => Some b | _ => None end.
Definition resolveRuntimeFeatureFlags (metadata : option JsonRecord) : json :=
  let featureFlags := field "featureFlags" (JObj <$> metadata) in
  let ghCliLaneEnabled := default false (read_bool (field "ghCliLaneEnabled" featureFlags)) in
  let ghCliCiEnabled := default ghCliLaneEnabled (read_bool (field "ghCliCiEnabled" featureFlags)) in
  let ghCliPrCommentEnabled := default false (read_bool (field "ghCliPrCommentEnabled" featureFlags)) in
  JObj [("ghCliLaneEnabled", JBool ghCliLaneEnabled); ("ghCliCiEnabled", JBool ghCliCiEnabled);
        ("ghCliPrCommentEnabled", JBool ghCliPrCommentEnabled)].

Record RunContinuation : Type := mkContinuation {
  rc_failedToolName : option string;
  rc_hasTrustedGitCommitIdentity : bool;
  rc_completedGitSteps : list string;
}.
Definition canResumeGitPushFromContinuation (continuation : option RunContinuation) : bool :=
  match continuation with
  | None => false
  | Some c =>
      if bool_decide (rc_failedToolName c <> Some "git_push") then false
      else if negb (rc_hasTrustedGitCommitIdentity c) then false
      else existsb (fun step => startsWith "commit created:" (toLowerCase (trim step))) (rc_completedGitSteps c)
  end.

(** The run as its callbacks see it *)
Record GatedRun : Type := mkRun {
  gr_id : string;
  gr_sessionId : string;
  gr_mode : option BuildMode;
  gr_inputMetadata : option JsonRecord;
  gr_permissionState : option EffectivePermissionState;
  gr_actorUserId : option string;
  gr_continuation : option RunContinuation;
}.

(** The parts of the system the callbacks call: a plugin of the execution
    service, the tool executor, the recorder of the run's events and the
    presentation of a tool call.  Each is an operation of its own. *)
Record GateServices (R : Type) : Type := mkServices {
  sv_execute : string -> string -> JsonRecord -> async gate_world gate_error json;
  sv_executeAgenticLoopTool : string -> CodingToolId -> JsonRecord -> async gate_world gate_error R;
  sv_recordApprovalRequested : ApprovalRequest -> async gate_world gate_error unit;
  sv_recordApprovalResolved :
    string -> ApprovalDecisionKind -> ResolutionStatus -> async gate_world gate_error unit;
  sv_getToolPresentation : string -> JsonRecord -> string * string;
}.
Arguments sv_execute {R} _ _ _ _.
Arguments sv_executeAgenticLoopTool {R} _ _ _ _.
Arguments sv_recordApprovalRequested {R} _ _.
Arguments sv_recordApprovalResolved {R} _ _ _ _.
Arguments sv_getToolPresentation {R} _ _ _.

Section Callbacks.
Context `{!JsRuntime} `{!IsoDates} `{!NumberTexts} `{!JsonNumbers} {R : Type} (services : GateServices R).

Definition extractJsonOutputPayload (value : json) : option json :=
  record ← toRecord (Some value);
  if bool_decide (read_bool (field "success" (Some record)) = Some false) then None
  else match field "output" (Some record) with
       | Some (JStr output) =>
           if String.eqb (trim output) "" then None
           else match JSON_parse output with Ok parsed => toRecord (Some parsed) | Err _ => None end
       | _ => None
       end.

Definition changed_file (file : json) : list string :=
  match file with
  | JStr _ => nonempty_text (Some file)
  | _ => nonempty_text (field "path" (toRecord (Some file)))
  end.

Definition detectWorkspaceMutationEvidence : gate MutationProbe :=
  result ← caught (sv_execute services "git" "git_status" []);
  mret (match result with
        | Err e => mkProbe false [] true (Some (error_message e))
        | Ok result =>
            match extractJsonOutputPayload result with
            | None => no_probe
            | Some payload =>
                let flag key := bool_decide (read_bool (field key (Some payload)) = Some true) in
                let files := match field "files" (Some payload) with Some (JArr files) => files | _ => [] end in
                mkProbe (flag "hasStaged" || flag "hasUnstaged" || (0 <? length files)%nat)
                        (flat_map changed_file files) false None
            end
        end).

(** The wait for the user, and what follows from it; [step] of
    [recordLifecycleStep] is recorded in the run. *)
Definition status_of (o : WaitOutcome) : ResolutionStatus :=
  match o with wo_approved => rs_approved | wo_aborted => rs_aborted | _ => rs_denied end.
Definition decision_of (o : WaitOutcome) : ApprovalDecisionKind :=
  match o with wo_approved => ALLOW_ONCE | wo_aborted => ABORT | _ => DENY end.
Definition await_approval (env : RunEngineEnv) (request : ApprovalRequest) : gate unit :=
  _ ← segment (modify (fun w => with_steps (gw_steps w ++ [("APPROVAL_WAIT", "structured approval request emitted")]) w));
  _ ← sv_recordApprovalRequested services request;
  '(outcome, decision) ← waitForApprovalDecision request env;
  _ ← (match outcome with
       | wo_approved | wo_denied | wo_aborted =>
           sv_recordApprovalResolved services (ar_requestId request)
             (default (decision_of outcome) decision) (status_of outcome)
       | _ => mret tt
       end);
  match outcome with
  | wo_approved => mret tt
  | wo_timed_out => now (Err (fromAsk request))
  | wo_cancelled => now (Err (AgenticLoopCancelledError "Run was cancelled while waiting for approval."))
  | wo_aborted => now (Err (fromDeny "Approval request was aborted."))
  | wo_denied => now (Err (fromDeny "Approval request was denied."))
  end.

Definition evaluation_input (run : GatedRun) (t : CodingToolId) (args : JsonRecord) (hasMutationEvidence : bool)
    : RiskyActionEvaluationInput :=
  let state := match gr_permissionState run with
               | Some state => state
               | None => let '(state, _, _) := resolveRunPermissionContext (gr_mode run) (gr_inputMetadata run) in state
               end in
  mkEvaluation (gr_id run) (gr_sessionId run) "agent" (ep_productMode state) (ep_workflowIntent state) t args
    hasMutationEvidence (canResumeGitPushFromContinuation (gr_continuation run)) (gr_actorUserId run).

(** From [evaluateToolPermission] to the execution of the tool *)
Definition obtain_permission (env : RunEngineEnv) (input : RiskyActionEvaluationInput) : gate unit :=
  permissionResult ← evaluateToolPermission input;
  match permissionResult with
  | gate_allow => mret tt
  | gate_ask request => await_approval env request
  | gate_deny reason => now (Err (fromDeny reason))
  end.

Definition tool_input (run : GatedRun) (presentation : string * string) (args : JsonRecord) : JsonRecord :=
  dset "__runtimeFeatureFlags" (resolveRuntimeFeatureFlags (gr_inputMetadata run))
    (dmerge [("description", JStr (fst presentation)); ("displayText", JStr (snd presentation))] args).

Definition executeDirectToolCall (run : GatedRun) (env : RunEngineEnv) (id toolName : string) (args : JsonRecord)
    : gate R :=
  let presentation := sv_getToolPresentation services toolName args in
  '(ranMutation, scopeRequested) ← segment (gets (fun w => (gw_hasMutationEvidence w, gw_scopeDecisionRequested w)));
  match tool_of toolName with
  | None => now (Err (PlainError ("Unsupported direct agentic tool: " +:+ toolName)))
  | Some t =>
      let shouldProbe := needsGitMutationEvidenceProbe t in
      probe ← (if shouldProbe then detectWorkspaceMutationEvidence else mret no_probe);
      if shouldProbe && mp_probeFailed probe && negb ranMutation then
        now (Err (fromDeny (buildMutationProbeFailureMessage (mp_probeError probe))))
      else
        let hasMutationEvidence := ranMutation || mp_hasMutationEvidence probe in
        _ ← (if negb ranMutation && mp_hasMutationEvidence probe
             then segment (modify (with_evidence true)) else mret tt);
        match resolveLocalDiffScopeDenial t args scopeRequested (mp_changedFiles probe) with
        | Some denial =>
            _ ← segment (modify (with_scope true));
            now (Err (fromDeny denial))
        | None =>
            _ ← obtain_permission env (evaluation_input run t args hasMutationEvidence);
            result ← sv_executeAgenticLoopTool services id t (tool_input run presentation args);
            _ ← (if isWorkspaceContentMutation t then segment (modify (with_evidence true)) else mret tt);
            mret result
        end
  end.
End Callbacks.

(** * RunApprovalDecisionPolicy.ts *)

Definition extractApprovalDecision (metadata : option JsonRecord) : option ApprovalDecision :=
  let raw := toRecord (field "permissionDecision" (JObj <$> metadata)) in
  match field "kind" raw, field "requestId" raw with
  | Some (JStr kind), Some (JStr requestId) =>
      match List.find (fun k => String.eqb (kind_str k) kind) [ALLOW_ONCE; ALLOW_FOR_RUN; ALLOW_PERSISTENT_RULE; DENY; ABORT] with
      | Some kind => if String.eqb (trim requestId) "" then None else Some (mkDecision kind requestId)
      | None => None
      end
  | _, _ => None
  end.
Definition buildApprovalDecisionMessage (r : PermissionDecisionResult) : string :=
  match pd_status r, pd_decision r with
  | rs_approved, ALLOW_ONCE => "Approval recorded. I can run that exact action once on your next request."
  | rs_approved, ALLOW_FOR_RUN =>
      "Approval recorded for this run. I can continue this action during the current run scope."
  | rs_approved, ALLOW_PERSISTENT_RULE =>
      "Persistent narrow rule recorded. Future matching actions can run without asking when the policy allows it."
  | rs_aborted, _ =>
      "Approval request aborted. LegionCode will stop this risky action path until you issue a new instruction."
  | _, _ => "Approval denied. LegionCode will keep this risky action blocked."
  end.
