(* ===== verification/ToolFailures.v ===== *)
(** How the agentic loop reports the failure of a tool: the capability manifest it
    reads and StructuredToolError.ts of
    [packages/execution-engine/src/runtime/capabilities], AgenticLoopToolHelpers.ts,
    GitToolFailureClassifier.ts and ToolFailureTerminalPolicy.ts of [engine], and the
    permissions of CodingToolRegistry.ts. *)
From S2P Require Import Prelude Js Text Regex Approvals RiskyAction.
From Stdlib Require Import Ascii.
#[local] Open Scope Z_scope.

(** * CodingToolRegistry.ts: permissions *)

Inductive ToolPermissionMode : Type := tp_allow | tp_approval_required.
#[export] Instance ToolPermissionMode_eq_dec : EqDecision ToolPermissionMode.
Proof. solve_decision. Defined.
Definition tool_permission (t : CodingToolId) : ToolPermissionMode :=
  match t with
  | t_read_file | t_list_files | t_git_status | t_git_diff | t_github_pr_list | t_github_pr_get
  | t_github_pr_files_get | t_github_pr_checks_get | t_github_review_threads_get | t_github_issue_get
  | t_github_actions_run_get | t_github_actions_job_logs_get | t_github_cli_pr_checks_get
  | t_github_cli_actions_run_get | t_github_cli_actions_job_logs_get | t_glob | t_grep => tp_allow
  | t_write_file | t_edit_file | t_multi_edit | t_apply_patch | t_format_file | t_bash | t_git_stage | t_git_commit
  | t_git_push | t_git_pull | t_git_create_pull_request | t_git_branch_create | t_git_branch_switch
  | t_github_cli_pr_comment => tp_approval_required
  end.
Definition isMutatingCodingToolId (toolName : string) : bool :=
  match tool_of toolName with Some t => bool_decide (tool_permission t = tp_approval_required) | None => false end.

(** * RuntimeCapabilityManifest.ts *)

Inductive loop_issue : Type := ZodIssue (path : string).

(** The fields from which a manifest is made and those the loop reads; the policy
    texts are functions of the tools. *)
Record RunCapabilityManifest : Type := mkManifest {
  mf_runId : string;
  mf_executionLocation : string;
  mf_workspaceRoot : string;
  mf_artifactRoot : string;
  mf_availableTools : list (string * ToolPermissionMode);
  mf_modelToolProfile : option (string * string);
}.
Definition buildToolCapabilities (availableToolIds : list string) : list (string * ToolPermissionMode) :=
  flat_map (fun '(t, id) => if bool_decide (id ∈ availableToolIds) then [(id, tool_permission t)] else [])
    CODING_TOOL_IDS.
Definition createCloudSandboxRunCapabilityManifest (runId workspaceRoot artifactRoot : string)
    (availableToolIds : list string) (providerId modelId : option string) : res loop_issue RunCapabilityManifest :=
  if String.eqb runId "" then Err (ZodIssue "runId")
  else if String.eqb workspaceRoot "" then Err (ZodIssue "workspaceRoot")
  else if String.eqb artifactRoot "" then Err (ZodIssue "artifactRoot")
  else Ok (mkManifest runId "cloud_sandbox" workspaceRoot artifactRoot (buildToolCapabilities availableToolIds)
         (match truthy providerId, truthy modelId with Some p, Some m => Some (p, m) | _, _ => None end)).

(** * StructuredToolError.ts *)

Record StructuredToolError : Type := mkToolError {
  te_code : string;
  te_attemptedTool : string;
  te_message : string;
  te_executionLocation : string;
  te_availableAlternatives : list string;
  te_hintMessage : string;
  te_hintAvailableTools : list string;
  te_hintPreferredTools : list string;
  te_details : option JsonRecord;
}.
Definition StructuredToolErrorSchema (e : StructuredToolError) : res loop_issue StructuredToolError :=
  if String.eqb (te_attemptedTool e) "" then Err (ZodIssue "attemptedTool")
  else if String.eqb (te_message e) "" then Err (ZodIssue "message")
  else Ok e.
Definition filterPresentTools (availableTools preferredTools : list string) : list string :=
  List.filter (fun tool => bool_decide (tool ∈ availableTools)) preferredTools.
Definition available_names (manifest : RunCapabilityManifest) : list string := map fst (mf_availableTools manifest).
Definition selectAlternativeTools (manifest : RunCapabilityManifest) : list string :=
  filterPresentTools (available_names manifest) ["read_file"; "list_files"; "glob"; "grep"; "bash"].
Definition hint_message : string :=
  "Use available repository and runtime tools only; do not invent desktop or local-machine tools.".
Definition buildUnavailableToolError (attemptedTool : string) (manifest : RunCapabilityManifest)
    : res loop_issue StructuredToolError :=
  StructuredToolErrorSchema
    (mkToolError "TOOL_UNAVAILABLE_IN_BACKEND" attemptedTool
       ("Tool " +:+ dquote +:+ attemptedTool +:+ dquote +:+ " is unavailable in this backend.")
       (mf_executionLocation manifest) (selectAlternativeTools manifest) hint_message (available_names manifest)
       (filterPresentTools (available_names manifest) ["read_file"; "list_files"; "glob"; "grep"]) None).
Definition buildInvalidToolInputError (attemptedTool validationMessage : string) (manifest : RunCapabilityManifest)
    : res loop_issue StructuredToolError :=
  StructuredToolErrorSchema
    (mkToolError "INVALID_TOOL_INPUT" attemptedTool validationMessage (mf_executionLocation manifest)
       (selectAlternativeTools manifest) hint_message (available_names manifest)
       (filterPresentTools (available_names manifest) [attemptedTool])
       (Some [("validationMessage", JStr validationMessage)])).
Definition buildCorrectionHintText (e : StructuredToolError) : string :=
  Js.join " "
    ["Reminder: this run is in " +:+ te_executionLocation e +:+ "."; te_hintMessage e;
     "Preferred tools: " +:+ Js.join ", " (te_hintPreferredTools e) +:+ ".";
     "Available tools: " +:+ Js.join ", " (te_hintAvailableTools e) +:+ "."].

(** [JSON.stringify(value, null, 2)] at an indentation *)
Section Indented.
Context `{!JsRuntime}.
Fixpoint stringify_indented (indent : string) (value : json) : string :=
  let inner := indent +:+ "  " in
  let lines (l : list string) (opening closing : string) :=
    match l with
    | [] => opening +:+ closing
    | _ => opening +:+ String LF "" +:+ Js.join ("," +:+ String LF "") (map (fun s => inner +:+ s) l) +:+
           String LF "" +:+ indent +:+ closing
    end in
  match value with
  | JArr l => lines (map (stringify_indented inner) l) "[" "]"
  | JObj o => lines (map (fun '(k, v) => quote k +:+ ": " +:+ stringify_indented inner v) o) "{" "}"
  | _ => JSON_stringify value
  end.

Definition serializeStructuredToolError (e : StructuredToolError) : string :=
  stringify_indented ""
    (JObj ([("error", JStr (te_code e)); ("attemptedTool", JStr (te_attemptedTool e));
            ("executionLocation", JStr (te_executionLocation e));
            ("availableAlternatives", JArr (map JStr (te_availableAlternatives e)));
            ("instruction", JStr (te_hintMessage e))] ++
           match te_details e with Some d => [("details", JObj d)] | None => [] end)).

(** * AgenticLoopToolHelpers.ts *)

Fixpoint stableSerialize (value : json) : string :=
  match value with
  | JArr l => "[" +:+ Js.join "," (map stableSerialize l) +:+ "]"
  | JObj o =>
      let entries := sorted_texts (map (fun '(key, entryValue) => (key, stableSerialize entryValue)) o) in
      "{" +:+ Js.join "," (map (fun '(key, text) => quote key +:+ ":" +:+ text) entries) +:+ "}"
  | _ => JSON_stringify value
  end.
Definition buildReadOnlyToolFingerprint (toolName : string) (args : JsonRecord) : string :=
  toolName +:+ ":" +:+ stableSerialize (JObj args).
Definition isValidationFailure (message toolName : string) : bool :=
  startsWith ("Invalid " +:+ toolName +:+ " input.") message.
Definition buildStructuredToolFailureError (toolName errorMessage : string) (manifest : RunCapabilityManifest)
    : res loop_issue (option StructuredToolError) :=
  if negb (isValidationFailure errorMessage toolName) then Ok None
  else e ← buildInvalidToolInputError toolName errorMessage manifest; Ok (Some e).
End Indented.

(** * GitToolFailureClassifier.ts *)

Inductive GitToolFailureKind : Type :=
| recoverable_command_failure | bad_ref_or_checkout | missing_repo_state | missing_auth_state | missing_scope_state
| unsupported_environment | policy_blocked | runtime_fatal.

Definition maybe (r : list rx) : list (list rx) := [[]; r].
Definition phrases (ps : list string) : list (list rx) := map lit ps.
Definition BAD_REF_PATTERNS : list (list rx) :=
  (apostrophe ← maybe (lit "'"); [lit "couldn" ++ apostrophe ++ lit "t find remote ref"]) ++
  [lit "pathspec " ++ anything ++ lit " did not match"; lit "src refspec " ++ anything ++ lit " does not match any"] ++
  phrases ["unknown revision or path not in the working tree"; "ambiguous argument";
           "would be overwritten by checkout"; "please commit your changes or stash them before you switch branches"].
Definition MISSING_REPO_PATTERNS : list (list rx) :=
  phrases ["not a git repository"; "no such file or directory"; "cannot change to"] ++
  [lit "unable to access " ++ anything ++ lit " no such file"].
Definition MISSING_AUTH_PATTERNS : list (list rx) :=
  phrases ["authentication failed"; "could not read username"; "could not read password";
           "permission denied (publickey)"; "repository not found"] ++
  [word "401"] ++ phrases ["requires authentication"; "gh auth"].
Definition MISSING_SCOPE_PATTERNS : list (list rx) :=
  (let between c := Ascii.eqb c "_" || is_space c || Ascii.eqb c "-" in
   b ← maybe [One between]; s ← maybe (lit "s"); [Bnd :: lit "insufficient" ++ b ++ lit "scope" ++ s ++ [Bnd]]) ++
  phrases ["resource not accessible by integration"; "requires additional authorization"; "actions read access"] ++
  [lit "forbidden " ++ anything ++ lit " scope"] ++ phrases ["insufficient token scope"].
Definition UNSUPPORTED_ENV_PATTERNS : list (list rx) :=
  phrases ["command not found"; "not installed"; "executable file not found"] ++ [word "enoent"].
Definition POLICY_BLOCKED_PATTERNS : list (list rx) :=
  phrases ["legioncode wants to"; "legioncode cannot continue"; "blocked by policy"; "approval required";
           "permission denied by policy"; "forbidden command"; "dangerous bash command pattern detected";
           "unsafe shell token detected"].
Definition RUNTIME_FATAL_PATTERNS : list (list rx) :=
  phrases ["runtime transport failed"; "internal runtime error"; "sandbox unavailable"] ++
  [let other c := negb (Ascii.eqb c (ascii_of_nat 34)) in
   lit ("tool " +:+ dquote) ++ [One other; Many other] ++ lit (dquote +:+ " is not registered")].

(** [matchesAny]: every pattern has the flag [i] or no letters. *)
Definition matchesAny (value : string) (patterns : list (list rx)) : bool := rx_test patterns (toLowerCase value).

(** The metadata of an activity of the shell family *)
Record ShellActivity : Type := mkShell { sh_command : string; sh_stderr : option string; sh_outputTail : option string }.
Definition shell_of (metadata : option json) : option ShellActivity :=
  match field "family" metadata, field "command" metadata with
  | Some (JStr "shell"), Some (JStr command) =>
      let text key := match field key metadata with Some (JStr s) => Some s | _ => None end in
      Some (mkShell command (text "stderr") (text "outputTail"))
  | _, _ => None
  end.
Definition buildCombinedFailureText (message : string) (metadata : option json) : string :=
  Js.join (String LF "")
    (message :: match shell_of metadata with
                | Some s => [sh_command s; default "" (sh_stderr s); default "" (sh_outputTail s)]
                | None => []
                end).
Definition classify (message : string) (metadata : option json) : GitToolFailureKind * bool :=
  let combinedText := buildCombinedFailureText message metadata in
  if matchesAny combinedText POLICY_BLOCKED_PATTERNS then (policy_blocked, true)
  else if matchesAny combinedText RUNTIME_FATAL_PATTERNS then (runtime_fatal, true)
  else if matchesAny combinedText BAD_REF_PATTERNS then (bad_ref_or_checkout, false)
  else if matchesAny combinedText MISSING_REPO_PATTERNS then (missing_repo_state, false)
  else if matchesAny combinedText MISSING_AUTH_PATTERNS then (missing_auth_state, false)
  else if matchesAny combinedText MISSING_SCOPE_PATTERNS then (missing_scope_state, true)
  else if matchesAny combinedText UNSUPPORTED_ENV_PATTERNS then (unsupported_environment, false)
  else (recoverable_command_failure, false).
Definition shouldClassifyAsGitOrShellFailure (toolName : string) (metadata : option json) : bool :=
  if String.eqb toolName "git_branch_switch" then true
  else if startsWith "github_" toolName then true
  else if String.eqb toolName "bash" then true
  else match shell_of metadata with
       | Some s => rx_test [word "git"; word "gh"] (toLowerCase (sh_command s))
       | None => false
       end.

(** * ToolFailureTerminalPolicy.ts *)

(** [safeParseToolActivityMetadata] of activity-feed.zod.ts: the data, when the
    value is the metadata of an activity *)
Class ActivityMetadata : Type := { safeParseToolActivityMetadata : json -> option json }.

Definition extractToolActivityMetadata `{!ActivityMetadata} (metadata : option json) : option json :=
  match metadata with
  | Some (JObj o) => activity ← dget "activity" o; safeParseToolActivityMetadata activity
  | _ => None
  end.
Definition isRecoverableToolFailure (toolName error : string) : bool :=
  let normalizedError := toLowerCase (trim error) in
  let says l := existsb (fun phrase => includes phrase normalizedError) l in
  if bool_decide (toolName ∈ ["edit_file"; "multi_edit"]) then
    says ["exact edit text was not found"; "exact replacement text was not found"; "exact edit is ambiguous";
          "multi_edit cannot target the same path more than once"]
  else if bool_decide (toolName ∈ ["read_file"; "list_files"; "glob"; "grep"]) then
    says ["no such file or directory"; "file not found"; "cannot stat"; "cannot statx"; "not found"]
  else false.
Definition isTerminalToolFailure `{!ActivityMetadata} (toolName error : string) (failureCode : option string)
    (metadata : option json) : bool :=
  if bool_decide (failureCode = Some "validation_failed") || isRecoverableToolFailure toolName error then false
  else
    let metadata := extractToolActivityMetadata metadata in
    if shouldClassifyAsGitOrShellFailure toolName metadata then snd (classify error metadata)
    else isMutatingCodingToolId toolName.
