(* ===== verification/AgenticLoop.v ===== *)
(** The agentic loop: AgenticLoop.ts and NativeProviderCommentary.ts of
    [packages/execution-engine/src/runtime/engine], with [projectVisibleTranscriptText]
    of [platform-protocol/src/transcript-parts.ts] and [finalizeTranscriptParts] of
    [llm/TranscriptPartNormalizer.ts].  The model gateway, the budget, the tool
    executor and the hooks are ports on a world of any type. *)
From S2P Require Import Prelude Js Text Regex Approvals RiskyAction ToolFailures.
From Stdlib Require Import Ascii.
#[local] Open Scope Z_scope.

(** * Transcript parts *)

Definition TranscriptPart : Type := JsonRecord.
Definition part_text (key : string) (part : TranscriptPart) : string :=
  match dget key part with Some (JStr s) => s | _ => "" end.
Definition isVisibleTranscriptPart (part : TranscriptPart) : bool :=
  String.eqb (part_text "visibility" part) "visible" &&
  (String.eqb (part_text "type" part) "visible_text" || String.eqb (part_text "type" part) "final").
Definition projectVisibleTranscriptText (parts : list TranscriptPart) : string :=
  trim (Js.join (String LF (String LF ""))
    (List.filter (fun text => negb (String.eqb (trim text) ""))
      (map (part_text "text") (List.filter isVisibleTranscriptPart parts)))).
Definition kept_field (key : string) (part : TranscriptPart) : JsonRecord :=
  match dget key part with Some v => [(key, v)] | None => [] end.
Definition kept_text (key : string) (part : TranscriptPart) : JsonRecord :=
  match dget key part with Some (JStr "") => [] | Some v => [(key, v)] | None => [] end.
Definition finalizeTranscriptParts (parts : list TranscriptPart) : list TranscriptPart :=
  map (fun part =>
    if String.eqb (part_text "type" part) "visible_text" then
      flat_map (fun key => kept_field key part) ["id"; "schemaVersion"; "runId"; "turnId"; "sequence"; "createdAt"] ++
      kept_text "providerPartId" part ++ kept_text "parentPartId" part ++
      [("type", JStr "final"); ("visibility", JStr "visible"); ("text", JStr (part_text "text" part))]
    else part) parts.

(** * Messages *)

Record AgenticLoopToolCall : Type := mkToolCall { lc_id : string; lc_toolName : string; lc_args : JsonRecord }.
Record AgenticLoopToolResult : Type := mkToolResult {
  lr_toolId : string;
  lr_toolName : string;
  lr_result : json;
  lr_error : option string;
  lr_terminalError : bool;
}.
Inductive MessagePart : Type :=
| part_say (text : string)
| part_tool_call (call : AgenticLoopToolCall)
| part_tool_result (toolCallId toolName : string) (result : json) (isError : bool)
| part_other (value : json).
Inductive MessageContent : Type :=
| content_text (text : string)
| content_parts (parts : list MessagePart).
Record CoreMessage : Type := mkMessage { msg_role : string; msg_content : MessageContent }.

Definition normalizeStandaloneToolCallMarkup (text : string) : string :=
  let trimmed := toLowerCase (trim text) in
  if startsWith "<tool_call>" trimmed && endsWith "</tool_call>" trimmed && (23 <=? String.length trimmed)%nat
  then "" else text.
Definition normalizeAssistantText (text : string) : string := normalizeStandaloneToolCallMarkup text.
Definition buildAssistantMessage (text : string) (toolCalls : list AgenticLoopToolCall) : CoreMessage :=
  let normalizedText := normalizeAssistantText text in
  mkMessage "assistant"
    match toolCalls with
    | [] => content_text normalizedText
    | _ => content_parts ((if String.eqb (trim normalizedText) "" then [] else [part_say normalizedText]) ++
                          map part_tool_call toolCalls)
    end.
Definition result_part (r : AgenticLoopToolResult) : MessagePart :=
  match truthy (lr_error r) with
  | Some error => part_tool_result (lr_toolId r) (lr_toolName r) (JObj [("error", JStr error)]) true
  | None => part_tool_result (lr_toolId r) (lr_toolName r) (lr_result r) false
  end.
Definition buildToolResultMessage (toolResults : list AgenticLoopToolResult) : CoreMessage :=
  mkMessage "tool" (content_parts (map result_part toolResults)).

Definition extractTextParts (content : MessageContent) : string :=
  match content with
  | content_text s => s
  | content_parts parts =>
      Js.join (String LF "") (flat_map (fun part => match part with part_say s => [s] | _ => [] end) parts)
  end.
Definition latestTurnRequestsCiLogs (initialMessages : list CoreMessage) : bool :=
  match List.find (fun m => String.eqb (msg_role m) "user") (rev initialMessages) with
  | None => false
  | Some latest =>
      let text := toLowerCase (extractTextParts (msg_content latest)) in
      rx_test (map word ["log"; "logs"]) text &&
      rx_test (map word ["ci"; "check"; "checks"; "workflow"; "actions"; "job"; "run"]) text
  end.
Definition isCiLogsAuthorizationBoundaryFailure (toolName errorMessage : string) : bool :=
  String.eqb toolName "github_actions_job_logs_get" &&
  rx_test ([word "401"; word "403"] ++ map lit ["unauthorised"; "unauthorized"; "additional authorization"; "actions read access"])
    (toLowerCase errorMessage).
Definition isCiLogsCliFallbackToolCall (call : AgenticLoopToolCall) : bool :=
  String.eqb (lc_toolName call) "github_cli_actions_job_logs_get".
Definition summarizeLifecycleDetail (value : option string) : option string :=
  match value with
  | None => None
  | Some raw =>
      let normalized := trim raw in
      if String.eqb normalized "" then None
      else
        let compact := squeeze false normalized in
        Some (if (String.length compact <=? 160)%nat then compact else slice 0 157 compact +:+ "...")
  end.
(** NativeProviderCommentary.ts *)
Definition resolveModelCommentary (visibleText : string) : option string := truthy (Some (trim visibleText)).

(** * Results of tools and of the model *)

Record TaskOutput : Type := mkOutput { to_content : string; to_artifacts : option (list string); to_metadata : option JsonRecord }.
Record TaskError : Type := mkTaskError { tr_message : string; tr_code : option string }.
Record TaskResult : Type := mkTaskResult { tk_status : string; tk_output : option TaskOutput; tk_error : option TaskError }.
Definition output_json (o : TaskOutput) : json :=
  JObj ([("content", JStr (to_content o))] ++
        match to_artifacts o with Some l => [("artifacts", JArr (map JStr l))] | None => [] end ++
        match to_metadata o with Some m => [("metadata", JObj m)] | None => [] end).
Definition output_metadata (r : TaskResult) : option json := o ← tk_output r; m ← to_metadata o; Some (JObj m).
Definition readTaskFailureCode (r : TaskResult) : option string :=
  match field "code" (field "runtimeFailure" (output_metadata r)) with
  | Some (JStr code) => Some code
  | _ => e ← tk_error r; tr_code e
  end.

Record LLMTextResponse : Type := mkResponse {
  rp_parts : option (list TranscriptPart);
  rp_toolCalls : option (list AgenticLoopToolCall);
}.
Record LLMIssue : Type := mkIssue {
  li_providerId : string;
  li_modelId : string;
  li_anomalyCode : string;
  li_finishReason : option string;
  li_statusCode : option Z;
}.

(** What a port may throw *)
Inductive loop_error : Type :=
| LoopCancelled
| BudgetExceeded (message : string)
| Unusable (issue : LLMIssue)
| Gated (ask : bool) (message : string)
| LoopError (message : string)
| NotAnError.
(** [error instanceof Error ? error.message : "Unknown error"] *)
Definition loop_error_message (e : loop_error) : string :=
  match e with
  | LoopCancelled => "Run was cancelled"
  | Unusable i => "[llm/gateway] Unusable response from " +:+ li_providerId i +:+ ":" +:+ li_modelId i +:+ " (" +:+
                  li_anomalyCode i +:+ ")"
  | BudgetExceeded message | Gated _ message | LoopError message => message
  | NotAnError => "Unknown error"
  end.

(** * The state of the loop *)

Inductive StopReason : Type :=
| max_steps_reached | budget_exceeded | llm_stop | tool_error | cancelled.
#[export] Instance StopReason_eq_dec : EqDecision StopReason.
Proof. solve_decision. Defined.

Inductive LifecycleStatus : Type := ls_requested | ls_started | ls_completed | ls_failed.
#[export] Instance LifecycleStatus_eq_dec : EqDecision LifecycleStatus.
Proof. solve_decision. Defined.
Record AgenticLoopToolLifecycleEvent : Type := mkToolEvent {
  le_toolCallId : string;
  le_toolName : string;
  le_status : LifecycleStatus;
  le_mutating : bool;
  le_recordedAt : string;
  le_detail : option string;
  le_failureCode : option string;
  le_metadata : option json;
}.

(** The fields of the loop and, from [lp_messages] on, the variables of [execute] *)
Record LoopState : Type := mkLoop {
  stepsExecuted : Z;
  toolExecutionCount : Z;
  failedToolCount : Z;
  completedMutatingToolCount : Z;
  completedReadOnlyToolCount : Z;
  llmRetryCount : Z;
  terminalLlmIssue : option (LLMIssue * Z);
  toolLifecycle : list AgenticLoopToolLifecycleEvent;
  completedReadOnlyToolFingerprints : list string;
  lp_messages : list CoreMessage;
  lp_boundary : bool;
  lp_fallback : bool;
  lp_hint : option string;
  lp_finalParts : list TranscriptPart;
}.
Definition set_steps v (s : LoopState) := mkLoop v (toolExecutionCount s) (failedToolCount s) (completedMutatingToolCount s) (completedReadOnlyToolCount s) (llmRetryCount s) (terminalLlmIssue s) (toolLifecycle s) (completedReadOnlyToolFingerprints s) (lp_messages s) (lp_boundary s) (lp_fallback s) (lp_hint s) (lp_finalParts s).
Definition count_tool (s : LoopState) := mkLoop (stepsExecuted s) (toolExecutionCount s + 1) (failedToolCount s) (completedMutatingToolCount s) (completedReadOnlyToolCount s) (llmRetryCount s) (terminalLlmIssue s) (toolLifecycle s) (completedReadOnlyToolFingerprints s) (lp_messages s) (lp_boundary s) (lp_fallback s) (lp_hint s) (lp_finalParts s).
Definition count_failed (s : LoopState) := mkLoop (stepsExecuted s) (toolExecutionCount s) (failedToolCount s + 1) (completedMutatingToolCount s) (completedReadOnlyToolCount s) (llmRetryCount s) (terminalLlmIssue s) (toolLifecycle s) (completedReadOnlyToolFingerprints s) (lp_messages s) (lp_boundary s) (lp_fallback s) (lp_hint s) (lp_finalParts s).
Definition count_mutating (s : LoopState) := mkLoop (stepsExecuted s) (toolExecutionCount s) (failedToolCount s) (completedMutatingToolCount s + 1) (completedReadOnlyToolCount s) (llmRetryCount s) (terminalLlmIssue s) (toolLifecycle s) (completedReadOnlyToolFingerprints s) (lp_messages s) (lp_boundary s) (lp_fallback s) (lp_hint s) (lp_finalParts s).
Definition count_reading (fingerprint : string) (s : LoopState) := mkLoop (stepsExecuted s) (toolExecutionCount s) (failedToolCount s) (completedMutatingToolCount s) (completedReadOnlyToolCount s + 1) (llmRetryCount s) (terminalLlmIssue s) (toolLifecycle s) (if bool_decide (fingerprint ∈ completedReadOnlyToolFingerprints s) then completedReadOnlyToolFingerprints s else completedReadOnlyToolFingerprints s ++ [fingerprint]) (lp_messages s) (lp_boundary s) (lp_fallback s) (lp_hint s) (lp_finalParts s).
Definition count_retry (s : LoopState) := mkLoop (stepsExecuted s) (toolExecutionCount s) (failedToolCount s) (completedMutatingToolCount s) (completedReadOnlyToolCount s) (llmRetryCount s + 1) (terminalLlmIssue s) (toolLifecycle s) (completedReadOnlyToolFingerprints s) (lp_messages s) (lp_boundary s) (lp_fallback s) (lp_hint s) (lp_finalParts s).
Definition set_issue v (s : LoopState) := mkLoop (stepsExecuted s) (toolExecutionCount s) (failedToolCount s) (completedMutatingToolCount s) (completedReadOnlyToolCount s) (llmRetryCount s) v (toolLifecycle s) (completedReadOnlyToolFingerprints s) (lp_messages s) (lp_boundary s) (lp_fallback s) (lp_hint s) (lp_finalParts s).
Definition push_event v (s : LoopState) := mkLoop (stepsExecuted s) (toolExecutionCount s) (failedToolCount s) (completedMutatingToolCount s) (completedReadOnlyToolCount s) (llmRetryCount s) (terminalLlmIssue s) (toolLifecycle s ++ [v]) (completedReadOnlyToolFingerprints s) (lp_messages s) (lp_boundary s) (lp_fallback s) (lp_hint s) (lp_finalParts s).
Definition push_message v (s : LoopState) := mkLoop (stepsExecuted s) (toolExecutionCount s) (failedToolCount s) (completedMutatingToolCount s) (completedReadOnlyToolCount s) (llmRetryCount s) (terminalLlmIssue s) (toolLifecycle s) (completedReadOnlyToolFingerprints s) (lp_messages s ++ [v]) (lp_boundary s) (lp_fallback s) (lp_hint s) (lp_finalParts s).
Definition set_boundary (s : LoopState) := mkLoop (stepsExecuted s) (toolExecutionCount s) (failedToolCount s) (completedMutatingToolCount s) (completedReadOnlyToolCount s) (llmRetryCount s) (terminalLlmIssue s) (toolLifecycle s) (completedReadOnlyToolFingerprints s) (lp_messages s) true (lp_fallback s) (lp_hint s) (lp_finalParts s).
Definition set_fallback (s : LoopState) := mkLoop (stepsExecuted s) (toolExecutionCount s) (failedToolCount s) (completedMutatingToolCount s) (completedReadOnlyToolCount s) (llmRetryCount s) (terminalLlmIssue s) (toolLifecycle s) (completedReadOnlyToolFingerprints s) (lp_messages s) (lp_boundary s) true (lp_hint s) (lp_finalParts s).
Definition set_hint v (s : LoopState) := mkLoop (stepsExecuted s) (toolExecutionCount s) (failedToolCount s) (completedMutatingToolCount s) (completedReadOnlyToolCount s) (llmRetryCount s) (terminalLlmIssue s) (toolLifecycle s) (completedReadOnlyToolFingerprints s) (lp_messages s) (lp_boundary s) (lp_fallback s) (Some v) (lp_finalParts s).
Definition set_parts v (s : LoopState) := mkLoop (stepsExecuted s) (toolExecutionCount s) (failedToolCount s) (completedMutatingToolCount s) (completedReadOnlyToolCount s) (llmRetryCount s) (terminalLlmIssue s) (toolLifecycle s) (completedReadOnlyToolFingerprints s) (lp_messages s) (lp_boundary s) (lp_fallback s) (lp_hint s) v.
(** [reset], and the variables at the start of [execute] *)
Definition reset (initialMessages : list CoreMessage) : LoopState :=
  mkLoop 0 0 0 0 0 0 None [] [] initialMessages false false None [].

(** What the system prompt is made of *)
Record PromptInput : Type := mkPrompt {
  pi_workspaceContext : option string;
  pi_finalSynthesisOnly : bool;
  pi_completedMutatingToolCount : Z;
  pi_completedReadOnlyToolCount : Z;
  pi_explicitCiLogRequest : bool;
  pi_boundary : bool;
  pi_fallback : bool;
  pi_manifest : RunCapabilityManifest;
  pi_latestCorrectionHint : option string;
}.
Record LoopRequest : Type := mkLoopRequest {
  lq_messages : list CoreMessage;
  lq_system : PromptInput;
  lq_tools : option (list string);
  lq_idempotencyKey : string;
}.
Record AgenticLoopConfig : Type := mkLoopConfig {
  cf_maxSteps : nat;
  cf_runId : string;
  cf_sessionId : string;
  cf_workspaceRoot : string;
  cf_artifactRoot : string;
  cf_executionNonce : option string;
}.
Record LoopContext : Type := mkContext {
  cx_tools : list string;
  cx_providerId : option string;
  cx_modelId : option string;
  cx_runtimeModelId : option string;
  cx_workspaceContext : option string;
}.
Record AgenticLoopProviderRetryEvent : Type := mkRetry { re_issue : LLMIssue; re_attempt : Z; re_retryCount : Z }.
Record AgenticLoopResult : Type := mkLoopResult { ar_stopReason : StopReason; ar_loop : LoopState }.

(** The ports: the gateway, the budget, the executor, the clock and the hooks.
    [lp_interrupted] is whether, during the next call the request awaits, a poll
    finds the run cancelled before the call settles; it stands for what the
    abandoned call does to the world as well. *)
Record LoopPorts (W : Type) : Type := mkPorts {
  lp_clock : W -> Z;
  lp_zodMessage : loop_issue -> string;
  lp_isRunCancelled : option (ST W loop_error bool);
  lp_interrupted : ST W loop_error bool;
  lp_isOverBudget : option (ST W loop_error bool);
  lp_generateText : LoopRequest -> ST W loop_error LLMTextResponse;
  lp_executeTool : option (AgenticLoopToolCall -> ST W loop_error TaskResult);
  lp_execute : string -> string -> JsonRecord -> ST W loop_error TaskResult;
  lp_onAssistantMessage : string -> ST W loop_error unit;
  lp_onProgress : ST W loop_error unit;
  lp_onToolRequested : AgenticLoopToolCall -> ST W loop_error unit;
  lp_onToolStarted : AgenticLoopToolCall -> ST W loop_error unit;
  lp_onToolCompleted : AgenticLoopToolCall -> option TaskOutput -> Z -> ST W loop_error unit;
  lp_onToolFailed : AgenticLoopToolCall -> string -> Z -> ST W loop_error unit;
  lp_onProviderRetry : AgenticLoopProviderRetryEvent -> ST W loop_error unit;
}.
Arguments lp_clock {W}.
Arguments lp_zodMessage {W}.
Arguments lp_isRunCancelled {W}.
Arguments lp_interrupted {W}.
Arguments lp_isOverBudget {W}.
Arguments lp_generateText {W}.
Arguments lp_executeTool {W}.
Arguments lp_execute {W}.
Arguments lp_onAssistantMessage {W}.
Arguments lp_onProgress {W}.
Arguments lp_onToolRequested {W}.
Arguments lp_onToolStarted {W}.
Arguments lp_onToolCompleted {W}.
Arguments lp_onToolFailed {W}.
Arguments lp_onProviderRetry {W}.

(** * The operations *)

(** Code of the loop: the loop and the world *)
Notation L W := (ST (LoopState * W) loop_error).
Definition port {W A} (m : ST W loop_error A) : L W A := fun '(s, w) => let '(r, w') := m w in (r, (s, w')).
Definition asks {W A} (f : LoopState -> A) : L W A := gets (fun '(s, _) => f s).
Definition sets {W} (f : LoopState -> LoopState) : L W unit := modify (fun '(s, w) => (f s, w)).

Definition buildAgenticLoopTextAttemptIdempotencyKey (runId : string) (step attempt : Z)
    (executionNonce : option string) : string :=
  "agentic-loop:" +:+ runId +:+ ":" +:+ default "default" executionNonce +:+ ":step:" +:+
  Number_toString (step + 1) +:+ ":attempt:" +:+ Number_toString attempt.

(** [!tools[toolName]]: a property of the object or of [Object.prototype] *)
Definition OBJECT_PROTOTYPE : list string :=
  ["constructor"; "__defineGetter__"; "__defineSetter__"; "hasOwnProperty"; "__lookupGetter__"; "__lookupSetter__";
   "isPrototypeOf"; "propertyIsEnumerable"; "toString"; "valueOf"; "__proto__"; "toLocaleString"].
Definition has_tool (tools : list string) (toolName : string) : bool :=
  bool_decide (toolName ∈ tools) || bool_decide (toolName ∈ OBJECT_PROTOTYPE).

(** How a call of a tool ends: with a result, or by leaving the loop over the calls *)
Inductive CallOutcome : Type :=
| call_result (r : AgenticLoopToolResult)
| call_break (reason : StopReason).

Section Loop.
Context `{!JsRuntime, !IsoDates, !ActivityMetadata} {W : Type} (P : LoopPorts W) (config : AgenticLoopConfig)
        (context : LoopContext).

Definition zod {A} (r : res loop_issue A) : L W A :=
  lift match r with Ok a => Ok a | Err issue => Err (LoopError (lp_zodMessage P issue)) end.

Definition recordToolLifecycle (call : AgenticLoopToolCall) (status : LifecycleStatus) (detail : option string)
    (metadata : option json) (failureCode : option string) : L W unit :=
  modify (fun '(s, w) =>
    (push_event (mkToolEvent (lc_id call) (lc_toolName call) status (isMutatingCodingToolId (lc_toolName call))
                   (toISOString (lp_clock P w)) detail (truthy failureCode) metadata) s, w)).
Definition isCancellationRequested : L W bool :=
  match lp_isRunCancelled P with Some hook => port hook | None => mret false end.
Definition isRunOverBudget : L W bool :=
  match lp_isOverBudget P with
  | None => mret false
  | Some isOverBudget =>
      try_catch (port isOverBudget) (fun error => match error with BudgetExceeded _ => mret true | _ => throw error end)
  end.
(** [try { if (await this.isRunOverBudget()) throw new BudgetExceededError(...) }]
    with its handler: whether the loop stops *)
Definition budgetCheck : L W bool :=
  try_catch (over ← isRunOverBudget; _ ← throw_if over (BudgetExceeded ""); mret false)
    (fun error => match error with BudgetExceeded _ => mret true | _ => throw error end).
Definition getDuplicateReadOnlyToolCallMessage (call : AgenticLoopToolCall) (s : LoopState) : option string :=
  if isMutatingCodingToolId (lc_toolName call) then None
  else if negb (bool_decide (buildReadOnlyToolFingerprint (lc_toolName call) (lc_args call) ∈
                             completedReadOnlyToolFingerprints s)) then None
  else Some ("Skipped duplicate " +:+ lc_toolName call +:+
    " call because the same request already completed in this run. Choose a different tool or proceed with the edit.").

(** [runWithCancellationPolling]: the poll that ends the race during one of the
    awaits of the operation *)
Definition runWithCancellationPolling : L W unit :=
  match lp_isRunCancelled P with
  | None => mret tt
  | Some _ => interrupted ← port (lp_interrupted P); throw_if interrupted LoopCancelled
  end.

Definition maxAttempts : Z := 2.
Definition attempt_request (request : string -> LoopRequest) (step attempt : Z) : LoopRequest :=
  request (buildAgenticLoopTextAttemptIdempotencyKey (cf_runId config) step attempt (cf_executionNonce config)).
(** The attempts from [attempt] on; [more] is how many may follow. *)
Fixpoint generate_attempts (request : string -> LoopRequest) (step attempt : Z) (more : nat) : L W LLMTextResponse :=
  _ ← runWithCancellationPolling;
  try_catch (port (lp_generateText P (attempt_request request step attempt)))
    (fun error =>
      match error, more with
      | Unusable issue, O => _ ← sets (set_issue (Some (issue, attempt))); throw error
      | Unusable issue, S more' =>
          _ ← sets count_retry;
          retryCount ← asks llmRetryCount;
          _ ← runWithCancellationPolling;
          _ ← port (lp_onProviderRetry P (mkRetry issue attempt retryCount));
          generate_attempts request step (attempt + 1) more'
      | _, _ => throw error
      end).
Definition generateLoopText (request : string -> LoopRequest) (step : Z) : L W LLMTextResponse :=
  generate_attempts request step 1 (Z.to_nat (maxAttempts - 1)).

(** [new Task(id, runId, toolName, "PENDING", [], { description, ...args })] given
    to the executor *)
Definition tool_task_input (call : AgenticLoopToolCall) : JsonRecord :=
  dmerge [("description", JStr ("Execute " +:+ lc_toolName call))] (lc_args call).
Definition run_tool (call : AgenticLoopToolCall) : ST W loop_error TaskResult :=
  match lp_executeTool P with
  | Some executeTool => executeTool call
  | None => lp_execute P (lc_id call) (lc_toolName call) (tool_task_input call)
  end.

(** * One call of a tool *)

Definition result_of (call : AgenticLoopToolCall) (result : json) (error : option string) (terminalError : bool)
    : CallOutcome := call_result (mkToolResult (lc_id call) (lc_toolName call) result error terminalError).

(** [if (duplicateToolCallMessage) { ... continue; }] *)
Definition refuse_duplicate (call : AgenticLoopToolCall) (message : string) : L W CallOutcome :=
  _ ← sets count_failed;
  _ ← recordToolLifecycle call ls_failed (Some message) None None;
  _ ← port (lp_onToolFailed P call message 0);
  mret (result_of call JNull (Some message) false).

(** [if (!tools[toolCall.toolName]) { ... continue; }] *)
Definition refuse_unavailable (manifest : RunCapabilityManifest) (call : AgenticLoopToolCall) : L W CallOutcome :=
  _ ← sets count_failed;
  structuredError ← zod (buildUnavailableToolError (lc_toolName call) manifest);
  let message := serializeStructuredToolError structuredError in
  _ ← sets (set_hint (buildCorrectionHintText structuredError));
  let recoverable := match te_availableAlternatives structuredError with [] => false | _ => true end in
  _ ← recordToolLifecycle call ls_failed (Some message) None None;
  _ ← port (lp_onToolFailed P call message 0);
  mret (result_of call JNull (Some message) (negb recoverable)).

(** [if (result.status === "DONE") { ... }] *)
Definition tool_done (call : AgenticLoopToolCall) (result : TaskResult) (executionTimeMs : Z) : L W CallOutcome :=
  _ ← sets (if isMutatingCodingToolId (lc_toolName call) then count_mutating
            else count_reading (buildReadOnlyToolFingerprint (lc_toolName call) (lc_args call)));
  _ ← recordToolLifecycle call ls_completed (summarizeLifecycleDetail (to_content <$> tk_output result))
        (extractToolActivityMetadata (output_metadata result)) None;
  _ ← port (lp_onToolCompleted P call (tk_output result) executionTimeMs);
  mret (result_of call (from_option output_json JNull (tk_output result)) None false).

(** The [else] branch *)
Definition tool_failed (call : AgenticLoopToolCall) (result : TaskResult) (executionTimeMs : Z) : L W CallOutcome :=
  _ ← sets count_failed;
  let toolError := default "Tool execution failed" (e ← tk_error result; truthy (Some (tr_message e))) in
  _ ← (if isCiLogsAuthorizationBoundaryFailure (lc_toolName call) toolError then sets set_boundary else mret tt);
  let activityMetadata := extractToolActivityMetadata (output_metadata result) in
  _ ← recordToolLifecycle call ls_failed (Some toolError) activityMetadata (readTaskFailureCode result);
  _ ← port (lp_onToolFailed P call toolError executionTimeMs);
  mret (result_of call JNull (Some toolError)
          (isTerminalToolFailure (lc_toolName call) toolError (readTaskFailureCode result) activityMetadata)).

(** The body of the [try] *)
Definition attempt_tool (manifest : RunCapabilityManifest) (call : AgenticLoopToolCall) : L W CallOutcome :=
  if negb (has_tool (cx_tools context) (lc_toolName call)) then refuse_unavailable manifest call
  else
    toolStartedAt ← gets (fun '(_, w) => lp_clock P w);
    _ ← recordToolLifecycle call ls_started None None None;
    _ ← port (lp_onToolStarted P call);
    result ← port (run_tool call);
    now ← gets (fun '(_, w) => lp_clock P w);
    if String.eqb (tk_status result) "DONE" then tool_done call result (now - toolStartedAt)
    else tool_failed call result (now - toolStartedAt).

(** The [catch] *)
Definition tool_threw (manifest : RunCapabilityManifest) (call : AgenticLoopToolCall) (error : loop_error)
    : L W CallOutcome :=
  match error with
  | LoopCancelled => mret (call_break cancelled)
  | _ =>
      _ ← sets count_failed;
      let errorMessage := loop_error_message error in
      structuredError ← zod (buildStructuredToolFailureError (lc_toolName call) errorMessage manifest);
      let toolErrorMessage := from_option serializeStructuredToolError errorMessage structuredError in
      _ ← (match structuredError with Some e => sets (set_hint (buildCorrectionHintText e)) | None => mret tt end);
      _ ← (if isCiLogsAuthorizationBoundaryFailure (lc_toolName call) toolErrorMessage then sets set_boundary
           else mret tt);
      _ ← recordToolLifecycle call ls_failed (Some toolErrorMessage) None None;
      _ ← port (lp_onToolFailed P call toolErrorMessage 0);
      mret (result_of call JNull (Some toolErrorMessage)
              (isTerminalToolFailure (lc_toolName call) toolErrorMessage None None))
  end.

(** The body of [for (const toolCall of response.toolCalls)] *)
Definition call_tool (manifest : RunCapabilityManifest) (call : AgenticLoopToolCall) : L W CallOutcome :=
  _ ← sets count_tool;
  _ ← recordToolLifecycle call ls_requested None None None;
  _ ← port (lp_onToolRequested P call);
  _ ← (if isCiLogsCliFallbackToolCall call then sets set_fallback else mret tt);
  stop ← isCancellationRequested;
  if (stop : bool) then mret (call_break cancelled) else
  duplicate ← asks (getDuplicateReadOnlyToolCallMessage call);
  match duplicate with
  | Some message => refuse_duplicate call message
  | None =>
      over ← budgetCheck;
      if (over : bool) then mret (call_break budget_exceeded)
      else try_catch (attempt_tool manifest call) (tool_threw manifest call)
  end.
(** The loop over the calls: [toolResults], or why it was left *)
Fixpoint call_tools (manifest : RunCapabilityManifest) (calls : list AgenticLoopToolCall)
    : L W (list AgenticLoopToolResult + StopReason) :=
  match calls with
  | [] => mret (inl [])
  | call :: calls' =>
      outcome ← call_tool manifest call;
      match outcome with
      | call_break reason => mret (inr reason)
      | call_result r =>
          rest ← call_tools manifest calls';
          mret match rest with inl results => inl (r :: results) | inr reason => inr reason end
      end
  end.

(** * The steps *)

(** [Some reason] is a [break]. *)
Definition after_tools (outcome : list AgenticLoopToolResult + StopReason) : L W (option StopReason) :=
  match outcome with
  | inr reason => mret (Some reason)
  | inl toolResults =>
      _ ← (match toolResults with [] => mret tt | _ => sets (push_message (buildToolResultMessage toolResults)) end);
      mret (if existsb lr_terminalError toolResults then Some tool_error else None)
  end.
Definition after_response (manifest : RunCapabilityManifest) (response : LLMTextResponse) : L W (option StopReason) :=
  let responseParts := default [] (rp_parts response) in
  let toolCalls := default [] (rp_toolCalls response) in
  _ ← sets (set_parts responseParts);
  let responseText := projectVisibleTranscriptText responseParts in
  _ ← sets (push_message (buildAssistantMessage responseText toolCalls));
  match toolCalls with
  | [] => _ ← sets (set_parts (finalizeTranscriptParts responseParts)); mret (Some llm_stop)
  | _ =>
      _ ← (match resolveModelCommentary responseText with
           | Some commentary => port (lp_onAssistantMessage P commentary)
           | None => mret tt
           end);
      outcome ← call_tools manifest toolCalls;
      after_tools outcome
  end.
Definition step_request (manifest : RunCapabilityManifest) (explicitCiLogRequest isFinalSynthesisStep : bool)
    (s : LoopState) (idempotencyKey : string) : LoopRequest :=
  mkLoopRequest (lp_messages s)
    (mkPrompt (cx_workspaceContext context) isFinalSynthesisStep (completedMutatingToolCount s)
       (completedReadOnlyToolCount s) explicitCiLogRequest (lp_boundary s) (lp_fallback s) manifest (lp_hint s))
    (if isFinalSynthesisStep then None else Some (cx_tools context)) idempotencyKey.
(** The body of [for (let step = 0; step < maxSteps; step++)] *)
Definition one_step (manifest : RunCapabilityManifest) (explicitCiLogRequest : bool) (step : Z)
    : L W (option StopReason) :=
  _ ← sets (set_steps (step + 1));
  executed ← asks toolExecutionCount;
  let isFinalSynthesisStep := (step =? Z.of_nat (cf_maxSteps config) - 1) && (0 <? executed) in
  stop ← isCancellationRequested;
  if (stop : bool) then mret (Some cancelled) else
  over ← budgetCheck;
  if (over : bool) then mret (Some budget_exceeded) else
  _ ← (if isFinalSynthesisStep then mret tt else port (lp_onProgress P));
  request ← asks (step_request manifest explicitCiLogRequest isFinalSynthesisStep);
  response ← try_catch (r ← generateLoopText request step; mret (Some r))
               (fun error => match error with LoopCancelled => mret None | _ => throw error end);
  match response with
  | None => mret (Some cancelled)
  | Some r => after_response manifest r
  end.
(** The steps from [step] on, [left] of them *)
Fixpoint run_steps (manifest : RunCapabilityManifest) (explicitCiLogRequest : bool) (step : Z) (left : nat)
    : L W StopReason :=
  match left with
  | O => mret max_steps_reached
  | S left' =>
      stopReason ← one_step manifest explicitCiLogRequest step;
      match stopReason with
      | Some reason => mret reason
      | None => run_steps manifest explicitCiLogRequest (step + 1) left'
      end
  end.
Definition execute (initialMessages : list CoreMessage) : L W AgenticLoopResult :=
  _ ← sets (fun _ => reset initialMessages);
  capabilityManifest ← zod (createCloudSandboxRunCapabilityManifest (cf_runId config) (cf_workspaceRoot config)
      (cf_artifactRoot config) (cx_tools context) (cx_providerId context)
      (match cx_runtimeModelId context with Some m => Some m | None => cx_modelId context end));
  stopReason ← run_steps capabilityManifest (latestTurnRequestsCiLogs initialMessages) 0 (cf_maxSteps config);
  loop ← asks id;
  mret (mkLoopResult stopReason loop).
End Loop.

(** The constructor *)
Definition new_AgenticLoop (config : AgenticLoopConfig) : res loop_error AgenticLoopConfig :=
  if (cf_maxSteps config <? 1)%nat then Err (LoopError "maxSteps must be >= 1") else Ok config.
