(* ===== verification/AgenticLoopProps.v ===== *)
(** The agentic loop: the messages and counters a run leaves, what a tool that
    fails or throws does to it, and the calls it refuses to repeat. *)
From S2P Require Import Prelude Js EventStore Text Json Regex Approvals StableJson ApprovalsProps RiskyAction ToolFailures AgenticLoop.
From Stdlib Require Import Ascii.
#[local] Open Scope Z_scope.

Section LoopRules.
Context {W : Type}.

Lemma wp_port {A} (m : ST W loop_error A) Q X (s : LoopState) (w : W) :
  wp (port m) Q X (s, w) <-> wp m (fun a w' => Q a (s, w')) (fun e w' => X e (s, w')) w.
Proof. unfold wp, port. by destruct (m w) as [[]]. Qed.
Lemma wp_sets (f : LoopState -> LoopState) Q X (s : LoopState) (w : W) :
  wp (sets f) Q X (s, w) <-> Q tt (f s, w).
Proof. done. Qed.
Lemma wp_asks {A} (f : LoopState -> A) Q X (s : LoopState) (w : W) : wp (asks f) Q X (s, w) <-> Q (f s) (s, w).
Proof. done. Qed.

(** Code of the loop that keeps what [f] reads in its state *)
Definition fixes {A B} (f : LoopState -> B) (m : L W A) : Prop :=
  forall v, keeps (fun '(s, _) => f s = v) m.
Lemma keeps_port {A} (I : LoopState -> Prop) (m : ST W loop_error A) : keeps (fun '(s, _) => I s) (port m).
Proof. intros [s w] Hs. unfold port. by destruct (m w). Qed.
Lemma keeps_sets (I : LoopState -> Prop) (f : LoopState -> LoopState) :
  (forall s, I s -> I (f s)) -> keeps (fun '(s, _) => I s) (sets (W := W) f).
Proof. intros Hf [s w] Hs. by apply Hf. Qed.
Lemma keeps_asks {A} (I : LoopState -> Prop) (f : LoopState -> A) : keeps (fun '(s, _) => I s) (asks (W := W) f).
Proof. by intros [s w]. Qed.

(** What a normal return of it is *)
Definition gives {A} (R : A -> Prop) (m : L W A) : Prop :=
  forall s, match fst (m s) with Ok a => R a | Err _ => True end.
Lemma gives_ret {A} (R : A -> Prop) (a : A) : R a -> gives R (mret a).
Proof. by intros HR s. Qed.
Lemma gives_throw {A} (R : A -> Prop) (e : loop_error) : gives R (throw e).
Proof. by intros s. Qed.
Lemma gives_bind {A B} (R : B -> Prop) (m : L W A) (k : A -> L W B) :
  (forall a, gives R (k a)) -> gives R (m ≫= k).
Proof. intros Hk s. unfold mbind, ST_bind. destruct (m s) as [[a|e] s']; [apply Hk|done]. Qed.
Lemma gives_try_catch {A} (R : A -> Prop) (m : L W A) (h : loop_error -> L W A) :
  gives R m -> (forall e, gives R (h e)) -> gives R (try_catch m h).
Proof.
  intros Hm Hh s. specialize (Hm s). unfold try_catch. destruct (m s) as [[a|e] s']; [done|apply Hh].
Qed.
Lemma wp_gives {A} (R : A -> Prop) (m : L W A) s : gives R m -> wp m (fun a _ => R a) (fun _ _ => True) s.
Proof. intros Hm. specialize (Hm s). unfold wp. by destruct (m s) as [[]]. Qed.
Lemma wp_fixes {A B} (f : LoopState -> B) (m : L W A) s w :
  fixes f m -> wp m (fun _ '(s', _) => f s' = f s) (fun _ '(s', _) => f s' = f s) (s, w).
Proof.
  intros Hm. specialize (Hm (f s) (s, w) eq_refl). unfold wp. by destruct (m (s, w)) as [[] [s' w']].
Qed.
End LoopRules.

(** Walk through code of the loop for a [keeps] or [gives] goal *)
Ltac walk_loop :=
  repeat match goal with
  | |- fixes _ _ => intros ?
  | |- forall _, _ => intros ?
  | |- keeps _ (_ ≫= _) => apply keeps_bind; [|intros ?]
  | |- keeps _ (try_catch _ _) => apply keeps_try_catch; [|intros ?]
  | |- keeps _ (match ?x with _ => _ end) => destruct x
  | |- keeps _ (port _) => apply (keeps_port (fun s => _))
  | |- keeps _ (mret _) => apply keeps_ret
  | |- keeps _ (throw _) => apply keeps_throw
  | |- keeps _ (throw_if _ _) => apply keeps_throw_if
  | |- keeps _ (gets _) => apply keeps_gets
  | |- keeps _ (lift _) => apply keeps_lift
  | |- keeps _ (zod _ _) => apply keeps_lift
  | |- keeps _ (asks _) => apply (keeps_asks (fun s => _))
  | |- keeps _ (sets _) => apply (keeps_sets (fun s => _)); intros ?; by repeat case_match
  | |- keeps _ _ => solve [auto with legion]
  | |- gives _ (_ ≫= _) => apply gives_bind; intros ?
  | |- gives _ (try_catch _ _) => apply gives_try_catch; [|intros ?]
  | |- gives _ (match ?x with _ => _ end) => destruct x
  | |- gives _ (mret _) => apply gives_ret
  | |- gives _ (throw _) => apply gives_throw
  | |- gives _ _ => solve [auto with legion]
  end.

Section Transcript.
Context `{!JsRuntime, !IsoDates, !ActivityMetadata} {W : Type} (P : LoopPorts W) (config : AgenticLoopConfig)
        (context : LoopContext).

(** The messages and the steps counted *)
Definition told (s : LoopState) : list CoreMessage * Z := (lp_messages s, stepsExecuted s).

Lemma told_lifecycle call status detail metadata failureCode :
  fixes (W := W) told (recordToolLifecycle P call status detail metadata failureCode).
Proof. by intros v [s w]. Qed.
Lemma told_cancellation : fixes told (isCancellationRequested P).
Proof. unfold isCancellationRequested. walk_loop. Qed.
Lemma told_budget : fixes told (budgetCheck P).
Proof. unfold budgetCheck, isRunOverBudget. walk_loop. Qed.
Lemma told_polling : fixes told (runWithCancellationPolling P).
Proof. unfold runWithCancellationPolling. walk_loop. Qed.

Lemma told_attempts request step attempt more :
  fixes told (generate_attempts P config request step attempt more).
Proof.
  intros v. revert attempt. induction more as [|more IH]; intros attempt; cbn [generate_attempts];
    walk_loop; try apply IH; apply told_polling.
Qed.
Lemma told_call manifest call : fixes told (call_tool P context manifest call).
Proof.
  pose proof told_lifecycle as Hl. pose proof told_cancellation as Hc. pose proof told_budget as Hb.
  unfold fixes in Hl, Hc, Hb.
  unfold call_tool, attempt_tool, tool_threw, refuse_duplicate, refuse_unavailable, tool_done, tool_failed, fixes.
  walk_loop; first [apply Hl|apply Hc|apply Hb].
Qed.

(** [r] answers [call]. *)
Definition answers (call : AgenticLoopToolCall) (r : AgenticLoopToolResult) : Prop :=
  lr_toolId r = lc_id call /\ lr_toolName r = lc_toolName call.
Definition abandons (reason : StopReason) : Prop := reason = cancelled \/ reason = budget_exceeded.
Definition outcome_of (call : AgenticLoopToolCall) (outcome : CallOutcome) : Prop :=
  match outcome with call_result r => answers call r | call_break reason => abandons reason end.

Lemma call_outcome manifest call : gives (outcome_of call) (call_tool P context manifest call).
Proof.
  unfold call_tool, attempt_tool, tool_threw, refuse_duplicate, refuse_unavailable, tool_done, tool_failed.
  walk_loop; cbn; try (by split); by (left + right).
Qed.

(** The loop over the calls answers all of them in order, or is abandoned. *)
Definition outcomes_of (calls : list AgenticLoopToolCall) (outcome : list AgenticLoopToolResult + StopReason) : Prop :=
  match outcome with inl results => Forall2 answers calls results | inr reason => abandons reason end.
Lemma calls_outcome manifest calls s w :
  wp (call_tools P context manifest calls) (fun outcome '(s', _) => outcomes_of calls outcome /\ told s' = told s)
     (fun _ _ => True) (s, w).
Proof.
  revert s w. induction calls as [|call calls IH]; intros s w; cbn [call_tools]. { apply wp_ret. by split; [constructor|]. }
  rewrite wp_bind. eapply wp_mono; [apply wp_and;
    [apply (wp_gives _ _ _ (call_outcome manifest call))|apply (wp_fixes told); apply told_call]| |done].
  intros [r|reason] [s1 w1] [Ho Ht]; [|rewrite wp_ret; by split]. rewrite wp_bind.
  eapply wp_mono; [apply IH| |done]. intros [results|reason] [s2 w2] [Hr Ht2]; rewrite wp_ret, Ht2, Ht.
  - split; [by constructor|done].
  - done.
Qed.

(** One round: an answer of the model with calls, and the results of exactly these calls *)
Definition round (text : string) (calls : list AgenticLoopToolCall) (results : list AgenticLoopToolResult)
    : list CoreMessage := [buildAssistantMessage text calls; buildToolResultMessage results].
Definition complete_round (terminal : bool) (l : list CoreMessage) : Prop :=
  exists text calls results, l = round text calls results /\ calls <> [] /\ Forall2 answers calls results /\
    existsb lr_terminalError results = terminal.

(** What a step that was not the last one, or that ended the loop, adds to the messages *)
Definition step_adds (stopReason : option StopReason) (l : list CoreMessage) : Prop :=
  match stopReason with
  | None => complete_round false l
  | Some tool_error => complete_round true l
  | Some llm_stop => exists text, l = [buildAssistantMessage text []]
  | Some max_steps_reached => False
  | Some _ => l = [] \/ exists text calls, calls <> [] /\ l = [buildAssistantMessage text calls]
  end.

Lemma response_adds manifest response s w :
  wp (after_response P context manifest response)
    (fun stopReason '(s', _) => exists l, step_adds stopReason l /\ told s' = (lp_messages s ++ l, stepsExecuted s))
    (fun _ _ => True) (s, w).
Proof.
  unfold after_response. rewrite wp_bind, wp_sets. rewrite wp_bind, wp_sets.
  set (text := projectVisibleTranscriptText _).
  destruct (default [] (rp_toolCalls response)) as [|call calls].
  { rewrite wp_bind, wp_sets, wp_ret. eexists. split; [by exists text|done]. }
  rewrite wp_bind. eapply wp_mono; [apply (wp_fixes told); walk_loop| |done].
  intros _ [s1 w1] Ht. rewrite wp_bind. eapply wp_mono; [apply calls_outcome| |done].
  intros outcome [s2 w2] [Ho Ht2]. rewrite Ht in Ht2. injection Ht2 as Hm Hn.
  destruct outcome as [results|reason]; cbn [after_tools].
  - rewrite wp_bind. destruct results as [|r results]; [by inversion Ho|].
    rewrite wp_sets, wp_ret. unfold told. cbn [push_message lp_messages stepsExecuted]. rewrite Hm, Hn, <- app_assoc.
    eexists. split; [|done]. destruct (existsb lr_terminalError (r :: results)) eqn:Et;
      by exists text, (call :: calls), (r :: results).
  - rewrite wp_ret. exists [buildAssistantMessage text (call :: calls)]. unfold told. rewrite Hm, Hn. split; [|done].
    destruct Ho as [-> | ->]; right; by exists text, (call :: calls).
Qed.

Lemma told_step_start step s : told (set_steps (step + 1) s) = (lp_messages s, step + 1).
Proof. done. Qed.
Lemma told_model request step :
  fixes told (try_catch (r ← generateLoopText P config request step; mret (Some r))
    (fun error => match error with LoopCancelled => mret None | _ => throw error end)).
Proof. unfold generateLoopText. walk_loop; apply told_attempts. Qed.

Lemma step_tells manifest explicit step s w :
  wp (one_step P config context manifest explicit step)
    (fun stopReason '(s', _) => exists l, step_adds stopReason l /\ told s' = (lp_messages s ++ l, step + 1))
    (fun _ _ => True) (s, w).
Proof.
  unfold one_step. rewrite wp_bind, wp_sets. rewrite wp_bind, wp_asks. set (final := _ && _).
  rewrite wp_bind. eapply wp_mono; [apply (wp_fixes told), told_cancellation| |done].
  intros stop [s1 w1] H1'. rewrite told_step_start in H1'. destruct stop.
  { rewrite wp_ret. exists []. rewrite app_nil_r. split; [by left|done]. }
  rewrite wp_bind. eapply wp_mono; [apply (wp_fixes told), told_budget| |done].
  intros over [s2 w2] H2'. rewrite H1' in H2'. destruct over.
  { rewrite wp_ret. exists []. rewrite app_nil_r. split; [by left|done]. }
  rewrite wp_bind. eapply wp_mono; [apply (wp_fixes told); walk_loop| |done].
  intros _ [s3 w3] H3'. rewrite H2' in H3'. rewrite wp_bind, wp_asks.
  rewrite wp_bind. eapply wp_mono; [apply (wp_fixes told), told_model| |done].
  intros response [s4 w4] H4'. rewrite H3' in H4'. destruct response as [response|].
  - eapply wp_mono; [apply response_adds| |done]. intros o [s5 w5] (l & Hl & H5'). exists l. split; [done|].
    injection H4' as Hm Hn. by rewrite H5', Hm, Hn.
  - rewrite wp_ret. exists []. rewrite app_nil_r. split; [by left|done].
Qed.

(** [n] complete rounds without a terminal failure *)
Inductive rounds : nat -> list CoreMessage -> Prop :=
| rounds_none : rounds 0 []
| rounds_more n l r : rounds n l -> complete_round false r -> rounds (S n) (l ++ r).

(** How the loop of at most [maxSteps] steps ended after [n] such rounds, with [tail]
    the messages of its last step *)
Definition ending (maxSteps : nat) (reason : StopReason) (n : nat) (tail : list CoreMessage) (steps : Z) : Prop :=
  match reason with
  | max_steps_reached => n = maxSteps /\ tail = [] /\ steps = Z.of_nat n
  | _ => (n < maxSteps)%nat /\ steps = Z.of_nat n + 1 /\ step_adds (Some reason) tail
  end.
Definition transcript (maxSteps : nat) (initial : list CoreMessage) (reason : StopReason) (s : LoopState) : Prop :=
  exists n l tail, rounds n l /\ lp_messages s = initial ++ l ++ tail /\ ending maxSteps reason n tail (stepsExecuted s).

Lemma steps_tell manifest explicit initial left : forall n l s w,
  rounds n l -> told s = (initial ++ l, Z.of_nat n) ->
  wp (run_steps P config context manifest explicit (Z.of_nat n) left)
    (fun reason '(s', _) => transcript (n + left) initial reason s') (fun _ _ => True) (s, w).
Proof.
  induction left as [|left IH]; intros n l s w Hr Ht; cbn [run_steps].
  { rewrite wp_ret. injection Ht as Hm Hn. exists n, l, []. rewrite app_nil_r. split; [done|]. split; [done|].
    split; [lia|done]. }
  rewrite wp_bind. eapply wp_mono; [apply step_tells| |done].
  intros o [s1 w1] (tail & Ha & Ht1). injection Ht as Hm Hn. injection Ht1 as Hm1 Hn1. rewrite Hm in Hm1.
  destruct o as [reason|].
  - rewrite wp_ret. exists n, l, tail. rewrite app_assoc. split; [done|]. split; [done|].
    destruct reason; try done; split; lia || done.
  - replace (n + S left)%nat with (S n + left)%nat by lia. replace (Z.of_nat n + 1) with (Z.of_nat (S n)) by lia.
    apply (IH (S n) (l ++ tail)); [by constructor|]. unfold told. rewrite Hm1, Hn1, app_assoc. f_equal. lia.
Qed.

(** C38. Whatever the model and the tools answer, the messages of a run that returns
    are the initial ones, then one round per step - an answer with calls and a
    message that answers exactly these calls, in their order - and what the last
    step adds, which the reason to stop determines: a final text for [llm_stop], a
    round with a terminal failure for [tool_error], nothing after the last round
    for [max_steps_reached], and at most one unanswered answer when the run was
    cancelled or ran out of budget.  No earlier round has a terminal failure, and
    the steps counted are the rounds and the last step, never more than
    [maxSteps]. *)
Theorem loop_transcript initial s w result s' w' :
  execute P config context initial (s, w) = (Ok result, (s', w')) ->
  transcript (cf_maxSteps config) initial (ar_stopReason result) (ar_loop result).
Proof.
  intros Hx. assert (H' : wp (execute P config context initial)
    (fun result _ => transcript (cf_maxSteps config) initial (ar_stopReason result) (ar_loop result))
    (fun _ _ => True) (s, w)); [|unfold wp in H'; by rewrite Hx in H'].
  unfold execute. rewrite wp_bind, wp_sets, wp_bind. apply wp_lift; [|done]. intros manifest _.
  rewrite wp_bind. eapply wp_mono; [apply (steps_tell _ _ initial _ 0 [])| |done].
  - constructor.
  - unfold told. by rewrite app_nil_r.
  - intros reason [s1 w1] Ht. by rewrite wp_bind, wp_asks, wp_ret.
Qed.
End Transcript.

(** * What tools that fail or throw do to a run *)

Definition returns {W A} (m : ST W loop_error A) : Prop := forall w, is_ok (fst (m w)) = true.

(** The hooks return and the calls of the model have names; the executor may do
    anything and the budget may throw its own error. *)
Class HooksReturn {W} (P : LoopPorts W) : Prop := {
  hr_cancelled hook : lp_isRunCancelled P = Some hook -> returns hook;
  hr_interrupted : returns (lp_interrupted P);
  hr_budget hook w error :
    lp_isOverBudget P = Some hook -> fst (hook w) = Err error -> exists message, error = BudgetExceeded message;
  hr_message content : returns (lp_onAssistantMessage P content);
  hr_progress : returns (lp_onProgress P);
  hr_requested call : returns (lp_onToolRequested P call);
  hr_completed call output ms : returns (lp_onToolCompleted P call output ms);
  hr_failed call message ms : returns (lp_onToolFailed P call message ms);
  hr_retry event : returns (lp_onProviderRetry P event);
  hr_named request w response :
    fst (lp_generateText P request w) = Ok response ->
    Forall (fun call => lc_toolName call <> "") (default [] (rp_toolCalls response));
}.

(** The events of a status *)
Definition events (status : LifecycleStatus) (s : LoopState) : Z :=
  Z.of_nat (length (List.filter (fun e => bool_decide (le_status e = status)) (toolLifecycle s))).
(** Every call counted failed or completed, but for [open] ones; the lifecycle
    tells the same. *)
Definition balanced (open : Z) (s : LoopState) : Prop :=
  toolExecutionCount s = failedToolCount s + completedMutatingToolCount s + completedReadOnlyToolCount s + open /\
  events ls_requested s = toolExecutionCount s /\
  events ls_failed s = failedToolCount s /\
  events ls_completed s = completedMutatingToolCount s + completedReadOnlyToolCount s.

Lemma events_push status e s :
  events status (push_event e s) = events status s + (if bool_decide (le_status e = status) then 1 else 0).
Proof.
  unfold events, push_event. cbn [toolLifecycle]. rewrite List.filter_app, length_app. cbn [List.filter].
  destruct (bool_decide _); cbn [length]; lia.
Qed.

Section Accounts.
Context `{!JsRuntime, !IsoDates, !ActivityMetadata} {W : Type} (P : LoopPorts W) `{!HooksReturn P}
        (config : AgenticLoopConfig) (context : LoopContext).

Lemma wp_returns {A} (m : ST W loop_error A) (Q : A -> LoopState * W -> Prop) X s w :
  returns m -> (forall a w', Q a (s, w')) -> wp (port m) Q X (s, w).
Proof.
  intros Hm HQ. apply wp_port. specialize (Hm w). unfold wp. destruct (m w) as [[a|e] w']; [apply HQ|done].
Qed.
Lemma wp_any {A} (m : ST W loop_error A) (Q : A -> LoopState * W -> Prop) X s w :
  (forall a w', Q a (s, w')) -> (forall e w', X e (s, w')) -> wp (port m) Q X (s, w).
Proof. intros HQ HX. apply wp_port. unfold wp. destruct (m w) as [[] w']; auto. Qed.
Lemma wp_lifecycle call status detail metadata failureCode Q X s (w : W) :
  (forall e, le_status e = status -> Q tt (push_event e s, w)) ->
  wp (recordToolLifecycle P call status detail metadata failureCode) Q X (s, w).
Proof. intros HQ. by apply wp_modify, HQ. Qed.
Lemma wp_cancellation (Q : bool -> LoopState * W -> Prop) X s w :
  (forall b w', Q b (s, w')) -> wp (isCancellationRequested P) Q X (s, w).
Proof.
  intros HQ. unfold isCancellationRequested. destruct (lp_isRunCancelled P) as [hook|] eqn:Eh.
  - apply wp_returns; [by apply hr_cancelled|done].
  - by apply wp_ret.
Qed.
Lemma wp_budgetCheck (Q : bool -> LoopState * W -> Prop) X s w :
  (forall b w', Q b (s, w')) -> wp (budgetCheck P) Q X (s, w).
Proof.
  intros HQ. unfold budgetCheck, isRunOverBudget. apply wp_try_catch, wp_bind.
  assert (Hover : forall (over : bool) w',
    wp (_ ← throw_if over (BudgetExceeded ""); mret false) Q
       (fun e s' => wp (match e with BudgetExceeded _ => mret true | _ => throw e end) Q X s') (s, w')).
  { intros over w'. apply wp_bind. destruct over; [apply wp_throw, wp_ret|apply wp_ret, wp_ret]; apply HQ. }
  destruct (lp_isOverBudget P) as [hook|] eqn:Eh; [|apply wp_ret, Hover].
  apply wp_try_catch, wp_port. pose proof (hr_budget (P := P) hook w) as Hb. unfold wp.
  destruct (hook w) as [[over|e] w'].
  - apply Hover.
  - destruct (Hb e Eh eq_refl) as [message ->]. apply HQ.
Qed.

Lemma zod_ok {A} (r : res loop_issue A) (Q : A -> LoopState * W -> Prop) X s w :
  is_ok r = true -> (forall a, Q a (s, w)) -> wp (zod P r) Q X (s, w).
Proof. intros Hr HQ. destruct r as [a|]; [apply HQ|done]. Qed.
Lemma unavailable_error_ok toolName manifest :
  toolName <> "" -> is_ok (buildUnavailableToolError toolName manifest) = true.
Proof. by destruct toolName. Qed.
Lemma failure_error_ok toolName message manifest :
  toolName <> "" -> is_ok (buildStructuredToolFailureError toolName message manifest) = true.
Proof.
  intros Hn. unfold buildStructuredToolFailureError, isValidationFailure.
  destruct (startsWith _ message) eqn:Es; [|done].
  by destruct toolName, message.
Qed.

(** Assignments to counters and events, in the account *)
Ltac balance :=
  unfold balanced in *; rewrite ?events_push;
  repeat match goal with H : le_status _ = _ |- _ => rewrite ?H; clear H end;
  repeat case_bool_decide; try done; unfold events in *; cbn -[Z.add] in *; lia.

(** A call that ended is in the account; one the run was abandoned at stays open. *)
Definition settled (outcome : CallOutcome) (s : LoopState) : Prop :=
  match outcome with call_result _ => balanced 0 s | call_break _ => balanced 1 s end.

Lemma duplicate_settles call message s w :
  balanced 1 s -> wp (refuse_duplicate P call message) (fun o '(s', _) => settled o s') (fun _ _ => False) (s, w).
Proof.
  intros Hb. unfold refuse_duplicate. rewrite wp_bind, wp_sets, wp_bind. apply wp_lifecycle. intros e He.
  rewrite wp_bind. apply wp_returns; [apply hr_failed|]. intros _ w'. apply wp_ret. cbn. balance.
Qed.

Lemma unavailable_settles manifest call s w :
  lc_toolName call <> "" -> balanced 1 s ->
  wp (refuse_unavailable P manifest call) (fun o '(s', _) => settled o s') (fun _ _ => False) (s, w).
Proof.
  intros Hn Hb. unfold refuse_unavailable. rewrite wp_bind, wp_sets, wp_bind.
  apply zod_ok; [by apply unavailable_error_ok|]. intros e. rewrite wp_bind, wp_sets, wp_bind.
  apply wp_lifecycle. intros ev He. rewrite wp_bind. apply wp_returns; [apply hr_failed|].
  intros _ w'. apply wp_ret. cbn. balance.
Qed.
Lemma done_settles call result ms s w :
  balanced 1 s -> wp (tool_done P call result ms) (fun o '(s', _) => settled o s') (fun _ _ => False) (s, w).
Proof.
  intros Hb. unfold tool_done. rewrite wp_bind, wp_sets, wp_bind. apply wp_lifecycle. intros ev He.
  rewrite wp_bind. apply wp_returns; [apply hr_completed|]. intros _ w'. apply wp_ret. cbn.
  destruct (isMutatingCodingToolId _); balance.
Qed.
Lemma failed_settles call result ms s w :
  balanced 1 s -> wp (tool_failed P call result ms) (fun o '(s', _) => settled o s') (fun _ _ => False) (s, w).
Proof.
  intros Hb. unfold tool_failed. rewrite wp_bind, wp_sets, wp_bind. destruct (isCiLogsAuthorizationBoundaryFailure _ _);
    [rewrite wp_sets|rewrite wp_ret]; rewrite wp_bind; apply wp_lifecycle; intros ev He;
    rewrite wp_bind; (apply wp_returns; [apply hr_failed|]; intros _ w'; apply wp_ret; cbn; balance).
Qed.
Lemma attempt_settles manifest call s w :
  lc_toolName call <> "" -> balanced 1 s ->
  wp (attempt_tool P context manifest call) (fun o '(s', _) => settled o s') (fun _ '(s', _) => balanced 1 s') (s, w).
Proof.
  intros Hn Hb. unfold attempt_tool. destruct (negb _).
  { eapply wp_mono; [by apply unavailable_settles|done|done]. }
  rewrite wp_bind. apply wp_gets. rewrite wp_bind. apply wp_lifecycle. intros ev He.
  assert (Hb1 : balanced 1 (push_event ev s)) by balance.
  rewrite wp_bind. apply wp_any; [|done]. intros _ w1. rewrite wp_bind. apply wp_any; [|done]. intros result w2.
  rewrite wp_bind. apply wp_gets. destruct (String.eqb _ _).
  - eapply wp_mono; [by apply done_settles|done|done].
  - eapply wp_mono; [by apply failed_settles|done|done].
Qed.
Lemma threw_settles manifest call error s w :
  lc_toolName call <> "" -> balanced 1 s ->
  wp (tool_threw P manifest call error) (fun o '(s', _) => settled o s') (fun _ _ => False) (s, w).
Proof.
  intros Hn Hb. unfold tool_threw. destruct error; [by apply wp_ret|..].
  all: rewrite wp_bind, wp_sets, wp_bind; apply zod_ok; [by apply failure_error_ok|]; intros structured.
  all: rewrite wp_bind; destruct structured as [e|]; [rewrite wp_sets|rewrite wp_ret].
  all: rewrite wp_bind; destruct (isCiLogsAuthorizationBoundaryFailure _ _); [rewrite wp_sets|rewrite wp_ret].
  all: rewrite wp_bind; apply wp_lifecycle; intros ev He; rewrite wp_bind.
  all: apply wp_returns; [apply hr_failed|]; intros _ w'; apply wp_ret; cbn; balance.
Qed.

Lemma call_settles manifest call s w :
  lc_toolName call <> "" -> balanced 0 s ->
  wp (call_tool P context manifest call) (fun o '(s', _) => settled o s') (fun _ _ => False) (s, w).
Proof.
  intros Hn Hb. unfold call_tool. rewrite wp_bind, wp_sets, wp_bind. apply wp_lifecycle. intros ev He.
  assert (Hb1 : balanced 1 (push_event ev (count_tool s))) by balance. revert Hb1.
  generalize (push_event ev (count_tool s)). clear s Hb ev He. intros s Hb.
  rewrite wp_bind. apply wp_returns; [apply hr_requested|]. intros _ w1. rewrite wp_bind.
  assert (Hrest : forall s0 w0, balanced 1 s0 ->
    wp (stop ← isCancellationRequested P; if (stop : bool) then mret (call_break cancelled) else
        duplicate ← asks (getDuplicateReadOnlyToolCallMessage call);
        match duplicate with
        | Some message => refuse_duplicate P call message
        | None => over ← budgetCheck P; if (over : bool) then mret (call_break budget_exceeded)
                  else try_catch (attempt_tool P context manifest call) (tool_threw P manifest call)
        end) (fun o '(s', _) => settled o s') (fun _ _ => False) (s0, w0)).
  { clear s w w1 Hb. intros s w Hb. rewrite wp_bind. apply wp_cancellation. intros [] w1; [by apply wp_ret|].
    rewrite wp_bind, wp_asks. destruct (getDuplicateReadOnlyToolCallMessage call s) as [message|].
    { by apply duplicate_settles. }
    rewrite wp_bind. apply wp_budgetCheck. intros [] w2; [by apply wp_ret|]. apply wp_try_catch.
    eapply wp_mono; [by apply attempt_settles|done|]. intros e [s1 w3] Hb1. by apply threw_settles. }
  destruct (isCiLogsCliFallbackToolCall call); [rewrite wp_sets|rewrite wp_ret]; by apply Hrest.
Qed.

Definition calls_settled (outcome : list AgenticLoopToolResult + StopReason) (s : LoopState) : Prop :=
  match outcome with inl _ => balanced 0 s | inr reason => abandons reason /\ balanced 1 s end.
Lemma calls_settle manifest calls s w :
  Forall (fun call => lc_toolName call <> "") calls -> balanced 0 s ->
  wp (call_tools P context manifest calls) (fun o '(s', _) => calls_settled o s') (fun _ _ => False) (s, w).
Proof.
  intros Hn. revert s w. induction Hn as [|call calls Hc Hn IH]; intros s w Hb; cbn [call_tools]; [by apply wp_ret|].
  rewrite wp_bind. eapply wp_mono; [apply wp_and;
    [apply call_settles; [done|done]|apply (wp_gives _ _ _ (call_outcome P context manifest call))]| |by intros ?? []].
  intros [r|reason] [s1 w1] [Ho Hg]; [|apply wp_ret; by split]. rewrite wp_bind.
  eapply wp_mono; [by apply IH| |done]. intros [results|reason] [s2 w2] Hr; by apply wp_ret.
Qed.

(** What the model throws *)
Definition model_throws (e : loop_error) : Prop := exists request w, fst (lp_generateText P request w) = Err e.
Lemma attempts_settle request step attempt more s w :
  balanced 0 s ->
  wp (generate_attempts P config request step attempt more)
    (fun response '(s', _) => balanced 0 s' /\
       Forall (fun call => lc_toolName call <> "") (default [] (rp_toolCalls response)))
    (fun e '(s', _) => balanced 0 s' /\ (e = LoopCancelled \/ model_throws e)) (s, w).
Proof.
  revert attempt s w. induction more as [|more IH]; intros attempt s w Hb; cbn [generate_attempts].
  all: assert (Hpoll : forall s0 w0 (Q : unit -> LoopState * W -> Prop), balanced 0 s0 ->
         (forall w', Q tt (s0, w')) -> wp (runWithCancellationPolling P) Q
           (fun e '(s', _) => balanced 0 s' /\ (e = LoopCancelled \/ model_throws e)) (s0, w0)) by
    (intros s0 w0 Q Hb0 HQ; unfold runWithCancellationPolling; destruct (lp_isRunCancelled P);
       [rewrite wp_bind; apply wp_returns; [apply hr_interrupted|]; intros [] w'; [by split; [|left]|apply HQ]
       |by apply wp_ret]).
  all: rewrite wp_bind; apply Hpoll; [done|]; intros w1; apply wp_try_catch, wp_port.
  all: set (r := attempt_request _ _ _ _); pose proof (hr_named (P := P) r w1) as Hn; unfold wp at 1.
  all: destruct (lp_generateText P r w1) as [[response|e] w2] eqn:Er;
    [by split; [|apply Hn]|assert (Hm : model_throws e) by (exists r, w1; by rewrite Er)].
  - destruct e; try (by split; [|right]).
  - destruct e; try (by split; [|right]). rewrite wp_bind, wp_sets, wp_bind, wp_asks, wp_bind.
    apply Hpoll; [balance|]. intros w3. rewrite wp_bind. apply wp_returns; [apply hr_retry|]. intros _ w4.
    apply IH. balance.
Qed.

(** The account at the end of a step or of the run *)
Definition account (stopReason : option StopReason) (s : LoopState) : Prop :=
  balanced 0 s \/ balanced 1 s /\ exists reason, stopReason = Some reason /\ abandons reason.
Definition model_thrown (e : loop_error) (s : LoopState) : Prop := balanced 0 s /\ e <> LoopCancelled /\ model_throws e.

Lemma response_settles manifest response s w :
  Forall (fun call => lc_toolName call <> "") (default [] (rp_toolCalls response)) -> balanced 0 s ->
  wp (after_response P context manifest response)
    (fun o '(s', _) => account o s' /\ (o = None -> balanced 0 s')) (fun _ _ => False) (s, w).
Proof.
  intros Hn Hb. unfold after_response. rewrite wp_bind, wp_sets. rewrite wp_bind, wp_sets.
  set (s1 := push_message _ _). assert (Hb1 : balanced 0 s1) by balance. clearbody s1. clear s Hb.
  destruct (default [] (rp_toolCalls response)) as [|call calls].
  { rewrite wp_bind, wp_sets. apply wp_ret. split; [left|intros _]; balance. }
  assert (Hcalls : forall w0, wp (outcome ← call_tools P context manifest (call :: calls); after_tools outcome)
    (fun o '(s', _) => account o s' /\ (o = None -> balanced 0 s')) (fun _ _ => False) (s1, w0)).
  { intros w0. rewrite wp_bind. eapply wp_mono; [by apply calls_settle| |done].
    intros [results|reason] [s2 w2]; cbn [calls_settled after_tools].
    - intros Hb2. rewrite wp_bind. destruct results; [rewrite wp_ret|rewrite wp_sets]; apply wp_ret;
        (split; [by left|done]).
    - intros [Ha Hb2]. apply wp_ret. split; [right; eauto|done]. }
  rewrite wp_bind. destruct (resolveModelCommentary _) as [commentary|].
  - apply wp_returns; [apply hr_message|]. intros _ w1. apply Hcalls.
  - apply wp_ret, Hcalls.
Qed.

Lemma step_settles manifest explicit step s w :
  balanced 0 s ->
  wp (one_step P config context manifest explicit step)
    (fun o '(s', _) => account o s' /\ (o = None -> balanced 0 s')) (fun e '(s', _) => model_thrown e s') (s, w).
Proof.
  intros Hb. assert (Hstop : forall reason s0 w0, balanced 0 s0 ->
    wp (E := loop_error) (mret (Some reason)) (fun o '(s', _) => account o s' /\ (o = None -> balanced 0 s'))
      (fun e '(s', _) => model_thrown e s') (s0, w0)) by (intros; apply wp_ret; by split; [left|]).
  unfold one_step. rewrite wp_bind, wp_sets. set (s1 := set_steps _ _). assert (Hb1 : balanced 0 s1) by balance.
  clearbody s1. clear s Hb. rewrite wp_bind, wp_asks. set (final := _ && _). clearbody final.
  rewrite wp_bind. apply wp_cancellation. intros [] w1; [by apply Hstop|].
  rewrite wp_bind. apply wp_budgetCheck. intros [] w2; [by apply Hstop|]. rewrite wp_bind.
  assert (Hmodel : forall w0, wp (request ← asks (step_request context manifest explicit final);
      response ← try_catch (r ← generateLoopText P config request step; mret (Some r))
        (fun error => match error with LoopCancelled => mret None | _ => throw error end);
      match response with None => mret (Some cancelled) | Some r => after_response P context manifest r end)
    (fun o '(s', _) => account o s' /\ (o = None -> balanced 0 s')) (fun e '(s', _) => model_thrown e s') (s1, w0)).
  { intros w0. rewrite wp_bind, wp_asks, wp_bind. apply wp_try_catch, wp_bind.
    eapply wp_mono; [by apply attempts_settle|..].
    - intros response [s2 w3] [Hb2 Hn]. apply wp_ret. eapply wp_mono; [by apply response_settles|done|done].
    - intros e [s2 w3] [Hb2 He]. destruct e; try (apply wp_throw; by destruct He as [He|He]).
      apply wp_ret. by apply Hstop. }
  destruct final; [apply wp_ret, Hmodel|]. apply wp_returns; [apply hr_progress|]. intros _ w3. apply Hmodel.
Qed.

Lemma steps_settle manifest explicit left : forall step s w,
  balanced 0 s ->
  wp (run_steps P config context manifest explicit step left)
    (fun reason '(s', _) => account (Some reason) s') (fun e '(s', _) => model_thrown e s') (s, w).
Proof.
  induction left as [|left IH]; intros step s w Hb; cbn [run_steps]; [by apply wp_ret; left|].
  rewrite wp_bind. eapply wp_mono; [by apply step_settles| |done]. intros [reason|] [s1 w1] [Ha Hnone].
  - by apply wp_ret.
  - by apply IH, Hnone.
Qed.

(** The ids a configuration needs *)
Definition configured : Prop := cf_runId config <> "" /\ cf_workspaceRoot config <> "" /\ cf_artifactRoot config <> "".
Lemma manifest_ok tools providerId modelId :
  configured ->
  is_ok (createCloudSandboxRunCapabilityManifest (cf_runId config) (cf_workspaceRoot config) (cf_artifactRoot config)
           tools providerId modelId) = true.
Proof.
  intros (H1' & H2' & H3'). unfold createCloudSandboxRunCapabilityManifest.
  apply String.eqb_neq in H1', H2', H3'. by rewrite H1', H2', H3'.
Qed.

(** C39. A tool cannot end a run by an exception: when the hooks return, the model
    names its calls and the ids the loop is configured with are not empty, then whatever the executor returns or throws, [execute] returns
    a result or throws what the model threw.  Either way every call counted has
    ended as failed, as a completed mutation or as a completed read, but for one at
    which the run was cancelled or ran out of budget; and the lifecycle has exactly
    one [requested] event per call, one [failed] event per failure and one
    [completed] event per completion. *)
Theorem tools_accounted initial s w :
  configured ->
  match execute P config context initial (s, w) with
  | (Ok result, (s', _)) => s' = ar_loop result /\ account (Some (ar_stopReason result)) s'
  | (Err error, (s', _)) => model_thrown error s'
  end.
Proof.
  intros Hc. assert (H' : wp (execute P config context initial)
    (fun result '(s', _) => s' = ar_loop result /\ account (Some (ar_stopReason result)) s')
    (fun error '(s', _) => model_thrown error s') (s, w));
    [|unfold wp in H'; by destruct (execute _ _ _ _ _) as [[] []]].
  unfold execute. rewrite wp_bind, wp_sets, wp_bind. apply zod_ok; [by apply manifest_ok|]. intros manifest.
  rewrite wp_bind. eapply wp_mono; [by apply steps_settle| |done].
  intros reason [s1 w1] Ha. rewrite wp_bind, wp_asks. by apply wp_ret.
Qed.
End Accounts.

(** * Calls that are not repeated *)

Section History.
Context `{!JsRuntime, !IsoDates, !ActivityMetadata} {W : Type} (P : LoopPorts W) (config : AgenticLoopConfig)
        (context : LoopContext).
Variable history : W -> list AgenticLoopToolCall.

Definition silent {A} (m : ST W loop_error A) : Prop := forall w, history (snd (m w)) = history w.

(** The world records the calls that were executed with status [DONE], in order,
    and nothing else changes the record. *)
Class Recorded : Prop := {
  rc_tool call w :
    match run_tool P call w with
    | (Ok result, w') => history w' = history w ++ (if String.eqb (tk_status result) "DONE" then [call] else [])
    | (Err _, w') => history w' = history w
    end;
  rc_cancelled hook : lp_isRunCancelled P = Some hook -> silent hook;
  rc_interrupted : silent (lp_interrupted P);
  rc_budget hook : lp_isOverBudget P = Some hook -> silent hook;
  rc_text request : silent (lp_generateText P request);
  rc_message content : silent (lp_onAssistantMessage P content);
  rc_progress : silent (lp_onProgress P);
  rc_requested call : silent (lp_onToolRequested P call);
  rc_started call : silent (lp_onToolStarted P call);
  rc_completed call output ms : silent (lp_onToolCompleted P call output ms);
  rc_failed call message ms : silent (lp_onToolFailed P call message ms);
  rc_retry event : silent (lp_onProviderRetry P event);
}.
Context `{!Recorded}.

Definition mutating (call : AgenticLoopToolCall) : bool := isMutatingCodingToolId (lc_toolName call).
Definition print_of (call : AgenticLoopToolCall) : string := buildReadOnlyToolFingerprint (lc_toolName call) (lc_args call).
Definition reads (h : list AgenticLoopToolCall) : list string :=
  map print_of (List.filter (fun call => negb (mutating call)) h).

(** What the loop knows of the calls of the run is what happened. *)
Definition knows (before : list AgenticLoopToolCall) (s : LoopState) (w : W) : Prop :=
  exists h, history w = before ++ h /\ completedReadOnlyToolFingerprints s = reads h /\ NoDup (reads h) /\
    completedReadOnlyToolCount s = Z.of_nat (length (reads h)) /\
    completedMutatingToolCount s = Z.of_nat (length (List.filter mutating h)).
(** The part of the state it depends on *)
Definition known (s : LoopState) : list string * Z * Z :=
  (completedReadOnlyToolFingerprints s, completedReadOnlyToolCount s, completedMutatingToolCount s).
Lemma knows_known before s w s' w' :
  known s' = known s -> history w' = history w -> knows before s w -> knows before s' w'.
Proof. unfold known, knows. intros [= -> -> ->] -> Hk. done. Qed.

Definition quiet {A} (m : L W A) : Prop := forall v, keeps (fun '(s, w) => (known s, history w) = v) m.
Lemma still_port {A} (m : ST W loop_error A) : silent m -> quiet (port m).
Proof. intros Hm v [s w] Hs. specialize (Hm w). unfold port. destruct (m w) as [r w']. cbn in *. by rewrite Hm. Qed.
Lemma quiet_sets (f : LoopState -> LoopState) : (forall s, known (f s) = known s) -> quiet (sets f).
Proof. intros Hf v [s w] Hs. cbn. by rewrite Hf. Qed.
Lemma quiet_lifecycle call status detail metadata failureCode :
  quiet (recordToolLifecycle P call status detail metadata failureCode).
Proof. by intros v [s w]. Qed.
Lemma quiet_keeps {A} (m : L W A) before : quiet m -> keeps (fun '(s, w) => knows before s w) m.
Proof.
  intros Hm [s w] Hk. specialize (Hm (known s, history w) (s, w) eq_refl).
  destruct (snd (m (s, w))) as [s' w']. injection Hm as Hs Hw. revert Hk. apply knows_known; [|done].
  unfold known. congruence.
Qed.

Ltac walk_quiet :=
  repeat match goal with
  | |- quiet _ => intros ?
  | |- keeps _ (_ ≫= _) => apply keeps_bind; [|intros ?]
  | |- keeps _ (try_catch _ _) => apply keeps_try_catch; [|intros ?]
  | |- keeps _ (port _) => apply still_port; first [by apply rc_cancelled|apply rc_interrupted|by apply rc_budget|
      apply rc_text|apply rc_message|apply rc_progress|apply rc_requested|apply rc_started|apply rc_completed|
      apply rc_failed|apply rc_retry]
  | |- keeps _ (mret _) => apply keeps_ret
  | |- keeps _ (throw _) => apply keeps_throw
  | |- keeps _ (throw_if _ _) => apply keeps_throw_if
  | |- keeps _ (gets _) => apply keeps_gets
  | |- keeps _ (asks _) => apply keeps_gets
  | |- keeps _ (zod _ _) => apply keeps_lift
  | |- keeps _ (sets _) => apply quiet_sets; done
  | |- keeps _ (recordToolLifecycle _ _ _ _ _ _) => apply quiet_lifecycle
  | |- keeps _ (match ?x with _ => _ end) => destruct x eqn:?
  end.

Lemma quiet_cancellation : quiet (isCancellationRequested P).
Proof. unfold isCancellationRequested. walk_quiet. Qed.
Lemma quiet_budget : quiet (budgetCheck P).
Proof. unfold budgetCheck, isRunOverBudget. walk_quiet. Qed.
Lemma quiet_polling : quiet (runWithCancellationPolling P).
Proof. unfold runWithCancellationPolling. walk_quiet. Qed.
Lemma quiet_attempts request step attempt more : quiet (generate_attempts P config request step attempt more).
Proof.
  intros v. revert attempt. induction more as [|more IH]; intros attempt; cbn [generate_attempts];
    walk_quiet; try apply IH; apply quiet_polling.
Qed.
Lemma quiet_refusals manifest call message :
  quiet (refuse_duplicate P call message) /\ quiet (refuse_unavailable P manifest call).
Proof. unfold refuse_duplicate, refuse_unavailable. split; walk_quiet. Qed.
Lemma quiet_threw manifest call error : quiet (tool_threw P manifest call error).
Proof. unfold tool_threw. walk_quiet. Qed.
Lemma quiet_failed call result ms : quiet (tool_failed P call result ms).
Proof. unfold tool_failed. walk_quiet. Qed.

Lemma wp_quiet {A} (m : L W A) s w :
  quiet m -> wp m (fun _ '(s', w') => known s' = known s /\ history w' = history w)
                  (fun _ '(s', w') => known s' = known s /\ history w' = history w) (s, w).
Proof.
  intros Hm. specialize (Hm (known s, history w) (s, w) eq_refl). unfold wp.
  destruct (m (s, w)) as [[] [s' w']]; by injection Hm as Hs Hw; unfold known in *; split; congruence.
Qed.
Lemma reads_app h h' : reads (h ++ h') = reads h ++ reads h'.
Proof. unfold reads. by rewrite List.filter_app, map_app. Qed.
Lemma done_known before call result ms s w :
  (exists w0, knows before s w0 /\ history w = history w0 ++ [call]) ->
  mutating call = true \/ print_of call ∉ completedReadOnlyToolFingerprints s ->
  wp (tool_done P call result ms) (fun _ '(s', w') => knows before s' w') (fun _ '(s', w') => knows before s' w') (s, w).
Proof.
  intros (w0 & (h & Hh & Hf & Hn & Hr & Hm) & Hw) Hnew. unfold tool_done. rewrite wp_bind, wp_sets.
  assert (Hk : knows before ((if isMutatingCodingToolId (lc_toolName call) then count_mutating
            else count_reading (buildReadOnlyToolFingerprint (lc_toolName call) (lc_args call))) s) w).
  { fold (mutating call) (print_of call). exists (h ++ [call]). rewrite Hw, Hh, app_assoc, reads_app, List.filter_app, !length_app.
    split; [done|]. unfold reads at 2 4 6. cbn [List.filter map].
    destruct (mutating call) eqn:Em; cbn [negb map].
    - rewrite !app_nil_r. split; [done|]. split; [done|]. cbn. split; lia.
    - destruct Hnew as [|Hnew]; [done|]. rewrite Hf in Hnew. split; [|split; [|split]].
      + cbn. rewrite Hf. by rewrite bool_decide_eq_false_2.
      + apply NoDup_app. split; [done|]. split; [|by apply NoDup_singleton]. intros x Hx ->%list_elem_of_singleton. done.
      + cbn. lia.
      + cbn. lia. }
  rewrite wp_bind. eapply wp_mono; [apply wp_quiet, quiet_lifecycle| |by intros e [s' w'] [? ?]; eapply knows_known].
  intros _ [s1 w1] [Hs1 Hw1]. rewrite wp_bind.
  eapply wp_mono; [apply wp_quiet, still_port, rc_completed| |]; intros ? [s2 w2] [Hs2 Hw2];
    [apply wp_ret|]; (eapply knows_known; [| |exact Hk]; congruence).
Qed.

Lemma knows_wp {A} (m : L W A) before s w :
  quiet m -> knows before s w ->
  wp m (fun _ '(s', w') => knows before s' w') (fun _ '(s', w') => knows before s' w') (s, w).
Proof. intros Hm Hk. eapply wp_mono; [by apply wp_quiet|..]; intros ? [s' w'] [? ?]; by eapply knows_known. Qed.

Lemma attempt_knows before manifest call s w :
  knows before s w -> mutating call = true \/ print_of call ∉ completedReadOnlyToolFingerprints s ->
  wp (attempt_tool P context manifest call) (fun _ '(s', w') => knows before s' w')
    (fun _ '(s', w') => knows before s' w') (s, w).
Proof.
  intros Hk Hnew. unfold attempt_tool. destruct (negb _).
  { apply knows_wp; [|done]. apply (quiet_refusals manifest call ""). }
  rewrite wp_bind. apply wp_gets. rewrite wp_bind.
  eapply wp_mono; [apply wp_quiet, quiet_lifecycle| |by intros e [s' w'] [? ?]; eapply knows_known].
  intros _ [s1 w1] [Hs1 Hw1]. rewrite wp_bind.
  eapply wp_mono; [apply wp_quiet, still_port, rc_started|
    |intros ? [s2 w2] [Hs2 Hw2]; eapply knows_known; [| |exact Hk]; congruence].
  intros _ [s2 w2] [Hs2 Hw2]. rewrite Hs1 in Hs2. rewrite Hw1 in Hw2. clear s1 w1 Hs1 Hw1.
  assert (Hk2 : knows before s2 w2) by by eapply knows_known.
  assert (Hnew2 : mutating call = true \/ print_of call ∉ completedReadOnlyToolFingerprints s2) by
    (injection Hs2 as -> _ _; done).
  rewrite wp_bind. apply wp_port. pose proof (rc_tool call w2) as Ht. unfold wp at 1.
  destruct (run_tool P call w2) as [[result|e] w3]; [|exact (knows_known _ _ _ _ _ eq_refl Ht Hk2)].
  rewrite wp_bind. apply wp_gets. destruct (String.eqb _ _).
  - apply done_known; [by exists w2|done].
  - rewrite app_nil_r in Ht. apply knows_wp; [apply quiet_failed|exact (knows_known _ _ _ _ _ eq_refl Ht Hk2)].
Qed.

Lemma not_duplicate call s :
  getDuplicateReadOnlyToolCallMessage call s = None ->
  mutating call = true \/ print_of call ∉ completedReadOnlyToolFingerprints s.
Proof.
  unfold getDuplicateReadOnlyToolCallMessage, mutating, print_of.
  destruct (isMutatingCodingToolId _); [by left|]. destruct (negb _) eqn:Eb; [|done].
  intros _. right. apply negb_true_iff, bool_decide_eq_false in Eb. done.
Qed.
Lemma call_knows before manifest call :
  keeps (fun '(s, w) => knows before s w) (call_tool P context manifest call).
Proof.
  unfold call_tool. do 4 (apply keeps_bind; [apply quiet_keeps; walk_quiet|intros ?]).
  apply keeps_bind; [apply quiet_keeps, quiet_cancellation|intros []]; [apply keeps_ret|].
  apply wp_keeps. intros [s w] Hk. rewrite wp_bind, wp_asks.
  destruct (getDuplicateReadOnlyToolCallMessage call s) as [message|] eqn:Ed.
  { apply (knows_wp _ before); [|done]. apply (quiet_refusals manifest call message). }
  apply not_duplicate in Ed. rewrite wp_bind.
  eapply wp_mono; [apply wp_quiet, quiet_budget| |by intros e [s' w'] [? ?]; eapply knows_known].
  intros over [s1 w1] [Hs1 Hw1]. assert (Hk1 : knows before s1 w1) by by eapply knows_known.
  destruct over; [by apply wp_ret|]. apply wp_try_catch.
  eapply wp_mono; [apply attempt_knows; [exact Hk1|]|done|].
  - by injection Hs1 as -> _ _.
  - intros e [s2 w2] Hk2. apply (knows_wp _ before); [apply quiet_threw|done].
Qed.

Lemma calls_know before manifest calls :
  keeps (fun '(s, w) => knows before s w) (call_tools P context manifest calls).
Proof.
  induction calls as [|call calls IH]; cbn [call_tools]; [apply keeps_ret|].
  apply keeps_bind; [apply call_knows|intros [r|reason]]; [|apply keeps_ret].
  apply keeps_bind; [apply IH|intros [results|reason]]; apply keeps_ret.
Qed.
Lemma step_knows before manifest explicit step :
  keeps (fun '(s, w) => knows before s w) (one_step P config context manifest explicit step).
Proof.
  unfold one_step. do 2 (apply keeps_bind; [apply quiet_keeps; walk_quiet|intros ?]).
  apply keeps_bind; [apply quiet_keeps, quiet_cancellation|intros []]; [apply keeps_ret|].
  apply keeps_bind; [apply quiet_keeps, quiet_budget|intros []]; [apply keeps_ret|].
  do 2 (apply keeps_bind; [apply quiet_keeps; walk_quiet|intros ?]).
  apply keeps_bind; [apply quiet_keeps; walk_quiet; apply quiet_attempts|intros [response|]]; [|apply keeps_ret].
  unfold after_response. do 2 (apply keeps_bind; [apply quiet_keeps; walk_quiet|intros ?]).
  destruct (default [] (rp_toolCalls response)) as [|call calls]; [apply quiet_keeps; walk_quiet|].
  apply keeps_bind; [apply quiet_keeps; walk_quiet|intros _].
  apply keeps_bind; [apply calls_know|intros outcome]. apply quiet_keeps. unfold after_tools. walk_quiet.
Qed.
Lemma steps_know before manifest explicit left : forall step,
  keeps (fun '(s, w) => knows before s w) (run_steps P config context manifest explicit step left).
Proof.
  induction left as [|left IH]; intros step; cbn [run_steps]; [apply keeps_ret|].
  apply keeps_bind; [apply step_knows|intros [reason|]]; [apply keeps_ret|apply IH].
Qed.

(** C37. However a run ends, by a result or an exception, the calls completed during
    it are all the loop has counted: the completed mutations, and the completed
    reads, no two of which have the same fingerprint - a read that completed once
    is never executed again. *)
Theorem reads_not_repeated initial s w :
  exists h, let '(s', w') := snd (execute P config context initial (s, w)) in
    history w' = history w ++ h /\ NoDup (reads h) /\ completedReadOnlyToolFingerprints s' = reads h /\
    completedReadOnlyToolCount s' = Z.of_nat (length (reads h)) /\
    completedMutatingToolCount s' = Z.of_nat (length (List.filter mutating h)).
Proof.
  assert (Hk : wp (execute P config context initial) (fun _ '(s', w') => knows (history w) s' w')
                 (fun _ '(s', w') => knows (history w) s' w') (s, w)).
  { unfold execute. rewrite wp_bind, wp_sets, wp_bind.
    assert (H0' : knows (history w) (reset initial) w) by
      (exists []; rewrite app_nil_r; split_and!; try done; apply NoDup_nil_2).
    eapply wp_mono; [apply wp_quiet; intros ?; apply keeps_lift| |by intros e [s' w'] [? ?]; eapply knows_known].
    intros manifest [s1 w1] [Hs1 Hw1]. assert (H1' : knows (history w) s1 w1) by by eapply knows_known.
    rewrite wp_bind. pose proof (steps_know (history w) manifest (latestTurnRequestsCiLogs initial) (cf_maxSteps config) 0) as Hs.
    eapply wp_mono; [apply (proj1 (wp_keeps _ _) Hs (s1, w1) H1')|by intros reason [s2 w2] H2'; rewrite wp_bind, wp_asks; apply wp_ret|done]. }
  unfold wp in Hk. destruct (execute _ _ _ _ _) as [[] [s' w']]; destruct Hk as (h & ? & ? & ? & ? & ?); by exists h.
Qed.
End History.

(** * Fingerprints *)

Section Fingerprints.
Context `{!JsRuntime}.

Lemma insert_text_entry (f : json -> string) k v l :
  insert_text (k, f v) (map (fun '(k, v) => (k, f v)) l) = map (fun '(k, v) => (k, f v)) (insert_entry (k, v) l).
Proof.
  induction l as [|[k' v'] l IH]; [done|]. cbn. destruct (locale_le k k'); [done|]. cbn. by rewrite IH.
Qed.
Lemma sorted_texts_entries (f : json -> string) l :
  sorted_texts (map (fun '(k, v) => (k, f v)) l) = map (fun '(k, v) => (k, f v)) (sort_entries l).
Proof.
  induction l as [|[k v] l IH]; [done|].
  change (sorted_texts (map (fun '(k, v) => (k, f v)) ((k, v) :: l)))
    with (insert_text (k, f v) (sorted_texts (map (fun '(k, v) => (k, f v)) l))).
  by rewrite IH, insert_text_entry.
Qed.

(** The loop's serialization is the text of the value with its keys sorted. *)
Lemma stableSerialize_stable value : stableSerialize value = JSON_stringify (sortJsonValue value).
Proof.
  induction value as [| | | |l IH|o IH] using json_nested_ind; try done; cbn.
  - do 3 f_equal. rewrite map_map. apply map_ext_in. intros x Hx. rewrite List.Forall_forall in IH. by apply IH.
  - do 3 f_equal. assert (E : map (fun '(k, v) => (k, stableSerialize v)) o =
      map (fun '(k, v) => (k, JSON_stringify v)) (map (fun '(k, v) => (k, sortJsonValue v)) o)).
    { rewrite map_map. apply map_ext_in. intros [k v] Hx. rewrite List.Forall_forall in IH. f_equal. by apply (IH _ Hx). }
    rewrite E, sorted_texts_entries, map_map. apply map_ext. by intros [].
Qed.

(** Two calls of tools whose names have no colon have the same fingerprint
    exactly when they are calls of the same tool whose arguments are equal up to the
    order of the keys of objects, at any depth: the loop refuses no call as a
    duplicate of a different one. *)
Theorem fingerprint_exact name1 name2 args1 args2 :
  has_char ":" name1 = false -> has_char ":" name2 = false ->
  exact_json (JObj args1) = true -> exact_json (JObj args2) = true ->
  buildReadOnlyToolFingerprint name1 args1 = buildReadOnlyToolFingerprint name2 args2 <->
  name1 = name2 /\ sortJsonValue (JObj args1) = sortJsonValue (JObj args2).
Proof.
  intros Hn1 Hn2 Ha1 Ha2. unfold buildReadOnlyToolFingerprint. rewrite !stableSerialize_stable. split.
  - intros E. pose proof (cut_first ":" name1 (JSON_stringify (sortJsonValue (JObj args1))) Hn1) as C1.
    pose proof (cut_first ":" name2 (JSON_stringify (sortJsonValue (JObj args2))) Hn2) as C2.
    change (":" +:+ ?x) with (String ":" x) in E. rewrite E in C1. rewrite C2 in C1. apply (f_equal (fmap snd)) in C1 as Et.
    injection C1 as -> _. split; [done|]. apply stable_inj; [done|done|]. symmetry. exact (inj Some _ _ Et).
  - by intros [-> ->].
Qed.
End Fingerprints.

Module LoopDemo.
#[local] Existing Instance iso_runtime.
#[local] Existing Instance ApprovalsProps.Demo.clock_dates.
(** The metadata of an activity is an object with a [family]. *)
#[local] Instance family_metadata : ActivityMetadata :=
  {| safeParseToolActivityMetadata value := match field "family" (Some value) with Some _ => Some value | None => None end |}.

(** A world of scripted answers of the model, with a record of the calls done *)
Record World : Type := mkWorld { w_script : list LLMTextResponse; w_done : list AgenticLoopToolCall }.
Definition says (text : string) (calls : list AgenticLoopToolCall) : LLMTextResponse :=
  mkResponse (Some [[("type", JStr "visible_text"); ("visibility", JStr "visible"); ("text", JStr text)]]) (Some calls).
Definition calls_tool (id name path : string) : AgenticLoopToolCall := mkToolCall id name [("path", JStr path)].
Definition model (_ : LoopRequest) : ST World loop_error LLMTextResponse := fun w =>
  match w_script w with
  | response :: script => (Ok response, mkWorld script (w_done w))
  | [] => (Err (LoopError "no more answers"), w)
  end.
(** [bash] throws, [write_file] fails, every other tool succeeds. *)
Definition executor (call : AgenticLoopToolCall) : ST World loop_error TaskResult := fun w =>
  if String.eqb (lc_toolName call) "bash" then (Err (LoopError "spawn failed"), w)
  else if String.eqb (lc_toolName call) "write_file" then
    (Ok (mkTaskResult "FAILED" None (Some (mkTaskError "disk full" None))), w)
  else (Ok (mkTaskResult "DONE" (Some (mkOutput "text" None None)) None), mkWorld (w_script w) (w_done w ++ [call])).
Definition quiet_hook : ST World loop_error unit := mret tt.
(** Answers with a call without a name are refused. *)
Definition named (calls : list AgenticLoopToolCall) : bool := forallb (fun call => negb (String.eqb (lc_toolName call) "")) calls.
Definition checked_model (request : LoopRequest) : ST World loop_error LLMTextResponse :=
  response ← model request;
  if named (default [] (rp_toolCalls response)) then mret response else throw (LoopError "call without a name").
Definition ports (ask : LoopRequest -> ST World loop_error LLMTextResponse) (completed : ST World loop_error unit)
    (over : ST World loop_error bool) : LoopPorts World :=
  mkPorts World (fun _ => 1000) (fun _ => "invalid") None (mret false) (Some over) ask (Some executor)
    (fun _ _ _ => throw (LoopError "no executor")) (fun _ => quiet_hook) quiet_hook (fun _ => quiet_hook)
    (fun _ => quiet_hook) (fun _ _ _ => completed) (fun _ _ _ => quiet_hook) (fun _ => quiet_hook).
Definition plain : LoopPorts World := ports checked_model quiet_hook (mret false).
Definition config : AgenticLoopConfig := mkLoopConfig 3 "run1" "s1" "/w" "/a" None.
Definition context : LoopContext :=
  mkContext ["read_file"; "grep"; "bash"; "write_file"; "edit_file"] None None None None.
Definition asked : list CoreMessage := [mkMessage "user" (content_text "hello")].

Definition run (P : LoopPorts World) (script : list LLMTextResponse) : res loop_error AgenticLoopResult * (LoopState * World) :=
  execute P config context asked (reset [], mkWorld script []).
Definition script : list LLMTextResponse :=
  [says "looking" [calls_tool "c1" "read_file" "a"; calls_tool "c2" "bash" "x"; calls_tool "c3" "read_file" "a"];
   says "" [calls_tool "c4" "write_file" "b"]].

(** A read is done once, the same read is refused, a tool that throws and one that
    fails are reported, and the failed write ends the run. *)
Example script_runs :
  match run plain script with
  | (Ok result, (s, w)) =>
      ar_stopReason result = tool_error /\ stepsExecuted s = 2 /\ toolExecutionCount s = 4 /\ failedToolCount s = 3 /\
      completedReadOnlyToolCount s = 1 /\ map lc_id (w_done w) = ["c1"] /\
      map msg_role (lp_messages s) = ["user"; "assistant"; "tool"; "assistant"; "tool"]
  | _ => False
  end.
Proof. vm_compute. repeat split. Qed.

Lemma loop_transcript_witness :
  exists result s' w', run plain script = (Ok result, (s', w')) /\
    transcript 3 asked (ar_stopReason result) (ar_loop result).
Proof.
  eexists _, _, _. split; [vm_compute; reflexivity|].
  eapply (loop_transcript plain config context asked (reset []) (mkWorld script [])). vm_compute. reflexivity.
Defined.

#[local] Instance plain_returns : HooksReturn plain.
Proof.
  split; try done.
  - intros hook w e [= <-]. done.
  - intros request w response. cbn. unfold checked_model, mbind, ST_bind.
    destruct (model request w) as [[r|e] w'] eqn:Em; [|done].
    destruct (named (default [] (rp_toolCalls r))) eqn:En; [|done]. intros [= ->].
    unfold named in En. rewrite forallb_forall in En. apply Forall_forall. intros call Hc%list_elem_of_In.
    apply En in Hc. by apply negb_true_iff, String.eqb_neq in Hc.
Qed.
Lemma tools_accounted_witness :
  match run plain script with
  | (Ok result, (s', _)) => s' = ar_loop result /\ account (Some (ar_stopReason result)) s'
  | (Err error, (s', _)) => model_thrown plain error s'
  end.
Proof. apply (tools_accounted plain config context asked). repeat split; discriminate. Defined.

#[local] Instance plain_recorded : Recorded plain w_done.
Proof.
  split; try done.
  - intros call w. cbn. unfold executor. destruct (String.eqb _ "bash"); [done|].
    destruct (String.eqb _ "write_file"); cbn; [by rewrite app_nil_r|done].
  - intros hook [= <-] w. done.
  - intros request w. cbn. unfold checked_model, mbind, ST_bind. unfold model. destruct (w_script w) as [|r l]; [done|].
    by destruct (named _).
Qed.
Lemma reads_not_repeated_witness :
  exists h, let '(s', w') := snd (run plain script) in
    w_done w' = h /\ NoDup (reads h) /\ completedReadOnlyToolFingerprints s' = reads h /\
    completedReadOnlyToolCount s' = Z.of_nat (length (reads h)) /\
    completedMutatingToolCount s' = Z.of_nat (length (List.filter mutating h)).
Proof. exact (reads_not_repeated plain config context w_done asked (reset []) (mkWorld script [])). Defined.

Lemma fingerprint_exact_witness :
  buildReadOnlyToolFingerprint "grep" [("path", JStr "a"); ("pattern", JStr "b")] =
  buildReadOnlyToolFingerprint "grep" [("pattern", JStr "b"); ("path", JStr "a")].
Proof. apply (fingerprint_exact "grep" "grep"); by vm_compute. Defined.

(** A completed mutation whose [onToolCompleted] throws is counted as failed too,
    and reported to the model as an error. *)
Example completed_and_failed :
  match run (ports checked_model (throw (LoopError "feed is down")) (mret false))
          [says "" [calls_tool "c1" "edit_file" "a"]] with
  | (Ok result, (s, w)) =>
      ar_stopReason result = tool_error /\ toolExecutionCount s = 1 /\ completedMutatingToolCount s = 1 /\
      failedToolCount s = 1 /\ map lc_id (w_done w) = ["c1"] /\ map le_status (toolLifecycle s) =
      [ls_requested; ls_started; ls_completed; ls_failed]
  | _ => False
  end.
Proof. vm_compute. repeat split. Qed.

(** A call without a name is counted as failed twice. *)
Example unnamed_counted_twice :
  match run (ports model quiet_hook (mret false)) [says "" [calls_tool "c1" "" "a"]; says "end" []] with
  | (Ok result, (s, _)) => toolExecutionCount s = 1 /\ failedToolCount s = 2
  | _ => False
  end.
Proof. vm_compute. repeat split. Qed.

(** A tool named like a property of [Object.prototype] passes for an available one. *)
Example inherited_tool :
  has_tool (cx_tools context) "constructor" = true /\
  match run plain [says "" [calls_tool "c1" "constructor" "a"]; says "end" []] with
  | (Ok _, (s, w)) => map lc_id (w_done w) = ["c1"] /\ completedReadOnlyToolCount s = 1
  | _ => False
  end.
Proof. vm_compute. repeat split. Qed.

(** When the budget runs out in the middle of a batch, the results of the calls
    already done are dropped: the edit is done and its call stays unanswered. *)
Example batch_results_dropped :
  match run (ports checked_model quiet_hook (fun w => (Ok (negb (bool_decide (w_done w = []))), w)))
          [says "" [calls_tool "c1" "edit_file" "a"; calls_tool "c2" "edit_file" "b"]] with
  | (Ok result, (s, w)) =>
      ar_stopReason result = budget_exceeded /\ completedMutatingToolCount s = 1 /\
      map msg_role (lp_messages s) = ["user"; "assistant"]
  | _ => False
  end.
Proof. vm_compute. repeat split. Qed.

(** The loop gives the policy the metadata of the activity where it expects the
    metadata of the result, so that the error text of a command is not looked at. *)
Definition scope_error : json :=
  JObj [("activity", JObj [("family", JStr "shell"); ("command", JStr "git push");
                           ("stderr", JStr "Resource not accessible by integration")])].
Example activity_read_twice :
  isTerminalToolFailure "bash" "Command failed" None (Some scope_error) = true /\
  isTerminalToolFailure "bash" "Command failed" None (extractToolActivityMetadata (Some scope_error)) = false.
Proof. vm_compute. split; reflexivity. Qed.
End LoopDemo.
