(* ===== verification/ContextAssembly.v ===== *)
(** The context handed to a model: [packages/context-assembly-runtime/src] (the
    builder, its budget, its counter, the assemblers and formatters) and
    [packages/context-pruner/src/index.ts]. *)
From S2P Require Import Prelude Js Text Approvals ApprovalsProps AgenticLoop.
From Stdlib Require Import Ascii.
#[local] Open Scope Z_scope.

(** * TokenCounter.ts and TokenBudget.ts *)

Inductive assembly_error : Type :=
| BadCharsPerToken (charsPerToken : Z)
| SystemPromptTooLong
| InvalidStrategy (strategy : string)
| InvalidDate.

(** The number is a whole one. *)
Definition new_TokenCounter (charsPerToken : Z) : res assembly_error Z :=
  if charsPerToken <=? 0 then Err (BadCharsPerToken charsPerToken) else Ok charsPerToken.
(** [Math.ceil(text.length / this.charsPerToken)] *)
Definition count (charsPerToken : Z) (text : string) : Z := (str_length text + charsPerToken - 1) / charsPerToken.
Definition sum_of {A} (f : A -> Z) (l : list A) : Z := foldl (fun total x => total + f x) 0 l.
Definition countBatch (charsPerToken : Z) (texts : list string) : Z := sum_of (count charsPerToken) texts.

Record TokenBudget : Type := mkBudget { bt_total : Z; bt_used : Z }.
Definition new_TokenBudget (total : Z) : TokenBudget := mkBudget total 0.
Definition remaining (b : TokenBudget) : Z := Z.max 0 (bt_total b - bt_used b).
Definition allocate (amount : Z) (b : TokenBudget) : bool * TokenBudget :=
  if amount <=? 0 then (true, b)
  else if bt_total b <? bt_used b + amount then (false, b)
  else (true, mkBudget (bt_total b) (bt_used b + amount)).
Definition forceAllocate (amount : Z) (b : TokenBudget) : TokenBudget :=
  mkBudget (bt_total b) (bt_used b + Z.max 0 amount).

(** * The input *)

Record FileDescriptor : Type := mkFile { fd_path : string; fd_language : option string; fd_content : option string }.
Record GitDiff : Type := mkDiff {
  gd_file : string;
  gd_patch : string;
  gd_changeType : option string;
  gd_additions : option Z;
  gd_deletions : option Z;
}.
Record RepoSnapshot : Type := mkRepo { rs_files : list FileDescriptor; rs_diffs : option (list GitDiff) }.
Record MemoryChunk : Type := mkChunk { mc_content : string; mc_importance : option jsnum; mc_source : option string }.
Record MemorySnapshot : Type := mkMemory {
  ms_summaries : option (list MemoryChunk);
  ms_pinned : option (list MemoryChunk);
  ms_recent : option (list MemoryChunk);
}.
Inductive EventPayload : Type :=
| tool_call_payload (toolName toolCallId : string) (args : JsonRecord)
| tool_error_payload (toolName toolCallId error : string) (retryable : bool)
| tool_result_payload (toolName toolCallId : string) (result : json) (durationMs : jsnum)
| execution_result_payload (success : bool) (output error : option string) (exitCode : option Z)
| other_payload (type : string) (payload : json).
Record RuntimeEvent : Type := mkRuntimeEvent { rv_timestamp : Z; rv_eventId : option string; rv_payload : EventPayload }.
Record AgentDescriptor : Type := mkAgent { ag_role : string; ag_capabilities : list string }.
Record ContextConstraints : Type := mkConstraints {
  cc_maxTokens : Z;
  cc_strategy : string;
  cc_bufferPercentage : option Z;
}.
Record ToolDescriptor : Type := mkTool {
  td_name : string;
  td_description : string;
  td_schema : option json;
  td_requiredCapabilities : option (list string);
}.
Record ContextBuildInput : Type := mkBuildInput {
  ci_goal : string;
  ci_agent : AgentDescriptor;
  ci_repo : option RepoSnapshot;
  ci_memory : option MemorySnapshot;
  ci_recentEvents : option (list RuntimeEvent);
  ci_constraints : ContextConstraints;
}.
Record MessageMetadata : Type := mkMetadata { md_source : option string; md_priority : option jsnum }.
Record ContextMessage : Type := mkContextMessage { cm_role : string; cm_content : string; cm_metadata : option MessageMetadata }.

(** * The formatters *)

Definition newline : string := String LF "".
Definition blank_line : string := newline +:+ newline.
Definition formatFile (includePath includeLanguage : bool) (file : FileDescriptor) : string :=
  Js.join newline
    ((if includePath then ["--- File: " +:+ fd_path file +:+ " ---"] else []) ++
     (match truthy (fd_language file) with
      | Some language => if includeLanguage then ["Language: " +:+ language] else []
      | None => []
      end) ++
     (match truthy (fd_content file) with Some content => [content] | None => [] end)).
Definition formatFiles (includePath includeLanguage : bool) (files : list FileDescriptor) : string :=
  Js.join blank_line (map (formatFile includePath includeLanguage) files).
Definition diff_stats (diff : GitDiff) : list string :=
  (match gd_additions diff with Some n => ["+" +:+ Number_toString n] | None => [] end) ++
  (match gd_deletions diff with Some n => ["-" +:+ Number_toString n] | None => [] end).
Definition formatDiff (includeStats : bool) (diff : GitDiff) : string :=
  Js.join newline
    (["--- Diff: " +:+ gd_file diff +:+ " ---"] ++
     (match diff_stats diff with
      | [] => []
      | stats => if includeStats then ["Stats: " +:+ Js.join " " stats] else []
      end) ++
     (match truthy (gd_changeType diff) with Some type => ["Type: " +:+ type] | None => [] end) ++
     [gd_patch diff]).
Definition formatDiffs (includeStats : bool) (diffs : list GitDiff) : string :=
  Js.join blank_line (map (formatDiff includeStats) diffs).

Section Assembly.
Context `{!JsRuntime, !IsoDates}.

Definition bool_text (b : bool) : string := if b then "true" else "false".
Definition event_type (payload : EventPayload) : string :=
  match payload with
  | tool_call_payload _ _ _ => "tool_call"
  | tool_error_payload _ _ _ _ => "tool_error"
  | tool_result_payload _ _ _ _ => "tool_result"
  | execution_result_payload _ _ _ _ => "execution_result"
  | other_payload type _ => type
  end.
Definition labelled (label : string) (value : option string) : list string :=
  match truthy value with Some s => [label +:+ s] | None => [] end.
Definition payload_lines (payload : EventPayload) : list string :=
  match payload with
  | tool_call_payload toolName toolCallId args =>
      ["Tool: " +:+ toolName; "CallID: " +:+ toolCallId; "Args: " +:+ JSON_stringify (JObj args)]
  | tool_error_payload toolName toolCallId error retryable =>
      ["Tool: " +:+ toolName; "CallID: " +:+ toolCallId; "Error: " +:+ error; "Retryable: " +:+ bool_text retryable]
  | tool_result_payload toolName toolCallId result durationMs =>
      ["Tool: " +:+ toolName; "CallID: " +:+ toolCallId; "Duration: " +:+ num_toString durationMs +:+ "ms";
       "Result: " +:+ JSON_stringify result]
  | execution_result_payload success output error exitCode =>
      ["Success: " +:+ bool_text success] ++ labelled "Output: " output ++ labelled "Error: " error ++
      (match exitCode with Some n => ["ExitCode: " +:+ Number_toString n] | None => [] end)
  | other_payload _ payload => ["Payload: " +:+ JSON_stringify payload]
  end.
Definition formatEvent (includeTimestamp includeEventId : bool) (event : RuntimeEvent) : res assembly_error string :=
  if includeTimestamp && negb (valid_time (rv_timestamp event)) then Err InvalidDate
  else Ok (Js.join newline
    (["[" +:+ event_type (rv_payload event) +:+ "]"] ++
     (if includeTimestamp then ["Time: " +:+ toISOString (rv_timestamp event)] else []) ++
     (if includeEventId then labelled "EventID: " (rv_eventId event) else []) ++
     payload_lines (rv_payload event))).
Definition formatEvents (includeTimestamp includeEventId : bool) (events : list RuntimeEvent)
    : res assembly_error string :=
  texts ← res_map (formatEvent includeTimestamp includeEventId) events; Ok (Js.join blank_line texts).

(** * The assemblers *)

Definition from_source (content otherwise source : string) : ContextMessage :=
  mkContextMessage "user" (default otherwise (truthy (Some content))) (Some (mkMetadata (Some source) None)).
Definition assembleDiffs (diffs : list GitDiff) : ContextMessage :=
  from_source (formatDiffs true diffs) "No diffs to display." "diffs".
Definition assembleEvents (events : list RuntimeEvent) : res assembly_error ContextMessage :=
  content ← formatEvents true false events; Ok (from_source content "No recent events." "events").
Definition assembleRepo (repo : RepoSnapshot) : ContextMessage :=
  from_source (formatFiles true true (rs_files repo)) "No files in repository." "repo".
Definition chunk_message (chunk : MemoryChunk) : ContextMessage :=
  mkContextMessage "user" (mc_content chunk)
    (match mc_source chunk, mc_importance chunk with
     | None, None => None
     | source, importance => Some (mkMetadata source importance)
     end).
Definition assembleHistory (memory : MemorySnapshot) : list ContextMessage :=
  map chunk_message (default [] (ms_pinned memory) ++ default [] (ms_summaries memory) ++ default [] (ms_recent memory)).
Definition assembleSystem (agent : AgentDescriptor) (tools : list ToolDescriptor) (goal : string) : string :=
  Js.join newline
    (["# System Instructions"; ""; "You are an AI assistant with the following role: " +:+ ag_role agent; ""] ++
     (match ag_capabilities agent with
      | [] => []
      | capabilities => ["## Capabilities"] ++ map (fun c => "- " +:+ c) capabilities ++ [""]
      end) ++
     (if String.eqb goal "" then [] else ["## Current Goal"; goal; ""]) ++
     (match tools with
      | [] => []
      | _ => ["## Available Tools"] ++ map (fun t => "- " +:+ td_name t +:+ ": " +:+ td_description t) tools ++ [""]
      end)).

(** * ContextBuilder.ts *)

Record TokenBreakdown : Type := mkBreakdown {
  bd_system : Z;
  bd_messages : Z;
  bd_tools : Z;
  bd_overhead : Z;
  bd_total : Z;
  bd_remaining : Z;
}.
Record ContextBundle : Type := mkBundle {
  cb_system : string;
  cb_messages : list ContextMessage;
  cb_tools : list ToolDescriptor;
  cb_tokenEstimate : Z;
  cb_includedFiles : list string;
  cb_excludedFiles : list string;
  cb_breakdown : TokenBreakdown;
  cb_strategyUsed : string;
}.
(** [ContextBuilder], its counter given by the characters per token *)
Record ContextBuilder : Type := mkBuilder { cb_charsPerToken : Z; cb_availableTools : list ToolDescriptor }.
Definition new_ContextBuilder (tools : list ToolDescriptor) (charsPerToken : Z) : res assembly_error ContextBuilder :=
  c ← new_TokenCounter charsPerToken; Ok (mkBuilder c tools).

Definition json_truthy (value : option json) : bool :=
  match value with
  | None | Some JNull => false
  | Some (JBool b) => b
  | Some (JNum (NInt n)) => negb (n =? 0)
  | Some (JNum (NFrac _)) => true
  | Some (JStr s) => negb (String.eqb s "")
  | Some (JArr _) | Some (JObj _) => true
  end.

Section Builder.
Variables (builder : ContextBuilder) (input : ContextBuildInput).
Definition tokens (text : string) : Z := count (cb_charsPerToken builder) text.

Definition buildSystemPrompt : string := assembleSystem (ci_agent input) (cb_availableTools builder) (ci_goal input).
Definition filterTools : list ToolDescriptor :=
  List.filter (fun tool =>
    match td_requiredCapabilities tool with
    | None => true
    | Some required => forallb (fun cap => bool_decide (cap ∈ ag_capabilities (ci_agent input))) required
    end) (cb_availableTools builder).
Definition countMessages (messages : list ContextMessage) : Z := sum_of (fun msg => tokens (cm_content msg)) messages.
Definition countTools (tools : list ToolDescriptor) : Z :=
  sum_of (fun tool => tokens (td_name tool) + tokens (td_description tool) +
    (if json_truthy (td_schema tool) then tokens (from_option JSON_stringify "" (td_schema tool)) else 0)) tools.
Definition calculateBuffer : Z :=
  match cc_bufferPercentage (ci_constraints input) with
  | None => 0
  | Some percentage =>
      if percentage =? 0 then 0 else (cc_maxTokens (ci_constraints input) * percentage) / 100
  end.

(** What [build] has assembled so far: the budget and the messages *)
Definition Assembly : Type := TokenBudget * list ContextMessage.
(** [if (budget.allocate(tokens)) messages.push(...added)] *)
Definition add_section (added : list ContextMessage) (amount : Z) (a : Assembly) : bool * Assembly :=
  let '(fits, budget) := allocate amount (fst a) in
  (fits, (budget, if fits then snd a ++ added else snd a)).
Definition add_message (message : ContextMessage) (a : Assembly) : bool * Assembly :=
  add_section [message] (tokens (cm_content message)) a.
Definition add_history (a : Assembly) : Assembly :=
  match ci_memory input with
  | None => a
  | Some memory => let messages := assembleHistory memory in snd (add_section messages (countMessages messages) a)
  end.
(** The files included and excluded, and the rest *)
Definition add_repo (a : Assembly) : (list string * list string) * Assembly :=
  match ci_repo input with
  | None => (([], []), a)
  | Some repo =>
      let paths := map fd_path (rs_files repo) in
      let '(fits, a') := add_message (assembleRepo repo) a in
      (if fits then (paths, []) else ([], paths), a')
  end.
Definition add_diffs (a : Assembly) : Assembly :=
  match repo ← ci_repo input; rs_diffs repo with
  | None | Some [] => a
  | Some diffs => snd (add_message (assembleDiffs diffs) a)
  end.
Definition add_events (a : Assembly) : res assembly_error Assembly :=
  match ci_recentEvents input with
  | None | Some [] => Ok a
  | Some events => message ← assembleEvents events; Ok (snd (add_message message a))
  end.
Definition OVERHEAD_TOKENS : Z := 50.
Definition buildTokenBreakdown (systemTokens : Z) (messages : list ContextMessage) (tools : list ToolDescriptor)
    (budget : TokenBudget) : TokenBreakdown :=
  mkBreakdown systemTokens (countMessages messages) (countTools tools) OVERHEAD_TOKENS
    (bt_used budget + OVERHEAD_TOKENS) (remaining budget).
(** [assembledAt] is left out. *)
Definition build : res assembly_error ContextBundle :=
  let budget := forceAllocate calculateBuffer (new_TokenBudget (cc_maxTokens (ci_constraints input))) in
  let systemPrompt := buildSystemPrompt in
  let systemTokens := tokens systemPrompt in
  let '(fits, budget) := allocate systemTokens budget in
  if negb fits then Err SystemPromptTooLong else
  let a := add_history (budget, []) in
  let '((includedFiles, excludedFiles), a) := add_repo a in
  let a := add_diffs a in
  a ← add_events a;
  let '(budget, messages) := a in
  let filteredTools := filterTools in
  let budget := forceAllocate (countTools filteredTools) budget in
  let breakdown := buildTokenBreakdown systemTokens messages filteredTools budget in
  let strategy := cc_strategy (ci_constraints input) in
  if negb (bool_decide (strategy ∈ ["greedy"; "balanced"; "conservative"])) then Err (InvalidStrategy strategy)
  else Ok (mkBundle systemPrompt messages filteredTools (bd_total breakdown) includedFiles excludedFiles breakdown strategy).
End Builder.
End Assembly.

(** * context-pruner *)

Definition pruned_list (result : string) : string :=
  let fileCount := length (List.filter (fun line => negb (String.eqb line "")) (split_on LF result)) in
  "[Summary: " +:+ Number_toString (Z.of_nat fileCount) +:+
  " files/directories found. Output truncated to save context.]".
(** [text.substring(0, n) + marker + text.substring(text.length - n)] *)
Definition keep_ends (n : nat) (marker text : string) : string :=
  slice 0 n text +:+ marker +:+ slice_from (String.length text - n) text.
Definition file_marker : string :=
  blank_line +:+ "... [CONTENT TRUNCATED FOR BREVITY] ..." +:+ blank_line.
Definition output_marker : string := newline +:+ "... [STDOUT TRUNCATED] ..." +:+ newline.
Definition prune_output (fields : JsonRecord) : JsonRecord :=
  match dget "output" fields with
  | Some (JStr output) =>
      if (1000 <? String.length output)%nat then dset "output" (JStr (keep_ends 500 output_marker output)) fields
      else fields
  | _ => fields
  end.
(** The result of a part of the message returned *)
Definition prune_result (toolName : string) (result : json) : json :=
  match result with
  | JStr text =>
      if String.eqb toolName "list_files" && (500 <? String.length text)%nat then JStr (pruned_list text)
      else if String.eqb toolName "read_file" && (2000 <? String.length text)%nat
      then JStr (keep_ends 1000 file_marker text)
      else result
  | JObj fields => if String.eqb toolName "bash" then JObj (prune_output fields) else result
  | _ => result
  end.
Definition map_results (f : string -> json -> json) (message : CoreMessage) : CoreMessage :=
  match msg_content message with
  | content_parts parts =>
      if String.eqb (msg_role message) "tool" then
        mkMessage (msg_role message) (content_parts (map (fun part =>
          match part with
          | part_tool_result id toolName result isError => part_tool_result id toolName (f toolName result) isError
          | _ => part
          end) parts))
      else message
  | content_text _ => message
  end.
Definition pruneToolResults (messages : option (list CoreMessage)) : list CoreMessage :=
  map (map_results prune_result) (default [] messages).
(** The argument after the call: the output of [bash] is cut in the object that the
    caller's message and the new one share. *)
Definition shared_result (toolName : string) (result : json) : json :=
  match result with
  | JObj fields => if String.eqb toolName "bash" then JObj (prune_output fields) else result
  | _ => result
  end.
Definition pruned_argument (messages : list CoreMessage) : list CoreMessage := map (map_results shared_result) messages.

(** The context handed to a model stays within its budget, and pruning tool
    results is bounded and done once. *)

(** * Sums and counts *)

Lemma foldl_sum {A} (f : A -> Z) l n : foldl (fun total x => total + f x) n l = n + sum_of f l.
Proof.
  unfold sum_of. revert n. induction l as [|x l IH]; intros n; cbn [foldl]; [lia|].
  rewrite (IH (n + f x)), (IH (0 + f x)). lia.
Qed.
Lemma sum_of_cons {A} (f : A -> Z) x l : sum_of f (x :: l) = f x + sum_of f l.
Proof. unfold sum_of at 1. cbn [foldl]. rewrite foldl_sum. lia. Qed.
Lemma sum_of_app {A} (f : A -> Z) a b : sum_of f (a ++ b) = sum_of f a + sum_of f b.
Proof. induction a as [|x a IH]; [done|]. cbn [app]. rewrite !sum_of_cons, IH. lia. Qed.
Lemma sum_of_nonneg {A} (f : A -> Z) l : (forall x, 0 <= f x) -> 0 <= sum_of f l.
Proof. intros Hf. induction l as [|x l IH]; [done|]. rewrite sum_of_cons. specialize (Hf x). lia. Qed.

Lemma tokens_count_nonneg c text : 0 < c -> 0 <= count c text.
Proof. intros Hc. unfold count, str_length. apply Z.div_pos; lia. Qed.
Lemma count_positive c text : 0 < c -> text <> "" -> 0 < count c text.
Proof.
  intros Hc Ht. unfold count, str_length. apply Z.div_str_pos. destruct text; [done|]. cbn [String.length]. lia.
Qed.

(** * The budget *)

Lemma allocate_spec amount b :
  0 <= amount ->
  let '(fits, b') := allocate amount b in
  bt_total b' = bt_total b /\
  (fits = true -> bt_used b' = bt_used b + amount /\ (bt_used b <= bt_total b -> bt_used b' <= bt_total b)) /\
  (fits = false -> bt_used b' = bt_used b /\ bt_total b < bt_used b + amount).
Proof.
  intros Ha. unfold allocate. destruct (Z.leb_spec amount 0) as [H0|H0].
  { split; [done|]. split; [intros _; split; lia|done]. }
  destruct (Z.ltb_spec (bt_total b) (bt_used b + amount)) as [H1|H1]; cbn.
  - split; [done|]. split; [done|intros _; by split].
  - split; [done|]. split; [intros _; split; lia|done].
Qed.

Section Budget.
Context `{!JsRuntime, !IsoDates}.
Variables (builder : ContextBuilder) (input : ContextBuildInput).
Hypothesis positive : 0 < cb_charsPerToken builder.

Notation maxTokens := (cc_maxTokens (ci_constraints input)).
Notation messages_tokens := (countMessages builder).

Lemma tokens_nonneg text : 0 <= tokens builder text.
Proof. by apply tokens_count_nonneg. Qed.
Lemma messages_nonneg l : 0 <= messages_tokens l.
Proof. apply sum_of_nonneg. intros x. apply tokens_nonneg. Qed.
Lemma tools_nonneg l : 0 <= countTools builder l.
Proof.
  apply sum_of_nonneg. intros tool. pose proof (tokens_nonneg (td_name tool)).
  pose proof (tokens_nonneg (td_description tool)).
  destruct (json_truthy (td_schema tool)); [pose proof (tokens_nonneg (from_option JSON_stringify "" (td_schema tool)))|]; lia.
Qed.

(** What has been assembled is paid for, beside [fixed], and fits; [offered] are the
    messages there were so far, of which none is missing when all fit. *)
Definition paid (fixed : Z) (offered : list ContextMessage) (a : Assembly) : Prop :=
  bt_total (fst a) = maxTokens /\
  bt_used (fst a) = fixed + messages_tokens (snd a) /\
  bt_used (fst a) <= maxTokens /\
  (fixed + messages_tokens offered <= maxTokens -> snd a = offered).

Lemma section_paid fixed offered added a :
  paid fixed offered a -> 
  let '(fits, a') := add_section added (messages_tokens added) a in
  paid fixed (offered ++ added) a' /\ (fits = false -> fixed + messages_tokens (offered ++ added) > maxTokens).
Proof.
  intros (Ht & Hu & Hle & Hall). unfold add_section.
  pose proof (allocate_spec (messages_tokens added) (fst a) (messages_nonneg added)) as Hspec.
  destruct (allocate _ (fst a)) as [fits b]. destruct Hspec as (Hb & Hyes & Hno). unfold countMessages in *.
  rewrite sum_of_app. pose proof (messages_nonneg added) as Hn. unfold countMessages in Hn.
  pose proof (messages_nonneg (snd a)) as Hm. unfold countMessages in Hm.
  destruct fits.
  - destruct (Hyes eq_refl) as [Hub Hfit]. split; [|done]. unfold paid, countMessages. cbn [fst snd].
    rewrite !sum_of_app. split_and!; [congruence|lia|lia|]. intros Hf. rewrite Hall; [done|lia].
  - destruct (Hno eq_refl) as [Hub Hover]. assert (Hgt : fixed + (sum_of (fun msg => tokens builder (cm_content msg)) offered +
      sum_of (fun msg => tokens builder (cm_content msg)) added) > maxTokens).
    { destruct (Z.le_gt_cases (fixed + sum_of (fun msg => tokens builder (cm_content msg)) offered) maxTokens) as [Hl|Hl];
        [|lia]. rewrite <- (Hall Hl). lia. }
    split; [|lia]. unfold paid, countMessages. cbn [fst snd]. rewrite !sum_of_app. split_and!; [congruence|lia|lia|lia].
Qed.

(** All the messages there are for the input, in order *)
Definition offered_history : list ContextMessage := from_option assembleHistory [] (ci_memory input).
Definition offered_repo : list ContextMessage := from_option (fun repo => [assembleRepo repo]) [] (ci_repo input).
Definition offered_diffs : list ContextMessage :=
  match repo ← ci_repo input; rs_diffs repo with None | Some [] => [] | Some diffs => [assembleDiffs diffs] end.
Definition offered_events : list ContextMessage :=
  match ci_recentEvents input with
  | None | Some [] => []
  | Some events => match assembleEvents events with Ok message => [message] | Err _ => [] end
  end.
Definition offered : list ContextMessage := offered_history ++ offered_repo ++ offered_diffs ++ offered_events.

Lemma message_tokens message : messages_tokens [message] = tokens builder (cm_content message).
Proof. unfold countMessages. by rewrite sum_of_cons, Z.add_0_r. Qed.
Lemma message_paid fixed l message a :
  paid fixed l a ->
  let '(fits, a') := add_message builder message a in
  paid fixed (l ++ [message]) a' /\ (fits = false -> fixed + messages_tokens (l ++ [message]) > maxTokens).
Proof. intros Hp. unfold add_message. rewrite <- message_tokens. by apply section_paid. Qed.

Lemma history_paid fixed a : paid fixed [] a -> paid fixed offered_history (add_history builder input a).
Proof.
  intros Hp. unfold add_history, offered_history. destruct (ci_memory input) as [memory|]; [|done]. cbn [from_option].
  pose proof (section_paid fixed [] (assembleHistory memory) a Hp) as Hs.
  destruct (add_section _ _ a) as [fits a']. cbn [snd]. tauto.
Qed.
Lemma repo_paid fixed l a :
  paid fixed l a -> paid fixed (l ++ offered_repo) (snd (add_repo builder input a)).
Proof.
  intros Hp. unfold add_repo, offered_repo. destruct (ci_repo input) as [repo|]; cbn [from_option snd]; [|by rewrite app_nil_r].
  pose proof (message_paid fixed l (assembleRepo repo) a Hp) as Hs.
  destruct (add_message _ _ a) as [fits a']. by destruct Hs.
Qed.
Lemma diffs_paid fixed l a : paid fixed l a -> paid fixed (l ++ offered_diffs) (add_diffs builder input a).
Proof.
  intros Hp. unfold add_diffs, offered_diffs.
  destruct (ci_repo input ≫= rs_diffs) as [[|d diffs]|]; rewrite ?app_nil_r; try done.
  pose proof (message_paid fixed l (assembleDiffs (d :: diffs)) a Hp) as Hs.
  destruct (add_message _ _ a) as [fits a']. cbn [snd]. tauto.
Qed.
Lemma events_paid fixed l a a' :
  paid fixed l a -> add_events builder input a = Ok a' -> paid fixed (l ++ offered_events) a'.
Proof.
  intros Hp. unfold add_events, offered_events. destruct (ci_recentEvents input) as [[|e events]|].
  1, 3: intros [= <-]; by rewrite app_nil_r.
  destruct (assembleEvents (e :: events)) as [message|]; [|done]. cbn. intros [= <-].
  pose proof (message_paid fixed l message a Hp) as Hs. destruct (add_message _ _ a) as [fits b]. cbn [snd]. tauto.
Qed.
Lemma system_nonempty : buildSystemPrompt builder input <> "".
Proof. unfold buildSystemPrompt, assembleSystem. destruct (ci_goal input); by cbn. Qed.

Lemma build_paid bundle :
  build builder input = Ok bundle ->
  let fixed := Z.max 0 (calculateBuffer input) + tokens builder (cb_system bundle) in
  let messages := messages_tokens (cb_messages bundle) in
  fixed + messages <= maxTokens /\
  cb_tokenEstimate bundle = fixed + messages + countTools builder (cb_tools bundle) + 50 /\
  (fixed + messages_tokens offered <= maxTokens -> cb_messages bundle = offered).
Proof.
  unfold build. set (budget := forceAllocate _ _). set (prompt := buildSystemPrompt builder input).
  assert (Hprompt : 0 < tokens builder prompt) by (apply count_positive; [done|apply system_nonempty]).
  clearbody prompt.
  pose proof (allocate_spec (tokens builder prompt) budget ltac:(lia)) as Hs.
  unfold allocate in *. destruct (Z.leb_spec (tokens builder prompt) 0); [lia|].
  destruct (Z.ltb_spec (bt_total budget) (bt_used budget + tokens builder prompt)) as [|Hfit]; [done|]. cbn [negb].
  set (a0 := (mkBudget _ _, [])). set (fixed := Z.max 0 (calculateBuffer input) + tokens builder prompt).
  assert (Ha0 : paid fixed [] a0).
  { unfold paid, fixed, messages_tokens. cbn. unfold sum_of. cbn. subst budget. cbn in Hfit |- *.
    split_and!; [done|lia|lia|done]. }
  apply history_paid in Ha0. pose proof (repo_paid fixed _ _ Ha0) as Hr.
  destruct (add_repo builder input _) as [[included excluded] a1]. cbn [snd] in Hr. apply diffs_paid in Hr.
  destruct (add_events builder input _) as [[budget2 messages]|] eqn:Ee; [|done].
  pose proof (events_paid fixed _ _ _ Hr Ee) as He. cbn [mbind res_bind]. destruct (negb _); [done|]. intros [= <-].
  destruct He as (Ht & Hu & Hle & Hall). cbn [fst snd] in Ht, Hu, Hle, Hall.
  cbn [cb_system cb_messages cb_tools cb_tokenEstimate cb_includedFiles cb_excludedFiles bd_total buildTokenBreakdown
       forceAllocate bt_used].
  pose proof (tools_nonneg (filterTools builder input)) as Htools.
  assert (Eoffered : (((offered_history ++ offered_repo) ++ offered_diffs) ++ offered_events) = offered) by
    (unfold offered; by rewrite !app_assoc).
  rewrite Eoffered in Hall. subst fixed. split_and!; [lia|unfold OVERHEAD_TOKENS; lia|done].
Qed.

(** A section is taken into the bundle whole or left out; the files of the repository
    are included exactly when its section is taken. *)
Definition taken (took : bool) (section : list ContextMessage) : list ContextMessage := if took then section else [].
Definition repo_files (took : bool) : list string * list string :=
  let paths := from_option (fun repo => map fd_path (rs_files repo)) [] (ci_repo input) in
  if took then (paths, []) else ([], paths).
Definition sections_taken (messages : list ContextMessage) (files : list string * list string) : Prop :=
  exists history repo diffs events,
    messages = taken history offered_history ++ taken repo offered_repo ++ taken diffs offered_diffs ++
      taken events offered_events /\
    files = repo_files repo.

Lemma section_taken added amount (a : Assembly) :
  let '(fits, a') := add_section added amount a in snd a' = snd a ++ taken fits added.
Proof. unfold add_section. destruct (allocate _ _) as [[] b]; cbn; by rewrite ?app_nil_r. Qed.
Lemma message_taken message (a : Assembly) :
  let '(fits, a') := add_message builder message a in snd a' = snd a ++ taken fits [message].
Proof. apply section_taken. Qed.
Lemma history_taken a : exists took, snd (add_history builder input a) = snd a ++ taken took offered_history.
Proof.
  unfold add_history, offered_history. destruct (ci_memory input) as [memory|]; cbn [from_option].
  - pose proof (section_taken (assembleHistory memory) (messages_tokens (assembleHistory memory)) a) as Hs.
    destruct (add_section _ _ a) as [fits a']. by exists fits.
  - exists false. by rewrite app_nil_r.
Qed.
Lemma repo_taken a :
  exists took, snd (snd (add_repo builder input a)) = snd a ++ taken took offered_repo /\
    fst (add_repo builder input a) = repo_files took.
Proof.
  unfold add_repo, offered_repo, repo_files. destruct (ci_repo input) as [repo|]; cbn [from_option].
  - pose proof (message_taken (assembleRepo repo) a) as Hs. destruct (add_message _ _ a) as [fits a'].
    exists fits. split; [done|]. by destruct fits.
  - exists false. cbn. by rewrite app_nil_r.
Qed.
Lemma diffs_taken a : exists took, snd (add_diffs builder input a) = snd a ++ taken took offered_diffs.
Proof.
  unfold add_diffs, offered_diffs.
  destruct (ci_repo input ≫= rs_diffs) as [[|d diffs]|]; try (exists false; by rewrite app_nil_r).
  pose proof (message_taken (assembleDiffs (d :: diffs)) a) as Hs. destruct (add_message _ _ a) as [fits a']. by exists fits.
Qed.
Lemma events_taken a a' :
  add_events builder input a = Ok a' -> exists took, snd a' = snd a ++ taken took offered_events.
Proof.
  unfold add_events, offered_events. destruct (ci_recentEvents input) as [[|e events]|].
  1, 3: intros [= <-]; exists false; by rewrite app_nil_r.
  destruct (assembleEvents (e :: events)) as [message|]; [|done]. cbn. intros [= <-].
  pose proof (message_taken message a) as Hs. destruct (add_message _ _ a) as [fits b]. by exists fits.
Qed.
Lemma build_taken bundle :
  build builder input = Ok bundle ->
  sections_taken (cb_messages bundle) (cb_includedFiles bundle, cb_excludedFiles bundle).
Proof.
  unfold build. destruct (allocate _ _) as [fits budget]. destruct fits; [|done]. cbn [negb].
  destruct (history_taken (budget, [])) as [history Hhistory].
  set (a0 := add_history _ _ _) in *. destruct (repo_taken a0) as [repo [Hrepo Hfiles]].
  destruct (add_repo builder input a0) as [[included excluded] a1]. cbn [fst snd] in Hhistory, Hrepo, Hfiles.
  destruct (diffs_taken a1) as [diffs Hdiffs].
  destruct (add_events builder input _) as [[budget2 messages]|] eqn:Ee; [|done].
  destruct (events_taken _ _ Ee) as [events Hevents]. cbn [mbind res_bind]. destruct (negb _); [done|]. intros [= <-].
  exists history, repo, diffs, events. cbn in Hevents |- *. split; [|done].
  by rewrite Hevents, Hdiffs, Hrepo, Hhistory, <- !app_assoc.
Qed.
End Budget.

(** C40. A bundle that is built keeps what it is for within the budget: the reserved
    buffer, the system prompt and all messages together never exceed [maxTokens], and
    no message is left out when all of them fit.  Its messages are the sections of the
    input in their order, each taken whole or left out, and the files of the repository
    are listed as included when the section of the repository is among the messages and
    as excluded when it is not.  The estimate the bundle reports is the sum with the
    tools and 50 tokens on top, which the budget does not cover. *)
Theorem bundle_within_budget `{!JsRuntime, !IsoDates} tools charsPerToken builder input bundle :
  new_ContextBuilder tools charsPerToken = Ok builder -> build builder input = Ok bundle ->
  let fixed := Z.max 0 (calculateBuffer input) + tokens builder (cb_system bundle) in
  let messages := countMessages builder (cb_messages bundle) in
  fixed + messages <= cc_maxTokens (ci_constraints input) /\
  cb_tokenEstimate bundle = fixed + messages + countTools builder (cb_tools bundle) + 50 /\
  (fixed + countMessages builder (offered input) <= cc_maxTokens (ci_constraints input) ->
   cb_messages bundle = offered input) /\
  sections_taken input (cb_messages bundle) (cb_includedFiles bundle, cb_excludedFiles bundle).
Proof.
  intros Hnew Hb.
  destruct (build_paid builder input) with (bundle := bundle) as (Hle & Hestimate & Hall); [|done|].
  2: { split_and!; [done..|]. by apply (build_taken builder). }
  unfold new_ContextBuilder, new_TokenCounter in Hnew. destruct (Z.leb_spec charsPerToken 0); [done|].
  cbn in Hnew. injection Hnew as <-. done.
Qed.

(** * Pruning *)

Lemma substring_prefix (a b : string) : String.substring 0 (String.length a) (a +:+ b) = a.
Proof.
  induction a as [|c a IH]; [by destruct b|].
  cbn [String.length]. rewrite append_cons. cbn [String.substring]. by rewrite IH.
Qed.
Lemma slice_split n s : (n <= String.length s)%nat -> s = slice 0 n s +:+ slice_from n s.
Proof.
  unfold slice, slice_from. rewrite Nat.sub_0_r. revert s. induction n as [|n IH]; intros s Hn.
  - rewrite Nat.sub_0_r. replace (String.substring 0 0 s) with "" by by destruct s. rewrite append_nil_l.
    symmetry. rewrite <- (append_nil_r s) at 2. apply substring_prefix.
  - destruct s as [|c s]; cbn [String.length] in Hn; [lia|].
    cbn [String.length String.substring Nat.sub]. rewrite append_cons. f_equal. apply IH. lia.
Qed.
Lemma slice_length n s : (n <= String.length s)%nat -> String.length (slice 0 n s) = n.
Proof.
  unfold slice. rewrite Nat.sub_0_r. revert s. induction n as [|n IH]; intros s Hn; [by destruct s|].
  destruct s as [|c s]; cbn [String.length] in Hn; [lia|]. cbn. f_equal. apply IH. lia.
Qed.
Lemma slice_from_rest n s : (n <= String.length s)%nat -> String.length (slice_from n s) = (String.length s - n)%nat.
Proof.
  intros Hn. pose proof (f_equal String.length (slice_split n s Hn)) as H. rewrite length_append, slice_length in H by done. lia.
Qed.
Lemma slice_append n a b : String.length a = n -> slice 0 n (a +:+ b) = a.
Proof. intros <-. unfold slice. rewrite Nat.sub_0_r. apply substring_prefix. Qed.

Lemma keep_ends_length n marker text :
  (n <= String.length text)%nat -> String.length (keep_ends n marker text) = (2 * n + String.length marker)%nat.
Proof.
  intros Hn. unfold keep_ends. rewrite !length_append, slice_length by done. rewrite slice_from_rest by lia. lia.
Qed.
Lemma keep_ends_idem n marker text :
  (n <= String.length text)%nat -> keep_ends n marker (keep_ends n marker text) = keep_ends n marker text.
Proof.
  intros Hn. pose proof (keep_ends_length n marker text Hn) as Hl. unfold keep_ends at 1 3.
  set (front := slice 0 n text) in *. set (back := slice_from (String.length text - n) text).
  assert (Ef : String.length front = n) by by apply slice_length.
  assert (E : keep_ends n marker text = front +:+ marker +:+ back) by done. rewrite E.
  rewrite slice_append by done. do 2 f_equal. rewrite <- E, Hl, E, <- append_assoc.
  replace (2 * n + String.length marker - n)%nat with (String.length (front +:+ marker)) by (rewrite length_append; lia).
  apply slice_after_prefix.
Qed.

(** No text is longer than a JavaScript string may be. *)
Definition json_text_ok (result : json) : Prop :=
  match result with JStr text => Z.of_nat (String.length text) <= MAX_SAFE_INTEGER | _ => True end.

Lemma filter_lines_length (p : string -> bool) s : (length (List.filter p (split_on LF s)) <= S (String.length s))%nat.
Proof.
  etrans; [apply List.filter_length_le|]. induction s as [|c s IH]; [done|]. cbn [split_on String.length].
  destruct (Ascii.eqb c LF); cbn [length]; [lia|]. destruct (split_on LF s); cbn [length] in *; lia.
Qed.
Lemma pruned_list_length text :
  Z.of_nat (String.length text) <= MAX_SAFE_INTEGER -> (String.length (pruned_list text) <= 500)%nat.
Proof.
  intros Ht. unfold pruned_list. rewrite !length_append. cbn [String.length].
  set (n := Z.of_nat _). assert (Hn : 0 <= n < 10 ^ Z.of_nat 17).
  { pose proof (filter_lines_length (fun line => negb (String.eqb line "")) text). unfold MAX_SAFE_INTEGER in Ht. subst n. lia. }
  unfold Number_toString. destruct (Z.ltb_spec n 0); [lia|].
  pose proof (dec_go_length 17 (dec_fuel n) n "" Hn ltac:(lia)) as Hd. cbn [String.length] in Hd. lia.
Qed.

Lemma prune_output_idem fields : prune_output (prune_output fields) = prune_output fields.
Proof.
  unfold prune_output at 2 3. destruct (dget "output" fields) as [[| | |output| |]|] eqn:Eo;
    try (unfold prune_output; by rewrite Eo).
  destruct (1000 <? String.length output)%nat eqn:El; [|unfold prune_output; by rewrite Eo, El].
  unfold prune_output. rewrite dget_dset_eq. apply Nat.ltb_lt in El.
  destruct (1000 <? String.length (keep_ends 500 output_marker output))%nat; [|done].
  rewrite keep_ends_idem by lia. apply dset_id, dget_dset_eq.
Qed.
Lemma prune_text_idem toolName text :
  Z.of_nat (String.length text) <= MAX_SAFE_INTEGER ->
  prune_result toolName (prune_result toolName (JStr text)) = prune_result toolName (JStr text).
Proof.
  intros Ht. cbn [prune_result]. destruct (String.eqb toolName "list_files") eqn:E1; cbn [andb].
  - apply String.eqb_eq in E1 as ->. change (String.eqb "list_files" "read_file") with false. cbn [andb].
    destruct (500 <? String.length text)%nat eqn:El; cbn [prune_result].
    + assert (H : (500 <? String.length (pruned_list text))%nat = false) by
        by apply Nat.ltb_ge, pruned_list_length. by rewrite String.eqb_refl, H.
    + by rewrite String.eqb_refl, El.
  - destruct (String.eqb toolName "read_file") eqn:E2; cbn [andb].
    + destruct (2000 <? String.length text)%nat eqn:El; cbn [prune_result]; rewrite E1, E2; cbn [andb]; [|by rewrite El].
      apply Nat.ltb_lt in El. destruct (2000 <? _)%nat; [|done]. by rewrite keep_ends_idem by lia.
    + cbn [prune_result]. by rewrite E1, E2.
Qed.
Lemma prune_result_idem toolName result :
  json_text_ok result -> prune_result toolName (prune_result toolName result) = prune_result toolName result.
Proof.
  destruct result as [| | |text| |fields]; try done; [apply prune_text_idem|]. intros _. cbn [prune_result].
  destruct (String.eqb toolName "bash") eqn:E; cbn [prune_result]; rewrite E; [|done]. by rewrite prune_output_idem.
Qed.
Lemma prune_shared toolName result : prune_result toolName (shared_result toolName result) = prune_result toolName result.
Proof.
  destruct result as [| | | | |fields]; try done. cbn [shared_result prune_result].
  destruct (String.eqb toolName "bash") eqn:E; cbn [prune_result]; rewrite E; [|done]. by rewrite prune_output_idem.
Qed.

(** The results of tools in a message *)
Definition tool_results (message : CoreMessage) : list (string * json) :=
  match msg_content message with
  | content_parts parts =>
      if String.eqb (msg_role message) "tool" then
        flat_map (fun part => match part with part_tool_result _ toolName result _ => [(toolName, result)] | _ => [] end) parts
      else []
  | content_text _ => []
  end.
Lemma map_results_twice f g h message :
  Forall (fun '(toolName, result) => f toolName (g toolName result) = h toolName result) (tool_results message) ->
  map_results f (map_results g message) = map_results h message.
Proof.
  destruct message as [role [text|parts]]; [done|]. unfold map_results, tool_results. cbn [msg_content msg_role].
  destruct (String.eqb role "tool") eqn:Er; cbn [msg_content msg_role]; rewrite ?Er; [|done]. intros Hf. do 2 f_equal.
  rewrite map_map. induction parts as [|part parts IH]; [done|]. cbn [flat_map map] in *.
  apply Forall_app in Hf as [Hp Hf]. rewrite IH by done. f_equal.
  destruct part; try done. apply Forall_cons in Hp as [Hp _]. by rewrite Hp.
Qed.
Lemma map_results_results f message :
  tool_results (map_results f message) = map (fun '(toolName, result) => (toolName, f toolName result)) (tool_results message).
Proof.
  destruct message as [role [text|parts]]; [done|]. unfold map_results, tool_results. cbn [msg_content msg_role].
  destruct (String.eqb role "tool") eqn:Er; cbn [msg_content msg_role]; rewrite ?Er; [|done].
  induction parts as [|part parts IH]; [done|]. cbn [map flat_map]. rewrite map_app, IH. f_equal. by destruct part.
Qed.

(** A pruned result *)
Definition short_result (r : string * json) : Prop :=
  let '(toolName, result) := r in
  match result with
  | JStr text =>
      (toolName = "list_files" -> (String.length text <= 500)%nat) /\
      (toolName = "read_file" -> (String.length text <= 2043)%nat)
  | JObj fields =>
      toolName = "bash" -> forall output, dget "output" fields = Some (JStr output) -> (String.length output <= 1028)%nat
  | _ => True
  end.
Lemma prune_output_short fields output :
  dget "output" (prune_output fields) = Some (JStr output) -> (String.length output <= 1028)%nat.
Proof.
  unfold prune_output. destruct (dget "output" fields) as [[| | |text| |]|] eqn:Eo; rewrite ?Eo; try done.
  destruct (1000 <? String.length text)%nat eqn:El; [|rewrite Eo; intros [= <-]; apply Nat.ltb_ge in El; lia].
  apply Nat.ltb_lt in El. rewrite dget_dset_eq. intros [= <-]. rewrite keep_ends_length by lia.
  change (String.length output_marker) with 28%nat. lia.
Qed.
Lemma prune_short toolName result : json_text_ok result -> short_result (toolName, prune_result toolName result).
Proof.
  destruct result as [| | |text| |fields]; try done.
  - intros Ht. cbn [prune_result]. destruct (String.eqb_spec toolName "list_files") as [->|H1']; cbn [andb].
    { change (String.eqb "list_files" "read_file") with false. cbn [andb].
      destruct (500 <? String.length text)%nat eqn:El; (split; [intros _|done]); [by apply pruned_list_length|].
      by apply Nat.ltb_ge. }
    destruct (String.eqb_spec toolName "read_file") as [->|H2']; cbn [andb]; [|by split].
    destruct (2000 <? String.length text)%nat eqn:El; (split; [done|intros _]).
    + apply Nat.ltb_lt in El. rewrite keep_ends_length by lia. change (String.length file_marker) with 43%nat. lia.
    + apply Nat.ltb_ge in El. lia.
  - intros _. cbn [prune_result]. destruct (String.eqb_spec toolName "bash") as [->|Hn]; [|by intros ?%Hn].
    intros _ output. apply prune_output_short.
Qed.

(** Pruning the tool results of a history bounds them - a listing to 500
    characters, a file to 2043, the output of a command to 1028 - and does it once:
    pruning again, as every later turn does with the same history, changes nothing.
    Although the call cuts the outputs of commands inside the caller's own messages,
    pruning these afterwards gives the same. *)
Theorem pruning_bounded_and_stable messages :
  Forall (fun message => Forall (fun r => json_text_ok (snd r)) (tool_results message)) messages ->
  let pruned := pruneToolResults (Some messages) in
  Forall (fun message => Forall short_result (tool_results message)) pruned /\
  pruneToolResults (Some pruned) = pruned /\
  pruneToolResults (Some (pruned_argument messages)) = pruned.
Proof.
  intros Hok. cbn zeta. unfold pruneToolResults, pruned_argument. cbn [default from_option id].
  induction Hok as [|message messages Hm Hok (IH1 & IH2 & IH3)]; [done|]. cbn [map]. split_and!.
  - constructor; [|done]. rewrite map_results_results. apply Forall_map. eapply Forall_impl; [exact Hm|].
    intros [toolName result] Hr. by apply prune_short.
  - f_equal; [|done]. apply map_results_twice. eapply Forall_impl; [exact Hm|].
    intros [toolName result] Hr. by apply prune_result_idem.
  - f_equal; [|done]. apply map_results_twice. apply Forall_forall. intros [toolName result] _. apply prune_shared.
Qed.

Module ContextDemo.
#[local] Existing Instance iso_runtime.
#[local] Existing Instance ApprovalsProps.Demo.clock_dates.

Definition builder : ContextBuilder := mkBuilder 4 [mkTool "grep" "search" (Some (JObj [("pattern", JStr "string")])) None].
Definition input (maxTokens : Z) : ContextBuildInput :=
  mkBuildInput "fix it" (mkAgent "coder" []) (Some (mkRepo [mkFile "a.ts" None (Some "let x = 1")] None))
    (Some (mkMemory None (Some [mkChunk "keep tests green" None None]) None)) None
    (mkConstraints maxTokens "greedy" (Some 10)).
Lemma bundle_within_budget_witness :
  exists bundle, build builder (input 80) = Ok bundle /\
    Z.max 0 (calculateBuffer (input 80)) + tokens builder (cb_system bundle) +
      countMessages builder (cb_messages bundle) <= 80.
Proof.
  eexists. split; [vm_compute; reflexivity|].
  eapply (bundle_within_budget _ 4 builder (input 80)); [reflexivity|vm_compute; reflexivity].
Defined.

(** The tools and the overhead are not part of the budget: the estimate of a bundle
    that is built can exceed it. *)
Example estimate_above_budget :
  match build builder (input 60) with Ok bundle => 60 < cb_tokenEstimate bundle | Err _ => False end.
Proof. by vm_compute. Qed.

Fixpoint repeated (n : nat) (s : string) : string := match n with O => "" | S n' => s +:+ repeated n' s end.
Definition history : list CoreMessage :=
  [mkMessage "tool" (content_parts [part_tool_result "c1" "bash" (JObj [("output", JStr (repeated 200 "output "))]) false])].
Lemma pruning_bounded_and_stable_witness :
  let pruned := pruneToolResults (Some history) in
  Forall (fun message => Forall short_result (tool_results message)) pruned /\
  pruneToolResults (Some pruned) = pruned /\
  pruneToolResults (Some (pruned_argument history)) = pruned.
Proof. apply (pruning_bounded_and_stable history). repeat constructor. Defined.

(** The caller's message is changed by the call. *)
Example argument_changed : pruned_argument history <> history.
Proof. vm_compute. discriminate. Qed.
End ContextDemo.
