(* ===== verification/IntentClassifier.v ===== *)
(** [packages/intent-classifier/src]: the rules, the signals in a message, and the
    intent that most of them show. *)
From S2P Require Import Prelude Js Regex Text.
From Stdlib Require Import Ascii.
#[local] Open Scope Z_scope.

(** * types.ts *)

Inductive IntentType : Type := READ_CODE | MODIFY_CODE | DEBUG | SEARCH | PLAN | EXECUTE | META.
#[export] Instance IntentType_eq_dec : EqDecision IntentType.
Proof. solve_decision. Defined.
Definition intent_str (i : IntentType) : string :=
  match i with
  | READ_CODE => "READ_CODE" | MODIFY_CODE => "MODIFY_CODE" | DEBUG => "DEBUG" | SEARCH => "SEARCH" | PLAN => "PLAN"
  | EXECUTE => "EXECUTE" | META => "META"
  end.
Inductive SignalType : Type := keyword_signal | pattern_signal | context_signal.
Record IntentSignal : Type := mkSignal { sn_type : SignalType; sn_value : string; sn_intent : IntentType }.
Inductive Confidence : Type := low | medium | high.
#[export] Instance Confidence_eq_dec : EqDecision Confidence.
Proof. solve_decision. Defined.
Record IntentClassification : Type := mkClassification {
  ic_primary : IntentType;
  ic_confidence : Confidence;
  ic_signals : list IntentSignal;
}.
Record ClassifierInput : Type := mkClassifierInput { ki_message : string; ki_recentToolCalls : option (list string) }.

(** * rules.ts *)

Definition INTENT_KEYWORDS : list (IntentType * list string) :=
  [(READ_CODE, ["explain"; "what"; "summarize"; "read"; "understand"]);
   (MODIFY_CODE, ["refactor"; "change"; "update"; "fix"; "add"; "create"]);
   (DEBUG, ["error"; "fail"; "broken"; "bug"; "why"; "crash"]);
   (SEARCH, ["find"; "locate"; "search"; "grep"; "where"]);
   (PLAN, ["plan"; "how"; "approach"; "strategy"]);
   (EXECUTE, ["run"; "test"; "build"; "execute"; "deploy"]);
   (META, ["system"; "you"; "help"; "version"; "who"])].
(** A pattern between texts stands for [.*]. *)
Definition pattern (texts : list string) : list rx :=
  (fix go (texts : list string) : list rx :=
     match texts with [] => [] | [t] => lit t | t :: texts' => lit t ++ anything ++ go texts' end) texts.
Definition INTENT_PATTERNS : list (IntentType * list (list rx)) :=
  [(READ_CODE, [pattern ["how does "; " work"]; pattern ["what is the purpose of"]]);
   (MODIFY_CODE, [pattern ["change "; " to"]; pattern ["refactor this"]]);
   (DEBUG, [pattern ["why is "; " failing"]; pattern ["fix the error in"]]);
   (SEARCH, [pattern ["where is "; " defined"]; pattern ["find all occurrences of"]]);
   (PLAN, [pattern ["how should we"]; pattern ["what is the best way to"]]);
   (EXECUTE, [pattern ["run the tests"]; pattern ["build the project"]]);
   (META, [pattern ["what can you do"]; pattern ["how do you work"]])].
Definition TOOL_TO_INTENT : dict IntentType :=
  [("read_file", READ_CODE); ("read_multiple_files", READ_CODE); ("glob", SEARCH); ("grep", SEARCH); ("bash", EXECUTE);
   ("execute_code", EXECUTE); ("write_file", MODIFY_CODE); ("str_replace_based_edit_tool", MODIFY_CODE)].
Definition toolToIntent (toolName : string) : option IntentType := dget toolName TOOL_TO_INTENT.

(** [.replace(/[^\w\s]/g, " ").replace(/\s+/g, " ")] in one pass: [after] tells that
    a space has just been written. *)
Fixpoint clean (after : bool) (s : string) : string :=
  match s with
  | EmptyString => ""
  | String c s' =>
      if is_word (Some c) then String c (clean false s')
      else if after then clean true s' else String " " (clean true s')
  end.
Definition normalize (text : string) : string := trim (clean false (toLowerCase text)).

(** * classifier.ts *)

(** The text a pattern matches at a position; [.*] takes as much as it can. *)
Fixpoint rx_match (r : list rx) (prev : option ascii) (s : string) : option string :=
  match r with
  | [] => Some ""
  | One p :: r' =>
      match s with
      | String c s' => if p c then String c <$> rx_match r' (Some c) s' else None
      | EmptyString => None
      end
  | Bnd :: r' => if xorb (is_word prev) (is_word (first_char s)) then rx_match r' prev s else None
  | Many p :: r' =>
      (fix go (prev : option ascii) (s : string) : option string :=
         match match s with
               | String c s' => if p c then String c <$> go (Some c) s' else None
               | EmptyString => None
               end with
         | Some matched => Some matched
         | None => rx_match r' prev s
         end) prev s
  end.
(** [s.match(pattern)?.[0]] *)
Fixpoint first_match (r : list rx) (prev : option ascii) (s : string) : option string :=
  match rx_match r prev s with
  | Some matched => Some matched
  | None => match s with String c s' => first_match r (Some c) s' | EmptyString => None end
  end.

(** The counts by intent, in the order of insertion *)
Definition Counts : Type := list (IntentType * Z).
Definition get_count (i : IntentType) (counts : Counts) : option Z :=
  snd <$> List.find (fun e => bool_decide (fst e = i)) counts.
Fixpoint set_count (i : IntentType) (n : Z) (counts : Counts) : Counts :=
  match counts with
  | [] => [(i, n)]
  | (j, m) :: counts' => if decide (j = i) then (i, n) :: counts' else (j, m) :: set_count i n counts'
  end.
Definition add_count (i : IntentType) (n : Z) (counts : Counts) : Counts :=
  set_count i (default 0 (get_count i counts) + n) counts.
Definition Signals : Type := list IntentSignal * Counts.
(** The body of the loops over the intents: the signals found for one *)
Definition add_signals (i : IntentType) (found : list IntentSignal) (s : Signals) : Signals :=
  (fst s ++ found,
   if 0 <? Z.of_nat (length found) then add_count i (Z.of_nat (length found)) (snd s) else snd s).
Definition matchKeywords (normalized : string) (s : Signals) : Signals :=
  foldl (fun s '(intent, keywords) =>
    add_signals intent
      (map (fun keyword => mkSignal keyword_signal keyword intent)
         (List.filter (fun keyword => rx_test [word keyword] normalized) keywords)) s) s INTENT_KEYWORDS.
Definition matchPatterns (normalized : string) (s : Signals) : Signals :=
  foldl (fun s '(intent, patterns) =>
    add_signals intent
      (flat_map (fun p => match first_match p None normalized with
                          | Some value => [mkSignal pattern_signal value intent]
                          | None => []
                          end) patterns) s) s INTENT_PATTERNS.
Definition matchContext (recentToolCalls : option (list string)) (s : Signals) : Signals :=
  match lastTool ← (recentToolCalls ≫= last); truthy (Some lastTool) with
  | None => s
  | Some lastTool =>
      match toolToIntent lastTool with
      | None => s
      | Some contextIntent => add_signals contextIntent [mkSignal context_signal lastTool contextIntent] s
      end
  end.

Definition SAFETY_PRIORITY : list IntentType := [READ_CODE; SEARCH; PLAN; META; DEBUG; EXECUTE; MODIFY_CODE].
(** [SAFETY_PRIORITY.indexOf(intent)] *)
Definition safety_rank (i : IntentType) : Z :=
  match i with
  | READ_CODE => 0 | SEARCH => 1 | PLAN => 2 | META => 3 | DEBUG => 4 | EXECUTE => 5 | MODIFY_CODE => 6
  end.
(** [a] does not come after [b] in the order. *)
Definition not_after (a b : IntentType * Z) : bool :=
  if decide (snd b = snd a) then safety_rank (fst a) <=? safety_rank (fst b) else snd b <=? snd a.
Fixpoint insert_intent (e : IntentType * Z) (l : Counts) : Counts :=
  match l with [] => [e] | e' :: l' => if not_after e e' then e :: l else e' :: insert_intent e l' end.
Definition sort_intents (counts : Counts) : Counts := foldr insert_intent [] counts.
Definition selectPrimaryIntent (matchCounts : Counts) : IntentType * Z * Counts :=
  let sortedIntents := sort_intents matchCounts in
  match sortedIntents with
  | first :: _ => (fst first, snd first, sortedIntents)
  | [] => (READ_CODE, -1, sortedIntents)
  end.
Definition CONFIDENCE_HIGH : Z := 3.
Definition CONFIDENCE_MEDIUM : Z := 1.
Definition calculateConfidence (sortedIntents : Counts) (maxScore : Z) : Confidence :=
  match sortedIntents with
  | [] => low
  | _ =>
      let secondScore := match sortedIntents with _ :: second :: _ => snd second | _ => 0 end in
      let diff := maxScore - secondScore in
      if CONFIDENCE_HIGH <? diff then high else if CONFIDENCE_MEDIUM <=? diff then medium else low
  end.
Definition classifyIntent (input : ClassifierInput) : IntentClassification :=
  let normalized := normalize (ki_message input) in
  let '(signals, matchCounts) :=
    matchContext (ki_recentToolCalls input) (matchPatterns normalized (matchKeywords normalized ([], []))) in
  let '(primary, maxScore, sortedIntents) := selectPrimaryIntent matchCounts in
  mkClassification primary (calculateConfidence sortedIntents maxScore) signals.

(** The intent found is the one most signals show, the safest of these, and the
    confidence tells how far ahead it is. *)
From Stdlib Require Import Ascii Sorting.Sorted.

(** The signals for an intent *)
Definition score (signals : list IntentSignal) (i : IntentType) : Z :=
  Z.of_nat (length (List.filter (fun s => bool_decide (sn_intent s = i)) signals)).

(** * The counts are those of the signals *)

Lemma get_count_set i j n counts :
  get_count j (set_count i n counts) = if decide (j = i) then Some n else get_count j counts.
Proof.
  unfold get_count. induction counts as [|[k m] counts IH]; cbn.
  - destruct (decide (j = i)) as [->|Hn]; [by rewrite bool_decide_eq_true_2|by rewrite bool_decide_eq_false_2].
  - destruct (decide (k = i)) as [->|Hk]; cbn.
    + destruct (decide (j = i)) as [->|Hn]; [by rewrite bool_decide_eq_true_2|by rewrite bool_decide_eq_false_2].
    + destruct (decide (k = j)) as [->|Hkj]; [rewrite bool_decide_eq_true_2 by done; by rewrite decide_False|].
      by rewrite bool_decide_eq_false_2.
Qed.
Lemma set_count_keys i n counts :
  map fst (set_count i n counts) = if decide (i ∈ map fst counts) then map fst counts else map fst counts ++ [i].
Proof.
  induction counts as [|[k m] counts IH]; cbn; [done|]. destruct (decide (k = i)) as [->|Hk]; cbn.
  - rewrite decide_True; [done|set_solver].
  - rewrite IH. destruct (decide (i ∈ map fst counts)); [rewrite decide_True; [done|set_solver]|].
    rewrite decide_False; [done|set_solver].
Qed.
Lemma get_count_elem i n counts : NoDup (map fst counts) -> get_count i counts = Some n <-> (i, n) ∈ counts.
Proof.
  unfold get_count. induction counts as [|[k m] counts IH]; cbn; [intros _; split; [done|by intros ?%elem_of_nil]|].
  intros [Hk Hn]%NoDup_cons. destruct (decide (k = i)) as [->|Hki].
  - rewrite bool_decide_eq_true_2 by done. cbn. split; [intros [= ->]; by left|].
    intros [[= ->]|Hin]%elem_of_cons; [done|]. destruct Hk. apply list_elem_of_fmap. by exists (i, n).
  - rewrite bool_decide_eq_false_2 by done. rewrite IH by done. split; [by right|].
    intros [[= -> ->]|Hin]%elem_of_cons; done.
Qed.

Definition tallied (s : Signals) : Prop :=
  NoDup (map fst (snd s)) /\
  forall i, get_count i (snd s) = if decide (score (fst s) i = 0) then None else Some (score (fst s) i).

Lemma score_app a b i : score (a ++ b) i = score a i + score b i.
Proof. unfold score. rewrite List.filter_app, length_app. lia. Qed.
Lemma score_nonneg l i : 0 <= score l i.
Proof. unfold score. lia. Qed.
Lemma score_same i j found :
  Forall (fun s => sn_intent s = i) found -> score found j = if decide (j = i) then Z.of_nat (length found) else 0.
Proof.
  unfold score. induction 1 as [|s found Hs Hf IH]; cbn; [by case_decide|].
  destruct (decide (j = i)) as [->|Hj].
  - rewrite bool_decide_eq_true_2 by done. cbn. lia.
  - rewrite bool_decide_eq_false_2 by congruence. done.
Qed.
Lemma signals_tallied i found s :
  Forall (fun x => sn_intent x = i) found -> tallied s -> tallied (add_signals i found s).
Proof.
  intros Hf [Hn Hc]. unfold add_signals, tallied. cbn [fst snd].
  assert (Hs : forall j, score (fst s ++ found) j = score (fst s) j + if decide (j = i) then Z.of_nat (length found) else 0).
  { intros j. by rewrite score_app, (score_same i j found). }
  destruct (Z.ltb_spec 0 (Z.of_nat (length found))) as [Hpos|Hzero].
  - split.
    + unfold add_count. rewrite set_count_keys. case_decide as Hi; [done|]. apply NoDup_app. split_and!; [done|set_solver|].
      apply NoDup_singleton.
    + intros j. unfold add_count. rewrite get_count_set, Hs, !Hc. destruct (decide (j = i)) as [->|Hj].
      * pose proof (score_nonneg (fst s) i). destruct (decide (score (fst s) i + _ = 0)); [lia|]. f_equal.
        destruct (decide (score (fst s) i = 0)); cbn; lia.
      * by rewrite Z.add_0_r.
  - split; [done|]. intros j. rewrite Hs, Hc. assert (Hl : Z.of_nat (length found) = 0) by lia. rewrite Hl.
    destruct (decide (j = i)); by rewrite Z.add_0_r.
Qed.
Lemma fold_tallied {A} (f : Signals -> A -> Signals) l s :
  (forall s x, tallied s -> tallied (f s x)) -> tallied s -> tallied (foldl f s l).
Proof. intros Hf. revert s. induction l as [|x l IH]; intros s Hs; [done|]. cbn. auto. Qed.
Lemma keywords_tallied normalized s : tallied s -> tallied (matchKeywords normalized s).
Proof.
  apply fold_tallied. intros s' [i keywords]. apply signals_tallied. apply Forall_forall.
  intros x (k & -> & _)%list_elem_of_fmap. done.
Qed.
Lemma patterns_tallied normalized s : tallied s -> tallied (matchPatterns normalized s).
Proof.
  apply fold_tallied. intros s' [i patterns]. apply signals_tallied. induction patterns as [|p patterns IH]; [done|].
  cbn. apply Forall_app. split; [|done]. destruct (first_match p None normalized); by repeat constructor.
Qed.
Lemma context_tallied calls s : tallied s -> tallied (matchContext calls s).
Proof.
  intros Hs. unfold matchContext. destruct (_ ≫= _) as [tool|]; [|done]. destruct (toolToIntent tool) as [i|]; [|done].
  apply signals_tallied; [by repeat constructor|done].
Qed.

(** * The order *)

Definition before (a b : IntentType * Z) : Prop := snd b < snd a \/ snd b = snd a /\ safety_rank (fst a) <= safety_rank (fst b).
Lemma not_after_spec a b : not_after a b = true <-> before a b.
Proof.
  unfold not_after, before. destruct (decide (snd b = snd a)) as [E|E].
  - rewrite Z.leb_le. lia.
  - rewrite Z.leb_le. lia.
Qed.
Lemma before_total a b : not_after a b = false -> before b a.
Proof.
  intros Hf. destruct (decide (before b a)) as [|Hn]; [done|]. exfalso. assert (Hb : before a b) by (unfold before in *; lia).
  apply not_after_spec in Hb. congruence.
Qed.
Lemma insert_intent_perm e l : Permutation (insert_intent e l) (e :: l).
Proof. induction l as [|e' l IH]; [done|]. cbn. destruct (not_after _ _); [done|]. rewrite IH. apply Permutation_swap. Qed.
Lemma sort_intents_perm l : Permutation (sort_intents l) l.
Proof.
  induction l as [|e l IH]; [done|]. change (sort_intents (e :: l)) with (insert_intent e (sort_intents l)).
  by rewrite insert_intent_perm, IH.
Qed.
Lemma insert_intent_sorted e l : StronglySorted before l -> StronglySorted before (insert_intent e l).
Proof.
  induction 1 as [|e' l Hs IH Hall]; cbn; [repeat constructor|]. destruct (not_after e e') eqn:En.
  - apply not_after_spec in En. constructor; [by constructor|]. constructor; [done|].
    eapply Forall_impl; [exact Hall|]. intros x. unfold before in *. lia.
  - apply before_total in En. constructor; [done|]. rewrite insert_intent_perm. by constructor.
Qed.
Lemma sort_intents_sorted l : StronglySorted before (sort_intents l).
Proof. induction l as [|e l IH]; [constructor|]. by apply insert_intent_sorted. Qed.

(** * The classification *)

Lemma tallied_elem s i n : tallied s -> (i, n) ∈ snd s <-> n = score (fst s) i /\ score (fst s) i <> 0.
Proof.
  intros [Hn Hc]. rewrite <- get_count_elem by done. rewrite Hc.
  destruct (decide (score (fst s) i = 0)); split; [done|by intros [_ ?]|by intros [= <-]|by intros [-> _]].
Qed.
Lemma no_score l : (forall i, score l i = 0) -> l = [].
Proof.
  destruct l as [|s l]; [done|]. intros H. specialize (H (sn_intent s)). unfold score in H. cbn in H.
  rewrite bool_decide_eq_true_2 in H by done. cbn in H. lia.
Qed.
Lemma other_intent (p : IntentType) : exists i, i <> p.
Proof. destruct (decide (p = DEBUG)) as [->|Hp]; [by exists META|by exists DEBUG]. Qed.

(** The first two of the sorted counts *)
Lemma leaders s :
  tallied s ->
  match sort_intents (snd s) with
  | [] => fst s = []
  | (p, m) :: rest =>
      m = score (fst s) p /\ 0 < m /\
      (forall i, score (fst s) i < m \/ score (fst s) i = m /\ safety_rank p <= safety_rank i) /\
      let second := match rest with e :: _ => snd e | [] => 0 end in
      (forall i, i <> p -> score (fst s) i <= second) /\ exists i, i <> p /\ score (fst s) i = second
  end.
Proof.
  intros Hs. pose proof (sort_intents_perm (snd s)) as Hp. pose proof (sort_intents_sorted (snd s)) as Hsort.
  assert (Hin : forall i n, (i, n) ∈ sort_intents (snd s) <-> n = score (fst s) i /\ score (fst s) i <> 0).
  { intros i n. rewrite Hp. by apply tallied_elem. }
  assert (Hnd : NoDup (map fst (sort_intents (snd s)))) by (rewrite Hp; apply Hs).
  destruct (sort_intents (snd s)) as [|[p m] rest].
  { apply no_score. intros i. destruct (decide (score (fst s) i = 0)); [done|]. exfalso.
    assert (He : (i, score (fst s) i) ∈ []) by by apply Hin. by apply elem_of_nil in He. }
  apply StronglySorted_inv in Hsort as [Hsort Hall]. apply NoDup_cons in Hnd as [Hpn Hnd].
  assert (Hpm : m = score (fst s) p /\ score (fst s) p <> 0) by (apply Hin; left).
  assert (Hrest : forall i, i <> p -> score (fst s) i <> 0 -> (i, score (fst s) i) ∈ rest).
  { intros i Hi H0'. assert (He : (i, score (fst s) i) ∈ (p, m) :: rest) by by apply Hin.
    apply elem_of_cons in He as [[= -> _]|He]; done. }
  pose proof (score_nonneg (fst s) p). cbn zeta. split_and!; [tauto|lia|..].
  - intros i. destruct (decide (i = p)) as [->|Hi]; [right; lia|].
    destruct (decide (score (fst s) i = 0)) as [E|E]; [left; lia|].
    eapply Forall_forall in Hall; [|by apply (Hrest i)]. unfold before in Hall. cbn in Hall. lia.
  - intros i Hi. destruct (decide (score (fst s) i = 0)) as [E|E].
    { destruct rest as [|[q k] rest]; [lia|]. cbn. assert (Hq : k = score (fst s) q /\ score (fst s) q <> 0) by (apply Hin; right; left).
      pose proof (score_nonneg (fst s) q). lia. }
    specialize (Hrest i Hi E). destruct rest as [|[q k] rest]; [by apply elem_of_nil in Hrest|].
    apply elem_of_cons in Hrest as [[= -> ->]|He]; [done|]. apply StronglySorted_inv in Hsort as [_ Hq].
    eapply Forall_forall in Hq; [|exact He]. unfold before in Hq. cbn in *. lia.
  - destruct rest as [|[q k] rest].
    + destruct (other_intent p) as [i Hi]. exists i. split; [done|]. destruct (decide (score (fst s) i = 0)); [done|].
      specialize (Hrest i Hi n). by apply elem_of_nil in Hrest.
    + exists q. cbn in Hpn. split; [set_solver|]. assert (Hq : k = score (fst s) q /\ score (fst s) q <> 0) by (apply Hin; right; left).
      symmetry. tauto.
Qed.

(** [classifyIntent] finds the intent most signals of the message and of the last tool
    call are for, among equals the one that comes first in [SAFETY_PRIORITY], and
    [READ_CODE] without signals.  Its confidence is high exactly when the intent has more than three
    signals above every other, and low exactly when another has as many. *)
Theorem classification_justified input :
  let c := classifyIntent input in
  let score := score (ic_signals c) in
  (ic_signals c = [] -> ic_primary c = READ_CODE) /\
  (ic_signals c <> [] ->
   forall i, score i < score (ic_primary c) \/
             score i = score (ic_primary c) /\ safety_rank (ic_primary c) <= safety_rank i) /\
  (ic_confidence c = high <-> forall i, i <> ic_primary c -> score i + 3 < score (ic_primary c)) /\
  (ic_confidence c = low <-> exists i, i <> ic_primary c /\ score i = score (ic_primary c)).
Proof.
  cbn zeta. unfold classifyIntent. set (normalized := normalize _).
  set (s := matchContext _ _). assert (Hs : tallied s).
  { apply context_tallied, patterns_tallied, keywords_tallied. split; [constructor|done]. }
  clearbody s. pose proof (leaders s Hs) as Hl. destruct s as [signals counts]. cbn [fst snd] in Hl.
  unfold selectPrimaryIntent. destruct (sort_intents counts) as [|[p m] rest]; cbn [fst snd ic_primary ic_confidence ic_signals].
  { subst signals. cbn [calculateConfidence]. split; [done|]. split; [done|]. split; [split; [done|]|split; [intros _; by exists DEBUG|done]].
    intros H. specialize (H DEBUG ltac:(done)). unfold score in H. cbn in H. lia. }
  destruct Hl as (Hm & Hpos & Hbest & Hle & j & Hj & Ej). rewrite <- Hm.
  set (second := match rest with e :: _ => snd e | [] => 0 end) in *.
  assert (Ec : calculateConfidence ((p, m) :: rest) m =
    if CONFIDENCE_HIGH <? m - second then high else if CONFIDENCE_MEDIUM <=? m - second then medium else low).
  { unfold calculateConfidence, second. by destruct rest. }
  unfold CONFIDENCE_HIGH, CONFIDENCE_MEDIUM in *.
  split; [intros ->; unfold score in Hm; cbn in Hm; lia|]. split; [done|]. split; rewrite Ec.
  - destruct (Z.ltb_spec 3 (m - second)) as [H|H]; [split; [intros _ i Hi; specialize (Hle i Hi); lia|done]|].
    split; [by destruct (1 <=? m - second)|]. intros Hall. specialize (Hall j Hj). lia.
  - destruct (Z.ltb_spec 3 (m - second)); [split; [done|intros (i & Hi & Ei); specialize (Hle i Hi); lia]|].
    destruct (Z.leb_spec 1 (m - second)); [split; [done|intros (i & Hi & Ei); specialize (Hle i Hi); lia]|].
    split; [|done]. intros _. exists j. split; [done|]. specialize (Hbest j). lia.
Qed.

(** A question about code *)
Example asks_how :
  let c := classifyIntent (mkClassifierInput "How does the parser work?" (Some ["grep"; "read_file"])) in
  ic_primary c = READ_CODE /\ ic_confidence c = medium /\
  map sn_value (ic_signals c) = ["how"; "how does the parser work"; "read_file"].
Proof. vm_compute. repeat split. Qed.
