(* ===== verification/ContextBudget.v ===== *)
(** [packages/context-builder/src]: the strategies, the assembler, the budget
    calculator and enforcer, the prompt composer and the builder around them. *)
From S2P Require Import Prelude Js Regex Text ContextAssembly IntentClassifier.
From Stdlib Require Import Ascii SpecFloat.
#[local] Open Scope Z_scope.

(** The tokenizer of js-tiktoken, where [encode] may throw, and the four emoji of the
    sources, which are outside the characters of the model's strings. *)
Class Tokenizer : Type := { encode : string -> option (list Z); decode : list Z -> string }.
Class Emoji : Type := { folder_icon : string; page_icon : string; user_icon : string; assistant_icon : string }.

(** * types.ts and errors.ts *)

Inductive ContextBlockType : Type := REPO_SUMMARY | FILE_LIST | TESTS | DIFFS | CHAT.
#[export] Instance ContextBlockType_eq_dec : EqDecision ContextBlockType.
Proof. solve_decision. Defined.
Definition block_type_str (t : ContextBlockType) : string :=
  match t with
  | REPO_SUMMARY => "REPO_SUMMARY" | FILE_LIST => "FILE_LIST" | TESTS => "TESTS" | DIFFS => "DIFFS" | CHAT => "CHAT"
  end.
Record ContextBlock : Type := mkBlock {
  bk_id : string;
  bk_type : ContextBlockType;
  bk_priority : Z;
  bk_content : string;
  bk_tokenEstimate : Z;
}.
Definition set_content (content : string) (tokens : Z) (b : ContextBlock) : ContextBlock :=
  mkBlock (bk_id b) (bk_type b) (bk_priority b) content tokens.
Definition set_priority (priority : Z) (b : ContextBlock) : ContextBlock :=
  mkBlock (bk_id b) (bk_type b) priority (bk_content b) (bk_tokenEstimate b).
Inductive BucketType : Type := b_SYSTEM | b_USER | b_REPO_SUMMARY | b_CONTEXT_BLOCKS | b_CHAT_HISTORY | b_OPTIONAL.
#[export] Instance BucketType_eq_dec : EqDecision BucketType.
Proof. solve_decision. Defined.
Inductive BucketPolicy : Type := REJECT | DROP | TRUNCATE.
#[export] Instance BucketPolicy_eq_dec : EqDecision BucketPolicy.
Proof. solve_decision. Defined.
Record TokenBucket : Type := mkBucket { bu_name : BucketType; bu_limit : Z; bu_policy : BucketPolicy; bu_current : Z }.
Definition set_current (current : Z) (b : TokenBucket) : TokenBucket :=
  mkBucket (bu_name b) (bu_limit b) (bu_policy b) current.
Record TokenBudgetReport : Type := mkReport {
  tr_totalUsed : Z;
  tr_perBucket : list (BucketType * Z);
  tr_droppedBlocks : list string;
  tr_truncatedBlocks : list string;
  tr_warnings : list string;
}.
Record ChatTurn : Type := mkTurn { ct_role : string; ct_content : string }.
Inductive context_error : Type :=
| ValidationError (field : string)
| UnknownIntent (intent : string)
| BudgetExceededError (bucket : BucketType) (limit actual : Z)
| TypeError
| TokenizerError.

(** * strategies *)

Record ContextStrategy : Type := mkStrategy {
  sg_intent : string;
  sg_includeRepoSummary : bool;
  sg_includeFileList : bool;
  sg_includeTests : bool;
  sg_includeDiffs : bool;
  sg_includeChat : bool;
  sg_chatDepth : nat;
  sg_blockPriorities : ContextBlockType -> Z;
}.
Definition priorities (repo files tests diffs chat : Z) (t : ContextBlockType) : Z :=
  match t with REPO_SUMMARY => repo | FILE_LIST => files | TESTS => tests | DIFFS => diffs | CHAT => chat end.
Definition buildStrategyMap : dict ContextStrategy :=
  [("explore", mkStrategy "explore" true true false false true 3 (priorities 10 9 0 0 5));
   ("bugfix", mkStrategy "bugfix" true true true true true 10 (priorities 8 9 8 10 7));
   ("refactor", mkStrategy "refactor" true true true true true 5 (priorities 7 10 8 9 5));
   ("implement", mkStrategy "implement" true true true true true 5 (priorities 8 10 7 8 6));
   ("review", mkStrategy "review" false false false true true 3 (priorities 0 0 0 10 5));
   ("meta", mkStrategy "meta" true false false false true 1 (priorities 10 0 0 0 3))].
Definition getStrategy (intent : string) : option ContextStrategy := dget intent buildStrategyMap.
Definition getAvailableIntents : list string := dkeys buildStrategyMap.
Definition resolve (intent : string) : res context_error ContextStrategy :=
  match dget intent buildStrategyMap with Some strategy => Ok strategy | None => Err (UnknownIntent intent) end.

(** * ContextAssembler.ts *)

(** [n * 1.3] in binary64, rounded up *)
Definition one_point_three : spec_float := S754_finite false 5854679515581645 (-52).
Definition ceil_float (x : spec_float) : Z :=
  match x with
  | S754_finite s m e =>
      let n := if s then - Z.pos m else Z.pos m in
      if 0 <=? e then n * 2 ^ e else - ((- n) / 2 ^ (- e))
  | _ => 0
  end.
Definition estimate_words (words : nat) : Z :=
  ceil_float (SFmul 53 1024 (binary_normalize 53 1024 (Z.of_nat words) 0 false) one_point_three).
Definition estimateTokens (text : string) : Z := estimate_words (length (split_spaces text)).

(** A priority is a number; [sort] is stable. *)
Fixpoint insert_block (b : ContextBlock) (l : list ContextBlock) : list ContextBlock :=
  match l with
  | [] => [b]
  | b' :: l' => if bk_priority b' <=? bk_priority b then b :: l else b' :: insert_block b l'
  end.
Definition sort_blocks (l : list ContextBlock) : list ContextBlock := foldr insert_block [] l.

(** [`${value}`] *)
Fixpoint to_text `{!JsRuntime} (value : json) : string :=
  match value with
  | JNull => "null"
  | JBool b => bool_text b
  | JNum n => num_toString n
  | JStr s => s
  | JArr l => Js.join "," (map (fun v => match v with JNull => "" | _ => to_text v end) l)
  | JObj _ => "[object Object]"
  end.
Definition text_of `{!JsRuntime} (value : option json) : string := from_option to_text "undefined" value.
(** [value.key] *)
Definition prop (key : string) (value : json) : res context_error (option json) :=
  match value with JNull => Err TypeError | JObj o => Ok (dget key o) | _ => Ok None end.
(** [value.length], where it is a number *)
Definition length_of (value : json) : option Z :=
  match value with
  | JArr l => Some (Z.of_nat (length l))
  | JStr s => Some (str_length s)
  | JObj o => match dget "length" o with Some (JNum (NInt n)) => Some n | _ => None end
  | _ => None
  end.
(** [l.filter(p)] for a [p] that may throw *)
Fixpoint res_filter {A} (p : A -> res context_error bool) (l : list A) : res context_error (list A) :=
  match l with
  | [] => Ok []
  | x :: l' => keep ← p x; rest ← res_filter p l'; Ok (if (keep : bool) then x :: rest else rest)
  end.
(** [if (value && value.length > 0)] with the array methods of [value]; any other
    value with a positive length has none. *)
Definition nonempty_array (value : option json) : res context_error (list json) :=
  match value with
  | None => Ok []
  | Some v =>
      if json_truthy value && match length_of v with Some n => 0 <? n | None => false end
      then match v with JArr l => Ok l | _ => Err TypeError end
      else Ok []
  end.
(** [l.slice(-n)] *)
Definition last_n {A} (n : nat) (l : list A) : list A :=
  match n with O => l | _ => drop (length l - n) l end.

Section Assembler.
Context `{!JsRuntime, !Emoji}.

Definition file_entry (f : json) : res context_error string :=
  path ← prop "path" f;
  match path with
  | Some (JStr path) =>
      isDir ← prop "isDir" f;
      let pieces := split_on "/" path in
      let indent := if (1 <? length pieces)%nat then "  " else "" in
      let icon := if json_truthy isDir then folder_icon else page_icon in
      let name := default path (truthy (last pieces)) in
      Ok (indent +:+ icon +:+ " " +:+ name)
  | _ => Err TypeError
  end.
Definition not_ignored (f : json) : res context_error bool :=
  isIgnored ← prop "isIgnored" f; Ok (negb (json_truthy isIgnored)).
Definition listed_file (f : json) : res context_error bool :=
  isDir ← prop "isDir" f; if json_truthy isDir then Ok false else not_ignored f.
Definition assembleRepoSummaryBlock (repo : json) : res context_error ContextBlock :=
  repoName ← prop "repoName" repo;
  branch ← prop "branch" repo;
  commitHash ← prop "commitHash" repo;
  commit ← match commitHash with Some (JStr hash) => Ok (slice 0 7 hash) | _ => Err TypeError end;
  language ← prop "language" repo;
  fileCount ← prop "fileCount" repo;
  fileTree ← prop "fileTree" repo;
  files ← nonempty_array fileTree;
  shown ← res_filter not_ignored files;
  tree ← res_map file_entry (firstn 50 shown);
  let content := Js.join newline
    (["Repository: " +:+ text_of repoName; "Branch: " +:+ text_of branch; "Commit: " +:+ commit;
      "Language: " +:+ (if json_truthy language then text_of language else "Unknown");
      "Files: " +:+ text_of fileCount; ""; "## Structure"; ""] ++ tree) in
  Ok (mkBlock "repo-summary" REPO_SUMMARY 10 content (estimateTokens content)).
Definition assembleFileListBlock (repo : json) : res context_error ContextBlock :=
  fileTree ← prop "fileTree" repo;
  files ← nonempty_array fileTree;
  shown ← res_filter listed_file files;
  lines ← res_map (fun f => path ← prop "path" f; Ok ("- " +:+ text_of path)) (firstn 20 shown);
  let content := Js.join newline (["## Recent Files"; ""] ++ lines) in
  Ok (mkBlock "file-list" FILE_LIST 9 content (estimateTokens content)).
Definition diff_lines (diff : json) : res context_error (list string) :=
  filePath ← prop "filePath" diff;
  status ← prop "status" diff;
  hunks ← prop "hunks" diff;
  match hunks with
  | Some (JArr hunks) =>
      let body := Js.join newline (map (fun v => match v with JNull => "" | _ => to_text v end) hunks) in
      Ok ["### " +:+ text_of filePath; "Status: " +:+ text_of status; "```"; body; "```"; ""]
  | _ => Err TypeError
  end.
Definition assembleDiffsBlock (repo : json) : res context_error (option ContextBlock) :=
  recentDiffs ← prop "recentDiffs" repo;
  match recentDiffs with
  | None => Ok None
  | Some v =>
      if negb (json_truthy recentDiffs) || bool_decide (length_of v = Some 0) then Ok None
      else match v with
           | JArr diffs =>
               lines ← res_map diff_lines (firstn 10 diffs);
               let content := Js.join newline (["## Recent Changes"; ""] ++ concat lines) in
               Ok (Some (mkBlock "diffs" DIFFS 8 content (estimateTokens content)))
           | _ => Err TypeError
           end
  end.
Definition assembleChatBlock (chatHistory : list ChatTurn) (depth : nat) : option ContextBlock :=
  match chatHistory with
  | [] => None
  | _ =>
      let lines := flat_map (fun msg =>
        [(if String.eqb (ct_role msg) "user" then user_icon +:+ " User" else assistant_icon +:+ " Assistant") +:+ ":";
         ct_content msg; ""]) (last_n depth chatHistory) in
      let content := Js.join newline (["## Conversation History"; ""] ++ lines) in
      Some (mkBlock "chat" CHAT 5 content (estimateTokens content))
  end.
Definition assemble (repoSummary : json) (chatHistory : option (list ChatTurn)) (strategy : ContextStrategy)
    : res context_error (list ContextBlock) :=
  repo ← (if sg_includeRepoSummary strategy then b ← assembleRepoSummaryBlock repoSummary; Ok [b] else Ok []);
  files ← (if sg_includeFileList strategy then b ← assembleFileListBlock repoSummary; Ok [b] else Ok []);
  diffs ← (if sg_includeDiffs strategy && json_truthy (Some repoSummary) then assembleDiffsBlock repoSummary else Ok None);
  let chat := if sg_includeChat strategy then assembleChatBlock (default [] chatHistory) (sg_chatDepth strategy) else None in
  let blocks := repo ++ files ++ option_list diffs ++ option_list chat in
  Ok (sort_blocks (map (fun b => set_priority (sg_blockPriorities strategy (bk_type b)) b) blocks)).
End Assembler.

(** * BudgetCalculator.ts *)

Definition DEFAULT_MAX_TOKENS : Z := 13500.
Definition BUCKET_LIMITS (b : BucketType) : Z :=
  match b with
  | b_SYSTEM => 2000 | b_USER => 2000 | b_REPO_SUMMARY => 3000 | b_CONTEXT_BLOCKS => 4000 | b_CHAT_HISTORY => 2000
  | b_OPTIONAL => 1000
  end.
Definition bucket_policy (b : BucketType) : BucketPolicy :=
  match b with
  | b_SYSTEM | b_USER => REJECT
  | b_CONTEXT_BLOCKS => TRUNCATE
  | b_REPO_SUMMARY | b_CHAT_HISTORY | b_OPTIONAL => DROP
  end.
Definition new_bucket (b : BucketType) : TokenBucket := mkBucket b (BUCKET_LIMITS b) (bucket_policy b) 0.
Definition bucket_types : list BucketType :=
  [b_SYSTEM; b_USER; b_REPO_SUMMARY; b_CONTEXT_BLOCKS; b_CHAT_HISTORY; b_OPTIONAL].
Definition initializeBuckets : list TokenBucket := map new_bucket bucket_types.
(** A new bucket for each call *)
Definition getBucketForBlockType (t : ContextBlockType) : TokenBucket :=
  new_bucket match t with REPO_SUMMARY => b_REPO_SUMMARY | CHAT => b_CHAT_HISTORY | _ => b_CONTEXT_BLOCKS end.
(** [buckets[name].current = current] *)
Definition set_bucket (name : BucketType) (current : Z) (buckets : list TokenBucket) : list TokenBucket :=
  map (fun b => if decide (bu_name b = name) then set_current current b else b) buckets.

Definition plural_warning (verb rest : string) (ids : list string) : list string :=
  match ids with
  | [] => []
  | _ => [verb +:+ " " +:+ Number_toString (Z.of_nat (length ids)) +:+ " context block(s) " +:+ rest]
  end.
Definition buildWarnings (droppedBlocks truncatedBlocks : list string) : list string :=
  plural_warning "Dropped" "due to budget limits" droppedBlocks ++ plural_warning "Truncated" "to fit budget" truncatedBlocks.

Section Calculator.
Context `{!Tokenizer}.

Definition countTokens (text : string) : Z :=
  match encode text with Some tokens => Z.of_nat (length tokens) | None => estimateTokens text end.
Definition truncation_marker : string := "[... TRUNCATED ...]".
Definition truncateToTokenLimit (text : string) (limit : Z) : res context_error string :=
  match encode text with
  | None => Err TokenizerError
  | Some tokens =>
      if Z.of_nat (length tokens) <=? limit then Ok text
      else
        let result := decode (firstn (Z.to_nat limit) tokens) in
        Ok ((if endsWith newline result then result else result +:+ newline) +:+ truncation_marker)
  end.

(** The variables of the loop over the blocks *)
Record Allocation : Type := mkAllocation {
  al_remaining : Z;
  al_blocks : list ContextBlock;
  al_dropped : list string;
  al_truncated : list string;
}.
Definition drop_block (id : string) (a : Allocation) : Allocation :=
  mkAllocation (al_remaining a) (al_blocks a) (al_dropped a ++ [id]) (al_truncated a).
Definition take_block (b : ContextBlock) (tokens : Z) (a : Allocation) : Allocation :=
  mkAllocation (al_remaining a - tokens) (al_blocks a ++ [b]) (al_dropped a) (al_truncated a).
Definition mark_truncated (id : string) (a : Allocation) : Allocation :=
  mkAllocation (al_remaining a) (al_blocks a) (al_dropped a) (al_truncated a ++ [id]).
(** The body of the loop *)
Definition allocate_block (block : ContextBlock) (a : Allocation) : res context_error Allocation :=
  let blockTokens := countTokens (bk_content block) in
  let bucket := getBucketForBlockType (bk_type block) in
  if al_remaining a <=? 0 then Ok (drop_block (bk_id block) a)
  else if (blockTokens <=? bu_limit bucket) && (bu_current bucket + blockTokens <=? bu_limit bucket)
  then Ok (take_block (set_content (bk_content block) blockTokens block) blockTokens a)
  else match bu_policy bucket with
       | TRUNCATE =>
           truncatedContent ← truncateToTokenLimit (bk_content block)
             (Z.min (bu_limit bucket - bu_current bucket) (al_remaining a));
           let truncatedTokens := countTokens truncatedContent in
           Ok (if 0 <? truncatedTokens
               then mark_truncated (bk_id block)
                      (take_block (set_content truncatedContent truncatedTokens block) truncatedTokens a)
               else drop_block (bk_id block) a)
       | DROP => Ok (drop_block (bk_id block) a)
       | REJECT => Ok a
       end.
Fixpoint allocate_blocks (blocks : list ContextBlock) (a : Allocation) : res context_error Allocation :=
  match blocks with [] => Ok a | b :: blocks' => a' ← allocate_block b a; allocate_blocks blocks' a' end.
Definition calculate (blocks : list ContextBlock) (systemPrompt userMessage : string) (maxTokens : Z)
    : res context_error (list ContextBlock * TokenBudgetReport) :=
  let systemTokens := countTokens systemPrompt in
  let userTokens := countTokens userMessage in
  let buckets := set_bucket b_USER userTokens (set_bucket b_SYSTEM systemTokens initializeBuckets) in
  if BUCKET_LIMITS b_SYSTEM <? systemTokens then Err (BudgetExceededError b_SYSTEM (BUCKET_LIMITS b_SYSTEM) systemTokens)
  else if BUCKET_LIMITS b_USER <? userTokens then Err (BudgetExceededError b_USER (BUCKET_LIMITS b_USER) userTokens)
  else
    let availableTokens := maxTokens - systemTokens - userTokens in
    a ← allocate_blocks (sort_blocks blocks) (mkAllocation availableTokens [] [] []);
    Ok (al_blocks a,
        mkReport (sum_of bu_current buckets) (map (fun b => (bu_name b, bu_current b)) buckets) (al_dropped a)
          (al_truncated a) (buildWarnings (al_dropped a) (al_truncated a))).
End Calculator.

(** * BudgetEnforcer.ts *)

Definition CHARS_PER_TOKEN_ESTIMATE : Z := 4.
Definition DROP_ORDER : list BucketType := [b_OPTIONAL; b_CHAT_HISTORY; b_REPO_SUMMARY; b_CONTEXT_BLOCKS].
Definition mapBlockTypeToBucket (t : ContextBlockType) : BucketType :=
  match t with REPO_SUMMARY => b_REPO_SUMMARY | CHAT => b_CHAT_HISTORY | FILE_LIST | TESTS | DIFFS => b_CONTEXT_BLOCKS end.
(** A map from types to buckets *)
Definition Buckets : Type := list (BucketType * TokenBucket).
Definition get_bucket (t : BucketType) (buckets : Buckets) : option TokenBucket :=
  snd <$> List.find (fun e => bool_decide (fst e = t)) buckets.
Definition put_bucket (t : BucketType) (b : TokenBucket) (buckets : Buckets) : Buckets :=
  map (fun e => if decide (fst e = t) then (t, b) else e) buckets.
Record Enforcement : Type := mkEnforcement {
  en_blocks : list ContextBlock;
  en_buckets : Buckets;
  en_dropped : list string;
  en_truncated : list string;
}.
(** The truncation of one block: its content, and the excess cut off *)
Definition excess_of (limit : Z) (content : string) : Z := Z.max 0 (str_length content - limit * CHARS_PER_TOKEN_ESTIMATE).
Definition cut_block (limit : Z) (block : ContextBlock) : ContextBlock :=
  set_content (slice 0 (Z.to_nat (str_length (bk_content block) - excess_of limit (bk_content block))) (bk_content block))
    (bk_tokenEstimate block) block.
(** One bucket of the drop order *)
Definition enforce_bucket (s : Enforcement) (bucketType : BucketType) : Enforcement :=
  match get_bucket bucketType (en_buckets s) with
  | None => s
  | Some bucket =>
      if bu_current bucket <=? bu_limit bucket then s
      else
        let in_bucket b := bool_decide (mapBlockTypeToBucket (bk_type b) = bucketType) in
        let blocksInBucket := List.filter in_bucket (en_blocks s) in
        match bu_policy bucket with
        | DROP =>
            mkEnforcement (List.filter (fun b => negb (in_bucket b)) (en_blocks s))
              (put_bucket bucketType (set_current 0 bucket) (en_buckets s))
              (en_dropped s ++ map bk_id blocksInBucket) (en_truncated s)
        | TRUNCATE =>
            let cuts b := existsb (fun b' => String.eqb (bk_id b') (bk_id b)) blocksInBucket &&
                          (0 <? excess_of (bu_limit bucket) (bk_content b)) in
            let cut := List.filter cuts (en_blocks s) in
            let truncatedTokens := sum_of (fun b =>
              (excess_of (bu_limit bucket) (bk_content b) + CHARS_PER_TOKEN_ESTIMATE - 1) / CHARS_PER_TOKEN_ESTIMATE) cut in
            mkEnforcement (map (fun b => if cuts b then cut_block (bu_limit bucket) b else b) (en_blocks s))
              (put_bucket bucketType (set_current (bu_current bucket - truncatedTokens) bucket) (en_buckets s))
              (en_dropped s) (en_truncated s ++ map bk_id cut)
        | REJECT => s
        end
  end.
(** The argument [_dropOrder] is not used. *)
Definition enforce (blocks : list ContextBlock) (buckets : Buckets) : list ContextBlock * TokenBudgetReport :=
  let s := foldl enforce_bucket (mkEnforcement blocks buckets [] []) DROP_ORDER in
  (en_blocks s,
   mkReport (sum_of (fun e => bu_current (snd e)) (en_buckets s)) (map (fun e => (fst e, bu_current (snd e))) (en_buckets s))
     (en_dropped s) (en_truncated s)
     (map (fun id => "Dropped block: " +:+ id) (en_dropped s) ++
      map (fun id => "Truncated block: " +:+ id) (en_truncated s))).

(** * PromptComposer.ts *)

Definition SYSTEM_PROMPT : string := Js.join newline
  ["You are a helpful AI assistant specialized in reading, understanding, and modifying code repositories.";
   "";
   "You have access to the following context about the repository structure, recent changes, and conversation history.";
   "Use this information to understand the codebase and respond to the user's requests accurately and thoughtfully.";
   "";
   "Guidelines:";
   "- Be concise and direct in your responses";
   "- Explain your reasoning and approach";
   "- Respect the user's intent and preferences";
   "- Ask for clarification if you need more information";
   "- Provide code examples when relevant";
   "- Consider the impact of changes on the broader codebase";
   "";
   "When making code changes:";
   "1. Explain what you're changing and why";
   "2. Consider error handling and edge cases";
   "3. Follow existing code patterns and conventions";
   "4. Test your changes mentally or suggest test cases"].
Definition getSystemPrompt : string := SYSTEM_PROMPT.
Definition block_lines (b : ContextBlock) : list string :=
  ["### " +:+ replaceAll "_" " " (block_type_str (bk_type b)) +:+ newline; bk_content b; newline].
Definition buildUserPrompt (blocks : list ContextBlock) (userMessage : string) : string :=
  Js.join newline
    (match blocks with
     | [] => []
     | _ => ["## Repository Context" +:+ newline] ++ flat_map block_lines blocks ++ [newline +:+ "---" +:+ newline]
     end ++ ["## Your Request" +:+ newline; userMessage]).
Definition compose (blocks : list ContextBlock) (userMessage : string) : string * string :=
  (SYSTEM_PROMPT, buildUserPrompt blocks userMessage).

(** * ContextBuilder.ts *)

(** Fields that may be missing are options, as [validateInput] allows for; of the
    intent there is its [primary]. *)
Record ContextBuilderInput : Type := mkBuilderInput {
  bi_userMessage : option string;
  bi_intent : option (option string);
  bi_repoSummary : option json;
  bi_chatHistory : option (list ChatTurn);
  bi_maxTokens : option Z;
}.
Record ContextBuilderOutput : Type := mkBuilderOutput {
  bo_systemPrompt : string;
  bo_userPrompt : string;
  bo_contextBlocks : list ContextBlock;
  bo_tokenReport : TokenBudgetReport;
  bo_intent : string;
  bo_strategyUsed : string;
}.
Definition validateInput (input : ContextBuilderInput) : res context_error (string * string * json) :=
  let userMessage := default "" (bi_userMessage input) in
  if String.eqb (trim userMessage) "" then Err (ValidationError "userMessage")
  else match bi_intent input with
       | None => Err (ValidationError "intent")
       | Some primary =>
           match truthy primary with
           | None => Err (ValidationError "intent.primary")
           | Some intent =>
               match bi_repoSummary input with
               | Some value =>
                   if json_truthy (Some value) then Ok (userMessage, intent, value)
                   else Err (ValidationError "repoSummary")
               | None => Err (ValidationError "repoSummary")
               end
           end
       end.
(** [timestamp] is left out. *)
Definition build_context `{!JsRuntime, !Emoji, !Tokenizer} (input : ContextBuilderInput)
    : res context_error ContextBuilderOutput :=
  valid ← validateInput input;
  let '(userMessage, intent, repoSummary) := valid in
  strategy ← resolve intent;
  blocks ← assemble repoSummary (bi_chatHistory input) strategy;
  let systemPrompt := getSystemPrompt in
  allocated ← calculate blocks systemPrompt userMessage (default DEFAULT_MAX_TOKENS (bi_maxTokens input));
  let '(allocatedBlocks, budgetReport) := allocated in
  let userPrompt := snd (compose allocatedBlocks userMessage) in
  Ok (mkBuilderOutput systemPrompt userPrompt allocatedBlocks budgetReport intent (sg_intent strategy)).

(** What the budget calculator of context-builder takes and drops, by how much the
    blocks it takes can exceed the budget, and why its builder always throws. *)
From Stdlib Require Import Ascii Sorting.Sorted.

(** * Sorting by priority *)

Lemma insert_block_perm b l : Permutation (insert_block b l) (b :: l).
Proof.
  induction l as [|b' l IH]; [done|]. cbn. destruct (_ <=? _); [done|]. rewrite IH. apply Permutation_swap.
Qed.
Lemma sort_blocks_perm l : Permutation (sort_blocks l) l.
Proof.
  induction l as [|b l IH]; [done|]. change (sort_blocks (b :: l)) with (insert_block b (sort_blocks l)).
  by rewrite insert_block_perm, IH.
Qed.
Definition descending (l : list ContextBlock) : Prop := StronglySorted (fun a b => bk_priority b <= bk_priority a) l.
Lemma insert_block_sorted b l : descending l -> descending (insert_block b l).
Proof.
  unfold descending. induction 1 as [|b' l Hs IH Hall]; cbn; [repeat constructor|].
  destruct (Z.leb_spec (bk_priority b') (bk_priority b)) as [Hle|Hgt].
  - constructor; [by constructor|]. constructor; [done|]. eapply Forall_impl; [exact Hall|]. intros x Hx. cbn in *. lia.
  - constructor; [done|]. rewrite insert_block_perm. constructor; [lia|done].
Qed.
Lemma sort_blocks_sorted l : descending (sort_blocks l).
Proof. induction l as [|b l IH]; [constructor|]. by apply insert_block_sorted. Qed.

(** * The allocation *)

Section Allocations.
Context `{!Tokenizer}.

Definition spent (l : list ContextBlock) : Z := sum_of bk_tokenEstimate l.
(** A block taken: the whole block, within the limit of its bucket, or the cut content of
    a block of the truncating bucket *)
Definition taken_from (blocks : list ContextBlock) (truncated : list string) (b : ContextBlock) : Prop :=
  exists b0, b0 ∈ blocks /\ bk_id b = bk_id b0 /\ bk_type b = bk_type b0 /\ bk_priority b = bk_priority b0 /\
    bk_tokenEstimate b = countTokens (bk_content b) /\
    (bk_content b = bk_content b0 /\ bk_tokenEstimate b <= bu_limit (getBucketForBlockType (bk_type b0)) \/
     bu_policy (getBucketForBlockType (bk_type b0)) = TRUNCATE /\ bk_id b0 ∈ truncated).

(** The loop after the blocks [seen] *)
Record allocated (available : Z) (blocks seen : list ContextBlock) (a : Allocation) : Prop := {
  ac_remaining : al_remaining a = available - spent (al_blocks a);
  ac_overrun : forall l b, al_blocks a = l ++ [b] -> spent l < available;
  ac_ids : Permutation (map bk_id (al_blocks a) ++ al_dropped a) (map bk_id seen);
  ac_order : sublist (map bk_priority (al_blocks a)) (map bk_priority seen);
  ac_taken : Forall (taken_from blocks (al_truncated a)) (al_blocks a);
  ac_truncated : al_truncated a ⊆ map bk_id (al_blocks a);
}.

Lemma spent_app l b : spent (l ++ [b]) = spent l + bk_tokenEstimate b.
Proof. unfold spent. rewrite sum_of_app, sum_of_cons. change (sum_of bk_tokenEstimate []) with 0. lia. Qed.

Lemma drop_allocated available blocks seen b a :
  allocated available blocks seen a -> allocated available blocks (seen ++ [b]) (drop_block (bk_id b) a).
Proof.
  intros [Hr Ho Hi Hs Ht Hc]. split; cbn; try done.
  - rewrite map_app, app_assoc, Hi. done.
  - rewrite map_app. by apply sublist_inserts_r.
Qed.
Lemma take_allocated available blocks seen b content tokens truncated a :
  allocated available blocks seen a -> 0 < al_remaining a ->
  al_truncated a ⊆ truncated -> truncated ⊆ bk_id b :: al_truncated a ->
  taken_from blocks truncated (set_content content tokens b) ->
  allocated available blocks (seen ++ [b])
    (mkAllocation (al_remaining a - tokens) (al_blocks a ++ [set_content content tokens b]) (al_dropped a) truncated).
Proof.
  intros [Hr Ho Hi Hs Ht Hc] Hpos Hsub Hsup Htaken. split; cbn.
  - rewrite spent_app. cbn. lia.
  - intros l b' [<- _]%app_inj_tail. lia.
  - rewrite !map_app. cbn. rewrite <- Hi. rewrite <- !app_assoc. apply Permutation_app_head. apply Permutation_app_comm.
  - rewrite !map_app. cbn. by apply sublist_app.
  - apply Forall_app. split; [|by constructor]. eapply Forall_impl; [exact Ht|].
    intros x (b0 & H1 & H2 & H3 & H4 & H5 & H6). exists b0. split_and!; try done. destruct H6 as [|[? ?]]; [by left|].
    right. set_solver.
  - rewrite map_app. set_solver.
Qed.

Lemma block_allocated available blocks seen b a a' :
  b ∈ blocks -> allocated available blocks seen a -> allocate_block b a = Ok a' ->
  allocated available blocks (seen ++ [b]) a'.
Proof.
  intros Hb Ha. unfold allocate_block. destruct (Z.leb_spec (al_remaining a) 0) as [|Hpos].
  { intros [= <-]. by apply drop_allocated. }
  destruct ((countTokens (bk_content b) <=? _) && _) eqn:Efit.
  { intros [= <-]. apply andb_true_iff in Efit as [Efit _]. apply Z.leb_le in Efit.
    apply take_allocated; [done|done|done|set_solver|]. exists b. split_and!; try done. by left. }
  destruct (bu_policy (getBucketForBlockType (bk_type b))) eqn:Ep.
  - by destruct (bk_type b).
  - intros [= <-]. by apply drop_allocated.
  - destruct (truncateToTokenLimit _ _) as [content|]; [|done]. cbn. intros [= <-].
    destruct (0 <? countTokens content); [|by apply drop_allocated].
    unfold mark_truncated, take_block. cbn [al_remaining al_blocks al_dropped al_truncated].
    apply (take_allocated available blocks seen b content (countTokens content) (al_truncated a ++ [bk_id b]));
      [done|done|set_solver|set_solver|]. exists b. split_and!; try done. right. set_solver.
Qed.
Lemma blocks_allocated available blocks rest : forall seen a a',
  rest ⊆ blocks -> allocated available blocks seen a -> allocate_blocks rest a = Ok a' ->
  allocated available blocks (seen ++ rest) a'.
Proof.
  induction rest as [|b rest IH]; intros seen a a' Hsub Ha; cbn [allocate_blocks].
  { intros [= <-]. by rewrite app_nil_r. }
  destruct (allocate_block b a) as [a1|] eqn:E1; [|done]. cbn. intros E2.
  replace (seen ++ b :: rest) with ((seen ++ [b]) ++ rest) by by rewrite <- app_assoc.
  eapply IH; [set_solver| |exact E2]. eapply block_allocated; [set_solver|exact Ha|done].
Qed.
End Allocations.

Lemma sorted_sublist (l l' : list Z) :
  sublist l l' -> StronglySorted (fun a b => b <= a) l' -> StronglySorted (fun a b => b <= a) l.
Proof.
  induction 1 as [|x l l' Hs IH|x l l' Hs IH]; [done|..]; intros [Hl Hall]%StronglySorted_inv; [|auto].
  constructor; [auto|]. apply Forall_forall. intros y Hy.
  eapply Forall_forall in Hall; [exact Hall|]. eapply elem_of_submseteq; [exact Hy|by apply sublist_submseteq].
Qed.
Lemma descending_map l : descending l <-> StronglySorted (fun a b => b <= a) (map bk_priority l).
Proof.
  unfold descending. induction l as [|b l IH]; cbn; [split; constructor|].
  split; intros [Hl Hall]%StronglySorted_inv; constructor; try (by apply IH); by rewrite List.Forall_map in *.
Qed.

(** When [calculate] returns, every block was taken, cut or dropped exactly once; the
    blocks taken are in order of priority, each whole and within the limit of its kind or
    the cut content of a block of a kind that is cut; and all of them but the last cost
    less than the tokens available, so that the budget is exceeded by less than the
    last block - and nothing is taken when nothing is available.  What is reported as
    used is the system prompt and the message alone. *)
Theorem calculate_overrun `{!Tokenizer} blocks systemPrompt userMessage maxTokens taken report :
  calculate blocks systemPrompt userMessage maxTokens = Ok (taken, report) ->
  let available := maxTokens - countTokens systemPrompt - countTokens userMessage in
  Permutation (map bk_id taken ++ tr_droppedBlocks report) (map bk_id blocks) /\
  descending taken /\
  Forall (taken_from blocks (tr_truncatedBlocks report)) taken /\
  (forall l b, taken = l ++ [b] -> spent l < available) /\
  tr_totalUsed report = countTokens systemPrompt + countTokens userMessage.
Proof.
  unfold calculate. destruct (_ <? countTokens systemPrompt); [done|]. destruct (_ <? countTokens userMessage); [done|].
  set (available := maxTokens - _ - _). destruct (allocate_blocks _ _) as [a|] eqn:Ea; [|done]. cbn [mbind res_bind].
  intros [= <- <-]. cbn zeta. cbn [tr_droppedBlocks tr_truncatedBlocks tr_totalUsed].
  assert (H0' : allocated available blocks [] (mkAllocation available [] [] [])).
  { split; cbn; [by rewrite Z.sub_0_r|by intros [|? ?] ? ?|done|constructor|constructor|set_solver]. }
  apply (blocks_allocated available blocks (sort_blocks blocks) []) in Ea as [Hr Ho Hi Hs Ht Hc]; [| |done].
  2: { intros b. by rewrite sort_blocks_perm. }
  rewrite app_nil_l in Hi, Hs. split_and!; [|..|unfold sum_of; cbn; lia].
  - rewrite Hi. by rewrite sort_blocks_perm.
  - apply descending_map. eapply sorted_sublist; [exact Hs|]. apply descending_map, sort_blocks_sorted.
  - done.
  - done.
Qed.

(** * The builder *)

Section Builder.
Context `{!JsRuntime, !Emoji, !Tokenizer}.

(** No strategy has the name of an intent the classifier finds. *)
Lemma intent_unknown i : resolve (intent_str i) = Err (UnknownIntent (intent_str i)).
Proof. by destruct i. Qed.
(** A summary without a commit hash cannot be described. *)
Lemma summary_needs_commit fields :
  dget "commitHash" fields = None -> assembleRepoSummaryBlock (JObj fields) = Err TypeError.
Proof. intros Hc. unfold assembleRepoSummaryBlock. cbn [prop mbind res_bind]. by rewrite Hc. Qed.

(** With an intent the classifier found, whatever the message and the rest of the input,
    [build] throws. *)
Theorem classified_never_builds message input :
  bi_intent input = Some (Some (intent_str (ic_primary (classifyIntent message)))) ->
  exists e, build_context input = Err e /\
    (e = UnknownIntent (intent_str (ic_primary (classifyIntent message))) \/ exists field, e = ValidationError field).
Proof.
  intros Hi. unfold build_context, validateInput. rewrite Hi. set (i := ic_primary _). clearbody i.
  destruct (String.eqb (trim _) ""); [cbn; eauto|].
  replace (truthy (Some (intent_str i))) with (Some (intent_str i)) by by destruct i.
  destruct (bi_repoSummary input) as [value|]; [|cbn; eauto].
  destruct (json_truthy (Some value)); [|cbn; eauto]. cbn [mbind res_bind]. rewrite intent_unknown. eauto.
Qed.
End Builder.

Module BudgetDemo.
#[local] Existing Instance iso_runtime.
(** A token for each character *)
#[local] Instance char_tokens : Tokenizer := {|
  encode text := Some (map (fun c => Z.of_nat (nat_of_ascii c)) (String.list_ascii_of_string text));
  decode tokens := String.string_of_list_ascii (map (fun n => ascii_of_nat (Z.to_nat n)) tokens)
|}.
Fixpoint chars (n : nat) : string := match n with O => "" | S n' => String "x" (chars n') end.
Definition block (id : string) (t : ContextBlockType) (priority : Z) (n : nat) : ContextBlock :=
  mkBlock id t priority (chars n) 0.
Definition blocks : list ContextBlock :=
  [block "a" DIFFS 5 30; block "b" FILE_LIST 9 60; block "c" CHAT 3 20; block "d" TESTS 1 10].

Lemma calculate_overrun_witness :
  exists taken report, calculate blocks "sys" "user" 107 = Ok (taken, report) /\
    Permutation (map bk_id taken ++ tr_droppedBlocks report) (map bk_id blocks) /\
    (forall l b, taken = l ++ [b] -> spent l < 107 - 3 - 4).
Proof.
  eexists _, _. split; [vm_compute; reflexivity|].
  edestruct (calculate_overrun blocks "sys" "user" 107) as (H1 & H2 & H3 & H4 & H5); [vm_compute; reflexivity|].
  split; [exact H1|exact H4].
Defined.

(** One block can exceed all that is available, two blocks of a kind its limit; the report
    counts neither. *)
Example block_above_budget :
  match calculate [block "a" DIFFS 5 300] "sys" "user" 20 with
  | Ok (taken, report) => spent taken = 300 /\ tr_totalUsed report = 7
  | Err _ => False
  end.
Proof. vm_compute. split; reflexivity. Qed.
Example limit_per_block :
  match calculate [block "a" CHAT 5 1500; block "b" CHAT 5 1500] "sys" "user" 13500 with
  | Ok (taken, _) => BUCKET_LIMITS b_CHAT_HISTORY < spent taken
  | Err _ => False
  end.
Proof. by vm_compute. Qed.

(** The enforcer cuts each block to the limit of the bucket, not the bucket. *)
Example enforced_above_limit :
  let bucket := mkBucket b_CONTEXT_BLOCKS 10 TRUNCATE 30 in
  let '(_, report) := enforce [block "a" DIFFS 1 40; block "b" TESTS 1 40; block "c" FILE_LIST 1 40]
                        [(b_CONTEXT_BLOCKS, bucket)] in
  tr_truncatedBlocks report = [] /\ tr_totalUsed report = 30.
Proof. vm_compute. split; reflexivity. Qed.
End BudgetDemo.
