(* ===== verification/Toolbox.v ===== *)
(** How the sandbox service runs a command: SafeCommand.ts and
    ToolboxCommandContext.ts of [apps/secure-agent-api/src/plugins/security], and the
    policy, session and adapter of [apps/secure-agent-api/src/toolbox].  The sandbox
    is a port on a world of any type. *)
From S2P Require Import Prelude Js Regex Text.
From Stdlib Require Import Ascii.
#[local] Open Scope Z_scope.

(** * ToolboxSession.ts *)

Definition Env : Type := dict (option string).
Record ToolboxSessionRequest : Type := mkRequest {
  rq_runId : string;
  rq_toolName : string;
  rq_callId : string;
  rq_command : string;
  rq_args : option (list string);
  rq_env : option Env;
  rq_cwd : option string;
  rq_timeoutMs : option Z;
}.
Inductive ToolboxStatus : Type := tb_completed | tb_failed | tb_timeout.
#[export] Instance ToolboxStatus_eq_dec : EqDecision ToolboxStatus.
Proof. solve_decision. Defined.
Record ToolboxExecutionResult : Type := mkExecution {
  ex_sessionId : string;
  ex_runId : string;
  ex_toolName : string;
  ex_callId : string;
  ex_status : ToolboxStatus;
  ex_exitCode : Z;
  ex_stdout : string;
  ex_stderr : string;
  ex_durationMs : Z;
}.
Record ToolboxCommandResult : Type := mkCommandResult { cr_exitCode : Z; cr_stdout : string; cr_stderr : string }.

(** * ToolboxPolicyService.ts *)

(** [/[\0\r\n]/] *)
Definition multiline (s : string) : bool := has_char NUL s || has_char CR s || has_char LF s.
Definition command_char (c : ascii) : bool :=
  is_alnum c || Ascii.eqb c "." || Ascii.eqb c "_" || Ascii.eqb c "-".
Definition command_word (s : string) : bool := negb (String.eqb s "") && str_forall command_char s.
Definition command_name (s : string) : bool :=
  command_word s || startsWith "./" s && command_word (slice_from 2 s).
(** [None] is [allow], [Some reason] is [deny]. *)
Definition evaluate (request : ToolboxSessionRequest) (allowlist : list string) : option string :=
  let command := trim (rq_command request) in
  if negb (command_name command) then Some "Invalid command"
  else if negb (bool_decide (command ∈ allowlist)) then Some ("Command not allowed: " +:+ command)
  else if existsb multiline (default [] (rq_args request))
  then Some "Invalid command argument: multiline values are not allowed"
  else match truthy (rq_cwd request) with
       | Some cwd => if multiline cwd then Some "Invalid command cwd" else None
       | None => None
       end.

(** * The shell command *)

Definition single_quote : string := "'".
(** [value.replace(/'/g, `'"'"'`)] *)
Fixpoint escape_quotes (s : string) : string :=
  match s with
  | String c s' =>
      if Ascii.eqb c "'" then single_quote +:+ dquote +:+ single_quote +:+ dquote +:+ single_quote +:+ escape_quotes s'
      else String c (escape_quotes s')
  | EmptyString => ""
  end.
Definition escapeShellArg (value : string) : string := single_quote +:+ escape_quotes value +:+ single_quote.
Definition shell_line (command : string) (args : list string) : string :=
  Js.join " " (escapeShellArg command :: map escapeShellArg args).
Definition buildShellCommand (request : ToolboxSessionRequest) : string :=
  shell_line (rq_command request) (default [] (rq_args request)).

(** What may be thrown: an [Error] with its message, or another value with its text *)
Inductive sandbox_error : Type :=
| an_error (message : string)
| a_value (text : string).
Definition message_of_thrown (e : sandbox_error) : string := match e with an_error m => m | a_value t => t end.
Definition TIMED_OUT : string := "Toolbox execution timed out".

(** The sandbox, the clock and the random source.  [sb_times_out] is whether the timer
    of a command fires before the command settles. *)
Record Sandbox (W : Type) : Type := mkSandbox {
  sb_exec : string -> option string -> option Env -> ST W sandbox_error ToolboxCommandResult;
  sb_readFile : string -> ST W sandbox_error (bool * option string);
  sb_writeFile : string -> string -> ST W sandbox_error unit;
  sb_delay : Z -> ST W sandbox_error unit;
  sb_times_out : Z -> ST W sandbox_error bool;
  sb_now : W -> Z;
  sb_randomUUID : ST W sandbox_error string;
  sb_random36 : ST W sandbox_error string;
}.
Arguments sb_exec {W}.
Arguments sb_readFile {W}.
Arguments sb_writeFile {W}.
Arguments sb_delay {W}.
Arguments sb_times_out {W}.
Arguments sb_now {W}.
Arguments sb_randomUUID {W}.
Arguments sb_random36 {W}.

(** * CloudflareToolboxAdapter.ts *)

Definition SANDBOX_SESSION_RETRY_DELAYS_MS : list Z := [250; 750].
Definition isRetriableSandboxSessionError (e : sandbox_error) : bool :=
  match e with
  | an_error m => let message := toLowerCase m in
                  includes "http error! status: 500" message || includes "createsession" message
  | a_value _ => false
  end.

Section Toolbox.
Context {W : Type} (sandbox : Sandbox W).

(** The rounds of [while (true)], [delays] being those of the remaining retries *)
Fixpoint exec_with_retries (delays : list Z) (command : string) (cwd : option string) (env : option Env)
    : ST W sandbox_error ToolboxCommandResult :=
  try_catch (sb_exec sandbox command cwd env)
    (fun error =>
      match delays with
      | retryDelayMs :: delays' =>
          if isRetriableSandboxSessionError error then
            _ ← sb_delay sandbox retryDelayMs; exec_with_retries delays' command cwd env
          else throw error
      | [] => throw error
      end).
Definition executeWithSandboxSessionRetry (command : string) (cwd : option string) (env : option Env)
    : ST W sandbox_error ToolboxCommandResult := exec_with_retries SANDBOX_SESSION_RETRY_DELAYS_MS command cwd env.

(** * ToolboxSessionService.ts *)

Definition createSessionId (request : ToolboxSessionRequest) : ST W sandbox_error string :=
  uuid ← sb_randomUUID sandbox;
  mret (rq_runId request +:+ ":" +:+ rq_callId request +:+ ":" +:+ rq_toolName request +:+ ":" +:+ uuid).
Definition buildDeniedResult (request : ToolboxSessionRequest) (reason : string)
    : ST W sandbox_error ToolboxExecutionResult :=
  sessionId ← createSessionId request;
  mret (mkExecution sessionId (rq_runId request) (rq_toolName request) (rq_callId request) tb_failed 1 "" reason 0).
(** A command whose timer fires is not stopped: its effects, placed here before those of
    what follows, remain, and its outcome is dropped. *)
Definition abandoned {A} (m : ST W sandbox_error A) : ST W sandbox_error A := fun w => (Err (an_error TIMED_OUT), snd (m w)).
Definition runWithTimeout {A} (m : ST W sandbox_error A) (timeoutMs : option Z) : ST W sandbox_error A :=
  match timeoutMs with
  | Some ms =>
      if ms <=? 0 then m
      else timed_out ← sb_times_out sandbox ms; if (timed_out : bool) then abandoned m else m
  | None => m
  end.
(** The events published are log lines. *)
Definition session_execute (request : ToolboxSessionRequest) (allowlist : list string)
    : ST W sandbox_error ToolboxExecutionResult :=
  match evaluate request allowlist with
  | Some reason => buildDeniedResult request reason
  | None =>
      sessionId ← createSessionId request;
      startedAt ← gets (sb_now sandbox);
      let result status exitCode stdout stderr :=
        now ← gets (sb_now sandbox);
        mret (mkExecution sessionId (rq_runId request) (rq_toolName request) (rq_callId request) status exitCode
                stdout stderr (now - startedAt)) in
      try_catch
        (r ← runWithTimeout
               (executeWithSandboxSessionRetry (buildShellCommand request) (rq_cwd request) (rq_env request))
               (rq_timeoutMs request);
         result (if cr_exitCode r =? 0 then tb_completed else tb_failed) (cr_exitCode r) (cr_stdout r) (cr_stderr r))
        (fun error =>
          let isTimeout := match error with an_error m => String.eqb m TIMED_OUT | a_value _ => false end in
          result (if isTimeout then tb_timeout else tb_failed) (if isTimeout then 124 else 1) ""
            (message_of_thrown error))
  end.

(** * ToolboxCommandContext.ts and SafeCommand.ts *)

Record ToolboxCommandContext : Type := mkToolbox {
  tc_callId : option string;
  tc_runId : option string;
  tc_toolName : option string;
}.
Record SafeCommandSpec : Type := mkSpec {
  sp_command : string;
  sp_args : option (list string);
  sp_env : option Env;
  sp_cwd : option string;
  sp_runId : option string;
  sp_toolName : option string;
  sp_callId : option string;
  sp_timeoutMs : option Z;
}.
Definition coalesce {A} (a b : option A) : option A := match a with Some _ => a | None => b end.
Definition withToolboxCommandContext (spec : SafeCommandSpec) (context : ToolboxCommandContext)
    (toolName : option string) : SafeCommandSpec :=
  mkSpec (sp_command spec) (sp_args spec) (sp_env spec) (sp_cwd spec) (coalesce (sp_runId spec) (tc_runId context))
    (coalesce (coalesce (sp_toolName spec) toolName) (tc_toolName context)) (coalesce (sp_callId spec) (tc_callId context))
    (sp_timeoutMs spec).
Definition readOptionalString (value : option json) : option string :=
  match value with
  | Some (JStr s) => truthy (Some (trim s))
  | _ => None
  end.
(** The payload is an object, a primitive or an array; an array has no [__toolbox]. *)
Definition readToolboxCommandContext (payload : json) : ToolboxCommandContext :=
  match payload with
  | JObj fields =>
      match dget "__toolbox" fields with
      | Some (JObj record) =>
          mkToolbox (readOptionalString (dget "callId" record)) (readOptionalString (dget "runId" record))
            (readOptionalString (dget "toolName" record))
      | _ => mkToolbox None None None
      end
  | _ => mkToolbox None None None
  end.

Definition RUNS_PREFIX : string := "/home/sandbox/runs/".
(** The first match of [/\/home\/sandbox\/runs\/([A-Za-z0-9_-]{1,128})/] *)
Fixpoint match_run (s : string) : option string :=
  let rest := fst (span is_id_char (slice_from (String.length RUNS_PREFIX) s)) in
  if startsWith RUNS_PREFIX s && negb (String.eqb rest "") then Some (slice 0 128 rest)
  else match s with String _ s' => match_run s' | EmptyString => None end.
Fixpoint after_flag (args : list string) : option (option string) :=
  match args with
  | [] => None
  | arg :: args' => if String.eqb arg "-C" then Some (head args') else after_flag args'
  end.
Definition findWorkspacePathInArgs (args : option (list string)) : option string :=
  match args with
  | None => None
  | Some args =>
      match after_flag args with
      | Some next => next
      | None => List.find (startsWith "/home/sandbox/checkouts/") args
      end
  end.
Definition resolveToolboxRunId (spec : SafeCommandSpec) : string :=
  match truthy (sp_runId spec) with
  | Some runId => runId
  | None =>
      match truthy (coalesce (sp_cwd spec) (findWorkspacePathInArgs (sp_args spec))) with
      | None => "default"
      | Some candidate => default "default" (match_run candidate)
      end
  end.
Definition createToolCallId (command : string) : ST W sandbox_error string :=
  now ← gets (sb_now sandbox); suffix ← sb_random36 sandbox;
  mret (command +:+ "-" +:+ Number_toString now +:+ "-" +:+ suffix).
Definition runSafeCommand (spec : SafeCommandSpec) (allowlist : list string) : ST W sandbox_error ToolboxExecutionResult :=
  callId ← match sp_callId spec with Some id => mret id | None => createToolCallId (sp_command spec) end;
  session_execute
    (mkRequest (resolveToolboxRunId spec) (default (sp_command spec) (sp_toolName spec)) callId (sp_command spec)
       (sp_args spec) (sp_env spec) (sp_cwd spec) (sp_timeoutMs spec)) allowlist.
End Toolbox.

(** The commands of the toolbox: the shell reads the text that is executed as exactly
    the command and arguments the policy has looked at, and nothing else is executed. *)

(** * How a POSIX shell splits a simple command *)

(** Between words, in a word, or in one of its quoted parts *)
Inductive shell_state : Type := sh_gap | sh_plain | sh_single | sh_double.
Definition is_blank (c : ascii) : bool := Ascii.eqb c " " || Ascii.eqb c TAB.
Definition is_dquote (c : ascii) : bool := Ascii.eqb c (ascii_of_nat 34).
Definition is_escape (c : ascii) : bool := Ascii.eqb c (ascii_of_nat 92).
(** Characters that mean something other than themselves outside of quotes, and in
    double quotes *)
Definition shell_special (c : ascii) : bool :=
  has_char c "|&;<>()$`*?[#~=%!{}" || Ascii.eqb c LF || Ascii.eqb c NUL.
Definition expands_in_double (c : ascii) : bool := has_char c "$`" || Ascii.eqb c NUL.

(** The rest of the current word and the words after it; [None] when the text is not a
    sequence of words without expansions. *)
Fixpoint shell_read (st : shell_state) (s : string) : option (string * list string) :=
  match s with
  | EmptyString => match st with sh_gap | sh_plain => Some ("", []) | _ => None end
  | String c s' =>
      let literal st' := '(w, ws) ← shell_read st' s'; Some (String c w, ws) in
      let start (r : option (string * list string)) := '(w, ws) ← r; Some ("", w :: ws) in
      match st with
      | sh_single => if Ascii.eqb c "'" then shell_read sh_plain s' else literal sh_single
      | sh_double =>
          if is_dquote c then shell_read sh_plain s'
          else if expands_in_double c || is_escape c then None
          else literal sh_double
      | sh_gap =>
          if is_blank c then shell_read sh_gap s'
          else if Ascii.eqb c "'" then start (shell_read sh_single s')
          else if is_dquote c then start (shell_read sh_double s')
          else if shell_special c || is_escape c then None
          else start (literal sh_plain)
      | sh_plain =>
          if is_blank c then '(_, ws) ← shell_read sh_gap s'; Some ("", ws)
          else if Ascii.eqb c "'" then shell_read sh_single s'
          else if is_dquote c then shell_read sh_double s'
          else if shell_special c || is_escape c then None
          else literal sh_plain
      end
  end.
Definition shell_words (s : string) : option (list string) := snd <$> shell_read sh_gap s.

Lemma single_close s : shell_read sh_single (String "'" s) = shell_read sh_plain s.
Proof. done. Qed.
Lemma single_literal c s :
  Ascii.eqb c "'" = false -> shell_read sh_single (String c s) = '(w, ws) ← shell_read sh_single s; Some (String c w, ws).
Proof. intros Hc. cbn [shell_read]. by rewrite Hc. Qed.
(** [escape_quotes] turns a quote into one that is closed, quoted and opened again. *)
Lemma single_requoted s :
  shell_read sh_single (single_quote +:+ dquote +:+ single_quote +:+ dquote +:+ single_quote +:+ s) =
  '(w, ws) ← shell_read sh_single s; Some (String "'" w, ws).
Proof. done. Qed.

Lemma read_quoted v t :
  shell_read sh_single (escape_quotes v +:+ single_quote +:+ t) = '(w, ws) ← shell_read sh_plain t; Some (v +:+ w, ws).
Proof.
  induction v as [|c v IH]; cbn [escape_quotes].
  - unfold single_quote. rewrite append_nil_l, append_cons, append_nil_l, single_close.
    by destruct (shell_read sh_plain t) as [[]|].
  - destruct (Ascii.eqb c "'") eqn:Hc.
    + apply Ascii.eqb_eq in Hc as ->. rewrite !append_assoc, single_requoted, IH.
      by destruct (shell_read sh_plain t) as [[]|].
    + rewrite append_cons, single_literal, IH by done. by destruct (shell_read sh_plain t) as [[]|].
Qed.
Lemma read_argument v t :
  shell_read sh_gap (escapeShellArg v +:+ t) = '(w, ws) ← shell_read sh_plain t; Some ("", (v +:+ w) :: ws).
Proof.
  unfold escapeShellArg. rewrite !append_assoc.
  change (single_quote +:+ ?s) with (String "'" s) at 1.
  change (shell_read sh_gap (String "'" ?s)) with ('(w, ws) ← shell_read sh_single s; Some ("", w :: ws)).
  rewrite read_quoted. by destruct (shell_read sh_plain t) as [[]|].
Qed.
Lemma shell_line_read args : forall command,
  shell_read sh_gap (shell_line command args) = Some ("", command :: args).
Proof.
  unfold shell_line. induction args as [|arg args IH]; intros command; cbn [map].
  - cbn [Js.join]. rewrite <- (append_nil_r (escapeShellArg command)), read_argument. cbn. by rewrite append_nil_r.
  - change (Js.join " " (?x :: ?y :: ?l)) with (x +:+ " " +:+ Js.join " " (y :: l)). rewrite read_argument.
    change (shell_read sh_plain (" " +:+ ?s)) with ('(_, ws) ← shell_read sh_gap s; Some ("", ws)).
    rewrite IH. cbn. by rewrite append_nil_r.
Qed.
Lemma shell_line_words command args : shell_words (shell_line command args) = Some (command :: args).
Proof. unfold shell_words. by rewrite shell_line_read. Qed.

(** * What is executed *)

Section Executed.
Context {W : Type} (sandbox : Sandbox W).
Variable log : W -> list string.

(** The world records the commands given to the sandbox, and nothing else changes the
    record. *)
Class Logged : Prop := {
  lg_exec command cwd env w : log (snd (sb_exec sandbox command cwd env w)) = log w ++ [command];
  lg_delay ms w : log (snd (sb_delay sandbox ms w)) = log w;
  lg_times_out ms w : log (snd (sb_times_out sandbox ms w)) = log w;
  lg_uuid w : log (snd (sb_randomUUID sandbox w)) = log w;
  lg_random w : log (snd (sb_random36 sandbox w)) = log w;
}.
Context `{!Logged}.

Lemma retries_executed command cwd env delays : forall w,
  exists n, (1 <= n <= S (length delays))%nat /\
    log (snd (exec_with_retries sandbox delays command cwd env w)) = log w ++ repeat command n.
Proof.
  induction delays as [|ms delays IH]; intros w; cbn [exec_with_retries]; unfold try_catch;
    pose proof (lg_exec command cwd env w) as He; destruct (sb_exec _ _ _ _ _) as [[r|e] w1]; cbn [snd] in *;
    try (by exists 1%nat; split; [cbn; lia|]).
  destruct (isRetriableSandboxSessionError e); [|by exists 1%nat; split; [cbn; lia|]].
  unfold mbind, ST_bind. pose proof (lg_delay ms w1) as Hd.
  destruct (sb_delay sandbox ms w1) as [[[]|e'] w2]; cbn [snd] in *; rewrite He in Hd.
  - destruct (IH w2) as (n & Hn & Hl). exists (S n). cbn [length]. split; [lia|]. by rewrite Hl, Hd, <- app_assoc.
  - exists 1%nat. cbn [length]. split; [lia|done].
Qed.
(** The command with its timer: a normal result is one of the sandbox. *)
Lemma timed_executed command cwd env timeoutMs w :
  let '(r, w') := runWithTimeout sandbox (executeWithSandboxSessionRetry sandbox command cwd env) timeoutMs w in
  exists k, (k <= 3)%nat /\ log w' = log w ++ repeat command k /\ (is_ok r = true -> k <> 0%nat).
Proof.
  assert (Hrun : forall w1, log w1 = log w ->
    let '(r, w') := executeWithSandboxSessionRetry sandbox command cwd env w1 in
    exists k, (k <= 3)%nat /\ log w' = log w ++ repeat command k /\ (is_ok r = true -> k <> 0%nat)).
  { intros w1 Hw. unfold executeWithSandboxSessionRetry.
    destruct (retries_executed command cwd env SANDBOX_SESSION_RETRY_DELAYS_MS w1) as (n & Hn & Hl).
    cbn [length SANDBOX_SESSION_RETRY_DELAYS_MS] in Hn. destruct (exec_with_retries _ _ _ _ _ _) as [r w2].
    cbn [snd] in Hl. exists n. rewrite <- Hw. split_and!; [lia|done|lia]. }
  unfold runWithTimeout. destruct timeoutMs as [ms|]; [|by apply Hrun]. destruct (ms <=? 0); [by apply Hrun|].
  unfold mbind, ST_bind. pose proof (lg_times_out ms w) as Ht.
  destruct (sb_times_out sandbox ms w) as [[[]|e] w1]; cbn [snd] in Ht; [|by apply Hrun|].
  - specialize (Hrun w1 Ht). unfold abandoned. destruct (executeWithSandboxSessionRetry _ _ _ _ _) as [r w2].
    destruct Hrun as (k & Hk & Hl & _). by exists k.
  - exists 0%nat. rewrite app_nil_r. split_and!; try lia; done.
Qed.

(** What the policy asks of a command: its name is a plain word of the allowlist, and
    its arguments and its directory are each on one line. *)
Definition permitted (allowlist : list string) (command : string) (args : list string) (cwd : option string) : Prop :=
  command_name (trim command) = true /\ trim command ∈ allowlist /\ Forall (fun arg => multiline arg = false) args /\
  match cwd with Some cwd => multiline cwd = false | None => True end.
Lemma evaluate_permitted request allowlist :
  evaluate request allowlist = None <->
  permitted allowlist (rq_command request) (default [] (rq_args request)) (rq_cwd request).
Proof.
  assert (Hargs : existsb multiline (default [] (rq_args request)) = false <->
                  Forall (fun arg => multiline arg = false) (default [] (rq_args request))).
  { rewrite Forall_forall, <- not_true_iff_false, existsb_exists. split.
    - intros Hn arg Harg. destruct (multiline arg) eqn:Em; [|done]. destruct Hn. exists arg. by rewrite <- list_elem_of_In.
    - intros Hall (arg & Harg & Hm). apply list_elem_of_In, Hall in Harg. congruence. }
  assert (Hcwd : match truthy (rq_cwd request) with Some cwd => if multiline cwd then Some "Invalid command cwd" else None | None => None end = None
                 <-> match rq_cwd request with Some cwd => multiline cwd = false | None => True end).
  { destruct (rq_cwd request) as [[|c cwd]|]; cbn [truthy]; try done. by destruct (multiline _). }
  unfold evaluate, permitted. rewrite <- Hargs, <- Hcwd. destruct (command_name _); cbn [negb]; [|by split; [|intros []]].
  destruct (bool_decide_reflect (trim (rq_command request) ∈ allowlist)); cbn [negb]; [|by split; [|intros (_ & ? & _)]].
  destruct (existsb _ _); [by split; [|intros (_ & _ & ? & _)]|]. split; [by intros ?|by intros (_ & _ & _ & ?)].
Qed.

Definition ran (allowlist : list string) (command : string) (args : list string) (cwd : option string) (before : list string)
    (r : res sandbox_error ToolboxExecutionResult) (w : W) : Prop :=
  exists k, (k <= 3)%nat /\ log w = before ++ repeat (shell_line command args) k /\
    (k <> 0%nat -> permitted allowlist command args cwd) /\
    match r with
    | Ok result => (ex_status result = tb_completed <-> ex_exitCode result = 0) /\
                   (ex_status result = tb_completed -> k <> 0%nat)
    | Err _ => k = 0%nat
    end.

Lemma session_id request w : log (snd (createSessionId sandbox request w)) = log w.
Proof.
  unfold createSessionId, mbind, ST_bind. pose proof (lg_uuid w) as Hu. by destruct (sb_randomUUID sandbox w) as [[]].
Qed.
Lemma session_runs request allowlist w :
  let '(r, w') := session_execute sandbox request allowlist w in
  ran allowlist (rq_command request) (default [] (rq_args request)) (rq_cwd request) (log w) r w'.
Proof.
  unfold session_execute. pose proof (session_id request w) as Hs. destruct (evaluate request allowlist) eqn:Ee.
  { unfold buildDeniedResult. unfold mbind at 1, ST_bind at 1. destruct (createSessionId _ _ _) as [[id|e] w1];
      exists 0%nat; rewrite app_nil_r; split_and!; try lia; try done. }
  apply evaluate_permitted in Ee. unfold mbind at 1, ST_bind at 1.
  destruct (createSessionId _ _ _) as [[id|e] w1]; cbn [snd] in Hs;
    [|exists 0%nat; rewrite app_nil_r; split_and!; try lia; done].
  unfold mbind at 1, ST_bind at 1. cbn [gets]. unfold try_catch. unfold mbind at 1, ST_bind at 1.
  pose proof (timed_executed (buildShellCommand request) (rq_cwd request) (rq_env request) (rq_timeoutMs request) w1) as Ht.
  destruct (runWithTimeout _ _ _ _) as [[c|e] w2]; destruct Ht as (k & Hk & Hl & Hok); rewrite Hs in Hl;
    exists k; (split; [done|]); (split; [exact Hl|]); (split; [done|]); cbn.
  - destruct (Z.eqb_spec (cr_exitCode c) 0); split; try done. by intros _; apply Hok.
  - destruct (match e with an_error m => _ | a_value _ => _ end); done.
Qed.

Lemma safe_command_ran spec allowlist w :
  let '(r, w') := runSafeCommand sandbox spec allowlist w in
  ran allowlist (sp_command spec) (default [] (sp_args spec)) (sp_cwd spec) (log w) r w'.
Proof.
  unfold runSafeCommand. unfold mbind at 1, ST_bind at 1.
  set (callId := match sp_callId spec with Some id => mret id | None => _ end).
  assert (Hid : log (snd (callId w)) = log w).
  { subst callId. destruct (sp_callId spec); [done|]. unfold createToolCallId, mbind, ST_bind. cbn [gets].
    pose proof (lg_random w) as Hr. by destruct (sb_random36 sandbox w) as [[]]. }
  destruct (callId w) as [[id|e] w1]; cbn [snd] in Hid; [|exists 0%nat; rewrite app_nil_r; split_and!; try lia; done].
  rewrite <- Hid. apply (session_runs (mkRequest _ _ _ _ _ _ _ _)).
Qed.

(** C13. Whatever the sandbox answers, one call of [runSafeCommand] executes one text only,
    at most three times, which a shell reads as exactly the command and the arguments it was given: nothing in an
    argument ends a word, starts another command or is expanded.  It executes it only
    if the policy permits it - a command of the allowlist, its name a plain word, each
    argument and the directory on one line.  It does not throw once it has executed
    something; and a result is [completed] exactly when its exit code is 0, which
    only an executed command has. *)
Theorem command_runs_as_given spec allowlist w :
  let command := sp_command spec in
  let args := default [] (sp_args spec) in
  shell_words (shell_line command args) = Some (command :: args) /\
  let '(r, w') := runSafeCommand sandbox spec allowlist w in
  exists k, (k <= 3)%nat /\ log w' = log w ++ repeat (shell_line command args) k /\
    (k <> 0%nat -> permitted allowlist command args (sp_cwd spec)) /\
    match r with
    | Ok result => (ex_status result = tb_completed <-> ex_exitCode result = 0) /\
                   (ex_status result = tb_completed -> k <> 0%nat)
    | Err _ => k = 0%nat
    end.
Proof. split; [apply shell_line_words|apply safe_command_ran]. Qed.
End Executed.

Module ToolboxDemo.
(** The first attempt fails with an error that is tried again. *)
Definition sandbox : Sandbox (list string) := mkSandbox _
  (fun command _ _ w => (if (length w <? 1)%nat then Err (an_error "HTTP error! status: 500")
                         else Ok (mkCommandResult 0 "ok" ""), w ++ [command]))
  (fun _ w => (Ok (false, None), w)) (fun _ _ w => (Ok tt, w)) (fun _ w => (Ok tt, w)) (fun _ w => (Ok false, w))
  (fun _ => 0) (fun w => (Ok "uuid", w)) (fun w => (Ok "abc", w)).
#[local] Instance logged : Logged sandbox id.
Proof. by split. Qed.
Definition spec : SafeCommandSpec :=
  mkSpec "ls" (Some ["-1p"; "/w/it's; rm -rf $HOME"]) None None (Some "run-1") None None None.
Example retried :
  match runSafeCommand sandbox spec ["ls"] [] with
  | (Ok result, w) => ex_status result = tb_completed /\ length w = 2%nat /\
                      Forall (fun line => shell_words line = Some ["ls"; "-1p"; "/w/it's; rm -rf $HOME"]) w
  | _ => False
  end.
Proof. vm_compute. split_and!; repeat constructor. Qed.
Lemma command_runs_as_given_witness :
  shell_words (shell_line "ls" ["-1p"; "/w/it's; rm -rf $HOME"]) = Some ["ls"; "-1p"; "/w/it's; rm -rf $HOME"] /\
  let '(r, w') := runSafeCommand sandbox spec ["ls"] [] in
  exists k, (k <= 3)%nat /\ w' = repeat (shell_line "ls" ["-1p"; "/w/it's; rm -rf $HOME"]) k /\
    (k <> 0%nat -> permitted ["ls"] "ls" ["-1p"; "/w/it's; rm -rf $HOME"] None) /\
    match r with
    | Ok result => (ex_status result = tb_completed <-> ex_exitCode result = 0) /\
                   (ex_status result = tb_completed -> k <> 0%nat)
    | Err _ => k = 0%nat
    end.
Proof. exact (command_runs_as_given sandbox id spec ["ls"] []). Defined.
End ToolboxDemo.
