(* ===== verification/WorkspacePaths.v ===== *)
(** Paths of a workspace: PathGuard.ts and WorkspaceScope.ts of
    [apps/secure-agent-api/src/plugins/security], over the functions of Node's
    [path.posix] they use. *)
From S2P Require Import Prelude Js Text Json Toolbox.
From Stdlib Require Import Ascii.
#[local] Open Scope Z_scope.

(** * path.posix *)

Definition slash : ascii := "/".
Definition isAbsolute (path : string) : bool := startsWith "/" path.
(** One segment of [normalizeString]; the stack has the last segment first. *)
Definition normalize_step (allowAboveRoot : bool) (stack : list string) (segment : string) : list string :=
  if String.eqb segment "" || String.eqb segment "." then stack
  else if String.eqb segment ".." then
    match stack with
    | top :: stack' => if String.eqb top ".." then (if allowAboveRoot then ".." :: stack else stack) else stack'
    | [] => if allowAboveRoot then [".."] else []
    end
  else segment :: stack.
Definition normalizeString (path : string) (allowAboveRoot : bool) : string :=
  Js.join "/" (rev (foldl (normalize_step allowAboveRoot) [] (split_on slash path))).
Definition normalize (path : string) : string :=
  if String.eqb path "" then "."
  else
    let absolute := isAbsolute path in
    let trailingSeparator := endsWith "/" path in
    let normalized := normalizeString path (negb absolute) in
    if String.eqb normalized "" then (if absolute then "/" else if trailingSeparator then "./" else ".")
    else (if absolute then "/" else "") +:+ normalized +:+ (if trailingSeparator then "/" else "").
(** [path.posix.resolve(from, to)] with an absolute [from]: the process's directory
    is not looked at. *)
Definition resolve (from to : string) : string :=
  let path := if String.eqb to "" then from else if isAbsolute to then to else from +:+ "/" +:+ to in
  "/" +:+ normalizeString path false.
(** The end of a path, without its final slashes: what [dirname] and [extname] cut *)
Fixpoint strip_trailing (s : string) : string :=
  match s with
  | String c s' =>
      let r := strip_trailing s' in
      if Ascii.eqb c slash && String.eqb r "" then "" else String c r
  | EmptyString => ""
  end.
(** [path.posix.dirname(path)] *)
Definition dirname (path : string) : string :=
  match rev (split_on slash (strip_trailing path)) with
  | [] | [_] => if startsWith "/" path then "/" else "."
  | _ :: before =>
      match Js.join "/" (rev before) with
      | EmptyString => "/"
      | d => if String.eqb d "/" then "//" else d
      end
  end.

(** * PathGuard.ts *)

Definition path_error : Type := string.
Definition valid_run_id (s : string) : bool := str_between 1 128 s && str_forall is_id_char s.
Definition normalizeRunId (input : option string) : res path_error string :=
  let runId := default "default" (truthy (trim <$> input)) in
  if valid_run_id runId then Ok runId else Err "Invalid runId format".
Definition containsIllegalPathChars (inputPath : string) : bool := multiline inputPath.
Definition assertSafeRelativePath (inputPath label : string) : res path_error unit :=
  if containsIllegalPathChars inputPath then Err ("Invalid " +:+ label +:+ ": contains illegal characters")
  else if isAbsolute inputPath then Err ("Invalid " +:+ label +:+ ": absolute paths are not allowed")
  else Ok tt.
Definition backslash_char : ascii := ascii_of_nat 92.
Definition is_separator (c : ascii) : bool := Ascii.eqb c backslash_char || Ascii.eqb c slash.
Definition is_letter (c : ascii) : bool := ascii_between 97 122 c || ascii_between 65 90 c.
(** [/^[a-zA-Z]:[\\/]/] and [/^[\\/]{2}[^\\/]/] *)
Definition windows_absolute (s : string) : bool :=
  match s with
  | String a (String b (String c _)) => is_letter a && Ascii.eqb b ":" && is_separator c
  | _ => false
  end.
Definition windows_unc (s : string) : bool :=
  match s with
  | String a (String b (String c _)) => is_separator a && is_separator b && negb (is_separator c)
  | _ => false
  end.
Definition assertNotWindowsAbsolute (inputPath label : string) : res path_error unit :=
  if has_char backslash_char inputPath || windows_absolute inputPath || windows_unc inputPath
  then Err ("Invalid " +:+ label +:+ ": backslash and Windows absolute paths are not allowed")
  else Ok tt.
Definition isWithinWorkspace (workspaceRoot resolvedPath : string) : bool :=
  let normalizedRoot := if endsWith "/" workspaceRoot then workspaceRoot else workspaceRoot +:+ "/" in
  String.eqb resolvedPath workspaceRoot || startsWith normalizedRoot resolvedPath.
Definition climbs (normalizedPath : string) : bool :=
  String.eqb normalizedPath ".." || startsWith "../" normalizedPath.
Definition resolveWorkspacePath (workspaceRoot inputPath : string) : res path_error string :=
  _ ← assertSafeRelativePath inputPath "path";
  _ ← assertNotWindowsAbsolute inputPath "path";
  let normalizedPath := normalize inputPath in
  if climbs normalizedPath then Err "Invalid path: traversal sequences (..) not allowed"
  else
    let resolved := resolve workspaceRoot normalizedPath in
    if isWithinWorkspace workspaceRoot resolved then Ok resolved
    else Err "Access Denied: path escapes workspace root".
Definition validateRepoRelativePath (inputPath : string) : res path_error string :=
  let trimmed := trim inputPath in
  if String.eqb trimmed "" then Err "Invalid file path: empty path"
  else if String.eqb trimmed "." then Ok trimmed
  else
    _ ← assertSafeRelativePath trimmed "file path";
    _ ← assertNotWindowsAbsolute trimmed "file path";
    let normalized := normalize trimmed in
    if climbs normalized then Err "Invalid file path: traversal sequences (..) not allowed" else Ok normalized.

(** * WorkspaceScope.ts *)

Record WorkspaceScope : Type := mkScope { ws_root : string; ws_runId : string }.
Definition SANDBOX_WORKSPACE_ROOT_PREFIX : string := "/home/sandbox/checkouts/".
Definition canonical_root (root : string) : bool :=
  negb (String.eqb root "") && negb (multiline root) && isAbsolute root && String.eqb (normalize root) root &&
  startsWith SANDBOX_WORKSPACE_ROOT_PREFIX root.
Definition resolveScopedWorkspaceRoot (context : option WorkspaceScope) (auditRunId : string) : res path_error string :=
  match context with
  | None => Err "A server-issued workspace scope is required for plugin execution"
  | Some scope =>
      if negb (String.eqb (ws_runId scope) auditRunId)
      then Err "Plugin run id does not match the server-issued workspace scope"
      else if canonical_root (ws_root scope) then Ok (ws_root scope) else Err "Invalid server-issued workspace root"
  end.

(** The guard of workspace paths accepts exactly the relative paths that never leave
    the workspace on the way, and maps them below its root. *)

(** * Splitting and joining *)

Definition one_name (c : ascii) (s : string) : Prop := has_char c s = false.
Lemma split_pieces c s : Forall (one_name c) (split_on c s).
Proof.
  induction s as [|x s IH]; cbn; [by constructor|]. destruct (Ascii.eqb x c) eqn:Hx; [by constructor|].
  destruct (split_on c s) as [|first others]; [by constructor; [unfold one_name; cbn; rewrite Hx|]|].
  apply Forall_cons in IH as [Hf Ho]. constructor; [|done]. unfold one_name in *. cbn. by rewrite Hx.
Qed.
Lemma split_app c a b : split_on c (a +:+ String c b) = split_on c a ++ split_on c b.
Proof.
  induction a as [|x a IH]; [rewrite append_nil_l; cbn; by rewrite Ascii.eqb_refl|]. rewrite append_cons. cbn.
  destruct (Ascii.eqb x c); [by rewrite IH|]. rewrite IH.
  assert (Hne : split_on c a <> []) by (destruct a; cbn; [done|]; repeat case_match; done).
  by destruct (split_on c a).
Qed.
Lemma split_join c l : l <> [] -> Forall (one_name c) l -> split_on c (Js.join (String c "") l) = l.
Proof.
  intros Hl Hf. induction Hf as [|x l Hx Hf IH]; [done|]. destruct l as [|y l]; [by apply split_on_none|].
  rewrite join_cons. rewrite append_cons, append_nil_l, split_on_cons, IH by done. done.
Qed.

(** * Walking along a path *)

(** A segment that names an entry of a directory *)
Definition name (s : string) : Prop := s <> "" /\ s <> "." /\ s <> "..".
Definition entry (s : string) : Prop := name s /\ one_name slash s.
Definition skipped (segment : string) : bool := String.eqb segment "" || String.eqb segment ".".

(** Where the segments lead from a directory below the workspace; [None] when they
    leave the workspace at some point. *)
Fixpoint walk (stack segments : list string) : option (list string) :=
  match segments with
  | [] => Some (rev stack)
  | s :: segments' =>
      if skipped s then walk stack segments'
      else if String.eqb s ".." then
        match stack with [] => None | _ :: stack' => walk stack' segments' end
      else walk (s :: stack) segments'
  end.
Definition below (root : string) (names : list string) : string :=
  match names with [] => root | _ => root +:+ "/" +:+ Js.join "/" names end.

Lemma step_name allow stack s : name s -> normalize_step allow stack s = s :: stack.
Proof.
  intros (H1 & H2 & H3). unfold normalize_step. apply String.eqb_neq in H1, H2, H3. by rewrite H1, H2, H3.
Qed.
Lemma steps_names allow names : forall stack,
  Forall name names -> foldl (normalize_step allow) stack names = rev names ++ stack.
Proof.
  induction names as [|s names IH]; intros stack; [done|]. intros [Hs Hn]%Forall_cons. cbn.
  by rewrite step_name, IH, <- app_assoc.
Qed.
(** Once above the start, a relative path stays there. *)
Lemma steps_above segments : forall stack,
  last stack = Some ".." -> last (foldl (normalize_step true) stack segments) = Some "..".
Proof.
  induction segments as [|s segments IH]; intros stack Hs; [done|]. cbn. apply IH. unfold normalize_step.
  destruct (_ || _); [done|]. destruct (String.eqb_spec s "..") as [->|Hne].
  - destruct stack as [|top stack]; [done|]. destruct (String.eqb_spec top ".."); [by destruct stack|].
    destruct stack; [by injection Hs|done].
  - by destruct stack.
Qed.
Lemma steps_walk segments : forall stack,
  Forall name stack -> Forall (one_name slash) stack -> Forall (one_name slash) segments ->
  match walk stack segments with
  | Some names => foldl (normalize_step true) stack segments = rev names /\ Forall entry names
  | None => last (foldl (normalize_step true) stack segments) = Some ".."
  end.
Proof.
  induction segments as [|s segments IH]; intros stack Hn Ho Hs; cbn [walk foldl].
  { rewrite rev_involutive. split; [done|]. apply Forall_rev. apply Forall_and. done. }
  apply Forall_cons in Hs as [Hs1 Hs]. unfold skipped. destruct (String.eqb s "" || String.eqb s ".") eqn:Es.
  { unfold normalize_step at 2 4. rewrite Es. by apply IH. }
  destruct (String.eqb_spec s "..") as [->|Hne].
  - destruct stack as [|top stack]; [by apply steps_above|].
    apply Forall_cons in Hn as [Ht Hn]. apply Forall_cons in Ho as [_ Ho].
    assert (Et : normalize_step true (top :: stack) ".." = stack).
    { destruct Ht as (_ & _ & H3). apply String.eqb_neq in H3. unfold normalize_step. cbn. by rewrite H3. }
    rewrite Et. by apply IH.
  - apply orb_false_iff in Es as [E1 E2]. apply String.eqb_neq in E1, E2.
    rewrite step_name by done. apply IH; [by constructor|by constructor|done].
Qed.

(** * What the guard computes *)

Lemma steps_entries segments : forall stack,
  Forall entry stack -> Forall (one_name slash) segments ->
  Forall entry (foldl (normalize_step false) stack segments).
Proof.
  induction segments as [|s segments IH]; intros stack He Hs; [done|]. apply Forall_cons in Hs as [Hs1 Hs]. cbn.
  apply IH; [|done]. unfold normalize_step. destruct (_ || _) eqn:Es; [done|].
  apply orb_false_iff in Es as [E1 E2]. apply String.eqb_neq in E1, E2. destruct (String.eqb_spec s "..") as [->|Hne].
  - destruct stack as [|top stack]; [done|]. destruct (String.eqb_spec top ".."); [done|]. by apply Forall_cons in He as [_ He].
  - constructor; [|done]. by repeat split.
Qed.
Lemma join_two sep l l' : l <> [] -> l' <> [] -> Js.join sep (l ++ l') = Js.join sep l +:+ sep +:+ Js.join sep l'.
Proof.
  intros Hl Hl'. induction l as [|x l IH]; [done|]. destruct l as [|y l].
  - destruct l' as [|z l']; [done|]. cbn [app]. by rewrite join_cons.
  - cbn [app] in *. rewrite !join_cons, IH by done. by rewrite !append_assoc.
Qed.
Lemma join_entries l : l <> [] -> Forall entry l -> Js.join "/" l <> "".
Proof.
  destruct l as [|x l]; [done|]. intros _ [[(Hx & _) _] _]%Forall_cons. destruct l as [|y l]; [done|].
  rewrite join_cons. by destruct x.
Qed.

Lemma absolute_cons c s : isAbsolute (String c s) = Ascii.eqb c slash.
Proof.
  unfold isAbsolute, startsWith. cbn [String.prefix]. destruct (ascii_dec "/" c) as [<-|Hne]; [by destruct s|].
  symmetry. apply Ascii.eqb_neq. by intros ->.
Qed.

(** The roots a workspace has: absolute, normalized and below the directory of the
    checkouts.  [canonical_root] also accepts one with a slash at its end. *)
Definition workspace_root (root : string) : Prop := canonical_root root = true /\ endsWith "/" root = false.
Lemma root_names root : workspace_root root -> exists rs, rs <> [] /\ Forall entry rs /\ root = "/" +:+ Js.join "/" rs.
Proof.
  unfold workspace_root, canonical_root. rewrite !andb_true_iff, String.eqb_eq. intros [((((_ & _) & Ha) & Hn) & Hp) Hs].
  unfold normalize in Hn. destruct (String.eqb_spec root "") as [->|_]; [done|]. rewrite Ha, Hs in Hn. cbn [negb] in Hn.
  unfold normalizeString in Hn. set (rs := rev _) in Hn. exists rs.
  assert (Hrs : Forall entry rs) by (apply Forall_rev, steps_entries; [constructor|apply split_pieces]).
  destruct (String.eqb_spec (Js.join "/" rs) "") as [E|E]; [by rewrite <- Hn in Hp|].
  rewrite append_nil_r in Hn. split_and!; [by intros ->|done|done].
Qed.
Lemma resolve_below root names tail :
  workspace_root root -> Forall entry names -> tail = "" \/ tail = "/" ->
  resolve root (match names with [] => "." | _ => Js.join "/" names end +:+ tail) = below root names.
Proof.
  intros Hroot Hn Ht. destruct (root_names root Hroot) as (rs & Hne & Hrs & ->).
  set (m := match names with [] => "." | _ => _ end).
  assert (Hm : isAbsolute (m +:+ tail) = false /\ m +:+ tail <> "" /\
    forall stack, foldl (normalize_step false) stack (split_on slash (m +:+ tail)) = rev names ++ stack).
  { assert (Hsplit : forall stack, foldl (normalize_step false) stack (split_on slash m) = rev names ++ stack).
    { intros stack. subst m. destruct names as [|n names]; [done|]. change "/" with (String slash "").
      rewrite split_join; [|done|by eapply Forall_impl; [exact Hn|intros ? [_ ?]]].
      apply steps_names. eapply Forall_impl; [exact Hn|by intros ? [? _]]. }
    assert (Hhead : exists c m', m = String c m' /\ Ascii.eqb c slash = false).
    { subst m. destruct names as [|n names]; [by exists "."%char, ""|]. apply Forall_cons in Hn as [[(Hn & _) Ho] _].
      destruct n as [|c n]; [done|]. unfold one_name in Ho. cbn in Ho. apply orb_false_iff in Ho as [Hc _].
      destruct names as [|n2 names]; [by exists c, n|]. rewrite join_cons, append_cons. eauto. }
    destruct Hhead as (c & m' & -> & Hc). split_and!.
    - by rewrite append_cons, absolute_cons.
    - done.
    - intros stack. destruct Ht as [-> | ->]; [by rewrite append_nil_r|].
      change (String c m' +:+ "/") with (String c m' +:+ String slash ""). rewrite split_app, foldl_app, Hsplit. done. }
  destruct Hm as (Ha & Hm0 & Hm). unfold resolve. apply String.eqb_neq in Hm0. rewrite Hm0, Ha.
  unfold normalizeString. change ("/" +:+ m +:+ tail) with (String slash (m +:+ tail)). rewrite split_app, foldl_app.
  change ("/" +:+ Js.join "/" rs) with ("" +:+ String slash (Js.join (String slash "") rs)).
  rewrite split_app, split_join; [|done|by eapply Forall_impl; [exact Hrs|intros ? [_ ?]]].
  cbn [split_on app foldl]. rewrite (steps_names false rs); [|by eapply Forall_impl; [exact Hrs|intros ? [? _]]].
  rewrite Hm, app_nil_r, <- rev_app_distr, rev_involutive. unfold below. destruct names as [|n names]; [by rewrite app_nil_r|].
  by rewrite join_two, append_nil_l, append_cons by done.
Qed.

(** A relative path: a line without backslashes that does not start at the root or at
    a drive *)
Definition relative (input : string) : Prop :=
  multiline input = false /\ isAbsolute input = false /\ has_char backslash_char input = false /\
  windows_absolute input = false.
Lemma relative_accepted input label :
  relative input <->
  (_ ← assertSafeRelativePath input label; assertNotWindowsAbsolute input label) = Ok tt.
Proof.
  unfold relative, assertSafeRelativePath, containsIllegalPathChars, assertNotWindowsAbsolute.
  assert (Hunc : isAbsolute input = false -> has_char backslash_char input = false -> windows_unc input = false).
  { destruct input as [|a [|b [|c s]]]; try done. rewrite absolute_cons. cbn [windows_unc has_char].
    intros Ha [Hb _]%orb_false_iff. unfold is_separator at 1. rewrite Ha.
    destruct (Ascii.eqb_spec a backslash_char) as [->|]; done. }
  destruct (multiline input); [by split; [intros (? & _)|]|]. destruct (isAbsolute input); [by split; [intros (_ & ? & _)|]|].
  cbn. destruct (has_char _ input); [by split; [intros (_ & _ & ? & _)|]|].
  rewrite Hunc by done. destruct (windows_absolute input); cbn; split; try done; by intros (_ & _ & _ & ?).
Qed.

Lemma starts_split p s : startsWith p s = true -> exists b, s = p +:+ b.
Proof.
  unfold startsWith. revert s. induction p as [|c p IH]; intros [|d s]; cbn [String.prefix]; try done; try by eexists.
  destruct (ascii_dec c d) as [->|]; [|done]. intros [b ->]%IH. by exists b.
Qed.
Lemma normalize_names input :
  isAbsolute input = false ->
  let names := rev (foldl (normalize_step true) [] (split_on slash input)) in
  (names <> [] -> Js.join "/" names <> "") ->
  exists tail, (tail = "" \/ tail = "/") /\
    normalize input = match names with [] => "." | _ => Js.join "/" names end +:+ tail.
Proof.
  intros Ha names Hj. unfold normalize. destruct (String.eqb_spec input "") as [->|_]; [by exists ""; split; [left|]|].
  rewrite Ha. cbn [negb]. unfold normalizeString. fold names. destruct names as [|n names].
  - cbn. destruct (endsWith "/" input); [exists "/"|exists ""]; auto.
  - assert (E : Js.join "/" (n :: names) <> "") by by apply Hj. apply String.eqb_neq in E. rewrite E, append_nil_l.
    destruct (endsWith "/" input); eauto.
Qed.
Lemma climbs_above input :
  isAbsolute input = false -> walk [] (split_on slash input) = None -> climbs (normalize input) = true.
Proof.
  intros Ha Hw. pose proof (steps_walk (split_on slash input) []) as Hs. rewrite Hw in Hs.
  specialize (Hs ltac:(constructor) ltac:(constructor) (split_pieces _ _)).
  destruct (normalize_names input Ha) as (tail & Ht & ->); cbn zeta; set (st := foldl _ _ _) in *.
  - destruct (last_Some st "..") as [Hl _]. destruct (Hl Hs) as [l ->]. rewrite rev_app_distr. cbn [rev app].
    intros _. by destruct (rev l).
  - destruct (last_Some st "..") as [Hl _]. destruct (Hl Hs) as [l ->]. rewrite rev_app_distr. cbn [rev app].
    unfold climbs. destruct (rev l) as [|n names]; [by destruct Ht as [-> | ->]|]. rewrite join_cons. apply orb_true_iff. right.
    rewrite !append_assoc. exact (prefix_append "../" _).
Qed.
Lemma stays_below input names :
  isAbsolute input = false -> walk [] (split_on slash input) = Some names ->
  Forall entry names /\ climbs (normalize input) = false /\ exists tail, (tail = "" \/ tail = "/") /\
    normalize input = match names with [] => "." | _ => Js.join "/" names end +:+ tail.
Proof.
  intros Ha Hw. pose proof (steps_walk (split_on slash input) []) as Hs. rewrite Hw in Hs.
  destruct (Hs ltac:(constructor) ltac:(constructor) (split_pieces _ _)) as [Hst Hn]. split; [done|].
  destruct (normalize_names input Ha) as (tail & Ht & Hnorm); rewrite Hst, rev_involutive in *.
  { intros Hne. by apply join_entries. }
  split; [|by exists tail]. rewrite Hnorm. destruct names as [|n names]; [by destruct Ht as [-> | ->]|].
  apply Forall_cons in Hn as [[(_ & _ & Hnd) Ho] Hn]. set (text := _ +:+ tail).
  assert (Htext : exists rest, split_on slash text = n :: rest).
  { subst text. destruct names as [|n2 names].
    - destruct Ht as [-> | ->]; [rewrite append_nil_r; exists []; by apply split_on_none|].
      exists [""]. change "/" with (String slash ""). by rewrite split_on_cons.
    - rewrite join_cons, !append_assoc. change ("/" +:+ ?x) with (String slash x). rewrite split_on_cons by done. eauto. }
  destruct Htext as [rest Hrest]. unfold climbs. apply orb_false_iff. split.
  - apply String.eqb_neq. intros E. rewrite E in Hrest. cbn in Hrest. congruence.
  - destruct (startsWith "../" text) eqn:Es; [|done]. apply starts_split in Es as [more E]. exfalso.
    change ("../" +:+ more) with (".." +:+ String slash more) in E. rewrite E, split_on_cons in Hrest by done.
    congruence.
Qed.

(** C14. For the root of a workspace, [resolveWorkspacePath] accepts exactly the
    relative paths - one line, no backslash, no drive, not starting at the root -
    whose segments never leave the workspace on the way, and maps them to the root
    followed by the names they lead to, none of which is empty, [.] or [..]: every
    path it returns is the root or lies below it, and nothing else is refused. *)
Theorem path_guard_exact root input path :
  workspace_root root ->
  resolveWorkspacePath root input = Ok path <->
  relative input /\
  exists names, walk [] (split_on slash input) = Some names /\ Forall entry names /\ path = below root names.
Proof.
  intros Hroot. assert (Hrel := relative_accepted input "path"). unfold resolveWorkspacePath.
  destruct (assertSafeRelativePath input "path") as [[]|e]; cbn [mbind res_bind] in *.
  2: { split; [done|]. intros [Hr _]. by apply Hrel in Hr. }
  destruct (assertNotWindowsAbsolute input "path") as [[]|e]; cbn [mbind res_bind].
  2: { split; [done|]. intros [Hr _]. by apply Hrel in Hr. }
  destruct (proj2 Hrel eq_refl) as (Hm & Ha & Hb & Hd). destruct (walk [] (split_on slash input)) as [names|] eqn:Hw.
  - destruct (stays_below input names Ha Hw) as (Hn & -> & tail & Ht & ->). rewrite resolve_below by done.
    assert (Hin : isWithinWorkspace root (below root names) = true).
    { unfold isWithinWorkspace. destruct Hroot as [_ ->]. apply orb_true_iff. destruct names as [|n names].
      - left. by apply String.eqb_refl.
      - right. cbn [below]. rewrite <- (append_assoc root). apply prefix_append. }
    rewrite Hin. split.
    + intros [= <-]. split; [done|]. by exists names.
    + intros [_ (? & [= <-] & _ & ->)]. done.
  - rewrite (climbs_above input Ha Hw). split; [done|]. by intros [_ (? & ? & _)].
Qed.

Module PathDemo.
Definition root : string := "/home/sandbox/checkouts/c1".
Lemma path_guard_exact_witness :
  workspace_root root /\ resolveWorkspacePath root "src/../lib//./a.ts" = Ok "/home/sandbox/checkouts/c1/lib/a.ts".
Proof.
  assert (H : workspace_root root) by by vm_compute. split; [exact H|]. apply (path_guard_exact root _ _ H).
  split; [by vm_compute|]. exists ["lib"; "a.ts"]. vm_compute. split_and!; try done. repeat constructor; discriminate.
Defined.
Example climbing_refused :
  is_ok (resolveWorkspacePath root "src/../../c2/secret") = false /\ is_ok (resolveWorkspacePath root "../c1/a") = false.
Proof. by vm_compute. Qed.

(** A scope whose root is the directory of all checkouts passes for canonical. *)
Example all_checkouts :
  resolveScopedWorkspaceRoot (Some (mkScope "/home/sandbox/checkouts/" "r1")) "r1" = Ok "/home/sandbox/checkouts/" /\
  resolveWorkspacePath "/home/sandbox/checkouts/" "c2/secret" = Ok "/home/sandbox/checkouts/c2/secret".
Proof. by vm_compute. Qed.
End PathDemo.
