(* ===== verification/WorkspaceEdit.v ===== *)
(** Editing the files of a workspace: WorkspacePathResolver.ts, Utf8Text.ts and
    WorkspaceEditService.ts of [apps/secure-agent-api/src/plugins/filesystem]. *)
From S2P Require Import Prelude Js Text Json ArtifactStore Toolbox WorkspacePaths.
From Stdlib Require Import Ascii.
#[local] Open Scope Z_scope.

(** * Searching and replacing *)

(** What is before the first occurrence of a text and what is after it: [indexOf] and
    two [slice]s *)
Fixpoint cut_text (needle s : string) : option (string * string) :=
  if startsWith needle s then Some ("", slice_from (String.length needle) s)
  else match s with
       | String c s' => '(a, b) ← cut_text needle s'; Some (String c a, b)
       | EmptyString => None
       end.
(** The loop of [countOccurrences]; [None] is a loop that does not end. *)
Fixpoint count_from (fuel : nat) (needle s : string) : option Z :=
  match fuel with
  | O => None
  | S fuel' =>
      match cut_text needle s with
      | None => Some 0
      | Some (_, rest) => n ← count_from fuel' needle rest; Some (n + 1)
      end
  end.
Definition countOccurrences (content needle : string) : option Z :=
  count_from (S (String.length content)) needle content.
(** [s.split(separator)] for a separator that is not empty *)
Fixpoint split_from (fuel : nat) (separator s : string) : list string :=
  match fuel with
  | O => [s]
  | S fuel' =>
      match cut_text separator s with
      | None => [s]
      | Some (a, rest) => a :: split_from fuel' separator rest
      end
  end.
Definition split_text (separator s : string) : list string := split_from (String.length s) separator s.

Definition dollar : ascii := "$".
(** [GetSubstitution]: the replacement of [s.replace(text, replacement)], in which
    [$$], [$&], [$`] and [$'] have a meaning *)
Fixpoint get_substitution (matched before after replacement : string) : string :=
  match replacement with
  | String c (String d rest as tail) =>
      let go := get_substitution matched before after in
      if Ascii.eqb c dollar then
        if Ascii.eqb d dollar then String dollar (go rest)
        else if Ascii.eqb d "&" then matched +:+ go rest
        else if Ascii.eqb d "`" then before +:+ go rest
        else if Ascii.eqb d "'" then after +:+ go rest
        else String c (go tail)
      else String c (go tail)
  | _ => replacement
  end.
Definition replace_first (s text replacement : string) : string :=
  match cut_text text s with
  | Some (before, after) => before +:+ get_substitution text before after replacement +:+ after
  | None => s
  end.

(** * Utf8Text.ts *)

Definition utf8ByteLength (value : string) : Z := Z.of_nat (length (TextEncoder_encode value)).
(** The decoder of a stream keeps back a character whose bytes are not complete. *)
Fixpoint decode_stream (room : nat) (s : string) : string :=
  match s with
  | String c s' =>
      let n := length (encode_char c) in
      if (n <=? room)%nat then String c (decode_stream (room - n) s') else ""
  | EmptyString => ""
  end.
(** The bytes decoded are a prefix of the encoding of [value]. *)
Definition truncateUtf8 (value : string) (maxBytes : Z) (suffix : string) : string * bool :=
  if utf8ByteLength value <=? maxBytes then (value, false)
  else
    let contentLimit := Z.max 0 (maxBytes - utf8ByteLength suffix) in
    (decode_stream (Z.to_nat contentLimit) value +:+ suffix, true).

(** * The inputs and results *)

Record ExactEditInput : Type := mkEdit {
  ee_path : string;
  ee_oldText : string;
  ee_newText : string;
  ee_replaceAll : option bool;
  ee_expectedReplacements : option Z;
  ee_expectedSha256 : option string;
}.
Record PreparedEdit : Type := mkPrepared {
  pe_path : string;
  pe_targetPath : string;
  pe_originalContent : string;
  pe_nextContent : string;
  pe_replacementCount : Z;
}.
Record PluginResult : Type := mkResult {
  pr_success : bool;
  pr_output : option string;
  pr_error : option string;
  pr_isBinary : option bool;
  pr_metadata : option JsonRecord;
  pr_truncated : option bool;
}.
Inductive edit_error : Type :=
| EditError (message : string)
| NeverReturns.
Definition plain_error (e : sandbox_error) : edit_error := EditError (message_of_thrown e).
Definition ok_result (output : string) (metadata : JsonRecord) : PluginResult :=
  mkResult true (Some output) None None (Some metadata) (Some false).
Definition MAX_EDIT_COUNT : Z := 20.

Definition replaceExactText (content : string) (input : ExactEditInput) : res edit_error (string * Z) :=
  let all := match ee_replaceAll input with Some true => true | _ => false end in
  match countOccurrences content (ee_oldText input) with
  | None => Err NeverReturns
  | Some count =>
      if count =? 0 then Err (EditError ("Exact edit text was not found in " +:+ ee_path input))
      else if negb all && negb (count =? 1) then
        Err (EditError ("Exact edit is ambiguous in " +:+ ee_path input +:+ ": found " +:+ Number_toString count +:+ " matches"))
      else if match ee_expectedReplacements input with Some n => negb (count =? n) | None => false end then
        Err (EditError ("Expected " +:+ Number_toString (default 0 (ee_expectedReplacements input)) +:+
                        " replacement match(es) in " +:+ ee_path input +:+ ", found " +:+ Number_toString count))
      else Ok (if all then Js.join (ee_newText input) (split_text (ee_oldText input) content)
               else replace_first content (ee_oldText input) (ee_newText input), if all then count else 1)
  end.
(** [new Set(edits.map(edit => edit.path)).size !== edits.length] *)
Definition assertUniqueEditPaths (edits : list ExactEditInput) : res edit_error unit :=
  if bool_decide (NoDup (map ee_path edits)) then Ok tt
  else Err (EditError "multi_edit cannot target the same path more than once").
Definition buildWriteResult (filePath content : string) : PluginResult :=
  let bytes := utf8ByteLength content in
  ok_result ("Wrote " +:+ Number_toString bytes +:+ " bytes to " +:+ filePath)
    [("path", JStr filePath); ("bytes", JNum (NInt bytes))].
Definition edit_metadata (edit : PreparedEdit) : JsonRecord :=
  [("path", JStr (pe_path edit)); ("replacementCount", JNum (NInt (pe_replacementCount edit)))].
Definition buildEditResult (edit : PreparedEdit) : PluginResult :=
  ok_result ("Edited " +:+ pe_path edit +:+ " (" +:+ Number_toString (pe_replacementCount edit) +:+ " replacement(s))")
    (edit_metadata edit).
Definition buildMultiEditResult (edits : list PreparedEdit) : PluginResult :=
  ok_result ("Edited " +:+ Number_toString (Z.of_nat (length edits)) +:+ " files")
    [("files", JArr (map (fun e => JObj (edit_metadata e)) edits))].

(** * The services *)

Section Edit.
Context `{!WebCrypto} {W : Type} (sandbox : Sandbox W).
Variables (workspaceRoot : string) (toolboxContext : ToolboxCommandContext) (runId : string).
Notation M := (ST W edit_error).

(** Code of the toolbox and the sandbox, whose exceptions keep their message *)
Definition toolbox {A} (m : ST W sandbox_error A) : M A := fun w =>
  let '(r, w') := m w in (match r with Ok a => Ok a | Err e => Err (plain_error e) end, w').
Definition plain_spec (command : string) (args : list string) : SafeCommandSpec :=
  mkSpec command (Some args) None None (Some runId) None None None.
Definition context_spec (command : string) (args : list string) (operation : string) : SafeCommandSpec :=
  withToolboxCommandContext (plain_spec command args) toolboxContext (Some operation).

(** WorkspacePathResolver.ts *)
Definition assertWithinWorkspace (resolvedPath : string) : res edit_error string :=
  if isWithinWorkspace workspaceRoot resolvedPath then Ok resolvedPath
  else Err (EditError "Access Denied: resolved path escapes workspace root").
Definition guard {A} (r : res path_error A) : M A :=
  lift match r with Ok a => Ok a | Err message => Err (EditError message) end.
Definition resolver_resolve (inputPath operation : string) : M string :=
  targetPath ← guard (resolveWorkspacePath workspaceRoot inputPath);
  result ← toolbox (runSafeCommand sandbox (context_spec "realpath" ["-m"; "--"; targetPath] operation) ["realpath"]);
  if negb (ex_exitCode result =? 0)
  then throw (EditError (default "Unable to resolve workspace path" (truthy (Some (ex_stderr result)))))
  else lift (assertWithinWorkspace (trim (ex_stdout result))).
Definition resolveWritablePath (inputPath : string) : M string := resolver_resolve inputPath "filesystem.edit.resolve_path".

Definition runCheckedCommand (command : string) (args : list string) : M unit :=
  result ← toolbox (runSafeCommand sandbox (context_spec command args ("filesystem.edit." +:+ command)) [command]);
  throw_if (negb (ex_exitCode result =? 0)) (EditError (default (command +:+ " failed") (truthy (Some (ex_stderr result))))).
Definition plain_command (command : string) (args : list string) : M ToolboxExecutionResult :=
  toolbox (runSafeCommand sandbox (plain_spec command args) [command]).
(** [/^[0-7]{3,4}$/u] *)
Definition is_mode (s : string) : bool := str_between 3 4 s && str_forall (ascii_between 48 55) s.
Definition preserveExistingMode (targetPath tempPath : string) : M unit :=
  existence ← plain_command "test" ["-e"; targetPath];
  if negb (ex_exitCode existence =? 0) then mret tt
  else
    result ← plain_command "stat" ["-c"; "%a"; targetPath];
    let mode := trim (ex_stdout result) in
    if (ex_exitCode result =? 0) && is_mode mode then runCheckedCommand "chmod" [mode; tempPath] else mret tt.
Definition readTextFile (targetPath : string) : M string :=
  result ← toolbox (sb_readFile sandbox targetPath);
  match result with
  | (true, Some content) => mret content
  | _ => throw (EditError "Unable to read edit target")
  end.
Definition assertHash (content : string) (expectedSha256 : option string) : res edit_error unit :=
  match truthy expectedSha256 with
  | None => Ok tt
  | Some expected =>
      let actual := sha256_text (TextEncoder_encode content) in
      if String.eqb actual (toLowerCase expected) then Ok tt
      else Err (EditError ("Edit conflict: expected sha256 " +:+ expected +:+ ", found " +:+ actual))
  end.
Definition assertExpectedHash (targetPath : string) (expectedSha256 : option string) : M unit :=
  match truthy expectedSha256 with
  | None => mret tt
  | Some _ => content ← readTextFile targetPath; lift (assertHash content expectedSha256)
  end.
Definition assertPreparedEditCurrent (edit : PreparedEdit) : M unit :=
  currentContent ← readTextFile (pe_targetPath edit);
  throw_if (negb (String.eqb currentContent (pe_originalContent edit)))
    (EditError ("Edit conflict: " +:+ pe_path edit +:+ " changed before write")).

Definition temp_path (parentDir uuid : string) : string := parentDir +:+ "/.legioncode-edit-" +:+ uuid +:+ ".tmp".
Definition atomicWrite (targetPath content : string) : M unit :=
  let parentDir := dirname targetPath in
  _ ← runCheckedCommand "mkdir" ["-p"; parentDir];
  uuid ← toolbox (sb_randomUUID sandbox);
  let tempPath := temp_path parentDir uuid in
  try_catch
    (_ ← toolbox (sb_writeFile sandbox tempPath content);
     _ ← preserveExistingMode targetPath tempPath;
     runCheckedCommand "mv" ["-f"; "--"; tempPath; targetPath])
    (fun error => _ ← plain_command "rm" ["-f"; "--"; tempPath]; throw error).

Definition prepareEdit (input : ExactEditInput) : M PreparedEdit :=
  targetPath ← resolveWritablePath (ee_path input);
  originalContent ← readTextFile targetPath;
  _ ← lift (assertHash originalContent (ee_expectedSha256 input));
  replacement ← lift (replaceExactText originalContent input);
  mret (mkPrepared (ee_path input) targetPath originalContent (fst replacement) (snd replacement)).
Definition rollbackEdits (edits : list PreparedEdit) : M unit :=
  for_of (rev edits) (fun edit => atomicWrite (pe_targetPath edit) (pe_originalContent edit)).
(** The [for] loop of [applyPreparedEdits], [applied] being the edits already written *)
Fixpoint apply_from (applied edits : list PreparedEdit) : M unit :=
  match edits with
  | [] => mret tt
  | edit :: edits' =>
      _ ← try_catch (_ ← assertPreparedEditCurrent edit; atomicWrite (pe_targetPath edit) (pe_nextContent edit))
            (fun error => _ ← rollbackEdits applied; throw error);
      apply_from (applied ++ [edit]) edits'
  end.
Definition applyPreparedEdits (edits : list PreparedEdit) : M unit := apply_from [] edits.

Definition write (path content : string) (expectedSha256 : option string) : M PluginResult :=
  targetPath ← resolveWritablePath path;
  _ ← assertExpectedHash targetPath expectedSha256;
  _ ← atomicWrite targetPath content;
  mret (buildWriteResult path content).
Definition edit (input : ExactEditInput) : M PluginResult :=
  prepared ← prepareEdit input;
  _ ← assertPreparedEditCurrent prepared;
  _ ← atomicWrite (pe_targetPath prepared) (pe_nextContent prepared);
  mret (buildEditResult prepared).
(** The edits are prepared one after the other. *)
Definition multiEdit (edits : list ExactEditInput) : M PluginResult :=
  let n := Z.of_nat (length edits) in
  if (n =? 0) || (MAX_EDIT_COUNT <? n)
  then throw (EditError ("multi_edit requires 1-" +:+ Number_toString MAX_EDIT_COUNT +:+ " edits"))
  else
    _ ← lift (assertUniqueEditPaths edits);
    prepared ← map_of edits prepareEdit;
    _ ← applyPreparedEdits prepared;
    mret (buildMultiEditResult prepared).
End Edit.

(** What an exact edit replaces: the one occurrence of the old text, or all of them. *)

(** The text does not occur. *)
Definition absent (needle s : string) : Prop := forall a b, s <> a +:+ needle +:+ b.

Lemma cut_text_Some needle s : forall a b, cut_text needle s = Some (a, b) ->
  s = a +:+ needle +:+ b /\ forall a' b', s = a' +:+ needle +:+ b' -> (String.length a <= String.length a')%nat.
Proof.
  assert (Hstart : forall s, startsWith needle s = true ->
    s = needle +:+ slice_from (String.length needle) s).
  { intros t Ht. apply starts_split in Ht as [b ->]. by rewrite slice_after_prefix. }
  induction s as [|c s IH]; intros a b; cbn [cut_text].
  - destruct (startsWith needle "") eqn:Es; [|done]. intros [= <- <-]. split; [by apply Hstart|]. cbn. lia.
  - destruct (startsWith needle (String c s)) eqn:Es; [intros [= <- <-]; split; [by apply Hstart|cbn; lia]|].
    destruct (cut_text needle s) as [[a1 b1]|] eqn:Ec; [|done]. cbn. intros [= <- <-].
    destruct (IH _ _ eq_refl) as [-> Hfirst]. split; [done|]. intros [|c' a'] b' E.
    + rewrite append_nil_l in E. rewrite E in Es. by rewrite prefix_append in Es.
    + rewrite append_cons in E. injection E as -> E. apply Hfirst in E. cbn. lia.
Qed.
Lemma cut_text_None needle s : cut_text needle s = None -> absent needle s.
Proof.
  induction s as [|c s IH]; cbn [cut_text]; destruct (startsWith needle _) eqn:Es; try done.
  - intros _ [|x a] b E; [|by rewrite append_cons in E]. rewrite append_nil_l in E. rewrite E in Es. by rewrite prefix_append in Es.
  - destruct (cut_text needle s) as [[]|]; [done|]. intros _ [|x a] b E.
    + rewrite append_nil_l in E. rewrite E in Es. by rewrite prefix_append in Es.
    + rewrite append_cons in E. injection E as -> E. by destruct (IH eq_refl a b).
Qed.
(** Nothing before the first occurrence holds another. *)
Lemma cut_text_before needle s a b : needle <> "" -> cut_text needle s = Some (a, b) -> absent needle a.
Proof.
  intros Hn Hc x y E. apply cut_text_Some in Hc as [Hs Hfirst]. rewrite E, !append_assoc in Hs. apply Hfirst in Hs.
  apply (f_equal String.length) in E. rewrite !length_append in E. destruct needle; [done|]. cbn in E. lia.
Qed.
Lemma cut_text_shorter needle s a b :
  needle <> "" -> cut_text needle s = Some (a, b) -> (String.length b < String.length s)%nat.
Proof. intros Hn [-> _]%cut_text_Some. rewrite !length_append. destruct needle; [done|]. cbn. lia. Qed.

(** The pieces between the occurrences, as many as are counted and one more *)
Lemma pieces_count needle fuel : forall s, needle <> "" -> (String.length s <= fuel)%nat ->
  exists n, count_from (S fuel) needle s = Some n /\ 0 <= n /\
    Z.of_nat (length (split_from fuel needle s)) = n + 1 /\ Js.join needle (split_from fuel needle s) = s /\
    Forall (absent needle) (split_from fuel needle s) /\ (n = 0 -> cut_text needle s = None).
Proof.
  induction fuel as [|fuel IH]; intros s Hn Hf; cbn [count_from split_from].
  { destruct s; [|cbn in Hf; lia]. destruct (cut_text needle "") as [[a b]|] eqn:Ec; [apply cut_text_shorter in Ec; [cbn in Ec; lia|done]|].
    exists 0. split_and!; try done. constructor; [by apply cut_text_None|done]. }
  destruct (cut_text needle s) as [[a b]|] eqn:Ec.
  - pose proof (cut_text_shorter _ _ _ _ Hn Ec) as Hl. destruct (IH b Hn ltac:(lia)) as (n & Hc & H0n & Hlen & Hj & Hab & _).
    cbn [count_from] in Hc. rewrite Hc. exists (n + 1). pose proof (cut_text_before _ _ _ _ Hn Ec) as Ha.
    apply cut_text_Some in Ec as [-> _]. split_and!; try done; try lia.
    + cbn [length]. lia.
    + destruct (split_from fuel needle b) as [|p ps] eqn:Ep; [cbn in Hlen; lia|]. by rewrite join_cons, Hj.
    + by constructor.
  - exists 0. split_and!; try done. constructor; [by apply cut_text_None|done].
Qed.
Lemma substitution_plain matched before after text :
  has_char dollar text = false -> get_substitution matched before after text = text.
Proof.
  assert (H : forall n text, (String.length text <= n)%nat -> has_char dollar text = false ->
    get_substitution matched before after text = text); [|by eapply H].
  clear text. induction n as [|n IH]; intros [|c [|d text]] Hl Hd; try done; cbn in Hl; [lia|].
  change (Ascii.eqb c dollar || has_char dollar (String d text) = false) in Hd. apply orb_false_iff in Hd as [Hc Hd].
  transitivity (String c (get_substitution matched before after (String d text))); [cbn [get_substitution]; by rewrite Hc|].
  f_equal. apply IH; [cbn; lia|done].
Qed.

(** What is left when the text occurs once *)
Lemma single_occurrence needle s :
  needle <> "" -> length (split_from (String.length s) needle s) = 2%nat ->
  exists before after, cut_text needle s = Some (before, after) /\ s = before +:+ needle +:+ after /\
    absent needle before /\ absent needle after.
Proof.
  intros Hn H2. destruct (pieces_count needle (String.length s) s Hn (Nat.le_refl _)) as (n & _ & _ & _ & Hj & Hab & _).
  destruct (String.length s) as [|fuel] eqn:El; [done|]. cbn [split_from] in *.
  destruct (cut_text needle s) as [[a b]|] eqn:Ec; [|done]. exists a, b. cbn [length] in H2.
  destruct (split_from fuel needle b) as [|p [|]]; try done. cbn in Hj.
  apply cut_text_Some in Ec as [Es _]. rewrite Es in Hj. apply append_inj_l, append_inj_l in Hj as ->.
  apply Forall_cons in Hab as [Ha Hab]. apply Forall_cons in Hab as [Hb _]. done.
Qed.

(** C16. An exact edit whose old text is not empty always comes to an end, and replaces
    what it says; occurrences are counted from the left without overlaps, as the code
    does ([overlapping] below), and with an empty text it may never end ([empty_text]).
    Without [replaceAll], it succeeds only if the text occurs once, and only this
    occurrence changes: it becomes the new text, when that holds no dollar sign
    ([dollar_lost]).  With [replaceAll], the occurrences between pieces that do not hold
    the text are all replaced, and as many as are reported.  It fails when there is no
    occurrence, several without [replaceAll], or another number than expected. *)
Theorem exact_edit content input :
  ee_oldText input <> "" ->
  let old := ee_oldText input in
  let new := ee_newText input in
  match replaceExactText content input with
  | Ok (next, count) =>
      (forall n, ee_expectedReplacements input = Some n -> n = count) /\
      match ee_replaceAll input with
      | Some true =>
          exists pieces, Js.join old pieces = content /\ Forall (absent old) pieces /\
            Z.of_nat (length pieces) = count + 1 /\ 0 < count /\ next = Js.join new pieces
      | _ =>
          count = 1 /\
          exists before after, content = before +:+ old +:+ after /\ absent old before /\ absent old after /\
            next = before +:+ get_substitution old before after new +:+ after /\
            (has_char dollar new = false -> next = before +:+ new +:+ after)
      end
  | Err e => e <> NeverReturns /\ (absent old content \/ exists n, countOccurrences content old = Some n /\
               (ee_expectedReplacements input <> None /\ ee_expectedReplacements input <> Some n \/
                ee_replaceAll input <> Some true /\ 1 < n))
  end.
Proof.
  intros Hne. cbn zeta. unfold replaceExactText, countOccurrences, split_text.
  destruct (pieces_count (ee_oldText input) (String.length content) content Hne (Nat.le_refl _))
    as (n & -> & Hn0 & Hlen & Hj & Hab & Hz).
  destruct (Z.eqb_spec n 0) as [E0|E0]; [split; [done|left; by apply cut_text_None, Hz]|].
  set (all := match ee_replaceAll input with Some true => true | _ => false end).
  destruct (negb all && negb (n =? 1)) eqn:Eamb.
  { split; [done|]. right. exists n. split; [done|]. right. apply andb_true_iff in Eamb as [Ea En].
    apply negb_true_iff in Ea, En. apply Z.eqb_neq in En. split; [|lia]. subst all. by intros E; rewrite E in Ea. }
  destruct (match ee_expectedReplacements input with Some m => negb (n =? m) | None => false end) eqn:Ee.
  { destruct (ee_expectedReplacements input) as [m|]; [|done]. apply negb_true_iff, Z.eqb_neq in Ee.
    split; [done|]. right. exists n. split; [done|]. left. split; [done|]. by intros [= ->]. }
  assert (Hexp : forall m, ee_expectedReplacements input = Some m -> m = n).
  { intros m Em. rewrite Em in Ee. apply negb_false_iff, Z.eqb_eq in Ee. done. }
  assert (Hone : all = false -> n = 1).
  { intros Ea. rewrite Ea in Eamb. apply negb_false_iff, Z.eqb_eq in Eamb. done. }
  set (old := ee_oldText input) in *. set (new := ee_newText input).
  assert (Hfirst : all = false -> exists before after, content = before +:+ old +:+ after /\ absent old before /\ absent old after /\
    replace_first content old new = before +:+ get_substitution old before after new +:+ after /\
    (has_char dollar new = false -> replace_first content old new = before +:+ new +:+ after)).
  { intros Ea. rewrite (Hone Ea) in Hlen. destruct (single_occurrence old content Hne ltac:(lia)) as (a & b & Hc & Hs & Ha & Hb).
    exists a, b. unfold replace_first. rewrite Hc. split_and!; try done. intros Hd. by rewrite substitution_plain. }
  subst all. destruct (ee_replaceAll input) as [[]|].
  - split; [done|]. eexists. split_and!; [exact Hj|exact Hab|done|lia|done].
  - rewrite Hone in * by done. split; [done|]. split; [done|]. by apply Hfirst.
  - rewrite Hone in * by done. split; [done|]. split; [done|]. by apply Hfirst.
Qed.

Module EditDemo.
Definition input (old new : string) (all : option bool) : ExactEditInput := mkEdit "a.ts" old new all None None.
Lemma exact_edit_witness :
  match replaceExactText "let x = 1;" (input "x" "y" None) with
  | Ok (next, count) => next = "let y = 1;" /\ count = 1
  | Err _ => False
  end.
Proof.
  pose proof (exact_edit "let x = 1;" (input "x" "y" None) ltac:(discriminate)) as H.
  destruct (replaceExactText _ _) as [[next count]|e] eqn:E; [|vm_compute in E; discriminate].
  destruct H as (_ & Hc & _). split; [|exact Hc]. vm_compute in E. congruence.
Defined.
(** A dollar sign in the new text is not kept: the edit writes something else than it
    was given. *)
Example dollar_lost :
  replaceExactText "price = 0" (input "0" "'$$' + n" None) = Ok ("price = '$' + n", 1) /\
  replaceExactText "run x" (input "x" "${$&}" None) = Ok ("run ${x}", 1).
Proof. by vm_compute. Qed.
(** Two places where the text fits, and the edit is not ambiguous *)
Example overlapping : replaceExactText "aaa" (input "aa" "b" None) = Ok ("ba", 1).
Proof. by vm_compute. Qed.
(** The same texts with [replaceAll] *)
Example dollar_kept : replaceExactText "price = 0" (input "0" "'$$' + n" (Some true)) = Ok ("price = '$$' + n", 1).
Proof. by vm_compute. Qed.
(** An empty text to look for would never be found. *)
Example empty_text : replaceExactText "a" (input "" "b" None) = Err NeverReturns.
Proof. by vm_compute. Qed.
End EditDemo.
