(* ===== verification/WorkspaceEditProps.v ===== *)
(** Edits of workspace files: what the files are after several exact edits, made
    together or taken back. *)
From S2P Require Import Prelude Js Text Json ArtifactStore Toolbox WorkspacePaths WorkspaceEdit.
From Stdlib Require Import Ascii.
#[local] Open Scope Z_scope.

(** * What the sandbox promises *)

Section Files.
Context {W : Type} (sandbox : Sandbox W) (files : W -> gmap string string).

Definition succeeded (r : res sandbox_error ToolboxCommandResult) : bool :=
  match r with Ok c => cr_exitCode c =? 0 | Err _ => false end.
(** A command of the toolbox as the sandbox gets it *)
Definition exec (command : string) (args : list string) : ST W sandbox_error ToolboxCommandResult :=
  sb_exec sandbox (shell_line command args) None None.
Definition quiet_commands : list string := ["realpath"; "mkdir"; "test"; "stat"; "chmod"].
Definition calm {A} (m : ST W sandbox_error A) : Prop := forall w, files (snd (m w)) = files w.
(** [f'] has what [f] has outside [t]. *)
Definition same_but (t : string) (f f' : gmap string string) : Prop := forall q, q <> t -> f' !! q = f !! q.
(** The file [source] has become [target]. *)
Definition moved (source target : string) (f f' : gmap string string) : Prop :=
  exists c, f !! source = Some c /\ f' = <[target := c]> (delete source f).

(** The files change only as the documentation of the commands says: renaming a file
    within a directory happens or does not, also when the sandbox throws instead of
    answering; and a random name is new.  That a command succeeds is never promised. *)
Class SandboxFiles : Prop := {
  sf_quiet command args : command ∈ quiet_commands -> calm (exec command args);
  sf_mv source target w :
    is_Some (files w !! target) ->
    let '(r, w') := exec "mv" ["-f"; "--"; source; target] w in
    match r with
    | Ok _ => if succeeded r then moved source target (files w) (files w') else files w' = files w
    | Err _ => files w' = files w \/ moved source target (files w) (files w')
    end;
  sf_rm path w : same_but path (files w) (files (snd (exec "rm" ["-f"; "--"; path] w)));
  sf_write path content w :
    let '(r, w') := sb_writeFile sandbox path content w in
    if is_ok r then files w' = <[path := content]> (files w) else same_but path (files w) (files w');
  sf_read path w :
    let '(r, w') := sb_readFile sandbox path w in
    files w' = files w /\ forall content, r = Ok (true, Some content) -> files w !! path = Some content;
  sf_delay ms : calm (sb_delay sandbox ms);
  sf_uuid w : exists uuid, fst (sb_randomUUID sandbox w) = Ok uuid /\ forall d, files w !! temp_path d uuid = None;
  sf_uuid_calm : calm (sb_randomUUID sandbox);
  sf_random w : is_ok (fst (sb_random36 sandbox w)) = true;
  sf_random_calm : calm (sb_random36 sandbox);
}.
(** The sandbox answers every [mv], with success or failure. *)
Definition mv_answers : Prop :=
  forall source target w, is_ok (fst (exec "mv" ["-f"; "--"; source; target] w)) = true.
End Files.

Section Commands.
Context {W : Type} (sandbox : Sandbox W) (files : W -> gmap string string) `{!SandboxFiles sandbox files}.

(** A relation between the files before and after a command, which depends on whether
    it succeeded and allows for attempts that throw first *)
Record effect (step : bool -> gmap string string -> gmap string string -> Prop) (command : string) (args : list string)
    : Prop := {
  ef_exec w : let '(r, w') := exec sandbox command args w in step (succeeded r) (files w) (files w');
  ef_refl f : step false f f;
  ef_retry w b f : is_ok (fst (exec sandbox command args w)) = false ->
    step b (files (snd (exec sandbox command args w))) f -> step b (files w) f;
}.

Lemma retries_effect step command args delays : effect step command args ->
  forall w, let '(r, w') := exec_with_retries sandbox delays (shell_line command args) None None w in
    step (succeeded r) (files w) (files w').
Proof.
  intros He. induction delays as [|ms delays IH]; intros w; cbn [exec_with_retries]; unfold try_catch;
    pose proof (ef_exec _ _ _ He w) as Hw; pose proof (ef_retry _ _ _ He w) as Hr; unfold exec in Hw, Hr;
    destruct (sb_exec _ _ _ _ _) as [[c|e] w1]; try exact Hw.
  destruct (isRetriableSandboxSessionError e); [|exact Hw]. unfold mbind, ST_bind. cbn [fst snd is_ok] in Hr.
  pose proof (sf_delay sandbox files ms w1) as Hf. destruct (sb_delay sandbox ms w1) as [[[]|e'] w2]; cbn [snd] in Hf.
  - specialize (IH w2). destruct (exec_with_retries _ _ _ _ _ _) as [r w3]. apply Hr; [done|]. by rewrite <- Hf.
  - rewrite Hf. exact Hw.
Qed.

(** The call of a command without a directory, an environment or a time limit *)
Definition simple (spec : SafeCommandSpec) (command : string) (args : list string) : Prop :=
  sp_command spec = command /\ sp_args spec = Some args /\ sp_env spec = None /\ sp_cwd spec = None /\ sp_timeoutMs spec = None.

(** A source of random texts returns and changes nothing. *)
Definition harmless {A} (m : ST W sandbox_error A) (w : W) : Prop :=
  exists a, fst (m w) = Ok a /\ files (snd (m w)) = files w.
Lemma session_harmless request w : harmless (createSessionId sandbox request) w.
Proof.
  unfold harmless, createSessionId, mbind, ST_bind. destruct (sf_uuid sandbox files w) as (uuid & Hu & _).
  pose proof (sf_uuid_calm sandbox files w) as Hf. destruct (sb_randomUUID sandbox w) as [[u|e] w1]; [|done]. by eexists.
Qed.
Lemma call_id_harmless (callId : option string) command w :
  harmless (match callId with Some id => mret id | None => createToolCallId sandbox command end) w.
Proof.
  unfold harmless, createToolCallId, mbind, ST_bind. destruct callId as [id|]; [by exists id|]. cbn [gets].
  pose proof (sf_random sandbox files w) as Hr. pose proof (sf_random_calm sandbox files w) as Hf.
  destruct (sb_random36 sandbox w) as [[u|e] w1]; [|done]. by eexists.
Qed.
(** A call returns, and does to the files what its command does. *)
Definition called (step : bool -> gmap string string -> gmap string string -> Prop) (w : W)
    (r : res sandbox_error ToolboxExecutionResult) (w' : W) : Prop :=
  exists result, r = Ok result /\ step (ex_exitCode result =? 0) (files w) (files w').
Lemma session_effect step request command args w :
  rq_command request = command -> rq_args request = Some args -> rq_env request = None -> rq_cwd request = None ->
  rq_timeoutMs request = None -> effect step command args ->
  let '(r, w') := session_execute sandbox request [command] w in called step w r w'.
Proof.
  intros Hc Ha He Hd Ht Hs. unfold session_execute. destruct (session_harmless request w) as (i0 & Hi & Hf).
  destruct (evaluate request [command]) as [reason|].
  - unfold buildDeniedResult, mbind, ST_bind. destruct (createSessionId _ _ _) as [[i|e] w1]; [|done]. cbn in *.
    eexists. split; [done|]. rewrite Hf. apply (ef_refl _ _ _ Hs).
  - unfold mbind at 1, ST_bind at 1. destruct (createSessionId _ _ _) as [[i|e] w1]; [|done]. cbn [snd] in Hf.
    unfold mbind at 1, ST_bind at 1. cbn [gets]. unfold buildShellCommand. rewrite Hc, Ha, He, Hd, Ht.
    cbn [runWithTimeout default]. unfold try_catch. unfold mbind at 1, ST_bind at 1. unfold executeWithSandboxSessionRetry.
    pose proof (retries_effect step command args SANDBOX_SESSION_RETRY_DELAYS_MS Hs w1) as Hr. rewrite Hf in Hr.
    destruct (exec_with_retries _ _ _ _ _ _) as [[c|e] w2]; cbn [succeeded] in Hr; cbn;
      (eexists; split; [done|]; cbn [ex_exitCode]); [exact Hr|].
    by destruct (match e with an_error m => String.eqb m TIMED_OUT | a_value _ => false end).
Qed.
Lemma safe_command_effect step spec command args w :
  simple spec command args -> effect step command args ->
  let '(r, w') := runSafeCommand sandbox spec [command] w in called step w r w'.
Proof.
  intros (Hc & Ha & He & Hd & Ht) Hs. unfold runSafeCommand. rewrite Hc. unfold mbind at 1, ST_bind at 1.
  destruct (call_id_harmless (sp_callId spec) command w) as (id & Hid & Hf).
  set (callId := match sp_callId spec with Some id => _ | None => _ end) in *.
  destruct (callId w) as [[i|e] w1]; [|done]. cbn [snd] in *.
  set (request := mkRequest _ _ _ _ _ _ _ _).
  pose proof (session_effect step request command args w1 eq_refl Ha He Hd Ht Hs) as Hr.
  destruct (session_execute _ _ _ _) as [r w2]. unfold called in *. by rewrite <- Hf.
Qed.

(** ** The commands of the editor *)

Definition quiet_step (_ : bool) (f f' : gmap string string) : Prop := f' = f.
Definition rm_step (path : string) (_ : bool) : gmap string string -> gmap string string -> Prop := same_but path.
(** A [mv] that fails has changed nothing, or was done without an answer. *)
Definition mv_step (source target : string) (b : bool) (f f' : gmap string string) : Prop :=
  is_Some (f !! target) ->
  if b then moved source target f f'
  else (f' = f \/ moved source target f f') /\ (mv_answers sandbox -> f' = f).

Lemma quiet_effect command args : command ∈ quiet_commands -> effect quiet_step command args.
Proof.
  intros Hq. pose proof (sf_quiet sandbox files command args Hq) as Hf. unfold quiet_step.
  split; [|done|].
  - intros w. specialize (Hf w). by destruct (exec sandbox command args w).
  - intros w b f _ ->. apply Hf.
Qed.
Lemma same_but_trans t f1 f2 f3 : same_but t f1 f2 -> same_but t f2 f3 -> same_but t f1 f3.
Proof. intros H1' H2' q Hq. by rewrite H2', H1'. Qed.
Lemma rm_effect path : effect (rm_step path) "rm" ["-f"; "--"; path].
Proof.
  pose proof (sf_rm sandbox files path) as Hf. unfold rm_step. split; [|done|].
  - intros w. specialize (Hf w). by destruct (exec sandbox _ _ w).
  - intros w b f _ Hs. by eapply same_but_trans.
Qed.
Lemma mv_effect source target : source <> target -> effect (mv_step source target) "mv" ["-f"; "--"; source; target].
Proof.
  intros Hne. unfold mv_step. split.
  - intros w. pose proof (sf_mv sandbox files source target w) as Hf.
    pose proof (fun Ha : mv_answers sandbox => Ha source target w) as Ha.
    destruct (exec sandbox _ _ w) as [[c|e] w']; cbn [succeeded fst is_ok] in *; intros Ht; specialize (Hf Ht).
    + destruct (cr_exitCode c =? 0); auto.
    + split; [done|]. by intros ?%Ha.
  - auto.
  - intros w b f Herr Hs Ht. pose proof (sf_mv sandbox files source target w Ht) as Hf.
    assert (Hno : ~ mv_answers sandbox) by (intros Ha; by rewrite Ha in Herr).
    destruct (exec sandbox _ _ w) as [[c|e] w']; [done|]. cbn [snd] in Hs. destruct Hf as [Hf|Hf]; [rewrite Hf in Hs; exact (Hs Ht)|].
    assert (Hgone : forall f', ~ moved source target (files w') f').
    { intros f' (c' & Hc' & _). destruct Hf as (c & _ & E). by rewrite E, lookup_insert_ne, lookup_delete_eq in Hc'. }
    assert (Ht' : is_Some (files w' !! target)) by (destruct Hf as (c & _ & ->); rewrite lookup_insert_eq; eauto).
    specialize (Hs Ht'). destruct b; [by apply Hgone in Hs|]. destruct Hs as [[->|Hs] _]; [|by apply Hgone in Hs].
    split; [by right|by intros ?%Hno].
Qed.
End Commands.

Section Editor.
Context `{!WebCrypto} {W : Type} (sandbox : Sandbox W) (files : W -> gmap string string) `{!SandboxFiles sandbox files}
        (workspaceRoot : string) (toolboxContext : ToolboxCommandContext) (runId : string).

Lemma wp_toolbox {A} (m : ST W sandbox_error A) Q X w :
  wp (toolbox m) Q X w <-> wp m Q (fun e => X (plain_error e)) w.
Proof. unfold wp, toolbox. by destruct (m w) as [[]]. Qed.
Lemma wp_safe step spec command args (Q : ToolboxExecutionResult -> W -> Prop) (X : edit_error -> W -> Prop) w :
  simple spec command args -> effect sandbox files step command args ->
  (forall result w', step (ex_exitCode result =? 0) (files w) (files w') -> Q result w') ->
  wp (toolbox (runSafeCommand sandbox spec [command])) Q X w.
Proof.
  intros Hs He HQ. apply wp_toolbox. unfold wp.
  pose proof (safe_command_effect sandbox files step spec command args w Hs He) as Hc.
  destruct (runSafeCommand _ _ _ _) as [r w']. destruct Hc as (result & -> & ?). by apply HQ.
Qed.
Lemma wp_checked step command args (Q : unit -> W -> Prop) (X : edit_error -> W -> Prop) w :
  effect sandbox files step command args ->
  (forall w', step true (files w) (files w') -> Q tt w') ->
  (forall e w', step false (files w) (files w') -> X e w') ->
  wp (runCheckedCommand sandbox toolboxContext runId command args) Q X w.
Proof.
  intros He HQ HX. unfold runCheckedCommand. rewrite wp_bind. eapply (wp_safe step); [by repeat split|done|].
  intros result w' Hstep. destruct (Z.eqb_spec (ex_exitCode result) 0) as [E|E]; cbn [negb throw_if].
  - by apply wp_ret, HQ.
  - by apply wp_throw, HX.
Qed.
Lemma wp_plain_quiet command args (Q : ToolboxExecutionResult -> W -> Prop) (X : edit_error -> W -> Prop) w :
  command ∈ quiet_commands ->
  (forall result w', files w' = files w -> Q result w') -> wp (plain_command sandbox runId command args) Q X w.
Proof.
  intros Hq HQ. unfold plain_command. eapply (wp_safe _ _ command args); [by repeat split|by apply quiet_effect|].
  intros result w' Hs. by apply HQ.
Qed.
Lemma wp_read path (Q : string -> W -> Prop) (X : edit_error -> W -> Prop) w :
  (forall content w', files w' = files w -> files w !! path = Some content -> Q content w') ->
  (forall e w', files w' = files w -> X e w') ->
  wp (readTextFile sandbox path) Q X w.
Proof.
  intros HQ HX. unfold readTextFile. rewrite wp_bind, wp_toolbox. unfold wp at 1.
  pose proof (sf_read sandbox files path w) as Hr.
  destruct (sb_readFile sandbox path w) as [r w']. destruct Hr as [Hf Hc]. destruct r as [[[] [content|]]|e]; cbn.
  - apply HQ; [done|]. by apply Hc.
  - by apply HX.
  - by apply HX.
  - by apply HX.
  - by apply HX.
Qed.

(** ** The files of an edit under way *)

Definition is_temp (q : string) : Prop := exists d uuid, q = temp_path d uuid.
(** Every file of [f] is in [f'], with its content or one that [contents] gives it, and
    what [f'] has besides is temporary. *)
Record mixture (f : gmap string string) (contents : list (string * string)) (f' : gmap string string) : Prop := {
  mx_files q c : f !! q = Some c -> exists c', f' !! q = Some c' /\ (c' = c \/ (q, c') ∈ contents);
  mx_new q : f !! q = None -> is_Some (f' !! q) -> is_temp q;
}.
(** Every file is there as it was. *)
Definition leftover (f f' : gmap string string) : Prop := mixture f [] f'.

Lemma mixture_mono f l l' f' : (forall x, x ∈ l -> x ∈ l') -> mixture f l f' -> mixture f l' f'.
Proof.
  intros Hl [Hf Hn]. split; [|done]. intros q c Hq. destruct (Hf q c Hq) as (c' & Hc' & Hin). exists c'.
  split; [done|]. destruct Hin; auto.
Qed.
Lemma mixture_refl f l : mixture f l f.
Proof. split; [intros q c Hq; exists c; auto|]. intros q Hq [? ?]. congruence. Qed.
Lemma mixture_trans l f1 f2 f3 : mixture f1 l f2 -> mixture f2 l f3 -> mixture f1 l f3.
Proof.
  intros [Hf Hn] [Hf' Hn']. split.
  - intros q c Hq. destruct (Hf q c Hq) as (c1 & Hc1 & Hin1). destruct (Hf' q c1 Hc1) as (c2 & Hc2 & Hin2).
    exists c2. split; [done|]. destruct Hin2 as [-> |]; auto.
  - intros q Hq Hs. destruct (f2 !! q) as [c|] eqn:E; [apply Hn; [done|by rewrite E]|by apply Hn'].
Qed.
Lemma mixture_insert f l q c c0 : f !! q = Some c0 -> (q, c) ∈ l -> mixture f l (<[q := c]> f).
Proof.
  intros Hq Hin. split; intros q'; destruct (decide (q = q')) as [<-|Hne].
  - intros c1 _. exists c. rewrite lookup_insert_eq. auto.
  - intros c1 Hc1. exists c1. rewrite lookup_insert_ne by done. auto.
  - congruence.
  - rewrite lookup_insert_ne by done. intros -> [? ?]. congruence.
Qed.
Lemma leftover_same t f f' : is_temp t -> f !! t = None -> same_but t f f' -> leftover f f'.
Proof.
  intros Ht Hn Hs. split.
  - intros q c Hq. exists c. split; [|by left]. rewrite Hs; [done|]. by intros ->; rewrite Hn in Hq.
  - intros q Hq [c Hc]. destruct (decide (q = t)) as [->|Hne]; [done|]. rewrite Hs, Hq in Hc; done.
Qed.
Lemma leftover_lookup f f' q c : leftover f f' -> f !! q = Some c -> f' !! q = Some c.
Proof. intros [Hf _] Hq. destruct (Hf q c Hq) as (c' & Hc' & [->|Hin]); [done|by apply elem_of_nil in Hin]. Qed.

(** ** One atomic write *)

Lemma wp_preserve target temp (Q : unit -> W -> Prop) (X : edit_error -> W -> Prop) w :
  (forall w', files w' = files w -> Q tt w') -> (forall e w', files w' = files w -> X e w') ->
  wp (preserveExistingMode sandbox toolboxContext runId target temp) Q X w.
Proof.
  intros HQ HX. unfold preserveExistingMode. rewrite wp_bind.
  apply wp_plain_quiet; [by set_solver|]. intros r1 w1 H1'. destruct (negb _); [by apply wp_ret, HQ|].
  rewrite wp_bind. apply wp_plain_quiet; [by set_solver|]. intros r2 w2 H2'.
  destruct (_ && is_mode _); [|apply wp_ret, HQ; congruence].
  eapply wp_checked; [apply quiet_effect; set_solver|intros w3 H3'|intros e w3 H3'];
    unfold quiet_step in H3'; [apply HQ|apply HX]; congruence.
Qed.
Lemma same_but_insert t c f : same_but t f (<[t := c]> f).
Proof. intros q Hq. by rewrite lookup_insert_ne. Qed.
(** The [catch] of [atomicWrite] *)
Lemma wp_cleanup temp error f w (X : edit_error -> W -> Prop) (Q : unit -> W -> Prop) :
  same_but temp f (files w) ->
  (forall e w', same_but temp f (files w') -> X e w') ->
  wp (_ ← plain_command sandbox runId "rm" ["-f"; "--"; temp]; throw error) Q X w.
Proof.
  intros Hs HX. rewrite wp_bind. unfold plain_command.
  eapply (wp_safe _ _ "rm" ["-f"; "--"; temp]); [by repeat split|by apply rm_effect|].
  intros result w' Hs'. apply wp_throw, HX. by eapply same_but_trans.
Qed.

(** The files after an atomic write that threw: those before, or those with the new
    content when the sandbox renamed the file and did not answer *)
Definition write_failed (target content : string) (f f' : gmap string string) : Prop :=
  (leftover f f' \/ leftover (<[target := content]> f) f') /\ (mv_answers sandbox -> leftover f f').
Lemma write_failed_no target content f f' : leftover f f' -> write_failed target content f f'.
Proof. split; auto. Qed.

Lemma wp_atomic target content old w :
  files w !! target = Some old ->
  wp (atomicWrite sandbox toolboxContext runId target content)
    (fun _ w' => files w' = <[target := content]> (files w))
    (fun _ w' => write_failed target content (files w) (files w')) w.
Proof.
  intros Hold. unfold atomicWrite. rewrite wp_bind. eapply wp_checked; [apply (quiet_effect sandbox files); set_solver| |].
  2: { intros e w1 ->. apply write_failed_no, mixture_refl. }
  intros w1 E1. unfold quiet_step in E1. rewrite wp_bind, wp_toolbox. unfold wp at 1.
  destruct (sf_uuid sandbox files w1) as (uuid & Hu & Hfresh). pose proof (sf_uuid_calm sandbox files w1) as E2.
  destruct (sb_randomUUID sandbox w1) as [r w2]. cbn [fst snd] in *. rewrite Hu. set (temp := temp_path (dirname target) uuid).
  specialize (Hfresh (dirname target)). fold temp in Hfresh. rewrite E1 in Hfresh, E2.
  assert (Htemp : temp <> target) by (intros E; congruence).
  assert (Hend : forall f w', f !! temp = None -> same_but temp f (files w') -> leftover f (files w')).
  { intros f w' Hf Hs. eapply leftover_same; [by eexists _, _|done|done]. }
  apply wp_try_catch. rewrite wp_bind, wp_toolbox. unfold wp at 1. pose proof (sf_write sandbox files temp content w2) as Hw.
  destruct (sb_writeFile sandbox temp content w2) as [[[]|e] w3]; cbn [is_ok fst snd] in *; rewrite E2 in Hw.
  2: { eapply (wp_cleanup temp _ (files w)); [done|]. intros e' w4 Hs4. by apply write_failed_no, Hend. }
  rewrite wp_bind. apply wp_preserve.
  2: { intros e w4 E4. eapply (wp_cleanup temp _ (files w)); [rewrite E4, Hw; apply same_but_insert|].
       intros e' w5 Hs5. by apply write_failed_no, Hend. }
  intros w4 E4. rewrite Hw in E4. assert (Ht4 : is_Some (files w4 !! target)) by (rewrite E4, lookup_insert_ne by done; eauto).
  assert (Hmoved : forall f', moved temp target (files w4) f' -> f' = <[target := content]> (files w)).
  { intros f' (c & Hc & ->). rewrite E4, lookup_insert_eq in Hc. injection Hc as <-. by rewrite E4, delete_insert_id. }
  eapply wp_checked; [by apply (mv_effect sandbox files temp target)| |].
  - intros w5 Hmv. by apply Hmoved, Hmv.
  - intros e w5 Hmv. destruct (Hmv Ht4) as [Hsame Hanswers].
    set (f := files w5) in *. assert (Hf : same_but temp (files w) f \/ f = <[target := content]> (files w)).
    { destruct Hsame as [->|Hm%Hmoved]; [left; rewrite E4; apply same_but_insert|by right]. }
    assert (Ha : mv_answers sandbox -> same_but temp (files w) f) by (intros ->%Hanswers; rewrite E4; apply same_but_insert).
    eapply (wp_cleanup temp _ f); [done|]. intros e' w6 Hs6. split.
    + destruct Hf as [Hf| ->]; [left; apply Hend; [done|by eapply same_but_trans]|right].
      apply Hend; [by rewrite lookup_insert_ne|done].
    + intros Hans. apply Hend; [done|]. by eapply same_but_trans; [apply Ha|].
Qed.

(** ** Several edits *)

(** What an edit is prepared to: the content of a file of the workspace, and what the
    exact edit makes of it *)
Definition prepared_from (f : gmap string string) (input : ExactEditInput) (p : PreparedEdit) : Prop :=
  pe_path p = ee_path input /\ isWithinWorkspace workspaceRoot (pe_targetPath p) = true /\
  f !! pe_targetPath p = Some (pe_originalContent p) /\
  assertHash (pe_originalContent p) (ee_expectedSha256 input) = Ok tt /\
  replaceExactText (pe_originalContent p) input = Ok (pe_nextContent p, pe_replacementCount p).

Lemma wp_resolver inputPath operation w :
  wp (resolver_resolve sandbox workspaceRoot toolboxContext runId inputPath operation)
    (fun path w' => files w' = files w /\ isWithinWorkspace workspaceRoot path = true) (fun _ w' => files w' = files w) w.
Proof.
  unfold resolver_resolve, guard. rewrite wp_bind. apply wp_lift; [|done].
  intros targetPath _. rewrite wp_bind. eapply (wp_safe quiet_step _ "realpath");
    [by repeat split|apply quiet_effect; set_solver|].
  intros result w' Hq. destruct (negb _); [by apply wp_throw|]. unfold assertWithinWorkspace.
  apply wp_lift; [|done]. intros path. destruct (isWithinWorkspace _ _) eqn:Ew; [|done]. by intros [= <-].
Qed.
Lemma wp_prepare input w :
  wp (prepareEdit sandbox workspaceRoot toolboxContext runId input)
    (fun p w' => files w' = files w /\ prepared_from (files w) input p) (fun _ w' => files w' = files w) w.
Proof.
  unfold prepareEdit, resolveWritablePath. rewrite wp_bind. eapply wp_mono; [apply wp_resolver| |done].
  intros target w1 [E1 Hin]. rewrite wp_bind. apply wp_read; [|by intros e w2 E2; rewrite E2].
  intros content w2 E2 Hc. rewrite E1 in Hc. rewrite E1 in E2. rewrite wp_bind. apply wp_lift; [|done]. intros [] Hhash.
  rewrite wp_bind. apply wp_lift; [|done]. intros [next n] Hn. apply wp_ret. by split.
Qed.
Lemma wp_prepare_all edits : forall w,
  wp (map_of edits (prepareEdit sandbox workspaceRoot toolboxContext runId))
    (fun ps w' => files w' = files w /\ Forall2 (prepared_from (files w)) edits ps) (fun _ w' => files w' = files w) w.
Proof.
  induction edits as [|input edits IH]; intros w; cbn [map_of]; [by apply wp_ret|].
  rewrite wp_bind. eapply wp_mono; [apply wp_prepare| |done]. intros p w1 [E1 Hp].
  rewrite wp_bind. eapply wp_mono; [apply IH| |by intros e w2 ->].
  intros ps w2 [E2 Hps]. apply wp_ret. rewrite E1 in Hps, E2. by split; [|constructor].
Qed.

(** The files after the writes of some edits, [g] giving the contents *)
Definition writes (g : PreparedEdit -> string) (f : gmap string string) (l : list PreparedEdit) : gmap string string :=
  foldl (fun f e => <[pe_targetPath e := g e]> f) f l.
(** The contents they write *)
Definition written (g : PreparedEdit -> string) (l : list PreparedEdit) : list (string * string) :=
  map (fun e => (pe_targetPath e, g e)) l.
Lemma written_elem g l q c : (q, c) ∈ written g l <-> exists e, e ∈ l /\ q = pe_targetPath e /\ c = g e.
Proof. unfold written. rewrite list_elem_of_fmap. split; [intros (e & [= -> ->] & ?)|intros (e & ? & -> & ->)]; eauto. Qed.

(** Each edit is of a file [f] has, with the content it has there. *)
Definition originals (f : gmap string string) : list PreparedEdit -> Prop :=
  Forall (fun e => f !! pe_targetPath e = Some (pe_originalContent e)).
Lemma writes_mixture f0 l : originals f0 l -> mixture f0 (written pe_nextContent l) (writes pe_nextContent f0 l).
Proof.
  induction l as [|e l IH] using rev_ind; intros Ho; [apply mixture_refl|].
  apply Forall_app in Ho as [Ho [He _]%Forall_cons]. specialize (IH Ho).
  assert (Hin : mixture f0 (written pe_nextContent (l ++ [e])) (writes pe_nextContent f0 l)).
  { eapply mixture_mono; [|exact IH]. intros [q c]. rewrite !written_elem. intros (e' & ? & ?). exists e'. set_solver. }
  unfold writes. rewrite foldl_app. cbn. eapply mixture_trans; [exact Hin|].
  destruct (mx_files _ _ _ IH _ _ He) as (c & Hc & _). eapply mixture_insert; [exact Hc|].
  apply written_elem. exists e. set_solver.
Qed.

Lemma writes_cons g f e l : writes g f (e :: l) = writes g (<[pe_targetPath e := g e]> f) l.
Proof. done. Qed.
Lemma writes_out g l : forall f q, q ∉ map pe_targetPath l -> writes g f l !! q = f !! q.
Proof.
  induction l as [|e l IH]; intros f q Hq; [done|]. apply not_elem_of_cons in Hq as [Hq Hl].
  rewrite writes_cons, IH by done. by rewrite lookup_insert_ne.
Qed.
Lemma writes_in g l c : forall f q,
  q ∈ map pe_targetPath l -> (forall e, e ∈ l -> pe_targetPath e = q -> g e = c) -> writes g f l !! q = Some c.
Proof.
  induction l as [|e l IH]; intros f q Hq Hc; [by apply elem_of_nil in Hq|]. rewrite writes_cons.
  destruct (decide (q ∈ map pe_targetPath l)) as [Hl|Hl].
  { apply IH; [done|]. intros e' He'. apply Hc. by right. }
  rewrite (writes_out g l) by done. apply elem_of_cons in Hq as [->|Hq]; [|done]. rewrite lookup_insert_eq.
  f_equal. apply Hc; [by left|done].
Qed.

Lemma write_failed_mixture target content f f' l :
  is_Some (f !! target) -> (target, content) ∈ l -> write_failed target content f f' -> mixture f l f'.
Proof.
  intros [c Hc] Hin [[Hl|Hl] _]; (eapply mixture_mono in Hl; [|intros x Hx; by apply elem_of_nil in Hx]); [exact Hl|].
  eapply mixture_trans; [by eapply mixture_insert|exact Hl].
Qed.
Lemma wp_rollback l : forall w, Forall (fun e => is_Some (files w !! pe_targetPath e)) l ->
  wp (for_of l (fun e => atomicWrite sandbox toolboxContext runId (pe_targetPath e) (pe_originalContent e)))
    (fun _ w' => files w' = writes pe_originalContent (files w) l)
    (fun _ w' => mixture (files w) (written pe_originalContent l) (files w')) w.
Proof.
  induction l as [|e l IH]; intros w Hl; cbn [for_of]; [by apply wp_ret|].
  apply Forall_cons in Hl as [[old Hold] Hl]. rewrite wp_bind.
  assert (Hin : (pe_targetPath e, pe_originalContent e) ∈ written pe_originalContent (e :: l)) by by left.
  eapply wp_mono; [by apply (wp_atomic _ _ old)| |intros e' w' Hf; eapply write_failed_mixture; eauto].
  intros [] w1 Hf. rewrite writes_cons, <- Hf. eapply wp_mono; [apply IH|done|].
  - eapply Forall_impl; [exact Hl|]. intros e' Hs. rewrite Hf.
    destruct (decide (pe_targetPath e = pe_targetPath e')) as [->|Hne]; [rewrite lookup_insert_eq; eauto|by rewrite lookup_insert_ne].
  - intros e' w' Hm. eapply mixture_trans; [eapply mixture_insert; [exact Hold|exact Hin]|]. rewrite <- Hf.
    eapply mixture_mono; [|exact Hm]. intros x Hx. by right.
Qed.
(** Writing back the original contents leaves what was there before the edits. *)
Lemma rolled_back f0 l f extra :
  originals f0 l -> mixture (writes pe_nextContent f0 l) extra f -> mixture f0 extra (writes pe_originalContent f (rev l)).
Proof.
  unfold originals. rewrite List.Forall_forall. intros Horig [Hf Hn].
  assert (Hin : forall q, q ∈ map pe_targetPath (rev l) <-> q ∈ map pe_targetPath l).
  { intros q. rewrite !list_elem_of_In, map_rev. symmetry. apply in_rev. }
  split.
  - intros q c Hq. destruct (decide (q ∈ map pe_targetPath l)) as [Hl|Hl].
    + exists c. split; [|by left]. apply writes_in; [by apply Hin|]. intros e He <-.
      apply list_elem_of_In, in_rev, Horig in He. congruence.
    + rewrite writes_out by by rewrite Hin. apply Hf. by rewrite writes_out.
  - intros q Hq Hs. assert (Hl : q ∉ map pe_targetPath l).
    { intros Hl. apply list_elem_of_In, in_map_iff in Hl as (e & <- & He). by rewrite Horig in Hq. }
    rewrite writes_out in Hs by by rewrite Hin. apply Hn; [|done]. by rewrite writes_out.
Qed.
Lemma mixture_originals f0 l contents f :
  originals f0 l -> mixture f0 (contents ++ written pe_originalContent l) f -> mixture f0 contents f.
Proof.
  intros Ho [Hf Hn]. split; [|done]. intros q c Hq. destruct (Hf q c Hq) as (c' & Hc' & Hin). exists c'. split; [done|].
  rewrite elem_of_app, written_elem in Hin. destruct Hin as [?|[?|(e & He & -> & ->)]]; auto.
  left. unfold originals in Ho. rewrite Forall_forall in Ho. specialize (Ho e He). congruence.
Qed.

(** Of the edits [prepared], those of [applied] were written and the next one threw:
    [applied] is rolled back.  Whatever becomes of the rollback each file is as before or
    holds the content of its edit; when the rollback returns, all files are as before
    but the one that was being written, and this one too if [mv] is answered. *)
Definition taken_back (f0 : gmap string string) (prepared : list PreparedEdit) (w' : W) : Prop :=
  exists applied failed rest w1 r,
    prepared = applied ++ failed :: rest /\
    rollbackEdits sandbox toolboxContext runId applied w1 = (r, w') /\
    mixture f0 (written pe_nextContent (applied ++ [failed])) (files w') /\
    (is_ok r = true -> mixture f0 [(pe_targetPath failed, pe_nextContent failed)] (files w')) /\
    (is_ok r = true -> mv_answers sandbox -> leftover f0 (files w')).

(** The [catch] of [applyPreparedEdits] *)
Lemma wp_undo f0 applied failed rest error w (Q : unit -> W -> Prop) :
  originals f0 (applied ++ failed :: rest) ->
  write_failed (pe_targetPath failed) (pe_nextContent failed) (writes pe_nextContent f0 applied) (files w) ->
  wp (_ ← rollbackEdits sandbox toolboxContext runId applied; throw error) Q
    (fun _ w' => taken_back f0 (applied ++ failed :: rest) w') w.
Proof.
  intros [Ho [He _]%Forall_cons]%Forall_app Hfail. pose proof (writes_mixture f0 applied Ho) as Happlied.
  assert (Hmix : mixture (writes pe_nextContent f0 applied) [(pe_targetPath failed, pe_nextContent failed)] (files w)).
  { eapply write_failed_mixture; [|by left|exact Hfail]. destruct (mx_files _ _ _ Happlied _ _ He) as (c & -> & _). eauto. }
  assert (Hall : mixture f0 (written pe_nextContent (applied ++ [failed])) (files w)).
  { unfold written. rewrite map_app. eapply mixture_trans; (eapply mixture_mono; [|eassumption]); intros x; set_solver. }
  pose proof (wp_rollback (rev applied) w) as Hr. unfold wp in Hr.
  fold (rollbackEdits sandbox toolboxContext runId applied) in Hr.
  unfold wp, mbind, ST_bind. destruct (rollbackEdits _ _ _ applied w) as [r w'] eqn:Erun.
  assert (Htargets : Forall (fun e => is_Some (files w !! pe_targetPath e)) (rev applied)).
  { apply Forall_rev, (Forall_impl _ _ _ Ho). intros e Hq. destruct (mx_files _ _ _ Hall _ _ Hq) as (c & -> & _). eauto. }
  specialize (Hr Htargets). assert (Hback : taken_back f0 (applied ++ failed :: rest) w').
  { exists applied, failed, rest, w, r. destruct r as [[]|e']; (split_and!; [done..| | |]); try done.
    - rewrite Hr. eapply mixture_mono; [|by eapply rolled_back]. intros x Hx. unfold written. rewrite map_app. set_solver.
    - intros _. rewrite Hr. by apply rolled_back.
    - intros _ Ha. rewrite Hr. apply rolled_back; [done|]. by apply (proj2 Hfail).
    - apply (mixture_originals f0 (rev applied)); [by apply Forall_rev|].
      eapply mixture_trans; (eapply mixture_mono; [|eassumption]); intros x; set_solver. }
  by destruct r.
Qed.
Lemma wp_apply f0 edits : forall applied w,
  originals f0 (applied ++ edits) -> files w = writes pe_nextContent f0 applied ->
  wp (apply_from sandbox toolboxContext runId applied edits)
    (fun _ w' => files w' = writes pe_nextContent f0 (applied ++ edits))
    (fun _ w' => taken_back f0 (applied ++ edits) w') w.
Proof.
  induction edits as [|e edits IH]; intros applied w Ho Ha; cbn [apply_from].
  { rewrite app_nil_r. by apply wp_ret. }
  assert (Hno : forall w1, files w1 = files w ->
    write_failed (pe_targetPath e) (pe_nextContent e) (writes pe_nextContent f0 applied) (files w1)).
  { intros w1 ->. rewrite Ha. apply write_failed_no, mixture_refl. }
  rewrite wp_bind. apply wp_try_catch. rewrite wp_bind. unfold assertPreparedEditCurrent. rewrite wp_bind.
  apply wp_read; [|intros error w1 E1; by apply wp_undo; [|apply Hno]].
  intros content w1 E1 _. unfold throw_if. destruct (negb _); [by apply wp_throw, wp_undo; [|apply Hno]|].
  apply wp_ret. pose proof Ho as [Hoa [He _]%Forall_cons]%Forall_app.
  destruct (mx_files _ _ _ (writes_mixture f0 applied Hoa) _ _ He) as (old & Hold & _). rewrite <- Ha, <- E1 in Hold.
  eapply wp_mono; [by apply (wp_atomic _ _ old)| |].
  - intros [] w2 Hf. change (e :: edits) with ([e] ++ edits) in *. rewrite app_assoc in *. apply IH; [done|].
    rewrite Hf, E1, Ha. unfold writes. by rewrite foldl_app.
  - intros error w2 Hf. rewrite E1, Ha in Hf. by apply wp_undo.
Qed.

(** C12. Several edits are made together, and taken back when one of them fails.  When
    [multiEdit] returns, the files are those before with the content of each edited
    file, a file of the workspace that was read, replaced by what the exact edit makes
    of it, and nothing else has changed.  When it throws, no file is lost or cut:
    each holds what it held before or all that its edit makes of it, and nothing is new
    but temporary files.  Which of them are back depends on the sandbox, of which nothing
    is assumed to succeed: if it threw before the first file was written, all; if the
    rollback of the edits written returned, all but the file whose edit failed, which
    has the new content when the sandbox renamed the file and did not answer; and all
    of them if it answers every [mv].  If the rollback throws as well, files edited
    before the failure may stay edited ([sandbox_lost] below). *)
Theorem edits_all_or_none edits w :
  match multiEdit sandbox workspaceRoot toolboxContext runId edits w with
  | (Ok _, w') => exists prepared, Forall2 (prepared_from (files w)) edits prepared /\
                    files w' = writes pe_nextContent (files w) prepared
  | (Err _, w') => leftover (files w) (files w') \/
                   exists prepared, Forall2 (prepared_from (files w)) edits prepared /\ taken_back (files w) prepared w'
  end.
Proof.
  assert (Hwp : wp (multiEdit sandbox workspaceRoot toolboxContext runId edits)
    (fun _ w' => exists prepared, Forall2 (prepared_from (files w)) edits prepared /\
                    files w' = writes pe_nextContent (files w) prepared)
    (fun _ w' => leftover (files w) (files w') \/
       exists prepared, Forall2 (prepared_from (files w)) edits prepared /\ taken_back (files w) prepared w') w);
    [|unfold wp in Hwp; by destruct (multiEdit _ _ _ _ _ _) as [[] w']].
  unfold multiEdit. destruct (_ || _); [apply wp_throw; left; apply mixture_refl|].
  rewrite wp_bind. apply wp_lift; [|intros; left; apply mixture_refl]. intros [] _.
  rewrite wp_bind. eapply wp_mono; [apply wp_prepare_all| |intros e w1 ->; left; apply mixture_refl].
  intros prepared w1 [E1 Hp]. rewrite wp_bind. unfold applyPreparedEdits.
  eapply wp_mono; [apply (wp_apply (files w) prepared [])| |].
  - cbn. unfold originals. clear -Hp. induction Hp as [|input p inputs ps Hi Hp IH]; constructor; [apply Hi|done].
  - done.
  - intros [] w2 Hw2. apply wp_ret. by exists prepared.
  - intros e w2 Hw2. right. by exists prepared.
Qed.
(** A single edit *)
Theorem edit_alone input w :
  match edit sandbox workspaceRoot toolboxContext runId input w with
  | (Ok _, w') => exists p, prepared_from (files w) input p /\ files w' = <[pe_targetPath p := pe_nextContent p]> (files w)
  | (Err _, w') => leftover (files w) (files w') \/
                   exists p, prepared_from (files w) input p /\
                     write_failed (pe_targetPath p) (pe_nextContent p) (files w) (files w')
  end.
Proof.
  assert (Hwp : wp (edit sandbox workspaceRoot toolboxContext runId input)
    (fun _ w' => exists p, prepared_from (files w) input p /\ files w' = <[pe_targetPath p := pe_nextContent p]> (files w))
    (fun _ w' => leftover (files w) (files w') \/ exists p, prepared_from (files w) input p /\
       write_failed (pe_targetPath p) (pe_nextContent p) (files w) (files w')) w);
    [|unfold wp in Hwp; by destruct (edit _ _ _ _ _ _) as [[] w']].
  unfold edit. rewrite wp_bind. eapply wp_mono; [apply wp_prepare| |intros e w1 ->; left; apply mixture_refl].
  intros p w1 [E1 Hp]. rewrite wp_bind. unfold assertPreparedEditCurrent. rewrite wp_bind.
  apply wp_read; [|intros e w2 ->; rewrite E1; left; apply mixture_refl]. intros content w2 E2 _. unfold throw_if.
  destruct (negb _); [apply wp_throw; rewrite E2, E1; left; apply mixture_refl|]. apply wp_ret.
  rewrite wp_bind. eapply wp_mono; [apply (wp_atomic _ _ (pe_originalContent p))| |].
  - rewrite E2, E1. by destruct Hp as (_ & _ & ? & _).
  - intros [] w3 Hf. apply wp_ret. exists p. by rewrite Hf, E2, E1.
  - intros e w3 Hf. rewrite E2, E1 in Hf. right. by exists p.
Qed.
End Editor.

Module EditorDemo.
(** A sandbox with regular files only; [mv] onto a protected path fails.  It may go
    away after some renames, or rename without answering. *)
Inductive Health : Type := steady | gone_after (moves : nat) | answerless.
Record World : Type := mkWorld { w_files : gmap string string; w_protected : list string; w_health : Health }.
Definition set_files (files : gmap string string) (w : World) : World := mkWorld files (w_protected w) (w_health w).
Definition is_gone (w : World) : bool := match w_health w with gone_after O => true | _ => false end.
Definition after_move (h : Health) : Health := match h with gone_after (S n) => gone_after n | _ => h end.
Definition gone {A} : res sandbox_error A := Err (an_error "the sandbox is gone").

Definition done_with (stdout : string) : res sandbox_error ToolboxCommandResult := Ok (mkCommandResult 0 stdout "").
Definition failed : res sandbox_error ToolboxCommandResult := Ok (mkCommandResult 1 "" "failed").
Definition run_words (words : list string) (w : World) : res sandbox_error ToolboxCommandResult * World :=
  match words with
  | ["mv"; _; _; source; target] =>
      if bool_decide (target ∈ w_protected w) then (failed, w)
      else match w_files w !! source with
           | Some c => (if w_health w is answerless then gone else done_with "",
                        mkWorld (<[target := c]> (delete source (w_files w))) (w_protected w) (after_move (w_health w)))
           | None => (failed, w)
           end
  | ["rm"; _; _; path] => (done_with "", set_files (delete path (w_files w)) w)
  | ["realpath"; _; _; path] => (done_with path, w)
  | ["stat"; _; _; _] => (done_with "644", w)
  | _ => (done_with "", w)
  end.
Definition run_line (line : string) (w : World) : res sandbox_error ToolboxCommandResult * World :=
  if is_gone w then (gone, w)
  else match shell_words line with Some words => run_words words w | None => (done_with "", w) end.
(** A name longer than those of all files *)
Definition longest (f : gmap string string) : nat := list_max (map (fun e => String.length (fst e)) (map_to_list f)).
Fixpoint xs (n : nat) : string := match n with O => "" | S n' => String "x" (xs n') end.
Definition sandbox : Sandbox World := mkSandbox _
  (fun line _ _ => run_line line)
  (fun path w => (if is_gone w then gone else Ok (is_some (w_files w !! path), w_files w !! path), w))
  (fun path content w => if is_gone w then (gone, w) else (Ok tt, set_files (<[path := content]> (w_files w)) w))
  (fun _ w => (Ok tt, w)) (fun _ w => (Ok false, w)) (fun _ => 0)
  (fun w => (Ok (xs (longest (w_files w))), w)) (fun w => (Ok "r", w)).

Lemma xs_length n : String.length (xs n) = n.
Proof. induction n as [|n IH]; [done|]. cbn. by rewrite IH. Qed.
Lemma fresh_temp f d : f !! temp_path d (xs (longest f)) = None.
Proof.
  destruct (f !! temp_path d _) as [c|] eqn:E; [|done]. exfalso.
  apply elem_of_map_to_list, list_elem_of_In in E.
  apply (in_map (fun e => String.length (fst e))) in E. cbn in E.
  assert (Hle : (String.length (temp_path d (xs (longest f))) <= longest f)%nat).
  { pose proof (proj1 (list_max_le (map (fun e => String.length (fst e)) (map_to_list f)) (longest f)) (Nat.le_refl _)) as Hm.
    rewrite List.Forall_forall in Hm. by apply Hm. }
  unfold temp_path in Hle. rewrite !length_append, xs_length in Hle. cbn in Hle. lia.
Qed.
Lemma exec_words command args w :
  exec sandbox command args w = if is_gone w then (gone, w) else run_words (command :: args) w.
Proof. change (exec sandbox command args w) with (run_line (shell_line command args) w). unfold run_line. by rewrite shell_line_words. Qed.

#[local] Instance demo_files : SandboxFiles sandbox w_files.
Proof.
  split; try done.
  - intros command args Hq w. rewrite exec_words. destruct (is_gone w); [done|].
    unfold quiet_commands in Hq. rewrite list_elem_of_In in Hq. cbn in Hq.
    destruct_or! Hq; subst command; cbn; by repeat case_match.
  - intros source target w _. rewrite exec_words. destruct (is_gone w); [by left|]. cbn.
    destruct (bool_decide _); [done|]. destruct (w_files w !! source) as [c|] eqn:E; [|done].
    destruct (w_health w); cbn; first [by exists c|right; by exists c].
  - intros path w. rewrite exec_words. destruct (is_gone w); [done|]. cbn. intros q Hq. by rewrite lookup_delete_ne.
  - intros path content w. cbn. by destruct (is_gone w).
  - intros path w. cbn. split; [done|]. intros content. destruct (is_gone w); [done|]. by intros [= _ E].
  - intros w. eexists. split; [done|]. intros d. apply fresh_temp.
Qed.

Definition root : string := "/home/sandbox/checkouts/c1".
Definition at_root (path : string) : string := root +:+ "/" +:+ path.
Definition start : World := mkWorld {[at_root "a.ts" := "let a = 1;"; at_root "b.ts" := "let b = 1;"]} [at_root "b.ts"] steady.
Definition context : ToolboxCommandContext := mkToolbox None None None.
#[local] Instance demo_crypto : WebCrypto.
Proof. refine {| sha256_digest _ := repeat Byte.x00 32 |}. done. Defined.
Definition replace (path old new : string) : ExactEditInput := mkEdit path old new None None None.
Definition edits : list ExactEditInput := [replace "a.ts" "1" "2"; replace "lib/../b.ts" "1" "2"].

(** The second file is protected: the first edit is taken back. *)
Example second_fails :
  match multiEdit sandbox root context "run-1" edits start with
  | (Err (EditError message), w) => message = "failed" /\ map_to_list (w_files w) = map_to_list (w_files start)
  | _ => False
  end.
Proof. vm_compute. by split. Qed.
Example both_edited :
  match multiEdit sandbox root context "run-1" edits (mkWorld (w_files start) [] steady) with
  | (Ok _, w) => w_files w !! at_root "a.ts" = Some "let a = 2;" /\ w_files w !! at_root "b.ts" = Some "let b = 2;" /\
                 size (w_files w) = 2%nat
  | _ => False
  end.
Proof. vm_compute. by split_and!. Qed.

(** The sandbox goes away after the first file was written: the rollback throws too,
    and the file stays edited. *)
Example sandbox_lost :
  match multiEdit sandbox root context "run-1" edits (mkWorld (w_files start) [] (gone_after 1)) with
  | (Err _, w) => w_files w !! at_root "a.ts" = Some "let a = 2;" /\ w_files w !! at_root "b.ts" = Some "let b = 1;"
  | _ => False
  end.
Proof. vm_compute. by split. Qed.
(** The sandbox renames the file and throws instead of answering: the edit fails, and
    is not taken back. *)
Example answer_lost :
  match multiEdit sandbox root context "run-1" edits (mkWorld (w_files start) [] answerless) with
  | (Err _, w) => w_files w !! at_root "a.ts" = Some "let a = 2;" /\ w_files w !! at_root "b.ts" = Some "let b = 1;"
  | _ => False
  end.
Proof. vm_compute. by split. Qed.

Lemma edits_all_or_none_witness :
  match multiEdit sandbox root context "run-1" edits start with
  | (Ok _, w') => exists prepared, Forall2 (prepared_from root (w_files start)) edits prepared /\
                    w_files w' = writes pe_nextContent (w_files start) prepared
  | (Err _, w') => leftover (w_files start) (w_files w') \/
                   exists prepared, Forall2 (prepared_from root (w_files start)) edits prepared /\
                     taken_back sandbox w_files context "run-1" (w_files start) prepared w'
  end.
Proof. exact (edits_all_or_none sandbox w_files root context "run-1" edits start). Defined.
Lemma edit_alone_witness :
  match edit sandbox root context "run-1" (replace "a.ts" "1" "2") start with
  | (Ok _, w') => exists p, prepared_from root (w_files start) (replace "a.ts" "1" "2") p /\
                    w_files w' = <[pe_targetPath p := pe_nextContent p]> (w_files start)
  | (Err _, w') => leftover (w_files start) (w_files w') \/
                   exists p, prepared_from root (w_files start) (replace "a.ts" "1" "2") p /\
                     write_failed sandbox (pe_targetPath p) (pe_nextContent p) (w_files start) (w_files w')
  end.
Proof. exact (edit_alone sandbox w_files root context "run-1" (replace "a.ts" "1" "2") start). Defined.
End EditorDemo.
