(* ===== verification/FileTools.v ===== *)
(** The file tools of the sandbox: RipgrepService.ts and LanguageToolService.ts of
    [apps/secure-agent-api/src/plugins/filesystem], and FileSystemPlugin.ts. *)
From S2P Require Import Prelude Js Zod Text Json Regex Approvals RiskyAction ArtifactStore Toolbox WorkspacePaths WorkspaceEdit.
From Stdlib Require Import Ascii QArith_base.
#[local] Open Scope Z_scope.

(** * RipgrepService.ts *)

Definition newline_text : string := String LF "".
Definition MAX_RESULTS : Z := 200.
Definition DEFAULT_MAX_RESULTS : Z := 50.
Definition MAX_LINE_LENGTH : Z := 500.
Definition MAX_RG_STDOUT_BYTES : nat := Z.to_nat 120000.
Definition RG_TIMEOUT_MS : Z := 5000.
Definition GIT_EXCLUDE_GLOB : string := "!.git/**".

Record FilesInput : Type := mkFiles { fi_path : option string; fi_glob : option string; fi_maxResults : option Z }.
Record GrepInput : Type := mkGrep {
  gi_pattern : string;
  gi_path : option string;
  gi_glob : option string;
  gi_maxResults : option Z;
  gi_caseSensitive : option bool;
}.
Record GrepRow : Type := mkRow { gr_path : string; gr_line : jsnum; gr_text : string; gr_matchCount : Z }.
Record TreeRow : Type := mkTreeRow { tr_path : string; tr_depth : nat; tr_directory : bool }.

Definition clampMaxResults (value : option Z) : Z :=
  match value with
  | None | Some 0 => DEFAULT_MAX_RESULTS
  | Some n => Z.min (Z.max n 1) MAX_RESULTS
  end.
Definition resolveSearchPath (inputPath : option string) : res path_error string :=
  match truthy inputPath with Some p => validateRepoRelativePath p | None => Ok "." end.
Definition validateSearchPattern (pattern : string) : res path_error string :=
  if multiline pattern then Err "Invalid search pattern: contains illegal characters"
  else if startsWith "--" (trim_start pattern) then Err "Invalid search pattern: flag-like values are not allowed"
  else Ok pattern.
Definition glob_args (glob : option string) : res path_error (list string) :=
  match truthy glob with Some g => pattern ← validateSearchPattern g; Ok ["--glob"; pattern] | None => Ok [] end.
Definition buildFilesArgs (input : FilesInput) : res path_error (list string) :=
  globs ← glob_args (fi_glob input);
  path ← resolveSearchPath (fi_path input);
  Ok (["--files"; "--sort"; "path"; "--glob"; GIT_EXCLUDE_GLOB] ++ globs ++ [path]).
Definition buildGrepArgs (input : GrepInput) : res path_error (list string) :=
  pattern ← validateSearchPattern (gi_pattern input);
  globs ← glob_args (gi_glob input);
  path ← resolveSearchPath (gi_path input);
  Ok ((match gi_caseSensitive input with Some true => [] | _ => ["--ignore-case"] end) ++
      ["--json"; "--line-number"; "--with-filename"; "--color"; "never"; "--sort"; "path"; "--glob"; GIT_EXCLUDE_GLOB;
       "--max-columns"; Number_toString MAX_LINE_LENGTH; "--regexp"; pattern] ++ globs ++ [path]).
Definition capRipgrepStdout (stdout : string) : string * bool :=
  if (String.length stdout <=? MAX_RG_STDOUT_BYTES)%nat then (stdout, false)
  else (slice 0 MAX_RG_STDOUT_BYTES stdout, true).
Definition truncateLine (line : string) : string :=
  if str_length line <=? MAX_LINE_LENGTH then line
  else slice 0 (Z.to_nat MAX_LINE_LENGTH) line +:+ " [line truncated]".
Definition buildNarrowHint (truncated : bool) : JsonRecord :=
  if truncated then [("narrowHint", JStr "Narrow path/glob or lower result scope to continue.")] else [].

Section Rows.
Context `{!JsRuntime, !JsonNumbers, !NumberTexts}.

Fixpoint insert_by {A} (le : A -> A -> bool) (x : A) (l : list A) : list A :=
  match l with
  | [] => [x]
  | y :: l' => if le x y then x :: l else y :: insert_by le x l'
  end.
(** [sort(compare)], which is stable *)
Definition sort_by {A} (le : A -> A -> bool) (l : list A) : list A := fold_right (insert_by le) [] l.
Definition unique_values (values : list string) : list string :=
  foldl (fun seen v => if bool_decide (v ∈ seen) then seen else seen ++ [v]) [] values.
Definition sortUnique (values : list string) : list string := sort_by locale_le (unique_values values).
Definition output_lines (stdout : string) : list string :=
  List.filter (fun line => negb (String.eqb line "")) (split_on LF stdout).

(** The texts of a match are strings, as ripgrep writes them. *)
Definition parseGrepJsonLine (line : string) : option GrepRow :=
  if String.eqb (trim line) "" then None
  else match JSON_parse line with
       | Ok parsed =>
           let data := RiskyAction.field "data" (Some parsed) in
           match RiskyAction.field "type" (Some parsed), RiskyAction.field "text" (RiskyAction.field "path" data),
                 RiskyAction.field "line_number" data, RiskyAction.field "text" (RiskyAction.field "lines" data) with
           | Some (JStr "match"), Some (JStr filePath), Some (JNum lineNumber), Some (JStr text) =>
               if String.eqb filePath "" then None
               else Some (mkRow filePath lineNumber (truncateLine (strip_end newline_text text))
                      (Z.max 1 (match RiskyAction.field "submatches" data with
                                | Some (JArr l) => Z.of_nat (length l)
                                | _ => 0
                                end)))
           | _, _, _, _ => None
           end
       | Err _ => None
       end.
Definition parseGrepRows (stdout : string) : list GrepRow := omap parseGrepJsonLine (split_on LF stdout).
Definition formatGrepRow (row : GrepRow) : string :=
  gr_path row +:+ ":" +:+ num_toString (gr_line row) +:+ ": " +:+ gr_text row.
Definition formatTreeRow (row : TreeRow) : string :=
  String.concat "" (repeat "  " (tr_depth row)) +:+ (if tr_directory row then "> " else "- ") +:+ tr_path row.
Definition addDirectoryRows (rows : dict TreeRow) (filePath : string) : dict TreeRow :=
  let parts := split_on slash filePath in
  foldl (fun rows index =>
    let path := Js.join "/" (take index parts) in dset path (mkTreeRow path (index - 1) true) rows)
    rows (seq 1 (length parts - 1)).
Definition buildTreeRows (paths : list string) : list TreeRow :=
  sort_by (fun a b => locale_le (tr_path a) (tr_path b))
    (dvals (foldl (fun rows filePath =>
      dset filePath (mkTreeRow filePath (length (split_on slash filePath) - 1) false) (addDirectoryRows rows filePath)) []
      paths)).

Definition counted (n : nat) : json := JNum (NInt (Z.of_nat n)).
Definition listed_metadata (total : nat) (returned : nat) (stdoutTruncated truncated : bool) : JsonRecord :=
  [("total", counted total); ("returned", counted returned); ("outputByteCap", JNum (NInt 120000));
   ("stdoutTruncated", JBool stdoutTruncated)] ++ buildNarrowHint truncated.
Definition listed_result (output : string) (metadata : JsonRecord) (truncated : bool) : PluginResult :=
  mkResult true (Some output) None None (Some metadata) (Some truncated).
Definition limit_rows {A} (rows : list A) (maxResults : Z) : list A := take (Z.to_nat maxResults) rows.
Definition is_cut {A} (rows limited : list A) (stdoutTruncated : bool) : bool :=
  stdoutTruncated || (length limited <? length rows)%nat.
Definition buildPathResult (title : string) (paths : list string) (maxResults : Z) (stdoutTruncated : bool) : PluginResult :=
  let limited := limit_rows paths maxResults in
  let truncated := is_cut paths limited stdoutTruncated in
  listed_result (Js.join newline_text limited)
    ([("title", JStr title); ("paths", JArr (map JStr limited))] ++
     listed_metadata (length paths) (length limited) stdoutTruncated truncated) truncated.
Definition tree_row_json (row : TreeRow) : json :=
  JObj [("path", JStr (tr_path row)); ("depth", counted (tr_depth row));
        ("kind", JStr (if tr_directory row then "directory" else "file"))].
Definition buildTreeResult (rows : list TreeRow) (maxResults : Z) (stdoutTruncated : bool) : PluginResult :=
  let limited := limit_rows rows maxResults in
  let truncated := is_cut rows limited stdoutTruncated in
  listed_result (Js.join newline_text (map formatTreeRow limited))
    (("rows", JArr (map tree_row_json limited)) ::
     listed_metadata (length rows) (length limited) stdoutTruncated truncated) truncated.
Definition grep_row_json (row : GrepRow) : json :=
  JObj [("path", JStr (gr_path row)); ("line", JNum (gr_line row)); ("text", JStr (gr_text row));
        ("matchCount", JNum (NInt (gr_matchCount row)))].
Definition buildGrepResult (rows : list GrepRow) (maxResults : Z) (stdoutTruncated : bool) : PluginResult :=
  let limited := limit_rows rows maxResults in
  let truncated := is_cut rows limited stdoutTruncated in
  listed_result (Js.join newline_text (map formatGrepRow limited))
    ([("rows", JArr (map grep_row_json limited)); ("totalRows", counted (length rows));
      ("totalMatches", JNum (NInt (foldl (fun total row => total + gr_matchCount row) 0 rows)));
      ("returned", counted (length limited)); ("outputByteCap", JNum (NInt 120000));
      ("stdoutTruncated", JBool stdoutTruncated)] ++ buildNarrowHint truncated) truncated.
End Rows.
Definition failed_result (error : string) : PluginResult := mkResult false None (Some error) None None None.
Definition buildInvalidRegexResult (stderr : string) : PluginResult :=
  mkResult false None (Some ("Invalid grep regex: " +:+ default "pattern failed to compile" (truthy (Some (trim stderr)))))
    None (Some [("reason", JStr "invalid_regex")]) (Some false).

(** * FileSystemPlugin.ts: texts *)

Definition DEFAULT_READ_LIMIT : Z := 200.
Definition MAX_READ_LIMIT : Z := 1000.
Definition MAX_READ_LINE_LENGTH : Z := 500.
Definition MAX_READ_OUTPUT_BYTES : Z := 24000.
Definition MAX_READ_FILE_BYTES : Z := 1048576.
Definition MAX_WRITE_CONTENT_BYTES : Z := 200000.

Definition BINARY_MIME_PREFIXES : list string :=
  ["image/"; "video/"; "audio/"; "font/"; "application/pdf"; "application/zip"; "application/x-tar";
   "application/x-gzip"; "application/x-bzip"; "application/x-7z-compressed"; "application/x-rar";
   "application/octet-stream"; "application/x-executable"; "application/x-sharedlib";
   "application/x-msdownload"; "application/vnd."].
Definition isBinaryMimeType (mimeType : string) : bool :=
  existsb (fun prefix => startsWith prefix (toLowerCase mimeType)) BINARY_MIME_PREFIXES.
Definition buildReadWindowArgs (targetPath : string) (offset limit : Z) : list string :=
  ["-v"; "start=" +:+ Number_toString (offset + 1); "-v"; "limit=" +:+ Number_toString limit;
   "-v"; "max=" +:+ Number_toString MAX_READ_LINE_LENGTH;
   "NR >= start { line=$0; if (length(line) > max) line=substr(line, 1, max) " +:+ dquote +:+ " [line truncated]" +:+
   dquote +:+ "; print line; count++; if (count >= limit) exit }"; targetPath].
Definition capReadOutput (output : string) : string * bool :=
  truncateUtf8 output MAX_READ_OUTPUT_BYTES (newline_text +:+ "[output truncated]").
Definition prefixReadLines (content : string) (offset : Z) : string :=
  if String.eqb content "" then ""
  else Js.join newline_text
    (imap (fun index line => Number_toString (offset + Z.of_nat index + 1) +:+ ": " +:+ line)
       (split_lines (strip_end newline_text content))).
Definition countOutputLines (output : string) : Z :=
  if String.eqb output "" then 0
  else Z.of_nat (length (split_lines output)) - (if endsWith newline_text output then 1 else 0).

Section Plugin.
Context `{!JsRuntime, !JsonNumbers, !NumberTexts, !WebCrypto}.
(** [None] is [null]. *)
Definition parseLineCount (output : string) : option jsnum :=
  match split_spaces (trim output) with first :: _ => Number_of first | [] => None end.

Record ReadOutput : Type := mkReadOutput {
  ro_path : string;
  ro_content : string;
  ro_offset : Z;
  ro_limit : Z;
  ro_totalLines : option jsnum;
  ro_returnedLines : Z;
  ro_truncated : bool;
  ro_nextOffset : option Z;
}.
Definition formatReadFileOutput (input : ReadOutput) : string :=
  let header := Js.join " "
    (["[read_file] path=" +:+ ro_path input; "offset=" +:+ Number_toString (ro_offset input);
      "limit=" +:+ Number_toString (ro_limit input); "returnedLines=" +:+ Number_toString (ro_returnedLines input);
      "totalLines=" +:+ from_option num_toString "unknown" (ro_totalLines input);
      "truncated=" +:+ (if ro_truncated input then "true" else "false")] ++
     match ro_nextOffset input with Some n => ["nextOffset=" +:+ Number_toString n] | None => [] end) in
  let body := prefixReadLines (ro_content input) (ro_offset input) in
  let footer :=
    match ro_nextOffset input with
    | Some n =>
        if ro_truncated input then
          newline_text +:+ "[read_file] Continue with {" +:+ dquote +:+ "path" +:+ dquote +:+ ":" +:+ dquote +:+
          ro_path input +:+ dquote +:+ "," +:+ dquote +:+ "offset" +:+ dquote +:+ ":" +:+ Number_toString n +:+ "," +:+
          dquote +:+ "limit" +:+ dquote +:+ ":" +:+ Number_toString (ro_limit input) +:+ "} or use grep/glob to narrow."
        else ""
    | None => ""
    end in
  if String.eqb body "" then header +:+ newline_text else header +:+ newline_text +:+ body +:+ footer.

(** * The payloads *)

(** [z.object(shape)]: other keys are dropped. *)
Definition z_strip (shape : list Zod.field) : zod := fun j =>
  match j with JObj o => JObj <$> parse_fields o shape | _ => None end.
Definition z_int_between (lo : Z) (hi : option Z) : zod := z_test (fun j =>
  match j with
  | JNum (NInt n) => (lo <=? n) && match hi with Some h => n <=? h | None => true end
  | _ => false
  end).
Definition z_matching (ok : string -> bool) : zod := z_test (fun j => match j with JStr s => ok s | _ => false end).
Definition any_text : zod := z_matching (fun _ => true).
Definition some_text : zod := z_matching (fun s => negb (String.eqb s "")).
Definition hex_char (c : ascii) : bool := ascii_between 48 57 c || ascii_between 97 102 c || ascii_between 65 70 c.
Definition SHA256_PATTERN : zod := z_matching (fun s => str_between 64 64 s && str_forall hex_char s).
Definition bounded_content (s : string) : bool := utf8ByteLength s <=? MAX_WRITE_CONTENT_BYTES.
Definition BoundedWriteContentSchema : zod := z_matching bounded_content.
Definition exact_edit_shape : list Zod.field :=
  [req "path" some_text; req "oldText" (z_matching (fun s => bounded_content s && negb (String.eqb s "")));
   req "newText" BoundedWriteContentSchema; opt "replaceAll" z_boolean;
   opt "expectedReplacements" (z_int_between 1 (Some 10000)); opt "expectedSha256" SHA256_PATTERN].
Definition ExactEditSchema : zod := z_strip exact_edit_shape.
Definition z_edits : zod := fun j =>
  match j with
  | JArr l => if (1 <=? Z.of_nat (length l)) && (Z.of_nat (length l) <=? 20) then JArr <$> mapM ExactEditSchema l else None
  | _ => None
  end.
Definition payload_shape (fields : list Zod.field) : zod := z_strip (req "action" any_text :: fields ++ [opt "runId" any_text]).
Definition maxResults_field : Zod.field := opt "maxResults" (z_int_between 1 (Some 200)).
Definition payload_fields : list (string * list Zod.field) :=
  [("list_files", [opt "path" any_text]);
   ("read_file", [req "path" some_text; opt "offset" (z_int_between 0 None);
                 opt "limit" (z_int_between 1 (Some MAX_READ_LIMIT))]);
   ("files", [opt "path" any_text; opt "glob" any_text; maxResults_field]);
   ("tree", [opt "path" any_text; opt "glob" any_text; maxResults_field]);
   ("glob", [req "pattern" some_text; opt "path" any_text; maxResults_field]);
   ("grep", [req "pattern" some_text; opt "path" any_text; opt "glob" any_text; maxResults_field;
            opt "caseSensitive" z_boolean]);
   ("write_file", [req "path" some_text; req "content" BoundedWriteContentSchema;
                  opt "expectedSha256" SHA256_PATTERN]);
   ("edit_file", exact_edit_shape);
   ("multi_edit", [req "edits" z_edits]);
   ("format_file", [req "path" some_text]);
   ("make_dir", [req "path" some_text])].
Definition FileSystemPayloadSchema : zod :=
  z_tagged_union "action" (dmap payload_shape payload_fields).

(** The fields of a parsed payload *)
Definition text_field (key : string) (p : JsonRecord) : option string :=
  match dget key p with Some (JStr s) => Some s | _ => None end.
Definition int_field (key : string) (p : JsonRecord) : option Z :=
  match dget key p with Some (JNum (NInt n)) => Some n | _ => None end.
Definition bool_field (key : string) (p : JsonRecord) : option bool :=
  match dget key p with Some (JBool b) => Some b | _ => None end.
Definition the_text (key : string) (p : JsonRecord) : string := default "" (text_field key p).
Definition edit_of (p : JsonRecord) : ExactEditInput :=
  mkEdit (the_text "path" p) (the_text "oldText" p) (the_text "newText" p) (bool_field "replaceAll" p)
    (int_field "expectedReplacements" p) (text_field "expectedSha256" p).
Definition edits_of (p : JsonRecord) : list ExactEditInput :=
  match dget "edits" p with
  | Some (JArr l) => map (fun j => match j with JObj o => edit_of o | _ => edit_of [] end) l
  | _ => []
  end.

(** * The operations *)

Section Operations.
Context {W : Type} (sandbox : Sandbox W).
Variable zodMessage : json -> string.
Notation M := (ST W edit_error).

Section Scoped.
Variables (workspaceRoot : string) (toolboxContext : ToolboxCommandContext) (runId : string).

Definition run_spec (spec : SafeCommandSpec) (operation : string) : M ToolboxExecutionResult :=
  toolbox (runSafeCommand sandbox (withToolboxCommandContext spec toolboxContext (Some operation)) [sp_command spec]).
Definition run_command (command : string) (args : list string) (operation : string) : M ToolboxExecutionResult :=
  run_spec (plain_spec runId command args) operation.
Definition error_or (otherwise : string) (result : ToolboxExecutionResult) : string :=
  default otherwise (truthy (Some (ex_stderr result))).

(** ** Ripgrep *)

Definition rg (args : list string) (operation : string) : M ToolboxExecutionResult :=
  run_spec (mkSpec "rg" (Some args) None (Some workspaceRoot) (Some runId) None None (Some RG_TIMEOUT_MS)) operation.
(** The listing, or the error *)
Definition runFilesCommand (input : FilesInput) : M (string + string) :=
  args ← guard (buildFilesArgs input);
  result ← rg args "filesystem.ripgrep_files";
  mret (if ex_exitCode result =? 1 then inl ""
        else if negb (ex_exitCode result =? 0) then inr (error_or "ripgrep file listing failed" result)
        else inl (ex_stdout result)).
Definition listing (build : list string -> Z -> bool -> PluginResult) (input : FilesInput) : M PluginResult :=
  result ← runFilesCommand input;
  mret match result with
       | inr error => failed_result error
       | inl output =>
           let '(stdout, truncated) := capRipgrepStdout output in
           build (sortUnique (output_lines stdout)) (clampMaxResults (fi_maxResults input)) truncated
       end.
Definition rg_files (input : FilesInput) : M PluginResult := listing (buildPathResult "Files") input.
Definition rg_tree (input : FilesInput) : M PluginResult :=
  listing (fun paths => buildTreeResult (buildTreeRows paths)) input.
Definition rg_grep (input : GrepInput) : M PluginResult :=
  args ← guard (buildGrepArgs input);
  result ← rg args "filesystem.ripgrep_grep";
  mret (if ex_exitCode result =? 2 then buildInvalidRegexResult (ex_stderr result)
        else if negb (ex_exitCode result =? 0) && negb (ex_exitCode result =? 1)
        then failed_result (error_or "grep failed" result)
        else let '(stdout, truncated) := capRipgrepStdout (ex_stdout result) in
             buildGrepResult (parseGrepRows stdout) (clampMaxResults (gi_maxResults input)) truncated).

(** ** LanguageToolService.ts *)

Definition LANGUAGE_TOOL_TIMEOUT_MS : Z := 30000.
Definition PRETTIER_EXTENSIONS : list string :=
  [".css"; ".graphql"; ".html"; ".js"; ".json"; ".jsx"; ".md"; ".mdx"; ".scss"; ".ts"; ".tsx"; ".yaml"; ".yml"].
(** [path.posix.extname] *)
Definition extname (path : string) : string :=
  let base := List.last (split_on slash (strip_trailing path)) "" in
  match rev (split_on "." base) with
  | [] | [_] => ""
  | ext :: before =>
      if String.eqb base ".." || String.eqb (Js.join "." (rev before)) "" then "" else "." +:+ ext
  end.
Definition resolveSupportedPath (inputPath : string) : M string :=
  let extension := toLowerCase (extname inputPath) in
  if bool_decide (extension ∈ PRETTIER_EXTENSIONS)
  then resolver_resolve sandbox workspaceRoot toolboxContext runId inputPath "filesystem.formatter.resolve_path"
  else throw (EditError ("formatter does not support " +:+ default "this file type" (truthy (Some extension)))).
Definition read_target (targetPath : string) : M string :=
  result ← toolbox (sb_readFile sandbox targetPath);
  match result with
  | (true, Some content) => mret content
  | _ => throw (EditError "Unable to read language-tool target")
  end.
Definition formatFile (inputPath : string) : M PluginResult :=
  targetPath ← resolveSupportedPath inputPath;
  before ← read_target targetPath;
  result ← run_spec (mkSpec "prettier" (Some ["--write"; "--"; targetPath]) None (Some workspaceRoot) (Some runId) None None
                       (Some LANGUAGE_TOOL_TIMEOUT_MS)) "filesystem.format_file";
  if negb (ex_exitCode result =? 0) then mret (failed_result (error_or "Formatter failed" result))
  else
    after ← read_target targetPath;
    let '(output, truncated) := truncateUtf8 (default ("Formatted " +:+ inputPath) (truthy (Some (ex_stdout result))))
                                  MAX_READ_OUTPUT_BYTES (newline_text +:+ "[output truncated]") in
    mret (mkResult true (Some output) None None
            (Some [("path", JStr inputPath); ("formatter", JStr "prettier"); ("changed", JBool (negb (String.eqb before after)))])
            (Some truncated)).

(** ** Listing, reading and making directories *)

Definition listFiles (path : option string) : M PluginResult :=
  targetDir ← guard (resolveWorkspacePath workspaceRoot (default "." path));
  result ← run_command "ls" ["-1p"; targetDir] "filesystem.list_files";
  mret (if negb (ex_exitCode result =? 0) then failed_result (error_or "Directory not found" result)
        else
          let files := List.filter (fun entry => negb (String.eqb entry "")) (split_on LF (trim (ex_stdout result))) in
          let totalFiles := length files in
          let output :=
            if (20 <? totalFiles)%nat then
              Js.join newline_text (take 20 files) +:+ newline_text +:+ newline_text +:+ "... and " +:+
              Number_toString (Z.of_nat totalFiles - 20) +:+ " more files (Total: " +:+
              Number_toString (Z.of_nat totalFiles) +:+ ")"
            else ex_stdout result in
          mkResult true (Some output) None None None None).
Definition makeDirectory (path : string) : M PluginResult :=
  targetPath ← guard (resolveWorkspacePath workspaceRoot path);
  result ← run_command "mkdir" ["-p"; targetPath] "filesystem.make_dir";
  mret (if ex_exitCode result =? 0 then mkResult true (Some "Directory created") None None None None
        else mkResult false (Some (ex_stderr result)) (Some (ex_stderr result)) None None None).

Definition exceeds (n : jsnum) (bound : Z) : bool := negb (Qle_bool (num_value n) (inject_Z bound)).
Definition optional_num (key : string) (n : option jsnum) : JsonRecord :=
  match n with Some n => [(key, JNum n)] | None => [] end.
Definition countLines (targetPath : string) : M (option jsnum) :=
  result ← run_command "wc" ["-l"; targetPath] "filesystem.read_file_line_count";
  mret (if negb (ex_exitCode result =? 0) then None else parseLineCount (ex_stdout result)).
(** What is read of the size: an early result, or the number of bytes when it is known *)
Definition guard_size (path targetPath : string) : M (PluginResult + option jsnum) :=
  result ← run_command "stat" ["-c"; "%s"; targetPath] "filesystem.read_file_stat";
  if negb (ex_exitCode result =? 0) then mret (inl (failed_result (error_or "Unable to stat file" result)))
  else
    let totalBytes := Number_of (trim (ex_stdout result)) in
    mret match totalBytes with
         | Some n =>
             if exceeds n MAX_READ_FILE_BYTES then
               inl (mkResult false None
                      (Some ("File too large to read unconditionally (" +:+ num_toString n +:+ " bytes > " +:+
                             Number_toString MAX_READ_FILE_BYTES +:+ "). Pass offset/limit to stream a window.")) None
                      (Some [("path", JStr path); ("totalBytes", JNum n); ("maxReadBytes", JNum (NInt MAX_READ_FILE_BYTES))])
                      None)
             else inr totalBytes
         | None => inr None
         end.
(** The window of a text file *)
Definition read_window (path targetPath mimeType : string) (totalBytes : option jsnum) (offset limit : Z)
    : M PluginResult :=
  result ← run_command "awk" (buildReadWindowArgs targetPath offset limit) "filesystem.read_file";
  if negb (ex_exitCode result =? 0) then mret (failed_result (error_or "File read failed" result))
  else
    let content := ex_stdout result in
    let returnedLines := countOutputLines content in
    totalLines ← countLines targetPath;
    let windowTruncated := includes "[line truncated]" content ||
      match totalLines with Some n => exceeds n (offset + limit) | None => false end in
    let nextOffset := if windowTruncated then Some (offset + returnedLines) else None in
    let '(output, capped) := capReadOutput (formatReadFileOutput
          (mkReadOutput path content offset limit totalLines returnedLines windowTruncated nextOffset)) in
    let truncated := capped || windowTruncated in
    mret (mkResult true (Some output) None None
      (Some ([("path", JStr path); ("mimeType", JStr mimeType)] ++ optional_num "totalBytes" totalBytes ++
        [("offset", JNum (NInt offset)); ("limit", JNum (NInt limit));
         ("totalLines", from_option JNum JNull totalLines); ("returnedLines", JNum (NInt returnedLines));
         ("returnedBytes", JNum (NInt (str_length output)));
         ("nextOffset", from_option (fun n => JNum (NInt n)) JNull nextOffset)] ++
        (if truncated then
           [("narrowHint", JStr ("Use read_file with offset=" +:+
               Number_toString (default (offset + returnedLines) nextOffset) +:+ " and limit=" +:+ Number_toString limit +:+
               " to continue, or use grep/glob to narrow the target."))]
         else []))) (Some truncated)).
Definition readFile (path : string) (offset limit : option Z) : M PluginResult :=
  targetPath ← guard (resolveWorkspacePath workspaceRoot path);
  let unconditional := match offset with None | Some 0 => true | _ => false end &&
                       match limit with None => true | _ => false end in
  size ← (if unconditional then guard_size path targetPath else mret (inr None));
  match size with
  | inl result => mret result
  | inr totalBytes =>
      fileType ← run_command "file" ["-b"; "--mime-type"; targetPath] "filesystem.read_file_type";
      if negb (ex_exitCode fileType =? 0) then mret (failed_result (error_or "Unable to read file type" fileType))
      else
        let mimeType := toLowerCase (trim (ex_stdout fileType)) in
        if isBinaryMimeType mimeType then
          mret (mkResult true (Some "[BINARY_FILE_DETECTED]") None (Some true)
                  (Some ([("path", JStr path); ("mimeType", JStr mimeType)] ++ optional_num "totalBytes" totalBytes))
                  (Some false))
        else read_window path targetPath mimeType totalBytes (default 0 offset) (default DEFAULT_READ_LIMIT limit)
  end.

Definition files_input (p : JsonRecord) : FilesInput :=
  mkFiles (text_field "path" p) (text_field "glob" p) (int_field "maxResults" p).
Definition dispatch (action : string) (p : JsonRecord) : M PluginResult :=
  let on := String.eqb action in
  if on "list_files" then listFiles (text_field "path" p)
  else if on "read_file" then readFile (the_text "path" p) (int_field "offset" p) (int_field "limit" p)
  else if on "files" then rg_files (files_input p)
  else if on "tree" then rg_tree (files_input p)
  else if on "glob" then rg_files (mkFiles (text_field "path" p) (text_field "pattern" p) (int_field "maxResults" p))
  else if on "grep" then
    rg_grep (mkGrep (the_text "pattern" p) (text_field "path" p) (text_field "glob" p) (int_field "maxResults" p)
               (bool_field "caseSensitive" p))
  else if on "write_file" then
    WorkspaceEdit.write sandbox workspaceRoot toolboxContext runId (the_text "path" p) (the_text "content" p)
      (text_field "expectedSha256" p)
  else if on "edit_file" then WorkspaceEdit.edit sandbox workspaceRoot toolboxContext runId (edit_of p)
  else if on "multi_edit" then multiEdit sandbox workspaceRoot toolboxContext runId (edits_of p)
  else if on "format_file" then formatFile (the_text "path" p)
  else makeDirectory (the_text "path" p).
End Scoped.

(** [execute]: an exception becomes a result. *)
Definition plugin_execute (payload : json) (context : option WorkspaceScope) : M PluginResult :=
  let toolboxContext := readToolboxCommandContext payload in
  try_catch
    (parsed ← match FileSystemPayloadSchema payload with
              | Some (JObj p) => mret p
              | _ => throw (EditError (zodMessage payload))
              end;
     runId ← guard (normalizeRunId (coalesce (text_field "runId" parsed) (tc_runId toolboxContext)));
     workspaceRoot ← guard (resolveScopedWorkspaceRoot context runId);
     _ ← run_command toolboxContext runId "mkdir" ["-p"; workspaceRoot] "filesystem.prepare_workspace";
     dispatch workspaceRoot toolboxContext runId (the_text "action" parsed) parsed)
    (fun error => match error with
                  | EditError message => mret (failed_result message)
                  | NeverReturns => throw NeverReturns
                  end).
End Operations.
End Plugin.
