(* ===== verification/FileToolsProps.v ===== *)
(** The file tools: the commands they run and the paths these are given, and that
    every payload is answered. *)
From S2P Require Import Prelude Js Zod Text Json Regex Approvals RiskyAction ArtifactStore Toolbox WorkspacePaths WorkspaceEdit FileTools.
From Stdlib Require Import Ascii.
#[local] Open Scope Z_scope.

(** * The parsed payloads *)

Section Payloads.
End Payloads.

(** * Paths *)

(** An absolute path in normal form, by its names *)
Definition at_names (names : list string) : string := "/" +:+ Js.join "/" names.
Definition canonical (path : string) : Prop := exists names, Forall entry names /\ path = at_names names.


(** * The commands of the file tools *)

(** What the paths rest on: [realpath] answers an absolute path in normal form, here once
    it is trimmed, so no name begins or ends in white space; and a random UUID has no
    slash. *)
Class HostAnswers {W : Type} (sandbox : Sandbox W) : Prop := {
  ha_realpath path cwd env w c w' :
    sb_exec sandbox (shell_line "realpath" ["-m"; "--"; path]) cwd env w = (Ok c, w') -> cr_exitCode c = 0 ->
    canonical (trim (cr_stdout c));
  ha_uuid w uuid w' : sb_randomUUID sandbox w = (Ok uuid, w') -> one_name slash uuid;
}.

Section Commands.
Context {W : Type} (sandbox : Sandbox W).
Variable root : string.

End Commands.


Section Confined.
Context `{!JsRuntime, !JsonNumbers, !NumberTexts, !WebCrypto} {W : Type} (sandbox : Sandbox W) (log : W -> list string)
        `{!Logged sandbox log}.
(** Reading and writing files is not a command. *)
Class FilesQuiet : Prop := {
  fq_read path w : log (snd (sb_readFile sandbox path w)) = log w;
  fq_write path content w : log (snd (sb_writeFile sandbox path content w)) = log w;
}.
Context `{!FilesQuiet, !HostAnswers sandbox} (context : option WorkspaceScope) (before : list string).




Section Root.
Context (root runId0 : string) (toolboxContext : ToolboxCommandContext) (runId : string).
Hypothesis issued : resolveScopedWorkspaceRoot context runId0 = Ok root.



(** ** The operations *)

End Root.

End Confined.

Section Plugin.
Context `{!JsRuntime, !JsonNumbers, !NumberTexts, !WebCrypto} {W : Type} (sandbox : Sandbox W) (log : W -> list string)
        `{!Logged sandbox log, !FilesQuiet sandbox log, !HostAnswers sandbox}.
End Plugin.

Module FileDemo.
#[local] Existing Instance iso_runtime.
#[local] Instance demo_crypto : WebCrypto.
Proof. refine {| sha256_digest _ := repeat Byte.x00 32 |}. done. Defined.
#[local] Instance demo_numbers : JsonNumbers := {| number_of_text _ := NInt 0 |}.
#[local] Instance no_texts : NumberTexts := {| other_number _ := None |}.
(** A sandbox that logs the commands and answers each by its name *)
Definition World : Type := list string.
Definition sandbox (answer : string -> string) : Sandbox World := mkSandbox _
  (fun line _ _ w => (Ok (mkCommandResult 0 (match shell_words line with Some (c :: _) => answer c | _ => "" end) ""), w ++ [line]))
  (fun _ w => (Ok (true, Some "text"), w)) (fun _ _ w => (Ok tt, w)) (fun _ w => (Ok tt, w)) (fun _ w => (Ok false, w))
  (fun _ => 0) (fun w => (Ok "uuid", w)) (fun w => (Ok "abc", w)).
#[local] Instance logged answer : Logged (sandbox answer) id.
Proof. by split. Qed.
#[local] Instance quiet answer : FilesQuiet (sandbox answer) id.
Proof. by split. Qed.

(** The first line of a file of two lines, the last of which does not end in a newline *)
Definition answers (command : string) : string :=
  if String.eqb command "file" then "text/plain"
  else if String.eqb command "awk" then "one" +:+ newline_text
  else if String.eqb command "wc" then "1 a.txt"
  else if String.eqb command "realpath" then "/home/sandbox/checkouts/c1/a.txt" else "".
Lemma realpath_answer : trim (answers "realpath") = at_names ["home"; "sandbox"; "checkouts"; "c1"; "a.txt"].
Proof. by vm_compute. Qed.
#[local] Instance demo_host : HostAnswers (sandbox answers).
Proof.
  split.
  - intros path cwd env w c w'. pose proof (shell_line_words "realpath" ["-m"; "--"; path]) as Hw. revert Hw.
    generalize (shell_line "realpath" ["-m"; "--"; path]). intros line Hw [= <- _] _. cbn [cr_stdout].
    rewrite Hw. cbv beta iota. rewrite realpath_answer. unfold canonical. eexists. split; [|reflexivity].
    repeat constructor; discriminate.
  - by intros w uuid w' [= <- _].
Qed.
Definition payload : json := JObj
  [("action", JStr "read_file"); ("path", JStr "src/../a.txt"); ("offset", JNum (NInt 0)); ("limit", JNum (NInt 1));
   ("runId", JStr "run-1")].
Definition scope : option WorkspaceScope := Some (mkScope "/home/sandbox/checkouts/c1" "run-1").
Definition run_payload (payload : json) : res edit_error PluginResult * World :=
  plugin_execute (sandbox answers) (fun _ => "invalid") payload scope [].
(** [wc] does not count the last line: the reader is told that nothing is missing. *)
Example last_line_missed :
  match run_payload payload with
  | (Ok result, lines) => pr_truncated result = Some false /\ length lines = 4%nat
  | _ => False
  end.
Proof. by vm_compute. Qed.
(** A file written at [.], the path of the root: the directory is made, and the temporary
    file moved, in the parent of the root. *)
Example root_written :
  let root_answered := sandbox (fun command => if String.eqb command "realpath" then "/home/sandbox/checkouts/c1" else "") in
  match plugin_execute root_answered (fun _ => "invalid")
          (JObj [("action", JStr "write_file"); ("path", JStr "."); ("content", JStr "x"); ("runId", JStr "run-1")]) scope [] with
  | (Ok _, lines) => shell_line "mkdir" ["-p"; "/home/sandbox/checkouts"] ∈ lines
  | _ => False
  end.
Proof. vm_compute. set_solver. Qed.
(** The path of a search is the last argument, with nothing before it that ends the
    options: [rg] reads this one as an option that names a program to run. *)
Example option_as_path :
  match buildGrepArgs (mkGrep "x" (Some "--pre=./evil.sh") None None None) with
  | Ok args => last args = Some "--pre=./evil.sh" /\ "--" ∉ args
  | Err _ => False
  end.
Proof. vm_compute. split; [done|]. set_solver. Qed.
(** A sandbox that does not answer: the search has found nothing. *)
Example failure_as_no_match :
  let down := mkSandbox World (fun _ _ _ w => (Err (an_error "sandbox unavailable"), w))
    (fun _ w => (Ok (false, None), w)) (fun _ _ w => (Ok tt, w)) (fun _ w => (Ok tt, w)) (fun _ w => (Ok false, w))
    (fun _ => 0) (fun w => (Ok "uuid", w)) (fun w => (Ok "abc", w)) in
  match plugin_execute down (fun _ => "invalid")
          (JObj [("action", JStr "grep"); ("pattern", JStr "x"); ("runId", JStr "run-1")]) scope [] with
  | (Ok result, _) => pr_success result = true /\ pr_output result = Some "" /\ pr_truncated result = Some false
  | _ => False
  end.
Proof. by vm_compute. Qed.
End FileDemo.
